(* ===== verification/_CoqProject ===== *)
-Q . S2P
Prelude.v
Bytes.v
Spinlock.v
Kalloc.v
Vm.v
VmPt.v
VmUser.v
CString.v
Proc.v
ProcSteps.v
ProcSim.v
ProcProps.v
ProcCpu.v
ProcShare.v
Syscall.v
BlockCache.v
BlockClient.v
Bio.v
BioRefine.v
BioProps.v
FsLayout.v
Log.v
LogDisk.v
LogRun.v
LogTxn.v
LogProps.v
LogProto.v
Fs.v
FsPure.v
FsRun.v
FsBlocks.v
FsTree.v
FsMap.v
FsFile.v
FsSmall.v
Mkfs.v
MkfsImage.v
MkfsProps.v
User.v
UserProgs.v
Grep.v
Umalloc.v
Sh.v
ShRun.v
File.v
Sysfile.v
FileRefs.v
Exec.v
Trap.v
Pipe.v
Console.v
Kbd.v
Ide.v
Sleeplock.v
Mp.v
Protect.v
Apic.v
Asm.v
Boot.v
Main.v
ProjShell.v
