(* ===== verification/Prelude.v ===== *)
(** * A verification of the programs of this repository

    The main program is the teaching kernel xv6 under src/xv6-public/, extended with a
    multi-level feedback queue and a stride scheduler, light-weight threads,
    triple-indirect files and a [sync] call, with its boot loader, its user library, its user
    programs and the builder of its file system image.  The other one is the command line
    interpreter for Linux under src/proj_shell/.  The development translates its C functions into executable
    definitions, one definition per function with every branch and early return,
    and proves what makes the parts correct.

    ** How C is modelled

    A kernel function is a computation of the outcome monad [M S A] below: it
    returns ([Ret]) or stops ([Stop]) by a [panic], a division by zero, undefined
    behaviour, going to sleep, or spinning for ever; the state after it is kept
    in both cases.  Loops that are not structural carry fuel and stop with
    [Spins] when it runs out; the theorems state that the functions return, so
    the fuel given in the definitions is proved enough where a theorem speaks of
    the function.  Unsigned integers wrap at 32 bits ([u32]).  Signed [int]s are
    integers, taken modulo 2^32 ([i32]) where the code reinterprets a pattern or where a value
    that comes from a user program can overflow: the accounts of CPU shares in Proc.v wrap around, as the compiled
    code does, and an execution in which a process or thread id would pass 2^31-1 stops with [Undefined].  A pointer to an element of a
    table is its index, a pointer to shared memory an address.  A function that
    gives up the processor is cut there into segments ([segment]); what other
    processes do in between is a sequence of steps of a transition relation.
    What a component calls is an interface, a type class with the operations and,
    where its clients rely on them, their laws; other components or concrete
    examples are its instances.

    ** The parts

    - Prelude.v, Bytes.v: the monad with its program logics ([wp], [runs] for
      total, [post] for partial correctness), machine integers, list lemmas,
      tactics; little-endian integers in byte arrays.
    - Spinlock.v (spinlock.c): CPUs, [pushcli]/[popcli], locks; any interleaving
      of any number of CPUs.
    - Kalloc.v (kalloc.c), Vm.v, VmPt.v, VmUser.v (vm.c): physical memory as words,
      the free list threaded through it, page tables in it.
    - CString.v (string.c, ulib.c): memory and string routines.
    - Proc.v (proc.c, proc.h), ProcSteps.v, ProcSim.v, ProcProps.v, ProcCpu.v, ProcShare.v:
      processes, threads, sleeping and waking, the scheduler, CPU shares; ProcCpu.v has the loop of
      [scheduler] on any number of CPUs.  The
      class [ProcEnv] is what proc.c calls of the rest.
    - BlockCache.v, BlockClient.v: the contract [BufSpec] of a buffer cache and the
      reasoning of its clients; Bio.v, BioRefine.v, BioProps.v (bio.c, memide.c,
      sleeplock.c): the cache that meets it.
    - FsLayout.v (fs.h), Log.v, LogDisk.v, LogRun.v, LogTxn.v, LogProps.v,
      LogProto.v (log.c): the write-ahead log, over any cache that meets the
      contract.
    - Fs.v (fs.c), FsPure.v, FsRun.v, FsBlocks.v, FsTree.v, FsMap.v, FsFile.v,
      FsSmall.v: blocks, the tree of a file's blocks, inodes, reading and writing,
      directories, paths, over the log.
    - Mkfs.v (mkfs.c), MkfsImage.v, MkfsProps.v: the image builder, with the layout of
      FsLayout.v.
    - File.v (file.c, the allocation of pipes in pipe.c), Pipe.v (the rest of
      pipe.c), Sysfile.v (sysfile.c), FileRefs.v: open files, pipes and the system
      calls on them.  Sysfile.v puts the file system, the files and the processes
      together through the interfaces of the three.
    - Syscall.v (argument fetching of syscall.c), Exec.v (exec.c), Trap.v
      (sysproc.c, prac_syscall.c, the dispatch of syscall.c, trap.c): the entry
      into the kernel.

    - Sleeplock.v (sleeplock.c, [sleep] and [wakeup] of proc.c): sleep locks between
      processes, step by step; Bio.v has the lock of a buffer as one process sees it.
    - Console.v (console.c), Kbd.v (kbd.c, kbd.h), Ide.v (ide.c), Apic.v (lapic.c, ioapic.c,
      picirq.c, uart.c): the devices, whose controllers are interfaces or functions of the
      accesses made so far.
    - Boot.v (bootmain.c), Main.v ([startothers] of main.c, entryother.S), Mp.v (mp.c, mp.h,
      [mycpu] and [cpuid] of proc.c), Protect.v (descriptors of mmu.h, [seginit], [switchuvm],
      [tvinit], [idtinit]), Asm.v (swtch.S, trapasm.S, vectors.pl): from the boot sector to the
      first process, and the way in and out of the kernel.
    - User.v (the system calls as an interface, printf.c), UserProgs.v (cat, wc, echo, ls, ln,
      rm, mkdir, kill, init, zombie, my_userapp), Grep.v (grep.c), Umalloc.v (umalloc.c),
      Sh.v and ShRun.v (sh.c): the user programs.
    - ProjShell.v (src/proj_shell/src/shell.c): the shell for Linux.

    ** What is proved

    - The log (LogProps.v, LogProto.v): crashing at any block write and recovering
      gives the state before or after the transactions committed so far, recovery
      may itself crash, and the protocol of [begin_op]/[end_op] excludes commits
      from operations in any interleaving; the exact states a crash inside a further transaction
      recovers to, which show that it is atomic when it changes no block still in the log and can be torn
      otherwise; and that a transaction returns exactly when it fits in [LOGSIZE - 1] entries.
    - The buffer cache (BioProps.v) is an array of blocks and replaces the least
      recently used buffer.
    - Processes (ProcProps.v): the invariant of the process table, no lost
      wake-ups, and the ledger of CPU shares, in every execution; on several CPUs no process runs
      twice and none starves (ProcCpu.v); [cpu_share] on every path, overflow included (ProcShare.v).
    - Memory: [kalloc] never hands out a page twice (Kalloc.v); [mappages],
      [allocuvm], [deallocuvm] as updates of the translation (VmPt.v, VmUser.v).
    - Mutual exclusion of spin locks (Spinlock.v); pipes as queues under any
      interleaving (Pipe.v); reference counts of open files under every system
      call (FileRefs.v); system call arguments in bounds (Syscall.v).
    - The file system: the block allocator (FsBlocks.v), [bmap] as a map of block numbers to
      blocks of their own, [readi] and [writei] on every branch (FsFile.v), path names and the
      inode format (FsPure.v); the image mkfs writes has the given files (MkfsProps.v).
    - Sleep locks have one holder and lose no wake-up (Sleeplock.v); the disk driver is a
      queue, if the controller has no faults (Ide.v), the console a line editor (Console.v) fed with the characters of
      the keys struck (Kbd.v); the
      date read is one the clock showed, and interrupts go where they were enabled (Apic.v).
    - Boot and entry: the segments of the kernel are loaded (Boot.v), every processor has its
      stack (Main.v), the processors in the firmware's table are known (Mp.v), user mode reaches the
      kernel only through the gates (Protect.v), a trap hands over and restores all registers,
      and [swtch] resumes what it saved (Asm.v).
    - User programs: the parser of sh decides its grammar (Sh.v) and [runcmd] connects the
      programs as the command says, or ends with a message when a call fails (ShRun.v); malloc and free keep the free list in
      order and lose no memory (Umalloc.v); the matcher
      of grep decides its patterns (Grep.v); printf and the small programs (User.v, UserProgs.v).
    - The shell for Linux does what the text of its input says, and stays within its buffers
      but for the cases listed there (ProjShell.v).

    ** Bounds and fuel

    Loops over a buffer take as fuel one more than its length; loops that follow a table, the
    number of its entries; loops that wait for a device, a bound that a hypothesis on the
    device gives (Boot.v, Apic.v).  [mpinit] has no such bound: Mp.v proves that on a table of known entries
    8192 rounds are enough and that otherwise it never ends.

    ** Not modelled

    The assembly that switches the mode of the processor (bootasm.S, entry.S, the first part of
    entryother.S), which is about states before C code can run, and the stubs of initcode.S and
    usys.S; [main] itself, a list of calls; debugging output ([procdump], [getcallerpcs]); the
    test programs (usertests.c, forktest.c, stressfs.c and the test_ programs), which promise
    nothing to the other parts.  Memory that is never freed, and the hardware's own errors other
    than those the drivers look at, are not part of the states; the disk controller of Ide.v reports no errors in the
    theorem (the error path of [ideintr] is in the definition).  Interrupts arrive between the
    segments of the process table and the log, not inside them.  Where the code hands
    [ptable.lock] from a process to the scheduler and on to the next process, the model releases and takes it again,
    which allows more interleavings.  The interrupt flag is modelled in Spinlock.v only. *)

(** This file: the outcome monad, its program logics, machine integers, kernel
    addresses used as sleep channels, and the list lemmas and automation the
    components share. *)

From stdpp Require Export base list numbers strings option gmap.
#[global] Set Default Goal Selector "!".
#[global] Open Scope Z_scope.

Declare Scope xv6_scope.
Delimit Scope xv6_scope with xv6.
#[global] Open Scope xv6_scope.

(** * Machine integers *)

(** [uint] arithmetic wraps at 32 bits. *)
Definition u32 (x : Z) : Z := x mod 2 ^ 32.

(** [uchar] arithmetic wraps at 8 bits. *)
Definition u8 (x : Z) : Z := x mod 2 ^ 8.

(** Reading a 32-bit pattern as a signed [int]. *)
Definition i32 (x : Z) : Z :=
  let y := u32 x in if decide (y < 2 ^ 31) then y else y - 2 ^ 32.

Lemma u32_range x : 0 <= u32 x < 2 ^ 32.
Proof. apply Z.mod_pos_bound. lia. Qed.

Lemma u32_small x : 0 <= x < 2 ^ 32 -> u32 x = x.
Proof. apply Z.mod_small. Qed.

Lemma u32_u32 x : u32 (u32 x) = u32 x.
Proof. apply u32_small, u32_range. Qed.

Lemma u32_add_l x y : u32 (u32 x + y) = u32 (x + y).
Proof. unfold u32. by rewrite Zplus_mod_idemp_l. Qed.

Lemma u32_add_r x y : u32 (x + u32 y) = u32 (x + y).
Proof. unfold u32. by rewrite Zplus_mod_idemp_r. Qed.

Lemma u32_sub_l x y : u32 (u32 x - y) = u32 (x - y).
Proof. unfold u32. by rewrite Zminus_mod_idemp_l. Qed.

Lemma i32_small x : - 2 ^ 31 <= x < 2 ^ 31 -> i32 x = x.
Proof.
  intros Hx. unfold i32, u32. destruct (decide (0 <= x)).
  - rewrite Z.mod_small by lia. by rewrite decide_True by lia.
  - rewrite <- (Z.mod_add x 1), Z.mod_small by lia. rewrite decide_False by lia. lia.
Qed.

Lemma i32_range x : - 2 ^ 31 <= i32 x < 2 ^ 31.
Proof. unfold i32. pose proof (u32_range x). case_decide; lia. Qed.

Lemma u32_i32 x : u32 (i32 x) = u32 x.
Proof. unfold i32. case_decide; [apply u32_u32|]. unfold u32. rewrite <- (Z.mod_mod x (2 ^ 32)) at 2 by lia. apply (Z.mod_add _ (-1)). lia. Qed.

Lemma i32_u32_eq x y : u32 x = u32 y -> i32 x = i32 y.
Proof. intros E. unfold i32. by rewrite E. Qed.

Lemma i32_add_l x y : i32 (i32 x + y) = i32 (x + y).
Proof. apply i32_u32_eq. by rewrite <- u32_add_l, u32_i32, u32_add_l. Qed.

Lemma i32_sub_l x y : i32 (i32 x - y) = i32 (x - y).
Proof. apply i32_u32_eq. by rewrite <- u32_sub_l, u32_i32, u32_sub_l. Qed.

Lemma u32_sub_r x y : u32 (x - u32 y) = u32 (x - y).
Proof. unfold u32. by rewrite Zminus_mod_idemp_r. Qed.

(** Remainders by a divisor of [2^32] do not see the wrap-around: ring
    buffers indexed by a free-running [uint] rely on this. *)
Lemma u32_mod_divisor x d : (d | 2 ^ 32) -> 0 < d -> u32 x mod d = x mod d.
Proof.
  intros [k Hk] Hd. unfold u32.
  apply Z.mod_mod_divide. by exists k.
Qed.

(** * Kernel addresses

    [sleep] and [wakeup] take a [void*]; the kernel passes the address of one
    of its objects. *)
Inductive kaddr :=
| A_null
| A_proc (i : nat)          (** [&ptable.proc[i]] *)
| A_ticks                   (** [&ticks] *)
| A_log                     (** [&log] *)
| A_pipe_nread (p : Z)      (** [&p->nread] of the pipe at address [p] *)
| A_pipe_nwrite (p : Z)     (** [&p->nwrite] *)
| A_buf (i : nat)           (** [&bcache.buf[i]] *)
| A_sleeplock (id : Z)      (** a [struct sleeplock] *)
| A_input_r.                (** [&input.r] *)

#[export] Instance kaddr_eq_dec : EqDecision kaddr.
Proof. solve_decision. Defined.

(** * The outcome monad

    Running a kernel function in a state either returns, or stops: it panics,
    it traps in the processor, it calls [sleep] (giving up the CPU on a
    channel), or it spins for ever on a lock.  User programs also stop by
    calling [exit]. *)
Inductive stop :=
| Panicked (msg : string)
| DivideError
| Slept (chan : kaddr)
| Spins
| Undefined     (** an access outside the object, undefined in C *)
| Exits.        (** a user program calls [exit] *)

Inductive outcome (S A : Type) :=
| Ret (a : A) (s : S)
| Stop (r : stop) (s : S).
Arguments Ret {S A} a s.
Arguments Stop {S A} r s.

Definition M (S A : Type) : Type := S -> outcome S A.

Definition ret {S A} (a : A) : M S A := fun s => Ret a s.
Definition bind {S A B} (m : M S A) (f : A -> M S B) : M S B :=
  fun s => match m s with
           | Ret a s' => f a s'
           | Stop r s' => Stop r s'
           end.
Definition stop_with {S A} (r : stop) : M S A := fun s => Stop r s.
Definition panic {S A} (msg : string) : M S A := stop_with (Panicked msg).
Definition gets {S A} (f : S -> A) : M S A := fun s => Ret (f s) s.
Definition modify {S} (f : S -> S) : M S unit := fun s => Ret tt (f s).
Definition when {S} (b : bool) (m : M S unit) : M S unit :=
  if b then m else ret tt.

Notation "'let!' x := c 'in' k" := (bind c (fun x => k))
  (at level 10, x binder, c at level 100, k at level 200) : xv6_scope.
Notation "c ;;; k" := (bind c (fun _ : unit => k))
  (at level 199, right associativity) : xv6_scope.

(** [for (x in l) body(x)] *)
Fixpoint forM {S A} (l : list A) (body : A -> M S unit) : M S unit :=
  match l with
  | [] => ret tt
  | x :: l' => body x ;;; forM l' body
  end.

(** [for (x in l) if (body(x) decides) break out with a value]. *)
Fixpoint find_forM {S A B} (l : list A) (body : A -> M S (option B)) : M S (option B) :=
  match l with
  | [] => ret None
  | x :: l' => let! r := body x in
               match r with
               | Some b => ret (Some b)
               | None => find_forM l' body
               end
  end.

(** A function that can sleep runs in segments.  A segment ends either with the
    function's result or in a call of [sleep] on a channel, which releases the
    lock it holds; [k] is what is left to do when the process is woken up. *)
Inductive segment (K A : Type) :=
| Done (a : A)
| Blocked (chan : kaddr) (k : K).
Arguments Done {K A} a.
Arguments Blocked {K A} chan k.

(** Running a function whose state is a field of a larger one. *)
Definition zoom {S T A} (get : S -> T) (put : T -> S -> S) (m : M T A) : M S A :=
  fun s => match m (get s) with
           | Ret a t => Ret a (put t s)
           | Stop r t => Stop r (put t s)
           end.

(** ** Weakest preconditions

    [wp m Q R s]: from [s], either [m] returns and [Q] holds of the result and
    the final state, or it stops and [R] holds of the reason and the state. *)
Definition wp {S A} (m : M S A) (Q : A -> S -> Prop) (R : stop -> S -> Prop) (s : S) : Prop :=
  match m s with
  | Ret a s' => Q a s'
  | Stop r s' => R r s'
  end.

Section wp.
Context {S : Type}.
Implicit Types (s : S) (R : stop -> S -> Prop).

Lemma wp_ret {A} (a : A) Q R s : wp (ret a) Q R s <-> Q a s.
Proof. done. Qed.

Lemma wp_bind {A B} (m : M S A) (f : A -> M S B) Q R s :
  wp (bind m f) Q R s <-> wp m (fun a => wp (f a) Q R) R s.
Proof. unfold wp, bind. by destruct (m s). Qed.

Lemma wp_gets {A} (f : S -> A) Q R s : wp (gets f) Q R s <-> Q (f s) s.
Proof. done. Qed.

Lemma wp_modify (f : S -> S) Q R s : wp (modify f) Q R s <-> Q tt (f s).
Proof. done. Qed.

Lemma wp_stop {A} r (Q : A -> S -> Prop) R s : wp (stop_with r) Q R s <-> R r s.
Proof. done. Qed.

Lemma wp_mono {A} (m : M S A) (Q Q' : A -> S -> Prop) R R' s :
  wp m Q R s -> (forall a s', Q a s' -> Q' a s') -> (forall r s', R r s' -> R' r s') ->
  wp m Q' R' s.
Proof. unfold wp. destruct (m s); auto. Qed.

Lemma wp_elim_ret {A} (m : M S A) Q R s a s' :
  wp m Q R s -> m s = Ret a s' -> Q a s'.
Proof. unfold wp. intros H E. by rewrite E in H. Qed.

(** The loop rule: an invariant indexed by what is left to do. *)
Lemma wp_forM {A} (I : list A -> S -> Prop) R (l : list A) body s :
  I l s ->
  (forall x l' s', I (x :: l') s' -> wp (body x) (fun _ => I l') R s') ->
  wp (forM l body) (fun _ => I []) R s.
Proof.
  intros HI Hstep. revert s HI.
  induction l as [|x l IH]; intros s HI; [done|].
  simpl. rewrite wp_bind. eapply wp_mono; [by apply Hstep | | done].
  intros [] s' H. by apply IH.
Qed.
End wp.

(** What a composed program's outcome says of its first part. *)
Lemma bind_ret_inv {S A B} (m : M S A) (f : A -> M S B) s b s' :
  bind m f s = Ret b s' -> exists a s1, m s = Ret a s1 /\ f a s1 = Ret b s'.
Proof. unfold bind. destruct (m s) as [a s1|]; [eauto | done]. Qed.

Lemma bind_ret {S A B} (m : M S A) (f : A -> M S B) s a s1 :
  m s = Ret a s1 -> bind m f s = f a s1.
Proof. intros E. unfold bind. by rewrite E. Qed.

Lemma bind_stop {S A B} (m : M S A) (f : A -> M S B) s r s1 :
  m s = Stop r s1 -> bind m f s = Stop r s1.
Proof. intros E. unfold bind. by rewrite E. Qed.

(** ** Total correctness *)

(** From [s], [m] returns and [Q] holds of the result and the final state. *)
Definition runs {S A} (m : M S A) (Q : A -> S -> Prop) (s : S) : Prop :=
  exists a s', m s = Ret a s' /\ Q a s'.

Section runs.
Context {S : Type}.
Implicit Types (s : S).

Lemma runs_ret {A} (a : A) (Q : A -> S -> Prop) s : Q a s -> runs (ret a) Q s.
Proof. by exists a, s. Qed.

Lemma runs_gets {A} (f : S -> A) (Q : A -> S -> Prop) s : Q (f s) s -> runs (gets f) Q s.
Proof. by exists (f s), s. Qed.

Lemma runs_modify (f : S -> S) (Q : unit -> S -> Prop) s : Q tt (f s) -> runs (modify f) Q s.
Proof. by exists tt, (f s). Qed.

Lemma runs_bind {A B} (m : M S A) (f : A -> M S B) Q s :
  runs m (fun a => runs (f a) Q) s -> runs (bind m f) Q s.
Proof.
  intros (a & s1 & E & b & s2 & E2 & H). exists b, s2. by rewrite (bind_ret _ _ _ _ _ E).
Qed.

Lemma runs_mono {A} (m : M S A) (Q Q' : A -> S -> Prop) s :
  runs m Q s -> (forall a s', Q a s' -> Q' a s') -> runs m Q' s.
Proof. intros (a & s' & E & H) HQ. exists a, s'. auto. Qed.

(** The loop rule: an invariant indexed by the number of iterations done. *)
Lemma runs_for (I : nat -> S -> Prop) k m body Q s :
  I k s ->
  (forall i s', (k <= i < k + m)%nat -> I i s' -> runs (body i) (fun _ => I (Datatypes.S i)) s') ->
  (forall s', I (k + m)%nat s' -> Q tt s') ->
  runs (forM (seq k m) body) Q s.
Proof.
  revert k s. induction m as [|m IH]; intros k s HI Hstep HQ; simpl.
  - apply runs_ret, HQ. by rewrite Nat.add_0_r.
  - apply runs_bind. eapply runs_mono; [apply Hstep; [lia | done]|].
    intros [] s' HI'. apply IH; [done | | ].
    + intros i s'' Hi. apply Hstep. lia.
    + intros s'' H. apply HQ. by replace (k + Datatypes.S m)%nat with (Datatypes.S k + m)%nat by lia.
Qed.
End runs.

Lemma runs_zoom {S T A} (get : S -> T) put (m : M T A) (Q : A -> S -> Prop) s :
  runs m (fun a t => Q a (put t s)) (get s) -> runs (zoom get put m) Q s.
Proof. intros (a & t & E & H). exists a, (put t s). unfold zoom. by rewrite E. Qed.

(** ** Partial correctness *)

(** If [m] returns from [s] then [Q] holds of the result and the final state. *)
Definition post {S A} (m : M S A) (Q : A -> S -> Prop) (s : S) : Prop :=
  forall a s', m s = Ret a s' -> Q a s'.

Section post.
Context {S : Type}.
Implicit Types (s : S).

Lemma post_ret {A} (a : A) (Q : A -> S -> Prop) s : Q a s -> post (ret a) Q s.
Proof. by intros H a' s' [= <- <-]. Qed.

Lemma post_gets {A} (f : S -> A) (Q : A -> S -> Prop) s : Q (f s) s -> post (gets f) Q s.
Proof. by intros H a' s' [= <- <-]. Qed.

Lemma post_modify (f : S -> S) (Q : unit -> S -> Prop) s : Q tt (f s) -> post (modify f) Q s.
Proof. by intros H a' s' [= <- <-]. Qed.

Lemma post_stop {A} r (Q : A -> S -> Prop) s : post (stop_with r) Q s.
Proof. by intros a s' [=]. Qed.

Lemma post_bind {A B} (m : M S A) (f : A -> M S B) Q s :
  post m (fun a => post (f a) Q) s -> post (bind m f) Q s.
Proof. intros H b s' (a & s1 & E1 & E2)%bind_ret_inv. by eapply H. Qed.

Lemma post_mono {A} (m : M S A) (Q Q' : A -> S -> Prop) s :
  post m Q s -> (forall a s', Q a s' -> Q' a s') -> post m Q' s.
Proof. intros H HQ a s' E. by apply HQ, H. Qed.

Lemma post_both {A} (m : M S A) (Q Q' : A -> S -> Prop) s :
  post m Q s -> post m Q' s -> post m (fun a s' => Q a s' /\ Q' a s') s.
Proof. intros H1 H2 a s' E. split; [by apply H1 | by apply H2]. Qed.

Lemma post_forM {A} (I : S -> Prop) (l : list A) body s :
  I s -> (forall x s', x ∈ l -> I s' -> post (body x) (fun _ => I) s') ->
  post (forM l body) (fun _ => I) s.
Proof.
  revert s. induction l as [|x l IH]; intros s HI Hb; simpl; [by apply post_ret|].
  apply post_bind. eapply post_mono; [apply Hb; [left | done]|].
  intros [] s' HI'. apply IH; [done|]. intros y s'' Hy. apply Hb. by right.
Qed.

Lemma post_for (I : nat -> S -> Prop) k m body s :
  I k s ->
  (forall i s', (k <= i < k + m)%nat -> I i s' -> post (body i) (fun _ => I (Datatypes.S i)) s') ->
  post (forM (seq k m) body) (fun _ => I (k + m)%nat) s.
Proof.
  revert k s. induction m as [|m IH]; intros k s HI Hstep; simpl.
  - apply post_ret. by rewrite Nat.add_0_r.
  - apply post_bind. eapply post_mono; [apply Hstep; [lia | done]|]. intros [] s' HI'.
    eapply post_mono; [apply IH; [exact HI'|] |].
    + intros i s'' Hi. apply Hstep. lia.
    + intros [] s'' H. by replace (k + Datatypes.S m)%nat with (Datatypes.S k + m)%nat by lia.
Qed.
End post.

(** ** Operations that respect a preorder *)

(** Every run of [m] that returns moves the state along [R]. *)
Definition respects {S A} (R : S -> S -> Prop) (m : M S A) : Prop :=
  forall s, post m (fun _ s' => R s s') s.

Section respects.
Context {S : Type} (R : S -> S -> Prop) `{!PreOrder R}.

Lemma respects_ret {A} (a : A) : respects R (ret a).
Proof. intros s. by apply post_ret. Qed.
Lemma respects_gets {A} (f : S -> A) : respects R (gets f).
Proof. intros s. by apply post_gets. Qed.
Lemma respects_stop {A} r : respects R (@stop_with S A r).
Proof. intros s. apply post_stop. Qed.
Lemma respects_modify f : (forall s, R s (f s)) -> respects R (modify f).
Proof. intros Hf s. apply post_modify, Hf. Qed.
Lemma respects_bind {A B} (m : M S A) (k : A -> M S B) :
  respects R m -> (forall a, respects R (k a)) -> respects R (bind m k).
Proof.
  intros Hm Hk s. apply post_bind. eapply post_mono; [apply Hm|].
  intros a s1 H1. eapply post_mono; [apply Hk|]. intros b s2 H2. exact (transitivity H1 H2).
Qed.
Lemma respects_forM {A} (l : list A) body : (forall x, respects R (body x)) -> respects R (forM l body).
Proof. intros Hb. induction l; simpl; [apply respects_ret | by apply respects_bind]. Qed.
End respects.

(** Take the first step of a composed program. *)
Ltac pstep :=
  lazymatch goal with
  | |- post (bind _ _) _ _ => apply post_bind; pstep
  | |- post (gets _) _ _ => apply post_gets
  | |- post (modify _) _ _ => apply post_modify
  | |- post (ret _) _ _ => apply post_ret
  | |- post (stop_with _) _ _ => apply post_stop
  | |- post (panic _) _ _ => apply post_stop
  | |- _ => idtac
  end.

(** Take the first step of a composed program. *)
Ltac rstep :=
  lazymatch goal with
  | |- runs (bind _ _) _ _ => apply runs_bind; rstep
  | |- runs (gets _) _ _ => apply runs_gets
  | |- runs (modify _) _ _ => apply runs_modify
  | |- runs (ret _) _ _ => apply runs_ret
  | |- runs (if ?b then _ else _) _ _ => fail
  | |- _ => idtac
  end.

(** * Sums *)

Definition zsum (f : nat -> Z) (n : nat) : Z := foldr Z.add 0 (f <$> seq 0 n).

Lemma zsum_S f n : zsum f (S n) = zsum f n + f n.
Proof.
  unfold zsum. rewrite seq_S, fmap_app, foldr_app. simpl. generalize (f <$> seq 0 n).
  intros l. induction l; simpl in *; lia.
Qed.

Lemma zsum_upd f g i n :
  (forall j, j <> i -> f j = g j) -> zsum f n = zsum g n + (if decide (i < n)%nat then f i - g i else 0).
Proof.
  intros Hj. induction n as [|n IH]; [done|]. rewrite !zsum_S, IH.
  destruct (decide (n = i)) as [->|Hn]; [|rewrite (Hj n Hn)]; repeat case_decide; lia.
Qed.

Lemma zsum_ext f g n : (forall i, f i = g i) -> zsum f n = zsum g n.
Proof. intros E. induction n; [done|]. rewrite !zsum_S. congruence. Qed.

Lemma zsum_nonneg f n : (forall i, 0 <= f i) -> 0 <= zsum f n.
Proof. intros E. induction n; [done|]. rewrite !zsum_S. specialize (E n). lia. Qed.

Lemma zsum_ge f n i : (forall i, 0 <= f i) -> (i < n)%nat -> f i <= zsum f n.
Proof.
  intros E Hi. induction n as [|n IH]; [lia|]. rewrite zsum_S. pose proof (E n). pose proof (zsum_nonneg f n E).
  destruct (decide (i = n)) as [->|]; [lia|]. specialize (IH ltac:(lia)). lia.
Qed.

(** * Automation *)

Create HintDb xv6 discriminated.
Create HintDb xv6_arith.

(** Run the monad's combinators in the goal. *)
Ltac mrun := cbv beta iota delta [bind ret gets modify stop_with panic when].

(** Invert hypotheses [bind m f s = Ret b s'] all the way down. *)
Ltac minv :=
  repeat match goal with
  | H : bind _ _ _ = Ret _ _ |- _ =>
      let a := fresh "a" in let s := fresh "s" in let E := fresh "E" in
      apply bind_ret_inv in H as (a & s & E & H)
  | H : Ret _ _ = Ret _ _ |- _ => simplify_eq H; clear H; intros; subst
  | H : ret _ _ = Ret _ _ |- _ => unfold ret in H
  | H : gets _ _ = Ret _ _ |- _ => unfold gets in H
  | H : modify _ _ = Ret _ _ |- _ => unfold modify in H
  | H : panic _ _ = Ret _ _ |- _ => unfold panic, stop_with in H; discriminate H
  | H : stop_with _ _ = Ret _ _ |- _ => unfold stop_with in H; discriminate H
  | H : Stop _ _ = Ret _ _ |- _ => discriminate H
  end.

(** Two facts about the outcome of one run are facts about one outcome. *)
Ltac det :=
  repeat match goal with
  | H1 : ?x = Ret _ _, H2 : ?x = Ret _ _ |- _ => rewrite H1 in H2; simplify_eq H2; clear H2; intros
  | H1 : ?x = Ret _ _, H2 : ?x = Stop _ _ |- _ => rewrite H1 in H2; discriminate H2
  | H1 : ?x = Stop _ _, H2 : ?x = Stop _ _ |- _ => rewrite H1 in H2; simplify_eq H2; clear H2; intros
  end; simplify_eq.

(** Split on every boolean test or decision of the goal. *)
Ltac case_tests :=
  repeat match goal with
  | |- context [if decide ?P then _ else _] => destruct (decide P)
  | |- context [if ?b then _ else _] => destruct b eqn:?
  end.
