(* ===== verification/Bytes.v ===== *)
(** Little-endian integers in byte arrays.

    The kernel overlays C structures and [uint] arrays on block buffers
    ([(uint* )bp->data], [struct dinode], [struct logheader], [struct dirent]).
    On the 32-bit x86 the overlay reads and writes little-endian integers; these
    are the accessors, and the read-over-write laws the other files use. *)

From S2P Require Import Prelude.

(** Byte [i] of a buffer (buffers are always indexed inside their length). *)
Definition byte_at (d : list Z) (i : nat) : Z := nth i d 0.

Definition get16 (d : list Z) (off : nat) : Z :=
  byte_at d off + 2 ^ 8 * byte_at d (off + 1).
Definition put16 (off : nat) (v : Z) (d : list Z) : list Z :=
  <[off := v mod 2 ^ 8]> (<[(off + 1)%nat := (v / 2 ^ 8) mod 2 ^ 8]> d).

Definition get32 (d : list Z) (off : nat) : Z :=
  get16 d off + 2 ^ 16 * get16 d (off + 2).
Definition put32 (off : nat) (v : Z) (d : list Z) : list Z :=
  put16 off (v mod 2 ^ 16) (put16 (off + 2) (v / 2 ^ 16) d).

(** [memmove(dst + off, src, length src)] inside one buffer. *)
Definition blit (off : nat) (src d : list Z) : list Z :=
  take off d ++ src ++ drop (off + length src) d.

(** [memmove(.., d + off, n)] out of one buffer. *)
Definition slice (off n : nat) (d : list Z) : list Z := take n (drop off d).

Definition is_bytes (d : list Z) : Prop := Forall (fun x => 0 <= x < 2 ^ 8) d.

Lemma byte_at_insert_eq d i v : (i < length d)%nat -> byte_at (<[i := v]> d) i = v.
Proof. intros H. unfold byte_at. rewrite nth_lookup, list_lookup_insert_eq; done. Qed.

Lemma byte_at_insert_ne d i j v : i <> j -> byte_at (<[i := v]> d) j = byte_at d j.
Proof. intros H. unfold byte_at. rewrite !nth_lookup, list_lookup_insert_ne; done. Qed.

Lemma length_put16 off v d : length (put16 off v d) = length d.
Proof. unfold put16. by rewrite !length_insert. Qed.

Lemma length_put32 off v d : length (put32 off v d) = length d.
Proof. unfold put32. by rewrite !length_put16. Qed.

Lemma get16_put16_eq off v d :
  (off + 1 < length d)%nat -> 0 <= v < 2 ^ 16 -> get16 (put16 off v d) off = v.
Proof.
  intros H Hv. unfold get16, put16.
  rewrite byte_at_insert_eq by (rewrite length_insert; lia).
  rewrite byte_at_insert_ne by lia. rewrite byte_at_insert_eq by lia.
  rewrite (Z.mod_small (v / 2 ^ 8)).
  - pose proof (Z.div_mod v (2 ^ 8)). lia.
  - split; [apply Z.div_pos; lia | apply Z.div_lt_upper_bound; lia].
Qed.

Lemma get16_put16_ne off off' v d :
  (off + 1 < off' \/ off' + 1 < off)%nat -> get16 (put16 off v d) off' = get16 d off'.
Proof. intros H. unfold get16, put16. by rewrite !byte_at_insert_ne by lia. Qed.

Lemma get32_put32_eq off v d :
  (off + 3 < length d)%nat -> 0 <= v < 2 ^ 32 -> get32 (put32 off v d) off = v.
Proof.
  intros H Hv. unfold get32, put32.
  rewrite get16_put16_eq by (rewrite ?length_put16; try lia; apply Z.mod_pos_bound; lia).
  rewrite get16_put16_ne by lia. rewrite get16_put16_eq.
  - pose proof (Z.div_mod v (2 ^ 16)). lia.
  - lia.
  - split; [apply Z.div_pos; lia | apply Z.div_lt_upper_bound; lia].
Qed.

Lemma get32_put32_ne off off' v d :
  (off + 3 < off' \/ off' + 3 < off)%nat -> get32 (put32 off v d) off' = get32 d off'.
Proof. intros H. unfold get32, put32. by rewrite !get16_put16_ne by lia. Qed.

Lemma get16_put32_ne off off' v d :
  (off + 3 < off' \/ off' + 1 < off)%nat -> get16 (put32 off v d) off' = get16 d off'.
Proof. intros H. unfold put32. by rewrite !get16_put16_ne by lia. Qed.

Lemma get32_put16_ne off off' v d :
  (off + 1 < off' \/ off' + 3 < off)%nat -> get32 (put16 off v d) off' = get32 d off'.
Proof. intros H. unfold get32. by rewrite !get16_put16_ne by lia. Qed.

Lemma length_blit off src d :
  (off + length src <= length d)%nat -> length (blit off src d) = length d.
Proof. intros H. unfold blit. rewrite !length_app, length_take, length_drop. lia. Qed.

Lemma blit_all src d : length src = length d -> blit 0 src d = src.
Proof.
  intros H. unfold blit. rewrite Nat.add_0_l, drop_ge by lia.
  by rewrite app_nil_r.
Qed.

Lemma slice_blit off src d :
  (off + length src <= length d)%nat -> slice off (length src) (blit off src d) = src.
Proof.
  intros H. unfold slice, blit.
  rewrite drop_app_ge by (rewrite length_take; lia).
  rewrite length_take, Nat.min_l by lia. rewrite Nat.sub_diag, drop_0.
  by rewrite take_app_length.
Qed.

Lemma lookup_blit off src d i :
  (off + length src <= length d)%nat ->
  blit off src d !! i =
    if decide (off <= i < off + length src)%nat then src !! (i - off)%nat else d !! i.
Proof.
  intros H. unfold blit. case_decide as Hi.
  - rewrite lookup_app_r by (rewrite length_take; lia).
    rewrite length_take, Nat.min_l by lia. rewrite lookup_app_l by lia. done.
  - destruct (decide (i < off)%nat).
    + rewrite lookup_app_l by (rewrite length_take; lia). by rewrite lookup_take_lt.
    + rewrite lookup_app_r by (rewrite length_take; lia).
      rewrite length_take, Nat.min_l by lia.
      rewrite lookup_app_r by lia. rewrite lookup_drop. f_equal. lia.
Qed.
