(* ===== verification/Spinlock.v ===== *)
(** Spin locks: src/xv6-public/spinlock.c.

    The machine is a list of CPUs, each with its interrupt flag and its nesting
    depth of [pushcli], and a table of locks named by number.  A CPU executes
    [acquire] and [release] in atomic steps, the exchange instruction being one;
    the steps of the CPUs interleave in any order.  The [pcs] fields hold a
    call trace for debugging and are not part of the state. *)

From S2P Require Import Prelude.

Module Spinlock.

(** [struct spinlock] *)
Record spinlock := MkLock {
  locked : bool;
  lcpu : option nat
}.

(** The part of [struct cpu] used here, with the processor's [FL_IF] flag. *)
Record cpu := MkCpu {
  ncli : Z;
  intena : bool;
  flif : bool
}.

Record machine := MkMachine {
  cpus : list cpu;
  locks : gmap Z spinlock
}.

Definition cpu0 : cpu := MkCpu 0 false false.
Definition lock0 : spinlock := MkLock false None.

(** [mycpu()] on processor [c], and lock [l]. *)
Definition getcpu (c : nat) (s : machine) : cpu := nth c (cpus s) cpu0.
Definition getlock (l : Z) (s : machine) : spinlock := default lock0 (locks s !! l).
Definition updcpu (c : nat) (f : cpu -> cpu) : M machine unit :=
  modify (fun s => MkMachine (<[c := f (getcpu c s)]> (cpus s)) (locks s)).
Definition updlock (l : Z) (f : spinlock -> spinlock) : M machine unit :=
  modify (fun s => MkMachine (cpus s) (<[l := f (getlock l s)]> (locks s))).

Definition cli (c : nat) : M machine unit := updcpu c (fun p => MkCpu (ncli p) (intena p) false).
Definition sti (c : nat) : M machine unit := updcpu c (fun p => MkCpu (ncli p) (intena p) true).

Definition initlock (l : Z) : M machine unit := updlock l (fun _ => MkLock false None).

Definition pushcli (c : nat) : M machine unit :=
  let! eflags := gets (fun s => flif (getcpu c s)) in
  cli c ;;;
  let! n := gets (fun s => ncli (getcpu c s)) in
  when (bool_decide (n = 0)) (updcpu c (fun p => MkCpu (ncli p) eflags (flif p))) ;;;
  updcpu c (fun p => MkCpu (ncli p + 1) (intena p) (flif p)).

Definition popcli (c : nat) : M machine unit :=
  let! f := gets (fun s => flif (getcpu c s)) in
  if (f : bool) then panic "popcli - interruptible" else
  updcpu c (fun p => MkCpu (ncli p - 1) (intena p) (flif p)) ;;;
  let! p := gets (getcpu c) in
  if decide (ncli p < 0) then panic "popcli" else
  when (bool_decide (ncli p = 0) && intena p) (sti c).

Definition holding (c : nat) (l : Z) : M machine bool :=
  pushcli c ;;;
  let! r := gets (fun s => locked (getlock l s) && bool_decide (lcpu (getlock l s) = Some c)) in
  popcli c ;;;
  ret r.

(** The part of [acquire] before the loop. *)
Definition acquire_enter (c : nat) (l : Z) : M machine unit :=
  pushcli c ;;;
  let! h := holding c l in
  when h (panic "acquire").

(** [xchg(&lk->locked, 1)]: the old value. *)
Definition xchg (l : Z) : M machine bool :=
  let! old := gets (fun s => locked (getlock l s)) in
  updlock l (fun k => MkLock true (lcpu k)) ;;;
  ret old.

(** [lk->cpu = mycpu()] *)
Definition acquire_leave (c : nat) (l : Z) : M machine unit :=
  updlock l (fun k => MkLock (locked k) (Some c)).

(** [acquire] by a CPU that runs alone: a taken lock makes it spin for ever. *)
Definition acquire (c : nat) (l : Z) : M machine unit :=
  acquire_enter c l ;;;
  let! old := xchg l in
  if (old : bool) then stop_with Spins else acquire_leave c l.

(** The part of [release] before the store that frees the lock, and the rest. *)
Definition release_enter (c : nat) (l : Z) : M machine unit :=
  let! h := holding c l in
  if negb h then panic "release" else
  updlock l (fun k => MkLock (locked k) None).
Definition release_leave (c : nat) (l : Z) : M machine unit :=
  updlock l (fun k => MkLock false (lcpu k)) ;;;
  popcli c.
Definition release (c : nat) (l : Z) : M machine unit :=
  release_enter c l ;;; release_leave c l.

(** ** Interleavings *)

(** Where a CPU is, and the locks it has acquired and not begun to release. *)
Inductive pc :=
| Outside
| Spinning (l : Z)      (** in the loop of [acquire] *)
| Won (l : Z)           (** after the exchange that got the lock *)
| Leaving (l : Z).      (** in [release], before the store *)

Record thread := MkThread {
  at_ : pc;
  holds : list Z;
  pushes : nat          (** [pushcli] calls of its own not yet undone *)
}.

Record system := MkSystem {
  mach : machine;
  threads : list thread
}.

Inductive step (x : system) : system -> Prop :=
| step_enter c t l m : threads x !! c = Some t -> at_ t = Outside ->
    acquire_enter c l (mach x) = Ret tt m ->
    step x (MkSystem m (<[c := MkThread (Spinning l) (holds t) (pushes t)]> (threads x)))
| step_spin c t l m : threads x !! c = Some t -> at_ t = Spinning l ->
    xchg l (mach x) = Ret true m ->
    step x (MkSystem m (threads x))
| step_win c t l m : threads x !! c = Some t -> at_ t = Spinning l ->
    xchg l (mach x) = Ret false m ->
    step x (MkSystem m (<[c := MkThread (Won l) (holds t) (pushes t)]> (threads x)))
| step_acquired c t l m : threads x !! c = Some t -> at_ t = Won l ->
    acquire_leave c l (mach x) = Ret tt m ->
    step x (MkSystem m (<[c := MkThread Outside (l :: holds t) (pushes t)]> (threads x)))
| step_release c t l m : threads x !! c = Some t -> at_ t = Outside ->
    release_enter c l (mach x) = Ret tt m ->
    step x (MkSystem m (<[c := MkThread (Leaving l) (filter (.≠ l) (holds t)) (pushes t)]> (threads x)))
| step_released c t l m : threads x !! c = Some t -> at_ t = Leaving l ->
    release_leave c l (mach x) = Ret tt m ->
    step x (MkSystem m (<[c := MkThread Outside (holds t) (pushes t)]> (threads x)))
| step_push c t m : threads x !! c = Some t -> at_ t = Outside ->
    pushcli c (mach x) = Ret tt m ->
    step x (MkSystem m (<[c := MkThread Outside (holds t) (S (pushes t))]> (threads x)))
| step_pop c t n m : threads x !! c = Some t -> at_ t = Outside -> pushes t = S n ->
    popcli c (mach x) = Ret tt m ->
    step x (MkSystem m (<[c := MkThread Outside (holds t) n]> (threads x)))
| step_sti c t m : threads x !! c = Some t -> at_ t = Outside -> holds t = [] -> pushes t = O ->
    sti c (mach x) = Ret tt m ->
    step x (MkSystem m (threads x)).

(** [n] CPUs at boot: interrupts off, no lock taken. *)
Definition boot (n : nat) : system :=
  MkSystem (MkMachine (replicate n cpu0) ∅) (replicate n (MkThread Outside [] 0)).

(** ** Runs of the operations *)

Definition setcpu (c : nat) (p : cpu) (s : machine) : machine := MkMachine (<[c := p]> (cpus s)) (locks s).
Definition setlock (l : Z) (k : spinlock) (s : machine) : machine := MkMachine (cpus s) (<[l := k]> (locks s)).

(** CPU [c] is there, at nesting depth [n], with interrupts off inside. *)
Definition cpu_ok (c : nat) (n : nat) (s : machine) : Prop :=
  (c < length (cpus s))%nat /\ ncli (getcpu c s) = Z.of_nat n /\ (n <> O -> flif (getcpu c s) = false).

Lemma getcpu_set c p s : (c < length (cpus s))%nat -> getcpu c (setcpu c p s) = p.
Proof. intros Hc. unfold getcpu. simpl. by rewrite nth_lookup, list_lookup_insert_eq. Qed.
Lemma getcpu_set_ne c c' p s : c <> c' -> getcpu c' (setcpu c p s) = getcpu c' s.
Proof. intros Hc. unfold getcpu. simpl. by rewrite !nth_lookup, list_lookup_insert_ne. Qed.
Lemma setcpu_set c p q s : setcpu c p (setcpu c q s) = setcpu c p s.
Proof. unfold setcpu. simpl. by rewrite list_insert_insert_eq. Qed.
Lemma setcpu_get c s : (c < length (cpus s))%nat -> setcpu c (getcpu c s) s = s.
Proof.
  intros Hc. destruct s as [cs ls]. unfold setcpu, getcpu. simpl in *. f_equal.
  apply list_insert_id. rewrite nth_lookup. by destruct (lookup_lt_is_Some_2 cs c Hc) as [p ->].
Qed.
Lemma getlock_set l k s : getlock l (setlock l k s) = k.
Proof. unfold getlock. simpl. by rewrite lookup_insert_eq. Qed.
Lemma getlock_set_ne l l' k s : l <> l' -> getlock l' (setlock l k s) = getlock l' s.
Proof. intros Hl. unfold getlock. simpl. by rewrite lookup_insert_ne. Qed.

Lemma updcpu_run c f s : updcpu c f s = Ret tt (setcpu c (f (getcpu c s)) s).
Proof. done. Qed.

Lemma updlock_run l f s : updlock l f s = Ret tt (setlock l (f (getlock l s)) s).
Proof. done. Qed.

Lemma xchg_run l s : xchg l s = Ret (locked (getlock l s)) (setlock l (MkLock true (lcpu (getlock l s))) s).
Proof. done. Qed.

(** Run updates of one CPU. *)
Ltac cpu_run := repeat (progress (rewrite ?updcpu_run, ?setcpu_set, ?getcpu_set
  by (simpl; rewrite ?length_insert; done); simpl)).

Lemma pushcli_run c n s : cpu_ok c n s ->
  exists b, (n <> O -> b = intena (getcpu c s)) /\ (n = O -> b = flif (getcpu c s)) /\
    pushcli c s = Ret tt (setcpu c (MkCpu (Z.of_nat (S n)) b false) s).
Proof.
  intros (Hc & Hn & Hf). unfold pushcli, cli. mrun. cpu_run. rewrite Hn. case_bool_decide as H0.
  - exists (flif (getcpu c s)). split; [lia|]. split; [done|]. cpu_run. do 3 f_equal. lia.
  - exists (intena (getcpu c s)). split; [done|]. split; [lia|]. cpu_run. do 3 f_equal. lia.
Qed.

Lemma popcli_run c n s : cpu_ok c (S n) s ->
  popcli c s = Ret tt (setcpu c (MkCpu (Z.of_nat n) (intena (getcpu c s))
                                       (bool_decide (n = O) && intena (getcpu c s))) s).
Proof.
  intros (Hc & Hn & Hf). unfold popcli, sti. mrun. rewrite Hf by lia. cpu_run.
  rewrite Hn, decide_False by lia.
  rewrite (bool_decide_ext (Z.of_nat (S n) - 1 = 0) (n = O)) by lia.
  destruct (bool_decide (n = O) && intena (getcpu c s)).
  - cpu_run. do 3 f_equal. lia.
  - do 3 f_equal; [lia|]. by apply Hf.
Qed.

Lemma cpu_ok_set c n p s : (c < length (cpus s))%nat -> ncli p = Z.of_nat n ->
  (n <> O -> flif p = false) -> cpu_ok c n (setcpu c p s).
Proof. intros Hc Hn Hf. unfold cpu_ok. rewrite getcpu_set by done. simpl. by rewrite length_insert. Qed.

Lemma cpu_ok_frame c c' n p s : c <> c' -> cpu_ok c' n s -> cpu_ok c' n (setcpu c p s).
Proof. intros Hc (H1 & H2 & H3). unfold cpu_ok. rewrite getcpu_set_ne by done. simpl. by rewrite length_insert. Qed.

Lemma holding_run c n l s : cpu_ok c n s -> exists b,
  (n <> O -> b = intena (getcpu c s)) /\
  holding c l s = Ret (locked (getlock l s) && bool_decide (lcpu (getlock l s) = Some c))
                      (setcpu c (MkCpu (Z.of_nat n) b (flif (getcpu c s))) s).
Proof.
  intros Hok. destruct (pushcli_run _ _ _ Hok) as (b & Hb & Hb0 & E). destruct Hok as (Hc & Hn & Hf).
  exists b. split; [done|]. unfold holding. rewrite (bind_ret _ _ _ _ _ E). unfold bind at 1, gets.
  erewrite bind_ret; [|apply (popcli_run c n); by apply cpu_ok_set].
  cpu_run. unfold ret. do 3 f_equal.
  destruct n as [|n]; simpl; [by apply Hb0|]. symmetry. by apply Hf.
Qed.

(** Inside a [pushcli] the test of [holding] leaves no trace. *)
Lemma holding_run_in c n l s : cpu_ok c (S n) s ->
  holding c l s = Ret (locked (getlock l s) && bool_decide (lcpu (getlock l s) = Some c)) s.
Proof.
  intros Hok. destruct (holding_run c _ l s Hok) as (b & Hb & ->). destruct Hok as (Hc & Hn & Hf).
  f_equal. rewrite Hb, <- Hn by done. transitivity (setcpu c (getcpu c s) s); [|by apply setcpu_get].
  by destruct (getcpu c s).
Qed.

Lemma acquire_enter_run c n l s : cpu_ok c n s -> exists p, cpu_ok c (S n) (setcpu c p s) /\
  acquire_enter c l s = if locked (getlock l s) && bool_decide (lcpu (getlock l s) = Some c)
                        then Stop (Panicked "acquire") (setcpu c p s) else Ret tt (setcpu c p s).
Proof.
  intros Hok. destruct (pushcli_run _ _ _ Hok) as (b & _ & _ & E). destruct Hok as (Hc & _ & _).
  exists (MkCpu (Z.of_nat (S n)) b false).
  assert (cpu_ok c (S n) (setcpu c (MkCpu (Z.of_nat (S n)) b false) s)) as Hok' by (by apply cpu_ok_set).
  split; [done|]. unfold acquire_enter. rewrite (bind_ret _ _ _ _ _ E).
  rewrite (bind_ret _ _ _ _ _ (holding_run_in _ _ l _ Hok')).
  change (getlock l (setcpu _ _ s)) with (getlock l s).
  by destruct (locked (getlock l s) && _).
Qed.

Lemma release_enter_run c n l s : cpu_ok c (S n) s ->
  release_enter c l s = if locked (getlock l s) && bool_decide (lcpu (getlock l s) = Some c)
                        then Ret tt (setlock l (MkLock (locked (getlock l s)) None) s)
                        else Stop (Panicked "release") s.
Proof.
  intros Hok. unfold release_enter. rewrite (bind_ret _ _ _ _ _ (holding_run_in _ _ l _ Hok)).
  by destruct (locked (getlock l s) && _).
Qed.

Lemma release_enter_inv c n l s m : cpu_ok c n s -> release_enter c l s = Ret tt m ->
  lcpu (getlock l s) = Some c /\ (n <> O -> m = setlock l (MkLock (locked (getlock l s)) None) s).
Proof.
  intros Hok E. split.
  - unfold release_enter in E. destruct (holding_run c n l s Hok) as (b & _ & E').
    rewrite (bind_ret _ _ _ _ _ E') in E.
    destruct (locked (getlock l s)); simpl in E; [|done]. case_bool_decide; done.
  - intros Hn. destruct n as [|n]; [done|]. rewrite (release_enter_run _ _ _ _ Hok) in E.
    destruct (locked (getlock l s) && _); [by injection E|done].
Qed.

(** ** The invariant *)

Definition busy (t : thread) : nat := match at_ t with Outside => 0 | _ => 1 end.
Definition depth (t : thread) : nat := busy t + length (holds t) + pushes t.

(** CPU [t] keeps others out of [l]. *)
Definition owns (t : thread) (l : Z) : Prop := l ∈ holds t \/ at_ t = Won l \/ at_ t = Leaving l.

Record thread_ok (m : machine) (c : nat) (t : thread) : Prop := {
  t_cpu : cpu_ok c (depth t) m;
  t_nodup : NoDup (holds t);
  t_out : forall l, at_ t = Won l \/ at_ t = Leaving l -> l ∉ holds t
}.

(** [o] is the CPU that owns [l], if one does. *)
Record lock_ok (m : machine) (ts : list thread) (l : Z) (o : option nat) : Prop := {
  k_owner : forall c t, ts !! c = Some t -> (owns t l <-> o = Some c);
  k_range : forall c, o = Some c -> (c < length ts)%nat;
  k_locked : locked (getlock l m) = bool_decide (o <> None);
  k_cpu : forall c, lcpu (getlock l m) = Some c <-> exists t, ts !! c = Some t /\ l ∈ holds t
}.

Record inv (x : system) : Prop := {
  i_threads : forall c t, threads x !! c = Some t -> thread_ok (mach x) c t;
  i_locks : forall l, exists o, lock_ok (mach x) (threads x) l o
}.

Lemma boot_inv n : inv (boot n).
Proof.
  split; simpl.
  - intros c t [-> Hc]%lookup_replicate. split; simpl; [|constructor|naive_solver].
    split_and!; [simpl; by rewrite length_replicate | | done]. unfold getcpu. simpl.
    rewrite nth_lookup, lookup_replicate_2 by done. done.
  - intros l. exists None. split; simpl.
    + intros c t [-> Hc]%lookup_replicate. unfold owns. simpl. set_solver.
    + done.
    + done.
    + intros c. split; [done|]. intros (t & [-> _]%lookup_replicate & Hl). simpl in Hl. set_solver.
Qed.

(** A step of CPU [c] that leaves the locks alone. *)
Lemma locks_same m m' ts c t t' : ts !! c = Some t -> (forall l, getlock l m' = getlock l m) ->
  holds t' = holds t -> (forall l, owns t' l <-> owns t l) ->
  (forall l, exists o, lock_ok m ts l o) -> forall l, exists o, lock_ok m' (<[c := t']> ts) l o.
Proof.
  intros Ht Hm Hh Ho Hk l. destruct (Hk l) as [o [K1 K2 K3 K4]]. exists o.
  pose proof (lookup_lt_Some _ _ _ Ht) as Hc. split.
  - intros c' t1. destruct (decide (c = c')) as [<-|Hne].
    + rewrite list_lookup_insert_eq by done. intros [= <-]. rewrite Ho. by apply K1.
    + rewrite list_lookup_insert_ne by done. apply K1.
  - intros c'. rewrite length_insert. apply K2.
  - by rewrite Hm.
  - intros c'. rewrite Hm, K4. destruct (decide (c = c')) as [<-|Hne].
    + rewrite list_lookup_insert_eq by done. rewrite Ht.
      split; intros (t1 & [= <-] & Hl); eexists; (split; [done|]); congruence.
    + by rewrite list_lookup_insert_ne.
Qed.

(** A step of CPU [c] that changes lock [l]. *)
Lemma locks_change m m' ts c t t' l o' : ts !! c = Some t ->
  (forall l', l' <> l -> getlock l' m' = getlock l' m) ->
  (forall l', l' <> l -> (owns t' l' <-> owns t l') /\ (l' ∈ holds t' <-> l' ∈ holds t)) ->
  (forall o, lock_ok m ts l o -> lock_ok m' (<[c := t']> ts) l (o' o)) ->
  (forall l, exists o, lock_ok m ts l o) -> forall l, exists o, lock_ok m' (<[c := t']> ts) l o.
Proof.
  intros Ht Hm Ho Hl Hk l'. destruct (Hk l') as [o Hok].
  destruct (decide (l' = l)) as [->|Hne]; [by exists (o' o); apply Hl|].
  destruct (Ho l' Hne) as [Ho1 Ho2]. destruct Hok as [K1 K2 K3 K4]. exists o.
  pose proof (lookup_lt_Some _ _ _ Ht) as Hc. split.
  - intros c' t1. destruct (decide (c = c')) as [<-|Hne'].
    + rewrite list_lookup_insert_eq by done. intros [= <-]. rewrite Ho1. by apply K1.
    + rewrite list_lookup_insert_ne by done. apply K1.
  - intros c'. rewrite length_insert. apply K2.
  - by rewrite Hm.
  - intros c'. rewrite Hm, K4 by done. destruct (decide (c = c')) as [<-|Hne'].
    + rewrite list_lookup_insert_eq by done. rewrite Ht.
      split; intros (t1 & [= <-] & H1); eexists; (split; [done|]); tauto.
    + by rewrite list_lookup_insert_ne.
Qed.

(** The CPUs after a step of CPU [c]. *)
Lemma threads_step m m' ts c t' : (c < length ts)%nat ->
  (forall c' t, ts !! c' = Some t -> thread_ok m c' t) ->
  (forall c' n, c' <> c -> cpu_ok c' n m -> cpu_ok c' n m') -> thread_ok m' c t' ->
  forall c' t, <[c := t']> ts !! c' = Some t -> thread_ok m' c' t.
Proof.
  intros Hc Hts Hm Ht' c' t. destruct (decide (c = c')) as [<-|Hne].
  - rewrite list_lookup_insert_eq by done. by intros [= <-].
  - rewrite list_lookup_insert_ne by done. intros Ht. destruct (Hts _ _ Ht) as [T1 T2 T3].
    split; [by apply Hm | done | done].
Qed.

(** Who owns a lock, given that [c] does. *)
Lemma owner_is m ts l o c t : lock_ok m ts l o -> ts !! c = Some t -> owns t l -> o = Some c.
Proof. intros Hk Ht Ho. by apply (k_owner _ _ _ _ Hk c t). Qed.

Lemma win_ok m ts c t l o : ts !! c = Some t -> at_ t = Spinning l -> lock_ok m ts l o ->
  locked (getlock l m) = false ->
  lock_ok (setlock l (MkLock true (lcpu (getlock l m))) m)
          (<[c := MkThread (Won l) (holds t) (pushes t)]> ts) l (Some c).
Proof.
  intros Ht Hat [K1 K2 K3 K4] Hl. pose proof (lookup_lt_Some _ _ _ Ht) as Hc.
  rewrite Hl in K3. symmetry in K3. apply bool_decide_eq_false in K3. destruct o; [by destruct K3|]. split.
  - intros c' t'. destruct (decide (c = c')) as [<-|Hne].
    + rewrite list_lookup_insert_eq by done. intros [= <-]. unfold owns. simpl. tauto.
    + rewrite list_lookup_insert_ne by done. intros Ht'. rewrite (K1 _ _ Ht'). naive_solver.
  - intros c' [= <-]. by rewrite length_insert.
  - by rewrite getlock_set.
  - intros c'. rewrite getlock_set. simpl. rewrite K4. destruct (decide (c = c')) as [<-|Hne].
    + rewrite list_lookup_insert_eq, Ht by done. naive_solver.
    + by rewrite list_lookup_insert_ne.
Qed.

Lemma acquired_ok m ts c t l o : ts !! c = Some t -> at_ t = Won l -> lock_ok m ts l o ->
  lock_ok (setlock l (MkLock (locked (getlock l m)) (Some c)) m)
          (<[c := MkThread Outside (l :: holds t) (pushes t)]> ts) l o.
Proof.
  intros Ht Hat Hk. pose proof (lookup_lt_Some _ _ _ Ht) as Hc.
  assert (o = Some c) as -> by (eapply owner_is; [done | done | by right; left]).
  destruct Hk as [K1 K2 K3 K4]. split.
  - intros c' t'. destruct (decide (c = c')) as [<-|Hne].
    + rewrite list_lookup_insert_eq by done. intros [= <-]. unfold owns. simpl. set_solver.
    + rewrite list_lookup_insert_ne by done. apply K1.
  - intros c'. rewrite length_insert. apply K2.
  - by rewrite getlock_set.
  - intros c'. rewrite getlock_set. simpl. destruct (decide (c = c')) as [<-|Hne].
    + rewrite list_lookup_insert_eq by done. split; [|done]. intros _. eexists. split; [done|]. set_solver.
    + rewrite list_lookup_insert_ne by done. split; [congruence|]. intros (t' & Ht' & Hl).
      assert (Some c = Some c') by (apply (K1 c' t' Ht'); by left). congruence.
Qed.

Lemma leaving_ok m ts c t l o : ts !! c = Some t -> l ∈ holds t -> lock_ok m ts l o ->
  lock_ok (setlock l (MkLock (locked (getlock l m)) None) m)
          (<[c := MkThread (Leaving l) (filter (.≠ l) (holds t)) (pushes t)]> ts) l o.
Proof.
  intros Ht Hin Hk. pose proof (lookup_lt_Some _ _ _ Ht) as Hc.
  assert (o = Some c) as -> by (eapply owner_is; [done | done | by left]).
  destruct Hk as [K1 K2 K3 K4]. split.
  - intros c' t'. destruct (decide (c = c')) as [<-|Hne].
    + rewrite list_lookup_insert_eq by done. intros [= <-]. unfold owns. simpl. tauto.
    + rewrite list_lookup_insert_ne by done. apply K1.
  - intros c'. rewrite length_insert. apply K2.
  - by rewrite getlock_set.
  - intros c'. rewrite getlock_set. simpl. split; [done|]. intros (t' & Ht' & Hl). exfalso.
    destruct (decide (c = c')) as [<-|Hne].
    + rewrite list_lookup_insert_eq in Ht' by done. injection Ht' as <-. simpl in Hl.
      by apply list_elem_of_filter in Hl as [? _].
    + rewrite list_lookup_insert_ne in Ht' by done.
      assert (Some c = Some c') by (apply (K1 c' t' Ht'); by left). congruence.
Qed.

Lemma released_ok m ts c t l o : ts !! c = Some t -> at_ t = Leaving l -> l ∉ holds t ->
  lock_ok m ts l o ->
  lock_ok (setlock l (MkLock false (lcpu (getlock l m))) m)
          (<[c := MkThread Outside (holds t) (pushes t)]> ts) l None.
Proof.
  intros Ht Hat Hin Hk. pose proof (lookup_lt_Some _ _ _ Ht) as Hc.
  assert (o = Some c) as -> by (eapply owner_is; [done | done | by right; right]).
  destruct Hk as [K1 K2 K3 K4]. split.
  - intros c' t'. destruct (decide (c = c')) as [<-|Hne].
    + rewrite list_lookup_insert_eq by done. intros [= <-]. unfold owns. simpl. naive_solver.
    + rewrite list_lookup_insert_ne by done. intros Ht'. rewrite (K1 _ _ Ht'). naive_solver.
  - done.
  - by rewrite getlock_set.
  - intros c'. rewrite getlock_set. simpl. rewrite K4. destruct (decide (c = c')) as [<-|Hne].
    + rewrite list_lookup_insert_eq, Ht by done. naive_solver.
    + by rewrite list_lookup_insert_ne.
Qed.

Lemma length_remove (l : Z) ls : NoDup ls -> l ∈ ls -> length ls = S (length (filter (.≠ l) ls)).
Proof.
  intros Hnd Hin. apply list_elem_of_split in Hin as (l1 & l2 & ->).
  apply NoDup_app in Hnd as (N1 & N2 & N3). apply NoDup_cons in N3 as [N3 N4].
  rewrite filter_app, filter_cons_False by (by intros ?). rewrite !length_app. simpl.
  assert (forall k : list Z, l ∉ k -> filter (.≠ l) k = k) as Hid.
  { intros k. induction k as [|a k IH]; intros Hk; [done|]. apply not_elem_of_cons in Hk as [Ha Hk].
    rewrite filter_cons_True by done. by rewrite IH. }
  rewrite !Hid; [lia | done | by intros H; apply (N2 l H); left].
Qed.

Lemma lock_ok_cpu c p m ts l o : lock_ok m ts l o -> lock_ok (setcpu c p m) ts l o.
Proof. by intros [K1 K2 K3 K4]. Qed.

Lemma thread_ok_lock c t l k s : thread_ok s c t -> thread_ok (setlock l k s) c t.
Proof. by intros [T1 T2 T3]. Qed.

Lemma step_inv x y : inv x -> step x y -> inv y.
Proof.
  intros [IT IL] Hs.
  destruct Hs as [c t l m Ht Hat E|c t l m Ht Hat E|c t l m Ht Hat E|c t l m Ht Hat E|c t l m Ht Hat E
                 |c t l m Ht Hat E|c t m Ht Hat E|c t n m Ht Hat Hn E|c t m Ht Hat Hh Hp E];
    pose proof (IT _ _ Ht) as [T1 T2 T3]; pose proof (lookup_lt_Some _ _ _ Ht) as Hc;
    unfold depth, busy in T1; rewrite Hat in T1; rewrite ?Hat in T3.
  - destruct (acquire_enter_run _ _ l _ T1) as (p & Hp & E'). rewrite E' in E.
    destruct (locked _ && _); [done|]. injection E as <-. split; cbn [mach threads].
    + eapply threads_step; [done | exact IT | intros; by apply cpu_ok_frame |].
      split; [done | done | naive_solver].
    + eapply (locks_same (mach x)); [exact Ht | done | done | | exact IL]. intros l'. unfold owns. simpl. rewrite Hat. naive_solver.
  - rewrite xchg_run in E. injection E as E <-. split; cbn [mach threads]; [intros; by apply thread_ok_lock, IT|]. intros l'. destruct (IL l') as [o Ho]. exists o.
    destruct (decide (l' = l)) as [->|Hne].
    + destruct Ho as [K1 K2 K3 K4]. split; try done; rewrite getlock_set; [|done]. simpl. congruence.
    + destruct Ho as [K1 K2 K3 K4]. split; try done; by rewrite getlock_set_ne.
  - rewrite xchg_run in E. injection E as E <-. split; cbn [mach threads].
    + eapply threads_step; [done | exact IT | done |]. split; [done | done | simpl].
      intros l' [[= <-]|[=]] Hin. destruct (IL l) as [o Ho].
      assert (o = Some c) as -> by (eapply owner_is; [done | done | by left]).
      rewrite (k_locked _ _ _ _ Ho) in E. done.
    + eapply (locks_change (mach x) _ _ _ _ _ l (fun _ => Some c)); [done | | | | done].
      * intros l' Hne. by apply getlock_set_ne.
      * intros l' Hne. unfold owns. simpl. rewrite Hat. naive_solver.
      * intros o Ho. by eapply win_ok.
  - unfold acquire_leave in E. rewrite updlock_run in E. injection E as <-. split; cbn [mach threads].
    + eapply threads_step; [done | exact IT | done |]. split; simpl; [done | | naive_solver].
      constructor; [|done]. apply T3. by left.
    + eapply (locks_change (mach x) _ _ _ _ _ l (fun o => o)); [done | | | | done].
      * intros l' Hne. by apply getlock_set_ne.
      * intros l' Hne. unfold owns. simpl. rewrite Hat, elem_of_cons. naive_solver.
      * intros o Ho. by eapply acquired_ok.
  - destruct (release_enter_inv _ _ _ _ _ T1 E) as [Hl Hm].
    assert (l ∈ holds t) as Hin.
    { destruct (IL l) as [o Ho]. apply (k_cpu _ _ _ _ Ho) in Hl as (t' & Ht' & ?). congruence. }
    rewrite Hm by (destruct (holds t); [by apply elem_of_nil in Hin | done]). clear E Hm. split; cbn [mach threads].
    + eapply threads_step; [done | exact IT | done |]. split; cbn [mach threads].
      * unfold depth, busy. simpl. by rewrite (length_remove l) in T1.
      * by apply NoDup_filter.
      * intros l' [[=]|[= ->]] Hf. by apply list_elem_of_filter in Hf as [? _].
    + eapply (locks_change (mach x) _ _ _ _ _ l (fun o => o)); [done | | | | done].
      * intros l' Hne. by apply getlock_set_ne.
      * intros l' Hne. unfold owns. simpl. rewrite Hat, list_elem_of_filter. naive_solver.
      * intros o Ho. by eapply leaving_ok.
  - unfold release_leave in E. unfold bind in E. rewrite updlock_run in E.
    erewrite popcli_run in E by (exact T1). injection E as <-. split; cbn [mach threads].
    + eapply threads_step; [done | exact IT | intros; by apply cpu_ok_frame |].
      split; simpl; [|done|naive_solver]. apply cpu_ok_set; [by apply T1 | done |].
      unfold depth. simpl. intros Hd. by rewrite bool_decide_false.
    + eapply (locks_change (mach x) _ _ _ _ _ l (fun _ => None)); [done | | | | done].
      * intros l' Hne. by apply getlock_set_ne.
      * intros l' Hne. unfold owns. simpl. rewrite Hat. naive_solver.
      * intros o Ho. apply lock_ok_cpu. eapply released_ok; [done | done | | done]. apply T3. by right.
  - destruct (pushcli_run _ _ _ T1) as (b & _ & _ & E'). rewrite E' in E. injection E as <-. split; cbn [mach threads].
    + eapply threads_step; [done | exact IT | intros; by apply cpu_ok_frame |].
      split; simpl; [|done|naive_solver]. apply cpu_ok_set; [by apply T1 | | done].
      unfold depth. simpl. lia.
    + eapply (locks_same (mach x)); [exact Ht | done | done | | exact IL]. intros l'. unfold owns. simpl. by rewrite Hat.
  - rewrite Hn in T1. replace (0 + length (holds t) + S n)%nat with (S (length (holds t) + n)) in T1 by lia.
    rewrite (popcli_run _ _ _ T1) in E. injection E as <-. split; cbn [mach threads].
    + eapply threads_step; [done | exact IT | intros; by apply cpu_ok_frame |].
      split; simpl; [|done|naive_solver]. apply cpu_ok_set; [by apply T1 | done |].
      unfold depth. simpl. intros Hd. by rewrite bool_decide_false.
    + eapply (locks_same (mach x)); [exact Ht | done | done | | exact IL]. intros l'. unfold owns. simpl. by rewrite Hat.
  - injection E as <-. rewrite Hh, Hp in T1. rewrite <- (list_insert_id (threads x) c t) by done. split; cbn [mach threads].
    + eapply threads_step; [done | exact IT | intros; by apply cpu_ok_frame |].
      split; [|done | by rewrite Hat]. unfold depth, busy. rewrite Hat, Hh, Hp. destruct T1 as (? & ? & _).
      by apply cpu_ok_set.
    + by eapply (locks_same (mach x)).
Qed.

Lemma reachable_inv n x : rtc step (boot n) x -> inv x.
Proof.
  assert (inv (boot n)) as H0 by apply boot_inv. intros Hr. revert H0.
  induction Hr as [|x y z Hxy _ IH]; [done|]. intros Hx. apply IH. by eapply step_inv.
Qed.

(** C12: Spin locks exclude.  However the steps of any number of CPUs interleave, at
    most one CPU is between the exchange that won a lock and the store that
    releases it; the lock word is set exactly then; a CPU that holds or waits for
    a lock has its interrupts off and is at the [pushcli] depth of what it has to
    undo; [acquire] panics exactly on a lock the CPU holds, [release] succeeds on
    one it holds and panics on any other. *)
Theorem mutual_exclusion n x : rtc step (boot n) x ->
  (forall l c c' t t', threads x !! c = Some t -> threads x !! c' = Some t' ->
     owns t l -> owns t' l -> c = c') /\
  (forall l, locked (getlock l (mach x)) = true <-> exists c t, threads x !! c = Some t /\ owns t l) /\
  (forall c t, threads x !! c = Some t -> ncli (getcpu c (mach x)) = Z.of_nat (depth t) /\
     (at_ t <> Outside \/ holds t <> [] -> flif (getcpu c (mach x)) = false)) /\
  (forall c t l, threads x !! c = Some t -> at_ t = Outside ->
     ((exists m, acquire_enter c l (mach x) = Stop (Panicked "acquire") m) <-> l ∈ holds t) /\
     ((exists m, release_enter c l (mach x) = Ret tt m) <-> l ∈ holds t)).
Proof.
  intros [IT IL]%reachable_inv. split_and!.
  - intros l c c' t t' Ht Ht' Ho Ho'. destruct (IL l) as [o Hk].
    pose proof (owner_is _ _ _ _ _ _ Hk Ht Ho). pose proof (owner_is _ _ _ _ _ _ Hk Ht' Ho'). congruence.
  - intros l. destruct (IL l) as [o Hk]. rewrite (k_locked _ _ _ _ Hk), bool_decide_eq_true. split.
    + destruct o as [c|]; [|done]. intros _. pose proof (k_range _ _ _ _ Hk c eq_refl) as Hc.
      apply lookup_lt_is_Some in Hc as [t Ht]. exists c, t. split; [done|]. by apply (k_owner _ _ _ _ Hk c t).
    + intros (c & t & Ht & Ho). by rewrite (owner_is _ _ _ _ _ _ Hk Ht Ho).
  - intros c t Ht. destruct (IT _ _ Ht) as [(_ & T1 & T2) _ _]. split; [done|]. intros Hb. apply T2.
    unfold depth, busy. destruct (at_ t), (holds t); naive_solver lia.
  - intros c t l Ht Hat. destruct (IT _ _ Ht) as [T1 _ _]. destruct (IL l) as [o Hk].
    assert (locked (getlock l (mach x)) && bool_decide (lcpu (getlock l (mach x)) = Some c) = true
      <-> l ∈ holds t) as Hh.
    { rewrite andb_true_iff, bool_decide_eq_true, (k_cpu _ _ _ _ Hk). split.
      - intros [_ (t' & Ht' & Hl)]. congruence.
      - intros Hl. split; [|eauto]. rewrite (k_locked _ _ _ _ Hk).
        by rewrite (owner_is _ _ _ _ _ _ Hk Ht (or_introl Hl)). }
    rewrite <- Hh. split.
    + destruct (acquire_enter_run _ _ l _ T1) as (p & _ & ->).
      destruct (locked _ && _); split; intros; naive_solver.
    + split; [intros (m & E) | intros E].
      * apply Hh. destruct (release_enter_inv _ _ _ _ _ T1 E) as [Hl _].
        apply (k_cpu _ _ _ _ Hk) in Hl as (t' & Ht' & ?). congruence.
      * destruct (depth t) as [|d] eqn:Ed.
        { apply Hh in E. unfold depth in Ed. destruct (holds t); [by apply elem_of_nil in E | simpl in Ed; lia]. }
        rewrite (release_enter_run _ _ _ _ T1), E. by eexists.
Qed.

Lemma mutual_exclusion_witness : exists x, rtc step (boot 2) x /\ locked (getlock 7 (mach x)) = true.
Proof.
  assert (exists x, rtc step (boot 2) x /\ threads x !! 0%nat = Some (MkThread (Won 7) [] 0))
    as (x & Hr & Ht).
  { eexists. split.
    - eapply rtc_l; [eapply (step_enter _ 0 _ 7); vm_compute; reflexivity|].
      eapply rtc_l; [eapply (step_win _ 0 _ 7); vm_compute; reflexivity|].
      eapply rtc_l; [eapply (step_enter _ 1 _ 7); vm_compute; reflexivity|].
      eapply rtc_l; [eapply (step_spin _ 1 _ 7); vm_compute; reflexivity|]. apply rtc_refl.
    - reflexivity. }
  exists x. split; [exact Hr|]. destruct (mutual_exclusion 2 x Hr) as (_ & Hl & _). apply Hl.
  exists 0%nat, (MkThread (Won 7) [] 0). split; [exact Ht|]. right. left. reflexivity.
Defined.

End Spinlock.
