(* ===== verification/Kalloc.v ===== *)
(** Physical memory and its allocator: src/xv6-public/kalloc.c, with the address
    arithmetic of memlayout.h and mmu.h.

    Memory is a map from word addresses to words; the kernel sees physical
    address [pa] at [P2V pa].  The free pages are linked through their first
    word.  [end], the first address after the kernel image, is fixed by the
    linker and is a parameter. *)

From S2P Require Import Prelude.

Definition PGSIZE : Z := 4096.
Definition EXTMEM : Z := 0x100000.
Definition PHYSTOP : Z := 0xE000000.
Definition DEVSPACE : Z := 0xFE000000.
Definition KERNBASE : Z := 0x80000000.
Definition KERNLINK : Z := KERNBASE + EXTMEM.
Definition V2P (a : Z) : Z := u32 (a - KERNBASE).
Definition P2V (a : Z) : Z := u32 (a + KERNBASE).
Definition PGROUNDUP (sz : Z) : Z := Z.land (u32 (sz + PGSIZE - 1)) (u32 (Z.lnot (PGSIZE - 1))).
Definition PGROUNDDOWN (a : Z) : Z := Z.land a (u32 (Z.lnot (PGSIZE - 1))).

(** Clearing the offset bits of an address rounds it down. *)
Lemma rounddown_eq a : 0 <= a < 2 ^ 32 -> PGROUNDDOWN a = PGSIZE * (a / PGSIZE).
Proof.
  intros Ha. unfold PGROUNDDOWN, PGSIZE.
  change (u32 (Z.lnot (4096 - 1))) with (Z.ldiff (Z.ones 32) (Z.ones 12)).
  assert (Z.land a (Z.ldiff (Z.ones 32) (Z.ones 12)) = Z.ldiff (Z.land a (Z.ones 32)) (Z.ones 12)) as ->.
  { apply Z.bits_inj'. intros k _. by rewrite !Z.land_spec, !Z.ldiff_spec, Z.land_spec, andb_assoc. }
  rewrite Z.land_ones, Z.mod_small, Z.ldiff_ones_r by lia.
  rewrite Z.shiftl_mul_pow2, Z.shiftr_div_pow2 by lia. change (2 ^ 12) with 4096. lia.
Qed.

Lemma roundup_eq a : 0 <= a -> a + 4095 < 2 ^ 32 -> PGROUNDUP a = PGSIZE * ((a + 4095) / PGSIZE).
Proof.
  intros H0 Ha. replace (PGROUNDUP a) with (PGROUNDDOWN (a + 4095)); [apply rounddown_eq; lia|].
  unfold PGROUNDUP, PGROUNDDOWN. f_equal. symmetry. change PGSIZE with 4096. rewrite u32_small; lia.
Qed.

Module Kalloc.

(** [kmem], and the memory. *)
Record kmem := MkKmem {
  klocked : bool;
  use_lock : bool;
  freelist : Z;
  mem : gmap Z Z
}.

Definition word (s : kmem) (a : Z) : Z := default 0 (mem s !! a).
Definition with_mem (m : gmap Z Z) (s : kmem) : kmem := MkKmem (klocked s) (use_lock s) (freelist s) m.
Definition with_freelist (p : Z) (s : kmem) : kmem := MkKmem (klocked s) (use_lock s) p (mem s).
Definition with_locked (b : bool) (s : kmem) : kmem := MkKmem b (use_lock s) (freelist s) (mem s).
Definition with_use (b : bool) (s : kmem) : kmem := MkKmem (klocked s) b (freelist s) (mem s).

Definition load (a : Z) : M kmem Z := gets (fun s => word s a).
Definition store (a v : Z) : M kmem unit := modify (fun s => with_mem (<[a := v]> (mem s)) s).

(** The words of the page at [v]. *)
Definition words (v : Z) : list Z := (fun i => v + 4 * Z.of_nat i) <$> seq 0 1024.
(** Storing [w] in every word of a page, as [memset] of a byte does. *)
Definition fill (v w : Z) (m : gmap Z Z) : gmap Z Z := foldr (fun a => <[a := w]>) m (words v).
#[global] Arguments words : simpl never.
#[global] Arguments fill : simpl never.
Definition memset_page (v w : Z) : M kmem unit := modify (fun s => with_mem (fill v w (mem s)) s).

Definition acquire : M kmem unit :=
  let! l := gets klocked in
  if (l : bool) then stop_with Spins else modify (with_locked true).
Definition release : M kmem unit :=
  let! l := gets klocked in
  if (l : bool) then modify (with_locked false) else panic "release".

Section ops.
Context (kend : Z).

Definition bad_page (v : Z) : bool :=
  bool_decide (v mod PGSIZE <> 0) || bool_decide (v < kend) || bool_decide (PHYSTOP <= V2P v).

Definition kfree (v : Z) : M kmem unit :=
  if bad_page v then panic "kfree" else
  memset_page v 0x01010101 ;;;
  let! u := gets use_lock in
  when u acquire ;;;
  let! f := gets freelist in
  store v f ;;;
  modify (with_freelist v) ;;;
  when u release.

Definition kalloc : M kmem Z :=
  let! u := gets use_lock in
  when u acquire ;;;
  let! r := gets freelist in
  (if decide (r <> 0) then let! n := load r in modify (with_freelist n) else ret tt) ;;;
  when u release ;;;
  ret r.

(** The pages of [freerange], in the order they are freed. *)
Definition range_pages (vstart vend : Z) : list Z :=
  let p := PGROUNDUP vstart in
  (fun i => p + PGSIZE * Z.of_nat i) <$> seq 0 (Z.to_nat ((vend - p) / PGSIZE)).
Definition freerange (vstart vend : Z) : M kmem unit := forM (range_pages vstart vend) kfree.

Definition kinit1 (vstart vend : Z) : M kmem unit :=
  modify (with_locked false) ;;;
  modify (with_use false) ;;;
  freerange vstart vend.
Definition kinit2 (vstart vend : Z) : M kmem unit :=
  freerange vstart vend ;;;
  modify (with_use true).

(** ** The free list *)

Definition page_ok (v : Z) : Prop := v mod PGSIZE = 0 /\ kend <= v < P2V PHYSTOP.

(** From [p], the links of memory [s] run through the pages [l]. *)
Fixpoint chain (s : kmem) (p : Z) (l : list Z) : Prop :=
  match l with
  | [] => p = 0
  | v :: l' => p = v /\ chain s (word s v) l'
  end.

(** The allocator's invariant: [l] are the free pages. *)
Record kinv (s : kmem) (l : list Z) : Prop := {
  kv_unlocked : klocked s = false;
  kv_chain : chain s (freelist s) l;
  kv_nodup : NoDup l;
  kv_pages : Forall page_ok l
}.

(** ** Pages *)

Lemma elem_of_words v a : a ∈ words v <-> exists i, (i < 1024)%nat /\ a = v + 4 * Z.of_nat i.
Proof.
  unfold words. rewrite list_elem_of_fmap. split.
  - intros (i & -> & Hi). apply elem_of_seq in Hi. exists i. split; [lia | done].
  - intros (i & Hi & ->). exists i. split; [done|]. apply elem_of_seq. lia.
Qed.

Lemma words_self v : v ∈ words v.
Proof. apply elem_of_words. exists O. lia. Qed.

Lemma words_disjoint v v' a : v mod PGSIZE = 0 -> v' mod PGSIZE = 0 -> v <> v' -> a ∈ words v -> a ∉ words v'.
Proof.
  unfold PGSIZE. intros Hv Hv' Hne (i & Hi & ->)%elem_of_words (j & Hj & E)%elem_of_words.
  apply Z.mod_divide in Hv as [k ->]; [|done]. apply Z.mod_divide in Hv' as [k' ->]; [|done]. lia.
Qed.

Lemma fill_lookup v w m a : fill v w m !! a = if decide (a ∈ words v) then Some w else m !! a.
Proof.
  unfold fill. generalize (words v). intros l. induction l as [|x l IH]; cbn [foldr].
  - by rewrite decide_False by (apply not_elem_of_nil).
  - destruct (decide (a = x)) as [->|Hne].
    + rewrite lookup_insert_eq, decide_True; [done|]. by left.
    + rewrite lookup_insert_ne, IH by done. apply decide_ext. rewrite elem_of_cons. tauto.
Qed.

#[local] Opaque words fill.

Lemma word_fill s v w a : word (with_mem (fill v w (mem s)) s) a = if decide (a ∈ words v) then w else word s a.
Proof. unfold word. simpl. rewrite fill_lookup. by case_decide. Qed.

Lemma word_store s a v a' : word (with_mem (<[a := v]> (mem s)) s) a' = if decide (a' = a) then v else word s a'.
Proof.
  unfold word. simpl. case_decide as E; [subst; by rewrite lookup_insert_eq | by rewrite lookup_insert_ne].
Qed.

Context (Hend : KERNBASE <= kend).

Lemma page_good v : page_ok v -> bad_page v = false.
Proof.
  intros [H1 H2]. unfold bad_page. rewrite !orb_false_iff, !bool_decide_eq_false.
  split_and!; [congruence | lia |]. unfold V2P, P2V, KERNBASE, PHYSTOP in *.
  change (u32 (0xE000000 + 0x80000000)) with 0x8E000000 in H2. rewrite u32_small; lia.
Qed.

Lemma page_nonzero v : page_ok v -> v <> 0.
Proof. intros [_ H]. unfold KERNBASE in *. lia. Qed.

(** A store outside the first words of the free pages does not touch the list. *)
Lemma chain_frame s s' p l : (forall v, v ∈ l -> word s' v = word s v) -> chain s p l -> chain s' p l.
Proof.
  revert p. induction l as [|v l IH]; intros p Hw; [done|]. intros [-> Hc]. split; [done|].
  rewrite Hw by (by left). apply IH; [|done]. intros v' Hv'. apply Hw. by right.
Qed.

Lemma lock_unlock s u : klocked s = false ->
  when u acquire s = Ret tt (if u then with_locked true s else s).
Proof. intros Hl. destruct u; [|done]. unfold when, acquire. mrun. by rewrite Hl. Qed.

(** What [kalloc] does. *)
Lemma kalloc_run s l : kinv s l ->
  kalloc s = match l with
             | [] => Ret 0 s
             | v :: l' => Ret v (with_freelist (word s v) s)
             end.
Proof.
  intros [K1 K2 K3 K4]. destruct s as [lk u f m]. simpl in *. subst lk. unfold kalloc, acquire, release, load. mrun. simpl.
  destruct l as [|v l]; simpl in K2.
  - subst f. by destruct u.
  - destruct K2 as [-> _]. apply Forall_cons in K4 as [Hv _]. apply page_nonzero in Hv.
    destruct u; simpl; rewrite decide_True by done; done.
Qed.

Lemma kalloc_inv s v l : kinv s (v :: l) -> kinv (with_freelist (word s v) s) l.
Proof.
  intros [K1 [_ K2] K3 K4]. apply NoDup_cons in K3 as [_ K3]. apply Forall_cons in K4 as [_ K4].
  split; [done | | done | done]. simpl. by eapply chain_frame; [|exact K2].
Qed.

(** What [kfree] does. *)
Definition freed (v : Z) (s : kmem) : kmem :=
  MkKmem (klocked s) (use_lock s) v (<[v := freelist s]> (fill v 0x01010101 (mem s))).

Lemma kfree_run s v : klocked s = false -> page_ok v -> kfree v s = Ret tt (freed v s).
Proof.
  intros Hl Hv. unfold kfree. rewrite page_good by done. destruct s as [lk u f m]. simpl in Hl. subst lk.
  unfold memset_page, acquire, release, store. mrun. simpl. by destruct u.
Qed.

Lemma word_freed v s a : word (freed v s) a =
  if decide (a = v) then freelist s else if decide (a ∈ words v) then 0x01010101 else word s a.
Proof.
  unfold word. simpl. case_decide as E; [subst; by rewrite lookup_insert_eq|].
  rewrite lookup_insert_ne by done. rewrite fill_lookup. by case_decide.
Qed.

Lemma kfree_inv s v l : kinv s l -> page_ok v -> v ∉ l -> kinv (freed v s) (v :: l).
Proof.
  intros [K1 K2 K3 K4] Hv Hn. split; [done | | by constructor | by constructor].
  split; [done|]. rewrite word_freed, decide_True by done. eapply chain_frame; [|exact K2].
  intros v' Hv'. rewrite word_freed. rewrite decide_False by (intros ->; done).
  rewrite decide_False; [done|]. rewrite Forall_forall in K4. pose proof (K4 v' Hv') as [Hm _].
  destruct Hv as [Hm' _]. eapply words_disjoint; [exact Hm | done | by intros -> | apply words_self].
Qed.

Lemma runs_kfree s v l (Q : unit -> kmem -> Prop) : kinv s l -> page_ok v -> v ∉ l ->
  (kinv (freed v s) (v :: l) -> Q tt (freed v s)) -> runs (kfree v) Q s.
Proof.
  intros Hk Hv Hn HQ. exists tt, (freed v s). split; [by apply kfree_run; [apply Hk|]|].
  by apply HQ, kfree_inv.
Qed.

(** ** Initialization *)

Lemma free_pages s l ps : kinv s l -> NoDup ps -> Forall page_ok ps -> (forall v, v ∈ ps -> v ∉ l) ->
  runs (forM ps kfree) (fun _ s' => kinv s' (reverse ps ++ l)) s.
Proof.
  revert s l. induction ps as [|v ps IH]; intros s l Hk Hnd Hok Hn; [by apply runs_ret|].
  apply NoDup_cons in Hnd as [Hv Hnd]. apply Forall_cons in Hok as [Hp Hok]. cbn [forM]. apply runs_bind.
  eapply runs_kfree; [done | done | apply Hn; by left |]. intros Hk'.
  eapply runs_mono; [apply (IH _ (v :: l)); [done | done | done |]|].
  - intros v' Hv' [->|Hin]%elem_of_cons; [done|]. eapply Hn; [by right | done].
  - intros [] s'. by rewrite reverse_cons, <- app_assoc.
Qed.

Lemma elem_of_range vstart vend v : v ∈ range_pages vstart vend <->
  exists i, 0 <= i < (vend - PGROUNDUP vstart) / PGSIZE /\ v = PGROUNDUP vstart + PGSIZE * i.
Proof.
  unfold range_pages. rewrite list_elem_of_fmap. split.
  - intros (i & -> & Hi). apply elem_of_seq in Hi. exists (Z.of_nat i). split; [lia | done].
  - intros (i & Hi & ->). exists (Z.to_nat i). split; [by rewrite Z2Nat.id by lia|]. apply elem_of_seq. lia.
Qed.

Lemma range_nodup vstart vend : NoDup (range_pages vstart vend).
Proof.
  unfold range_pages. apply NoDup_fmap_2; [|apply NoDup_seq]. intros i j E. unfold PGSIZE in E. lia.
Qed.

Definition FIRST4M : Z := 4 * 1024 * 1024.

(** The allocator's set-up in [main]. *)
Definition kinit : M kmem unit :=
  kinit1 kend (P2V FIRST4M) ;;;
  kinit2 (P2V FIRST4M) (P2V PHYSTOP).

(** All pages between the kernel and the end of memory. *)
Definition all_pages : list Z :=
  range_pages kend (P2V FIRST4M) ++ range_pages (P2V FIRST4M) (P2V PHYSTOP).

Lemma elem_of_all v : kend <= P2V FIRST4M -> v ∈ all_pages <-> page_ok v.
Proof.
  intros He. unfold all_pages, page_ok. rewrite elem_of_app, !elem_of_range.
  assert (P2V FIRST4M = 0x80400000) as E1 by done. assert (P2V PHYSTOP = 0x8E000000) as E2 by done.
  rewrite E1, E2 in *. rewrite (roundup_eq kend) by (unfold KERNBASE in *; lia).
  rewrite (roundup_eq 0x80400000) by lia. change ((0x80400000 + 4095) / PGSIZE) with 525312.
  change PGSIZE with 4096. unfold KERNBASE in *.
  pose proof (Z.div_mod (kend + 4095) 4096 ltac:(done)). pose proof (Z.mod_pos_bound (kend + 4095) 4096 eq_refl).
  set (k := (kend + 4095) / 4096) in *.
  replace ((0x80400000 - 4096 * k) / 4096) with (525312 - k)
    by (replace (0x80400000 - 4096 * k) with ((525312 - k) * 4096) by lia; by rewrite Z.div_mul).
  change ((2382364672 - 4096 * 525312) / 4096) with 56320. split.
  - intros [(i & Hi & ->)|(i & Hi & ->)]; (split; [|lia]);
      rewrite <- Z.mul_add_distr_l, Z.mul_comm; by rewrite Z.mod_mul.
  - intros [Hm Hv]. apply Z.mod_divide in Hm as [j ->]; [|done].
    destruct (decide (j < 525312)); [left; exists (j - k) | right; exists (j - 525312)]; lia.
Qed.

Lemma all_nodup : kend <= P2V FIRST4M -> NoDup all_pages.
Proof.
  intros He. unfold all_pages. apply NoDup_app. split; [apply range_nodup|]. split; [|apply range_nodup].
  intros v (i & Hi & ->)%elem_of_range (j & Hj & E)%elem_of_range.
  assert (P2V FIRST4M = 0x80400000) as E1 by done. rewrite E1 in *.
  rewrite (roundup_eq 0x80400000) in * by lia. change ((0x80400000 + 4095) / PGSIZE) with 525312 in *.
  unfold PGSIZE in *.
  pose proof (Z.mul_div_le (2151677952 - PGROUNDUP kend) 4096 eq_refl). lia.
Qed.

#[local] Opaque range_pages.

Lemma kinit_inv s : kend <= P2V FIRST4M -> freelist s = 0 ->
  runs kinit (fun _ s' => exists l, kinv s' l /\ l ≡ₚ all_pages) s.
Proof.
  intros He Hs. pose proof (all_nodup He) as Hnd. unfold all_pages in Hnd. apply NoDup_app in Hnd as (N1 & N2 & N3).
  assert (Forall page_ok all_pages) as Hok by (apply Forall_forall; intros v; apply elem_of_all; done).
  apply Forall_app in Hok as [Ok1 Ok2]. unfold kinit, kinit1, kinit2.
  apply runs_bind. apply runs_bind, runs_modify. apply runs_bind, runs_modify.
  eapply runs_mono; [apply (free_pages _ []); [|exact N1 | exact Ok1 | intros v _; apply not_elem_of_nil]|].
  { split; [reflexivity | exact Hs | constructor | constructor]. }
  intros [] s1 K1. rewrite app_nil_r in K1. apply runs_bind.
  eapply runs_mono; [apply (free_pages _ _ _ K1 N3 Ok2)|].
  { intros v Hv. rewrite elem_of_reverse. intros Hv'. by eapply N2. }
  intros [] s2 [V1 V2 V3 V4]. apply runs_modify. eexists. split.
  - split; [done | | done | done]. simpl. by eapply chain_frame; [|exact V2].
  - unfold all_pages. rewrite !reverse_Permutation. apply Permutation_app_comm.
Qed.

(** ** Clients *)

(** Users of the allocator: each page handed out is owned until it is freed, and
    its owner may write any of its words. *)
Record kstate := MkKs {
  km : kmem;
  owned : list Z
}.

Inductive kstep : kstate -> kstate -> Prop :=
| kstep_alloc x v s' : kalloc (km x) = Ret v s' -> v <> 0 -> kstep x (MkKs s' (v :: owned x))
| kstep_none x s' : kalloc (km x) = Ret 0 s' -> kstep x (MkKs s' (owned x))
| kstep_free x l1 v l2 s' : owned x = l1 ++ v :: l2 -> kfree v (km x) = Ret tt s' ->
    kstep x (MkKs s' (l1 ++ l2))
| kstep_write x v a w s' : v ∈ owned x -> a ∈ words v -> store a w (km x) = Ret tt s' ->
    kstep x (MkKs s' (owned x)).

(** Free and owned pages together are all the pages, each once. *)
Definition kpart (x : kstate) : Prop :=
  exists l, kinv (km x) l /\ l ++ owned x ≡ₚ all_pages.

Lemma kstep_part x y : kend <= P2V FIRST4M -> kpart x -> kstep x y -> kpart y.
Proof.
  intros He (l & Hk & Hp) Hs.
  assert (NoDup (l ++ owned x)) as Hnd by (rewrite Hp; by apply all_nodup).
  assert (Forall page_ok (l ++ owned x)) as Hok.
  { rewrite Hp. apply Forall_forall. intros v. by apply elem_of_all. }
  destruct Hs as [x v s' E Hv|x s' E|x l1 v l2 s' Ho E|x v a w s' Hv Ha E].
  - rewrite (kalloc_run _ _ Hk) in E. destruct l as [|v' l]; injection E as <- <-; [done|].
    exists l. split; [by apply kalloc_inv|]. simpl. by rewrite <- Permutation_middle.
  - rewrite (kalloc_run _ _ Hk) in E. destruct l as [|v' l]; [injection E as <-; by exists []|].
    injection E as E _.
    apply Forall_app in Hok as [Hok _]. apply Forall_cons in Hok as [Hv _]. by apply page_nonzero in Hv.
  - rewrite Ho in *. apply Forall_app in Hok as [_ Hok]. apply Forall_app in Hok as [_ Hok].
    apply Forall_cons in Hok as [Hv _]. rewrite kfree_run in E by (done || apply Hk). injection E as <-.
    exists (v :: l). split; [|by rewrite <- Hp; simpl; rewrite <- Permutation_middle, (Permutation_middle l)].
    apply kfree_inv; [done | done |]. intros Hin. apply NoDup_app in Hnd as (_ & Hnd & _).
    eapply Hnd; [exact Hin | set_solver].
  - injection E as <-. exists l. split; [|done]. destruct Hk as [K1 K2 K3 K4]. split; [done | | done | done].
    eapply chain_frame; [|exact K2]. intros v' Hv'. cbn [km]. rewrite word_store.
    rewrite decide_False; [done|]. intros Ea. apply Forall_app in Hok as [O1 O2].
    rewrite Forall_forall in O1, O2. apply NoDup_app in Hnd as (_ & Hnd & _).
    eapply (words_disjoint v v'); [by apply O2 | by apply O1 | | exact Ha | rewrite <- Ea; apply words_self].
    intros ->. by eapply Hnd.
Qed.

Lemma ksteps_part x y : kend <= P2V FIRST4M -> kpart x -> rtc kstep x y -> kpart y.
Proof. intros He Hx Hr. induction Hr as [|x y z Hxy _ IH]; [done|]. apply IH. by eapply kstep_part. Qed.

End ops.

(** C15: The page allocator never hands a page out twice.  Set up as [main] does it,
    over whatever its users write in their pages and in whatever order they
    allocate and free: [kalloc] always returns, it returns 0 exactly when every
    page between the kernel and the end of memory is owned, and otherwise a page
    aligned in that range that nobody owns; [kfree] of an owned page returns; a
    page owned is owned once. *)
Theorem kalloc_exclusive kend s0 : KERNBASE <= kend <= P2V FIRST4M -> freelist s0 = 0 ->
  runs (kinit kend) (fun _ s1 => forall y, rtc (kstep kend) (MkKs s1 []) y ->
    NoDup (owned y) /\
    (exists v s', kalloc (km y) = Ret v s' /\
       (v = 0 <-> owned y ≡ₚ all_pages kend) /\
       (v <> 0 -> page_ok kend v /\ v ∉ owned y)) /\
    (forall v, v ∈ owned y -> exists s', kfree kend v (km y) = Ret tt s')) s0.
Proof.
  intros [He1 He2] Hs. eapply runs_mono; [apply kinit_inv; [exact He1 | exact He2 | exact Hs]|].
  intros [] s1 (l1 & Hk1 & Hp1) y Hr. apply ksteps_part in Hr as (l & Hk & Hp); [|done|done|].
  2: { exists l1. simpl. by rewrite app_nil_r. }
  assert (NoDup (l ++ owned y)) as Hnd by (rewrite Hp; by apply all_nodup).
  assert (Forall (page_ok kend) (l ++ owned y)) as Hok.
  { rewrite Hp. apply Forall_forall. intros v. by apply elem_of_all. }
  apply NoDup_app in Hnd as (_ & Hdis & Hnd). apply Forall_app in Hok as [O1 O2]. split; [done|]. split.
  - rewrite (kalloc_run _ He1 _ _ Hk). destruct l as [|v l]; eexists _, _; (split; [done|]).
    + split; [|done]. split; [|done]. by intros _.
    + apply Forall_cons in O1 as [Hv _]. pose proof (page_nonzero _ He1 _ Hv). split; [|set_solver].
      split; [done|]. intros E. apply Permutation_length in Hp. rewrite <- E in Hp.
      rewrite length_app in Hp. simpl in Hp. lia.
  - intros v Hv. rewrite Forall_forall in O2. rewrite (kfree_run _ He1) by (by apply Hk || by apply O2). eauto.
Qed.

Lemma kalloc_exclusive_witness :
  runs (kinit 0x80115000) (fun _ s1 => exists v s', kalloc s1 = Ret v s' /\ v <> 0) (MkKmem false false 0 ∅).
Proof.
  eapply runs_mono; [apply kalloc_exclusive; [by vm_compute | reflexivity]|].
  intros [] s1 H. destruct (H _ (rtc_refl _ _)) as (_ & (v & s' & E & H0 & _) & _).
  exists v, s'. split; [exact E|]. intros Hv. apply H0 in Hv. simpl in Hv.
  apply Permutation_nil_l in Hv. assert (0x80400000 ∈ all_pages 0x80115000) as Hin.
  { apply elem_of_all; [by vm_compute | by vm_compute | by vm_compute]. }
  rewrite <- Hv in Hin. by apply elem_of_nil in Hin.
Defined.
End Kalloc.
