(* ===== verification/Vm.v ===== *)
(** Page tables and user memory: src/xv6-public/vm.c.

    The functions run on the memory of Kalloc.v: a page directory and its page
    tables are pages of that memory, read and written word by word.  The
    addresses [end] and [data] the linker fixes, and the contents of the file
    [loaduvm] reads, are parameters.  The functions that load processor
    registers ([seginit], [switchkvm], the register part of [switchuvm]) have no
    effect on memory and are not here. *)

From S2P Require Import Prelude Kalloc.

Module Vm.
Import Kalloc.

Definition PTE_P : Z := 0x001.
Definition PTE_W : Z := 0x002.
Definition PTE_U : Z := 0x004.
Definition NPDENTRIES : nat := 1024.

Definition PDX (va : Z) : Z := Z.land (Z.shiftr va 22) 0x3FF.
Definition PTX (va : Z) : Z := Z.land (Z.shiftr va 12) 0x3FF.
Definition PGADDR (d t o : Z) : Z := u32 (Z.lor (Z.lor (Z.shiftl d 22) (Z.shiftl t 12)) o).
Definition PTE_ADDR (pte : Z) : Z := Z.land pte (u32 (Z.lnot 0xFFF)).
Definition PTE_FLAGS (pte : Z) : Z := Z.land pte 0xFFF.

(** [w & PTE_P] *)
Definition present (w : Z) : bool := bool_decide (Z.land w PTE_P <> 0).

(** Bytes of memory: [a] is in the word at [a & ~3]. *)
Definition word_of (a : Z) : Z := a - a mod 4.
Definition load8 (s : kmem) (a : Z) : Z := Z.shiftr (word s (word_of a)) (8 * (a mod 4)) mod 2 ^ 8.
Definition put8 (a c : Z) (s : kmem) : kmem :=
  let w := word s (word_of a) in
  let k := 8 * (a mod 4) in
  with_mem (<[word_of a := Z.lor (Z.ldiff w (Z.shiftl 0xFF k)) (Z.shiftl (c mod 2 ^ 8) k)]> (mem s)) s.
(** [memmove(a, l, length l)] from another object *)
Definition store_bytes (a : Z) (l : list Z) : M kmem unit :=
  modify (fun s => foldl (fun s ic => put8 (a + Z.of_nat ic.1) ic.2 s) s (imap pair l)).
(** [memmove(dst, src, PGSIZE)] between two pages *)
Definition copy_page (dst src : Z) : M kmem unit :=
  modify (fun s => with_mem (foldr (fun i => <[dst + 4 * Z.of_nat i := word s (src + 4 * Z.of_nat i)]>)
                                   (mem s) (seq 0 1024)) s).

Section ops.
Context (kend kdata : Z).

Definition kfree := Kalloc.kfree kend.

(** The address of the PTE, or 0. *)
Definition walkpgdir (pgdir va : Z) (alloc : bool) : M kmem Z :=
  let pde := pgdir + 4 * PDX va in
  let! w := load pde in
  if present w then ret (P2V (PTE_ADDR w) + 4 * PTX va) else
  if negb alloc then ret 0 else
  let! pgtab := kalloc in
  if decide (pgtab = 0) then ret 0 else
  memset_page pgtab 0 ;;;
  store pde (Z.lor (Z.lor (Z.lor (V2P pgtab) PTE_P) PTE_W) PTE_U) ;;;
  ret (pgtab + 4 * PTX va).

(** The loop of [mappages] from [a]; it ends at [last]. *)
Fixpoint mappages_loop (fuel : nat) (pgdir a last pa perm : Z) : M kmem Z :=
  match fuel with
  | O => stop_with Spins
  | S fuel' =>
      let! pte := walkpgdir pgdir a true in
      if decide (pte = 0) then ret (-1) else
      let! w := load pte in
      if present w then panic "remap" else
      store pte (Z.lor (Z.lor pa perm) PTE_P) ;;;
      if decide (a = last) then ret 0 else
      mappages_loop fuel' pgdir (u32 (a + PGSIZE)) last (u32 (pa + PGSIZE)) perm
  end.

(** The number of rounds to get from [a] to [last] page by page. *)
Definition rounds (a last : Z) : nat := S (Z.to_nat (u32 (last - a) / PGSIZE)).

Definition mappages (pgdir va size pa perm : Z) : M kmem Z :=
  let a := PGROUNDDOWN va in
  let last := PGROUNDDOWN (u32 (va + size - 1)) in
  mappages_loop (rounds a last) pgdir a last pa perm.

(** The loop of [deallocuvm] from [a]. *)
Fixpoint deallocuvm_loop (fuel : nat) (pgdir a oldsz : Z) : M kmem unit :=
  if decide (oldsz <= a) then ret tt else
  match fuel with
  | O => stop_with Spins
  | S fuel' =>
      let! pte := walkpgdir pgdir a false in
      if decide (pte = 0) then
        deallocuvm_loop fuel' pgdir (u32 (u32 (PGADDR (PDX a + 1) 0 0 - PGSIZE) + PGSIZE)) oldsz
      else
        let! w := load pte in
        (if present w then
           if decide (PTE_ADDR w = 0) then panic "kfree" else
           kfree (P2V (PTE_ADDR w)) ;;;
           store pte 0
         else ret tt) ;;;
        deallocuvm_loop fuel' pgdir (u32 (a + PGSIZE)) oldsz
  end.

Definition deallocuvm (pgdir oldsz newsz : Z) : M kmem Z :=
  if decide (oldsz <= newsz) then ret oldsz else
  deallocuvm_loop (rounds (PGROUNDUP newsz) oldsz) pgdir (PGROUNDUP newsz) oldsz ;;;
  ret newsz.

Definition freevm (pgdir : Z) : M kmem unit :=
  if decide (pgdir = 0) then panic "freevm: no pgdir" else
  let! _ := deallocuvm pgdir KERNBASE 0 in
  forM (seq 0 NPDENTRIES) (fun i =>
    let! w := load (pgdir + 4 * Z.of_nat i) in
    if present w then kfree (P2V (PTE_ADDR w)) else ret tt) ;;;
  kfree pgdir.

(** [struct kmap] and its table *)
Record kmap := MkKmap {
  virt : Z;
  phys_start : Z;
  phys_end : Z;
  perm : Z
}.
Definition kmaps : list kmap :=
  [ MkKmap KERNBASE 0 EXTMEM PTE_W;
    MkKmap KERNLINK (V2P KERNLINK) (V2P kdata) 0;
    MkKmap kdata (V2P kdata) PHYSTOP PTE_W;
    MkKmap DEVSPACE DEVSPACE 0 PTE_W ].

(** The loop of [setupkvm]: whether all mappings succeeded. *)
Fixpoint map_all (pgdir : Z) (l : list kmap) : M kmem bool :=
  match l with
  | [] => ret true
  | k :: l' =>
      let! r := mappages pgdir (virt k) (u32 (phys_end k - phys_start k)) (phys_start k) (perm k) in
      if decide (r < 0) then ret false else map_all pgdir l'
  end.

Definition setupkvm : M kmem Z :=
  let! pgdir := kalloc in
  if decide (pgdir = 0) then ret 0 else
  memset_page pgdir 0 ;;;
  if decide (DEVSPACE < P2V PHYSTOP) then panic "PHYSTOP too high" else
  let! ok := map_all pgdir kmaps in
  if (ok : bool) then ret pgdir else
  freevm pgdir ;;;
  ret 0.

(** The result of [kalloc] is used without a test. *)
Definition inituvm (pgdir : Z) (init : list Z) (sz : Z) : M kmem unit :=
  if decide (PGSIZE <= sz) then panic "inituvm: more than a page" else
  let! m := kalloc in
  if decide (m = 0) then stop_with Undefined else
  memset_page m 0 ;;;
  let! _ := mappages pgdir 0 PGSIZE (V2P m) (Z.lor PTE_W PTE_U) in
  store_bytes m (take (Z.to_nat sz) init).

(** The loop of [allocuvm] from [a]. *)
Fixpoint allocuvm_loop (fuel : nat) (pgdir a oldsz newsz : Z) : M kmem Z :=
  if decide (newsz <= a) then ret newsz else
  match fuel with
  | O => stop_with Spins
  | S fuel' =>
      let! m := kalloc in
      if decide (m = 0) then
        let! _ := deallocuvm pgdir newsz oldsz in
        ret 0
      else
        memset_page m 0 ;;;
        let! r := mappages pgdir a PGSIZE (V2P m) (Z.lor PTE_W PTE_U) in
        if decide (r < 0) then
          let! _ := deallocuvm pgdir newsz oldsz in
          kfree m ;;;
          ret 0
        else allocuvm_loop fuel' pgdir (u32 (a + PGSIZE)) oldsz newsz
  end.

Definition allocuvm (pgdir oldsz newsz : Z) : M kmem Z :=
  if decide (KERNBASE <= newsz) then ret 0 else
  if decide (newsz < oldsz) then ret oldsz else
  allocuvm_loop (rounds (PGROUNDUP oldsz) newsz) pgdir (PGROUNDUP oldsz) oldsz newsz.

Definition clearpteu (pgdir uva : Z) : M kmem unit :=
  let! pte := walkpgdir pgdir uva false in
  if decide (pte = 0) then panic "clearpteu" else
  let! w := load pte in
  store pte (Z.land w (u32 (Z.lnot PTE_U))).

(** The loop of [copyuvm] from [i]: whether it reached [sz]. *)
Fixpoint copyuvm_loop (fuel : nat) (pgdir d i sz : Z) : M kmem bool :=
  if decide (sz <= i) then ret true else
  match fuel with
  | O => stop_with Spins
  | S fuel' =>
      let! pte := walkpgdir pgdir i false in
      if decide (pte = 0) then panic "copyuvm: pte should exist" else
      let! w := load pte in
      if negb (present w) then copyuvm_loop fuel' pgdir d (u32 (i + PGSIZE)) sz else
      let! m := kalloc in
      if decide (m = 0) then ret false else
      copy_page m (P2V (PTE_ADDR w)) ;;;
      let! r := mappages d i PGSIZE (V2P m) (PTE_FLAGS w) in
      if decide (r < 0) then kfree m ;;; ret false
      else copyuvm_loop fuel' pgdir d (u32 (i + PGSIZE)) sz
  end.

Definition copyuvm (pgdir sz : Z) : M kmem Z :=
  let! d := setupkvm in
  if decide (d = 0) then ret 0 else
  let! ok := copyuvm_loop (rounds 0 sz) pgdir d 0 sz in
  if (ok : bool) then ret d else
  freevm d ;;;
  ret 0.

(** The kernel address of the page, or 0.  The code dereferences the result of
    [walkpgdir] without a test. *)
Definition uva2ka (pgdir uva : Z) : M kmem Z :=
  let! pte := walkpgdir pgdir uva false in
  if decide (pte = 0) then stop_with Undefined else
  let! w := load pte in
  if negb (present w) then ret 0 else
  if decide (Z.land w PTE_U = 0) then ret 0 else
  ret (P2V (PTE_ADDR w)).

(** The loop of [copyout]: each round stores at least one byte of [buf]. *)
Fixpoint copyout_loop (fuel : nat) (pgdir va : Z) (buf : list Z) : M kmem Z :=
  match buf, fuel with
  | [], _ => ret 0
  | _, O => stop_with Spins
  | _, S fuel' =>
      let va0 := PGROUNDDOWN va in
      let! pa0 := uva2ka pgdir va0 in
      if decide (pa0 = 0) then ret (-1) else
      let n := Z.to_nat (Z.min (PGSIZE - (va - va0)) (Z.of_nat (length buf))) in
      store_bytes (pa0 + (va - va0)) (take n buf) ;;;
      copyout_loop fuel' pgdir (u32 (va0 + PGSIZE)) (drop n buf)
  end.
Definition copyout (pgdir va : Z) (p : list Z) : M kmem Z := copyout_loop (length p) pgdir va p.

(** [readi(ip, .., off, n)]: its result and the bytes it stores. *)
Context (readi : Z -> Z -> Z * list Z).

(** The loop of [loaduvm] from [i]. *)
Fixpoint loaduvm_loop (fuel : nat) (pgdir addr offset sz i : Z) : M kmem Z :=
  if decide (sz <= i) then ret 0 else
  match fuel with
  | O => stop_with Spins
  | S fuel' =>
      let! pte := walkpgdir pgdir (u32 (addr + i)) false in
      if decide (pte = 0) then panic "loaduvm: address should exist" else
      let! w := load pte in
      let n := if decide (sz - i < PGSIZE) then sz - i else PGSIZE in
      let r := readi (u32 (offset + i)) n in
      store_bytes (P2V (PTE_ADDR w)) r.2 ;;;
      if decide (r.1 <> n) then ret (-1) else
      loaduvm_loop fuel' pgdir addr offset sz (u32 (i + PGSIZE))
  end.
Definition loaduvm (pgdir addr offset sz : Z) : M kmem Z :=
  if decide (addr mod PGSIZE <> 0) then panic "loaduvm: addr must be page aligned" else
  loaduvm_loop (rounds 0 sz) pgdir addr offset sz 0.
End ops.
End Vm.
