(* ===== verification/VmPt.v ===== *)
(** Page tables as maps: what [walkpgdir] and [mappages] of vm.c do to the
    translation of addresses.

    [pte s pd va] is the page-table entry the hardware finds for [va] in the
    directory [pd].  A directory is in order ([pd_ok]) when it and its tables are
    distinct allocated pages; then one entry can be changed without touching
    another. *)

From S2P Require Import Prelude Kalloc Vm.
Import Kalloc Vm.

#[local] Opaque words fill.

(** ** Bits of addresses and entries *)

Lemma present_testbit w : present w = Z.testbit w 0.
Proof.
  unfold present, PTE_P. change 1 with (Z.ones 1). rewrite Z.land_ones by lia. change (2 ^ 1) with 2.
  rewrite Z.bit0_odd, Zmod_odd. by destruct (Z.odd w).
Qed.

Lemma PDX_eq va : 0 <= va < 2 ^ 32 -> PDX va = va / 2 ^ 22.
Proof.
  intros Hv. unfold PDX. change 0x3FF with (Z.ones 10). rewrite Z.land_ones, Z.shiftr_div_pow2 by lia.
  apply Z.mod_small. split; [apply Z.div_pos; lia | apply Z.div_lt_upper_bound; lia].
Qed.

Lemma PTX_eq va : PTX va = va / 2 ^ 12 mod 1024.
Proof.
  unfold PTX. change 0x3FF with (Z.ones 10). by rewrite Z.land_ones, Z.shiftr_div_pow2 by lia.
Qed.

Lemma PDX_range va : 0 <= va < 2 ^ 32 -> 0 <= PDX va < 1024.
Proof. intros Hv. rewrite PDX_eq by done. split; [apply Z.div_pos; lia | apply Z.div_lt_upper_bound; lia]. Qed.

Lemma PTX_range va : 0 <= PTX va < 1024.
Proof. rewrite PTX_eq. by apply Z.mod_pos_bound. Qed.

(** The directory and table index together are the page number. *)
Lemma index_page va va' : 0 <= va < 2 ^ 32 -> 0 <= va' < 2 ^ 32 ->
  PDX va = PDX va' /\ PTX va = PTX va' <-> va / PGSIZE = va' / PGSIZE.
Proof.
  intros Hv Hv'. rewrite !PDX_eq, !PTX_eq by done. unfold PGSIZE. change (2 ^ 12) with 4096.
  assert (forall x, x / 2 ^ 22 = x / 4096 / 1024) as E by (intros x; by rewrite Z.div_div).
  rewrite !E. pose proof (Z.div_mod (va / 4096) 1024). pose proof (Z.div_mod (va' / 4096) 1024).
  split; [lia|]. by intros ->.
Qed.

Lemma lor_aligned pa f : pa mod PGSIZE = 0 -> 0 <= f < PGSIZE -> Z.lor pa f = pa + f.
Proof.
  unfold PGSIZE. intros Hp Hf. rewrite <- (Z.add_lor_land pa f).
  assert (Z.land pa f = 0); [|lia]. apply Z.bits_inj'. intros k Hk. rewrite Z.land_spec, Z.bits_0.
  destruct (decide (k < 12)).
  - assert (Z.testbit pa k = false) as ->; [|done]. change 4096 with (2 ^ 12) in Hp.
    rewrite <- (Z.mod_pow2_bits_low pa 12 k) by lia. by rewrite Hp, Z.bits_0.
  - assert (Z.testbit f k = false) as ->; [|apply andb_false_r].
    rewrite <- (Z.mod_small f (2 ^ 12)) by lia. apply Z.mod_pow2_bits_high. lia.
Qed.

Lemma PTE_ADDR_eq w : 0 <= w < 2 ^ 32 -> PTE_ADDR w = PGSIZE * (w / PGSIZE).
Proof. intros Hw. change (PTE_ADDR w) with (PGROUNDDOWN w). by apply rounddown_eq. Qed.

Lemma PTE_ADDR_add pa f : 0 <= pa < 2 ^ 32 -> pa mod PGSIZE = 0 -> 0 <= f < PGSIZE -> PTE_ADDR (pa + f) = pa.
Proof.
  intros Hpa Hm Hf. apply Z.mod_divide in Hm as [k ->]; [|done]. unfold PGSIZE in *.
  rewrite PTE_ADDR_eq by lia. unfold PGSIZE. rewrite Z.div_add_l, (Z.div_small f) by lia. lia.
Qed.

Lemma present_add pa f : pa mod PGSIZE = 0 -> present (pa + f) = Z.odd f.
Proof.
  intros Hm. rewrite present_testbit, Z.bit0_odd, Z.odd_add. apply Z.mod_divide in Hm as [k ->]; [|done].
  unfold PGSIZE. change 4096 with (2 * 2048). rewrite Z.mul_assoc, (Z.mul_comm k), <- Z.mul_assoc, Z.odd_mul. done.
Qed.

Section tables.
Context (kend : Z) (Hend : KERNBASE <= kend).
Notation page_ok := (page_ok kend).
Notation kinv := (kinv kend).

Lemma page_bounds v : page_ok v -> KERNBASE <= v < 0x8E000000.
Proof. intros [_ H]. change (P2V PHYSTOP) with 0x8E000000 in H. lia. Qed.

Lemma page_V2P v : page_ok v -> V2P v = v - KERNBASE /\ V2P v mod PGSIZE = 0 /\ 0 <= V2P v < PHYSTOP.
Proof.
  intros Hv. pose proof (page_bounds v Hv). destruct Hv as [Hm _]. unfold V2P, KERNBASE, PHYSTOP in *.
  rewrite u32_small by lia. split_and!; try lia. apply Z.mod_divide in Hm as [k ->]; [|done]. unfold PGSIZE.
  replace (k * 4096 - 0x80000000) with ((k - 524288) * 4096) by lia. by apply Z.mod_mul.
Qed.

Lemma page_P2V v : page_ok v -> P2V (V2P v) = v.
Proof.
  intros Hv. destruct (page_V2P v Hv) as [-> _]. pose proof (page_bounds v Hv). unfold P2V, KERNBASE in *.
  rewrite u32_small; lia.
Qed.

(** ** The translation *)

(** The page table of directory entry [i]. *)
Definition tbl (s : kmem) (pd i : Z) : option Z :=
  let w := word s (pd + 4 * i) in if present w then Some (P2V (PTE_ADDR w)) else None.
(** The address of the page-table entry of [va]. *)
Definition walk (s : kmem) (pd va : Z) : option Z :=
  t ← tbl s pd (PDX va); Some (t + 4 * PTX va).
(** The page-table entry of [va], if present. *)
Definition pte (s : kmem) (pd va : Z) : option Z :=
  a ← walk s pd va; let w := word s a in if present w then Some w else None.

Record pd_ok (s : kmem) (l : list Z) (pd : Z) : Prop := {
  p_pd : page_ok pd /\ pd ∉ l;
  p_tbl : forall i t, 0 <= i < 1024 -> tbl s pd i = Some t -> page_ok t /\ t ∉ l /\ t <> pd;
  p_inj : forall i j t, 0 <= i < 1024 -> 0 <= j < 1024 -> tbl s pd i = Some t -> tbl s pd j = Some t -> i = j
}.

(** [a] is a word of directory [pd] or of one of its tables. *)
Definition in_tables (s : kmem) (pd a : Z) : Prop :=
  a ∈ words pd \/ exists i t, 0 <= i < 1024 /\ tbl s pd i = Some t /\ a ∈ words t.

Lemma slot_words v i : 0 <= i < 1024 -> v + 4 * i ∈ words v.
Proof. intros Hi. apply elem_of_words. exists (Z.to_nat i). lia. Qed.

Lemma slot_eq v v' i j : page_ok v -> page_ok v' -> 0 <= i < 1024 -> 0 <= j < 1024 ->
  v + 4 * i = v' + 4 * j -> v = v' /\ i = j.
Proof.
  intros [Hv _] [Hv' _] Hi Hj E. assert (v = v') as ->; [|lia].
  destruct (decide (v = v')); [done|]. exfalso.
  eapply (words_disjoint v v' (v + 4 * i)); [done | done | done | by apply slot_words |].
  rewrite E. by apply slot_words.
Qed.

Lemma tbl_frame s s' pd i : word s' (pd + 4 * i) = word s (pd + 4 * i) -> tbl s' pd i = tbl s pd i.
Proof. unfold tbl. by intros ->. Qed.

(** A change outside the directory and its tables changes no translation. *)
Lemma pte_frame s s' pd va : 0 <= va < 2 ^ 32 ->
  (forall a, in_tables s pd a -> word s' a = word s a) -> pte s' pd va = pte s pd va.
Proof.
  intros Hva Hw. unfold pte, walk. pose proof (PDX_range va Hva).
  rewrite (tbl_frame s s') by (apply Hw; left; by apply slot_words).
  destruct (tbl s pd (PDX va)) as [t|] eqn:Et; simpl; [|done].
  rewrite Hw; [done|]. right. exists (PDX va), t. split; [done|]. split; [done|]. apply slot_words, PTX_range.
Qed.

Lemma pd_ok_frame s s' l l' pd : (forall a, a ∈ words pd -> word s' a = word s a) ->
  (forall v, v ∈ l' -> v ∈ l) -> pd_ok s l pd -> pd_ok s' l' pd.
Proof.
  intros Hw Hl [P1 P2 P3].
  assert (forall i, 0 <= i < 1024 -> tbl s' pd i = tbl s pd i) as Ht.
  { intros i Hi. apply tbl_frame, Hw. by apply slot_words. }
  split.
  - destruct P1 as [? ?]. split; [done|]. by intros ?%Hl.
  - intros i t Hi. rewrite Ht by done. intros E. destruct (P2 i t Hi E) as (? & ? & ?). naive_solver.
  - intros i j t Hi Hj. rewrite !Ht by done. by apply P3.
Qed.

Lemma walk_inj s l pd va va' a : pd_ok s l pd -> 0 <= va < 2 ^ 32 -> 0 <= va' < 2 ^ 32 ->
  walk s pd va = Some a -> walk s pd va' = Some a -> va / PGSIZE = va' / PGSIZE.
Proof.
  intros [P1 P2 P3] Hv Hv' E E'. pose proof (PDX_range va Hv). pose proof (PDX_range va' Hv').
  unfold walk in E, E'. destruct (tbl s pd (PDX va)) as [t|] eqn:Et; [|done].
  destruct (tbl s pd (PDX va')) as [t'|] eqn:Et'; [|done]. simpl in E, E'.
  injection E as <-. injection E' as E'.
  destruct (slot_eq t' t (PTX va') (PTX va)) as [-> ?]; try done; try apply PTX_range.
  - by destruct (P2 (PDX va') t').
  - by destruct (P2 (PDX va) t).
  - apply index_page; [done | done |]. split; [by eapply P3 | done].
Qed.

(** Where the entry of an address is. *)
Lemma walk_where s l pd va a : pd_ok s l pd -> 0 <= va < 2 ^ 32 -> walk s pd va = Some a ->
  exists t, tbl s pd (PDX va) = Some t /\ page_ok t /\ t ∉ l /\ t <> pd /\ a ∈ words t /\ a <> 0.
Proof.
  intros [P1 P2 P3] Hv E. unfold walk in E. destruct (tbl s pd (PDX va)) as [t|] eqn:Et; [|done].
  injection E as <-. pose proof (PDX_range va Hv) as HD. destruct (P2 _ _ HD Et) as (? & ? & ?).
  exists t. split_and!; try done; [apply slot_words, PTX_range|].
  pose proof (page_bounds t ltac:(done)). pose proof (PTX_range va). unfold KERNBASE in *. lia.
Qed.

(** ** One entry *)

(** Storing in the entry of [va] changes the translation of its page only. *)
Lemma pte_store s l pd va a w : pd_ok s l pd -> 0 <= va < 2 ^ 32 -> walk s pd va = Some a ->
  let s' := with_mem (<[a := w]> (mem s)) s in
  pd_ok s' l pd /\ (forall i, 0 <= i < 1024 -> tbl s' pd i = tbl s pd i) /\
  forall va', 0 <= va' < 2 ^ 32 -> pte s' pd va' =
    if decide (va' / PGSIZE = va / PGSIZE) then (if present w then Some w else None) else pte s pd va'.
Proof.
  intros Hpd Hv Hwalk s'. destruct (walk_where _ _ _ _ _ Hpd Hv Hwalk) as (t & Et & Ht & Htl & Htpd & Ha & _).
  assert (forall b, b ∈ words pd -> word s' b = word s b) as Hdir.
  { intros b Hb. unfold s'. rewrite word_store, decide_False; [done|]. intros ->.
    eapply (words_disjoint t pd); [apply Ht | apply Hpd | done | exact Ha | exact Hb]. }
  assert (forall i, 0 <= i < 1024 -> tbl s' pd i = tbl s pd i) as Htb.
  { intros i Hi. apply tbl_frame, Hdir. by apply slot_words. }
  split; [by eapply pd_ok_frame|]. split; [done|]. intros va' Hv'.
  pose proof (PDX_range va' Hv') as HD.
  assert (walk s' pd va' = walk s pd va') as Ew by (unfold walk; by rewrite Htb).
  unfold pte. rewrite Ew. case_decide as Hpg.
  - assert (walk s pd va' = walk s pd va) as ->.
    { unfold walk. apply index_page in Hpg as [-> ->]; done. }
    rewrite Hwalk. simpl. unfold s'. by rewrite word_store, decide_True.
  - destruct (walk s pd va') as [a'|] eqn:Ew'; [|done]. simpl. unfold s'.
    rewrite word_store, decide_False; [done|]. intros ->. apply Hpg. symmetry. by eapply walk_inj.
Qed.

(** ** Growing a directory *)

(** From [s] with free pages [l] to [s'] with free pages [l'], the directory [pd]
    has kept its tables and got new ones from the free pages, and nothing else
    than the directory and its tables has been written. *)
Record grown (s : kmem) (l : list Z) (s' : kmem) (l' : list Z) (pd : Z) : Prop := {
  g_inv : kinv s' l';
  g_pd : pd_ok s' l' pd;
  g_free : exists k, l = k ++ l';
  g_new : forall i t, 0 <= i < 1024 -> tbl s' pd i = Some t -> tbl s pd i = Some t \/ (t ∈ l /\ t ∉ l');
  g_keep : forall i t, 0 <= i < 1024 -> tbl s pd i = Some t -> tbl s' pd i = Some t;
  g_mem : forall a, ~ in_tables s' pd a -> word s' a = word s a;
  g_used : forall v, v ∈ l -> v ∈ l' \/ exists i, 0 <= i < 1024 /\ tbl s' pd i = Some v
}.

Lemma grown_refl s l pd : kinv s l -> pd_ok s l pd -> grown s l s l pd.
Proof. intros Hk Hp. split; try done; [by exists [] | by left | by left]. Qed.

Lemma grown_sub s l s' l' pd v : grown s l s' l' pd -> v ∈ l' -> v ∈ l.
Proof. intros [_ _ [k ->] _ _ _ _] Hv. apply elem_of_app. by right. Qed.

Lemma grown_trans s l s1 l1 s2 l2 pd :
  grown s l s1 l1 pd -> grown s1 l1 s2 l2 pd -> grown s l s2 l2 pd.
Proof.
  intros G1 G2. pose proof (fun v => grown_sub _ _ _ _ _ v G1) as S1.
  pose proof (fun v => grown_sub _ _ _ _ _ v G2) as S2.
  destruct G1 as [A1 A2 [k1 A3] A4 A5 A6 A7]. destruct G2 as [B1 B2 [k2 B3] B4 B5 B6 B7]. split; try done.
  - exists (k1 ++ k2). by rewrite A3, B3, app_assoc.
  - intros i t Hi Ht'. destruct (B4 i t Hi Ht') as [Ht|[Ht Hn]].
    + destruct (A4 i t Hi Ht) as [?|[? Hn]]; [by left | right]. split; [done|].
      intros Hin. by apply Hn, S2.
    + right. split; [by apply S1 | done].
  - auto.
  - intros a Ha. rewrite B6 by done. apply A6. intros [Hd|(i & t & Hi & Ht & Hw)]; apply Ha; [by left|].
    right. exists i, t. auto.
  - intros v [Hv|(i & Hi & Ht)]%A7; [by apply B7|]. right. exists i. auto.
Qed.

Lemma pte_entry v : page_ok v -> Z.lor (Z.lor (Z.lor (V2P v) PTE_P) PTE_W) PTE_U = V2P v + 7.
Proof.
  intros Hv. destruct (page_V2P v Hv) as (_ & Hm & _). rewrite <- !Z.lor_assoc. change (Z.lor PTE_P _) with 7.
  by apply lor_aligned.
Qed.

(** The directory after a new table [v] was entered for [va]. *)
Definition new_table (v pd va : Z) (s : kmem) : kmem :=
  let s1 := with_freelist (word s v) s in
  let s2 := with_mem (fill v 0 (mem s1)) s1 in
  with_mem (<[pd + 4 * PDX va := V2P v + 7]> (mem s2)) s2.

Lemma word_new_table v pd va s a : word (new_table v pd va s) a =
  if decide (a = pd + 4 * PDX va) then V2P v + 7 else if decide (a ∈ words v) then 0 else word s a.
Proof. unfold new_table. rewrite word_store. case_decide; [done|]. by rewrite word_fill. Qed.

Lemma tbl_new_table v pd va s i : page_ok v -> page_ok pd -> v <> pd -> 0 <= va < 2 ^ 32 -> 0 <= i < 1024 ->
  tbl (new_table v pd va s) pd i = if decide (i = PDX va) then Some v else tbl s pd i.
Proof.
  intros Hv Hpd Hne Hva Hi. unfold tbl. rewrite word_new_table. pose proof (PDX_range va Hva).
  destruct (page_V2P v Hv) as (_ & Hm & Hr). case_decide as E1.
  - rewrite decide_True by lia. rewrite present_add by done. change (Z.odd 7) with true.
    rewrite PTE_ADDR_add by (done || (unfold PHYSTOP, PGSIZE in *; lia)). by rewrite page_P2V.
  - rewrite (decide_False (P := i = PDX va)) by (intros ->; by apply E1). rewrite decide_False; [done|].
    eapply (words_disjoint pd v); [apply Hpd | apply Hv | done | by apply slot_words].
Qed.

Lemma new_table_grown v l pd va s : kinv s (v :: l) -> pd_ok s (v :: l) pd -> 0 <= va < 2 ^ 32 ->
  tbl s pd (PDX va) = None -> grown s (v :: l) (new_table v pd va s) l pd /\
  forall va', 0 <= va' < 2 ^ 32 -> pte (new_table v pd va s) pd va' = pte s pd va'.
Proof.
  intros Hk Hpd Hva Hno. pose proof (PDX_range va Hva) as HD. pose proof Hk as [K1 K2 K3 K4].
  pose proof Hpd as [[P1 P1'] P2 P3]. apply Forall_cons in K4 as [Hv K4]. apply NoDup_cons in K3 as [Hvl K3].
  assert (v <> pd) as Hne by (intros ->; apply P1'; by left).
  assert (forall i, 0 <= i < 1024 -> tbl (new_table v pd va s) pd i =
    if decide (i = PDX va) then Some v else tbl s pd i) as Ht by (intros i Hi; by apply (tbl_new_table v)).
  assert (forall i t, 0 <= i < 1024 -> tbl s pd i = Some t -> t <> v) as Hntv.
  { intros i t Hi Et ->. destruct (P2 i v Hi Et) as (_ & Hn & _). apply Hn. by left. }
  split.
  - split.
    + apply (kalloc_inv _ _ _ _) in Hk as [V1 V2 V3 V4]. split; [done | | done | done].
      eapply chain_frame; [|exact V2]. intros v' Hv'. rewrite word_new_table.
      rewrite Forall_forall in K4. pose proof (K4 v' Hv') as Hv'ok.
      rewrite decide_False.
      2: { intros E. eapply (words_disjoint v' pd v'); [apply Hv'ok | apply P1 | | apply words_self |].
           - intros ->. apply P1'. by right.
           - rewrite E. by apply slot_words. }
      rewrite decide_False; [done|]. eapply words_disjoint; [apply Hv'ok | apply Hv | by intros -> | apply words_self].
    + split; [split; [done | by intros ?; apply P1'; right] | |].
      * intros i t Hi. rewrite Ht by done. case_decide; [by intros [= <-]|]. intros Et.
        destruct (P2 i t Hi Et) as (? & Hn & ?). split_and!; try done. intros ?. apply Hn. by right.
      * intros i j t Hi Hj. rewrite !Ht by done. repeat case_decide; subst; try done.
        -- intros [= <-] Et. by destruct (Hntv j v Hj Et).
        -- intros Et [= <-]. by destruct (Hntv i v Hi Et).
        -- by apply P3.
    + by exists [v].
    + intros i t Hi. rewrite Ht by done. case_decide; [|by left]. intros [= <-]. right. split; [by left | done].
    + intros i t Hi Et. rewrite Ht by done. rewrite decide_False; [done|]. congruence.
    + intros a Ha. rewrite word_new_table. rewrite decide_False.
      2: { intros ->. apply Ha. left. by apply slot_words. }
      rewrite decide_False; [done|]. intros Hw. apply Ha. right. exists (PDX va), v.
      split; [done|]. split; [|done]. by rewrite Ht, decide_True.
    + intros v' [->|Hv']%elem_of_cons; [right | by left]. exists (PDX va). split; [done|].
      by rewrite Ht, decide_True.
  - intros va' Hva'. pose proof (PDX_range va' Hva') as HD'. unfold pte, walk. rewrite Ht by done.
    case_decide as E; [rewrite E, Hno; simpl|].
    + rewrite word_new_table, decide_False, decide_True by (apply slot_words, PTX_range ||
        (intros E'; apply Hne; by eapply (slot_eq v pd (PTX va') (PDX va)); try apply PTX_range)). done.
    + destruct (tbl s pd (PDX va')) as [t|] eqn:Et; [|done]. simpl.
      destruct (P2 _ _ HD' Et) as (Htok & _ & Htpd). rewrite word_new_table.
      rewrite decide_False by (intros E'; apply Htpd; by eapply (slot_eq t pd (PTX va') (PDX va)); try apply PTX_range).
      rewrite decide_False; [done|]. eapply words_disjoint; [apply Htok | apply Hv | | apply slot_words, PTX_range].
      by eapply Hntv.
Qed.

(** ** [walkpgdir] *)

Lemma walkpgdir_look s pd va : walkpgdir pd va false s = Ret (default 0 (walk s pd va)) s.
Proof.
  unfold walkpgdir, walk, tbl, load. mrun. by destruct (present (word s (pd + 4 * PDX va))).
Qed.

Lemma runs_walk_alloc s l pd va (Q : Z -> kmem -> Prop) : kinv s l -> pd_ok s l pd -> 0 <= va < 2 ^ 32 ->
  (forall p s' l', walk s' pd va = Some p -> p <> 0 -> grown s l s' l' pd ->
     (forall va', 0 <= va' < 2 ^ 32 -> pte s' pd va' = pte s pd va') -> Q p s') ->
  (l = [] -> Q 0 s) -> runs (walkpgdir pd va true) Q s.
Proof.
  intros Hk Hpd Hva HQ HQ0. destruct (walk s pd va) as [p|] eqn:Ew.
  - exists p, s. split.
    + unfold walk, tbl in Ew. unfold walkpgdir, load. mrun.
      destruct (present (word s (pd + 4 * PDX va))); [|done]. by injection Ew as <-.
    + apply (HQ p s l); [done | | by apply grown_refl | done].
      by destruct (walk_where _ _ _ _ _ Hpd Hva Ew) as (t & _ & _ & _ & _ & _ & ?).
  - assert (present (word s (pd + 4 * PDX va)) = false) as Ep.
    { unfold walk, tbl in Ew. by destruct (present _). }
    assert (tbl s pd (PDX va) = None) as Et by (unfold tbl; by rewrite Ep).
    destruct l as [|v l].
    + exists 0, s. split; [|by apply HQ0]. unfold walkpgdir, load. unfold bind at 1, gets. rewrite Ep. simpl.
      by rewrite (bind_ret _ _ _ _ _ (kalloc_run _ Hend _ _ Hk)).
    + destruct (new_table_grown _ _ _ _ _ Hk Hpd Hva Et) as [Hg Hpte]. pose proof Hk as [_ _ _ Hok].
      apply Forall_cons in Hok as [Hv _]. pose proof (page_nonzero _ Hend _ Hv) as Hnz.
      exists (v + 4 * PTX va), (new_table v pd va s). split.
      * unfold walkpgdir, load. unfold bind at 1, gets. rewrite Ep. simpl.
        rewrite (bind_ret _ _ _ _ _ (kalloc_run _ Hend _ _ Hk)), decide_False by done.
        unfold memset_page, store. mrun. by rewrite pte_entry.
      * apply (HQ _ _ l); [|pose proof (page_bounds v Hv); pose proof (PTX_range va); unfold KERNBASE in *; lia | done | done].
        unfold walk. pose proof (PDX_range va Hva). destruct Hpd as [[? Hn] _ _].
        rewrite (tbl_new_table v) by (done || by intros ->; apply Hn; left). by rewrite decide_True.
Qed.

(** ** [mappages] *)

(** The [m] pages from page [i] are mapped to the pages from [pa]; the rest is as
    in [s]. *)
Definition mapped (s s' : kmem) (pd i m pa perm : Z) : Prop :=
  forall va, 0 <= va < 2 ^ 32 -> pte s' pd va =
    if decide (i <= va / PGSIZE < i + m) then Some (pa + PGSIZE * (va / PGSIZE - i) + Z.lor perm PTE_P)
    else pte s pd va.

Lemma mapped_nil s pd i pa perm : mapped s s pd i 0 pa perm.
Proof. intros va Hva. by rewrite decide_False by lia. Qed.

Lemma perm_range perm : 0 <= perm < PGSIZE -> 0 <= Z.lor perm PTE_P < PGSIZE /\ Z.odd (Z.lor perm PTE_P) = true.
Proof.
  unfold PGSIZE, PTE_P. intros Hp. split.
  - split; [apply Z.lor_nonneg; lia|]. destruct (decide (Z.lor perm 1 = 0)) as [->|Hne]; [lia|].
    apply Z.log2_lt_pow2 with (b := 12); [pose proof (Z.lor_nonneg perm 1); lia|].
    rewrite Z.log2_lor by lia. apply Z.max_lub_lt; [|done].
    destruct (decide (perm = 0)) as [->|]; [done|]. apply Z.log2_lt_pow2; lia.
  - by rewrite <- Z.bit0_odd, Z.lor_spec, orb_true_r.
Qed.

Lemma page_of_round i : 0 <= i < 2 ^ 20 -> 0 <= PGSIZE * i < 2 ^ 32 /\ PGSIZE * i / PGSIZE = i.
Proof.
  unfold PGSIZE. intros Hi. split; [lia|]. by rewrite Z.mul_comm, Z.div_mul.
Qed.

(** Mapping one page, and then [m] more. *)
Lemma mapped_cons s s1 s2 pd i m pa perm a : 0 <= m ->
  0 <= i < 2 ^ 20 -> 0 <= pa -> pa mod PGSIZE = 0 -> 0 <= perm < PGSIZE ->
  (forall va, 0 <= va < 2 ^ 32 -> pte s1 pd va = if decide (va / PGSIZE = PGSIZE * i / PGSIZE)
     then (if present a then Some a else None) else pte s pd va) ->
  a = pa + Z.lor perm PTE_P ->
  mapped s1 s2 pd (i + 1) m (pa + PGSIZE) perm -> mapped s s2 pd i (m + 1) pa perm.
Proof.
  intros Hm Hi Hpa Hpm Hperm H1 -> H2 va Hva. destruct (page_of_round i Hi) as [_ Ei].
  destruct (perm_range perm Hperm) as [_ Hodd].
  rewrite H2 by done. rewrite H1 by done. rewrite Ei. rewrite present_add, Hodd by done.
  destruct (decide (i + 1 <= va / PGSIZE < i + 1 + m)).
  - rewrite decide_True by lia. f_equal. lia.
  - case_decide as E; [rewrite decide_True by lia; f_equal; rewrite E; lia|].
    by rewrite decide_False by lia.
Qed.

Lemma runs_mappages_loop fuel s l pd i j pa perm (Q : Z -> kmem -> Prop) :
  kinv s l -> pd_ok s l pd -> 0 <= i <= j -> j < 2 ^ 20 -> (Z.to_nat (j - i) < fuel)%nat ->
  0 <= pa -> pa + PGSIZE * (j - i + 1) <= 2 ^ 32 -> pa mod PGSIZE = 0 -> 0 <= perm < PGSIZE ->
  (forall va, 0 <= va < 2 ^ 32 -> i <= va / PGSIZE <= j -> pte s pd va = None) ->
  (forall s' l', grown s l s' l' pd -> mapped s s' pd i (j - i + 1) pa perm -> Q 0 s') ->
  (forall s' m, grown s l s' [] pd -> 0 <= m <= j - i -> mapped s s' pd i m pa perm -> Q (-1) s') ->
  runs (mappages_loop fuel pd (PGSIZE * i) (PGSIZE * j) pa perm) Q s.
Proof.
  revert s l i pa Q. induction fuel as [|fuel IH];
    intros s l i pa Q Hk Hpd Hij Hj Hfuel Hpa Hpe Hpm Hperm Hnone HQ HQ'; [lia|].
  destruct (page_of_round i) as [Hi Ei]; [lia|]. destruct (perm_range perm Hperm) as [Hpr Hodd].
  cbn [mappages_loop]. apply runs_bind. eapply runs_walk_alloc; [done | done | done | |].
  2: { intros ->. rewrite decide_True by done. apply runs_ret, (HQ' s 0); [by apply grown_refl | lia | apply mapped_nil]. }
  intros p s1 l1 Hw Hp0 G1 Hpte1. rewrite decide_False by done.
  apply runs_bind. unfold load. apply runs_gets.
  assert (present (word s1 p) = false) as ->.
  { specialize (Hpte1 _ Hi). rewrite Hnone in Hpte1 by lia. unfold pte in Hpte1. rewrite Hw in Hpte1.
    simpl in Hpte1. by destruct (present (word s1 p)). }
  apply runs_bind. unfold store. apply runs_modify. rewrite <- Z.lor_assoc, lor_aligned by done.
  set (w := pa + Z.lor perm PTE_P). destruct (pte_store _ _ _ _ _ w (g_pd _ _ _ _ _ G1) Hi Hw) as (Hpd2 & Htb & Hpte2).
  set (s2 := with_mem (<[p := w]> (mem s1)) s1) in *.
  destruct (walk_where _ _ _ _ _ (g_pd _ _ _ _ _ G1) Hi Hw) as (t & Et & Ht & Htl & Htpd & Hpt & _).
  assert (grown s1 l1 s2 l1 pd) as G2.
  { split; [| done | by exists [] | | | | by left].
    - destruct (g_inv _ _ _ _ _ G1) as [V1 V2 V3 V4]. split; [done | | done | done].
      eapply chain_frame; [|exact V2]. intros v Hv. unfold s2. rewrite word_store, decide_False; [done|].
      rewrite Forall_forall in V4. intros <-. eapply (words_disjoint v t v); [by apply V4 | apply Ht | | apply words_self | done].
      by intros ->.
    - intros i' t' Hi'. rewrite Htb by done. by left.
    - intros i' t' Hi'. by rewrite Htb.
    - intros a Ha. unfold s2. rewrite word_store, decide_False; [done|]. intros ->. apply Ha. right.
      exists (PDX (PGSIZE * i)), t. split; [by apply PDX_range|]. split; [|done]. rewrite Htb; [done | by apply PDX_range]. }
  assert (forall va, 0 <= va < 2 ^ 32 -> pte s2 pd va = if decide (va / PGSIZE = PGSIZE * i / PGSIZE)
     then (if present w then Some w else None) else pte s pd va) as Hone.
  { intros va Hva. rewrite Hpte2 by done. case_decide; [done|]. by apply Hpte1. }
  destruct (decide (i = j)) as [->|Hne].
  - rewrite decide_True by done. apply runs_ret, (HQ s2 l1); [by eapply grown_trans|].
    replace (j - j + 1) with (0 + 1) by lia. eapply (mapped_cons _ s2); try done; [lia | apply mapped_nil].
  - rewrite decide_False by (unfold PGSIZE; lia).
    replace (u32 (PGSIZE * i + PGSIZE)) with (PGSIZE * (i + 1)) by (unfold PGSIZE in *; rewrite u32_small; lia).
    replace (u32 (pa + PGSIZE)) with (pa + PGSIZE) by (unfold PGSIZE in *; rewrite u32_small; lia).
    eapply (IH s2 l1 (i + 1)); try done; try lia; try (unfold PGSIZE in *; lia).
    + apply G2.
    + replace (pa + PGSIZE) with (pa + 1 * PGSIZE) by lia. by rewrite Z.mod_add.
    + intros va Hva Hr. rewrite Hone, decide_False by (done || lia). apply Hnone; [done | lia].
    + intros s3 l3 G3 M3. apply (HQ s3 l3); [by eapply grown_trans; [|eapply grown_trans]|].
      replace (j - i + 1) with (j - (i + 1) + 1 + 1) by lia. eapply (mapped_cons _ s2); try done; lia.
    + intros s3 m G3 Hm M3. apply (HQ' s3 (m + 1)); [by eapply grown_trans; [|eapply grown_trans] | lia|].
      eapply (mapped_cons _ s2); try done; lia.
Qed.

(** The pages of a byte range. *)
Definition first_page (va : Z) : Z := va / PGSIZE.
Definition last_page (va size : Z) : Z := (va + size - 1) / PGSIZE.

Lemma runs_mappages s l pd va size pa perm (Q : Z -> kmem -> Prop) :
  let i := first_page va in let j := last_page va size in
  kinv s l -> pd_ok s l pd -> 0 <= va -> 0 < size -> va + size <= 2 ^ 32 ->
  0 <= pa -> pa + PGSIZE * (j - i + 1) <= 2 ^ 32 -> pa mod PGSIZE = 0 -> 0 <= perm < PGSIZE ->
  (forall va', 0 <= va' < 2 ^ 32 -> i <= va' / PGSIZE <= j -> pte s pd va' = None) ->
  (forall s' l', grown s l s' l' pd -> mapped s s' pd i (j - i + 1) pa perm -> Q 0 s') ->
  (forall s' m, grown s l s' [] pd -> 0 <= m <= j - i -> mapped s s' pd i m pa perm -> Q (-1) s') ->
  runs (mappages pd va size pa perm) Q s.
Proof.
  intros i j Hk Hpd Hva Hsz Hve Hpa Hpe Hpm Hperm Hnone HQ HQ'.
  assert (0 <= i <= j) as Hij.
  { unfold i, j, first_page, last_page, PGSIZE. split; [apply Z.div_pos; lia | apply Z.div_le_mono; lia]. }
  assert (j < 2 ^ 20) as Hj by (unfold j, last_page, PGSIZE; apply Z.div_lt_upper_bound; lia).
  unfold mappages. rewrite rounddown_eq, rounddown_eq by (rewrite ?u32_small; lia).
  rewrite u32_small by lia. change (va / PGSIZE) with i. change ((va + size - 1) / PGSIZE) with j.
  eapply runs_mappages_loop; try done. unfold rounds.
  rewrite u32_small by (unfold PGSIZE; lia). replace (PGSIZE * j - PGSIZE * i) with ((j - i) * PGSIZE) by lia.
  rewrite Z.div_mul by done. lia.
Qed.
End tables.

Module VmPt.

(** C23: [mappages] on a directory in order, for a range of pages that is not mapped
    yet, returns: either 0, and the pages of the range translate to the pages from
    [pa] with the permissions given, or -1, which happens only with no free page
    left, and then the first pages of the range are mapped so.  No other address
    changes its translation, the directory stays in order, its new tables come
    from the free pages, and no word outside the directory and its tables is
    written. *)
Theorem mappages_spec kend s l pd va size pa perm : KERNBASE <= kend ->
  Kalloc.kinv kend s l -> pd_ok kend s l pd -> 0 <= va -> 0 < size -> va + size <= 2 ^ 32 ->
  let i := first_page va in let n := last_page va size - first_page va + 1 in
  0 <= pa -> pa + PGSIZE * n <= 2 ^ 32 -> pa mod PGSIZE = 0 -> 0 <= perm < PGSIZE ->
  (forall va', 0 <= va' < 2 ^ 32 -> i <= va' / PGSIZE < i + n -> pte s pd va' = None) ->
  runs (mappages pd va size pa perm) (fun r s' =>
    exists l' m, grown kend s l s' l' pd /\ mapped s s' pd i m pa perm /\
      (r = 0 /\ m = n \/ r = -1 /\ 0 <= m < n /\ l' = [])) s.
Proof.
  intros Hend Hk Hpd Hva Hsz Hve i n Hpa Hpe Hpm Hperm Hnone.
  apply (runs_mappages kend Hend s l); try done.
  - intros va' Hv Hr. apply Hnone; [done | unfold i, n; lia].
  - intros s' l' G M. exists l', n. split; [done|]. split; [done|]. by left.
  - intros s' m G Hm M. exists [], m. split; [done|]. split; [done|]. right. split; [done|]. split; [unfold n; lia | done].
Qed.

(** Memory full of zeros with one free page. *)
Definition one_page : kmem := MkKmem false true 0x80400000 ∅.

Lemma one_page_ok : Kalloc.kinv 0x80115000 one_page [0x80400000] /\
  pd_ok 0x80115000 one_page [0x80400000] 0x80401000.
Proof.
  split.
  - split; [done | done | apply NoDup_singleton | apply Forall_singleton; by vm_compute].
  - split; [split; [by vm_compute|]; by rewrite list_elem_of_singleton | |]; intros i j; done.
Qed.

Lemma mappages_spec_witness : exists s', mappages 0x80401000 0x5000 100 0x3000 2 one_page = Ret 0 s' /\
  pte s' 0x80401000 0x5010 = Some 0x3003.
Proof.
  destruct one_page_ok as [Hk Hpd].
  destruct (mappages_spec 0x80115000 one_page _ _ 0x5000 100 0x3000 2 ltac:(by vm_compute) Hk Hpd)
    as (r & s' & E & l' & m & _ & Hmap & Hr);
    [lia | lia | lia | lia | by vm_compute | reflexivity | by vm_compute | reflexivity |].
  assert (r = 0) as ->.
  { assert (match mappages 0x80401000 0x5000 100 0x3000 2 one_page with Ret r _ => r | Stop _ _ => 1 end = 0) as E0
      by (vm_compute; reflexivity). by rewrite E in E0. }
  exists s'. split; [exact E|]. destruct Hr as [[_ ->]|[Hr _]]; [|done].
  rewrite (Hmap 0x5010); [reflexivity | lia].
Defined.
End VmPt.
