(* ===== verification/VmUser.v ===== *)
(** User memory: [allocuvm] and [deallocuvm] of vm.c.

    The user part of an address space maps each page below [KERNBASE] to at most
    one frame, and the frames, the page tables, the directory and the free pages
    are all distinct ([uvm_ok]).  Growing maps fresh zeroed frames; shrinking
    gives the frames back. *)

From S2P Require Import Prelude Kalloc Vm VmPt.
Import Kalloc Vm.

#[local] Opaque words fill.

(** User pages are those below [KERNBASE]. *)
Definition NUSER : Z := KERNBASE / PGSIZE.

Lemma NUSER_eq : NUSER = 524288.
Proof. done. Qed.

(** The entry of user page [i], and its frame. *)
Definition upte (s : kmem) (pd i : Z) : option Z := pte s pd (PGSIZE * i).
Definition frame (w : Z) : Z := P2V (PTE_ADDR w).

(** The frames of the [m] pages from page [i]. *)
Definition frames (s : kmem) (pd i m : Z) : list Z := omap (fun k => frame <$> upte s pd k) (seqZ i m).

Lemma frames_cons s pd i m : 0 < m ->
  frames s pd i m = option_list (frame <$> upte s pd i) ++ frames s pd (i + 1) (m - 1).
Proof.
  intros Hm. unfold frames. rewrite seqZ_cons by lia. rewrite Z.add_1_r, Z.sub_1_r. simpl.
  by destruct (upte s pd i).
Qed.

Lemma frames_nil s pd i m : m <= 0 -> frames s pd i m = [].
Proof. intros Hm. unfold frames. by rewrite seqZ_nil. Qed.

Lemma frames_ext s s' pd i m : (forall k, i <= k < i + m -> upte s' pd k = upte s pd k) ->
  frames s' pd i m = frames s pd i m.
Proof.
  intros He. unfold frames. apply list_omap_ext, Forall_Forall2_diag, Forall_seqZ.
  intros k Hk. by rewrite He.
Qed.

Lemma elem_of_frames s pd i m f : f ∈ frames s pd i m <->
  exists k w, i <= k < i + m /\ upte s pd k = Some w /\ f = frame w.
Proof.
  unfold frames. rewrite list_elem_of_omap. split.
  - intros (k & Hk & E). apply elem_of_seqZ in Hk. apply fmap_Some in E as (w & Ew & ->). eauto.
  - intros (k & w & Hk & Ew & ->). exists k. split; [by apply elem_of_seqZ|]. by rewrite Ew.
Qed.

(** Pages without an entry have no frames. *)
Lemma frames_none s pd i m m' : 0 <= m -> m <= m' -> (forall k, i <= k < i + m -> upte s pd k = None) ->
  frames s pd i m' = frames s pd (i + m) (m' - m).
Proof.
  intros Hm Hm' Hn. unfold frames. replace (seqZ i m') with (seqZ i m ++ seqZ (i + m) (m' - m))
    by (rewrite <- seqZ_app by lia; f_equal; lia).
  rewrite omap_app. replace (omap _ (seqZ i m)) with (@nil Z); [done|]. symmetry.
  apply elem_of_nil_inv. intros f (k & Hk & E)%list_elem_of_omap. apply elem_of_seqZ in Hk.
  by rewrite Hn in E.
Qed.

Section user.
Context (kend : Z) (Hlink : KERNLINK <= kend).

Lemma Hend : KERNBASE <= kend.
Proof. unfold KERNLINK, KERNBASE, EXTMEM in *. lia. Qed.

Notation page_ok := (page_ok kend).
Notation kinv := (kinv kend).
Notation pd_ok := (pd_ok kend).
Notation grown := (grown kend).

(** [f] is neither free nor part of the page tables. *)
Definition data_page (s : kmem) (l : list Z) (pd f : Z) : Prop :=
  page_ok f /\ f ∉ l /\ f <> pd /\ forall k, 0 <= k < 1024 -> tbl s pd k <> Some f.

Record uvm_ok (s : kmem) (l : list Z) (pd : Z) : Prop := {
  u_inv : kinv s l;
  u_pd : pd_ok s l pd;
  u_frame : forall i w, 0 <= i < NUSER -> upte s pd i = Some w -> data_page s l pd (frame w);
  u_inj : forall i j w w', 0 <= i < NUSER -> 0 <= j < NUSER -> upte s pd i = Some w ->
    upte s pd j = Some w' -> frame w = frame w' -> i = j
}.

Lemma user_va i : 0 <= i < NUSER -> 0 <= PGSIZE * i < 2 ^ 32 /\ PGSIZE * i / PGSIZE = i.
Proof. intros Hi. apply page_of_round. rewrite NUSER_eq in Hi. lia. Qed.

(** A data page's words are not those of the tables. *)
Lemma data_not_tables s l pd f a : pd_ok s l pd -> data_page s l pd f -> a ∈ words f -> ~ in_tables s pd a.
Proof.
  intros Hpd (Hf & _ & Hne & Ht) Ha [Hin|(k & t & Hk & Et & Hin)].
  - eapply (words_disjoint f pd); [apply Hf | apply Hpd | done | done | done].
  - destruct (p_tbl _ _ _ _ Hpd k t Hk Et) as (Htok & _).
    eapply (words_disjoint f t a); [apply Hf | apply Htok | | done | done]. intros ->. by eapply Ht.
Qed.

(** ** Freeing one page *)

(** The state after the frame of entry [a] was freed and the entry cleared. *)
Definition unmapped (a f : Z) (s : kmem) : kmem :=
  let s1 := freed f s in with_mem (<[a := 0]> (mem s1)) s1.

Lemma kinv_store s l a w t : kinv s l -> page_ok t -> t ∉ l -> a ∈ words t ->
  kinv (with_mem (<[a := w]> (mem s)) s) l.
Proof.
  intros [V1 V2 V3 V4] Ht Htl Ha. split; [done | | done | done]. eapply chain_frame; [|exact V2].
  intros v Hv. rewrite word_store, decide_False; [done|]. intros <-. rewrite Forall_forall in V4.
  eapply (words_disjoint v t v); [by apply V4 | apply Ht | by intros -> | apply words_self | done].
Qed.

Lemma unmap_step s l pd i w a : uvm_ok s l pd -> 0 <= i < NUSER -> upte s pd i = Some w ->
  walk s pd (PGSIZE * i) = Some a ->
  let s' := unmapped a (frame w) s in
  uvm_ok s' (frame w :: l) pd /\ (forall k, 0 <= k < 1024 -> tbl s' pd k = tbl s pd k) /\
  (forall va, 0 <= va < 2 ^ 32 -> pte s' pd va = if decide (va / PGSIZE = i) then None else pte s pd va) /\
  (forall b, ~ in_tables s pd b -> b ∉ words (frame w) -> word s' b = word s b).
Proof.
  intros [U1 U2 U3 U4] Hi Hw Ha s'. destruct (user_va i Hi) as [Hva Ei].
  pose proof (U3 i w Hi Hw) as Hdata. pose proof Hdata as (Hf & Hfl & Hfpd & Hft).
  set (s1 := freed (frame w) s).
  assert (kinv s1 (frame w :: l)) as K1 by (by apply kfree_inv).
  assert (forall b, in_tables s pd b -> word s1 b = word s b) as Hs1.
  { intros b Hb. unfold s1. rewrite word_freed.
    assert (b ∉ words (frame w)) as Hn by (intros Hin; by eapply data_not_tables).
    rewrite decide_False by (intros ->; apply Hn, words_self). by rewrite decide_False. }
  assert (forall k, 0 <= k < 1024 -> tbl s1 pd k = tbl s pd k) as Ht1.
  { intros k Hk. apply tbl_frame, Hs1. left. by apply slot_words. }
  assert (pd_ok s1 (frame w :: l) pd) as Hpd1.
  { destruct U2 as [[P1 P1'] P2 P3]. split.
    - split; [done|]. intros [E|?]%elem_of_cons; [by apply Hfpd | done].
    - intros k t Hk. rewrite Ht1 by done. intros Et. destruct (P2 k t Hk Et) as (? & ? & ?).
      split_and!; try done. intros [->|?]%elem_of_cons; [by eapply Hft | done].
    - intros k k' t Hk Hk'. rewrite !Ht1 by done. by apply P3. }
  assert (walk s1 pd (PGSIZE * i) = Some a) as Ha1.
  { rewrite <- Ha. unfold walk. rewrite Ht1; [done|]. by apply PDX_range. }
  destruct (walk_where _ Hend _ _ _ _ _ Hpd1 Hva Ha1) as (t & Et & Htok & Htl & Htpd & Hat & _).
  destruct (pte_store _ Hend _ _ _ _ _ 0 Hpd1 Hva Ha1) as (Hpd2 & Ht2 & Hpte2).
  assert (forall va, 0 <= va < 2 ^ 32 -> pte s' pd va = if decide (va / PGSIZE = i) then None else pte s pd va) as Hpte.
  { intros va Hv. unfold s', unmapped. fold s1. rewrite Hpte2, Ei by done. case_decide; [done|].
    by apply pte_frame. }
  assert (forall k, 0 <= k < 1024 -> tbl s' pd k = tbl s pd k) as Ht.
  { intros k Hk. unfold s', unmapped. fold s1. by rewrite Ht2, Ht1. }
  split; [|split; [done|split; [done|]]].
  - split; [by eapply kinv_store | done | |].
    + intros k w' Hk. destruct (user_va k Hk) as [Hvk Ek]. unfold upte. rewrite Hpte, Ek by done.
      case_decide as Hne; [done|]. intros Hw'. destruct (U3 k w' Hk Hw') as (? & ? & ? & Hn).
      split_and!; try done.
      * intros [E|?]%elem_of_cons; [|done]. apply Hne. by eapply U4.
      * intros k' Hk'. rewrite Ht by done. by apply Hn.
    + intros k k' w1 w2 Hk Hk'. destruct (user_va k Hk) as [Hvk Ek]. destruct (user_va k' Hk') as [Hvk' Ek'].
      unfold upte. rewrite !Hpte, Ek, Ek' by done. do 2 (case_decide; [done|]). by apply U4.
  - intros b Hb Hbf. unfold s', unmapped. fold s1. rewrite word_store, decide_False.
    + unfold s1. rewrite word_freed, decide_False by (intros ->; apply Hbf, words_self). by rewrite decide_False.
    + intros ->. apply Hb. right. exists (PDX (PGSIZE * i)), t. split; [by apply PDX_range|]. split; [|done].
      rewrite <- Ht1; [done | by apply PDX_range].
Qed.

(** ** [deallocuvm] *)

(** From [s] with free pages [l] to [s'] with free pages [l'], the pages from [i] up
    to [j] have lost their frames, which are free now. *)
Record released (s : kmem) (l : list Z) (s' : kmem) (l' : list Z) (pd i j : Z) : Prop := {
  rl_ok : uvm_ok s' l' pd;
  rl_free : l' ≡ₚ frames s pd i (j - i) ++ l;
  rl_tbl : forall k, 0 <= k < 1024 -> tbl s' pd k = tbl s pd k;
  rl_pte : forall va, 0 <= va < 2 ^ 32 -> pte s' pd va =
    if decide (i <= va / PGSIZE < j) then None else pte s pd va;
  rl_mem : forall b, ~ in_tables s pd b -> (forall f, f ∈ frames s pd i (j - i) -> b ∉ words f) ->
    word s' b = word s b
}.

Lemma released_nil s l pd i j : uvm_ok s l pd -> j <= i -> released s l s l pd i j.
Proof.
  intros Hu Hij. split; try done.
  - by rewrite frames_nil by lia.
  - intros va Hva. by rewrite decide_False by lia.
Qed.

(** Pages without an entry, then the rest. *)
Lemma released_skip s l s' l' pd i k j : i <= k -> 0 <= i -> j <= NUSER ->
  (forall p, i <= p < k -> p < j -> upte s pd p = None) ->
  released s l s' l' pd k j -> released s l s' l' pd i j.
Proof.
  intros Hik Hi Hj Hn [R1 R2 R3 R4 R5].
  assert (frames s pd i (j - i) = frames s pd k (j - k)) as Ef.
  { destruct (decide (k <= j)).
    - rewrite (frames_none s pd i (k - i)) by (lia || (intros p Hp; apply Hn; lia)). f_equal; lia.
    - destruct (decide (i <= j)); [|by rewrite !frames_nil by lia].
      rewrite (frames_none s pd i (j - i) (j - i)) by (lia || (intros p Hp; apply Hn; lia)).
      by rewrite !frames_nil by lia. }
  split; try done.
  - by rewrite Ef.
  - intros va Hva. rewrite R4 by done. destruct (decide (k <= va / PGSIZE < j)).
    + by rewrite decide_True by lia.
    + case_decide; [|done]. rewrite <- (Hn (va / PGSIZE)) by lia. unfold upte, pte, walk.
      destruct (user_va (va / PGSIZE)) as [Hv Ev]; [lia|].
      destruct (proj2 (index_page va (PGSIZE * (va / PGSIZE)) Hva Hv)) as [-> ->]; done.
  - rewrite Ef. apply R5.
Qed.

(** One page freed, then the rest. *)
Lemma released_cons s l s' l' pd i j w a : uvm_ok s l pd -> 0 <= i < j -> j <= NUSER -> upte s pd i = Some w ->
  walk s pd (PGSIZE * i) = Some a ->
  released (unmapped a (frame w) s) (frame w :: l) s' l' pd (i + 1) j -> released s l s' l' pd i j.
Proof.
  intros Hu Hij Hj Hw Ha [R1 R2 R3 R4 R5].
  assert (0 <= i < NUSER) as Hi by lia.
  destruct (unmap_step _ _ _ _ _ _ Hu Hi Hw Ha) as (Hu1 & Ht1 & Hp1 & Hm1).
  set (s1 := unmapped a (frame w) s) in *.
  assert (frames s1 pd (i + 1) (j - (i + 1)) = frames s pd (i + 1) (j - i - 1)) as Ef.
  { replace (j - (i + 1)) with (j - i - 1) by lia. apply frames_ext. intros k Hk.
    destruct (user_va k) as [Hvk Ek]; [lia|]. unfold upte. by rewrite Hp1, Ek, decide_False by (done || lia). }
  assert (frames s pd i (j - i) = frame w :: frames s pd (i + 1) (j - i - 1)) as Ef0.
  { rewrite frames_cons by lia. by rewrite Hw. }
  split; try done.
  - rewrite R2, Ef, Ef0. symmetry. apply Permutation_middle.
  - intros k Hk. by rewrite R3, Ht1.
  - intros va Hva. rewrite R4 by done. rewrite Hp1 by done.
    repeat case_decide; try done; lia.
  - intros b Hb Hf. rewrite R5.
    + apply Hm1; [done|]. apply Hf. rewrite Ef0. by left.
    + intros [Hd|(k & t & Hk & Et & Hin)]; apply Hb; [by left|]. right. exists k, t. by rewrite <- Ht1.
    + intros f. rewrite Ef. intros Hin. apply Hf. rewrite Ef0. by right.
Qed.

(** The number of pages that [sz] bytes need. *)
Definition npages (sz : Z) : Z := (sz + 4095) / PGSIZE.

Lemma npages_spec sz : PGSIZE * (npages sz - 1) < sz <= PGSIZE * npages sz.
Proof.
  unfold npages. change PGSIZE with 4096. pose proof (Z.div_mod (sz + 4095) 4096 ltac:(done)).
  pose proof (Z.mod_pos_bound (sz + 4095) 4096 eq_refl). lia.
Qed.

Lemma npages_user sz : 0 <= sz <= KERNBASE -> 0 <= npages sz <= NUSER /\ PGROUNDUP sz = PGSIZE * npages sz.
Proof.
  intros Hsz. pose proof (npages_spec sz). rewrite NUSER_eq. unfold KERNBASE, PGSIZE in *. split; [lia|].
  apply roundup_eq; lia.
Qed.

(** The start of the next directory entry. *)
Lemma next_dir i : 0 <= i < NUSER ->
  u32 (u32 (PGADDR (PDX (PGSIZE * i) + 1) 0 0 - PGSIZE) + PGSIZE) = PGSIZE * (1024 * (i / 1024 + 1)) /\
  PDX (PGSIZE * i) = i / 1024.
Proof.
  intros Hi. destruct (user_va i Hi) as [Hv _]. rewrite NUSER_eq in Hi.
  assert (PDX (PGSIZE * i) = i / 1024) as E.
  { rewrite PDX_eq by done. change (2 ^ 22) with (4096 * 1024). unfold PGSIZE.
    by rewrite <- Z.div_div, (Z.mul_comm 4096), Z.div_mul by done. }
  split; [|done]. rewrite E. assert (0 <= i / 1024 < 512) as Hd.
  { split; [apply Z.div_pos; lia | apply Z.div_lt_upper_bound; lia]. }
  unfold PGADDR. change (Z.shiftl 0 12) with 0. rewrite !Z.lor_0_r, Z.shiftl_mul_pow2 by lia.
  rewrite u32_sub_l, u32_add_l. unfold PGSIZE. rewrite u32_small; lia.
Qed.

Lemma runs_dealloc_loop fuel s l pd i oldsz (Q : unit -> kmem -> Prop) :
  uvm_ok s l pd -> 0 <= i <= NUSER -> 0 <= oldsz <= KERNBASE -> (Z.to_nat (npages oldsz - i) <= fuel)%nat ->
  (forall s' l', released s l s' l' pd i (npages oldsz) -> Q tt s') ->
  runs (deallocuvm_loop kend fuel pd (PGSIZE * i) oldsz) Q s.
Proof.
  intros Hu Hi Hsz. destruct (npages_user oldsz Hsz) as [Hj _]. pose proof (npages_spec oldsz) as Hnp.
  set (j := npages oldsz) in *. assert (oldsz <= PGSIZE * i <-> j <= i) as Hdone by (unfold PGSIZE in *; lia).
  clearbody j. revert s l i Q Hu Hi Hdone. induction fuel as [|fuel IH]; intros s l i Q Hu Hi Hdone Hf HQ.
  { cbn [deallocuvm_loop]. rewrite decide_True by (apply Hdone; lia).
    apply runs_ret, (HQ s l), released_nil; [done | lia]. }
  cbn [deallocuvm_loop]. destruct (decide (oldsz <= PGSIZE * i)) as [Hle|Hgt].
  { apply runs_ret, (HQ s l), released_nil; [done | by apply Hdone]. }
  rewrite Hdone in Hgt.
  assert (0 <= i < NUSER) as Hi' by lia. destruct (user_va i Hi') as [Hva Ei].
  apply runs_bind. exists (default 0 (walk s pd (PGSIZE * i))), s. split; [apply walkpgdir_look|].
  destruct (walk s pd (PGSIZE * i)) as [a|] eqn:Ea; simpl.
  - destruct (walk_where _ Hend _ _ _ _ _ (u_pd _ _ _ Hu) Hva Ea) as (_ & _ & _ & _ & _ & _ & Ha0).
    rewrite decide_False by done. apply runs_bind, runs_gets. apply runs_bind.
    replace (u32 (PGSIZE * i + PGSIZE)) with (PGSIZE * (i + 1))
      by (rewrite NUSER_eq in *; unfold PGSIZE in *; rewrite u32_small; lia).
    assert (forall s1 l1, uvm_ok s1 l1 pd -> (forall s' l', released s1 l1 s' l' pd (i + 1) j -> Q tt s') ->
      runs (deallocuvm_loop kend fuel pd (PGSIZE * (i + 1)) oldsz) Q s1) as Hrest.
    { intros s1 l1 Hu1 HQ1. apply (IH _ l1); [done | lia | unfold PGSIZE in *; lia | lia | done]. }
    destruct (present (word s a)) eqn:Ep.
    + assert (upte s pd i = Some (word s a)) as Hw.
      { unfold upte, pte. rewrite Ea. simpl. by rewrite Ep. }
      destruct (unmap_step _ _ _ _ _ _ Hu Hi' Hw Ea) as (Hu1 & _).
      destruct (u_frame _ _ _ Hu i _ Hi' Hw) as (Hfok & Hfl & _).
      rewrite decide_False.
      2: { intros E. unfold frame in Hfok. rewrite E in Hfok.
           change (P2V 0) with KERNBASE in *. destruct Hfok as [_ Hk]. unfold KERNLINK, EXTMEM in *. lia. }
      apply runs_bind. exists tt, (freed (frame (word s a)) s).
      split; [apply (kfree_run _ Hend); [apply (u_inv _ _ _ Hu) | done]|].
      apply runs_modify. apply (Hrest _ _ Hu1). intros s' l' Hr. apply (HQ s' l').
      eapply released_cons; [done | lia | lia | done | done | done].
    + apply runs_ret. apply (Hrest _ _ Hu). intros s' l' Hr. apply (HQ s' l').
      eapply (released_skip _ _ _ _ _ i (i + 1)); [lia | lia | lia | | done]. intros p Hp _.
      replace p with i by lia. unfold upte, pte. rewrite Ea. simpl. by rewrite Ep.
  - destruct (next_dir i Hi') as [-> HD]. rewrite NUSER_eq in *.
    pose proof (Z.div_mod i 1024 ltac:(done)). pose proof (Z.mod_pos_bound i 1024 eq_refl).
    apply (IH _ l); [done | lia | unfold PGSIZE in *; lia | lia |]. intros s' l' Hr. apply (HQ s' l').
    eapply (released_skip _ _ _ _ _ i); [|lia|rewrite NUSER_eq; lia| |exact Hr]; [lia|]. intros p Hp Hpj.
    destruct (user_va p) as [Hvp _]; [rewrite NUSER_eq; lia|]. destruct (next_dir p) as [_ HDp]; [rewrite NUSER_eq; lia|].
    unfold upte, pte. assert (walk s pd (PGSIZE * p) = None) as ->; [|done].
    unfold walk in Ea |- *. rewrite HDp. rewrite HD in Ea. replace (p / 1024) with (i / 1024).
    + by destruct (tbl s pd (i / 1024)).
    + apply (Z.div_unique _ _ _ (p - 1024 * (i / 1024))); lia.
Qed.

Lemma runs_deallocuvm s l pd oldsz newsz (Q : Z -> kmem -> Prop) :
  uvm_ok s l pd -> 0 <= newsz -> 0 <= oldsz <= KERNBASE ->
  (newsz < oldsz -> forall s' l', released s l s' l' pd (npages newsz) (npages oldsz) -> Q newsz s') ->
  (oldsz <= newsz -> Q oldsz s) -> runs (deallocuvm kend pd oldsz newsz) Q s.
Proof.
  intros Hu Hn Ho HQ HQ'. unfold deallocuvm. case_decide; [by apply runs_ret, HQ'|].
  destruct (npages_user newsz) as [Hi ->]; [lia|]. pose proof (npages_user oldsz Ho) as [Hj _].
  pose proof (npages_spec oldsz). pose proof (npages_spec newsz).
  apply runs_bind, (runs_dealloc_loop _ _ l); [done | lia | done | |].
  - unfold rounds. destruct (decide (PGSIZE * npages newsz <= oldsz)).
    + rewrite u32_small by (unfold PGSIZE, KERNBASE in *; lia).
      assert (npages oldsz - npages newsz <= (oldsz - PGSIZE * npages newsz) / PGSIZE + 1); [|lia].
      pose proof (Z.div_mod (oldsz - PGSIZE * npages newsz) PGSIZE ltac:(done)).
      pose proof (Z.mod_pos_bound (oldsz - PGSIZE * npages newsz) PGSIZE eq_refl). unfold PGSIZE in *. lia.
    + unfold PGSIZE in *. lia.
  - intros s' l' Hr. apply runs_ret, (HQ ltac:(lia) s' l' Hr).
Qed.

(** ** Address spaces that grow *)

Lemma data_grown s l s' l' pd f : grown s l s' l' pd -> data_page s l pd f -> data_page s' l' pd f.
Proof.
  intros G (Hf & Hl & Hpd & Ht). split; [done|]. split; [by intros ?%(grown_sub _ _ _ _ _ _ _ G)|].
  split; [done|]. intros k Hk E. destruct (g_new _ _ _ _ _ _ G k f Hk E) as [?|[? _]]; [by eapply Ht | done].
Qed.

Lemma uvm_grown s l s' l' pd : uvm_ok s l pd -> grown s l s' l' pd ->
  (forall i, 0 <= i < NUSER -> upte s' pd i = upte s pd i) -> uvm_ok s' l' pd.
Proof.
  intros [U1 U2 U3 U4] G Hp. split; [apply G | apply G | |].
  - intros i w Hi. rewrite Hp by done. intros Hw. eapply data_grown; [done | by eapply U3].
  - intros i j w w' Hi Hj. rewrite !Hp by done. by apply U4.
Qed.

(** The first free page, taken and zeroed. *)
Definition zeroed (m : Z) (s : kmem) : kmem :=
  let s1 := with_freelist (word s m) s in with_mem (fill m 0 (mem s1)) s1.

Lemma word_zeroed m s a : word (zeroed m s) a = if decide (a ∈ words m) then 0 else word s a.
Proof. unfold zeroed. by rewrite word_fill. Qed.

(** A page of the user's that is not mapped yet. *)
Definition spare (s : kmem) (l : list Z) (pd m : Z) : Prop :=
  data_page s l pd m /\ forall i w, 0 <= i < NUSER -> upte s pd i = Some w -> frame w <> m.

Lemma zeroed_ok s m l pd : uvm_ok s (m :: l) pd ->
  uvm_ok (zeroed m s) l pd /\ spare (zeroed m s) l pd m /\
  (forall k, 0 <= k < 1024 -> tbl (zeroed m s) pd k = tbl s pd k) /\
  (forall va, 0 <= va < 2 ^ 32 -> pte (zeroed m s) pd va = pte s pd va).
Proof.
  intros [U1 U2 U3 U4]. pose proof U1 as [K1 K2 K3 K4]. apply NoDup_cons in K3 as [Hml K3].
  apply Forall_cons in K4 as [Hm K4]. pose proof U2 as [[P1 P1'] P2 P3].
  assert (m <> pd) as Hmpd by (intros ->; apply P1'; by left).
  assert (forall k, 0 <= k < 1024 -> tbl s pd k <> Some m) as Hmt.
  { intros k Hk E. destruct (P2 k m Hk E) as (_ & Hn & _). apply Hn. by left. }
  assert (forall a, in_tables s pd a -> word (zeroed m s) a = word s a) as Hw.
  { intros a Ha. rewrite word_zeroed, decide_False; [done|]. intros Hin.
    destruct Ha as [Hd|(k & t & Hk & Et & Hin')].
    - by eapply (words_disjoint m pd a); [apply Hm | apply P1 | | | ].
    - destruct (P2 k t Hk Et) as (Ht & _). eapply (words_disjoint m t a); [apply Hm | apply Ht | | done | done].
      intros ->. by eapply Hmt. }
  assert (forall k, 0 <= k < 1024 -> tbl (zeroed m s) pd k = tbl s pd k) as Ht.
  { intros k Hk. apply tbl_frame, Hw. left. by apply slot_words. }
  assert (forall va, 0 <= va < 2 ^ 32 -> pte (zeroed m s) pd va = pte s pd va) as Hp.
  { intros va Hva. by apply pte_frame. }
  assert (forall i, 0 <= i < NUSER -> upte (zeroed m s) pd i = upte s pd i) as Hup.
  { intros i Hi. apply Hp. by apply user_va. }
  split; [|split; [|done]].
  - split.
    + apply (kalloc_inv _ _ _ _) in U1 as [V1 V2 V3 V4]. split; [done | | done | done].
      eapply chain_frame; [|exact V2]. intros v Hv. rewrite word_zeroed, decide_False; [done|].
      rewrite Forall_forall in K4. eapply (words_disjoint v m); [by apply K4 | apply Hm | by intros -> | apply words_self].
    + eapply pd_ok_frame; [|intros v Hv; by right|exact U2]. intros a Ha. apply Hw. by left.
    + intros i w Hi. rewrite Hup by done. intros Ew. destruct (U3 i w Hi Ew) as (F1 & F2 & F3 & F4).
      split_and!; try done; [by intros ?; apply F2; right|]. intros k Hk. rewrite Ht by done. by apply F4.
    + intros i j w w' Hi Hj. rewrite !Hup by done. by apply U4.
  - split; [|intros i w Hi; rewrite Hup by done; intros Ew Em; destruct (U3 i w Hi Ew) as (_ & F2 & _); apply F2; rewrite Em; by left].
    split_and!; try done. intros k Hk. rewrite Ht by done. by apply Hmt.
Qed.

(** Giving back a page that is not mapped. *)
Lemma spare_free s l pd m : uvm_ok s l pd -> spare s l pd m ->
  uvm_ok (freed m s) (m :: l) pd /\
  (forall k, 0 <= k < 1024 -> tbl (freed m s) pd k = tbl s pd k) /\
  (forall va, 0 <= va < 2 ^ 32 -> pte (freed m s) pd va = pte s pd va).
Proof.
  intros [U1 U2 U3 U4] [Hd Hsp]. pose proof Hd as (Hm & Hml & Hmpd & Hmt).
  assert (forall a, in_tables s pd a -> word (freed m s) a = word s a) as Hw.
  { intros a Ha. assert (a ∉ words m) as Hn by (intros Hin; by eapply data_not_tables).
    rewrite word_freed, decide_False by (intros ->; apply Hn, words_self). by rewrite decide_False. }
  assert (forall k, 0 <= k < 1024 -> tbl (freed m s) pd k = tbl s pd k) as Ht.
  { intros k Hk. apply tbl_frame, Hw. left. by apply slot_words. }
  assert (forall va, 0 <= va < 2 ^ 32 -> pte (freed m s) pd va = pte s pd va) as Hp.
  { intros va Hva. by apply pte_frame. }
  assert (forall i, 0 <= i < NUSER -> upte (freed m s) pd i = upte s pd i) as Hup.
  { intros i Hi. apply Hp. by apply user_va. }
  split; [|done]. split; [by apply kfree_inv | | |].
  - destruct U2 as [[P1 P1'] P2 P3]. split.
    + split; [done|]. by intros [->|?]%elem_of_cons.
    + intros k t Hk. rewrite Ht by done. intros Et. destruct (P2 k t Hk Et) as (? & ? & ?). split_and!; try done.
      intros [->|?]%elem_of_cons; [by eapply Hmt | done].
    + intros k k' t Hk Hk'. rewrite !Ht by done. by apply P3.
  - intros i w Hi. rewrite Hup by done. intros Ew. destruct (U3 i w Hi Ew) as (F1 & F2 & F3 & F4).
    split_and!; try done; [intros [E|?]%elem_of_cons; [by eapply Hsp | done]|].
    intros k Hk. rewrite Ht by done. by apply F4.
  - intros i j w w' Hi Hj. rewrite !Hup by done. by apply U4.
Qed.

(** ** [allocuvm] *)

(** From [s] with free pages [l] to [s'] with free pages [l'], the pages from [i] up
    to [j] have got frames from the free pages, full of zeros. *)
Record allocated (s : kmem) (l : list Z) (s' : kmem) (l' : list Z) (pd i j : Z) : Prop := {
  al_ok : uvm_ok s' l' pd;
  al_free : forall v, v ∈ l' -> v ∈ l;
  al_used : forall v, v ∈ l -> v ∈ l' \/ (exists k, 0 <= k < 1024 /\ tbl s' pd k = Some v) \/
    (exists p, i <= p < j /\ upte s' pd p = Some (V2P v + 7));
  al_page : forall p, i <= p < j -> exists f, upte s' pd p = Some (V2P f + 7) /\ page_ok f /\ f ∈ l /\ f ∉ l' /\
    forall a, a ∈ words f -> word s' a = 0;
  al_pte : forall va, 0 <= va < 2 ^ 32 -> ~ i <= va / PGSIZE < j -> pte s' pd va = pte s pd va;
  al_mem : forall a, ~ in_tables s' pd a -> (forall v, v ∈ l -> a ∉ words v) -> word s' a = word s a
}.

Lemma allocated_nil s l pd i j : uvm_ok s l pd -> j <= i -> allocated s l s l pd i j.
Proof. intros Hu Hij. split; try done; [by left | lia]. Qed.

Lemma frame_entry f : page_ok f -> frame (V2P f + 7) = f.
Proof.
  intros Hf. unfold frame. destruct (page_V2P kend Hend f Hf) as (_ & Hm & Hr).
  rewrite PTE_ADDR_add by (done || (unfold PHYSTOP, PGSIZE in *; lia)). by apply (page_P2V kend Hend).
Qed.

(** One more page. *)
Lemma allocated_step s0 l0 s m l s' l' pd i0 i : allocated s0 l0 s (m :: l) pd i0 i -> 0 <= i0 <= i ->
  0 <= i < NUSER -> upte s pd i = None ->
  grown (zeroed m s) l s' l' pd -> mapped (zeroed m s) s' pd i 1 (V2P m) (Z.lor PTE_W PTE_U) ->
  allocated s0 l0 s' l' pd i0 (i + 1).
Proof.
  intros [A1 A2 A3 A4 A5 A6] Hi0 Hi Hnone G Hmap. change (Z.lor (Z.lor PTE_W PTE_U) PTE_P) with 7 in Hmap.
  destruct (zeroed_ok _ _ _ _ A1) as (Hu1 & [Hd1 Hs1] & Ht1 & Hp1).
  assert (forall va, 0 <= va < 2 ^ 32 -> pte s' pd va =
    if decide (va / PGSIZE = i) then Some (V2P m + 7) else pte s pd va) as Hpte.
  { intros va Hva. rewrite Hmap by done. destruct (decide (va / PGSIZE = i)) as [E|E].
    - rewrite decide_True by lia. f_equal. rewrite E. change (Z.lor (Z.lor PTE_W PTE_U) PTE_P) with 7. lia.
    - rewrite decide_False by lia. by apply Hp1. }
  assert (forall p, 0 <= p < NUSER -> upte s' pd p = if decide (p = i) then Some (V2P m + 7) else upte s pd p) as Hup.
  { intros p Hp. destruct (user_va p Hp) as [Hv Ep]. unfold upte. by rewrite Hpte, Ep. }
  pose proof (data_grown _ _ _ _ _ _ G Hd1) as Hd2. pose proof Hd2 as (Hm & Hml & Hmpd & Hmt).
  assert (forall p w, 0 <= p < NUSER -> upte s pd p = Some w -> data_page s' l' pd (frame w) /\ frame w <> m) as Hold.
  { intros p w Hp Hw. assert (upte (zeroed m s) pd p = Some w) as Hw'.
    { unfold upte. rewrite Hp1; [done | by apply user_va]. }
    split; [|by eapply Hs1]. eapply data_grown; [done|]. by eapply (u_frame _ _ _ Hu1). }
  assert (forall v, v ∈ l' -> v ∈ l) as Hsub by (intros v; by eapply grown_sub).
  split.
  - split; [apply G | apply G | |].
    + intros p w Hp. rewrite Hup by done. case_decide; [|by intros; eapply Hold].
      intros [= <-]. by rewrite frame_entry.
    + intros p q w w' Hp Hq. rewrite !Hup by done. repeat case_decide; subst; try done.
      * intros [= <-] Hw'. rewrite frame_entry by done. intros E. by destruct (Hold q w' Hq Hw').
      * intros Hw' [= <-]. rewrite frame_entry by done. intros E. by destruct (Hold p w Hp Hw').
      * by apply (u_inj _ _ _ A1).
  - intros v Hv. apply A2. right. by apply Hsub.
  - intros v [Hv|[(k & Hk & Et)|(p & Hp & Ep)]]%A3.
    + apply elem_of_cons in Hv as [->|Hv].
      * right. right. exists i. split; [lia|]. by rewrite Hup, decide_True.
      * destruct (g_used _ _ _ _ _ _ G v Hv) as [?|?]; [by left | right; by left].
    + right. left. exists k. split; [done|]. eapply (g_keep _ _ _ _ _ _ G); [done|]. by rewrite Ht1.
    + right. right. exists p. split; [lia|]. rewrite Hup by lia. rewrite decide_False by lia. done.
  - intros p Hp. destruct (decide (p = i)) as [->|Hne].
    + exists m. rewrite Hup, decide_True by done. split; [done|]. split; [done|].
      split; [apply A2; by left|]. split; [done|]. intros a Ha. rewrite (g_mem _ _ _ _ _ _ G) by (eapply data_not_tables; [apply G | done | done]).
      by rewrite word_zeroed, decide_True.
    + destruct (A4 p ltac:(lia)) as (f & Hf & Hfok & Hfl & Hfn & Hz). exists f.
      rewrite Hup, decide_False by (done || lia). do 3 (split; [done|]).
      split; [intros Hin; apply Hfn; right; by apply Hsub|]. intros a Ha.
      destruct (Hold p _ ltac:(lia) Hf) as [Hdf Hfm].
      rewrite frame_entry in Hdf, Hfm by done.
      rewrite (g_mem _ _ _ _ _ _ G) by (eapply data_not_tables; [apply G | done | done]).
      rewrite word_zeroed, decide_False; [by apply Hz|].
      eapply words_disjoint; [apply Hfok | apply Hm | done | done].
  - intros va Hva Hn. rewrite Hpte by done. rewrite decide_False by lia. apply A5; [done | lia].
  - intros a Ha Hv. rewrite (g_mem _ _ _ _ _ _ G) by done. rewrite word_zeroed, decide_False.
    + apply A6; [|done]. intros [Hin|(k & t & Hk & Et & Hin)]; apply Ha; [by left|]. right. exists k, t.
      split; [done|]. split; [|done]. eapply (g_keep _ _ _ _ _ _ G); [done|]. by rewrite Ht1.
    + apply Hv, A2. by left.
Qed.

(** Part of the way, with the pages [h] taken and not mapped: what is needed to go
    back. *)
Record partial (s : kmem) (l : list Z) (s' : kmem) (l' h : list Z) (pd i j : Z) : Prop := {
  pa_ok : uvm_ok s' l' pd;
  pa_free : forall v, v ∈ l' -> v ∈ l;
  pa_used : forall v, v ∈ l -> v ∈ l' \/ v ∈ h \/ (exists k, 0 <= k < 1024 /\ tbl s' pd k = Some v) \/
    v ∈ frames s' pd i (j - i);
  pa_frames : forall v, v ∈ frames s' pd i (j - i) -> v ∈ l;
  pa_pte : forall va, 0 <= va < 2 ^ 32 -> ~ i <= va / PGSIZE < j -> pte s' pd va = pte s pd va;
  pa_mem : forall a, ~ in_tables s' pd a -> (forall v, v ∈ l -> a ∉ words v) -> word s' a = word s a
}.

Lemma allocated_partial s l s' l' pd i j k : uvm_ok s l pd -> allocated s l s' l' pd i j -> i <= j <= k ->
  (forall p, j <= p < k -> upte s' pd p = None) -> partial s l s' l' [] pd i k.
Proof.
  intros Hu [A1 A2 A3 A4 A5 A6] Hk Hnone. pose proof (kv_pages _ _ _ (u_inv _ _ _ Hu)) as Hok.
  rewrite Forall_forall in Hok. split; try done.
  - intros v Hv. destruct (A3 v Hv) as [?|[?|(p & Hp & Ep)]]; [by left | by right; right; left |].
    right. right. right. apply elem_of_frames. exists p, (V2P v + 7). split; [lia|]. split; [done|].
    by rewrite frame_entry by (by apply Hok).
  - intros v (p & w & Hp & Ew & ->)%elem_of_frames. destruct (decide (p < j)).
    + destruct (A4 p ltac:(lia)) as (f & Ef & Hf & Hfl & _). rewrite Ew in Ef. injection Ef as ->.
      by rewrite frame_entry.
    + rewrite Hnone in Ew by lia. done.
  - intros va Hva Hn. apply A5; [done | lia].
Qed.

(** A free page taken and zeroed, and the directory grown without new entries. *)
Lemma partial_hold s0 l0 s m l s' l' pd i j : partial s0 l0 s (m :: l) [] pd i j -> 0 <= i -> j <= NUSER ->
  grown (zeroed m s) l s' l' pd -> (forall va, 0 <= va < 2 ^ 32 -> pte s' pd va = pte (zeroed m s) pd va) ->
  partial s0 l0 s' l' [m] pd i j /\ spare s' l' pd m.
Proof.
  intros [A1 A2 A3 A4 A5 A6] Hi Hj G Hp'. destruct (zeroed_ok _ _ _ _ A1) as (Hu1 & [Hd1 Hs1] & Ht1 & Hp1).
  assert (forall va, 0 <= va < 2 ^ 32 -> pte s' pd va = pte s pd va) as Hp by (intros; by rewrite Hp', Hp1).
  assert (forall p, 0 <= p < NUSER -> upte s' pd p = upte s pd p) as Hup.
  { intros p Hp2. apply Hp. by apply user_va. }
  assert (frames s' pd i (j - i) = frames s pd i (j - i)) as Ef by (apply frames_ext; intros; apply Hup; lia).
  assert (forall k t, 0 <= k < 1024 -> tbl s pd k = Some t -> tbl s' pd k = Some t) as Hk.
  { intros k t Hk Et. eapply (g_keep _ _ _ _ _ _ G); [done|]. by rewrite Ht1. }
  split.
  - split.
    + eapply uvm_grown; [exact Hu1 | done |]. intros p Hp2. apply Hp'. by apply user_va.
    + intros v Hv. apply A2. right. by eapply grown_sub.
    + intros v [Hv|[Hv|[(k & Hk' & Et)|Hv]]]%A3.
      * apply elem_of_cons in Hv as [->|Hv]; [right; left; by left|].
        destruct (g_used _ _ _ _ _ _ G v Hv) as [?|?]; [by left | by right; right; left].
      * by apply elem_of_nil in Hv.
      * right. right. left. exists k. auto.
      * right. right. right. by rewrite Ef.
    + by rewrite Ef.
    + intros va Hva Hn. rewrite Hp by done. by apply A5.
    + intros a Ha Hv. rewrite (g_mem _ _ _ _ _ _ G) by done. rewrite word_zeroed, decide_False.
      * apply A6; [|done]. intros [Hin|(k & t & Hk' & Et & Hin)]; apply Ha; [by left|].
        right. exists k, t. auto.
      * apply Hv, A2. by left.
  - split; [by eapply data_grown|]. intros p w Hp2 Hw. apply (Hs1 p w Hp2).
    unfold upte. rewrite <- Hp'; [done | by apply user_va].
Qed.

(** Back at the start: the translation is as in [s], and of the free pages only new
    page tables (and the pages [h]) are missing. *)
Record restored (s : kmem) (l : list Z) (s' : kmem) (l' h : list Z) (pd : Z) : Prop := {
  re_ok : uvm_ok s' l' pd;
  re_pte : forall va, 0 <= va < 2 ^ 32 -> pte s' pd va = pte s pd va;
  re_free : forall v, v ∈ l' -> v ∈ l;
  re_used : forall v, v ∈ l -> v ∈ l' \/ v ∈ h \/ exists k, 0 <= k < 1024 /\ tbl s' pd k = Some v;
  re_mem : forall a, ~ in_tables s' pd a -> (forall v, v ∈ l -> a ∉ words v) -> word s' a = word s a
}.

Lemma partial_undo s0 l0 s l h s' l' pd i j : partial s0 l0 s l h pd i j -> released s l s' l' pd i j ->
  (forall va, 0 <= va < 2 ^ 32 -> i <= va / PGSIZE < j -> pte s0 pd va = None) ->
  restored s0 l0 s' l' h pd.
Proof.
  intros [A1 A2 A3 A4 A5 A6] [R1 R2 R3 R4 R5] Hn. split; [done | | | |].
  - intros va Hva. rewrite R4 by done. case_decide; [by rewrite Hn | by apply A5].
  - intros v. rewrite R2. intros [Hv|Hv]%elem_of_app; [by apply A4 | by apply A2].
  - intros v [Hv|[Hv|[(k & Hk & Et)|Hv]]]%A3.
    + left. rewrite R2. apply elem_of_app. by right.
    + right. by left.
    + right. right. exists k. split; [done|]. by rewrite R3.
    + left. rewrite R2. apply elem_of_app. by left.
  - assert (forall a, ~ in_tables s' pd a -> ~ in_tables s pd a) as Ht.
    { intros a Ha [Hin|(k & t & Hk & Et & Hin)]; apply Ha; [by left|]. right. exists k, t. by rewrite R3. }
    intros a Ha Hv. rewrite R5; [apply A6; [by apply Ht | done] | by apply Ht |].
    intros f Hf. apply Hv. by apply A4.
Qed.

(** The held page is given back at the end. *)
Lemma restored_free s0 l0 s l m pd : restored s0 l0 s l [m] pd -> spare s l pd m -> m ∈ l0 ->
  restored s0 l0 (freed m s) (m :: l) [] pd.
Proof.
  intros [A1 A2 A3 A4 A5] Hsp Hm. destruct (spare_free _ _ _ _ A1 Hsp) as (Hu & Ht & Hp). split; [done | | | |].
  - intros va Hva. rewrite Hp by done. by apply A2.
  - intros v [->|Hv]%elem_of_cons; [done | by apply A3].
  - intros v [Hv|[Hv|(k & Hk & Et)]]%A4; [left; by right | left; apply list_elem_of_singleton in Hv as ->; by left |].
    right. right. exists k. split; [done|]. by rewrite Ht.
  - intros a Ha Hv. pose proof (Hv m Hm) as Ham.
    rewrite word_freed, decide_False by (intros ->; apply Ham, words_self). rewrite decide_False by done.
    apply A5; [|done]. intros [Hin|(k & t & Hk & Et & Hin)]; apply Ha; [by left|]. right. exists k, t. by rewrite Ht.
Qed.

Lemma spare_released s l s' l' pd m i j : spare s l pd m -> released s l s' l' pd i j -> 0 <= i -> j <= NUSER ->
  spare s' l' pd m.
Proof.
  intros [(Hm & Hml & Hmpd & Hmt) Hsp] [R1 R2 R3 R4 R5] Hi Hj. split.
  - split_and!; try done.
    + rewrite R2. intros [(p & w & Hp & Ew & ->)%elem_of_frames|?]%elem_of_app; [|done].
      by destruct (Hsp p w ltac:(lia) Ew).
    + intros k Hk. rewrite R3 by done. by apply Hmt.
  - intros p w Hp. destruct (user_va p Hp) as [Hv Ep]. unfold upte. rewrite R4, Ep by done.
    case_decide; [done|]. by apply Hsp.
Qed.

(** [mappages] of one page with the user's permissions. *)
Lemma runs_map_user s l pd m i (Q : Z -> kmem -> Prop) : kinv s l -> pd_ok s l pd -> page_ok m -> 0 <= i < NUSER ->
  (forall va, 0 <= va < 2 ^ 32 -> va / PGSIZE = i -> pte s pd va = None) ->
  (forall s' l', grown s l s' l' pd -> mapped s s' pd i 1 (V2P m) (Z.lor PTE_W PTE_U) -> Q 0 s') ->
  (forall s', grown s l s' [] pd -> (forall va, 0 <= va < 2 ^ 32 -> pte s' pd va = pte s pd va) -> Q (-1) s') ->
  runs (mappages pd (PGSIZE * i) PGSIZE (V2P m) (Z.lor PTE_W PTE_U)) Q s.
Proof.
  intros Hk Hpd Hm Hi Hnone HQ HQ'. destruct (user_va i Hi) as [Hva Ei]. destruct (page_V2P _ Hend m Hm) as (_ & Hmm & Hmr).
  assert (first_page (PGSIZE * i) = i) as E1 by exact Ei.
  assert (last_page (PGSIZE * i) PGSIZE = i) as E2.
  { unfold last_page, PGSIZE. replace (4096 * i + 4096 - 1) with (i * 4096 + 4095) by lia.
    rewrite Z.div_add_l by done. change (4095 / 4096) with 0. lia. }
  rewrite NUSER_eq in Hi. apply (runs_mappages _ Hend s l); rewrite ?E1, ?E2; try done; try (unfold PGSIZE, PHYSTOP in *; lia).
  - intros va' Hv' Hr. apply Hnone; [done | lia].
  - intros s' l' G. replace (i - i + 1) with 1 by lia. by apply (HQ s' l').
  - intros s' n G Hn Hmap. apply (HQ' s' G). intros va Hv. rewrite (Hmap va Hv). by rewrite decide_False by lia.
Qed.

Lemma runs_alloc_loop fuel s0 l0 s l pd oldsz newsz i (Q : Z -> kmem -> Prop) :
  let i0 := npages oldsz in let j := npages newsz in
  uvm_ok s0 l0 pd -> 0 <= oldsz -> 0 <= newsz < KERNBASE -> i0 <= i <= j -> (Z.to_nat (j - i) <= fuel)%nat ->
  (forall va, 0 <= va < 2 ^ 32 -> i0 <= va / PGSIZE < j -> pte s0 pd va = None) ->
  allocated s0 l0 s l pd i0 i ->
  (forall s' l', allocated s0 l0 s' l' pd i0 j -> Q newsz s') ->
  (forall s' l', restored s0 l0 s' l' [] pd -> Q 0 s') ->
  runs (allocuvm_loop kend fuel pd (PGSIZE * i) oldsz newsz) Q s.
Proof.
  intros i0 j Hu0 Ho Hn. pose proof (npages_spec newsz) as Hj1. pose proof (npages_spec oldsz) as Hi1.
  destruct (npages_user newsz ltac:(lia)) as [Hj _]. fold i0 in Hi1. fold j in Hj1, Hj.
  revert s l i. induction fuel as [|fuel IH]; intros s l i Hi Hf Hnone Ha HQ HQ0.
  { cbn [allocuvm_loop]. assert (i = j) as -> by lia. rewrite decide_True by lia. by apply runs_ret, (HQ s l). }
  cbn [allocuvm_loop]. destruct (decide (newsz <= PGSIZE * i)) as [Hle|Hgt].
  { assert (i = j) as -> by (unfold PGSIZE in *; lia). by apply runs_ret, (HQ s l). }
  assert (i < j) as Hij by (unfold PGSIZE in *; lia). assert (0 <= i < NUSER) as Hiu by (unfold PGSIZE in *; lia).
  assert (oldsz < newsz) as Hon by (unfold PGSIZE in *; lia). assert (0 <= i0) as Hi0 by (unfold PGSIZE in *; lia).
  pose proof (al_ok _ _ _ _ _ _ _ Ha) as Hu.
  assert (forall va, 0 <= va < 2 ^ 32 -> i <= va / PGSIZE < j -> pte s pd va = None) as Hn1.
  { intros va Hva Hr. rewrite (al_pte _ _ _ _ _ _ _ Ha) by (done || lia). apply Hnone; [done | lia]. }
  assert (forall p, i <= p < j -> upte s pd p = None) as Hn2.
  { intros p Hp. destruct (user_va p) as [Hv Ep]; [lia|]. apply Hn1; [done | by rewrite Ep]. }
  pose proof (allocated_partial _ _ _ _ _ _ _ j Hu0 Ha ltac:(lia) Hn2) as Hpart.
  apply runs_bind. pose proof (kalloc_run _ Hend _ _ (u_inv _ _ _ Hu)) as Ek.
  destruct l as [|m l]; (eexists _, _; split; [exact Ek|]).
  { rewrite decide_True by done. apply runs_bind. eapply runs_deallocuvm; [done | lia | lia | | lia].
    intros _ s' l' Hr. apply runs_ret, (HQ0 s' l'). by eapply partial_undo. }
  pose proof (u_inv _ _ _ Hu) as [_ _ _ Hok]. apply Forall_cons in Hok as [Hm _].
  rewrite decide_False by (by eapply page_nonzero; [exact Hend|]). apply runs_bind, runs_modify.
  change (with_mem _ _) with (zeroed m s). destruct (zeroed_ok _ _ _ _ Hu) as (Hu1 & Hsp1 & Ht1 & Hp1).
  apply runs_bind. eapply runs_map_user; [apply Hu1 | apply Hu1 | done | done | | |].
  - intros va Hva E. rewrite Hp1 by done. apply Hn1; [done | lia].
  - intros s1 l1 G Hmap. rewrite decide_False by lia.
    replace (u32 (PGSIZE * i + PGSIZE)) with (PGSIZE * (i + 1))
      by (rewrite NUSER_eq in *; unfold PGSIZE in *; rewrite u32_small; lia).
    apply (IH s1 l1); [lia | lia | done | | done | done].
    eapply allocated_step; [done | lia | done | by apply Hn2; lia | done | done].
  - intros s1 G Hpte. rewrite decide_True by lia.
    destruct (partial_hold _ _ _ _ _ _ _ _ _ _ Hpart Hi0 ltac:(lia) G Hpte) as [Hpart1 Hsp].
    apply runs_bind. eapply runs_deallocuvm; [apply Hpart1 | lia | lia | | lia].
    intros _ s2 l2 Hr. pose proof (spare_released _ _ _ _ _ _ _ _ Hsp Hr Hi0 ltac:(lia)) as Hsp2.
    pose proof (partial_undo _ _ _ _ _ _ _ _ _ _ Hpart1 Hr Hnone) as Hre.
    apply runs_bind. exists tt, (freed m s2). split.
    { apply (kfree_run _ Hend); [apply (u_inv _ _ _ (re_ok _ _ _ _ _ _ Hre)) | apply Hsp2]. }
    apply runs_ret, (HQ0 _ (m :: l2)). apply restored_free; [done | done |].
    apply (pa_free _ _ _ _ _ _ _ _ Hpart). by left.
Qed.

Lemma runs_allocuvm s l pd oldsz newsz (Q : Z -> kmem -> Prop) : uvm_ok s l pd ->
  0 <= oldsz <= newsz -> newsz < KERNBASE ->
  (forall va, 0 <= va < KERNBASE -> npages oldsz <= va / PGSIZE -> pte s pd va = None) ->
  (forall s' l', allocated s l s' l' pd (npages oldsz) (npages newsz) -> Q newsz s') ->
  (forall s' l', restored s l s' l' [] pd -> Q 0 s') -> runs (allocuvm kend pd oldsz newsz) Q s.
Proof.
  intros Hu Ho Hn Hnone HQ HQ0. unfold allocuvm. rewrite !decide_False by lia.
  destruct (npages_user oldsz) as [Hi ->]; [lia|]. destruct (npages_user newsz) as [Hj _]; [lia|].
  pose proof (npages_spec newsz) as Hj1. pose proof (npages_spec oldsz) as Hi1.
  assert (npages oldsz <= npages newsz) as Hij by (unfold PGSIZE in *; lia).
  eapply (runs_alloc_loop _ s l _ l); [done | lia | lia | lia | | | by apply allocated_nil | done | done].
  - unfold rounds. destruct (decide (PGSIZE * npages oldsz <= newsz)); [|unfold PGSIZE in *; lia].
    rewrite u32_small by (unfold PGSIZE, KERNBASE in *; lia).
    pose proof (Z.div_mod (newsz - PGSIZE * npages oldsz) PGSIZE ltac:(done)).
    pose proof (Z.mod_pos_bound (newsz - PGSIZE * npages oldsz) PGSIZE eq_refl). unfold PGSIZE in *. lia.
  - intros va Hva Hr. rewrite NUSER_eq in *. apply Hnone; [|lia].
    pose proof (Z.div_mod va PGSIZE ltac:(done)). pose proof (Z.mod_pos_bound va PGSIZE eq_refl).
    unfold PGSIZE, KERNBASE in *. lia.
Qed.
End user.

Module VmUser.

(** C18: [allocuvm] grows a user address space or leaves it alone.  Below [KERNBASE]
    and with nothing mapped above the old size it returns the new size and then
    every page between the sizes has a frame of its own, which was free, is full
    of zeros and is writable by the user, or it returns 0 and then every address
    translates as before and of the free pages only new page tables are gone.
    Everything else (other translations, other memory) is unchanged, and the
    directory, its tables, the frames and the free pages stay distinct.  Other
    sizes change nothing. *)
Theorem allocuvm_spec kend s l pd oldsz newsz : KERNLINK <= kend -> uvm_ok kend s l pd ->
  0 <= oldsz -> 0 <= newsz ->
  (forall va, 0 <= va < KERNBASE -> npages oldsz <= va / PGSIZE -> pte s pd va = None) ->
  runs (allocuvm kend pd oldsz newsz) (fun r s' =>
    (KERNBASE <= newsz -> r = 0 /\ s' = s) /\
    (newsz < KERNBASE -> newsz < oldsz -> r = oldsz /\ s' = s) /\
    (oldsz <= newsz < KERNBASE -> exists l',
       r = newsz /\ allocated kend s l s' l' pd (npages oldsz) (npages newsz) \/
       r = 0 /\ restored kend s l s' l' [] pd)) s.
Proof.
  intros Hlink Hu Ho Hn Hnone. destruct (decide (KERNBASE <= newsz)).
  { unfold allocuvm. rewrite decide_True by done. apply runs_ret. split_and!; intros; (done || lia). }
  destruct (decide (newsz < oldsz)).
  { unfold allocuvm. rewrite decide_False, decide_True by done. apply runs_ret. split_and!; intros; (done || lia). }
  apply (runs_allocuvm _ Hlink s l); [done | lia | lia | done | |].
  - intros s' l' Ha. split_and!; [lia | lia |]. intros _. exists l'. by left.
  - intros s' l' Hr. split_and!; [lia | lia |]. intros _. exists l'. by right.
Qed.

(** A zeroed memory with two free pages and an empty directory. *)
Definition two_pages : kmem := MkKmem false true 0x80400000 {[ 0x80400000 := 0x80402000 ]}.

Lemma two_pages_ok : uvm_ok 0x80115000 two_pages [0x80400000; 0x80402000] 0x80401000.
Proof.
  assert (forall i, 0 <= i < 1024 -> tbl two_pages 0x80401000 i = None) as Ht.
  { intros i Hi. unfold tbl, word, two_pages. cbn [mem]. rewrite lookup_singleton_ne by lia. reflexivity. }
  assert (forall i, 0 <= i < NUSER -> upte two_pages 0x80401000 i = None) as Hp.
  { intros i Hi. unfold upte, pte, walk. rewrite Ht; [reflexivity|]. apply PDX_range.
    rewrite NUSER_eq in Hi. unfold PGSIZE. lia. }
  split.
  - split; [reflexivity | | |].
    + split; [reflexivity|]. split; [|vm_compute; reflexivity]. vm_compute. reflexivity.
    + apply NoDup_cons. split; [rewrite list_elem_of_singleton; lia | apply NoDup_singleton].
    + apply Forall_cons. split; [|apply Forall_singleton]; (split; [reflexivity|]);
        change (P2V PHYSTOP) with 0x8E000000; lia.
  - split; [split; [split; [reflexivity | change (P2V PHYSTOP) with 0x8E000000; lia]|] | |].
    + rewrite elem_of_cons, list_elem_of_singleton. lia.
    + intros i t Hi. rewrite Ht by done. intros [=].
    + intros i j t Hi Hj. rewrite Ht by done. intros [=].
  - intros i w Hi. rewrite Hp by done. intros [=].
  - intros i j w w' Hi Hj. rewrite Hp by done. intros [=].
Qed.

Lemma two_pages_empty va : 0 <= va < KERNBASE -> pte two_pages 0x80401000 va = None.
Proof.
  intros Hva. unfold pte, walk, tbl, word, two_pages. cbn [mem].
  pose proof (PDX_range va ltac:(unfold KERNBASE in *; lia)). by rewrite lookup_singleton_ne by lia.
Qed.

Lemma allocuvm_spec_witness : exists s' f, allocuvm 0x80115000 0x80401000 0 100 two_pages = Ret 100 s' /\
  upte s' 0x80401000 0 = Some (V2P f + 7) /\ page_ok 0x80115000 f.
Proof.
  destruct (allocuvm_spec 0x80115000 two_pages _ _ 0 100 ltac:(by vm_compute) two_pages_ok ltac:(lia) ltac:(lia))
    as (r & s' & E & _ & _ & Hr); [by intros va Hva _; apply two_pages_empty|].
  assert (r = 100) as ->.
  { assert (match allocuvm 0x80115000 0x80401000 0 100 two_pages with Ret r _ => r | Stop _ _ => 1 end = 100) as E0
      by (vm_compute; reflexivity). rewrite E in E0. exact E0. }
  destruct (Hr (conj (proj1 (Z.leb_le 0 100) eq_refl) eq_refl)) as (l' & [[_ Ha]|[H0 _]]); [|discriminate H0].
  destruct (al_page _ _ _ _ _ _ _ _ Ha 0 (conj (proj1 (Z.leb_le 0 0) eq_refl) eq_refl)) as (f & Hf & Hok & _).
  exists s', f. split; [exact E|]. split; [exact Hf | exact Hok].
Defined.

(** Shrinking undoes growing.  [allocuvm] from the old to a larger size followed
    by [deallocuvm] back to the old size returns the old size, every address
    translates as before, every free page is free again except for the new page
    tables, and no other memory has changed. *)
Theorem uvm_roundtrip kend s l pd oldsz newsz : KERNLINK <= kend -> uvm_ok kend s l pd ->
  0 <= oldsz < newsz -> newsz < KERNBASE ->
  (forall va, 0 <= va < KERNBASE -> npages oldsz <= va / PGSIZE -> pte s pd va = None) ->
  runs (let! r := allocuvm kend pd oldsz newsz in
        if decide (r = 0) then ret oldsz else deallocuvm kend pd newsz oldsz)
    (fun r s' => r = oldsz /\ exists l', restored kend s l s' l' [] pd) s.
Proof.
  intros Hlink Hu Ho Hn Hnone. apply runs_bind. apply (runs_allocuvm _ Hlink s l); [done | lia | done | done | |].
  - intros s1 l1 Ha. rewrite decide_False by lia. destruct (npages_user newsz) as [Hj _]; [lia|].
    destruct (npages_user oldsz) as [Hi _]; [lia|].
    pose proof (npages_spec newsz). pose proof (npages_spec oldsz).
    eapply (runs_deallocuvm _ Hlink); [apply Ha | lia | lia | | lia]. intros _ s' l' Hr. split; [done|].
    exists l'. eapply partial_undo; [|exact Hr|].
    + eapply (allocated_partial _ Hlink); [done | done | unfold PGSIZE in *; lia | intros p Hp; lia].
    + intros va Hva Hr'. rewrite NUSER_eq in *. apply Hnone; [|lia].
      pose proof (Z.div_mod va PGSIZE ltac:(done)). pose proof (Z.mod_pos_bound va PGSIZE eq_refl).
      unfold PGSIZE, KERNBASE in *. lia.
  - intros s' l' Hr. rewrite decide_True by done. apply runs_ret. split; [done|]. by exists l'.
Qed.

Lemma uvm_roundtrip_witness : exists s', 
  (let! r := allocuvm 0x80115000 0x80401000 0 100 in
   if decide (r = 0) then ret 0 else deallocuvm 0x80115000 0x80401000 100 0) two_pages = Ret 0 s'.
Proof.
  destruct (uvm_roundtrip 0x80115000 two_pages _ _ 0 100 ltac:(by vm_compute) two_pages_ok ltac:(lia) ltac:(by vm_compute))
    as (r & s' & E & -> & _); [by intros va Hva _; apply two_pages_empty|].
  exists s'. exact E.
Defined.
End VmUser.
