(* ===== verification/CString.v ===== *)
(** Memory and string routines: src/xv6-public/string.c (kernel) and
    src/xv6-public/ulib.c (user library).

    [memset], [memmove] and their relatives work on a byte-addressed memory, a
    function from addresses to bytes.  The string functions read their
    arguments as sequences of bytes from a pointer ([cstr], a function of the
    offset), so that they apply to memory and to character arrays alike; those
    that write return the bytes they store at their destination. *)

From S2P Require Import Prelude.

Module CString.

(** ** Memory *)

Definition mem : Type := Z -> Z.
Definition mset (m : mem) (a v : Z) : mem := fun x => if decide (x = a) then v else m x.

(** The x86 string stores: [n] bytes, or [n] little-endian words. *)
Fixpoint stosb (m : mem) (a v : Z) (n : nat) : mem :=
  match n with
  | O => m
  | S n' => stosb (mset m a (u8 v)) (a + 1) v n'
  end.
Definition store32 (m : mem) (a w : Z) : mem :=
  mset (mset (mset (mset m a (u8 w)) (a + 1) (u8 (Z.shiftr w 8)))
       (a + 2) (u8 (Z.shiftr w 16))) (a + 3) (u8 (Z.shiftr w 24)).
Fixpoint stosl (m : mem) (a w : Z) (n : nat) : mem :=
  match n with
  | O => m
  | S n' => stosl (store32 m a w) (a + 4) w n'
  end.

Definition memset (m : mem) (dst c n : Z) : mem :=
  if bool_decide (Z.rem (i32 dst) 4 = 0) && bool_decide (n mod 4 = 0) then
    let c := Z.land c 255 in
    stosl m dst (Z.lor (Z.lor (Z.lor (Z.shiftl c 24) (Z.shiftl c 16)) (Z.shiftl c 8)) c)
          (Z.to_nat (n / 4))
  else stosb m dst c (Z.to_nat n).

Fixpoint memcmp (m : mem) (s1 s2 : Z) (n : nat) : Z :=
  match n with
  | O => 0
  | S n' => if decide (m s1 <> m s2) then m s1 - m s2 else memcmp m (s1 + 1) (s2 + 1) n'
  end.

(** [while(n-- > 0) *d++ = *s++] *)
Fixpoint copy_up (m : mem) (d s : Z) (n : nat) : mem :=
  match n with
  | O => m
  | S n' => copy_up (mset m d (m s)) (d + 1) (s + 1) n'
  end.
(** [while(n-- > 0) *--d = *--s] *)
Fixpoint copy_down (m : mem) (d s : Z) (n : nat) : mem :=
  match n with
  | O => m
  | S n' => copy_down (mset m (d - 1) (m (s - 1))) (d - 1) (s - 1) n'
  end.

Definition memmove (m : mem) (dst src n : Z) : mem :=
  if decide (src < dst /\ dst < src + n)
  then copy_down m (dst + n) (src + n) (Z.to_nat n)
  else copy_up m dst src (Z.to_nat n).

Definition memcpy (m : mem) (dst src n : Z) : mem := memmove m dst src n.

(** [memmove] of ulib.c *)
Definition umemmove (m : mem) (vdst vsrc n : Z) : mem := copy_up m vdst vsrc (Z.to_nat n).
(** [memset] of ulib.c *)
Definition umemset (m : mem) (dst c n : Z) : mem := stosb m dst c (Z.to_nat n).

(** ** Strings *)

Definition cstr : Type := nat -> Z.
(** A character array as the string functions read it. *)
Definition chars (l : list Z) : cstr := fun i => nth i l 0.
(** The string at an address. *)
Definition at_ptr (m : mem) (a : Z) : cstr := fun i => m (a + Z.of_nat i).
Definition tail (s : cstr) : cstr := fun i => s (S i).

Fixpoint strncmp (p q : cstr) (n : nat) : Z :=
  match n with
  | O => 0
  | S n' => if decide (p O <> 0 /\ p O = q O) then strncmp (tail p) (tail q) n'
            else p O - q O
  end.

(** [while(n-- > 0) *s++ = 0] *)
Definition zeros (n : nat) : list Z := replicate n 0.

Fixpoint strncpy (t : cstr) (n : nat) : list Z :=
  match n with
  | O => []
  | S n' => t O :: if decide (t O = 0) then zeros n' else strncpy (tail t) n'
  end.

(** The loop of [safestrcpy] with [k] = [n - 1] rounds, and the final [*s = 0]. *)
Fixpoint safestrcpy_loop (t : cstr) (k : nat) : list Z :=
  match k with
  | O => [0]
  | S k' => t O :: if decide (t O = 0) then [0] else safestrcpy_loop (tail t) k'
  end.
Definition safestrcpy (t : cstr) (n : Z) : list Z :=
  if decide (n <= 0) then [] else safestrcpy_loop t (Z.to_nat (n - 1)).

(** The loops below stop at the end of the string; [fuel] bounds their length. *)
Fixpoint strlen_from (s : cstr) (n fuel : nat) : option nat :=
  match fuel with
  | O => None
  | S f => if decide (s n = 0) then Some n else strlen_from s (S n) f
  end.
Definition strlen (s : cstr) (fuel : nat) : option nat := strlen_from s O fuel.

(** [strcpy] of ulib.c: the bytes stored, the terminator included. *)
Fixpoint strcpy (t : cstr) (fuel : nat) : option (list Z) :=
  match fuel with
  | O => None
  | S f => if decide (t O = 0) then Some [0]
           else match strcpy (tail t) f with Some l => Some (t O :: l) | None => None end
  end.

Fixpoint strcmp (p q : cstr) (fuel : nat) : option Z :=
  match fuel with
  | O => None
  | S f => if decide (p O <> 0 /\ p O = q O) then strcmp (tail p) (tail q) f
           else Some (p O - q O)
  end.

(** [strchr]: the offset of the character found, or no pointer. *)
Fixpoint strchr (s : cstr) (c : Z) (fuel : nat) : option (option nat) :=
  match fuel with
  | O => None
  | S f => if decide (s O = 0) then Some None
           else if decide (s O = c) then Some (Some O)
           else match strchr (tail s) c f with
                | Some (Some i) => Some (Some (S i))
                | r => r
                end
  end.

Definition is_digit (c : Z) : Prop := 48 <= c <= 57.
#[export] Instance is_digit_dec c : Decision (is_digit c).
Proof. unfold is_digit. apply _. Defined.

Fixpoint atoi_from (s : cstr) (n : Z) (fuel : nat) : option Z :=
  match fuel with
  | O => None
  | S f => if decide (is_digit (s O)) then atoi_from (tail s) (n * 10 + s O - 48) f else Some n
  end.
Definition atoi (s : cstr) (fuel : nat) : option Z := atoi_from s 0 fuel.

(** ** Copying *)

Lemma mset_eq m a v : mset m a v a = v.
Proof. unfold mset. by rewrite decide_True. Qed.
Lemma mset_ne m a v x : x <> a -> mset m a v x = m x.
Proof. intros. unfold mset. by rewrite decide_False. Qed.

Definition copied (m : mem) (dst src n : Z) : mem :=
  fun x => if decide (dst <= x < dst + n) then m (src + (x - dst)) else m x.

Lemma copy_up_ok n m d s : ~ (s < d < s + Z.of_nat n) ->
  forall x, copy_up m d s n x = copied m d s (Z.of_nat n) x.
Proof.
  revert m d s. induction n as [|n IH]; intros m d s Hov x.
  { unfold copied. simpl. rewrite decide_False by lia. done. }
  cbn [copy_up]. destruct (decide (d = s)) as [->|Hds].
  - rewrite IH by lia. unfold copied.
    assert (forall y, mset m s (m s) y = m y) as E.
    { intros y. unfold mset. case_decide; by subst. }
    rewrite !E. repeat case_decide; try lia; try done; f_equal; lia.
  - rewrite IH by lia. unfold copied.
    repeat case_decide; try lia; rewrite ?mset_ne by lia; try (f_equal; lia).
    replace x with d by lia. rewrite mset_eq. f_equal. lia.
Qed.

Lemma copy_down_ok n m d s : s < d ->
  forall x, copy_down m (d + Z.of_nat n) (s + Z.of_nat n) n x = copied m d s (Z.of_nat n) x.
Proof.
  intros Hds. revert m. induction n as [|n IH]; intros m x.
  { unfold copied. simpl. rewrite decide_False by lia. done. }
  cbn [copy_down]. replace (d + Z.of_nat (S n) - 1) with (d + Z.of_nat n) by lia.
  replace (s + Z.of_nat (S n) - 1) with (s + Z.of_nat n) by lia.
  rewrite IH. unfold copied.
  repeat case_decide; try lia; rewrite ?mset_ne by lia; try done.
  replace x with (d + Z.of_nat n) by lia. rewrite mset_eq. f_equal. lia.
Qed.

(** [memmove] copies as if through a temporary buffer, whatever the overlap
    of source and destination. *)
Theorem memmove_spec m dst src n : 0 <= n ->
  forall x, memmove m dst src n x =
    if decide (dst <= x < dst + n) then m (src + (x - dst)) else m x.
Proof.
  intros Hn x. unfold memmove. case_decide as Hov.
  - rewrite <- (Z2Nat.id n) at 1 2 by done. rewrite copy_down_ok by lia.
    unfold copied. by rewrite Z2Nat.id.
  - rewrite copy_up_ok by lia. unfold copied. by rewrite Z2Nat.id.
Qed.

Lemma memmove_spec_witness : memmove (fun x => x) 12 10 5 14 = 12.
Proof. rewrite (memmove_spec (fun x => x) 12 10 5); [done | lia]. Defined.

Lemma copy_up_below j m d s y : y < d -> copy_up m d s j y = m y.
Proof.
  revert m d s. induction j as [|j IH]; intros m d s Hy; [done|]. cbn [copy_up]. rewrite IH by lia.
  apply mset_ne. lia.
Qed.

Lemma copy_up_add j i m d s :
  copy_up m d s (j + i)%nat = copy_up (copy_up m d s j) (d + Z.of_nat j) (s + Z.of_nat j) i.
Proof.
  revert m d s. induction j as [|j IH]; intros m d s.
  - by rewrite !Z.add_0_r.
  - cbn [copy_up Nat.add]. rewrite IH.
    replace (d + Z.of_nat (S j)) with (d + 1 + Z.of_nat j) by lia.
    by replace (s + Z.of_nat (S j)) with (s + 1 + Z.of_nat j) by lia.
Qed.

(** The user library's [memmove] copies forwards only: when the destination
    begins inside the source, it differs from a copy through a temporary buffer
    on some memory. *)
Theorem umemmove_overlap dst src n : src < dst < src + n ->
  exists m x, umemmove m dst src n x <>
    if decide (dst <= x < dst + n) then m (src + (x - dst)) else m x.
Proof.
  intros H. exists (fun x => if decide (x = src) then 1 else 0), (dst + (dst - src)).
  assert (exists k, Z.to_nat n = (Z.to_nat (dst - src) + S k)%nat) as [k Hk].
  { exists (Z.to_nat n - Z.to_nat (dst - src) - 1)%nat. lia. }
  assert (exists j, Z.to_nat (dst - src) = S j) as [j Hj] by (exists (Z.to_nat (dst - src) - 1)%nat; lia).
  unfold umemmove. rewrite Hk, copy_up_add. cbn [copy_up].
  rewrite copy_up_below by lia. rewrite Z2Nat.id by lia. rewrite mset_eq.
  replace (src + (dst - src)) with dst by lia.
  rewrite (decide_True (P := dst <= _ < _)) by lia. rewrite (decide_False (P := src + _ = src)) by lia.
  rewrite Hj. cbn [copy_up]. rewrite copy_up_below by lia. by rewrite mset_eq, decide_True.
Qed.

Lemma umemmove_overlap_witness : exists m x, umemmove m 11 10 5 x <>
  if decide (11 <= x < 11 + 5) then m (10 + (x - 11)) else m x.
Proof. apply (umemmove_overlap 11 10 5). lia. Defined.

(** ** Filling *)

Lemma stosb_ok n m a v x :
  stosb m a v n x = if decide (a <= x < a + Z.of_nat n) then u8 v else m x.
Proof.
  revert m a. induction n as [|n IH]; intros m a.
  { simpl. by rewrite decide_False by lia. }
  cbn [stosb]. rewrite IH. unfold mset. repeat case_decide; try lia; done.
Qed.

Lemma stosl_ok n m a w b x : (forall k, 0 <= k < 4 -> u8 (Z.shiftr w (8 * k)) = b) ->
  stosl m a w n x = if decide (a <= x < a + 4 * Z.of_nat n) then b else m x.
Proof.
  intros Hb. assert (u8 w = b) as H0 by (rewrite <- (Hb 0) by lia; by rewrite Z.shiftr_0_r).
  pose proof (Hb 1 ltac:(lia)) as H1. pose proof (Hb 2 ltac:(lia)) as H2. pose proof (Hb 3 ltac:(lia)) as H3.
  change (8 * 1) with 8 in H1. change (8 * 2) with 16 in H2. change (8 * 3) with 24 in H3.
  revert m a. induction n as [|n IH]; intros m a.
  { simpl. by rewrite decide_False by lia. }
  cbn [stosl]. rewrite IH. unfold store32, mset. rewrite H0, H1, H2, H3.
  repeat case_decide; try lia; done.
Qed.

Lemma byte_word c k : 0 <= k < 4 -> let b := Z.land c 255 in
  u8 (Z.shiftr (Z.lor (Z.lor (Z.lor (Z.shiftl b 24) (Z.shiftl b 16)) (Z.shiftl b 8)) b) (8 * k)) = u8 c.
Proof.
  intros Hk b. unfold u8. rewrite <- !Z.land_ones by lia. apply Z.bits_inj'. intros i Hi.
  rewrite !Z.land_spec, Z.shiftr_spec, !Z.lor_spec by lia.
  destruct (decide (i < 8)) as [Hi8|Hi8].
  - rewrite (Z.ones_spec_low 8) by lia. rewrite !andb_true_r.
    rewrite !Z.shiftl_spec by lia. unfold b. change 255 with (Z.ones 8). rewrite !Z.land_spec.
    assert (forall j, Z.testbit c j && Z.testbit (Z.ones 8) j =
      if decide (0 <= j < 8) then Z.testbit c j else false) as F.
    { intros j. destruct (decide (j < 0)); [by rewrite Z.testbit_neg_r, decide_False by lia|].
      case_decide.
      - by rewrite Z.ones_spec_low, andb_true_r by lia.
      - by rewrite Z.ones_spec_high, andb_false_r by lia. }
    rewrite !F. repeat (case_decide; try lia); rewrite ?orb_false_r, ?orb_false_l;
      try (f_equal; lia); lia.
  - rewrite (Z.ones_spec_high 8) by lia. by rewrite !andb_false_r.
Qed.

(** [memset] stores the low byte of its argument at exactly the [n] bytes
    from [dst], also when it stores whole words. *)
Theorem memset_spec m dst c n : 0 <= n ->
  forall x, memset m dst c n x = if decide (dst <= x < dst + n) then u8 c else m x.
Proof.
  intros Hn x. unfold memset. destruct (bool_decide _ && bool_decide _) eqn:E.
  - apply andb_true_iff in E as [_ E%bool_decide_eq_true].
    rewrite (stosl_ok _ _ _ _ (u8 c)) by (intros k Hk; by apply (byte_word c k)).
    rewrite Z2Nat.id by (apply Z.div_pos; lia). rewrite <- Z_div_exact_full_2 by lia. done.
  - by rewrite stosb_ok, Z2Nat.id.
Qed.

Lemma memset_spec_witness : memset (fun _ => 9) 16 511 8 19 = 255.
Proof. rewrite (memset_spec (fun _ => 9) 16 511 8); [done | lia]. Defined.

(** ** Strings *)

(** The characters of [s], at most [n] of them, up to its terminator. *)
Fixpoint upto (s : cstr) (n : nat) : list Z :=
  match n with
  | O => []
  | S n' => if decide (s O = 0) then [] else s O :: upto (tail s) n'
  end.

Lemma upto_length s n : (length (upto s n) <= n)%nat.
Proof. revert s. induction n as [|n IH]; intros s; simpl; [done|]. case_decide; simpl; [lia|]. specialize (IH (tail s)). lia. Qed.

Lemma upto_nonzero s n : Forall (fun c => c <> 0) (upto s n).
Proof. revert s. induction n as [|n IH]; intros s; simpl; [done|]. case_decide; constructor; auto. Qed.

Lemma upto_ext s t n : (forall i, (i < n)%nat -> s i = t i) -> upto s n = upto t n.
Proof.
  revert s t. induction n as [|n IH]; intros s t E; [done|]. simpl. rewrite (E O) by lia.
  case_decide; [done|]. f_equal. apply IH. intros i Hi. apply E. lia.
Qed.

Lemma strncmp_upto p q n : strncmp p q n = 0 <-> upto p n = upto q n.
Proof.
  revert p q. induction n as [|n IH]; intros p q; [done|]. simpl.
  destruct (decide (p O <> 0 /\ p O = q O)) as [[Hp Hq]|Hn].
  - rewrite IH, !decide_False by congruence. rewrite Hq. split; [by intros -> | by intros [= ->]].
  - destruct (decide (p O = 0)), (decide (q O = 0)); split; intros H; try done; try lia.
    + injection H as H. tauto.
Qed.

Lemma strncpy_upto t n : strncpy t n = upto t n ++ zeros (n - length (upto t n)).
Proof.
  revert t. induction n as [|n IH]; intros t; [done|]. simpl. case_decide as H; simpl.
  - by rewrite H.
  - by rewrite IH.
Qed.

Lemma upto_chars_app l r n : Forall (fun c => c <> 0) l -> (length l <= n)%nat ->
  upto (chars (l ++ zeros (S r))) n = l.
Proof.
  revert n. induction l as [|c l IH]; intros n Hl Hn.
  - destruct n; [done|]. simpl. done.
  - apply Forall_cons in Hl as [Hc Hl]. destruct n as [|n]; [simpl in Hn; lia|]. simpl.
    rewrite decide_False by done. f_equal. apply IH; [done | simpl in Hn; lia].
Qed.

Lemma safestrcpy_loop_upto t k : exists r, (length (upto t k) + S r <= S k)%nat /\
  safestrcpy_loop t k = upto t k ++ zeros (S r).
Proof.
  revert t. induction k as [|k IH]; intros t.
  { exists O. done. }
  simpl. case_decide as H.
  - exists 1%nat. rewrite H. split; [simpl; lia | done].
  - destruct (IH (tail t)) as (r & Hr & E). exists r. rewrite E. split; [simpl; lia | done].
Qed.

(** [strncmp] compares strings: it returns 0 exactly when the two strings,
    cut at [n] characters, are the same; and a name written with [strncpy] into a
    field of [n] bytes compares equal to the name it was copied from. *)
Theorem strncmp_strncpy p q n :
  (strncmp p q n = 0 <-> upto p n = upto q n) /\
  length (strncpy q n) = n /\ strncmp p (chars (strncpy q n)) n = strncmp p q n.
Proof.
  split; [apply strncmp_upto|]. split.
  { rewrite strncpy_upto, length_app. unfold zeros. rewrite length_replicate.
    pose proof (upto_length q n). lia. }
  revert p q. induction n as [|n IH]; intros p q; [done|]. simpl.
  change (chars (q O :: ?x) O) with (q O).
  case_decide as H; [|done].
  rewrite decide_False by (destruct H; congruence). apply (IH (tail p) (tail q)).
Qed.

(** [safestrcpy] with a positive size writes at most that many bytes, ends
    them with a terminator, and what it wrote reads back as the source cut at
    [n - 1] characters. *)
Theorem safestrcpy_spec t n : 0 < n ->
  (length (safestrcpy t n) <= Z.to_nat n)%nat /\ last (safestrcpy t n) = Some 0 /\
  upto (chars (safestrcpy t n)) (Z.to_nat n) = upto t (Z.to_nat (n - 1)).
Proof.
  intros Hn. unfold safestrcpy. rewrite decide_False by lia.
  destruct (safestrcpy_loop_upto t (Z.to_nat (n - 1))) as (r & Hr & E). rewrite E.
  split_and!.
  - rewrite length_app. unfold zeros. rewrite length_replicate. lia.
  - unfold zeros. rewrite replicate_S_end, app_assoc. apply last_snoc.
  - apply upto_chars_app; [apply upto_nonzero|]. lia.
Qed.

Lemma safestrcpy_spec_witness :
  safestrcpy (chars [115; 104; 0]) 16 = [115; 104; 0; 0] /\ 
  upto (chars (safestrcpy (chars [115; 104; 0]) 16)) 16 = [115; 104].
Proof.
  split; [done|]. destruct (safestrcpy_spec (chars [115; 104; 0]) 16) as (_ & _ & E); [lia|].
  etransitivity; [exact E | done].
Defined.

End CString.
