(* ===== verification/Proc.v ===== *)
(** Processes and threads: src/xv6-public/proc.c and proc.h.

    The state is the process table with the globals of proc.c, over the state [R]
    of the rest of the kernel, whose operations proc.c calls through the
    interface [ProcEnv].  A function runs on behalf of process [me], the index of
    [myproc()] in the table.  [ptable.lock] is held by the caller's CPU or free;
    waiting for another CPU is not a state of its own, a critical section being
    one step.  A function that gives up the CPU ends a segment there: [sched] has
    put the process in its new state, and what is left happens when the
    scheduler runs it again.

    The code is compiled without optimisation (-O0), so that signed arithmetic wraps:
    the counters of shares, which one system call can overflow, are kept at
    their width ([i32]).  The identifiers [nextpid] and [nextlwpid] overflow only after [2^31] calls, and
    the model stops there, with [Undefined]. *)

From S2P Require Import Prelude Bytes CString Kalloc.

Module Proc.

Definition NPROC : nat := 64.
Definition NOFILE : nat := 16.
Definition NSTACK : nat := NPROC * 50.
Definition KSTACKSIZE : Z := 4096.
Definition SEG_UCODE : Z := 3.
Definition SEG_UDATA : Z := 4.
Definition DPL_USER : Z := 3.
Definition FL_IF : Z := 0x200.

Inductive procstate := UNUSED | EMBRYO | SLEEPING | RUNNABLE | RUNNING | ZOMBIE.
Inductive sched_mode := STRD_SCHED | STRD_SET_SCHED | MLFQ_SCHED.
Inductive mlfq_lev := TOP | MID | LOW.

#[export] Instance procstate_dec : EqDecision procstate.
Proof. solve_decision. Defined.
#[export] Instance sched_mode_dec : EqDecision sched_mode.
Proof. solve_decision. Defined.
#[export] Instance mlfq_lev_dec : EqDecision mlfq_lev.
Proof. solve_decision. Defined.

Record proc_strd := MkStrd { pass : Z; stride : Z; share : Z }.
Record proc_mlfq := MkMlfq { tick : Z; lev : mlfq_lev; priority : Z }.
Record proc_mlfqs := MkMlfqs {
  mpass : Z;
  mstride : Z;
  mshare : Z;
  totaltick : Z;
  topn : Z;
  midn : Z;
  lown : Z
}.

(** The fields of [struct trapframe] the kernel sets, and the other registers. *)
Record trapframe := MkTf {
  tcs : Z;
  tds : Z;
  tes : Z;
  tss : Z;
  teflags : Z;
  tesp : Z;
  teip : Z;
  teax : Z;
  tregs : list Z
}.
Definition tf0 : trapframe := MkTf 0 0 0 0 0 0 0 0 (replicate 9 0).

(** Who called [sleep]: the loops of [wait], [exit] and [thread_join] with
    [ptable.lock] held, or code with another lock. *)
Inductive kcont := K_other | K_wait | K_exit | K_join (thread retp : Z).

(** Where a process continues when the scheduler runs it: the saved context. *)
Inductive kcode := C_none | C_forkret | C_yield | C_sleep (k : kcont) | C_zombie.

#[export] Instance kcont_dec : EqDecision kcont.
Proof. solve_decision. Defined.

(** The fields added for threads. *)
Record lwp := MkLwp {
  lwpid : Z;
  lwppid : Z;
  retval : Z;
  sbase : Z;
  snum : Z;
  forked : bool
}.
Definition lwp0 : lwp := MkLwp 0 0 0 0 0 false.

(** [struct proc].  A null pointer is [None] for processes and 0 for the others;
    the trap frame and the context, which live on the kernel stack, are values. *)
Record proc := MkProc {
  sz : Z;
  pgdir : Z;
  kstack : Z;
  state : procstate;
  pid : Z;
  parent : option nat;
  tf : trapframe;
  context : kcode;
  chan : kaddr;
  killed : bool;
  ofile : list Z;
  cwd : Z;
  name : list Z;
  mode : sched_mode;
  strd : proc_strd;
  mlfq : proc_mlfq;
  thr : lwp
}.

Definition strd0 : proc_strd := MkStrd 0 0 0.
Definition mlfq0 : proc_mlfq := MkMlfq 0 TOP 0.
Definition proc0 : proc :=
  MkProc 0 0 0 UNUSED 0 None tf0 C_none A_null false (replicate NOFILE 0) 0 (replicate 16 0)
         STRD_SCHED strd0 mlfq0 lwp0.

(** Updates of one field. *)
Definition set_sz (v : Z) (p : proc) : proc :=
  MkProc v (pgdir p) (kstack p) (state p) (pid p) (parent p) (tf p) (context p) (chan p) (killed p) (ofile p) (cwd p) (name p) (mode p) (strd p) (mlfq p) (thr p).
Definition set_pgdir (v : Z) (p : proc) : proc :=
  MkProc (sz p) v (kstack p) (state p) (pid p) (parent p) (tf p) (context p) (chan p) (killed p) (ofile p) (cwd p) (name p) (mode p) (strd p) (mlfq p) (thr p).
Definition set_kstack (v : Z) (p : proc) : proc :=
  MkProc (sz p) (pgdir p) v (state p) (pid p) (parent p) (tf p) (context p) (chan p) (killed p) (ofile p) (cwd p) (name p) (mode p) (strd p) (mlfq p) (thr p).
Definition set_state (v : procstate) (p : proc) : proc :=
  MkProc (sz p) (pgdir p) (kstack p) v (pid p) (parent p) (tf p) (context p) (chan p) (killed p) (ofile p) (cwd p) (name p) (mode p) (strd p) (mlfq p) (thr p).
Definition set_pid (v : Z) (p : proc) : proc :=
  MkProc (sz p) (pgdir p) (kstack p) (state p) v (parent p) (tf p) (context p) (chan p) (killed p) (ofile p) (cwd p) (name p) (mode p) (strd p) (mlfq p) (thr p).
Definition set_parent (v : option nat) (p : proc) : proc :=
  MkProc (sz p) (pgdir p) (kstack p) (state p) (pid p) v (tf p) (context p) (chan p) (killed p) (ofile p) (cwd p) (name p) (mode p) (strd p) (mlfq p) (thr p).
Definition set_tf (v : trapframe) (p : proc) : proc :=
  MkProc (sz p) (pgdir p) (kstack p) (state p) (pid p) (parent p) v (context p) (chan p) (killed p) (ofile p) (cwd p) (name p) (mode p) (strd p) (mlfq p) (thr p).
Definition set_context (v : kcode) (p : proc) : proc :=
  MkProc (sz p) (pgdir p) (kstack p) (state p) (pid p) (parent p) (tf p) v (chan p) (killed p) (ofile p) (cwd p) (name p) (mode p) (strd p) (mlfq p) (thr p).
Definition set_chan (v : kaddr) (p : proc) : proc :=
  MkProc (sz p) (pgdir p) (kstack p) (state p) (pid p) (parent p) (tf p) (context p) v (killed p) (ofile p) (cwd p) (name p) (mode p) (strd p) (mlfq p) (thr p).
Definition set_killed (v : bool) (p : proc) : proc :=
  MkProc (sz p) (pgdir p) (kstack p) (state p) (pid p) (parent p) (tf p) (context p) (chan p) v (ofile p) (cwd p) (name p) (mode p) (strd p) (mlfq p) (thr p).
Definition set_ofile (v : list Z) (p : proc) : proc :=
  MkProc (sz p) (pgdir p) (kstack p) (state p) (pid p) (parent p) (tf p) (context p) (chan p) (killed p) v (cwd p) (name p) (mode p) (strd p) (mlfq p) (thr p).
Definition set_cwd (v : Z) (p : proc) : proc :=
  MkProc (sz p) (pgdir p) (kstack p) (state p) (pid p) (parent p) (tf p) (context p) (chan p) (killed p) (ofile p) v (name p) (mode p) (strd p) (mlfq p) (thr p).
Definition set_name (v : list Z) (p : proc) : proc :=
  MkProc (sz p) (pgdir p) (kstack p) (state p) (pid p) (parent p) (tf p) (context p) (chan p) (killed p) (ofile p) (cwd p) v (mode p) (strd p) (mlfq p) (thr p).
Definition set_mode (v : sched_mode) (p : proc) : proc :=
  MkProc (sz p) (pgdir p) (kstack p) (state p) (pid p) (parent p) (tf p) (context p) (chan p) (killed p) (ofile p) (cwd p) (name p) v (strd p) (mlfq p) (thr p).
Definition set_strd (v : proc_strd) (p : proc) : proc :=
  MkProc (sz p) (pgdir p) (kstack p) (state p) (pid p) (parent p) (tf p) (context p) (chan p) (killed p) (ofile p) (cwd p) (name p) (mode p) v (mlfq p) (thr p).
Definition set_mlfq (v : proc_mlfq) (p : proc) : proc :=
  MkProc (sz p) (pgdir p) (kstack p) (state p) (pid p) (parent p) (tf p) (context p) (chan p) (killed p) (ofile p) (cwd p) (name p) (mode p) (strd p) v (thr p).
Definition set_thr (v : lwp) (p : proc) : proc :=
  MkProc (sz p) (pgdir p) (kstack p) (state p) (pid p) (parent p) (tf p) (context p) (chan p) (killed p) (ofile p) (cwd p) (name p) (mode p) (strd p) (mlfq p) v.

(** The globals of proc.c, and the rest of the kernel. *)
Record pstate (R : Type) := MkP {
  plocked : bool;
  procs : list proc;
  initproc : option nat;
  nextpid : Z;
  nextlwpid : Z;
  num_lwp : Z;
  strd_share_sum : Z;
  strd_sum : Z;
  mlfqs : proc_mlfqs;
  stable : list bool;
  first : bool;
  env : R
}.
Arguments MkP {R} plocked procs initproc nextpid nextlwpid num_lwp strd_share_sum strd_sum mlfqs stable first env.
Arguments plocked {R} p.
Arguments procs {R} p.
Arguments initproc {R} p.
Arguments nextpid {R} p.
Arguments nextlwpid {R} p.
Arguments num_lwp {R} p.
Arguments strd_share_sum {R} p.
Arguments strd_sum {R} p.
Arguments mlfqs {R} p.
Arguments stable {R} p.
Arguments first {R} p.
Arguments env {R} p.
Definition with_plocked {R} (v : bool) (s : pstate R) : pstate R :=
  MkP v (procs s) (initproc s) (nextpid s) (nextlwpid s) (num_lwp s) (strd_share_sum s) (strd_sum s) (mlfqs s) (stable s) (first s) (env s).
Definition with_procs {R} (v : list proc) (s : pstate R) : pstate R :=
  MkP (plocked s) v (initproc s) (nextpid s) (nextlwpid s) (num_lwp s) (strd_share_sum s) (strd_sum s) (mlfqs s) (stable s) (first s) (env s).
Definition with_initproc {R} (v : option nat) (s : pstate R) : pstate R :=
  MkP (plocked s) (procs s) v (nextpid s) (nextlwpid s) (num_lwp s) (strd_share_sum s) (strd_sum s) (mlfqs s) (stable s) (first s) (env s).
Definition with_nextpid {R} (v : Z) (s : pstate R) : pstate R :=
  MkP (plocked s) (procs s) (initproc s) v (nextlwpid s) (num_lwp s) (strd_share_sum s) (strd_sum s) (mlfqs s) (stable s) (first s) (env s).
Definition with_nextlwpid {R} (v : Z) (s : pstate R) : pstate R :=
  MkP (plocked s) (procs s) (initproc s) (nextpid s) v (num_lwp s) (strd_share_sum s) (strd_sum s) (mlfqs s) (stable s) (first s) (env s).
Definition with_num_lwp {R} (v : Z) (s : pstate R) : pstate R :=
  MkP (plocked s) (procs s) (initproc s) (nextpid s) (nextlwpid s) v (strd_share_sum s) (strd_sum s) (mlfqs s) (stable s) (first s) (env s).
Definition with_strd_share_sum {R} (v : Z) (s : pstate R) : pstate R :=
  MkP (plocked s) (procs s) (initproc s) (nextpid s) (nextlwpid s) (num_lwp s) v (strd_sum s) (mlfqs s) (stable s) (first s) (env s).
Definition with_strd_sum {R} (v : Z) (s : pstate R) : pstate R :=
  MkP (plocked s) (procs s) (initproc s) (nextpid s) (nextlwpid s) (num_lwp s) (strd_share_sum s) v (mlfqs s) (stable s) (first s) (env s).
Definition with_mlfqs {R} (v : proc_mlfqs) (s : pstate R) : pstate R :=
  MkP (plocked s) (procs s) (initproc s) (nextpid s) (nextlwpid s) (num_lwp s) (strd_share_sum s) (strd_sum s) v (stable s) (first s) (env s).
Definition with_stable {R} (v : list bool) (s : pstate R) : pstate R :=
  MkP (plocked s) (procs s) (initproc s) (nextpid s) (nextlwpid s) (num_lwp s) (strd_share_sum s) (strd_sum s) (mlfqs s) v (first s) (env s).
Definition with_first {R} (v : bool) (s : pstate R) : pstate R :=
  MkP (plocked s) (procs s) (initproc s) (nextpid s) (nextlwpid s) (num_lwp s) (strd_share_sum s) (strd_sum s) (mlfqs s) (stable s) v (env s).
Definition with_env {R} (v : R) (s : pstate R) : pstate R :=
  MkP (plocked s) (procs s) (initproc s) (nextpid s) (nextlwpid s) (num_lwp s) (strd_share_sum s) (strd_sum s) (mlfqs s) (stable s) (first s) v.

(** What proc.c needs of the rest of the kernel.  Pointers are addresses, 0 for
    null.  [drain] yields the channels on which the kernel has called [wakeup]
    since it was last asked. *)
Class ProcEnv (R : Type) := {
  kalloc : M R Z;
  kfree : Z -> M R unit;
  setupkvm : M R Z;
  inituvm : Z -> M R unit;
  copyuvm : Z -> Z -> M R Z;
  allocuvm : Z -> Z -> Z -> M R Z;
  deallocuvm : Z -> Z -> Z -> M R Z;
  freevm : Z -> M R unit;
  ustore : Z -> Z -> M R unit;       (** a store through a user pointer *)
  filedup : Z -> M R Z;
  fileclose : Z -> M R unit;
  idup : Z -> M R Z;
  iput : Z -> M R unit;
  namei : list Z -> M R Z;
  begin_op : M R unit;
  end_op : M R unit;
  iinit : M R unit;
  initlog : M R unit;
  drain : R -> list kaddr * R
}.

Section ops.
Context {R : Type} `{ProcEnv R}.
Notation P := (M (pstate R)).

Definition acquire : P unit :=
  let! l := gets plocked in
  if (l : bool) then panic "acquire" else modify (with_plocked true).
Definition release : P unit :=
  let! l := gets plocked in
  if (l : bool) then modify (with_plocked false) else panic "release".

(** [ptable.proc[i]] *)
Definition getp (s : pstate R) (i : nat) : proc := nth i (procs s) proc0.
Definition proc_at (i : nat) : P proc := gets (fun s => getp s i).
Definition put (i : nat) (p : proc) (s : pstate R) : pstate R := with_procs (<[i := p]> (procs s)) s.
Definition upd_proc (i : nat) (f : proc -> proc) : P unit :=
  modify (fun s => put i (f (getp s i)) s).
Definition all_procs : list nat := seq 0 NPROC.

(** Wake up all processes sleeping on [c]; the lock must be held. *)
Definition wakeup1 (c : kaddr) : P unit :=
  forM all_procs (fun i =>
    let! p := proc_at i in
    if decide (state p = SLEEPING /\ chan p = c) then upd_proc i (set_state RUNNABLE) else ret tt).
Definition wakeup (c : kaddr) : P unit := acquire ;;; wakeup1 c ;;; release.

(** A call into the rest of the kernel, with the wake-ups it makes. *)
Definition call {A} (m : M R A) : P A :=
  let! a := zoom env with_env m in
  let! ws := (fun s => let '(ws, r) := drain (env s) in Ret ws (with_env r s)) in
  forM ws wakeup ;;;
  ret a.

(** ** Processes *)

(** The first process satisfying a test, in the order of the table. *)
Definition find_proc (f : proc -> bool) (s : pstate R) : option nat :=
  List.find (fun i => f (getp s i)) all_procs.

Definition is_state (st : procstate) (p : proc) : bool := bool_decide (state p = st).

(** What [allocproc] sets in the slot it found. *)
Definition init_proc (n : Z) (p : proc) : proc :=
  set_thr lwp0 (set_mode STRD_SCHED (set_mlfq mlfq0 (set_strd strd0 (set_pid n (set_state EMBRYO p))))).

(** [n++] of an identifier, whose overflow is undefined. *)
Definition succ_id (n : Z) : P Z := if decide (n + 1 < 2 ^ 31) then ret (n + 1) else stop_with Undefined.

Definition allocproc : P (option nat) :=
  acquire ;;;
  let! r := gets (find_proc (is_state UNUSED)) in
  match r with
  | None => release ;;; ret None
  | Some i =>
      let! n := gets nextpid in
      let! n' := succ_id n in
      modify (with_nextpid n') ;;;
      upd_proc i (init_proc n) ;;;
      release ;;;
      let! k := call kalloc in
      upd_proc i (set_kstack k) ;;;
      if decide (k = 0) then upd_proc i (set_state UNUSED) ;;; ret None else
      upd_proc i (fun p => set_context C_forkret p) ;;;
      ret (Some i)
  end.

Definition upd_tf (f : trapframe -> trapframe) (p : proc) : proc := set_tf (f (tf p)) p.
Definition upd_thr (f : lwp -> lwp) (p : proc) : proc := set_thr (f (thr p)) p.

(** The trap frame of the first process. *)
Definition init_tf : trapframe :=
  let ds := Z.lor (Z.shiftl SEG_UDATA 3) DPL_USER in
  MkTf (Z.lor (Z.shiftl SEG_UCODE 3) DPL_USER) ds ds ds FL_IF PGSIZE 0 0 (replicate 9 0).

(** [safestrcpy(p->name, l, sizeof(p->name))] *)
Definition copy_name (l : list Z) (p : proc) : proc :=
  set_name (blit 0 (CString.safestrcpy (CString.chars l) 16) (name p)) p.

Definition initcode : list Z := [105; 110; 105; 116; 99; 111; 100; 101; 0].

Definition userinit : P unit :=
  let! r := allocproc in
  match r with
  | None => stop_with Undefined
  | Some i =>
      modify (with_initproc (Some i)) ;;;
      let! d := call setupkvm in
      upd_proc i (set_pgdir d) ;;;
      (if decide (d = 0) then panic "userinit: out of memory?" else ret tt) ;;;
      call (inituvm d) ;;;
      upd_proc i (fun p => set_tf init_tf (set_sz PGSIZE p)) ;;;
      upd_proc i (copy_name initcode) ;;;
      let! c := call (namei [47]) in
      upd_proc i (set_cwd c) ;;;
      acquire ;;;
      upd_proc i (set_state RUNNABLE) ;;;
      release ;;;
      modify (with_mlfqs (MkMlfqs 0 0 0 0 0 0 0)) ;;;
      modify (with_stable (replicate NSTACK false))
  end.

(** [switchuvm]; the registers it loads are not part of the state. *)
Definition switchuvm (i : nat) : P unit :=
  let! p := proc_at i in
  if decide (kstack p = 0) then panic "switchuvm: no kstack" else
  if decide (pgdir p = 0) then panic "switchuvm: no pgdir" else ret tt.

(** The first free thread stack; [p->snum] remembers it. *)
Definition get_base (i : nat) : P Z :=
  let! st := gets stable in
  match list_find (fun u : bool => u = false) st with
  | Some (k, _) =>
      modify (with_stable (<[k := true]> st)) ;;;
      upd_proc i (upd_thr (fun t => MkLwp (lwpid t) (lwppid t) (retval t) (sbase t) (Z.of_nat k) (forked t))) ;;;
      ret (Z.of_nat k)
  | None => panic "get_base() panic"
  end.

(** The owner of the size: the process itself, or the parent of a thread. *)
Definition size_owner (me : nat) : P nat :=
  let! p := proc_at me in
  if decide (0 < lwpid (thr p)) then
    match parent p with Some q => ret q | None => stop_with Undefined end
  else ret me.

Definition growproc (me : nat) (n : Z) : P Z :=
  acquire ;;;
  forM (seq 0 (Z.to_nat (Z.quot n (2 * PGSIZE)))) (fun _ => let! _ := get_base me in ret tt) ;;;
  let! o := size_owner me in
  let! p := proc_at me in
  let! size := gets (fun s => sz (getp s o)) in
  let! size' := (if decide (0 < n) then call (allocuvm (pgdir p) size (u32 (size + n)))
                 else if decide (n < 0) then call (deallocuvm (pgdir p) size (u32 (size + n)))
                 else ret size) in
  if decide (n <> 0 /\ size' = 0) then ret (-1) else
  upd_proc o (set_sz size') ;;;
  release ;;;
  switchuvm me ;;;
  ret 0.

(** [for(i..) if(curproc->ofile[i]) np->ofile[i] = filedup(curproc->ofile[i])] *)
Definition dup_files (me np : nat) : P unit :=
  forM (seq 0 NOFILE) (fun i =>
    let! p := proc_at me in
    let f := nth i (ofile p) 0 in
    if decide (f = 0) then ret tt else
    let! g := call (filedup f) in
    upd_proc np (fun q => set_ofile (<[i := g]> (ofile q)) q)).

Definition set_eax (v : Z) (t : trapframe) : trapframe :=
  MkTf (tcs t) (tds t) (tes t) (tss t) (teflags t) (tesp t) (teip t) v (tregs t).
Definition set_esp (v : Z) (t : trapframe) : trapframe :=
  MkTf (tcs t) (tds t) (tes t) (tss t) (teflags t) v (teip t) (teax t) (tregs t).
Definition set_eip (v : Z) (t : trapframe) : trapframe :=
  MkTf (tcs t) (tds t) (tes t) (tss t) (teflags t) (tesp t) v (teax t) (tregs t).

(** [nextlwpid++] *)
Definition new_lwpid : P Z :=
  let! n := gets nextlwpid in
  let! n' := succ_id n in
  modify (with_nextlwpid n') ;;;
  ret n.

Definition fork (me : nat) : P Z :=
  let! r := allocproc in
  match r with
  | None => ret (-1)
  | Some np =>
      let! p := proc_at me in
      (if decide (0 < lwpid (thr p)) then
         let! n := new_lwpid in
         upd_proc np (upd_thr (fun t => MkLwp n (lwppid t) (retval t) (sbase t) (snum t) true))
       else ret tt) ;;;
      let! d := call (copyuvm (pgdir p) (sz p)) in
      upd_proc np (set_pgdir d) ;;;
      if decide (d = 0) then
        let! q := proc_at np in
        call (kfree (kstack q)) ;;;
        upd_proc np (fun q => set_state UNUSED (set_kstack 0 q)) ;;;
        ret (-1)
      else
        upd_proc np (fun q => set_parent (Some me) (set_sz (sz p) q)) ;;;
        upd_proc np (set_tf (set_eax 0 (tf p))) ;;;
        dup_files me np ;;;
        let! c := call (idup (cwd p)) in
        upd_proc np (set_cwd c) ;;;
        upd_proc np (copy_name (name p)) ;;;
        let! q := proc_at np in
        acquire ;;;
        upd_proc np (set_state RUNNABLE) ;;;
        release ;;;
        ret (pid q)
  end.

(** ** Giving up the CPU *)

(** Whether the interrupt flag is set, when [pushcli] has been called [ncli] times more than [popcli]: it clears the flag. *)
Definition interruptible (ncli : Z) : bool := bool_decide (ncli <= 0).

(** The checks of [sched], [ncli] being the number of spin locks the CPU holds; then [swtch] saves where the process is, [k], and the
    scheduler takes over.  In the code the CPU keeps [ptable.lock] until the next switch; here the scheduler
    takes the lock again when it goes on, so that other CPUs may run between. *)
Definition sched (me : nat) (ncli : Z) (k : kcode) : P unit :=
  let! l := gets plocked in
  if negb l then panic "sched ptable.lock" else
  if decide (ncli <> 1) then panic "sched locks" else
  let! p := proc_at me in
  if decide (state p = RUNNING) then panic "sched running" else
  if interruptible ncli then panic "sched interruptible" else
  upd_proc me (set_context k) ;;;
  modify (with_plocked false).

(** [yield], which is called without spin locks. *)
Definition yield (me : nat) : P unit :=
  acquire ;;;
  upd_proc me (set_state RUNNABLE) ;;;
  sched me 1 C_yield.

(** [sleep(chan, lk)] up to the switch, called from [k] with [held] spin locks besides [ptable.lock].  If [lk] is not
    [ptable.lock], it is one of them: [ptable.lock] is taken and [lk] released. *)
Definition sleep (me : nat) (c : kaddr) (k : kcont) (held : Z) : P unit :=
  let! held := (match k with
                | K_other => acquire ;;; (if decide (held < 1) then panic "release" else ret (held - 1))
                | _ => ret held
                end) in
  upd_proc me (fun p => set_state SLEEPING (set_chan c p)) ;;;
  sched me (1 + held) (C_sleep k).

(** One visit of the scheduler's loop to slot [i]: whether it runs the process. *)
Definition scheduler_visit (i : nat) : P bool :=
  let! p := proc_at i in
  if decide (state p <> RUNNABLE) then ret false else
  switchuvm i ;;;
  upd_proc i (set_state RUNNING) ;;;
  ret true.

(** The first code of a new process. *)
Definition forkret : P unit :=
  release ;;;
  let! f := gets first in
  if (f : bool) then
    modify (with_first false) ;;;
    call iinit ;;;
    call initlog
  else ret tt.

(** ** Ending *)

(** Reset of a slot, as [wait] does it. *)
Definition clear_proc (p : proc) : proc :=
  set_state UNUSED (set_killed false (set_name (<[0%nat := 0]> (name p)) (set_parent None (set_pid 0 p)))).

(** Reset of a thread's slot, as [exit] and [thread_join] do it. *)
Definition clear_lwp (p : proc) : proc := set_thr lwp0 (clear_proc p).

(** The address of a process, as a channel. *)
Definition chan_of (o : option nat) : kaddr := match o with Some i => A_proc i | None => A_null end.

(** One pass of the first loop of [exit] over the table, for slot [i]. *)
Definition exit_reap (me i : nat) : P unit :=
  let! m := proc_at me in
  let! p := proc_at i in
  if decide (lwppid (thr p) <> pid m) then ret tt else
  if decide (state p = ZOMBIE) then
    call (kfree (kstack p)) ;;;
    upd_proc i (set_kstack 0) ;;;
    let! _ := call (deallocuvm (pgdir p) (u32 (sbase (thr p) + 2 * PGSIZE)) (sbase (thr p))) in
    upd_proc i clear_lwp ;;;
    modify (fun s => with_num_lwp (i32 (num_lwp s - 1)) s)
  else
    upd_proc i (set_killed true) ;;;
    wakeup1 (A_proc i).

(** One round of the loop, with [ptable.lock] held: all threads are gone, or the
    process sleeps. *)
Definition exit_round (me : nat) : P (segment unit unit) :=
  forM all_procs (exit_reap me) ;;;
  let! n := gets num_lwp in
  if decide (n = 0) then release ;;; ret (Done tt)
  else sleep me (A_proc me) K_exit 0 ;;; ret (Blocked (A_proc me) tt).

(** [for(fd..) if(curproc->ofile[fd]) { fileclose(..); curproc->ofile[fd] = 0; }] *)
Definition close_files (me : nat) : P unit :=
  forM (seq 0 NOFILE) (fun fd =>
    let! p := proc_at me in
    let f := nth fd (ofile p) 0 in
    if decide (f = 0) then ret tt else
    call (fileclose f) ;;;
    upd_proc me (fun q => set_ofile (<[fd := 0]> (ofile q)) q)).

Definition put_cwd (me : nat) : P unit :=
  call begin_op ;;;
  let! p := proc_at me in
  call (iput (cwd p)) ;;;
  call end_op ;;;
  upd_proc me (set_cwd 0).

(** Passing a child of [me] to [init]. *)
Definition reparent (me i : nat) : P unit :=
  let! p := proc_at i in
  if decide (parent p = Some me) then
    let! ini := gets initproc in
    upd_proc i (set_parent ini) ;;;
    let! p := proc_at i in
    if decide (state p = ZOMBIE) then wakeup1 (chan_of ini) else ret tt
  else ret tt.

(** The critical section at the end of [exit]. *)
Definition exit_finish (me : nat) : P unit :=
  acquire ;;;
  let! p := proc_at me in
  (if decide (lwpid (thr p) = 0) then wakeup1 (chan_of (parent p))
   else if decide (parent p <> None) then wakeup1 (chan_of (parent p)) else ret tt) ;;;
  (if decide (mode p = STRD_SET_SCHED) then
     modify (fun s => with_strd_share_sum (i32 (strd_share_sum s - share (strd p)))
                        (with_strd_sum (i32 (strd_sum s + share (strd p))) s))
   else ret tt) ;;;
  forM all_procs (reparent me) ;;;
  upd_proc me (set_state ZOMBIE) ;;;
  sched me 1 C_zombie.

Definition exit_rest (me : nat) : P unit :=
  close_files me ;;;
  put_cwd me ;;;
  exit_finish me.

(** [exit] from the wake-up in its loop. *)
Definition exit_again (me : nat) : P (segment unit unit) :=
  let! r := exit_round me in
  match r with
  | Done _ => exit_rest me ;;; ret (Done tt)
  | Blocked c k => ret (Blocked c k)
  end.

Definition exit (me : nat) : P (segment unit unit) :=
  let! ini := gets initproc in
  if decide (ini = Some me) then panic "init exiting" else
  let! p := proc_at me in
  if decide (lwpid (thr p) = 0) then
    upd_proc me (set_killed true) ;;;
    acquire ;;;
    exit_again me
  else
    (if forked (thr p) then ret tt
     else match parent p with
          | Some q => upd_proc q (set_killed true)
          | None => stop_with Undefined
          end) ;;;
    exit_rest me ;;;
    ret (Done tt).

(** The first child, in the order of the table, that is a zombie, and whether there
    are children at all. *)
Definition is_child (me : nat) (p : proc) : bool := bool_decide (parent p = Some me).

(** One round of the loop of [wait], with the lock held. *)
Definition wait_round (me : nat) : P (segment unit Z) :=
  let! z := gets (find_proc (fun p => is_child me p && is_state ZOMBIE p)) in
  match z with
  | Some i =>
      let! p := proc_at i in
      call (kfree (kstack p)) ;;;
      upd_proc i (set_kstack 0) ;;;
      call (freevm (pgdir p)) ;;;
      upd_proc i clear_proc ;;;
      release ;;;
      ret (Done (pid p))
  | None =>
      let! kids := gets (find_proc (is_child me)) in
      let! m := proc_at me in
      if negb (bool_decide (is_Some kids)) || killed m then release ;;; ret (Done (-1))
      else sleep me (A_proc me) K_wait 0 ;;; ret (Blocked (A_proc me) tt)
  end.
Definition wait (me : nat) : P (segment unit Z) := acquire ;;; wait_round me.

(** ** Threads *)

Definition thread_create (me : nat) (thread start_routine arg : Z) : P Z :=
  let! r := allocproc in
  match r with
  | None => ret (-1)
  | Some np =>
      modify (fun s => with_num_lwp (i32 (num_lwp s + 1)) s) ;;;
      acquire ;;;
      let! p := proc_at me in
      if decide (lwpid (thr p) < 0) then ret (-1) else
      upd_proc np (fun q =>
        if decide (0 < lwpid (thr p))
        then set_parent (parent p) (upd_thr (fun t => MkLwp (lwpid t) (lwppid (thr p)) (retval t) (sbase t) (snum t) (forked t)) q)
        else set_parent (Some me) (upd_thr (fun t => MkLwp (lwpid t) (pid p) (retval t) (sbase t) (snum t) (forked t)) q)) ;;;
      let! n := new_lwpid in
      upd_proc np (upd_thr (fun t => MkLwp n (lwppid t) (retval t) (sbase t) (snum t) (forked t))) ;;;
      call (ustore thread n) ;;;
      upd_proc np (fun q => copy_name (name p) (set_tf (tf p) (set_pgdir (pgdir p) q))) ;;;
      let! c := call (idup (cwd p)) in
      upd_proc np (set_cwd c) ;;;
      let! b := get_base np in
      let base := u32 (sz p + u32 (2 * PGSIZE * (b + 1))) in
      upd_proc np (upd_thr (fun t => MkLwp (lwpid t) (lwppid t) (retval t) base (snum t) (forked t))) ;;;
      let! size := call (allocuvm (pgdir p) base (u32 (base + 2 * PGSIZE))) in
      upd_proc np (set_sz size) ;;;
      if decide (size = 0) then upd_proc np (set_state UNUSED) ;;; ret (-1) else
      call (ustore (u32 (size - 4)) arg) ;;;
      call (ustore (u32 (size - 8)) 0xffffffff) ;;;
      upd_proc np (upd_tf (fun t => set_eip start_routine (set_esp (u32 (size - 8)) t))) ;;;
      dup_files me np ;;;
      upd_proc np (set_state RUNNABLE) ;;;
      release ;;;
      ret 0
  end.

(** The critical section of [thread_exit]. *)
Definition thread_exit_finish (me : nat) (v : Z) : P unit :=
  acquire ;;;
  upd_proc me (upd_thr (fun t => MkLwp (lwpid t) (lwppid t) v (sbase t) (snum t) (forked t))) ;;;
  let! p := proc_at me in
  wakeup1 (chan_of (parent p)) ;;;
  upd_proc me (set_state ZOMBIE) ;;;
  modify (fun s => with_num_lwp (i32 (num_lwp s - 1)) s) ;;;
  sched me 1 C_zombie.

Definition thread_exit (me : nat) (v : Z) : P unit :=
  let! ini := gets initproc in
  if decide (ini = Some me) then panic "init exiting" else
  close_files me ;;;
  put_cwd me ;;;
  thread_exit_finish me v.

(** One round of the loop of [thread_join], with the lock held. *)
Definition join_round (me : nat) (thread retp : Z) : P (segment unit Z) :=
  let! m := proc_at me in
  let! z := gets (find_proc (fun p => bool_decide (lwpid (thr p) = thread) &&
                    bool_decide (lwppid (thr p) = pid m) && is_state ZOMBIE p)) in
  match z with
  | Some i =>
      let! p := proc_at i in
      call (ustore retp (retval (thr p))) ;;;
      call (kfree (kstack p)) ;;;
      upd_proc i (set_kstack 0) ;;;
      let! _ := call (deallocuvm (pgdir p) (u32 (sbase (thr p) + 2 * PGSIZE)) (sbase (thr p))) in
      modify (fun s => with_stable (<[Z.to_nat (snum (thr p)) := false]> (stable s)) s) ;;;
      upd_proc i clear_lwp ;;;
      release ;;;
      ret (Done 0)
  | None =>
      if killed m then release ;;; ret (Done (-1))
      else sleep me (A_proc me) (K_join thread retp) 0 ;;; ret (Blocked (A_proc me) tt)
  end.
Definition thread_join (me : nat) (thread retp : Z) : P (segment unit Z) :=
  let! m := proc_at me in
  if decide (lwpid (thr m) <> 0) then ret (Done (-1)) else
  acquire ;;; join_round me thread retp.

(** ** Running again *)

(** What a process does when the scheduler has switched to it, with the lock held. *)
Definition resume (i : nat) : P unit :=
  let! p := proc_at i in
  match context p with
  | C_none => stop_with Undefined
  | C_forkret => forkret
  | C_yield => release
  | C_sleep k =>
      upd_proc i (set_chan A_null) ;;;
      match k with
      | K_other => release
      | K_wait => let! _ := wait_round i in ret tt
      | K_exit => let! _ := exit_again i in ret tt
      | K_join t r => let! _ := join_round i t r in ret tt
      end
  | C_zombie => panic "zombie exit"
  end.

(** ** The scheduler *)

(** The inner loop over the slots [l], with [ptable.lock] held: the process it switches to. *)
Fixpoint scan (l : list nat) : P (option nat) :=
  match l with
  | [] => ret None
  | i :: l' =>
      let! r := scheduler_visit i in
      if (r : bool) then ret (Some i) else scan l'
  end.

(** The loop of [scheduler] on one CPU from slot [k] on, until it has switched to a process, which then runs on that CPU, or has come to
    the end of the table, where it releases the lock and starts over. *)
Definition scheduler (k : nat) : P (option nat) :=
  acquire ;;;
  let! r := scan (seq k (NPROC - k)) in
  match r with
  | Some i => resume i ;;; ret (Some i)
  | None => release ;;; ret None
  end.

(** ** Signals *)

(** [p->killed = 1; if(p->state == SLEEPING) p->state = RUNNABLE;] *)
Definition kill_proc (p : proc) : proc :=
  let p := set_killed true p in
  if decide (state p = SLEEPING) then set_state RUNNABLE p else p.

Definition kill (me : nat) (n : Z) : P Z :=
  acquire ;;;
  let! m := proc_at me in
  if decide (0 < lwpid (thr m)) then
    forM all_procs (fun i =>
      let! p := proc_at i in
      if decide (0 < lwpid (thr p)) then upd_proc i kill_proc else ret tt) ;;;
    release ;;;
    ret 0
  else
    let! z := gets (find_proc (fun p => bool_decide (pid p = n))) in
    match z with
    | Some i => upd_proc i kill_proc ;;; release ;;; ret 0
    | None => release ;;; ret (-1)
    end.

Definition lower_num_lwp : P unit := modify (fun s => with_num_lwp (i32 (num_lwp s - 1)) s).

(** The condition of the loop is always true: it runs off the table. *)
Definition sleep_others (me : nat) : P unit :=
  acquire ;;;
  let! m := proc_at me in
  if killed m then release else
  forM all_procs (fun i =>
    let! p := proc_at i in
    if decide (lwppid (thr p) = 0) then ret tt else upd_proc i (set_killed true)) ;;;
  stop_with Undefined.

(** ** Scheduling parameters *)

Definition divide (a b : Z) : P Z := if decide (b = 0) then stop_with DivideError else ret (Z.quot a b).

(** The number of processes with the mode [sm] that are ready. *)
Definition ready_count (sm : sched_mode) (s : pstate R) : Z :=
  Z.of_nat (length (List.filter (fun i =>
    is_state RUNNABLE (getp s i) && bool_decide (mode (getp s i) = sm)) all_procs)).
Definition get_num (sm : sched_mode) : P Z := gets (ready_count sm).

Definition set_share (v : Z) (p : proc) : proc := set_strd (MkStrd (pass (strd p)) (stride (strd p)) v) p.
Definition set_stride (v : Z) (p : proc) : proc := set_strd (MkStrd (pass (strd p)) v (share (strd p))) p.
Definition set_pass (v : Z) (p : proc) : proc := set_strd (MkStrd v (stride (strd p)) (share (strd p))) p.

(** The body of the loop of [update_strd]. *)
Definition update_one (n1 n2 : Z) (i : nat) : P unit :=
  let! p := proc_at i in
  if decide (state p <> RUNNABLE) then ret tt else
  match mode p with
  | STRD_SCHED =>
      let! total := gets strd_sum in
      let! v := divide total n1 in
      upd_proc i (set_share v) ;;;
      let! w := divide 10001 v in
      upd_proc i (set_stride w)
  | STRD_SET_SCHED =>
      let! w := divide 10001 (share (strd p)) in
      upd_proc i (set_stride w)
  | MLFQ_SCHED =>
      if decide (n2 <= 0) then
        upd_proc i (fun p => set_stride 0 (set_share 0 p)) ;;;
        modify (fun s => with_mlfqs (MkMlfqs (mpass (mlfqs s)) (mstride (mlfqs s)) 0 (totaltick (mlfqs s))
                                       (topn (mlfqs s)) (midn (mlfqs s)) (lown (mlfqs s))) s)
      else
        let! ms := gets (fun s => mshare (mlfqs s)) in
        let! v := divide ms n2 in
        upd_proc i (set_share v) ;;;
        let! w := divide 10001 v in
        upd_proc i (set_stride w)
  end.

Definition update_strd : P Z :=
  let! n1 := get_num STRD_SCHED in
  let! n2 := get_num MLFQ_SCHED in
  forM all_procs (update_one n1 n2) ;;;
  ret 0.

Definition init_pass : P unit :=
  forM all_procs (fun i =>
    let! p := proc_at i in
    if decide (state p <> RUNNABLE) then ret tt else upd_proc i (set_pass 0)) ;;;
  modify (fun s => with_mlfqs (MkMlfqs 0 (mstride (mlfqs s)) (mshare (mlfqs s)) (totaltick (mlfqs s))
                                 (topn (mlfqs s)) (midn (mlfqs s)) (lown (mlfqs s))) s).

Definition getlev (me : nat) : P mlfq_lev := gets (fun s => lev (mlfq (getp s me))).

Definition get_min_pass : P Z :=
  acquire ;;;
  let! mn := gets (fun s => foldl (fun mn i =>
    let p := getp s i in
    if is_state RUNNABLE p && negb (bool_decide (mode p = MLFQ_SCHED)) && bool_decide (pass (strd p) < mn)
    then pass (strd p) else mn) 99999999 all_procs) in
  release ;;;
  let! n := get_num MLFQ_SCHED in
  let! mp := gets (fun s => mpass (mlfqs s)) in
  ret (if decide (0 < n /\ mp < mn) then mp else mn).

(** The end of a refused request: the share the process gets instead. *)
Definition cpu_refuse (me : nat) : P Z :=
  let! n := get_num MLFQ_SCHED in
  let! m := get_num STRD_SCHED in
  let! sum := gets strd_share_sum in
  (if decide (0 < n) then
     let! v := divide (80 - sum) m in upd_proc me (set_share v)
   else if decide (n = 0) then
     let! v := divide (100 - sum) m in upd_proc me (set_share v)
   else panic "# of MLFQ running process < 0") ;;;
  let! _ := update_strd in
  init_pass ;;;
  release ;;;
  ret 1.

Definition cpu_share (me : nat) (share_ : Z) : P Z :=
  acquire ;;;
  let! sum := gets strd_share_sum in
  if decide (sum < 0 \/ share_ < 0) then panic "share_sum < 0 || share < 0" else
  modify (fun s => with_strd_sum (i32 (strd_sum s - share_)) (with_strd_share_sum (i32 (strd_share_sum s + share_)) s)) ;;;
  upd_proc me (fun p => set_share share_ (set_mode STRD_SET_SCHED p)) ;;;
  let! sum := gets strd_share_sum in
  if decide (20 < sum) then
    modify (fun s => with_strd_sum (i32 (strd_sum s + share_)) (with_strd_share_sum (i32 (strd_share_sum s - share_)) s)) ;;;
    upd_proc me (set_mode STRD_SCHED) ;;;
    cpu_refuse me
  else
    let! _ := update_strd in
    init_pass ;;;
    release ;;;
    ret 0.

Definition run_MLFQ (me : nat) : P Z :=
  acquire ;;;
  let! ms := gets (fun s => mshare (mlfqs s)) in
  (if decide (ms = 0) then
     modify (fun s => with_strd_sum (i32 (strd_sum s - 20))
       (with_mlfqs (MkMlfqs 0 (Z.quot 10001 20) 20 (totaltick (mlfqs s)) (topn (mlfqs s))
                            (midn (mlfqs s)) (lown (mlfqs s))) s))
   else ret tt) ;;;
  modify (fun s => with_mlfqs (MkMlfqs (mpass (mlfqs s)) (mstride (mlfqs s)) (mshare (mlfqs s))
    (totaltick (mlfqs s)) (i32 (topn (mlfqs s) + 1)) (midn (mlfqs s)) (lown (mlfqs s))) s) ;;;
  upd_proc me (fun p => set_mlfq (MkMlfq (tick (mlfq p)) TOP 0) (set_mode MLFQ_SCHED p)) ;;;
  let! _ := update_strd in
  init_pass ;;;
  release ;;;
  ret 0.
End ops.
End Proc.
