(* ===== verification/ProcSteps.v ===== *)
(** The process table as a transition system: every operation of [Proc] is a
    sequence of guarded transitions of single processes.

    [quiet] relates two states that differ only in what the transitions do not
    speak about (memory, files, flags, strides), or in which sleepers were woken
    up; [ustep] lists the transitions proper, with their guards. *)

From S2P Require Import Prelude Bytes CString Kalloc Proc.

Module ProcSteps.
Import Proc.

Section steps.
Context {R : Type} `{ProcEnv R}.
Notation P := (M (pstate R)).
Notation PS := (pstate R).
Implicit Types (s t : PS).

(** ** Slots of the table *)

Lemma getp_put i j p s :
  getp (put i p s) j = if decide (i = j /\ (i < length (procs s))%nat) then p else getp s j.
Proof.
  unfold getp, put; cbn [procs with_procs]. rewrite !nth_lookup.
  case_decide as D.
  - destruct D as [<- D]. by rewrite list_lookup_insert_eq.
  - destruct (decide (i = j)) as [<-|Hn].
    + by rewrite list_insert_ge by (apply Nat.le_ngt; tauto).
    + by rewrite list_lookup_insert_ne.
Qed.

Lemma getp_put_eq i p s : (i < length (procs s))%nat -> getp (put i p s) i = p.
Proof. intros Hi. rewrite getp_put. by rewrite decide_True. Qed.

Lemma getp_put_ne i j p s : i <> j -> getp (put i p s) j = getp s j.
Proof. intros Hn. rewrite getp_put. by rewrite decide_False by tauto. Qed.

Lemma length_put i p s : length (procs (put i p s)) = length (procs s).
Proof. apply length_insert. Qed.

Lemma put_put i p q s : put i q (put i p s) = put i q s.
Proof. unfold put, with_procs; simpl. by rewrite list_insert_insert_eq. Qed.

(** Beyond the table there is only the default slot, which is unused. *)
Lemma getp_in s i : state (getp s i) <> UNUSED -> (i < length (procs s))%nat.
Proof.
  intros Hs. destruct (decide (i < length (procs s))%nat) as [|Hn]; [done|].
  destruct Hs. unfold getp. by rewrite nth_overflow by lia.
Qed.

Lemma getp_over s i : (length (procs s) <= i)%nat -> getp s i = proc0.
Proof. intros Hi. unfold getp. by rewrite nth_overflow by lia. Qed.

(** ** Quiet changes *)

Record calm (p q : proc) : Prop := MkCalm {
  calm_pid : pid q = pid p;
  calm_parent : parent q = parent p;
  calm_context : context q = context p;
  calm_mode : mode q = mode p;
  calm_share : mode p = STRD_SET_SCHED -> share (strd q) = share (strd p);
  calm_lwpid : lwpid (thr q) = lwpid (thr p);
  calm_state : (state q = state p /\ (state p = SLEEPING -> chan q = chan p))
               \/ (state p = SLEEPING /\ state q = RUNNABLE)
}.

#[global] Instance calm_pre : PreOrder calm.
Proof.
  split; [intros p; constructor; auto|].
  intros p q r [? ? ? Hm Hs ? Hst] [? ? ? Hm' Hs' ? Hst']; constructor; try congruence.
  - intros E. rewrite Hs' by congruence. auto.
  - destruct Hst as [[? Hc]|[]], Hst' as [[? Hc']|[]]; try (right; split; congruence).
    left. split; [congruence|]. intros E. rewrite Hc' by congruence. auto.
Qed.

Record quiet (s s' : PS) : Prop := MkQuiet {
  quiet_len : length (procs s') = length (procs s);
  quiet_calm : forall i, calm (getp s i) (getp s' i);
  quiet_initproc : initproc s' = initproc s;
  quiet_nextpid : nextpid s' = nextpid s;
  quiet_nextlwpid : nextlwpid s' = nextlwpid s;
  quiet_share_sum : strd_share_sum s' = strd_share_sum s;
  quiet_sum : strd_sum s' = strd_sum s;
  quiet_mshare : mshare (mlfqs s') = mshare (mlfqs s)
}.

#[global] Instance quiet_pre : PreOrder quiet.
Proof.
  split; [intros s; constructor; done|].
  intros s t u [] []; constructor; try congruence. intros i. etrans; eauto.
Qed.

Lemma quiet_put i p s : calm (getp s i) p -> quiet s (put i p s).
Proof.
  intros Hc. constructor; try done; [apply length_put|].
  intros j. rewrite getp_put. case_decide as D; [|done]. by destruct D as [<- _].
Qed.

(** Changes of nothing the transitions speak about. *)
Lemma quiet_misc s s' :
  procs s' = procs s -> initproc s' = initproc s -> nextpid s' = nextpid s ->
  nextlwpid s' = nextlwpid s -> strd_share_sum s' = strd_share_sum s ->
  strd_sum s' = strd_sum s -> mshare (mlfqs s') = mshare (mlfqs s) -> quiet s s'.
Proof. intros E. intros. constructor; try done; unfold getp; by rewrite E. Qed.

Lemma quiet_state s s' i : quiet s s' -> state (getp s i) <> SLEEPING -> state (getp s' i) = state (getp s i).
Proof. intros Hq Hs. destruct (calm_state _ _ (quiet_calm _ _ Hq i)) as [[]|[]]; congruence. Qed.

(** An operation that changes the state quietly. *)
Definition quiets {A} (m : P A) : Prop := forall s, post m (fun _ s' => quiet s s') s.

Lemma quiets_ret {A} (a : A) : quiets (ret a).
Proof. intros s. by apply post_ret. Qed.
Lemma quiets_gets {A} (f : PS -> A) : quiets (gets f).
Proof. intros s. by apply post_gets. Qed.
Lemma quiets_stop {A} r : quiets (@stop_with PS A r).
Proof. intros s. apply post_stop. Qed.
Lemma quiets_modify f : (forall s, quiet s (f s)) -> quiets (modify f).
Proof. intros Hf s. apply post_modify, Hf. Qed.
Lemma quiets_upd i f : (forall p, calm p (f p)) -> quiets (upd_proc i f).
Proof. intros Hf. apply quiets_modify. intros s. by apply quiet_put. Qed.
Lemma quiets_bind {A B} (m : P A) (k : A -> P B) : quiets m -> (forall a, quiets (k a)) -> quiets (bind m k).
Proof.
  intros Hm Hk s. apply post_bind. eapply post_mono; [apply Hm|].
  intros a s1 H1. eapply post_mono; [apply Hk|]. intros b s2 H2. exact (transitivity H1 H2).
Qed.
Lemma quiets_forM {A} (l : list A) body : (forall x, quiets (body x)) -> quiets (forM l body).
Proof. intros Hb. induction l; simpl; [apply quiets_ret | by apply quiets_bind]. Qed.
Lemma quiets_if (b : bool) {A} (m m' : P A) : quiets m -> quiets m' -> quiets (if b then m else m').
Proof. by destruct b. Qed.
Lemma quiets_dec (Q : Prop) `{Decision Q} {A} (m m' : P A) :
  quiets m -> quiets m' -> quiets (if decide Q then m else m').
Proof. by destruct (decide Q). Qed.
End steps.

Ltac calm_tac := intros []; constructor; simpl; auto.
Ltac misc_tac := intros ?; apply quiet_misc; reflexivity.

Create HintDb quiet.
Ltac qauto :=
  repeat first
    [ solve [auto with quiet nocore] | apply quiets_ret | apply quiets_gets | apply quiets_stop
    | apply quiets_bind; [|intros ?] | apply quiets_forM; intros ?
    | apply quiets_dec | apply quiets_if
    | apply quiets_upd; solve [calm_tac] | apply quiets_modify; solve [misc_tac] ].

Section quiets.
Context {R : Type} `{ProcEnv R}.
Notation P := (M (pstate R)).
Notation quiets := (@quiets R _).

Lemma quiets_acquire : quiets acquire.
Proof. unfold acquire, panic. qauto. Qed.
Lemma quiets_release : quiets release.
Proof. unfold release, panic. qauto. Qed.
#[local] Hint Resolve quiets_acquire quiets_release : quiet.

Lemma quiets_wakeup1 c : quiets (wakeup1 c).
Proof.
  apply quiets_forM. intros i s. unfold proc_at. pstep. case_decide as D; [|by apply post_ret].
  apply post_modify, quiet_put. destruct D as [D _], (getp s i); simpl in *. constructor; simpl; auto.
Qed.
#[local] Hint Resolve quiets_wakeup1 : quiet.

Lemma quiets_wakeup c : quiets (wakeup c).
Proof. unfold wakeup. qauto. Qed.
#[local] Hint Resolve quiets_wakeup : quiet.

Lemma quiets_call {A} (m : M R A) : quiets (call m).
Proof.
  unfold call. apply quiets_bind; [|intros a; apply quiets_bind; [|intros ws; qauto]].
  - intros s b s'. unfold zoom. destruct (m (env s)); [|done]. intros [= -> <-]. by apply quiet_misc.
  - intros s b s'. destruct (drain (env s)). intros [= -> <-]. by apply quiet_misc.
Qed.
#[local] Hint Resolve @quiets_call : quiet.

Lemma quiets_get_base i : quiets (get_base i).
Proof.
  unfold get_base. apply quiets_bind; [apply quiets_gets|]. intros st.
  destruct (list_find _ st) as [[k ?]|]; unfold panic; qauto.
Qed.
#[local] Hint Resolve quiets_get_base : quiet.

Lemma quiets_switchuvm i : quiets (switchuvm i).
Proof. unfold switchuvm, proc_at, panic. qauto. Qed.
Lemma quiets_size_owner i : quiets (size_owner i).
Proof.
  unfold size_owner, proc_at. apply quiets_bind; [apply quiets_gets|]. intros p.
  apply quiets_dec; [|qauto]. destruct (parent p); qauto.
Qed.
Lemma quiets_dup_files me np : quiets (dup_files me np).
Proof. unfold dup_files, proc_at. qauto. Qed.
Lemma quiets_close_files me : quiets (close_files me).
Proof. unfold close_files, proc_at. qauto. Qed.
Lemma quiets_put_cwd me : quiets (put_cwd me).
Proof. unfold put_cwd, proc_at. qauto. Qed.
#[local] Hint Resolve quiets_switchuvm quiets_size_owner quiets_dup_files quiets_close_files quiets_put_cwd : quiet.

Lemma quiets_growproc me n : quiets (growproc me n).
Proof. unfold growproc, proc_at. qauto. Qed.
Lemma quiets_forkret : quiets forkret.
Proof. unfold forkret. qauto. Qed.
Lemma quiets_init_pass : quiets init_pass.
Proof. unfold init_pass, proc_at. qauto. Qed.
Lemma calm_kill p : calm p (kill_proc p).
Proof.
  unfold kill_proc. destruct p; simpl. case_decide; constructor; simpl; auto.
Qed.
Lemma quiets_kill me n : quiets (kill me n).
Proof.
  assert (Hk : forall i, quiets (upd_proc i kill_proc)) by (intros i; apply quiets_upd, calm_kill).
  unfold kill, proc_at. repeat (apply quiets_bind; [by qauto | intros ?]).
  apply quiets_dec; [qauto|]. apply quiets_bind; [qauto | intros [i|]]; qauto.
Qed.
End quiets.
#[export] Hint Resolve quiets_acquire quiets_release quiets_wakeup1 quiets_wakeup quiets_call quiets_get_base
  quiets_switchuvm quiets_size_owner quiets_dup_files quiets_close_files quiets_put_cwd
  quiets_growproc quiets_forkret quiets_init_pass quiets_kill : quiet.
End ProcSteps.
