(* ===== verification/ProcSim.v ===== *)
(** The transitions of the process table, and that every operation of proc.c is
    a sequence of them. *)

From S2P Require Import Prelude Bytes CString Kalloc Proc ProcSteps.

Module ProcSim.
Import Proc ProcSteps.

Section ustep.
Context {R : Type}.
Notation PS := (pstate R).
Implicit Types (s : PS).

(** Asleep in the loop of [wait]. *)
Definition waiting (s : PS) (q : nat) : Prop :=
  state (getp s q) = SLEEPING /\ context (getp s q) = C_sleep K_wait.

(** Returning a share of [d] percent to the pool. *)
Definition refund (d : Z) (s : PS) : PS :=
  with_strd_share_sum (i32 (strd_share_sum s - d)) (with_strd_sum (i32 (strd_sum s + d)) s).

(** What the end of [p] gives back, if it does ([back]). *)
Definition give_back (back : bool) (p : proc) (s : PS) : PS :=
  if back && bool_decide (mode p = STRD_SET_SCHED) then refund (share (strd p)) s else s.

(** [p] and [q] agree on all but what a new process is given. *)
Definition same_id (p q : proc) : Prop :=
  state q = state p /\ pid q = pid p /\ lwpid (thr q) = lwpid (thr p) /\ mode q = mode p /\
  share (strd q) = share (strd p).

(** What the transitions of a step are restricted by: whether nobody dies while the parent sleeps in [wait] ([watch]); whom
    the scheduler may run ([pick]); who may give up the CPU ([who]); and whether the requests for shares are small enough not to
    overflow the counter ([modest]). *)
Record cfg := Cfg { watch : bool; pick : option nat; who : option nat; modest : bool }.

(** The largest request that cannot overflow the counter. *)
Definition modest_share : Z := 2 ^ 31 - 21.

Inductive ustep (b : cfg) : PS -> PS -> Prop :=
| u_quiet s s' : quiet s s' -> ustep b s s'
| u_alloc i s :
    state (getp s i) = UNUSED -> (i < length (procs s))%nat ->
    ustep b s (with_nextpid (nextpid s + 1) (put i (init_proc (nextpid s) (getp s i)) s))
| u_embryo i q s :
    state (getp s i) = EMBRYO -> same_id (getp s i) q -> ustep b s (put i q s)
| u_lwp i q s :
    state (getp s i) = EMBRYO -> same_id (getp s i) (set_thr (thr (getp s i)) q) ->
    lwpid (thr q) = nextlwpid s ->
    ustep b s (with_nextlwpid (nextlwpid s + 1) (put i q s))
| u_drop i s :
    state (getp s i) = EMBRYO -> ustep b s (put i (set_state UNUSED (getp s i)) s)
| u_ready i s :
    state (getp s i) = EMBRYO -> context (getp s i) = C_forkret ->
    ustep b s (put i (set_state RUNNABLE (getp s i)) s)
| u_reap i q s :
    state (getp s i) = ZOMBIE -> state q = UNUSED -> pid q = 0 -> parent q = None ->
    lwpid (thr q) = lwpid (thr (getp s i)) \/ lwpid (thr q) = 0 ->
    mode q = mode (getp s i) -> ustep b s (put i q s)
| u_block i c k s :
    state (getp s i) = RUNNING -> who b = Some i ->
    (k = K_wait -> c = A_proc i /\
       forall j, parent (getp s j) = Some i -> state (getp s j) <> ZOMBIE) ->
    ustep b s (put i (set_context (C_sleep k) (set_state SLEEPING (set_chan c (getp s i)))) s)
| u_yield i s :
    state (getp s i) = RUNNING -> who b = Some i ->
    ustep b s (put i (set_context C_yield (set_state RUNNABLE (getp s i))) s)
| u_die i back s :
    state (getp s i) = RUNNING -> who b = Some i ->
    (watch b = true -> forall q, parent (getp s i) = Some q -> ~ waiting s q) ->
    ustep b s (give_back back (getp s i)
                      (put i (set_context C_zombie (set_state ZOMBIE (getp s i))) s))
| u_run i s :
    state (getp s i) = RUNNABLE -> pick b = Some i -> ustep b s (put i (set_state RUNNING (getp s i)) s)
| u_init i s : ustep b s (with_initproc i s)
| u_adopt i s s' :
    quiet (put i (set_parent (initproc s) (getp s i)) s) s' ->
    (watch b = true -> state (getp s i) = ZOMBIE -> forall q, initproc s = Some q -> ~ waiting s' q) ->
    ustep b s s'
| u_share i v s :
    state (getp s i) = RUNNING -> 0 <= v < 2 ^ 31 -> (modest b = true -> v <= modest_share) ->
    0 <= strd_share_sum s -> i32 (strd_share_sum s + v) <= 20 ->
    ustep b s (put i (set_share v (set_mode STRD_SET_SCHED (getp s i)))
                      (with_strd_sum (i32 (strd_sum s - v)) (with_strd_share_sum (i32 (strd_share_sum s + v)) s)))
| u_wrap s :
    ustep b s (with_strd_sum (i32 (strd_sum s)) (with_strd_share_sum (i32 (strd_share_sum s)) s))
| u_unshare i v s :
    state (getp s i) = RUNNING ->
    ustep b s (put i (set_share v (set_mode STRD_SCHED (getp s i))) s)
| u_mlfq i l s :
    state (getp s i) = RUNNING -> mshare (mlfqs s) <> 0 ->
    ustep b s (put i (set_mlfq l (set_mode MLFQ_SCHED (getp s i))) s)
| u_mlfqs m s :
    mshare (mlfqs s) = 0 -> mshare m = 20 ->
    ustep b s (with_strd_sum (i32 (strd_sum s - 20)) (with_mlfqs m s)).

Definition usteps (b : cfg) : PS -> PS -> Prop := rtc (ustep b).

#[global] Instance usteps_pre b : PreOrder (usteps b).
Proof. apply _. Qed.

Lemma usteps_quiet b s s' : quiet s s' -> usteps b s s'.
Proof. intros Hq. by apply rtc_once, u_quiet. Qed.

Lemma usteps_len b s s' : usteps b s s' -> length (procs s') = length (procs s).
Proof.
  induction 1 as [|s t u Hs _ IH]; [done|]. rewrite IH. clear IH.
  destruct Hs; unfold give_back; try case_match; cbn [procs refund with_strd_share_sum with_strd_sum with_nextpid with_nextlwpid with_mlfqs];
    rewrite ?length_put; try done.
  - by apply quiet_len.
  - match goal with Hq : quiet _ _ |- _ => rewrite (quiet_len _ _ Hq) end. apply length_put.
Qed.
End ustep.

Section sim.
Context {R : Type} `{ProcEnv R}.
Notation P := (M (pstate R)).
Notation PS := (pstate R).
Implicit Types (s : PS).

(** From [s], a run of [m] that returns is a sequence of transitions, with [Q]. *)
Definition sim (b : cfg) {A} (m : P A) (Q : A -> PS -> Prop) (s : PS) : Prop :=
  post m (fun a s' => usteps b s s' /\ Q a s') s.

Lemma sim_ret b {A} (a : A) (Q : A -> PS -> Prop) s : Q a s -> sim b (ret a) Q s.
Proof. intros HQ. by apply post_ret. Qed.

Lemma sim_gets b {A} (f : PS -> A) (Q : A -> PS -> Prop) s : Q (f s) s -> sim b (gets f) Q s.
Proof. intros HQ. by apply post_gets. Qed.

Lemma sim_stop b {A} r (Q : A -> PS -> Prop) s : sim b (stop_with r) Q s.
Proof. apply post_stop. Qed.

Lemma sim_bind b {A B} (m : P A) (k : A -> P B) Q s :
  sim b m (fun a => sim b (k a) Q) s -> sim b (bind m k) Q s.
Proof.
  intros Hm. apply post_bind. eapply post_mono; [exact Hm|]. intros a s1 [H1 Hk].
  eapply post_mono; [exact Hk|]. intros c s2 [H2 HQ]. split; [by etrans | done].
Qed.

Lemma sim_mono b {A} (m : P A) (Q Q' : A -> PS -> Prop) s :
  sim b m Q s -> (forall a s', Q a s' -> Q' a s') -> sim b m Q' s.
Proof. intros Hm HQ. eapply post_mono; [exact Hm|]. intros a s' []; eauto. Qed.

(** A quiet operation. *)
Lemma sim_quiet b {A} (m : P A) (Q : A -> PS -> Prop) s :
  quiets m -> (forall a s', quiet s s' -> Q a s') -> sim b m Q s.
Proof.
  intros Hm HQ. eapply post_mono; [apply Hm|]. intros a s' Hq. split; [by apply usteps_quiet | eauto].
Qed.

(** A change that is one transition. *)
Lemma sim_step b (f : PS -> PS) (Q : unit -> PS -> Prop) s :
  ustep b s (f s) -> Q tt (f s) -> sim b (modify f) Q s.
Proof. intros Hf HQ. apply post_modify. split; [by apply rtc_once | done]. Qed.

Lemma sim_post b {A} (m : P A) s Q : sim b m Q s -> post m (fun _ s' => usteps b s s') s.
Proof. intros Hm. eapply post_mono; [exact Hm|]. by intros ? ? []. Qed.

Lemma sim_forM b {A} (I : PS -> Prop) (l : list A) body s :
  I s -> (forall x s', x ∈ l -> I s' -> sim b (body x) (fun _ => I) s') ->
  sim b (forM l body) (fun _ => I) s.
Proof.
  intros HI Hb. apply (post_forM (fun s2 => usteps b s s2 /\ I s2)); [by split|]. intros x s' Hx [Hu HI'].
  eapply post_mono; [by apply Hb|]. intros [] s2 [Hu2 HI2]. split; [by etrans | done].
Qed.

(** Two changes that are one transition. *)
Lemma sim_two b {A} (f g : PS -> PS) (k : P A) Q s :
  ustep b s (g (f s)) -> sim b k Q (g (f s)) -> sim b (modify f ;;; modify g ;;; k) Q s.
Proof.
  intros Hu Hk a s' E. destruct (Hk a s' E) as [Hr HQ]. split; [by eapply rtc_l | done].
Qed.

Lemma sim_eq b {A} (m m' : P A) Q s : m s = m' s -> sim b m' Q s -> sim b m Q s.
Proof. intros E Hm a s'. rewrite E. apply Hm. Qed.

(** The next identifier, if there is one. *)
Lemma sim_succ_id b {A} n (k : Z -> P A) Q s : sim b (k (n + 1)) Q s -> sim b (bind (succ_id n) k) Q s.
Proof. intros Hk. unfold succ_id. case_decide; [exact Hk | intros ? ? [=]]. Qed.

Lemma sim_bind_quiet b {A B} (m : P A) (k : A -> P B) Q s :
  quiets m -> (forall a s', quiet s s' -> sim b (k a) Q s') -> sim b (bind m k) Q s.
Proof. intros Hm Hk. by apply sim_bind, sim_quiet. Qed.

Lemma sim_bind_gets b {A B} (f : PS -> A) (k : A -> P B) Q s :
  sim b (k (f s)) Q s -> sim b (bind (gets f) k) Q s.
Proof. intros Hk. by apply sim_bind, sim_gets. Qed.

Lemma sim_bind_step b {A} f (k : P A) Q s :
  ustep b s (f s) -> sim b k Q (f s) -> sim b (modify f ;;; k) Q s.
Proof. intros Hf Hk. by apply sim_bind, sim_step. Qed.
End sim.

Ltac sstep :=
  lazymatch goal with
  | |- sim _ (bind (gets _) _) _ _ => apply sim_bind_gets
  | |- sim _ (bind (proc_at _) _) _ _ => apply sim_bind_gets
  | |- sim _ (bind (bind _ _) _) _ _ => apply sim_bind; sstep
  | |- sim _ (bind (if decide _ then _ else _) _) _ _ => apply sim_bind
  | |- sim _ (bind _ _) _ _ => apply sim_bind_quiet; [solve [qauto] | intros ? ? ?]
  | |- sim _ (ret _) _ _ => apply sim_ret
  | |- sim _ (gets _) _ _ => apply sim_gets
  | |- sim _ (stop_with _) _ _ => apply sim_stop
  | |- sim _ (panic _) _ _ => apply sim_stop
  | |- sim _ _ _ _ => apply sim_quiet; [solve [qauto] | intros ? ? ?]
  end.

Ltac qtrans := solve [repeat first [eassumption | etransitivity; [eassumption|]]].

(** ** The operations *)

Section ops.
Context {R : Type} `{ProcEnv R}.
Notation P := (M (pstate R)).
Notation PS := (pstate R).
Implicit Types (s : PS).

(** What is left alone from [s] to [s']: who is running, and the slot [np] of a
    process being made. *)
Definition stay (s s' : PS) : Prop :=
  length (procs s') = length (procs s) /\ mshare (mlfqs s') = mshare (mlfqs s) /\
  forall j, state (getp s j) = RUNNING -> state (getp s' j) = RUNNING.

Definition newborn (np : nat) (s : PS) : Prop :=
  state (getp s np) = EMBRYO /\ context (getp s np) = C_forkret.

Lemma quiet_stay s s' : quiet s s' -> stay s s'.
Proof. intros Hq. split; [by apply quiet_len|]. split; [by apply quiet_mshare|]. intros j Hj. by rewrite (quiet_state s) by congruence. Qed.

#[global] Instance stay_pre : PreOrder stay.
Proof.
  split; [by split|]. intros s t u (? & ? & Ht) (? & ? & Hu).
  split; [congruence|]. split; [congruence|]. eauto.
Qed.

Lemma stay_put s i p :
  state (getp s i) <> RUNNING \/ state p = RUNNING -> stay s (put i p s).
Proof.
  intros Hp. split; [apply length_put|]. split; [done|]. intros j Hj. rewrite getp_put. case_decide as D; [|done].
  destruct D as [<- _]. tauto.
Qed.

Lemma quiet_newborn np s s' : quiet s s' -> newborn np s -> newborn np s'.
Proof.
  intros Hq [Hs Hc]. split; [by rewrite (quiet_state s) by congruence|].
  by rewrite (calm_context _ _ (quiet_calm _ _ Hq np)).
Qed.

Lemma find_proc_spec f s i : find_proc f s = Some i -> f (getp s i) = true /\ (i < NPROC)%nat.
Proof.
  intros [Hi Hf]%find_some. split; [done|]. apply in_seq in Hi. lia.
Qed.

Lemma find_proc_none f s i : find_proc f s = None -> (i < NPROC)%nat -> f (getp s i) = false.
Proof. intros Hn Hi. eapply find_none in Hn; [exact Hn|]. apply in_seq. lia. Qed.

(** A state in which [me] runs and is making the process in slot [np]. *)
Definition making (me np : nat) (s : PS) : Prop :=
  length (procs s) = NPROC /\ state (getp s me) = RUNNING /\ newborn np s.

Lemma making_quiet me np s s' : quiet s s' -> making me np s -> making me np s'.
Proof.
  intros Hq (Hl & Hr & Hn). destruct (quiet_stay _ _ Hq) as (Hl' & _ & Hs).
  split; [congruence|]. split; [by apply Hs | by eapply quiet_newborn].
Qed.

Lemma making_put me np q s :
  making me np s -> state q = EMBRYO -> context q = C_forkret -> making me np (put np q s).
Proof.
  intros (Hl & Hr & Hn & Hc) Hs Hq.
  assert (Hin : (np < length (procs s))%nat) by (apply getp_in; congruence).
  split; [by rewrite length_put|]. split.
  - rewrite getp_put_ne; [done|]. intros ->. congruence.
  - split; by rewrite getp_put_eq.
Qed.

Lemma sim_making_upd b me np f {A} (k : P A) Q s :
  (forall p, same_id p (f p) /\ context (f p) = context p) ->
  making me np s -> (forall s', making me np s' -> sim b k Q s') ->
  sim b (upd_proc np f ;;; k) Q s.
Proof.
  intros Hf Hm Hk. destruct (Hf (getp s np)) as [Hid Hctx]. pose proof Hm as (_ & _ & Hs & Hc).
  apply sim_bind_step; [by apply u_embryo|].
  apply Hk, making_put; [done | | congruence]. by destruct Hid as [-> _].
Qed.

(** A new thread id. *)
Lemma sim_making_lwp b me np f {A} (k : Z -> P A) Q s :
  (forall p n, same_id p (set_thr (thr p) (f n p)) /\ context (f n p) = context p /\ lwpid (thr (f n p)) = n) ->
  making me np s -> (forall n s', making me np s' -> sim b (k n) Q s') ->
  sim b (let! n := new_lwpid in (upd_proc np (f n) ;;; k n)) Q s.
Proof.
  intros Hf Hm Hk. destruct (Hf (getp s np) (nextlwpid s)) as (Hid & Hctx & Hn).
  pose proof Hm as (_ & _ & Hs & Hc).
  apply (sim_eq b _ (let! n' := succ_id (nextlwpid s) in
    (modify (with_nextlwpid n') ;;; modify (fun s1 => put np (f (nextlwpid s) (getp s1 np)) s1) ;;; k (nextlwpid s)))).
  { unfold new_lwpid, succ_id, bind, gets. by case_decide. }
  apply sim_succ_id, sim_two.
  - exact (u_lwp _ np (f (nextlwpid s) (getp s np)) s Hs Hid Hn).
  - apply Hk. assert (making me np (put np (f (nextlwpid s) (getp s np)) s)) as Hp.
    { apply making_put; [done | | congruence]. destruct Hid as [E _]. by destruct (f _ _); simpl in *; congruence. }
    exact Hp.
Qed.

Lemma sim_drop b np f (Q : unit -> PS -> Prop) s :
  (forall p, exists q, f p = set_state UNUSED q /\ same_id p q) ->
  state (getp s np) = EMBRYO -> (forall s', length (procs s') = length (procs s) ->
    mshare (mlfqs s') = mshare (mlfqs s) -> (forall j, j <> np -> getp s' j = getp s j) -> Q tt s') -> sim b (upd_proc np f) Q s.
Proof.
  intros Hf Hs HQ. destruct (Hf (getp s np)) as (q & E & Hid).
  apply post_modify. split; [rewrite E | apply HQ; [apply length_put | done | intros; by apply getp_put_ne]].
  assert (Hin : (np < length (procs s))%nat) by (apply getp_in; congruence).
  eapply rtc_l; [by apply (u_embryo _ np q)|]. apply rtc_once.
  pose proof (u_drop b np (put np q s)) as U. rewrite getp_put_eq, put_put in U by done.
  apply U. destruct Hid as [-> _]. done.
Qed.

Lemma sim_ready b me np {A} (k : P A) (Q : A -> PS -> Prop) s :
  making me np s -> quiets k -> (forall a s', Q a s') -> sim b (upd_proc np (set_state RUNNABLE) ;;; k) Q s.
Proof.
  intros (_ & _ & Hs & Hc) Hk HQ. apply sim_bind_step; [by apply u_ready|]. by apply sim_quiet.
Qed.

Lemma allocproc_sim b s :
  length (procs s) = NPROC ->
  sim b allocproc (fun r s' => stay s s' /\ match r with Some np => newborn np s' | None => True end) s.
Proof.
  intros Hl. unfold allocproc. sstep. sstep. rename s' into s1.
  pose proof (quiet_len _ _ H0) as Hl1.
  destruct (find_proc (is_state UNUSED) s1) as [i|] eqn:Hf.
  - apply find_proc_spec in Hf as [Hu Hi]. apply bool_decide_eq_true in Hu.
    sstep. apply sim_succ_id, sim_two; [by apply (u_alloc _ i s1); [|lia]|].
    assert (Hn : state (getp (put i (init_proc (nextpid s1) (getp s1 i)) s1) i) = EMBRYO)
      by (by rewrite getp_put_eq by lia).
    assert (Hs2 : stay s (put i (init_proc (nextpid s1) (getp s1 i)) s1)).
    { etrans; [by apply quiet_stay|]. apply stay_put. left. congruence. }
    match goal with |- sim _ _ _ ?x =>
      change (stay s x) in Hs2; change (state (getp x i) = EMBRYO) in Hn; remember x as s2 eqn:E; clear E end.
    sstep. sstep. sstep. rename s'1 into s3.
    assert (Hq : quiet s2 s3) by qtrans.
    assert (Hn3 : state (getp s3 i) = EMBRYO) by (by rewrite (quiet_state s2) by congruence).
    assert (Hs3 : stay s s3) by (etrans; [done | by apply quiet_stay]).
    case_decide; [apply sim_bind, sim_drop; [|done|]|].
    + intros p. exists p. by repeat split.
    + intros s4 E Em Hj. apply sim_ret. split; [|done]. etrans; [exact Hs3|]. split; [done|]. split; [done|].
      intros j Hr. rewrite Hj; [done|]. congruence.
    + apply sim_bind_step; [by apply u_embryo; [|by repeat split]|]. apply sim_ret.
      split; [etrans; [exact Hs3|]; apply stay_put; left; congruence|].
      assert (i < length (procs s3))%nat by (apply getp_in; congruence).
      unfold newborn. by rewrite getp_put_eq by done.
  - sstep. sstep. split; [|done]. apply quiet_stay. by etrans.
Qed.

Ltac mq Hm :=
  apply sim_bind_quiet; [solve [qauto] |];
  let Hq := fresh "Hq" in intros ? ? Hq; apply (making_quiet _ _ _ _ Hq) in Hm; clear Hq.
Ltac mupd Hm :=
  eapply sim_making_upd; [by intros []; repeat split | exact Hm | clear Hm; intros ? Hm].

Definition anyway {A} (a : A) (s : PS) : Prop := True.

Lemma fork_sim b me s :
  length (procs s) = NPROC -> state (getp s me) = RUNNING -> sim b (fork me) anyway s.
Proof.
  intros Hl Hr. unfold fork. apply sim_bind. eapply sim_mono; [by apply allocproc_sim|].
  intros [np|] s1 [(Hl1 & _ & Hs1) Hn]; [|by apply sim_ret].
  assert (Hm : making me np s1) by (split; [congruence | auto]).
  clear Hn Hl Hr Hl1 Hs1. sstep. generalize (getp s1 me). intros p.
  apply sim_bind, (sim_mono _ _ (fun _ => making me np)).
  { case_decide; [|by apply sim_ret].
    apply (sim_making_lwp b me np (fun n => upd_thr (fun t => MkLwp n (lwppid t) (retval t) (sbase t) (snum t) true))
             (fun _ => ret tt)); [by intros [] | done|].
    intros n s2 Hm2. by apply sim_ret. }
  clear Hm. intros [] s2 Hm. mq Hm. mq Hm. case_decide.
  - sstep. mq Hm. apply sim_bind, sim_drop; [|apply Hm | intros; by sstep].
    intros q. exists (set_kstack 0 q). by repeat split.
  - mupd Hm. mq Hm. mq Hm. mq Hm. mq Hm. mq Hm. sstep. mq Hm.
    eapply sim_ready; [done | qauto | done].
Qed.


Lemma thread_create_sim b me thread f arg s :
  length (procs s) = NPROC -> state (getp s me) = RUNNING -> sim b (thread_create me thread f arg) anyway s.
Proof.
  intros Hl Hr. unfold thread_create. apply sim_bind. eapply sim_mono; [by apply allocproc_sim|].
  intros [np|] s1 [(Hl1 & _ & Hs1) Hn]; [|by apply sim_ret].
  assert (Hm : making me np s1) by (split; [congruence | auto]).
  clear Hn Hl Hr Hl1 Hs1. mq Hm. mq Hm. sstep. generalize (getp s'0 me). intros p.
  case_decide; [by sstep|].
  eapply sim_making_upd; [|exact Hm|clear Hm; intros s3 Hm].
  { intros []. case_decide; by repeat split. }
  apply (sim_making_lwp b me np (fun n => upd_thr (fun t => MkLwp n (lwppid t) (retval t) (sbase t) (snum t) (forked t))));
    [by intros [] | done|].
  clear Hm. intros n s4 Hm. do 8 mq Hm. case_decide.
  - apply sim_bind, sim_drop; [|apply Hm | intros; by sstep]. intros q. exists q. by repeat split.
  - do 4 mq Hm. eapply sim_ready; [done | qauto | done].
Qed.

(** ** Giving up the CPU *)

Lemma switch_eq me f n k s a s' :
  (me < length (procs s))%nat -> (upd_proc me f ;;; sched me n k) s = Ret a s' ->
  s' = with_plocked false (put me (set_context k (f (getp s me))) s).
Proof.
  intros Hin E. unfold sched, upd_proc, proc_at in E. minv.
  destruct (plocked _) in E; simpl in E; [|minv]. minv. case_decide; minv. case_decide; minv.
  destruct (interruptible _) in E; minv. by rewrite getp_put_eq, put_put by done.
Qed.

Lemma sim_switch b me f n k s :
  (me < length (procs s))%nat -> ustep b s (put me (set_context k (f (getp s me))) s) ->
  sim b (upd_proc me f ;;; sched me n k) anyway s.
Proof.
  intros Hin Hu a s' E%switch_eq; [|done]. subst s'. split; [|done].
  eapply rtc_l; [exact Hu|]. by apply usteps_quiet, quiet_misc.
Qed.

Lemma running_in s me : state (getp s me) = RUNNING -> (me < length (procs s))%nat.
Proof. intros Hr. apply getp_in. congruence. Qed.

Lemma running_quiet s s' me : quiet s s' -> state (getp s me) = RUNNING -> state (getp s' me) = RUNNING.
Proof. intros Hq. apply (quiet_stay _ _ Hq). Qed.

Lemma sleep_sim b me c k n s :
  state (getp s me) = RUNNING -> who b = Some me ->
  (k = K_wait -> c = A_proc me /\ forall j, parent (getp s j) = Some me -> state (getp s j) <> ZOMBIE) ->
  sim b (sleep me c k n) anyway s.
Proof.
  intros Hr Hw Hk. unfold sleep. destruct k; [apply sim_bind; sstep; case_decide; [sstep|]; apply sim_ret | apply sim_bind, sim_ret..].
  { pose proof (running_quiet _ _ _ H0 Hr). apply sim_switch; [by apply running_in | by apply u_block]. }
  all: apply sim_switch; [by apply running_in | by apply u_block].
Qed.

Lemma yield_sim b me s : state (getp s me) = RUNNING -> who b = Some me -> sim b (yield me) anyway s.
Proof.
  intros Hr Hw. unfold yield. sstep. pose proof (running_quiet _ _ _ H0 Hr).
  apply sim_switch; [by apply running_in | by apply u_yield].
Qed.

(** ** Ending *)

Lemma wake_body_post c k s :
  post (let! p := proc_at k in
        if decide (state p = SLEEPING /\ chan p = c) then upd_proc k (set_state RUNNABLE) else ret tt)
    (fun _ s' => quiet s s' /\ (state (getp s' k) = SLEEPING -> chan (getp s k) <> c)) s.
Proof.
  unfold proc_at. pstep. case_decide as D.
  - apply post_modify. destruct D as [Ds Dc]. split.
    + apply quiet_put. destruct (getp s k); simpl in *. constructor; simpl; auto.
    + rewrite getp_put_eq; [done|]. apply getp_in. congruence.
  - apply post_ret. split; [done|]. tauto.
Qed.

Lemma quiet_sleeping s s' i :
  quiet s s' -> state (getp s' i) = SLEEPING -> state (getp s i) = SLEEPING /\ chan (getp s' i) = chan (getp s i).
Proof.
  intros Hq Hs. destruct (calm_state _ _ (quiet_calm _ _ Hq i)) as [[E Hc]|[]]; [|congruence].
  split; [congruence|]. apply Hc. congruence.
Qed.

Lemma wakeup1_post c s :
  post (wakeup1 c) (fun _ s' => forall i, (i < NPROC)%nat -> state (getp s' i) = SLEEPING -> chan (getp s i) <> c) s.
Proof.
  unfold wakeup1, all_procs.
  cut (forall m k t, post (forM (seq k m) (fun i => let! p := proc_at i in
         if decide (state p = SLEEPING /\ chan p = c) then upd_proc i (set_state RUNNABLE) else ret tt))
       (fun _ s' => quiet t s' /\ forall i, (k <= i < k + m)%nat -> state (getp s' i) = SLEEPING -> chan (getp t i) <> c) t).
  { intros Hc. eapply post_mono; [apply Hc|]. intros [] s' [_ Hi] i Hn. apply Hi. lia. }
  induction m as [|m IH]; intros k t; simpl.
  - apply post_ret. split; [done|]. lia.
  - apply post_bind. eapply post_mono; [apply wake_body_post|]. intros [] s1 [Hq1 H1].
    eapply post_mono; [apply IH|]. intros [] s2 [Hq2 H2]. split; [by etrans|].
    intros i Hi Hs. destruct (quiet_sleeping _ _ _ Hq2 Hs) as [Hs1 _].
    destruct (decide (i = k)) as [->|Hne]; [by apply H1|].
    destruct (quiet_sleeping _ _ _ Hq1 Hs1) as [_ <-]. apply H2; [lia | done].
Qed.

(** Who sleeps in [wait] sleeps on the own address. *)
Definition parked (s : PS) : Prop := forall q, waiting s q -> chan (getp s q) = A_proc q.

Lemma waiting_quiet s s' q : quiet s s' -> waiting s' q -> waiting s q /\ chan (getp s' q) = chan (getp s q).
Proof.
  intros Hq [Hs Hc]. destruct (quiet_sleeping _ _ _ Hq Hs) as [Hs' E]. split; [split; [done|] | done].
  by rewrite <- (calm_context _ _ (quiet_calm _ _ Hq q)).
Qed.

Lemma parked_quiet s s' : quiet s s' -> parked s -> parked s'.
Proof. intros Hq Hp q Hw. destruct (waiting_quiet _ _ _ Hq Hw) as [Hw' ->]. auto. Qed.

(** After [wakeup1(q)], [q] does not sleep in [wait]. *)
Lemma wakeup1_wait q s :
  length (procs s) = NPROC -> parked s ->
  post (wakeup1 (chan_of q)) (fun _ s' => quiet s s' /\ forall i, q = Some i -> ~ waiting s' i) s.
Proof.
  intros Hl Hp [] s' E. pose proof (quiets_wakeup1 _ _ _ _ E) as Hq. split; [exact Hq|].
  intros i -> Hw. destruct (waiting_quiet _ _ _ Hq Hw) as [Hw' _].
  eapply (wakeup1_post _ _ _ _ E i); [|apply Hw | by apply Hp].
  rewrite <- Hl. apply getp_in. destruct Hw'. congruence.
Qed.

(** What the adoption of its children leaves alone of a process [me] about to die. *)
Record dying (b : cfg) (me : nat) (s0 s : PS) : Prop := MkDying {
  dying_len : length (procs s) = NPROC;
  dying_run : state (getp s me) = RUNNING;
  dying_mode : mode (getp s me) = mode (getp s0 me);
  dying_share : mode (getp s0 me) = STRD_SET_SCHED -> share (strd (getp s me)) = share (strd (getp s0 me));
  dying_parent : watch b = true -> parent (getp s me) = parent (getp s0 me) /\ parent (getp s0 me) <> Some me;
  dying_wait : watch b = true -> parked s /\ forall q, waiting s q -> waiting s0 q
}.

Lemma adopt_step b i s a s' :
  length (procs s) = NPROC -> (watch b = true -> parked s) ->
  (let! ini := gets initproc in
   upd_proc i (set_parent ini) ;;;
   let! p := proc_at i in
   if decide (state p = ZOMBIE) then wakeup1 (chan_of ini) else ret tt) s = Ret a s' ->
  ustep b s s' /\ quiet (put i (set_parent (initproc s) (getp s i)) s) s'.
Proof.
  intros Hl Hp E. set (s1 := put i (set_parent (initproc s) (getp s i)) s).
  change ((if decide (state (getp s1 i) = ZOMBIE) then wakeup1 (chan_of (initproc s)) else ret tt) s1 = Ret a s') in E.
  assert (Hg : forall j, state (getp s1 j) = state (getp s j) /\ context (getp s1 j) = context (getp s j)
                         /\ chan (getp s1 j) = chan (getp s j)).
  { clear E. intros j. subst s1. rewrite getp_put. case_decide as D; [by destruct D as [<- _] | done]. }
  assert (Hq : quiet s1 s').
  { case_decide; [exact (quiets_wakeup1 _ _ _ _ E) | by minv]. }
  split; [|done]. eapply u_adopt; [exact Hq|]. intros Eb Hz q Hi.
  destruct (Hg i) as (Hgi & _). case_decide; [|congruence].
  refine (proj2 (wakeup1_wait _ _ _ _ _ _ E) q Hi).
  - subst s1. by rewrite length_put.
  - intros j [Hw1 Hw2]. destruct (Hg j) as (Ej1 & Ej2 & ->). apply Hp; [done|]. split; congruence.
Qed.

Lemma reparent_sim b me i s0 s :
  dying b me s0 s -> sim b (reparent me i) (fun _ => dying b me s0) s.
Proof.
  intros Hd a s' E. unfold reparent, proc_at in E.
  rewrite (bind_ret _ _ s (getp s i) s) in E by done. case_decide as Hpar; [|by injection E as <- <-].
  pose proof (dying_len _ _ _ _ Hd) as Hl.
  apply (adopt_step b) in E as [Hu Hq]; [|done | by intros Eb; apply (dying_wait _ _ _ _ Hd)].
  split; [by apply rtc_once|].
  set (s1 := put i (set_parent (initproc s) (getp s i)) s) in *.
  assert (Hg : forall j, exists v, getp s1 j = set_parent v (getp s j) /\ (j <> i -> v = parent (getp s j))).
  { intros j. subst s1. rewrite getp_put. case_decide as D.
    - destruct D as [<- _]. by eexists.
    - exists (parent (getp s j)). by destruct (getp s j). }
  destruct Hd as [_ Hr Hm Hs Hp Hw]. destruct (Hg me) as (v & Ev & Hv).
  pose proof (quiet_calm _ _ Hq me) as Hc. constructor.
  - rewrite (quiet_len _ _ Hq). subst s1. by rewrite length_put.
  - rewrite (quiet_state s1 s') by (done || (rewrite Ev; simpl; congruence)). by rewrite Ev.
  - rewrite (calm_mode _ _ Hc), Ev. done.
  - intros Em. rewrite (calm_share _ _ Hc) by (rewrite Ev; simpl; congruence). rewrite Ev. by apply Hs.
  - intros Eb. destruct (Hp Eb) as [Hp1 Hp2]. split; [|done].
    rewrite (calm_parent _ _ Hc), Ev. simpl. rewrite Hv; [done|]. congruence.
  - intros Eb. destruct (Hw Eb) as [Hpk Hww].
    assert (Hw1 : forall q, waiting s1 q -> waiting s q /\ chan (getp s1 q) = chan (getp s q)).
    { intros q [H1 H2]. destruct (Hg q) as (w & Ew & _). rewrite Ew in H1, H2 |- *. done. }
    split.
    + eapply parked_quiet; [exact Hq|]. intros q Hq1. destruct (Hw1 q Hq1) as [? ->]. auto.
    + intros q Hq1. destruct (waiting_quiet _ _ _ Hq Hq1) as [Hq2 _]. by apply Hww, Hw1.
Qed.

(** Operations that do not look at the share counters. *)
Definition commutes (g : PS -> PS) {A} (m : P A) : Prop :=
  forall s, m (g s) = match m s with Ret a t => Ret a (g t) | Stop r t => Stop r (g t) end.

Lemma commutes_bind g {A B} (m : P A) (k : A -> P B) :
  commutes g m -> (forall a, commutes g (k a)) -> commutes g (bind m k).
Proof. intros Hm Hk s. unfold bind. rewrite Hm. destruct (m s); [apply Hk | done]. Qed.

Lemma commutes_forM g {A} (l : list A) body : (forall x, commutes g (body x)) -> commutes g (forM l body).
Proof. intros Hb. induction l; simpl; [by intros s | by apply commutes_bind]. Qed.

Lemma commutes_wakeup1 d c : commutes (refund d) (wakeup1 c).
Proof. apply commutes_forM. intros i. apply commutes_bind; [by intros s|]. intros p. by case_decide. Qed.

Lemma commutes_reparent d me i : commutes (refund d) (reparent me i).
Proof.
  apply commutes_bind; [by intros s|]. intros p. case_decide; [|by intros s].
  apply commutes_bind; [by intros s|]. intros ini. apply commutes_bind; [by intros s|]. intros [].
  apply commutes_bind; [by intros s|]. intros q. case_decide; [apply commutes_wakeup1 | by intros s].
Qed.

Lemma reparent_all_sim b me s :
  dying b me s s -> sim b (forM all_procs (reparent me)) (fun _ => dying b me s) s.
Proof. intros Hd. apply sim_forM; [done|]. intros i s' _ Hd'. by apply reparent_sim. Qed.

(** The tail of [exit]: the adoption of the children, with the share given back
    before it, and the end. *)
Lemma exit_tail_sim b me p s :
  who b = Some me -> dying b me s s -> (watch b = true -> forall q, parent (getp s me) = Some q -> ~ waiting s q) ->
  mode p = mode (getp s me) -> (mode p = STRD_SET_SCHED -> share (strd p) = share (strd (getp s me))) ->
  sim b ((if decide (mode p = STRD_SET_SCHED) then
            modify (fun s => with_strd_share_sum (i32 (strd_share_sum s - share (strd p)))
                               (with_strd_sum (i32 (strd_sum s + share (strd p))) s))
          else ret tt) ;;;
         forM all_procs (reparent me) ;;;
         upd_proc me (set_state ZOMBIE) ;;;
         sched me 1 C_zombie) anyway s.
Proof.
  intros Hwho Hd Hw Em Es a s' E. split; [|done].
  set (g := fun t : PS => if decide (mode p = STRD_SET_SCHED) then refund (share (strd p)) t else t).
  assert (exists t, forM all_procs (reparent me) s = Ret tt t /\
    (upd_proc me (set_state ZOMBIE) ;;; sched me 1 C_zombie) (g t) = Ret a s') as (t & Et & E2).
  { apply bind_ret_inv in E as ([] & s1 & E1 & ([] & t' & E2 & E3)%bind_ret_inv). subst g. case_decide.
    - injection E1 as <-. change (forM all_procs (reparent me) (refund (share (strd p)) s) = Ret tt t') in E2.
      rewrite (commutes_forM _ _ _ (commutes_reparent (share (strd p)) me)) in E2.
      destruct (forM _ _ s) as [[] t|]; [|done]. injection E2 as <-. eauto.
    - injection E1 as <-. eauto. }
  destruct (reparent_all_sim b me s Hd _ _ Et) as [Hu [Hl Hr Hm Hs Hp Hww]].
  assert (Hg : forall u, give_back true (getp t me) u = g u).
  { intros u. unfold give_back, g. simpl. rewrite Hm, <- Em. case_decide as D; [|by rewrite bool_decide_eq_false_2].
    rewrite bool_decide_eq_true_2, Hs, Es by congruence. done. }
  etrans; [exact Hu|]. eapply rtc_l; [apply (u_die b me true t Hr Hwho)|].
  - intros Eb q Hpar Hwq. destruct (Hp Eb) as [Hp1 _]. apply (Hw Eb q); [congruence|]. by apply (Hww Eb).
  - apply usteps_quiet. rewrite Hg. apply running_in in Hr. subst g. cbv beta in *.
    apply switch_eq in E2; [|by case_decide]. subst s'. by case_decide; apply quiet_misc.
Qed.

(** The critical section that ends a process: somebody to wake, then the end. *)
Lemma exit_finish_sim b me s :
  who b = Some me -> length (procs s) = NPROC -> state (getp s me) = RUNNING ->
  (watch b = true -> parked s /\ parent (getp s me) <> Some me) -> sim b (exit_finish me) anyway s.
Proof.
  intros Hwho Hl Hr Hp. unfold exit_finish. sstep. rename s' into s1. sstep.
  pose proof (running_quiet _ _ _ H0 Hr) as Hr1. pose proof (quiet_len _ _ H0) as Hl1.
  assert (Hp1 : watch b = true -> parked s1 /\ parent (getp s1 me) <> Some me).
  { intros Eb. destruct (Hp Eb). split; [by eapply parked_quiet|].
    by rewrite (calm_parent _ _ (quiet_calm _ _ H0 me)). }
  clear Hp Hr H0. apply sim_bind.
  apply (sim_mono _ _ (fun _ s2 => quiet s1 s2 /\
    (watch b = true -> forall q, parent (getp s1 me) = Some q -> ~ waiting s2 q))).
  { assert (Hwk : sim b (wakeup1 (chan_of (parent (getp s1 me)))) (fun _ s2 => quiet s1 s2 /\
      (watch b = true -> forall q, parent (getp s1 me) = Some q -> ~ waiting s2 q)) s1).
    { intros a2 s2 E. pose proof (quiets_wakeup1 _ _ _ _ E) as Hq. split; [by apply usteps_quiet|].
      split; [done|]. intros Eb. refine (proj2 (wakeup1_wait _ _ _ _ _ _ E)); [congruence | by apply Hp1]. }
    case_decide; [done|]. case_decide as Hn; [done|]. apply sim_ret. split; [done|].
    intros _ q Hq. congruence. }
  intros [] s2 [Hq Hw]. pose proof (quiet_calm _ _ Hq me) as Hc.
  apply exit_tail_sim; [done|..].
  - constructor; try done; [by rewrite (quiet_len _ _ Hq); congruence | by eapply running_quiet | |].
    + intros Eb. split; [done|]. rewrite (calm_parent _ _ Hc). by apply Hp1.
    + intros Eb. split; [|done]. eapply parked_quiet; [exact Hq | by apply Hp1].
  - intros Eb q Hpar. apply Hw; [done|]. by rewrite <- (calm_parent _ _ Hc).
  - by rewrite (calm_mode _ _ Hc).
  - intros Em. symmetry. by apply (calm_share _ _ Hc).
Qed.

(** The process [me], running, in a state it may end from. *)
Definition ready_to_die (b : cfg) (me : nat) (s : PS) : Prop :=
  who b = Some me /\ length (procs s) = NPROC /\ state (getp s me) = RUNNING /\
  (watch b = true -> parked s /\ parent (getp s me) <> Some me).

Lemma ready_quiet b me s s' : quiet s s' -> ready_to_die b me s -> ready_to_die b me s'.
Proof.
  intros Hq (Hw & Hl & Hr & Hp). split; [done|]. split; [by rewrite (quiet_len _ _ Hq)|]. split; [by eapply running_quiet|].
  intros Eb. destruct (Hp Eb). split; [by eapply parked_quiet|].
  by rewrite (calm_parent _ _ (quiet_calm _ _ Hq me)).
Qed.

Ltac rq Hd :=
  apply sim_bind_quiet; [solve [qauto] |];
  let Hq := fresh "Hq" in intros ? ? Hq; apply (ready_quiet _ _ _ _ Hq) in Hd; clear Hq.

Lemma exit_rest_sim b me s : ready_to_die b me s -> sim b (exit_rest me) anyway s.
Proof. intros Hd. unfold exit_rest. rq Hd. rq Hd. by apply exit_finish_sim; apply Hd. Qed.

Lemma thread_exit_finish_sim b me v s :
  ready_to_die b me s -> sim b (thread_exit_finish me v) anyway s.
Proof.
  intros Hd. unfold thread_exit_finish. rq Hd. rq Hd. rename s'0 into s1. sstep.
  destruct Hd as (Hwho & Hl & Hr & Hp). apply sim_bind.
  apply (sim_mono _ _ (fun _ s2 => quiet s1 s2 /\
    (watch b = true -> forall q, parent (getp s1 me) = Some q -> ~ waiting s2 q))).
  { intros a2 s2 E. pose proof (quiets_wakeup1 _ _ _ _ E) as Hq. split; [by apply usteps_quiet|].
    split; [done|]. intros Eb. refine (proj2 (wakeup1_wait _ _ _ _ _ _ E)); [congruence | by apply Hp]. }
  intros [] s2 [Hq Hw]. pose proof (running_quiet _ _ _ Hq Hr) as Hr2.
  intros a3 s3 E. split; [|done].
  eapply (rtc_l _ _ _ _ (u_die b me false s2 Hr2 Hwho _)).
  Unshelve.
  2: { intros Eb q Hpar. apply Hw; [done|]. by rewrite <- (calm_parent _ _ (quiet_calm _ _ Hq me)). }
  change ((upd_proc me (set_state ZOMBIE) ;;; sched me 1 C_zombie) (with_num_lwp (i32 (num_lwp s2 - 1)) s2) = Ret a3 s3) in E.
  apply switch_eq in E; [|by apply (running_in s2)]. subst s3.
  by apply usteps_quiet, quiet_misc.
Qed.

Lemma thread_exit_sim b me v s : ready_to_die b me s -> sim b (thread_exit me v) anyway s.
Proof.
  intros Hd. unfold thread_exit. sstep. case_decide; [sstep|]. rq Hd. rq Hd. by apply thread_exit_finish_sim.
Qed.

(** Freeing the slot of a zombie. *)
Lemma sim_reap b i f {A} (k : P A) Q s :
  (forall p, state (f p) = UNUSED /\ pid (f p) = 0 /\ parent (f p) = None /\
             (lwpid (thr (f p)) = lwpid (thr p) \/ lwpid (thr (f p)) = 0) /\ mode (f p) = mode p) ->
  state (getp s i) = ZOMBIE -> sim b k Q (put i (f (getp s i)) s) -> sim b (upd_proc i f ;;; k) Q s.
Proof. intros Hf Hz Hk. destruct (Hf (getp s i)) as (? & ? & ? & ? & ?). apply sim_bind_step; [by apply u_reap | done]. Qed.

Lemma clear_proc_ok p :
  state (clear_proc p) = UNUSED /\ pid (clear_proc p) = 0 /\ parent (clear_proc p) = None /\
  (lwpid (thr (clear_proc p)) = lwpid (thr p) \/ lwpid (thr (clear_proc p)) = 0) /\ mode (clear_proc p) = mode p.
Proof. destruct p. by repeat split; [..|left]. Qed.

Lemma clear_lwp_ok p :
  state (clear_lwp p) = UNUSED /\ pid (clear_lwp p) = 0 /\ parent (clear_lwp p) = None /\
  (lwpid (thr (clear_lwp p)) = lwpid (thr p) \/ lwpid (thr (clear_lwp p)) = 0) /\ mode (clear_lwp p) = mode p.
Proof. destruct p. by repeat split; [..|right]. Qed.

Lemma zombie_quiet s s' i : quiet s s' -> state (getp s i) = ZOMBIE -> state (getp s' i) = ZOMBIE.
Proof. intros Hq Hz. by rewrite (quiet_state s) by congruence. Qed.

Lemma wait_round_sim b me s :
  who b = Some me -> length (procs s) = NPROC -> state (getp s me) = RUNNING -> sim b (wait_round me) anyway s.
Proof.
  intros Hwho Hl Hr. unfold wait_round. sstep. destruct (find_proc _ s) as [i|] eqn:Hf.
  - apply find_proc_spec in Hf as [[_ Hz%bool_decide_eq_true]%andb_true_iff _]. sstep. sstep. sstep. sstep.
    assert (Hz' : state (getp s'1 i) = ZOMBIE) by (eapply zombie_quiet; [|exact Hz]; qtrans).
    apply sim_reap; [apply clear_proc_ok | done|]. sstep. by sstep.
  - sstep. sstep. destruct (_ || _); [sstep; by sstep|].
    apply sim_bind. eapply sim_mono; [apply sleep_sim; [done | done|]|intros ? ? _; by sstep].
    intros _. split; [done|]. intros j Hj Hz.
    assert (Hin : (j < length (procs s))%nat) by (apply getp_in; congruence). rewrite Hl in Hin.
    apply (find_proc_none _ _ j) in Hf; [|done]. unfold is_child, is_state in Hf.
    by rewrite !bool_decide_eq_true_2 in Hf.
Qed.

Lemma join_round_sim b me t r s :
  who b = Some me -> length (procs s) = NPROC -> state (getp s me) = RUNNING -> sim b (join_round me t r) anyway s.
Proof.
  intros Hwho Hl Hr. unfold join_round. sstep. sstep. destruct (find_proc _ s) as [i|] eqn:Hf.
  - apply find_proc_spec in Hf as [[_ Hz%bool_decide_eq_true]%andb_true_iff _]. sstep. sstep. sstep. sstep. sstep. sstep.
    match goal with |- sim _ _ _ ?x => assert (Hz' : state (getp x i) = ZOMBIE)
      by (eapply zombie_quiet; [|exact Hz]; qtrans) end.
    apply sim_reap; [apply clear_lwp_ok | done|]. sstep. by sstep.
  - destruct (killed _); [sstep; by sstep|].
    apply sim_bind. eapply sim_mono; [by apply sleep_sim|intros ? ? _; by sstep].
Qed.

Lemma ready_reap b me i q s :
  state (getp s i) = ZOMBIE -> state q = UNUSED -> ready_to_die b me s -> ready_to_die b me (put i q s).
Proof.
  intros Hz Hq (Hw & Hl & Hr & Hp). assert (i <> me) by congruence. split; [done|].
  split; [by rewrite length_put|]. rewrite getp_put_ne by done. split; [done|].
  intros Eb. destruct (Hp Eb) as [Hpk Hpar]. split; [|done].
  intros j. unfold waiting. rewrite getp_put. case_decide; [by intros []; congruence|]. apply Hpk.
Qed.

Lemma exit_reap_sim b me i s :
  ready_to_die b me s -> sim b (exit_reap me i) (fun _ => ready_to_die b me) s.
Proof.
  intros Hd. unfold exit_reap. sstep. sstep. case_decide; [by sstep|]. case_decide as Hz.
  - sstep. sstep. sstep. rename s'1 into s1.
    assert (Hq : quiet s s1) by qtrans. apply (ready_quiet _ _ _ _ Hq) in Hd.
    apply (zombie_quiet _ _ _ Hq) in Hz.
    apply sim_reap; [apply clear_lwp_ok | done|]. apply sim_quiet; [qauto|]. intros [] s2 Hq2.
    eapply ready_quiet; [exact Hq2|]. apply ready_reap; [done | by apply clear_lwp_ok | done].
  - rq Hd. apply sim_quiet; [qauto|]. intros [] s2 Hq2. by eapply ready_quiet.
Qed.

Lemma exit_round_sim b me s :
  ready_to_die b me s ->
  sim b (exit_round me) (fun r s' => match r with Done _ => ready_to_die b me s' | _ => True end) s.
Proof.
  intros Hd. unfold exit_round. apply sim_bind, (sim_mono _ _ (fun _ => ready_to_die b me)).
  { apply sim_forM; [done|]. intros i s' _. apply exit_reap_sim. }
  clear Hd. intros [] s1 Hd. sstep. case_decide.
  - rq Hd. by sstep.
  - apply sim_bind. eapply sim_mono; [apply sleep_sim; [apply Hd | apply Hd | done] | intros ? ? _; by sstep].
Qed.

Lemma exit_again_sim b me s : ready_to_die b me s -> sim b (exit_again me) anyway s.
Proof.
  intros Hd. unfold exit_again. apply sim_bind. eapply sim_mono; [by apply exit_round_sim|].
  intros [[]|c []] s1 Hr; [|by sstep].
  apply sim_bind. eapply sim_mono; [by apply exit_rest_sim | intros ? ? _; by sstep].
Qed.

Lemma exit_sim b me s : ready_to_die b me s -> sim b (exit me) anyway s.
Proof.
  intros Hd. unfold exit. sstep. case_decide; [sstep|]. sstep. case_decide.
  - rq Hd. rq Hd. by apply exit_again_sim.
  - apply sim_bind_quiet.
    { apply quiets_if; [qauto|]. destruct (parent (getp s me)); qauto. }
    intros [] s1 Hq. apply (ready_quiet _ _ _ _ Hq) in Hd.
    apply sim_bind. eapply sim_mono; [by apply exit_rest_sim | intros ? ? _; by sstep].
Qed.

(** ** Running *)

Definition dispatch (i : nat) : P unit :=
  acquire ;;;
  let! r := scheduler_visit i in
  if (r : bool) then resume i else release.

Lemma resume_sim b i s : ready_to_die b i s -> sim b (resume i) anyway s.
Proof.
  intros Hd. unfold resume. sstep. pose proof Hd as (_ & _ & Hr & _).
  destruct (context (getp s i)); [by sstep | by sstep | by sstep | | by sstep].
  assert (Hc : calm (getp s i) (set_chan A_null (getp s i))).
  { destruct (getp s i); simpl in *. constructor; simpl; auto. left. split; [done|]. congruence. }
  apply sim_bind_step; [by apply u_quiet, quiet_put|].
  apply (ready_quiet b i s (put i (set_chan A_null (getp s i)) s)) in Hd; [|by apply quiet_put].
  destruct k; [by sstep | | |];
    (apply sim_bind; eapply sim_mono; [|intros ? ? _; by sstep]).
  - apply wait_round_sim; apply Hd.
  - by apply exit_again_sim.
  - apply join_round_sim; apply Hd.
Qed.

Lemma dispatch_sim b i s :
  pick b = Some i -> who b = Some i -> length (procs s) = NPROC ->
  (watch b = true -> parked s /\ parent (getp s i) <> Some i) -> sim b (dispatch i) anyway s.
Proof.
  intros Hi Hwho Hl Hp. unfold dispatch. sstep. rename s' into s1.
  assert (Hp1 : watch b = true -> parked s1 /\ parent (getp s1 i) <> Some i).
  { intros Eb. destruct (Hp Eb). split; [by eapply parked_quiet|].
    by rewrite (calm_parent _ _ (quiet_calm _ _ H0 i)). }
  pose proof (quiet_len _ _ H0) as Hl1. clear H0 Hp.
  unfold scheduler_visit. sstep. case_decide as Hrun; [by sstep; sstep|].
  sstep. rename s' into s2.
  assert (Hrun2 : state (getp s2 i) = RUNNABLE).
  { rewrite (quiet_state s1); [|done|]; destruct (state (getp s1 i)); done. }
  apply sim_bind_step; [by apply u_run|]. sstep. apply resume_sim.
  split; [done|]. split; [rewrite length_put, (quiet_len _ _ H0); congruence|].
  rewrite getp_put_eq by (apply getp_in; congruence). split; [done|].
  intros Eb. destruct (Hp1 Eb) as [Hpk Hpar]. split.
  - intros j. unfold waiting. rewrite getp_put. case_decide as D; [by intros [] |].
    apply (parked_quiet _ _ H0 Hpk).
  - simpl. by rewrite (calm_parent _ _ (quiet_calm _ _ H0 i)).
Qed.

(** ** Scheduling parameters *)

(** Quiet, with nobody's state or mode changed. *)
Definition tuned (s s' : PS) : Prop :=
  quiet s s' /\ forall j, state (getp s' j) = state (getp s j) /\ mode (getp s' j) = mode (getp s j).

#[local] Instance tuned_pre : PreOrder tuned.
Proof.
  split; [by split|]. intros s t u [Hq1 H1] [Hq2 H2]. split; [by etrans|].
  intros j. destruct (H1 j), (H2 j). split; congruence.
Qed.

Lemma tuned_put i p s :
  calm (getp s i) p -> state p = state (getp s i) -> tuned s (put i p s).
Proof.
  intros Hc Hs. split; [by apply quiet_put|]. intros j. rewrite getp_put. case_decide as D; [|done].
  destruct D as [<- _]. split; [done | apply Hc].
Qed.

Lemma calm_set_stride v p : calm p (set_stride v p).
Proof. destruct p. constructor; simpl; auto. Qed.

Lemma calm_set_share v p : mode p <> STRD_SET_SCHED -> calm p (set_share v p).
Proof. intros Hm. destruct p; simpl in *. constructor; simpl; auto. by intros ?. Qed.

Lemma divide_post a b (Q : Z -> PS -> Prop) s : (b <> 0 -> Q (Z.quot a b) s) -> post (divide a b) Q s.
Proof. intros HQ. unfold divide. case_decide; [apply post_stop | by apply post_ret, HQ]. Qed.

(** A new share, and the stride that follows from it. *)
Lemma restride_post i v s :
  mode (getp s i) <> STRD_SET_SCHED ->
  post (upd_proc i (set_share v) ;;; let! w := divide 10001 v in upd_proc i (set_stride w)) (fun _ => tuned s) s.
Proof.
  intros Hm. apply post_bind, post_modify, post_bind, divide_post. intros _. apply post_modify.
  etrans; apply tuned_put; first [by apply calm_set_share | apply calm_set_stride | by destruct (getp _ i)].
Qed.

Lemma update_one_post n1 n2 i s :
  (state (getp s i) = RUNNABLE -> mode (getp s i) = MLFQ_SCHED -> 0 < n2) ->
  post (update_one n1 n2 i) (fun _ => tuned s) s.
Proof.
  intros Hn. unfold update_one, proc_at. pstep. case_decide as Hr; [by pstep|].
  destruct (mode (getp s i)) eqn:Hm.
  - pstep. apply post_bind, divide_post. intros _. apply restride_post. congruence.
  - apply post_bind, divide_post. intros _. apply post_modify, tuned_put; [apply calm_set_stride | by destruct (getp s i)].
  - case_decide; [|pstep; apply post_bind, divide_post; intros _; apply restride_post; congruence].
    enough (0 < n2) by lia. apply Hn; [|done]. destruct (state (getp s i)); done.
Qed.

Lemma count_pos s i sm :
  (i < NPROC)%nat -> state (getp s i) = RUNNABLE -> mode (getp s i) = sm -> 0 < ready_count sm s.
Proof.
  intros Hi Hr Hm. unfold ready_count. assert (Hin : In i (List.filter (fun i =>
    is_state RUNNABLE (getp s i) && bool_decide (mode (getp s i) = sm)) all_procs)).
  { apply filter_In. split; [apply in_seq; lia|]. unfold is_state. by rewrite !bool_decide_eq_true_2. }
  destruct (List.filter _ _); [done | simpl; lia].
Qed.

(** No share counter changes: the branch that would drop the share of the
    multi-level queue is not reached. *)
Lemma update_strd_tuned s : post update_strd (fun _ => tuned s) s.
Proof.
  unfold update_strd, get_num. pstep. pstep. apply post_bind.
  eapply post_mono; [apply (post_forM (tuned s)); [done|] | intros [] s' Ht; by pstep].
  intros i s' [_ Hi]%elem_of_seq Ht. eapply post_mono; [apply update_one_post|].
  - intros Hr Hm. destruct Ht as [_ Ht]. destruct (Ht i). apply (count_pos s i); [unfold NPROC in *; lia | congruence..].
  - intros [] s2 Ht2. by etrans.
Qed.

Lemma quiets_update_strd : @quiets R _ update_strd.
Proof. intros s. eapply post_mono; [apply update_strd_tuned|]. by intros ? ? []. Qed.
#[local] Hint Resolve quiets_update_strd : quiet.

Lemma quiets_divide a b : @quiets R _ (divide a b).
Proof. unfold divide. qauto. Qed.
#[local] Hint Resolve quiets_divide : quiet.

Lemma quiets_get_num sm : @quiets R _ (get_num sm).
Proof. apply quiets_gets. Qed.
#[local] Hint Resolve quiets_get_num : quiet.

Lemma quiets_get_min_pass : @quiets R _ get_min_pass.
Proof. unfold get_min_pass. qauto. Qed.

(** The refusal of [cpu_share], from the state in which the counters are back. *)
Lemma cpu_refuse_sim b me s : mode (getp s me) = STRD_SCHED -> sim b (cpu_refuse me) anyway s.
Proof.
  intros Hm. unfold cpu_refuse, get_num. sstep. sstep. sstep. apply sim_bind.
  apply (sim_mono _ _ anyway); [|intros [] s1 _; by repeat sstep].
  assert (Hd : forall x y, sim b (let! v := divide x y in upd_proc me (set_share v)) anyway s).
  { intros x y. apply sim_bind. intros v s1 E. unfold divide in E. case_decide; [done|]. injection E as <- <-.
    split; [done|]. apply sim_step; [|done]. apply u_quiet, quiet_put, calm_set_share. congruence. }
  case_decide; [done|]. case_decide; [done|sstep].
Qed.

Lemma bind_modify {A} f (k : P A) s : (modify f ;;; k) s = k (f s).
Proof. done. Qed.
Lemma bind_upd {A} i f (k : P A) s : (upd_proc i f ;;; k) s = k (put i (f (getp s i)) s).
Proof. done. Qed.
Lemma bind_gets {A B} (f : PS -> B) (k : B -> P A) s : bind (gets f) k s = k (f s) s.
Proof. done. Qed.

Lemma cpu_share_sim b me v s : state (getp s me) = RUNNING -> v < 2 ^ 31 -> (modest b = true -> v <= modest_share) ->
  sim b (cpu_share me v) anyway s.
Proof.
  intros Hr Hv31 Hmod. unfold cpu_share. sstep. rename s' into s1. sstep. case_decide; [sstep|].
  assert (Hr1 : state (getp s1 me) = RUNNING) by (by eapply running_quiet).
  assert (Hin : (me < length (procs s1))%nat) by (by apply running_in).
  intros a' s' E. split; [|done]. set (p := getp s1 me).
  set (t := put me (set_share v (set_mode STRD_SET_SCHED p))
              (with_strd_sum (i32 (strd_sum s1 - v)) (with_strd_share_sum (i32 (strd_share_sum s1 + v)) s1))).
  rewrite bind_modify, bind_upd in E.
  replace (put me _ _) with t in E by reflexivity.
  rewrite bind_gets in E. replace (strd_share_sum t) with (i32 (strd_share_sum s1 + v)) in E by reflexivity.
  case_decide; [rewrite bind_modify, bind_upd in E|].
  - replace (getp _ me) with (getp t me) in E by reflexivity.
    assert (Eg : getp t me = set_share v (set_mode STRD_SET_SCHED p)) by (by apply getp_put_eq). rewrite Eg in E.
    set (t2 := put me _ _) in E.
    eapply rtc_l; [by apply (u_unshare b me v s1)|]. eapply rtc_l; [apply u_wrap|]. etrans.
    2: { apply (cpu_refuse_sim b me t2) in E as [Hu _]; [exact Hu|].
         subst t2. rewrite getp_put_eq; [done|]. simpl. by rewrite length_insert. }
    apply usteps_quiet. subst t2 t.
    apply quiet_misc; simpl; [by rewrite list_insert_insert_eq | reflexivity.. | by rewrite i32_sub_l; f_equal; lia
      | by rewrite i32_add_l; f_equal; lia | reflexivity].
  - eapply rtc_l; [apply (u_share b me v s1); [exact Hr1 | lia | exact Hmod | lia..]|].
    assert (Hq : @quiets R _ (let! _ := update_strd in init_pass ;;; release ;;; ret 0)) by qauto.
    exact (usteps_quiet b _ _ (Hq _ _ _ E)).
Qed.

Lemma run_MLFQ_sim b me s : state (getp s me) = RUNNING -> sim b (run_MLFQ me) anyway s.
Proof.
  intros Hr. unfold run_MLFQ. sstep. rename s' into s1. sstep.
  assert (Hr1 : state (getp s1 me) = RUNNING) by (by eapply running_quiet).
  apply sim_bind, (sim_mono _ _ (fun _ s2 => state (getp s2 me) = RUNNING /\ mshare (mlfqs s2) <> 0)).
  { case_decide; [|by sstep]. apply sim_step; [|done]. by apply u_mlfqs. }
  intros [] s2 [Hr2 Hm2].
  apply sim_bind_step; [apply u_quiet, quiet_misc; done|].
  apply sim_bind_step; [by apply u_mlfq|].
  by repeat sstep.
Qed.

(** ** The system

    A process that runs makes one of the calls of proc.c; the scheduler visits a
    slot; an interrupt handler, or another part of the kernel, wakes sleepers up. *)
Inductive pcall :=
| P_fork | P_exit | P_wait | P_kill (n : Z) | P_growproc (n : Z) | P_yield
| P_sleep (c : kaddr) (held : Z)
| P_thread_create (thread f arg : Z) | P_thread_exit (v : Z) | P_thread_join (thread retp : Z)
| P_cpu_share (v : Z) | P_run_MLFQ | P_get_min_pass | P_sleep_others | P_lower_num_lwp.

Definition forget {A} (m : P A) : P unit := let! _ := m in ret tt.

Definition run_call (me : nat) (o : pcall) : P unit :=
  match o with
  | P_fork => forget (fork me)
  | P_exit => forget (exit me)
  | P_wait => forget (wait me)
  | P_kill n => forget (kill me n)
  | P_growproc n => forget (growproc me n)
  | P_yield => yield me
  | P_sleep c n => sleep me c K_other n
  | P_thread_create t f a => forget (thread_create me t f a)
  | P_thread_exit v => thread_exit me v
  | P_thread_join t r => forget (thread_join me t r)
  | P_cpu_share v => forget (cpu_share me (i32 v))
  | P_run_MLFQ => forget (run_MLFQ me)
  | P_get_min_pass => forget get_min_pass
  | P_sleep_others => sleep_others me
  | P_lower_num_lwp => lower_num_lwp
  end.

Inductive label := L_call (me : nat) (o : pcall) | L_visit (i : nat) | L_wakeup (c : kaddr).

Definition act (l : label) : P unit :=
  match l with
  | L_call me o => run_call me o
  | L_visit i => dispatch i
  | L_wakeup c => wakeup c
  end.

(** Only a running process makes calls. *)
Definition enabled (l : label) (s : PS) : Prop :=
  match l with L_call me _ => state (getp s me) = RUNNING | _ => True end.

Definition pstep (l : label) (s s' : PS) : Prop := enabled l s /\ act l s = Ret tt s'.

(** Whose end the label can be. *)
Definition actor (l : label) : option nat :=
  match l with L_call me _ => Some me | L_visit i => Some i | L_wakeup _ => None end.

Lemma forget_sim b {A} (m : P A) s : sim b m anyway s -> sim b (forget m) anyway s.
Proof. intros Hm. apply sim_bind. eapply sim_mono; [exact Hm|]. intros ? ? _. by sstep. Qed.

(** The request for a share that the label makes, if any, is small. *)
Definition modest_label (l : label) : Prop := match l with L_call _ (P_cpu_share v) => i32 v <= modest_share | _ => True end.

Lemma run_call_sim b me o s : ready_to_die b me s -> (modest b = true -> modest_label (L_call me o)) -> sim b (run_call me o) anyway s.
Proof.
  intros Hd Hmod. pose proof Hd as (Hw & Hl & Hr & _).
  destruct o; simpl.
  - by apply forget_sim, fork_sim.
  - by apply forget_sim, exit_sim.
  - apply forget_sim. unfold wait. rq Hd. apply wait_round_sim; apply Hd.
  - apply forget_sim, sim_quiet; [apply quiets_kill | done].
  - apply forget_sim, sim_quiet; [apply quiets_growproc | done].
  - by apply yield_sim.
  - by apply sleep_sim.
  - by apply forget_sim, thread_create_sim.
  - by apply thread_exit_sim.
  - apply forget_sim. unfold thread_join. sstep. case_decide; [by sstep|]. rq Hd. apply join_round_sim; apply Hd.
  - apply forget_sim, cpu_share_sim; [done | apply i32_range | done].
  - by apply forget_sim, run_MLFQ_sim.
  - apply forget_sim, sim_quiet; [apply quiets_get_min_pass | done].
  - unfold sleep_others. sstep. sstep. destruct (killed _); [by sstep|]. sstep. by sstep.
  - unfold lower_num_lwp. by sstep.
Qed.

(** Whom the scheduler runs. *)
Definition visited (l : label) : option nat := match l with L_visit i => Some i | _ => None end.

(** The restrictions that the transitions of a step satisfy. *)
Definition cfg_of (w : bool) (m : bool) (l : label) : cfg := Cfg w (visited l) (actor l) m.

(** Every step of the system is a sequence of transitions. *)
Lemma pstep_usteps w m l s s' :
  length (procs s) = NPROC -> (w = true -> parked s /\ forall i, actor l = Some i -> parent (getp s i) <> Some i) ->
  (m = true -> modest_label l) -> pstep l s s' -> usteps (cfg_of w m l) s s'.
Proof.
  intros Hl Hp Hm [He E]. destruct l; simpl in *.
  - apply (run_call_sim (cfg_of w m (L_call me o))) in E as [Hu _]; [done | | done]. split; [done|]. split; [done|]. split; [done|].
    intros Eb. destruct (Hp Eb). auto.
  - apply (dispatch_sim (cfg_of w m (L_visit i))) in E as [Hu _]; [done..|]. intros Eb. destruct (Hp Eb). auto.
  - apply usteps_quiet. exact (quiets_wakeup _ _ _ _ E).
Qed.

(** ** Boot *)

(** The globals as the loader leaves them. *)
Definition boot (r : R) : PS :=
  MkP false (replicate NPROC proc0) None 1 1 0 0 100 (MkMlfqs 0 0 0 0 0 0 0) (replicate NSTACK false) true r.

Lemma userinit_sim b s :
  length (procs s) = NPROC -> mshare (mlfqs s) = 0 -> sim b userinit anyway s.
Proof.
  intros Hl Hm. unfold userinit. apply sim_bind. eapply sim_mono; [by apply allocproc_sim|].
  intros [np|] s1 [(Hl1 & Hm1 & _) Hn]; [|by sstep].
  assert (Hk : newborn np s1 /\ mshare (mlfqs s1) = 0) by (split; congruence || done). clear Hl Hm Hl1 Hm1 Hn.
  apply sim_bind_step; [apply u_init|].
  change (newborn np (with_initproc (Some np) s1) /\ mshare (mlfqs (with_initproc (Some np) s1)) = 0) in Hk.
  remember (with_initproc (Some np) s1) as s2 eqn:E. clear E s1.
  do 9 (apply sim_bind_quiet; [solve [case_decide; qauto | qauto] | intros ? ? Hq];
        apply (conj (quiet_newborn np _ _ Hq)) in Hk; destruct Hk as (Hk1 & Hk2 & Hk3);
        apply Hk1 in Hk2; rewrite <- (quiet_mshare _ _ Hq) in Hk3;
        pose proof (conj Hk2 Hk3) as Hk; clear Hq Hk1 Hk2 Hk3).
  match goal with |- sim _ _ _ ?s0 => rename s0 into s1 end.
  destruct Hk as [[Hs Hc] Hm]. apply sim_bind_step; [by apply u_ready|]. sstep.
  apply sim_bind_step; [|by sstep].
  apply u_quiet, quiet_misc; try done. simpl. rewrite (quiet_mshare _ _ H0). by symmetry.
Qed.
End ops.
End ProcSim.
