(* ===== verification/ProcProps.v ===== *)
(** Properties of the process table in every execution of the system: the
    invariant of the table, the accounts of CPU shares, and that [wait] loses no
    wake-up. *)

From S2P Require Import Prelude Bytes CString Kalloc Proc ProcSteps ProcSim.

Module ProcProps.
Import Proc ProcSteps ProcSim.

Section props.
Context {R : Type} `{ProcEnv R}.
Notation PS := (pstate R).
Implicit Types (s : PS) (r : R).

(** Executions in which every step satisfies [G]. *)
Inductive exec (G : label -> PS -> Prop) : list label -> PS -> PS -> Prop :=
| exec_nil s : exec G [] s s
| exec_cons l ls s s1 s' : G l s -> pstep l s s1 -> exec G ls s1 s' -> exec G (l :: ls) s s'.

Definition any_step (l : label) (s : PS) : Prop := True.

(** Nobody that acts is its own parent. *)
Definition not_own (l : label) (s : PS) : Prop :=
  match actor l with Some i => parent (getp s i) <> Some i | None => True end.

(** ** The invariant of the table *)

Definition slot_ok (i : nat) (p : proc) : Prop :=
  match state p with
  | UNUSED => True
  | EMBRYO | RUNNING => pid p <> 0
  | SLEEPING => pid p <> 0 /\ exists k, context p = C_sleep k /\ (k = K_wait -> chan p = A_proc i)
  | RUNNABLE => pid p <> 0 /\ context p <> C_none /\ context p <> C_zombie
  | ZOMBIE => pid p <> 0 /\ context p = C_zombie
  end.

Record table_ok (s : PS) : Prop := MkTable {
  table_len : length (procs s) = NPROC;
  table_pid : forall i, 0 <= pid (getp s i) < nextpid s;
  table_pid_inj : forall i j, pid (getp s i) = pid (getp s j) -> pid (getp s i) <> 0 -> i = j;
  table_lwp : forall i, 0 <= lwpid (thr (getp s i)) < nextlwpid s;
  table_lwp_inj : forall i j,
    lwpid (thr (getp s i)) = lwpid (thr (getp s j)) -> lwpid (thr (getp s i)) <> 0 -> i = j;
  table_slot : forall i, slot_ok i (getp s i)
}.

Lemma slot_calm i p q : calm p q -> slot_ok i p -> slot_ok i q.
Proof.
  intros [Hp _ Hc _ _ _ Hs]. unfold slot_ok. rewrite Hp, Hc.
  destruct Hs as [[-> Hch]|[-> ->]].
  - destruct (state p) eqn:E; try done. intros (? & k & ? & Hk). split; [done|]. exists k.
    split; [done|]. by rewrite Hch.
  - intros (? & k & -> & _). done.
Qed.

(** Putting in slot [i] a process with the old or the next identifiers. *)
Lemma table_put s s' i q :
  table_ok s -> (i < length (procs s))%nat -> procs s' = procs (put i q s) ->
  nextpid s <= nextpid s' -> nextlwpid s <= nextlwpid s' ->
  (pid q = pid (getp s i) \/ pid q = 0 \/ (pid q = nextpid s /\ nextpid s' = nextpid s + 1)) ->
  (lwpid (thr q) = lwpid (thr (getp s i)) \/ lwpid (thr q) = 0 \/
   (lwpid (thr q) = nextlwpid s /\ nextlwpid s' = nextlwpid s + 1)) ->
  slot_ok i q -> table_ok s'.
Proof.
  intros [Hl Hp Hpi Hw Hwi Hs] Hi E Hn Hn' Hq Hq' Hok.
  assert (Ei : getp s' i = q) by (unfold getp; rewrite E; by apply getp_put_eq).
  assert (Ej : forall j, j <> i -> getp s' j = getp s j).
  { intros j Hj. unfold getp. rewrite E. by apply getp_put_ne. }
  constructor.
  - rewrite E. by rewrite length_put.
  - intros j. pose proof (Hp i). pose proof (Hp j).
    destruct (decide (j = i)) as [->|Hj]; [rewrite Ei | rewrite Ej by done]; lia.
  - intros j k. pose proof (Hp j). pose proof (Hp k).
    destruct (decide (j = i)) as [->|Hj], (decide (k = i)) as [->|Hk];
      rewrite ?Ei, ?Ej by done; [done | intros ? ?; apply Hpi; lia..].
  - intros j. pose proof (Hw i). pose proof (Hw j).
    destruct (decide (j = i)) as [->|Hj]; [rewrite Ei | rewrite Ej by done]; lia.
  - intros j k. pose proof (Hw j). pose proof (Hw k).
    destruct (decide (j = i)) as [->|Hj], (decide (k = i)) as [->|Hk];
      rewrite ?Ei, ?Ej by done; [done | intros ? ?; apply Hwi; lia..].
  - intros j. destruct (decide (j = i)) as [->|Hj]; [by rewrite Ei | by rewrite Ej].
Qed.

Lemma table_quiet s s' : quiet s s' -> table_ok s -> table_ok s'.
Proof.
  intros Hq [Hl Hp Hpi Hw Hwi Hs]. pose proof (quiet_calm _ _ Hq) as Hc.
  constructor.
  - rewrite (quiet_len _ _ Hq). done.
  - intros i. rewrite (calm_pid _ _ (Hc i)), (quiet_nextpid _ _ Hq). done.
  - intros i j. rewrite (calm_pid _ _ (Hc i)), (calm_pid _ _ (Hc j)). apply Hpi.
  - intros i. rewrite (calm_lwpid _ _ (Hc i)), (quiet_nextlwpid _ _ Hq). done.
  - intros i j. rewrite (calm_lwpid _ _ (Hc i)), (calm_lwpid _ _ (Hc j)). apply Hwi.
  - intros i. eapply slot_calm; [apply Hc | apply Hs].
Qed.

(** The same, with the identifiers kept. *)
Lemma table_keep s s' i q :
  table_ok s -> procs s' = procs (put i q s) ->
  nextpid s' = nextpid s -> nextlwpid s' = nextlwpid s ->
  pid q = pid (getp s i) -> lwpid (thr q) = lwpid (thr (getp s i)) ->
  (slot_ok i (getp s i) -> slot_ok i q) -> table_ok s'.
Proof.
  intros Hok E En En' Hp Hw Hq. destruct (decide (i < length (procs s))%nat) as [Hi|Hi].
  - eapply (table_put s s' i q); try done; try lia; [auto..|]. by apply Hq, table_slot.
  - unfold put in E. simpl in E. rewrite list_insert_ge in E by lia.
    destruct Hok. constructor; unfold getp in *; rewrite ?E, ?En, ?En'; done.
Qed.

Ltac keep i :=
  eapply (table_keep _ _ i); [eassumption | done..|];
  unfold slot_ok; simpl;
  repeat match goal with E : state _ = _ |- _ => rewrite E end; intuition (congruence || eauto).

Lemma table_ustep b s s' : ustep b s s' -> table_ok s -> table_ok s'.
Proof.
  intros Hu Hok. destruct Hu as
    [s s' Hq | i s Hs Hi | i q s Hs (E1 & E2 & E3 & _) | i q s Hs (E1 & E2 & _) El | i s Hs | i s Hs Hc
    | i q s Hs E1 E2 E3 El _ | i c k s Hs _ Hk | i s Hs _ | i back s Hs _ _ | i s Hs _ | i s | i s s' Hq _
    | i v s Hs _ _ _ _ | s | i v s Hs | i l s Hs _ | m s _ _ ].
  - by eapply table_quiet.
  - eapply (table_put s _ i); try done; simpl; [lia | auto | auto |].
    pose proof (table_pid _ Hok i). unfold slot_ok; simpl. lia.
  - eapply (table_keep s _ i q); try done. unfold slot_ok. by rewrite E1, E2, Hs.
  - assert (pid q = pid (getp s i)) by (by destruct q).
    eapply (table_put s _ i q); try done; simpl; [by apply getp_in; congruence | lia | auto | auto|].
    pose proof (table_slot _ Hok i) as Ho. unfold slot_ok in *. destruct q; simpl in *. rewrite E1. rewrite Hs in *. congruence.
  - keep i.
  - keep i.
  - eapply (table_put s _ i q); try done; [by apply getp_in; congruence | auto | tauto |]. unfold slot_ok. by rewrite E1.
  - eapply (table_keep _ _ i); [eassumption | done..|]. unfold slot_ok; simpl. rewrite Hs. intros Hp.
    split; [done|]. exists k. split; [done|]. intros Ek. by destruct (Hk Ek).
  - keep i.
  - unfold give_back. case_match; keep i.
  - keep i.
  - by destruct Hok.
  - eapply table_quiet; [exact Hq|].
    by eapply (table_keep s _ i).
  - keep i.
  - by destruct Hok.
  - keep i.
  - keep i.
  - by destruct Hok.
Qed.

(** ** The accounts of CPU shares *)

(** The share a process holds: what [cpu_share] granted it, until it ends. *)
Definition held (p : proc) : Z :=
  if decide (mode p = STRD_SET_SCHED /\ state p <> UNUSED /\ state p <> ZOMBIE) then share (strd p) else 0.

Definition total_held (s : PS) : Z := zsum (fun i => held (getp s i)) NPROC.

Record ledger (s : PS) : Prop := MkLedger {
  ledger_len : length (procs s) = NPROC;
  ledger_sum : strd_sum s + strd_share_sum s + mshare (mlfqs s) = 100;
  ledger_cap : strd_share_sum s <= 20;
  ledger_mlfq : mshare (mlfqs s) = 0 \/ mshare (mlfqs s) = 20;
  ledger_held : forall i, 0 <= held (getp s i);
  ledger_total : total_held s <= strd_share_sum s
}.

Lemma total_put s s' i q :
  length (procs s) = NPROC -> procs s' = procs (put i q s) -> (i < NPROC)%nat ->
  total_held s' = total_held s - held (getp s i) + held q.
Proof.
  intros Hl E Hi. unfold total_held.
  assert (Eg : forall j, getp s' j = getp (put i q s) j) by (intros j; unfold getp; by rewrite E).
  rewrite (zsum_upd _ (fun j => held (getp s j)) i).
  - rewrite decide_True by done. rewrite Eg, getp_put_eq by lia. lia.
  - intros j Hj. by rewrite Eg, getp_put_ne.
Qed.

Lemma held_calm p q : calm p q -> held q = held p.
Proof.
  intros [_ _ _ Hm Hs _ Hst]. unfold held. rewrite Hm.
  destruct Hst as [[-> _]|[E1 E2]]; repeat case_decide; try done; try (by apply Hs; tauto).
  all: rewrite ?E1, ?E2 in *; naive_solver.
Qed.

(** A process put in slot [i], with the counters moved by what it now holds. *)
Lemma ledger_put s s' i q :
  ledger s -> (i < length (procs s))%nat -> procs s' = procs (put i q s) ->
  strd_sum s' + strd_share_sum s' + mshare (mlfqs s') = 100 -> mshare (mlfqs s') = mshare (mlfqs s) ->
  strd_share_sum s' <= 20 -> 0 <= held q ->
  held q - held (getp s i) <= strd_share_sum s' - strd_share_sum s -> ledger s'.
Proof.
  intros [Hl Hsum Hcap Hm Hh Ht] Hs E H1 H2 H3 H4 H5. assert (Hi : (i < NPROC)%nat) by lia.
  constructor; try lia.
  - rewrite E. by rewrite length_put.
  - intros j. unfold getp at 1. rewrite E. fold (getp (put i q s) j). rewrite getp_put.
    case_decide; [lia | apply Hh].
  - rewrite (total_put s s' i q) by done. lia.
Qed.

Lemma ledger_quiet s s' : quiet s s' -> ledger s -> ledger s'.
Proof.
  intros Hq [Hl Hsum Hcap Hm Hh Ht].
  assert (Eh : forall i, held (getp s' i) = held (getp s i)) by (intros i; apply held_calm, (quiet_calm _ _ Hq)).
  destruct Hq as [E1 _ _ _ _ E2 E3 E4]. constructor; rewrite ?E1, ?E2, ?E3, ?E4; try done.
  - intros i. by rewrite Eh.
  - unfold total_held. by rewrite (zsum_ext _ (fun i => held (getp s i))).
Qed.

(** Nothing but the slot of [i] changes, and it holds no more than before. *)
Lemma ledger_keep s s' i q :
  ledger s -> procs s' = procs (put i q s) ->
  strd_sum s' = strd_sum s -> strd_share_sum s' = strd_share_sum s -> mshare (mlfqs s') = mshare (mlfqs s) ->
  held q = held (getp s i) \/ held q = 0 -> ledger s'.
Proof.
  intros Hok E E1 E2 E3 Hq. pose proof (ledger_held _ Hok i). pose proof (ledger_sum _ Hok).
  pose proof (ledger_cap _ Hok). destruct (decide (i < length (procs s))%nat) as [Hi|Hi].
  - eapply (ledger_put s s' i q); try done; lia.
  - unfold put in E. simpl in E. rewrite list_insert_ge in E by lia.
    destruct Hok. constructor; unfold total_held, getp in *; rewrite ?E, ?E1, ?E2, ?E3; done.
Qed.

Lemma held_0 p : mode p <> STRD_SET_SCHED \/ state p = UNUSED \/ state p = ZOMBIE -> held p = 0.
Proof. intros Hp. unfold held. case_decide; [naive_solver | done]. Qed.

Lemma held_alive p : mode p = STRD_SET_SCHED -> state p <> UNUSED -> state p <> ZOMBIE -> held p = share (strd p).
Proof. intros. unfold held. by rewrite decide_True. Qed.

Lemma held_same p q :
  mode q = mode p -> share (strd q) = share (strd p) ->
  (state q = state p \/ (state p <> UNUSED /\ state p <> ZOMBIE /\ state q <> UNUSED /\ state q <> ZOMBIE)) ->
  held q = held p.
Proof.
  intros Hm Hsh Hs. unfold held. rewrite Hm, Hsh. repeat case_decide; try done; exfalso; intuition congruence.
Qed.

Lemma ledger_bounds s : ledger s -> 0 <= strd_share_sum s <= 20 /\ 60 <= strd_sum s <= 100.
Proof. intros [Hl Hsum Hcap Hm Hh Ht]. assert (0 <= total_held s) by (by apply zsum_nonneg). lia. Qed.

(** Nobody holds more than is granted. *)
Lemma held_le s i : ledger s -> (i < NPROC)%nat -> held (getp s i) <= strd_share_sum s.
Proof.
  intros [Hl Hsum Hcap Hm Hh Ht] Hi. etrans; [|exact Ht]. unfold total_held.
  by apply (zsum_ge (fun i => held (getp s i))).
Qed.

Ltac lkeep i := eapply (ledger_keep _ _ i); [eassumption | done..|].
Ltac lsame i Hs := lkeep i; left; apply held_same; [done..|simpl; rewrite Hs; intuition congruence].

Lemma ledger_die s i back : ledger s -> state (getp s i) = RUNNING ->
  ledger (give_back back (getp s i) (put i (set_context C_zombie (set_state ZOMBIE (getp s i))) s)).
Proof.
  intros Hok Hs. assert (Hi : (i < length (procs s))%nat) by (apply getp_in; congruence).
  pose proof (ledger_bounds _ Hok). pose proof (ledger_sum _ Hok). pose proof (ledger_held _ Hok i).
  assert (held (getp s i) <= strd_share_sum s) by (apply held_le; [done|]; by rewrite <- (ledger_len _ Hok)).
  assert (Eh : held (set_context C_zombie (set_state ZOMBIE (getp s i))) = 0) by (apply held_0; by right; right).
  unfold give_back. destruct (back && bool_decide _) eqn:Eb; [|lkeep i; by right].
  apply andb_true_iff in Eb as [_ Em%bool_decide_eq_true].
  assert (held (getp s i) = share (strd (getp s i))) by (apply held_alive; congruence).
  eapply (ledger_put s _ i); [done | done | done | simpl; rewrite ?i32_small by lia; lia..].
Qed.

Lemma ledger_ustep b s s' : modest b = true -> ustep b s s' -> ledger s -> ledger s'.
Proof.
  intros Hb Hu Hok. destruct Hu as
    [s s' Hq | i s Hs Hi | i q s Hs (E1 & E2 & E3 & E4 & E5) | i q s Hs (E1 & _ & _ & E4 & E5) El | i s Hs | i s Hs Hc
    | i q s Hs E1 E2 E3 El Em | i c k s Hs _ Hk | i s Hs _ | i back s Hs _ _ | i s Hs _ | i s | i s s' Hq _
    | i v s Hs Hv Hmod Hn Hc | s | i v s Hs | i l s Hs _ | m s Hm0 Hm ].
  - by eapply ledger_quiet.
  - lkeep i. right. apply held_0. by left.
  - lkeep i. left. apply held_same; auto.
  - lkeep i. left. apply held_same; [by destruct q | by destruct q|]. left. by destruct q.
  - lkeep i. right. apply held_0. by right; left.
  - lsame i Hs.
  - lkeep i. right. apply held_0. by right; left.
  - lsame i Hs.
  - lsame i Hs.
  - by apply ledger_die.
  - lsame i Hs.
  - by destruct Hok.
  - eapply ledger_quiet; [exact Hq|]. lkeep i. left. by apply held_same; auto.
  - assert (Hi : (i < length (procs s))%nat) by (apply getp_in; congruence).
    pose proof (ledger_held _ Hok i). pose proof (ledger_sum _ Hok). pose proof (ledger_bounds _ Hok).
    assert (Eh : held (set_share v (set_mode STRD_SET_SCHED (getp s i))) = v)
      by (apply held_alive; simpl; congruence).
    specialize (Hmod Hb). unfold modest_share in Hmod. rewrite i32_small in Hc by lia.
    eapply (ledger_put s _ i); [done | done | done | simpl; rewrite ?i32_small by lia; lia..].
  - pose proof (ledger_bounds _ Hok). rewrite !i32_small by lia. by destruct Hok.
  - lkeep i. right. apply held_0. by left.
  - lkeep i. right. apply held_0. by left.
  - pose proof (ledger_bounds _ Hok). rewrite i32_small by lia.
    destruct Hok as [? Hsum ? ? ? ?]. constructor; simpl; try done; [lia | by right].
Qed.

(** The counters add up, as 32-bit numbers, whatever is asked for. *)
Definition balanced (s : PS) : Prop := u32 (strd_sum s + strd_share_sum s + mshare (mlfqs s)) = 100.

Lemma u32_i32_l x y : u32 (i32 x + y) = u32 (x + y).
Proof. by rewrite <- u32_add_l, u32_i32, u32_add_l. Qed.
Lemma u32_i32_m x y z : u32 (x + i32 y + z) = u32 (x + y + z).
Proof. replace (x + i32 y + z) with (i32 y + (x + z)) by lia. rewrite u32_i32_l. f_equal. lia. Qed.

Lemma balanced_moved s s' : balanced s -> u32 (strd_sum s' + strd_share_sum s' + mshare (mlfqs s')) = u32 (strd_sum s + strd_share_sum s + mshare (mlfqs s)) ->
  balanced s'.
Proof. unfold balanced. by intros -> ->. Qed.

Lemma balanced_ustep b s s' : ustep b s s' -> balanced s -> balanced s'.
Proof.
  intros Hu Hok. apply (balanced_moved s); [done|]. destruct Hu; simpl; try done.
  - match goal with Hq : quiet _ _ |- _ => by rewrite (quiet_sum _ _ Hq), (quiet_share_sum _ _ Hq), (quiet_mshare _ _ Hq) end.
  - unfold give_back. case_match; simpl; [|done]. rewrite <- Z.add_assoc, u32_i32_l, Z.add_assoc, u32_i32_m. f_equal. lia.
  - match goal with Hq : quiet _ _ |- _ => by rewrite (quiet_sum _ _ Hq), (quiet_share_sum _ _ Hq), (quiet_mshare _ _ Hq) end.
  - rewrite <- Z.add_assoc, u32_i32_l, Z.add_assoc, u32_i32_m. f_equal. lia.
  - by rewrite <- Z.add_assoc, u32_i32_l, Z.add_assoc, u32_i32_m.
  - rewrite <- Z.add_assoc, u32_i32_l. f_equal. lia.
Qed.

(** ** No lost wake-up in [wait] *)

(** Nobody sleeps in [wait] while a child is a zombie. *)
Definition attended (s : PS) : Prop :=
  forall q i, waiting s q -> parent (getp s i) = Some q -> state (getp s i) <> ZOMBIE.

Lemma attended_quiet s s' : quiet s s' -> attended s -> attended s'.
Proof.
  intros Hq Ha q i Hw Hp Hz. destruct (waiting_quiet _ _ _ Hq Hw) as [Hw' _].
  pose proof (quiet_calm _ _ Hq i) as Hc. rewrite (calm_parent _ _ Hc) in Hp. apply (Ha q i Hw' Hp).
  destruct (calm_state _ _ Hc) as [[]|[]]; congruence.
Qed.

(** A change of one slot, to a process that is neither asleep in [wait] nor a
    zombie with a waiting parent. *)
Lemma attended_put s s' i p :
  attended s -> procs s' = procs (put i p s) ->
  (state p = SLEEPING -> context p <> C_sleep K_wait \/ waiting s i) ->
  (state p = ZOMBIE -> (forall q, parent p = Some q -> ~ waiting s q) \/
                       (state (getp s i) = ZOMBIE /\ parent p = parent (getp s i))) -> attended s'.
Proof.
  intros Ha E Hs Hz q j.
  assert (Eg : forall j, getp s' j = getp (put i p s) j) by (intros k; unfold getp; by rewrite E).
  assert (Hw : waiting s' q -> waiting s q).
  { unfold waiting. rewrite Eg, getp_put. case_decide as D; [|done]. destruct D as [<- _].
    intros [H1 H2]. destruct (Hs H1); [done|]. done. }
  intros Hq%Hw. rewrite Eg, getp_put. case_decide as D; [|by apply Ha].
  intros Hp Hzz. destruct (Hz Hzz) as [Hn|[Hz' Hp']]; [by apply (Hn q)|].
  apply (Ha q i Hq); [congruence | done].
Qed.

Lemma attended_block s i c k :
  attended s ->
  (k = K_wait -> c = A_proc i /\ forall j, parent (getp s j) = Some i -> state (getp s j) <> ZOMBIE) ->
  attended (put i (set_context (C_sleep k) (set_state SLEEPING (set_chan c (getp s i)))) s).
Proof.
  intros Ha Hk. destruct (decide (k = K_wait)) as [->|Hn].
  2: { eapply (attended_put s _ i); [done | done | simpl | done]. left. congruence. }
  destruct (Hk eq_refl) as [_ Hz]. intros q j. unfold waiting. rewrite !getp_put.
  destruct (decide (i = q /\ (i < length (procs s))%nat)) as [D1|D1],
    (decide (i = j /\ (i < length (procs s))%nat)) as [D2|D2]; try done.
  - intros _. destruct D1 as [<- _]. apply Hz.
  - intros Hw. apply (Ha q j Hw).
Qed.

Lemma attended_adopt b s s' i :
  attended s -> quiet (put i (set_parent (initproc s) (getp s i)) s) s' ->
  (b = true -> state (getp s i) = ZOMBIE -> forall q, initproc s = Some q -> ~ waiting s' q) ->
  b = true -> attended s'.
Proof.
  intros Ha Hq Hd Hb q j Hw Hp Hz. destruct (waiting_quiet _ _ _ Hq Hw) as [Hw1 _].
  pose proof (quiet_calm _ _ Hq j) as Hc. rewrite (calm_parent _ _ Hc) in Hp.
  assert (Hz1 : state (getp (put i (set_parent (initproc s) (getp s i)) s) j) = ZOMBIE).
  { destruct (calm_state _ _ Hc) as [[]|[]]; congruence. }
  assert (Hw2 : waiting s q).
  { unfold waiting in *. rewrite getp_put in Hw1. case_decide as D; [by destruct D as [<- _] | done]. }
  rewrite getp_put in Hp, Hz1. case_decide as D; [|by apply (Ha q j)]. by apply (Hd Hb Hz1 q).
Qed.

Lemma attended_ustep b s s' : watch b = true -> ustep b s s' -> attended s -> attended s'.
Proof.
  intros Hb Hu Hok. destruct Hu as
    [s s' Hq | i s Hs Hi | i q s Hs (E1 & E2 & E3 & E4 & E5) | i q s Hs (E1 & _ & _ & E4 & E5) El | i s Hs | i s Hs Hc
    | i q s Hs E1 E2 E3 El Em | i c k s Hs _ Hk | i s Hs _ | i back s Hs _ Hd | i s Hs _ | i s | i s s' Hq Hd
    | i v s Hs _ _ _ _ | s | i v s Hs | i l s Hs _ | m s Hm0 Hm ].
  - by eapply attended_quiet.
  - by eapply (attended_put s _ i).
  - eapply (attended_put s _ i q); [done | done | rewrite E1, Hs; done..].
  - assert (Eq : state q = EMBRYO) by (destruct q; simpl in *; congruence).
    eapply (attended_put s _ i q); [done | done | rewrite Eq; done..].
  - by eapply (attended_put s _ i).
  - by eapply (attended_put s _ i).
  - eapply (attended_put s _ i q); [done | done | rewrite E1; done..].
  - by apply attended_block.
  - by eapply (attended_put s _ i).
  - eapply (attended_put s _ i); [done | by unfold give_back; case_match | done |]. intros _. left. auto.
  - by eapply (attended_put s _ i).
  - done.
  - by eapply (attended_adopt (watch b)).
  - eapply (attended_put s _ i); [done | done | simpl; rewrite Hs; done..].
  - done.
  - eapply (attended_put s _ i); [done | done | simpl; rewrite Hs; done..].
  - eapply (attended_put s _ i); [done | done | simpl; rewrite Hs; done..].
  - done.
Qed.

(** ** Who is ready stays ready *)

Lemma runnable_ustep b s s' i :
  pick b <> Some i -> ustep b s s' -> state (getp s i) = RUNNABLE -> state (getp s' i) = RUNNABLE.
Proof.
  intros Hb Hu Hr.
  assert (Hput : forall j p (t : PS), procs t = procs (put j p s) ->
            (j = i -> state p = RUNNABLE) -> state (getp t i) = RUNNABLE).
  { intros j p t E Hj. unfold getp. rewrite E. fold (getp (put j p s) i). rewrite getp_put.
    case_decide as D; [apply Hj, D | done]. }
  destruct Hu as
    [s s' Hq | j s Hs Hi | j q s Hs (E1 & E2 & E3 & E4 & E5) | j q s Hs _ El | j s Hs | j s Hs Hc
    | j q s Hs E1 E2 E3 El Em | j c k s Hs _ Hk | j s Hs _ | j back s Hs _ Hd | j s Hs Hj | j s | j s s' Hq Hd
    | j v s Hs _ _ _ _ | s | j v s Hs | j l s Hs _ | m s Hm0 Hm ].
  all: try (eapply (Hput j); [by unfold give_back; try case_match | intros ->; congruence]).
  - by rewrite (quiet_state s) by congruence.
  - done.
  - rewrite (quiet_state _ _ _ Hq); [|].
    + eapply (Hput j); [done|]. by intros ->.
    + intros E. cut (state (getp (put j (set_parent (initproc s) (getp s j)) s) i) = RUNNABLE); [congruence|].
      eapply (Hput j); [done|]. by intros ->.
  - done.
  - done.
Qed.

(** Who runs keeps running, and nobody else starts to, unless the step picks them or they give up the CPU. *)
Lemma running_ustep b s s' i :
  pick b <> Some i -> who b <> Some i -> ustep b s s' -> state (getp s' i) = RUNNING <-> state (getp s i) = RUNNING.
Proof.
  intros Hb Hw Hu.
  assert (Hput : forall j p (t : PS), procs t = procs (put j p s) ->
            (j = i -> state p = RUNNING <-> state (getp s i) = RUNNING) -> state (getp t i) = RUNNING <-> state (getp s i) = RUNNING).
  { intros j p t E Hj. unfold getp at 1. rewrite E. fold (getp (put j p s) i). rewrite getp_put.
    case_decide as D; [apply Hj, D | done]. }
  assert (Hcalm : forall p q, calm p q -> state q = RUNNING <-> state p = RUNNING).
  { intros p q Hc. destruct (calm_state _ _ Hc) as [[-> _]|[-> ->]]; [done | split; discriminate]. }
  destruct Hu as
    [s s' Hq | j s Hs Hi | j q s Hs (E1 & E2 & E3 & E4 & E5) | j q s Hs (E1 & _) El | j s Hs | j s Hs Hc
    | j q s Hs E1 E2 E3 El Em | j c k s Hs Hj Hk | j s Hs Hj | j back s Hs Hj Hd | j s Hs Hj | j s | j s s' Hq Hd
    | j v s Hs _ _ _ _ | s | j v s Hs | j l s Hs _ | m s Hm0 Hm ].
  all: try (by eapply (Hput j); [by unfold give_back; try case_match | intros ->; simpl; rewrite Hs; naive_solver congruence]).
  - apply Hcalm, (quiet_calm _ _ Hq).
  - done.
  - rewrite (Hcalm _ _ (quiet_calm _ _ Hq i)). eapply (Hput j); [done|]. by intros ->.
  - done.
  - done.
Qed.

(** ** Executions *)

Lemma usteps_inv (I : PS -> Prop) b s s' :
  (forall t t', ustep b t t' -> I t -> I t') -> usteps b s s' -> I s -> I s'.
Proof. intros Hi. induction 1; [done|]. eauto. Qed.

Lemma table_pstep l s s' : pstep l s s' -> table_ok s -> table_ok s'.
Proof.
  intros Hs Hok. eapply (usteps_inv table_ok (cfg_of false false l)); [by apply table_ustep | | done].
  apply pstep_usteps; [apply Hok | done..].
Qed.

Lemma table_parked s : table_ok s -> parked s.
Proof.
  intros Hok q [Hs Hc]. pose proof (table_slot _ Hok q) as Ho. unfold slot_ok in Ho. rewrite Hs in Ho.
  destruct Ho as (_ & k & E & Hk). apply Hk. congruence.
Qed.

Lemma attended_pstep l s s' :
  not_own l s -> table_ok s -> pstep l s s' -> attended s -> attended s'.
Proof.
  intros Hp Hok Hs Ha. eapply (usteps_inv attended (cfg_of true false l)); [by intros ? ?; apply attended_ustep | | done].
  apply pstep_usteps; [apply Hok | | done | done].
  intros _. split; [by apply table_parked|]. unfold not_own in Hp. intros i E. by rewrite E in Hp.
Qed.

Lemma runnable_pstep l s s' i :
  table_ok s -> visited l <> Some i -> pstep l s s' -> state (getp s i) = RUNNABLE -> state (getp s' i) = RUNNABLE.
Proof.
  intros Hok Hv Hs. apply (usteps_inv (fun t => state (getp t i) = RUNNABLE) (cfg_of false false l)).
  - intros t t'. by apply runnable_ustep.
  - apply pstep_usteps; [apply Hok | done..].
Qed.

Lemma running_pstep l s s' i :
  table_ok s -> actor l <> Some i -> pstep l s s' -> state (getp s' i) = RUNNING <-> state (getp s i) = RUNNING.
Proof.
  intros Hok Ha Hs. apply (usteps_inv (fun t => state (getp t i) = RUNNING <-> state (getp s i) = RUNNING) (cfg_of false false l) s); [| |done].
  - intros t t' Hu. rewrite <- (fun H1 H2 => running_ustep _ _ _ i H1 H2 Hu); [done | | done]. destruct l; [done | exact Ha | done].
  - apply pstep_usteps; [apply Hok | done..].
Qed.

Lemma exec_inv G (I : PS -> Prop) tr s s' :
  (forall l t t', G l t -> pstep l t t' -> I t -> I t') -> exec G tr s s' -> I s -> I s'.
Proof. intros Hi. induction 1; [done|]. eauto. Qed.

(** The state at the start. *)
Lemma getp_boot r i : getp (boot r) i = proc0.
Proof.
  unfold getp, boot, procs. rewrite nth_lookup.
  destruct (replicate NPROC proc0 !! i) eqn:E; [|done]. by apply lookup_replicate in E as [-> _].
Qed.

Lemma table_boot r : table_ok (boot r).
Proof. constructor; try done; intros; rewrite ?getp_boot in *; done. Qed.

Lemma ledger_boot r : ledger (boot r).
Proof. constructor; try done; [by left | intros; by rewrite getp_boot]. Qed.

Lemma init_usteps b r s0 : userinit (boot r) = Ret tt s0 -> usteps b (boot r) s0.
Proof. intros E. by apply (userinit_sim b (boot r)) in E as [Hu _]. Qed.

(** Running a sequence of labels, checking the guards. *)
Definition enabled_b (l : label) (s : PS) : bool :=
  match l with L_call me _ => is_state RUNNING (getp s me) | _ => true end.

Definition not_own_b (l : label) (s : PS) : bool :=
  match actor l with Some i => negb (bool_decide (parent (getp s i) = Some i)) | None => true end.

Fixpoint run_trace (tr : list label) (s : PS) : option PS :=
  match tr with
  | [] => Some s
  | l :: tr =>
      if enabled_b l s && not_own_b l s then
        match act l s with Ret _ s1 => run_trace tr s1 | Stop _ _ => None end
      else None
  end.

Lemma run_trace_exec tr s s' : run_trace tr s = Some s' -> exec not_own tr s s'.
Proof.
  revert s. induction tr as [|l tr IH]; simpl; intros s.
  - intros [= <-]. constructor.
  - destruct (enabled_b l s && not_own_b l s) eqn:He; [|done]. apply andb_true_iff in He as [He Hn].
    destruct (act l s) as [[] s1|] eqn:E; [|done].
    intros Hr%IH. econstructor; [| |done].
    + unfold not_own, not_own_b in *. destruct (actor l); [|done]. by apply negb_true_iff, bool_decide_eq_false in Hn.
    + split; [|done]. destruct l; simpl in *; [|done|done]. by apply bool_decide_eq_true in He.
Qed.

Lemma exec_mono (G G' : label -> PS -> Prop) tr s s' :
  (forall l t, G l t -> G' l t) -> exec G tr s s' -> exec G' tr s s'.
Proof. intros HG. induction 1; econstructor; eauto. Qed.

(** The states reached from boot. *)
Definition reaches (r : R) (tr : list label) (s : PS) : Prop :=
  exists s0, userinit (boot r) = Ret tt s0 /\ exec any_step tr s0 s.

(** With [m], the requests for shares in the execution are small. *)
Lemma reaches_inv (I : PS -> Prop) m r tr s :
  (forall b t t', modest b = m -> ustep b t t' -> I t -> I t') -> (forall t, I t -> length (procs t) = NPROC) ->
  I (boot r) -> (m = true -> Forall modest_label tr) -> reaches r tr s -> I s.
Proof.
  intros Hu Hl Hb Hm (s0 & E & Ht). assert (I s0) as Hs0.
  { apply (usteps_inv I (Cfg false None None m) (boot r)); [intros t t'; by apply Hu | by apply init_usteps | done]. }
  clear E Hb. induction Ht as [|l ls s s1 s' _ Hs _ IH]; [done|]. apply IH.
  - intros Em. specialize (Hm Em). by apply Forall_cons in Hm as [_ ?].
  - apply (usteps_inv I (cfg_of false m l) s); [intros t t'; by apply Hu | | done].
    apply pstep_usteps; [by apply Hl | done | | done]. intros Em. specialize (Hm Em). by apply Forall_cons in Hm as [? _].
Qed.

(** A visit to a ready process runs it. *)
Lemma visit_post i s :
  state (getp s i) = RUNNABLE ->
  post (scheduler_visit i) (fun v t => v = true /\ state (getp t i) = RUNNING) s.
Proof.
  intros Hr. unfold scheduler_visit, proc_at. apply post_bind, post_gets.
  rewrite decide_False by (intros Hn; by apply Hn). apply post_bind.
  eapply post_mono; [apply quiets_switchuvm|]. intros [] s1 Hq.
  apply post_bind, post_modify, post_ret. split; [done|].
  rewrite getp_put_eq; [done|]. apply getp_in. rewrite (quiet_state _ _ _ Hq); congruence.
Qed.

Lemma dispatch_runs i s s' :
  dispatch i s = Ret tt s' -> state (getp s i) = RUNNABLE ->
  exists t, (acquire ;;; scheduler_visit i) s = Ret true t /\ state (getp t i) = RUNNING.
Proof.
  intros ([] & t0 & E0 & (v & t & E & _)%bind_ret_inv)%bind_ret_inv Hr.
  pose proof (quiets_acquire _ _ _ E0) as Hq.
  destruct (visit_post i t0) with (a := v) (s' := t) as [-> Ht]; [|done|].
  - rewrite (quiet_state _ _ _ Hq); congruence.
  - exists t. by rewrite (bind_ret _ _ _ _ _ E0).
Qed.

End props.

(** ** The theorems *)


(** C25: the accounts of CPU shares.  In every execution from boot, the pool of the
    stride scheduler, the shares granted and the share of the multi-level queue
    add up to 100 as 32-bit numbers.  If no request in the execution asks for more than [2^31 - 21] percent (with more the counter
    can overflow, see [cpu_share_spec]), they add up to 100; at most 20 percent are granted, and at least what the living
    processes hold; so the pool never falls below 60. *)
Theorem share_ledger {R} `{ProcEnv R} (r : R) tr s :
  reaches r tr s ->
  u32 (strd_sum s + strd_share_sum s + mshare (mlfqs s)) = 100 /\
  (Forall modest_label tr ->
   strd_sum s + strd_share_sum s + mshare (mlfqs s) = 100 /\
   0 <= total_held s <= strd_share_sum s /\ strd_share_sum s <= 20 /\ 60 <= strd_sum s <= 100).
Proof.
  intros Hr. split.
  - apply (reaches_inv (fun t => balanced t /\ length (procs t) = NPROC) false r tr s); [| by intros t [] | done | done | done].
    intros b t t' _ Hu [H1 H2]. split; [by eapply balanced_ustep|]. rewrite <- H2. by apply (usteps_len b), rtc_once.
  - intros Hm. assert (Hl : ledger s).
    { apply (reaches_inv ledger true r tr s); [by intros; eapply ledger_ustep | by intros t [] | apply ledger_boot | done | exact Hr]. }
    pose proof (ledger_bounds _ Hl). destruct Hl as [_ Hsum Hcap _ Hh Ht].
    assert (0 <= total_held s) by (by apply zsum_nonneg). lia.
Qed.

(** C14: [wait] loses no wake-up.  If no process that acts is its own parent, then in
    no execution a process sleeps in [wait] while it has a zombie child: whoever
    ends, or hands a zombie to [init], wakes the new parent up. *)
Theorem no_lost_wakeup {R} `{ProcEnv R} (s : pstate R) tr s' :
  table_ok s -> attended s -> exec not_own tr s s' -> attended s'.
Proof.
  intros Hok Ha Ht. enough (table_ok s' /\ attended s') by tauto.
  apply (exec_inv not_own (fun t => table_ok t /\ attended t) tr s s'); [|done|done].
  intros l t t' Hg Hs [Ht1 Ht2]. split; [by eapply table_pstep | by eapply attended_pstep].
Qed.

Lemma forM_idle {S A} (l : list A) (body : A -> M S unit) s :
  (forall x, x ∈ l -> body x s = Ret tt s) -> forM l body s = Ret tt s.
Proof.
  induction l as [|x l IH]; intros Hb; [done|]. simpl. rewrite (bind_ret _ _ _ tt s) by (apply Hb; left).
  apply IH. intros y Hy. apply Hb. by right.
Qed.

(** [exit] waits for the number of all threads in the system, [num_lwp], to be
    0, not for the threads of the process: with none of its own threads left, a
    manager process goes to sleep as long as the count is not 0.  As
    [thread_exit] and [exit] both count a thread down, the count of a process whose
    thread has ended by [thread_exit] is -1 when it exits. *)
Theorem exit_waits_for_count {R} `{ProcEnv R} me (s : pstate R) :
  plocked s = true -> state (getp s me) = RUNNING -> num_lwp s <> 0 ->
  (forall i, lwppid (thr (getp s i)) <> pid (getp s me)) ->
  exit_round me s = Ret (Blocked (A_proc me) tt)
    (with_plocked false (put me (set_context (C_sleep K_exit) (set_state SLEEPING (set_chan (A_proc me) (getp s me)))) s)).
Proof.
  intros Hl Hr Hn Ht. assert (Hi : (me < length (procs s))%nat) by (apply getp_in; congruence).
  unfold exit_round. rewrite (bind_ret _ _ _ tt s).
  - rewrite bind_gets, decide_False by done.
    rewrite (bind_ret _ _ s tt (with_plocked false (put me (set_context (C_sleep K_exit)
      (set_state SLEEPING (set_chan (A_proc me) (getp s me)))) s))); [done|].
    unfold sleep. rewrite (bind_ret _ _ s 0 s) by done. rewrite bind_upd. unfold sched, proc_at.
    rewrite bind_gets. cbn [plocked put with_procs]. rewrite Hl. cbv beta iota delta [negb]. rewrite decide_False by (intros Hne; by apply Hne).
    rewrite bind_gets, getp_put_eq by done. cbn [state set_state]. rewrite decide_False by done.
    change (interruptible (1 + 0)) with false. cbv beta iota.
    rewrite bind_upd, getp_put_eq, put_put by done. done.
  - apply forM_idle. intros i _. unfold exit_reap, proc_at. rewrite !bind_gets.
    by rewrite decide_True by apply Ht.
Qed.

(** ** Examples *)

(** A kernel in which every call succeeds. *)
Definition toy_env : ProcEnv unit := {|
  kalloc := ret 4096;
  kfree := fun _ => ret tt;
  setupkvm := ret 8192;
  inituvm := fun _ => ret tt;
  copyuvm := fun _ _ => ret 8192;
  allocuvm := fun _ _ n => ret n;
  deallocuvm := fun _ _ n => ret n;
  freevm := fun _ => ret tt;
  ustore := fun _ _ => ret tt;
  filedup := fun f => ret f;
  fileclose := fun _ => ret tt;
  idup := fun i => ret i;
  iput := fun _ => ret tt;
  namei := fun _ => ret 12288;
  begin_op := ret tt;
  end_op := ret tt;
  iinit := ret tt;
  initlog := ret tt;
  drain := fun r => ([], r)
|}.
#[local] Existing Instance toy_env.

(** [f] of the state after boot. *)
Definition start_with {A} (f : pstate unit -> option A) : option A :=
  match userinit (boot tt) with Ret _ s => f s | Stop _ _ => None end.

Lemma start_with_eq {A} (f : pstate unit -> option A) s0 :
  userinit (boot tt) = Ret tt s0 -> start_with f = f s0.
Proof. intros E. unfold start_with. rewrite E. reflexivity. Qed.

Lemma start_with_bind {A B} (f : pstate unit -> option A) (g : A -> option B) a :
  start_with f = Some a -> start_with (fun s => x ← f s; g x) = g a.
Proof. unfold start_with. destruct (userinit (boot tt)); [|done]. intros E. by rewrite E. Qed.

(** [init] forks and waits; the child asks for a share of the CPU and ends. *)
Definition toy_trace : list label :=
  [L_visit 0; L_call 0 P_fork; L_visit 1; L_call 1 (P_cpu_share 10); L_call 0 P_wait; L_call 1 P_exit; L_visit 0].

Lemma toy_reaches tr s : start_with (run_trace tr) = Some s -> reaches tt tr s.
Proof.
  unfold start_with. destruct (userinit (boot tt)) as [[] s0|] eqn:E; [|done].
  intros Ht%run_trace_exec. exists s0. split; [done|]. by eapply exec_mono; [|exact Ht].
Qed.

Lemma toy_ends : exists s, start_with (run_trace toy_trace) = Some s.
Proof. destruct (start_with (run_trace toy_trace)) eqn:E; [eauto | vm_compute in E; discriminate E]. Qed.


Lemma share_ledger_witness :
  exists s, start_with (run_trace toy_trace) = Some s /\ strd_sum s + strd_share_sum s + mshare (mlfqs s) = 100 /\ 60 <= strd_sum s.
Proof.
  destruct toy_ends as [s E]. exists s. split; [exact E|].
  destruct (share_ledger tt toy_trace s (toy_reaches _ _ E)) as [_ Hm].
  destruct Hm as (H1 & _ & _ & H2); [|lia]. repeat constructor; vm_compute; discriminate.
Defined.

Lemma toy_started : exists s0, userinit (boot tt) = Ret tt s0 /\ table_ok s0 /\ attended s0.
Proof.
  destruct (userinit (boot tt)) as [[] s0|] eqn:E; [|by vm_compute in E].
  exists s0. split; [done|]. split.
  - eapply (usteps_inv table_ok (Cfg false None None false)); [by apply table_ustep | by apply init_usteps | apply table_boot].
  - eapply (usteps_inv attended (Cfg true None None false)); [by intros ? ?; apply attended_ustep | by apply init_usteps|].
    intros q i [Hw _]. by rewrite getp_boot in Hw.
Qed.

Lemma no_lost_wakeup_witness : exists s s', run_trace toy_trace s = Some s' /\ attended s'.
Proof.
  destruct toy_started as (s0 & E0 & Hok & Ha). destruct toy_ends as [s E].
  rewrite (start_with_eq _ s0 E0) in E.
  exists s0, s. split; [exact E|]. exact (no_lost_wakeup s0 toy_trace s Hok Ha (run_trace_exec _ _ _ E)).
Defined.

(** A process makes a thread, which ends by [thread_exit]; then the process exits,
    and has already cleared the thread's slot. *)
Definition hang_trace : list label :=
  [L_visit 0; L_call 0 P_fork; L_visit 1; L_call 1 (P_thread_create 0 0 0); L_visit 2;
   L_call 2 (P_thread_exit 0); L_call 1 P_exit].

(** ... and when it is woken up again. *)
Definition hung (s : pstate unit) : pstate unit :=
  with_plocked true (put 1 (set_state RUNNING (getp s 1)) s).

Lemma exit_waits_for_count_witness :
  exists s, start_with (run_trace hang_trace) = Some s /\ num_lwp s = -1 /\
    match exit_round 1 (hung s) with Ret (Blocked c _) _ => c = A_proc 1 | _ => False end.
Proof.
  destruct (start_with (run_trace hang_trace)) as [s|] eqn:E; [|vm_compute in E; discriminate E].
  exists s. split; [reflexivity|].
  assert (Ec : start_with (fun s0 => s ← run_trace hang_trace s0;
      Some (num_lwp s, length (procs s), pid (getp s 1),
            forallb (fun i => bool_decide (lwppid (thr (getp (hung s) i)) <> pid (getp (hung s) 1))) all_procs))
    = Some (-1, NPROC, 2, true)) by (vm_compute; reflexivity).
  rewrite (start_with_bind _ _ _ E) in Ec. apply (inj Some) in Ec. apply pair_equal_spec in Ec as [Ec Ef].
  injection Ec as En El Ep.
  assert (Hin : (1 < length (procs s))%nat) by (rewrite El; unfold NPROC; lia).
  split; [exact En|].
  rewrite (exit_waits_for_count 1 (hung s)); [reflexivity | reflexivity | | |].
  - unfold hung. change (state (getp (put 1 (set_state RUNNING (getp s 1)) s) 1) = RUNNING).
    rewrite getp_put_eq by exact Hin. reflexivity.
  - change (num_lwp s <> 0). lia.
  - intros i. destruct (decide (i < NPROC)%nat) as [Hi|Hi].
    + rewrite forallb_forall in Ef. specialize (Ef i). rewrite bool_decide_eq_true in Ef. apply Ef.
      apply in_seq. lia.
    + assert (Ei : getp (hung s) i = proc0).
      { apply getp_over. unfold hung. cbn [procs with_plocked]. rewrite length_put. lia. }
      rewrite Ei. unfold hung. change (0 <> pid (getp (put 1 (set_state RUNNING (getp s 1)) s) 1)).
      rewrite getp_put_eq by exact Hin. cbn [pid set_state]. rewrite Ep. discriminate.
Defined.

End ProcProps.
