(* ===== verification/ProcCpu.v ===== *)
(** Several CPUs: each runs the loop of [scheduler] of src/xv6-public/proc.c, or the
    process the loop has switched to.

    A step of the machine is a pass of the loop of [scheduler] on one CPU, up to the next switch or the end of the table; a call of the process that
    runs on a CPU; or a call of [wakeup] from an interrupt handler.  When the process on a CPU has given it up, the loop goes
    on with the slot after it. *)

From S2P Require Import Prelude Bytes CString Kalloc Proc ProcSteps ProcSim ProcProps.

Module ProcCpu.
Import Proc ProcSteps ProcSim ProcProps.

(** What a CPU does: the loop of [scheduler] is at slot [k], or the process in slot [i] runs. *)
Inductive cpu := Scan (k : nat) | Run (i : nat).

Inductive clabel := C_sched (c : nat) | C_call (c : nat) (o : pcall) | C_wakeup (ch : kaddr).

Definition set_cpu (c : nat) (x : cpu) (cs : nat -> cpu) : nat -> cpu := fun d => if decide (d = c) then x else cs d.

Lemma set_cpu_eq c x cs : set_cpu c x cs c = x.
Proof. unfold set_cpu. by rewrite decide_True. Qed.
Lemma set_cpu_ne c d x cs : d <> c -> set_cpu c x cs d = cs d.
Proof. intros. unfold set_cpu. by rewrite decide_False. Qed.

Section machine.
Context {R : Type} `{ProcEnv R}.
Notation PS := (pstate R).
Implicit Types (s : PS) (cs : nat -> cpu).

Record machine := Machine { table : PS; cpus : nat -> cpu }.

(** What the CPU does after the process in slot [i] has run on it: it goes on with the process, unless that has given it up. *)
Definition next (i : nat) s : cpu := if decide (state (getp s i) = RUNNING) then Run i else Scan (S i).

Inductive cstep : clabel -> machine -> machine -> Prop :=
| c_switch c k i s s' cs : cs c = Scan k -> scheduler k s = Ret (Some i) s' ->
    cstep (C_sched c) (Machine s cs) (Machine s' (set_cpu c (next i s') cs))
| c_over c k s s' cs : cs c = Scan k -> scheduler k s = Ret None s' ->
    cstep (C_sched c) (Machine s cs) (Machine s' (set_cpu c (Scan 0) cs))
| c_call c i o s s' cs : cs c = Run i -> run_call i o s = Ret tt s' ->
    cstep (C_call c o) (Machine s cs) (Machine s' (set_cpu c (next i s') cs))
| c_wakeup ch s s' cs : wakeup ch s = Ret tt s' -> cstep (C_wakeup ch) (Machine s cs) (Machine s' cs).

Inductive cexec : list clabel -> machine -> machine -> Prop :=
| cexec_nil m : cexec [] m m
| cexec_cons l ls m m1 m' : cstep l m m1 -> cexec ls m1 m' -> cexec (l :: ls) m m'.

(** The machine when [userinit] is done: every CPU enters [scheduler]. *)
Definition started (r : R) (m : machine) : Prop := userinit (boot r) = Ret tt (table m) /\ forall c, cpus m c = Scan 0.

(** ** The loop of the scheduler *)

Lemma visit_idle i s : state (getp s i) <> RUNNABLE -> scheduler_visit i s = Ret false s.
Proof. intros Hi. unfold scheduler_visit, proc_at. rewrite bind_gets. by rewrite decide_True. Qed.

Lemma scan_spec l : forall s r s', scan l s = Ret r s' ->
  match r with
  | None => s' = s /\ forall j, j ∈ l -> state (getp s j) <> RUNNABLE
  | Some i => exists l1 l2, l = l1 ++ i :: l2 /\ (forall j, j ∈ l1 -> state (getp s j) <> RUNNABLE) /\
      state (getp s i) = RUNNABLE /\ scheduler_visit i s = Ret true s'
  end.
Proof.
  induction l as [|i l IH]; intros s r s' E; simpl in E.
  - injection E as <- <-. split; [done|]. by intros j ?%elem_of_nil.
  - destruct (decide (state (getp s i) = RUNNABLE)) as [Hr|Hr].
    + apply bind_ret_inv in E as (v & s1 & E1 & E2). destruct (visit_post i s Hr _ _ E1) as [-> _].
      injection E2 as <- <-. exists [], l. split; [done|]. split; [by intros j ?%elem_of_nil | done].
    + rewrite (bind_ret _ _ _ _ _ (visit_idle i s Hr)) in E. apply IH in E.
      assert (forall l1, (forall j, j ∈ l1 -> state (getp s j) <> RUNNABLE) -> forall j, j ∈ i :: l1 -> state (getp s j) <> RUNNABLE) as Hc.
      { intros l1 Hl j [->|Hj]%elem_of_cons; [done | by apply Hl]. }
      destruct r as [j|]; [|destruct E as [-> E]; split; [done | by apply Hc]].
      destruct E as (l1 & l2 & -> & Hl & Hj). exists (i :: l1), l2. split; [done|]. split; [by apply Hc | done].
Qed.

Lemma acquire_inv s a s' : acquire s = Ret a s' -> plocked s = false /\ s' = with_plocked true s.
Proof. unfold acquire. rewrite bind_gets. destruct (plocked s); [done|]. by intros [= <- <-]. Qed.

(** The pass switches to the first ready process from slot [k] on. *)
Lemma scheduler_some k s i s' : scheduler k s = Ret (Some i) s' ->
  (k <= i < NPROC)%nat /\ state (getp s i) = RUNNABLE /\ (forall j, (k <= j < i)%nat -> state (getp s j) <> RUNNABLE) /\
  dispatch i s = Ret tt s' /\
  exists t, (acquire ;;; scan (seq k (NPROC - k))) s = Ret (Some i) t /\ state (getp t i) = RUNNING.
Proof.
  intros ([] & t0 & E0 & (r & t & E & E2)%bind_ret_inv)%bind_ret_inv. pose proof (scan_spec _ _ _ _ E) as Hsp.
  apply acquire_inv in E0 as E0'. destruct E0' as [Hl ->].
  destruct r as [j|]; [|apply bind_ret_inv in E2 as (? & ? & _ & [=])].
  apply bind_ret_inv in E2 as ([] & s2 & E2 & E3). injection E3 as -> <-. destruct Hsp as (l1 & l2 & El & Hidle & Hr & Hv).
  assert ((k <= i < k + (NPROC - k))%nat) as Hi by (apply elem_of_seq; rewrite El; set_solver).
  split; [lia|]. split; [exact Hr|]. split; [|split].
  - intros j Hj. apply Hidle. assert (l1 = seq k (i - k)) as ->; [|apply elem_of_seq; lia].
    assert (NPROC - k = (i - k) + S (NPROC - k - (i - k) - 1))%nat as En by lia. rewrite En, seq_app in El. simpl in El.
    assert (seq k (NPROC - k) !! length l1 = Some i) as Ei by (rewrite En, seq_app; simpl; rewrite El; by apply list_lookup_middle).
    apply lookup_seq in Ei as [Ei _].
    apply (app_inj_1 (seq k (i - k)) l1) in El as [El _]; [done|]. rewrite length_seq. lia.
  - unfold dispatch. rewrite (bind_ret _ _ _ _ _ E0), (bind_ret _ _ _ _ _ Hv). exact E2.
  - exists t. rewrite (bind_ret _ _ _ _ _ E0). split; [exact E|]. by destruct (visit_post i _ Hr _ _ Hv).
Qed.

Lemma unlock_lock s : plocked s = false -> with_plocked false (with_plocked true s) = s.
Proof. destruct s; simpl. by intros ->. Qed.

Lemma scheduler_none k s s' : scheduler k s = Ret None s' ->
  s' = s /\ forall j, (k <= j < NPROC)%nat -> state (getp s j) <> RUNNABLE.
Proof.
  intros ([] & t0 & E0 & (r & t & E & E2)%bind_ret_inv)%bind_ret_inv. pose proof (scan_spec _ _ _ _ E) as Hsp.
  apply acquire_inv in E0 as [Hl ->]. destruct r as [j|]; [apply bind_ret_inv in E2 as (? & ? & _ & [=])|].
  destruct Hsp as [-> Hidle]. split.
  - apply bind_ret_inv in E2 as ([] & s2 & E2 & [= <-]). injection E2 as <-. by apply unlock_lock.
  - intros j Hj. apply (Hidle j). apply elem_of_seq. lia.
Qed.

(** ** Processes and CPUs *)

(** A process runs exactly when a CPU runs it, and then on that CPU only. *)
Record seated (m : machine) : Prop := MkSeated {
  seat_table : table_ok (table m);
  seat_run : forall c i, cpus m c = Run i -> state (getp (table m) i) = RUNNING;
  seat_one : forall c d i, cpus m c = Run i -> cpus m d = Run i -> c = d;
  seat_all : forall i, state (getp (table m) i) = RUNNING -> exists c, cpus m c = Run i;
  seat_pos : forall c k, cpus m c = Scan k -> (k <= NPROC)%nat
}.

(** The process in slot [i] has run on CPU [c], where no other process was. *)
Lemma seated_act s s' cs c i :
  seated (Machine s cs) -> table_ok s' -> (i < NPROC)%nat ->
  (forall j, cs c = Run j -> j = i) -> (forall d, d <> c -> cs d <> Run i) ->
  (forall j, j <> i -> state (getp s' j) = RUNNING <-> state (getp s j) = RUNNING) ->
  seated (Machine s' (set_cpu c (next i s') cs)).
Proof.
  intros [S1 S2 S3 S4 S5] Hok Hi Hc Hd Hj. simpl in *.
  assert (forall d j, set_cpu c (next i s') cs d = Run j -> (d = c /\ j = i /\ state (getp s' i) = RUNNING) \/ (d <> c /\ j <> i /\ cs d = Run j)) as Hrun.
  { intros d j. unfold set_cpu, next. case_decide as D; [case_decide; [|done]; intros [= <-]; by left|].
    intros E. right. split; [done|]. split; [|done]. intros ->. by apply (Hd d). }
  split; simpl; [done | | | |].
  - intros d j [(-> & -> & Hr)|(Hdc & Hji & E)]%Hrun; [done|]. apply Hj; [done|]. by eapply S2.
  - intros d d' j [(-> & -> & _)|(Hdc & Hji & E)]%Hrun [(-> & ? & _)|(_ & ? & E')]%Hrun; try done. by eapply S3.
  - intros j Hr. destruct (decide (j = i)) as [->|Hne].
    + exists c. rewrite set_cpu_eq. unfold next. by rewrite decide_True.
    + apply Hj, S4 in Hr as [d Hdj]; [|done]. exists d. rewrite set_cpu_ne; [done|]. intros ->. apply Hne. by apply Hc.
  - intros d k. unfold set_cpu, next. case_decide; [case_decide; [done|]; intros [= <-]; lia | apply S5].
Qed.

(** What a step of the machine is for the process table. *)
Lemma cstep_pstep l m m' : seated m -> cstep l m m' ->
  table m' = table m \/ exists l', pstep l' (table m) (table m') /\
    match l' with L_visit i => exists c k, l = C_sched c /\ cpus m c = Scan k /\ scheduler k (table m) = Ret (Some i) (table m') | _ => True end.
Proof.
  intros Hm Hst. destruct Hst as [c k i s s' cs Hc E|c k s s' cs Hc E|c i o s s' cs Hc E|ch s s' cs E]; simpl.
  - right. exists (L_visit i). split; [split; [done | by apply scheduler_some in E as (_ & _ & _ & E & _)]|]. by exists c, k.
  - left. by apply scheduler_none in E as [-> _].
  - right. exists (L_call i o). split; [|done]. split; [|done]. exact (seat_run _ Hm c i Hc).
  - right. exists (L_wakeup ch). by split.
Qed.

Lemma table_cstep l m m' : seated m -> cstep l m m' -> table_ok (table m').
Proof.
  intros Hm Hst. pose proof (seat_table _ Hm). destruct (cstep_pstep l m m' Hm Hst) as [->|(l' & Hs & _)]; [done|].
  by eapply table_pstep.
Qed.

Lemma seated_cstep l m m' : cstep l m m' -> seated m -> seated m'.
Proof.
  intros Hst Hm. pose proof (table_cstep l m m' Hm Hst) as Hok. pose proof (seat_table _ Hm) as Hok0.
  destruct Hst as [c k i s s' cs Hc E|c k s s' cs Hc E|c i o s s' cs Hc E|ch s s' cs E]; simpl in *.
  - apply scheduler_some in E as (Hi & Hr & _ & Hd & _). apply (seated_act s); try done; [lia | congruence | |].
    + intros d _ Hdi. pose proof (seat_run _ Hm d i Hdi). simpl in *. congruence.
    + intros j Hj. apply (running_pstep (L_visit i)); [done | simpl; congruence | by split].
  - apply scheduler_none in E as [-> _]. destruct Hm as [S1 S2 S3 S4 S5]. simpl in *.
    assert (forall d j, set_cpu c (Scan 0) cs d = Run j -> cs d = Run j) as Hrun.
    { intros d j. unfold set_cpu. by case_decide. }
    split; simpl; [done | eauto | eauto | |].
    + intros j [d Hdj]%S4. exists d. rewrite set_cpu_ne; [done | congruence].
    + intros d k'. unfold set_cpu. case_decide; [intros [= <-]; lia | apply S5].
  - pose proof (seat_run _ Hm c i Hc) as Hr. simpl in Hr. apply (seated_act s); try done.
    + rewrite <- (table_len _ Hok0). by apply running_in.
    + congruence.
    + intros d Hd Hdi. apply Hd. by apply (seat_one _ Hm d c i).
    + intros j Hj. apply (running_pstep (L_call i o)); [done | simpl; congruence | by split].
  - destruct Hm as [S1 S2 S3 S4 S5]. simpl in *.
    assert (forall j, state (getp s' j) = RUNNING <-> state (getp s j) = RUNNING) as Hj.
    { intros j. by apply (running_pstep (L_wakeup ch)); [done | done | split]. }
    split; simpl; [done | | done | | done]; intros; [apply Hj; eauto | by apply S4, Hj].
Qed.

Lemma cexec_inv (J : machine -> Prop) tr m m' : (forall l m1 m2, cstep l m1 m2 -> J m1 -> J m2) -> cexec tr m m' -> J m -> J m'.
Proof. intros Hs. induction 1; [done|]. eauto. Qed.

Lemma seated_started r m : started r m -> seated m.
Proof.
  intros [E Hc]. assert (table_ok (table m)) as Hok.
  { eapply (usteps_inv table_ok (Cfg false None None false)); [by apply table_ustep | by apply init_usteps | apply table_boot]. }
  split; [done | intros c i; by rewrite Hc | intros c d i; by rewrite Hc | | intros c k; rewrite Hc; intros [= <-]; lia].
  intros i Hi. exfalso. revert Hi. apply (usteps_inv (fun t => state (getp t i) <> RUNNING) (Cfg false None None false) (boot r)).
  - intros t t' Hu Ht Hr. apply Ht. by apply (running_ustep (Cfg false None None false) t t' i).
  - by apply init_usteps.
  - by rewrite getp_boot.
Qed.

(** ** Rounds of the scheduler *)

(** The slot the loop of the CPU is at, or goes on with. *)
Definition pos (x : cpu) : nat := match x with Scan k => k | Run i => S i end.

(** A bound on the passes of the loop until it comes to slot [i]. *)
Definition ahead (i : nat) (x : cpu) : nat :=
  if decide (pos x <= i)%nat then S i - pos x else S NPROC - pos x + S i.

(** The passes of the loop on CPU [c]. *)
Fixpoint passes (c : nat) (tr : list clabel) : nat :=
  match tr with
  | [] => 0
  | C_sched d :: tr' => (if decide (d = c) then 1 else 0) + passes c tr'
  | _ :: tr' => passes c tr'
  end.

Lemma pos_next i s : pos (next i s) = S i.
Proof. unfold next. by case_decide. Qed.

Lemma runnable_in s i : table_ok s -> state (getp s i) = RUNNABLE -> (i < NPROC)%nat.
Proof. intros Hok Hr. rewrite <- (table_len _ Hok). apply getp_in. congruence. Qed.

(** The step that switches to process [i]. *)
Definition runs_it (i : nat) (l : clabel) (m m' : machine) : Prop :=
  exists c k, l = C_sched c /\ cpus m c = Scan k /\ scheduler k (table m) = Ret (Some i) (table m').

Lemma ahead_eq i x y : pos x = pos y -> ahead i x = ahead i y.
Proof. unfold ahead. by intros ->. Qed.

(** Any other step leaves it ready, and a pass takes the loop closer to it. *)
Lemma cstep_closer l m m' i c : seated m -> cstep l m m' -> state (getp (table m) i) = RUNNABLE ->
  runs_it i l m m' \/
  (state (getp (table m') i) = RUNNABLE /\ (ahead i (cpus m' c) + passes c [l] <= ahead i (cpus m c))%nat).
Proof.
  intros Hm Hst Hr. pose proof (seat_table _ Hm) as Hok. pose proof (runnable_in _ _ Hok Hr) as Hi.
  destruct Hst as [d k j s s' cs Hc E|d k s s' cs Hc E|d j o s s' cs Hc E|ch s s' cs E]; simpl in *.
  - destruct (decide (j = i)) as [->|Hne]; [left; by exists d, k|]. right. apply scheduler_some in E as (Hj & Hrj & Hbefore & Hd & _).
    split; [eapply (runnable_pstep (L_visit j)); [done | simpl; congruence | by split | done]|].
    unfold set_cpu. case_decide as D; [|rewrite decide_False by done; lia]. rewrite decide_True by done. rewrite D, Hc.
    assert (~ (k <= i < j)%nat) by (intros Hij; by apply (Hbefore i Hij)). unfold ahead. rewrite pos_next. simpl. repeat case_decide; lia.
  - right. apply scheduler_none in E as [-> Hnone]. split; [done|].
    unfold set_cpu. case_decide as D; [|rewrite decide_False by done; lia]. rewrite decide_True by done. rewrite D, Hc.
    assert (~ (k <= i)%nat) by (intros Hki; by apply (Hnone i)). pose proof (seat_pos _ Hm d k Hc). unfold ahead. simpl. repeat case_decide; lia.
  - right. split; [eapply (runnable_pstep (L_call j o)); [done | done | split; [|done] | done]; by apply (seat_run _ Hm d)|].
    unfold set_cpu. case_decide as D; [|lia]. rewrite D, Hc. rewrite (ahead_eq i _ (Run j)) by apply pos_next. lia.
  - right. split; [by eapply (runnable_pstep (L_wakeup ch)); [| |split|]|]. lia.
Qed.

Lemma passes_cons c l tr : passes c (l :: tr) = (passes c [l] + passes c tr)%nat.
Proof. destruct l; simpl; lia. Qed.

Lemma ahead_bounds i x : (i < NPROC)%nat -> (1 <= ahead i x <= S NPROC)%nat.
Proof. intros Hi. unfold ahead. case_decide; lia. Qed.

Lemma within_ahead tr m m' i c : cexec tr m m' -> seated m -> state (getp (table m) i) = RUNNABLE ->
  (ahead i (cpus m c) <= passes c tr)%nat ->
  exists tr1 l tr2 m1 m2, tr = tr1 ++ l :: tr2 /\ cexec tr1 m m1 /\ cstep l m1 m2 /\ cexec tr2 m2 m' /\ seated m1 /\
    (passes c tr1 < ahead i (cpus m c))%nat /\ state (getp (table m1) i) = RUNNABLE /\ runs_it i l m1 m2.
Proof.
  intros Ht. induction Ht as [m|l tr m m1 m' Hst Ht IH]; intros Hm Hr Hp; pose proof (runnable_in _ _ (seat_table _ Hm) Hr) as Hi;
    pose proof (ahead_bounds i (cpus m c) Hi) as Ha; [simpl in Hp; lia|].
  destruct (cstep_closer l m m1 i c Hm Hst Hr) as [Hrun|[Hr1 Hc]].
  - exists [], l, tr, m, m1. split; [done|]. split; [constructor|]. split; [done|]. split; [done|]. split; [done|]. split; [simpl; lia | done].
  - rewrite passes_cons in Hp. destruct IH as (tr1 & l' & tr2 & m2 & m3 & -> & H1 & H2 & H3 & H4 & H5 & H6); [by eapply seated_cstep | done | lia|].
    exists (l :: tr1), l', tr2, m2, m3. split; [done|]. split; [by econstructor|]. split; [done|]. split; [done|]. split; [done|].
    split; [rewrite passes_cons; lia | done].
Qed.

(** ** Running the machine *)

Definition crun1 (l : clabel) (m : machine) : option machine :=
  match l with
  | C_sched c =>
      match cpus m c with
      | Scan k =>
          match scheduler k (table m) with
          | Ret (Some i) s' => Some (Machine s' (set_cpu c (next i s') (cpus m)))
          | Ret None s' => Some (Machine s' (set_cpu c (Scan 0) (cpus m)))
          | Stop _ _ => None
          end
      | Run _ => None
      end
  | C_call c o =>
      match cpus m c with
      | Run i => match run_call i o (table m) with Ret _ s' => Some (Machine s' (set_cpu c (next i s') (cpus m))) | Stop _ _ => None end
      | Scan _ => None
      end
  | C_wakeup ch => match wakeup ch (table m) with Ret _ s' => Some (Machine s' (cpus m)) | Stop _ _ => None end
  end.

Fixpoint crun (tr : list clabel) (m : machine) : option machine :=
  match tr with [] => Some m | l :: tr' => m1 ← crun1 l m; crun tr' m1 end.

Lemma crun1_cstep l m m' : crun1 l m = Some m' -> cstep l m m'.
Proof.
  destruct m as [s cs], l as [c|c o|ch]; simpl; intros E.
  - destruct (cs c) as [k|] eqn:Ec; [|done]. destruct (scheduler k s) as [[i|] s'|] eqn:Es; [| |done]; injection E as <-; by econstructor.
  - destruct (cs c) as [|i] eqn:Ec; [done|]. destruct (run_call i o s) as [[] s'|] eqn:Es; [|done]. injection E as <-. by econstructor.
  - destruct (wakeup ch s) as [[] s'|] eqn:Es; [|done]. injection E as <-. by econstructor.
Qed.

Lemma crun_cexec tr m m' : crun tr m = Some m' -> cexec tr m m'.
Proof.
  revert m. induction tr as [|l tr IH]; simpl; intros m E; [injection E as <-; constructor|].
  destruct (crun1 l m) as [m1|] eqn:E1; [|done]. econstructor; [by apply crun1_cstep | by apply IH].
Qed.
End machine.

(** ** The theorems *)


(** C8: the scheduler starves nobody.  In every execution of the machine from boot, whatever the processes call and however the steps
    of the CPUs are interleaved, a process that is ready is run, by one CPU or another, before any CPU has made more than [NPROC] further
    passes of the loop of [scheduler]; and it stays ready until then.  (A pass is the loop from where it is to the next switch or the end of the
    table: a CPU makes passes as long as the processes it runs give it up.) *)
Theorem round_robin {R} `{ProcEnv R} (r : R) m0 tr0 m tr m' i c :
  started r m0 -> cexec tr0 m0 m -> cexec tr m m' -> state (getp (table m) i) = RUNNABLE -> (NPROC < passes c tr)%nat ->
  exists tr1 d tr2 m1 k t, tr = tr1 ++ C_sched d :: tr2 /\ cexec tr1 m m1 /\ (passes c tr1 <= NPROC)%nat /\
    state (getp (table m1) i) = RUNNABLE /\ cpus m1 d = Scan k /\
    (acquire ;;; scan (seq k (NPROC - k))) (table m1) = Ret (Some i) t /\ state (getp t i) = RUNNING.
Proof.
  intros H0 Ht0 Ht Hr Hp.
  assert (seated m) as Hm by (apply (cexec_inv seated tr0 m0 m); [by intros; eapply seated_cstep | done | by eapply seated_started]).
  pose proof (ahead_bounds i (cpus m c) (runnable_in _ _ (seat_table _ Hm) Hr)) as Ha.
  destruct (within_ahead tr m m' i c Ht Hm Hr) as (tr1 & l & tr2 & m1 & m2 & -> & H1 & _ & _ & _ & H5 & H6 & (d & k & -> & Hd & E)); [lia|].
  apply scheduler_some in E as (_ & _ & _ & _ & t & Et & Hrt). exists tr1, d, tr2, m1, k, t.
  split; [done|]. split; [done|]. split; [lia|]. done.
Qed.

(** ** Examples *)

#[local] Existing Instance toy_env.

(** [init] forks on the first CPU, and the second runs the child; or the two yield in turn on the first. *)
Definition toy_start : machine := Machine (match userinit (boot tt) with Ret _ s | Stop _ s => s end) (fun _ => Scan 0).
Definition toy_turn : list clabel := [C_call 0 P_yield; C_sched 0; C_call 0 P_yield; C_sched 0; C_sched 0].
Definition toy_turns : list clabel := concat (replicate 22 toy_turn).

Lemma toy_start_ok : started tt toy_start.
Proof. destruct toy_started as (s0 & E & _). split; [|reflexivity]. unfold toy_start. cbn [table]. rewrite E. reflexivity. Qed.


(** [init] has forked and yields; the child is run within the bound. *)
Lemma round_robin_witness :
  exists m m' tr1 m1, crun [C_sched 0; C_call 0 P_fork] toy_start = Some m /\ crun toy_turns m = Some m' /\
    cexec tr1 m m1 /\ (passes 0 tr1 <= NPROC)%nat /\ state (getp (table m1) 1) = RUNNABLE.
Proof.
  destruct (crun [C_sched 0; C_call 0 P_fork] toy_start) as [m|] eqn:E0; [|vm_compute in E0; discriminate E0].
  destruct (crun toy_turns m) as [m'|] eqn:E1.
  2: { assert (Ec : (m ← crun [C_sched 0; C_call 0 P_fork] toy_start; crun toy_turns m) = None) by (rewrite E0; exact E1).
       vm_compute in Ec. discriminate Ec. }
  assert (state (getp (table m) 1) = RUNNABLE) as Hr.
  { assert (Ec : (m ← crun [C_sched 0; C_call 0 P_fork] toy_start; Some (state (getp (table m) 1))) = Some RUNNABLE) by (vm_compute; reflexivity).
    rewrite E0 in Ec. by injection Ec. }
  destruct (round_robin tt toy_start _ m toy_turns m' 1 0 toy_start_ok (crun_cexec _ _ _ E0) (crun_cexec _ _ _ E1) Hr)
    as (tr1 & d & tr2 & m1 & k & t & _ & H1 & H2 & H3 & _); [vm_compute; lia|].
  exists m, m', tr1, m1. done.
Defined.
End ProcCpu.
