(* ===== verification/ProcShare.v ===== *)
(** What [cpu_share] does, on every path: src/xv6-public/proc.c, [cpu_share] with
    [update_strd] and [init_pass]. *)

From S2P Require Import Prelude Bytes CString Kalloc Proc ProcSteps ProcSim.

Module ProcShare.
Import Proc ProcSteps ProcSim.

Section share.
Context {R : Type}.
Notation P := (M (pstate R)).
Notation PS := (pstate R).
Implicit Types (s : PS).

(** The share that [update_strd] computes for the ready process [i], or the one it has been granted. *)
Definition shared_out (s : PS) (i : nat) : Z :=
  match mode (getp s i) with
  | STRD_SCHED => Z.quot (strd_sum s) (ready_count STRD_SCHED s)
  | STRD_SET_SCHED => share (strd (getp s i))
  | MLFQ_SCHED => Z.quot (mshare (mlfqs s)) (ready_count MLFQ_SCHED s)
  end.

(** Nobody ready is left without a share: the strides can be computed. *)
Definition dividable (s : PS) : Prop :=
  forall i, (i < NPROC)%nat -> state (getp s i) = RUNNABLE -> shared_out s i <> 0.

(** From [s] to [s'], only strides, passes and computed shares of ready processes
    changed. *)
Record retuned (s s' : PS) : Prop := MkRetuned {
  rt_tuned : tuned s s';
  rt_others : forall i, state (getp s i) <> RUNNABLE -> getp s' i = getp s i;
  rt_locked : plocked s' = plocked s
}.

#[local] Instance retuned_pre : PreOrder retuned.
Proof.
  split; [by constructor|]. intros s t u [[Hq1 H1] H2 H3] [[Hq2 H4] H5 H6]. constructor; [|..|congruence].
  - split; [by etrans|]. intros j. destruct (H1 j), (H4 j). split; congruence.
  - intros i Hi. rewrite H5, H2; [done..|]. by destruct (H1 i) as [-> _].
Qed.

Lemma retuned_put i p s :
  state (getp s i) = RUNNABLE -> calm (getp s i) p -> state p = RUNNABLE -> retuned s (put i p s).
Proof.
  intros Hr Hc Hp. constructor; [apply tuned_put; [done | congruence] | | done].
  intros j Hj. rewrite getp_put_ne; [done|]. congruence.
Qed.

Lemma runs_divide a b (Q : Z -> PS -> Prop) s : b <> 0 -> Q (Z.quot a b) s -> runs (divide a b) Q s.
Proof. intros Hb HQ. unfold divide. rewrite decide_False by done. by apply runs_ret. Qed.

Lemma runs_get_num sm (Q : Z -> PS -> Prop) s : Q (ready_count sm s) s -> runs (get_num sm) Q s.
Proof. apply runs_gets. Qed.

(** From [s] to [s'], the ready process [i] has got its share and its stride. *)
Definition strided (s s' : PS) (i : nat) : Prop :=
  share (strd (getp s' i)) = shared_out s i /\ stride (strd (getp s' i)) = Z.quot 10001 (shared_out s i).

Definition no_division (s : PS) (i : nat) (r : stop) (_ : PS) : Prop :=
  r = DivideError /\ state (getp s i) = RUNNABLE /\ shared_out s i = 0.

Lemma wp_divide a b (Q : Z -> PS -> Prop) (F : stop -> PS -> Prop) s :
  (b = 0 -> F DivideError s) -> (b <> 0 -> Q (Z.quot a b) s) -> wp (divide a b) Q F s.
Proof. intros H0 H1. unfold divide. case_decide; [by apply wp_stop, H0 | by apply wp_ret, H1]. Qed.

Lemma wp_restride i v s s0 : v = shared_out s0 i -> state (getp s0 i) = RUNNABLE ->
  state (getp s i) = RUNNABLE -> mode (getp s i) <> STRD_SET_SCHED ->
  wp (upd_proc i (set_share v) ;;; let! w := divide 10001 v in upd_proc i (set_stride w))
    (fun _ s' => retuned s s' /\ (shared_out s0 i <> 0 /\ strided s0 s' i) /\ forall j, j <> i -> getp s' j = getp s j)
    (no_division s0 i) s.
Proof.
  intros -> Hr0 Hr Hm. assert (Hi : (i < length (procs s))%nat) by (apply getp_in; congruence). set (v := shared_out s0 i).
  apply wp_bind, wp_modify, wp_bind, wp_divide; [by intros ?|]. intros Hv. apply wp_modify.
  set (p := set_share v (getp s i)).
  rewrite getp_put_eq by done. split; [|split; [split; [done|]|]].
  - etrans; [apply (retuned_put i p); [done | by apply calm_set_share | done]|].
    apply retuned_put; rewrite ?getp_put_eq by done; [done | apply calm_set_stride | done].
  - unfold strided. by rewrite getp_put_eq by (by rewrite length_put).
  - intros j Hj. by rewrite !getp_put_ne.
Qed.

Lemma wp_update_one i s s0 :
  (i < NPROC)%nat -> retuned s0 s -> getp s i = getp s0 i ->
  wp (update_one (ready_count STRD_SCHED s0) (ready_count MLFQ_SCHED s0) i)
    (fun _ s' => retuned s s' /\ (state (getp s0 i) = RUNNABLE -> shared_out s0 i <> 0 /\ strided s0 s' i) /\
                 forall j, j <> i -> getp s' j = getp s j)
    (no_division s0 i) s.
Proof.
  intros Hi Hrt Eg. unfold update_one, proc_at. apply wp_bind, wp_gets. rewrite Eg. case_decide as Hr.
  { apply wp_ret. split; [done|]. split; [congruence | done]. }
  assert (Hr' : state (getp s0 i) = RUNNABLE) by (destruct (state (getp s0 i)); tauto). clear Hr.
  destruct (rt_tuned _ _ Hrt) as [Hq _].
  assert (Hpos : forall sm, mode (getp s0 i) = sm -> 0 < ready_count sm s0) by (intros sm E; by apply (count_pos s0 i)).
  destruct (mode (getp s0 i)) eqn:Hm.
  - apply wp_bind, wp_gets. rewrite (quiet_sum _ _ Hq). specialize (Hpos STRD_SCHED eq_refl).
    apply wp_bind, wp_divide; [lia|]. intros _. eapply wp_mono; [apply wp_restride with (s0 := s0) | naive_solver | done]; try congruence.
    unfold shared_out. by rewrite Hm.
  - assert (Hin : (i < length (procs s))%nat) by (apply getp_in; congruence).
    assert (share (strd (getp s0 i)) = shared_out s0 i) as -> by (unfold shared_out; by rewrite Hm).
    apply wp_bind, wp_divide; [by intros ?|]. intros Hv. apply wp_modify. split; [|split].
    + apply retuned_put; [congruence | apply calm_set_stride | simpl; congruence].
    + intros _. split; [done|]. unfold strided. rewrite getp_put_eq by done. rewrite Eg. simpl. split; [|done].
      unfold shared_out. by rewrite Hm.
    + intros j Hj. by rewrite getp_put_ne.
  - specialize (Hpos MLFQ_SCHED eq_refl). rewrite decide_False by lia. apply wp_bind, wp_gets.
    rewrite (quiet_mshare _ _ Hq). apply wp_bind, wp_divide; [lia|]. intros _.
    eapply wp_mono; [apply wp_restride with (s0 := s0) | naive_solver | done]; try congruence.
    unfold shared_out. by rewrite Hm.
Qed.

Lemma wp_for (I : nat -> PS -> Prop) (F : stop -> PS -> Prop) k m body s :
  I k s -> (forall i s', (k <= i < k + m)%nat -> I i s' -> wp (body i) (fun _ => I (S i)) F s') ->
  wp (forM (seq k m) body) (fun _ => I (k + m)%nat) F s.
Proof.
  intros HI Hb. eapply wp_mono; [apply (wp_forM (fun l s' => exists i, (k <= i <= k + m)%nat /\ l = seq i (k + m - i) /\ I i s'))| |done].
  - exists k. split; [lia|]. split; [f_equal; lia | done].
  - intros x l' s' (i & Hi & El & HI'). destruct (k + m - i)%nat as [|d] eqn:Ed; [done|]. injection El as -> ->.
    eapply wp_mono; [apply Hb; [lia | done]| |done]. intros [] s2 HI2. exists (S i). split; [lia|]. split; [f_equal; lia | done].
  - intros [] s' (i & Hi & El & HI'). destruct (k + m - i)%nat eqn:Ed; [|done]. by replace (k + m)%nat with i by lia.
Qed.

Definition no_share (s : PS) (r : stop) (_ : PS) : Prop := r = DivideError /\ ~ dividable s.

(** All ready processes get their shares and strides, or one of them gets no share and the kernel divides by zero. *)
Lemma wp_update_strd s :
  wp update_strd (fun _ s' => retuned s s' /\ dividable s /\ forall i, (i < NPROC)%nat -> state (getp s i) = RUNNABLE -> strided s s' i)
    (no_share s) s.
Proof.
  unfold update_strd, all_procs, get_num. do 2 apply wp_bind, wp_gets. apply wp_bind.
  eapply wp_mono; [apply (wp_for (fun k s' => retuned s s' /\ (forall i, (i < k)%nat -> state (getp s i) = RUNNABLE -> shared_out s i <> 0 /\ strided s s' i) /\
    forall i, (k <= i)%nat -> getp s' i = getp s i) (no_share s) 0 NPROC)| |done].
  - split; [done|]. split; [lia | done].
  - intros i s1 [_ Hi] (Hrt & Hst & Hrest). eapply wp_mono; [apply (wp_update_one i s1 s); [done | done | by apply Hrest]| |].
    + intros [] s2 (Hrt2 & Hi2 & Hj). split; [by etrans|]. split.
      * intros j Hji Hr. destruct (decide (j = i)) as [->|Hne]; [by apply Hi2|]. unfold strided. rewrite Hj by done. apply Hst; [lia | done].
      * intros j Hji. rewrite Hj by lia. apply Hrest. lia.
    + intros r t (-> & Hr & H0). split; [done|]. intros Hd. by apply (Hd i).
  - intros [] s' (Hrt & Hst & _). apply wp_ret. split; [done|]. split; intros i Hi Hr; by apply Hst.
Qed.

(** The ready processes of [s] have got their shares and strides in [s'], and start over at pass 0. *)
Definition fair (s s' : PS) : Prop :=
  forall i, (i < NPROC)%nat -> state (getp s i) = RUNNABLE -> strided s s' i /\ pass (strd (getp s' i)) = 0.

Lemma runs_init_pass s :
  runs init_pass (fun _ s' => retuned s s' /\
    (forall i, share (strd (getp s' i)) = share (strd (getp s i)) /\ stride (strd (getp s' i)) = stride (strd (getp s i))) /\
    forall i, (i < NPROC)%nat -> state (getp s i) = RUNNABLE -> pass (strd (getp s' i)) = 0) s.
Proof.
  unfold init_pass, all_procs. apply runs_bind.
  eapply (runs_for (fun k s' => retuned s s' /\
    (forall i, share (strd (getp s' i)) = share (strd (getp s i)) /\ stride (strd (getp s' i)) = stride (strd (getp s i))) /\
    forall i, (i < k)%nat -> state (getp s i) = RUNNABLE -> pass (strd (getp s' i)) = 0) 0 NPROC).
  - split; [done|]. split; [done|]. lia.
  - intros i s1 [_ Hi] (Hrt & Hst & Hl). destruct (rt_tuned _ _ Hrt) as [_ Hsm]. destruct (Hsm i) as [Esi _].
    unfold proc_at. rstep. case_decide as Hr.
    + rstep. split; [done|]. split; [done|]. intros j Hj Hrj. apply Hl; [|done].
      destruct (decide (j = i)) as [->|]; [congruence | lia].
    + assert (Hr' : state (getp s1 i) = RUNNABLE) by (destruct (state (getp s1 i)); tauto). clear Hr.
      assert (Hin : (i < length (procs s1))%nat) by (apply getp_in; congruence).
      apply runs_modify. split; [|split].
      * etrans; [exact Hrt|]. apply retuned_put; [done | | done]. destruct (getp s1 i); by constructor; simpl; auto.
      * intros j. rewrite getp_put. case_decide as D; [|by apply Hst]. destruct D as [<- _]. apply (Hst i).
      * intros j Hj Hrj. rewrite getp_put. case_decide as D; [done|]. apply Hl; [|done].
        destruct (decide (j = i)) as [->|]; [|lia]. by destruct D.
  - intros s' (Hrt & Hst & Hl). apply runs_modify. split; [|split].
    + etrans; [exact Hrt|]. constructor; [|done..]. split; [by apply quiet_misc|]. done.
    + done.
    + intros i Hi. by apply Hl.
Qed.

(** Two states that differ in the slot of a process that is not ready. *)
Definition but (me : nat) (s s' : PS) : Prop :=
  state (getp s me) <> RUNNABLE /\ state (getp s' me) <> RUNNABLE /\ forall i, i <> me -> getp s' i = getp s i.

Lemma ready_count_but me s s' sm : but me s s' -> ready_count sm s' = ready_count sm s.
Proof.
  intros (H1 & H2 & H3). unfold ready_count. f_equal. f_equal. apply List.filter_ext. intros i.
  destruct (decide (i = me)) as [->|Hi]; [|by rewrite H3]. unfold is_state.
  by rewrite (bool_decide_eq_false_2 _ H1), (bool_decide_eq_false_2 _ H2).
Qed.

Lemma but_ready me s s' i : but me s s' -> state (getp s' i) = RUNNABLE -> getp s' i = getp s i.
Proof. intros (H1 & H2 & H3) Hr. apply H3. congruence. Qed.

Lemma but_sym me s s' : but me s s' -> but me s' s.
Proof. intros (H1 & H2 & H3). split; [done|]. split; [done|]. intros i Hi. by rewrite H3. Qed.

(** Nor do the shares depend on a process that is not ready. *)
Lemma shared_out_but me s s' i :
  but me s s' -> strd_sum s' = strd_sum s -> mshare (mlfqs s') = mshare (mlfqs s) -> state (getp s' i) = RUNNABLE -> shared_out s' i = shared_out s i.
Proof. intros Hb E1 E2 Hr. unfold shared_out. by rewrite (but_ready me s s' i), E1, E2, !(ready_count_but me s s') by done. Qed.

Lemma dividable_but me s s' :
  but me s s' -> strd_sum s' = strd_sum s -> mshare (mlfqs s') = mshare (mlfqs s) -> dividable s -> dividable s'.
Proof.
  intros Hb E1 E2 Hd i Hi Hr. rewrite (shared_out_but me s s') by done. apply Hd; [done|]. by rewrite <- (but_ready me s s').
Qed.

Lemma fair_but me s s' t :
  but me s s' -> strd_sum s' = strd_sum s -> mshare (mlfqs s') = mshare (mlfqs s) -> fair s' t -> fair s t.
Proof.
  intros Hb E1 E2 Hf i Hi Hr. assert (state (getp s' i) = RUNNABLE) as Hr' by (rewrite (but_ready me s' s) in Hr by (done || by apply but_sym); done).
  unfold strided. rewrite <- (shared_out_but me s s') by done. by apply Hf.
Qed.

(** The state in which the request of [me] for [v] percent is booked. *)
Definition booked (me : nat) (v : Z) (s : PS) : PS :=
  put me (set_share v (set_mode STRD_SET_SCHED (getp s me)))
    (with_strd_sum (i32 (strd_sum s - v)) (with_strd_share_sum (i32 (strd_share_sum s + v)) s)).

Lemma runs_plock (Q : unit -> PS -> Prop) s :
  plocked s = false -> Q tt (with_plocked true s) -> runs acquire Q s.
Proof. intros Hl HQ. unfold acquire. rstep. rewrite Hl. by apply runs_modify. Qed.

Lemma runs_punlock (Q : unit -> PS -> Prop) s :
  plocked s = true -> Q tt (with_plocked false s) -> runs release Q s.
Proof. intros Hl HQ. unfold release. rstep. rewrite Hl. by apply runs_modify. Qed.

(** The end of both paths: new strides and passes, and the lock released. *)
Lemma wp_retune (r : Z) s :
  plocked s = true ->
  wp (let! _ := update_strd in init_pass ;;; release ;;; ret r)
    (fun a s' => a = r /\ dividable s /\ exists t, retuned s t /\ fair s t /\ s' = with_plocked false t) (no_share s) s.
Proof.
  intros Hl. apply wp_bind. eapply wp_mono; [apply wp_update_strd| |done]. intros _ s1 (Hr1 & Hd & Hs1).
  assert (Hrun : runs (init_pass ;;; release ;;; ret r)
    (fun a s' => a = r /\ exists t, retuned s t /\ fair s t /\ s' = with_plocked false t) s1).
  { apply runs_bind. eapply runs_mono; [by apply runs_init_pass|]. intros [] s2 (Hr2 & Hs2 & Hl2).
    assert (Hr : retuned s s2) by (by etrans).
    apply runs_bind, runs_punlock; [by rewrite (rt_locked _ _ Hr)|]. apply runs_ret.
    split; [done|]. exists s2. split; [done|]. split; [|done]. intros i Hi Hri. destruct (Hs1 i Hi Hri) as [E1 E2], (Hs2 i) as [E3 E4].
    split; [split; congruence|]. apply Hl2; [done|]. destruct (rt_tuned _ _ Hr1) as [_ Hsm]. destruct (Hsm i). congruence. }
  destruct Hrun as (a & s' & E & -> & t & Ht). unfold wp. rewrite E. split; [done|]. split; [done|]. by exists t.
Qed.

(** A process that is not ready is left alone. *)
Lemma retuned_frame s t i : retuned s t -> state (getp s i) <> RUNNABLE -> getp (with_plocked false t) i = getp s i.
Proof. intros Ht Hi. exact (rt_others _ _ Ht i Hi). Qed.

(** What a granted request leaves. *)
Definition granted (me : nat) (v : Z) (s : PS) (r : Z) (s' : PS) : Prop :=
  r = 0 /\ plocked s' = false /\ strd_share_sum s' = i32 (strd_share_sum s + v) /\ strd_sum s' = i32 (strd_sum s - v) /\
  getp s' me = set_share v (set_mode STRD_SET_SCHED (getp s me)) /\ fair (booked me v s) s' /\
  forall i, i <> me -> state (getp s i) <> RUNNABLE -> getp s' i = getp s i.

Lemma cpu_share_grant me v s :
  plocked s = false -> state (getp s me) = RUNNING -> 0 <= v -> 0 <= strd_share_sum s ->
  i32 (strd_share_sum s + v) <= 20 ->
  wp (cpu_share me v) (fun r s' => dividable (booked me v s) /\ granted me v s r s') (no_share (booked me v s)) s.
Proof.
  intros Hl Hr Hv Hs Hc. assert (Hi : (me < length (procs s))%nat) by (by apply running_in).
  unfold wp, cpu_share. rewrite (bind_ret acquire _ s tt (with_plocked true s)) by (unfold acquire; mrun; by rewrite Hl).
  rewrite bind_gets. rewrite decide_False by (simpl; lia). rewrite bind_modify, bind_upd, bind_gets. rewrite decide_False by (simpl; lia).
  set (t := put me _ _).
  assert (Et : getp t me = set_share v (set_mode STRD_SET_SCHED (getp s me))) by (by apply getp_put_eq).
  assert (Hb : but me (booked me v s) t).
  { split; [unfold booked; rewrite getp_put_eq by done; simpl; congruence|]. split; [rewrite Et; simpl; congruence|].
    intros i Hne. subst t. unfold booked. by rewrite !getp_put_ne. }
  change (wp (let! _ := update_strd in init_pass ;;; release ;;; ret 0) (fun r s' => dividable (booked me v s) /\ granted me v s r s')
    (no_share (booked me v s)) t).
  eapply wp_mono; [by apply (wp_retune 0 t)| |].
  - intros a s' (-> & Hd & u & Hu & Hf & ->). destruct (rt_tuned _ _ Hu) as [Hq _].
    split; [eapply (dividable_but me t); [by apply but_sym | done..]|]. split; [done|]. split; [done|]. simpl.
    rewrite (quiet_share_sum _ _ Hq), (quiet_sum _ _ Hq). split; [done|]. split; [done|]. split; [|split].
    + rewrite (retuned_frame t u); [done | done|]. rewrite Et. simpl. congruence.
    + intros i Hi' Hri. by apply (fair_but me (booked me v s) t u Hb eq_refl eq_refl Hf i).
    + intros i Hne Hni. assert (getp t i = getp s i) as Eti by (subst t; by rewrite getp_put_ne).
      rewrite (retuned_frame t u); [done | done|]. by rewrite Eti.
  - intros r u [-> Hd]. split; [done|]. intros Hd'. apply Hd. by eapply (dividable_but me (booked me v s)).
Qed.

(** A refused request: the state when the counters are back. *)
Definition demoted (me : nat) (v : Z) (s : PS) : PS :=
  let t := booked me v s in
  put me (set_mode STRD_SCHED (getp t me))
    (with_strd_sum (i32 (strd_sum t + v)) (with_strd_share_sum (i32 (strd_share_sum t - v)) t)).

Lemma demoted_but me v s : state (getp s me) = RUNNING -> but me s (demoted me v s).
Proof.
  intros Hr. assert (Hi : (me < length (procs s))%nat) by (by apply running_in).
  split; [congruence|]. unfold demoted, booked. split.
  - rewrite getp_put_eq by (simpl; by rewrite length_insert). rewrite getp_put_eq by done. simpl. congruence.
  - intros i Hne. rewrite getp_put_ne by done.
    exact (getp_put_ne me i _ (with_strd_sum (i32 (strd_sum s - v)) (with_strd_share_sum (i32 (strd_share_sum s + v)) s)) (not_eq_sym Hne)).
Qed.

Lemma cpu_share_over me v s :
  plocked s = false -> 0 <= v -> 0 <= strd_share_sum s -> 20 < i32 (strd_share_sum s + v) ->
  cpu_share me v s = cpu_refuse me (demoted me v (with_plocked true s)).
Proof.
  intros Hl Hv Hs Hc. unfold cpu_share.
  rewrite (bind_ret acquire _ s tt (with_plocked true s)) by (unfold acquire; mrun; by rewrite Hl).
  rewrite bind_gets. rewrite decide_False by (simpl; lia). rewrite bind_modify, bind_upd, bind_gets.
  rewrite decide_True by (simpl; lia). by rewrite bind_modify, bind_upd.
Qed.

(** The share offered instead of the one asked for. *)
Definition leftover (s : PS) : Z :=
  Z.quot ((if decide (0 < ready_count MLFQ_SCHED s) then 80 else 100) - strd_share_sum s) (ready_count STRD_SCHED s).

Lemma ready_count_nonneg sm s : 0 <= ready_count sm s.
Proof. unfold ready_count. lia. Qed.

Lemma wp_refuse me s :
  state (getp s me) = RUNNING -> plocked s = true ->
  wp (cpu_refuse me) (fun r s' => r = 1 /\ 0 < ready_count STRD_SCHED s /\ dividable s /\ exists t,
    retuned (put me (set_share (leftover s) (getp s me)) s) t /\ fair s t /\ s' = with_plocked false t)
    (fun r _ => r = DivideError /\ (ready_count STRD_SCHED s = 0 \/ ~ dividable s)) s.
Proof.
  intros Hr Hl. assert (Hi : (me < length (procs s))%nat) by (by apply running_in).
  pose proof (ready_count_nonneg MLFQ_SCHED s). pose proof (ready_count_nonneg STRD_SCHED s).
  unfold cpu_refuse, get_num. do 2 apply wp_bind, wp_gets. apply wp_bind, wp_gets. apply wp_bind. set (u := put me (set_share (leftover s) (getp s me)) s).
  apply (wp_mono _ (fun _ s' => s' = u /\ 0 < ready_count STRD_SCHED s) _ (fun r _ => r = DivideError /\ (ready_count STRD_SCHED s = 0 \/ ~ dividable s))).
  { unfold u, leftover. case_decide; [|rewrite decide_True by lia].
    all: apply wp_bind, wp_divide; [auto|]; intros ?; apply wp_modify; split; [done | lia]. }
  2: done.
  intros [] t [-> Hm].
  assert (Hb : but me s u).
  { split; [congruence|]. unfold u. split; [rewrite getp_put_eq by done; simpl; congruence | intros i Hne; by rewrite getp_put_ne]. }
  eapply wp_mono; [by apply (wp_retune 1 u)| |].
  - intros a s' (-> & Hd & t & Ht & Hf & ->). split; [done|]. split; [done|]. split; [by eapply (dividable_but me u); [apply but_sym|..]|].
    exists t. split; [done|]. split; [by eapply (fair_but me s u) | done].
  - intros r t [-> Hd]. split; [done|]. right. intros Hd'. apply Hd. by eapply (dividable_but me s).
Qed.

Lemma wp_eq {A} (m m' : P A) s' (Q : A -> PS -> Prop) (F : stop -> PS -> Prop) s : m s = m' s' -> wp m' Q F s' -> wp m Q F s.
Proof. unfold wp. by intros ->. Qed.

(** What a refused request leaves. *)
Definition refused (me : nat) (s : PS) (r : Z) (s' : PS) : Prop :=
  r = 1 /\ plocked s' = false /\ strd_share_sum s' = strd_share_sum s /\ strd_sum s' = strd_sum s /\
  mode (getp s' me) = STRD_SCHED /\ share (strd (getp s' me)) = leftover s /\ fair s s' /\
  forall i, i <> me -> state (getp s i) <> RUNNABLE -> getp s' i = getp s i.

Lemma cpu_share_refuse me v s :
  plocked s = false -> state (getp s me) = RUNNING -> 0 <= v -> 0 <= strd_share_sum s < 2 ^ 31 -> - 2 ^ 31 <= strd_sum s < 2 ^ 31 ->
  20 < i32 (strd_share_sum s + v) ->
  wp (cpu_share me v) (fun r s' => 0 < ready_count STRD_SCHED s /\ dividable s /\ refused me s r s')
    (fun r _ => r = DivideError /\ (ready_count STRD_SCHED s = 0 \/ ~ dividable s)) s.
Proof.
  intros Hl Hr Hv Hs Hs' Hc. assert (Hi : (me < length (procs s))%nat) by (by apply running_in).
  set (d := demoted me v (with_plocked true s)).
  assert (Hb : but me s d) by (by apply (demoted_but me v (with_plocked true s))).
  assert (Ed : getp d me = set_mode STRD_SCHED (set_share v (set_mode STRD_SET_SCHED (getp s me)))).
  { subst d. unfold demoted, booked. rewrite getp_put_eq by (simpl; by rewrite length_insert). by rewrite getp_put_eq. }
  assert (Ec : strd_share_sum d = strd_share_sum s).
  { simpl. rewrite i32_sub_l. replace (strd_share_sum s + v - v) with (strd_share_sum s) by lia. apply i32_small. lia. }
  assert (Ec' : strd_sum d = strd_sum s).
  { simpl. rewrite i32_add_l. replace (strd_sum s - v + v) with (strd_sum s) by lia. by apply i32_small. }
  rewrite <- (ready_count_but me s d) by done. apply (wp_eq _ (cpu_refuse me) d); [apply cpu_share_over; done || lia|].
  assert (Hdd : dividable d <-> dividable s).
  { split; intros Hd; [eapply (dividable_but me d); [by apply but_sym | done..] | by eapply (dividable_but me s)]. }
  eapply wp_mono; [apply (wp_refuse me d); [by rewrite Ed | done]| |intros r t [-> Hn]; split; [done | by rewrite <- Hdd]].
  intros a s' (-> & Hm & Hdv & t & Ht & Hf & ->). destruct (rt_tuned _ _ Ht) as [Hq _].
  assert (Hi' : (me < length (procs d))%nat) by (apply running_in; by rewrite Ed).
  split; [done|]. split; [by apply Hdd|]. split; [done|]. split; [done|]. simpl.
  rewrite (quiet_share_sum _ _ Hq), (quiet_sum _ _ Hq). split; [exact Ec|]. split; [exact Ec'|].
  rewrite (retuned_frame _ t) by (done || (rewrite getp_put_eq by done; rewrite Ed; simpl; congruence)).
  rewrite getp_put_eq by done. rewrite Ed. split; [done|]. split; [|split].
  - simpl. unfold leftover. by rewrite !(ready_count_but me s d), Ec by done.
  - intros i Hi2 Hri. by apply (fair_but me s d t Hb Ec' eq_refl Hf i).
  - intros i Hne Hni. assert (getp d i = getp s i) as Edi by (by apply Hb).
    rewrite (retuned_frame _ t) by (done || (rewrite getp_put_ne by done; by rewrite Edi)). by rewrite getp_put_ne.
Qed.

(** When a request is granted: within the limit, or so large that the sum overflows. *)
Lemma granted_iff x v : 0 <= x < 2 ^ 31 -> 0 <= v < 2 ^ 31 -> i32 (x + v) <= 20 <-> x + v <= 20 \/ 2 ^ 31 <= x + v.
Proof.
  intros Hx Hv. destruct (decide (x + v < 2 ^ 31)) as [Hlt|Hge]; [rewrite i32_small by lia; lia|].
  unfold i32. rewrite u32_small by lia. rewrite decide_False by lia. lia.
Qed.

Lemma wp_runs {A} (m : P A) (Q : A -> PS -> Prop) (F : stop -> PS -> Prop) s : wp m Q F s -> (forall r s', ~ F r s') -> runs m Q s.
Proof. unfold wp, runs. intros Hm HF. destruct (m s) as [a s'|r s']; [eauto | by destruct (HF r s')]. Qed.

Lemma wp_stops {A} (m : P A) (Q : A -> PS -> Prop) (F : stop -> PS -> Prop) r s :
  wp m Q F s -> (forall a s', ~ Q a s') -> (forall r' s', F r' s' -> r' = r) -> exists s', m s = Stop r s'.
Proof. unfold wp. intros Hm HQ HF. destruct (m s) as [a s'|r' s']; [by destruct (HQ a s')|]. exists s'. by rewrite (HF r' s' Hm). Qed.
End share.

(** C31: what [cpu_share(v)] does, on every path, for any [int]s.
    If the sum of the shares is negative, or [v] is, the kernel panics.  Otherwise the request is booked, and
    granted if the sum, as an [int], is now at most 20: within the limit, or when the addition
    overflows.  A granted request returns 0 with the counters moved by [v] and the caller's
    share set; a refused one returns 1 with the counters as they were and an equal part of the pool as the share.
    Both times every ready process gets its share (of the pool, of the multi-level queue, or the granted one), 10001 divided by it as the stride, and the
    pass 0; the processes that are not ready keep their strides, and nothing else of them changes.  But if the share of a ready process comes out
    as 0, or if a request is refused while no process under stride scheduling is ready, the kernel divides by zero. *)
Theorem cpu_share_spec {R} me v (s : pstate R) :
  plocked s = false -> state (getp s me) = RUNNING -> - 2 ^ 31 <= v < 2 ^ 31 ->
  - 2 ^ 31 <= strd_share_sum s < 2 ^ 31 -> - 2 ^ 31 <= strd_sum s < 2 ^ 31 ->
  (strd_share_sum s < 0 \/ v < 0 -> cpu_share me v s = Stop (Panicked "share_sum < 0 || share < 0") (with_plocked true s)) /\
  (0 <= strd_share_sum s -> 0 <= v -> strd_share_sum s + v <= 20 \/ 2 ^ 31 <= strd_share_sum s + v ->
     (dividable (booked me v s) -> runs (cpu_share me v) (granted me v s) s) /\
     (~ dividable (booked me v s) -> exists s', cpu_share me v s = Stop DivideError s')) /\
  (0 <= strd_share_sum s -> 0 <= v -> 20 < strd_share_sum s + v < 2 ^ 31 ->
     (0 < ready_count STRD_SCHED s -> dividable s -> runs (cpu_share me v) (refused me s) s) /\
     (ready_count STRD_SCHED s = 0 \/ ~ dividable s -> exists s', cpu_share me v s = Stop DivideError s')).
Proof.
  intros Hl Hr Hv Hs Hs'. split; [|split].
  - intros Hn. unfold cpu_share. rewrite (bind_ret acquire _ s tt (with_plocked true s)) by (unfold acquire; mrun; by rewrite Hl).
    rewrite bind_gets. by rewrite decide_True by (simpl; lia).
  - intros H0 H1 Hc. apply granted_iff in Hc; [|lia..]. pose proof (cpu_share_grant me v s Hl Hr H1 H0 Hc) as Hw. split; intros Hd.
    + eapply runs_mono; [eapply wp_runs; [exact Hw | by intros r t [_ ?]]|]. by intros a t [_ ?].
    + eapply wp_stops; [exact Hw | by intros a t [? _] | by intros r t [-> _]].
  - intros H0 H1 Hc. assert (20 < i32 (strd_share_sum s + v)) as Hc' by (rewrite i32_small by lia; lia).
    pose proof (cpu_share_refuse me v s Hl Hr H1 ltac:(lia) Hs' Hc') as Hw. split.
    + intros Hm Hd. eapply runs_mono; [eapply wp_runs; [exact Hw | intros r t [_ [?|?]]; [lia | done]]|]. by intros a t (_ & _ & ?).
    + intros Hn. eapply wp_stops; [exact Hw | intros a t (? & ? & _); destruct Hn; [lia | done] | by intros r t [-> _]].
Qed.

(** A table in which process 0 runs and process 1 is ready. *)
Definition two : pstate unit :=
  MkP false (set_pid 1 (set_state RUNNING proc0) :: set_pid 2 (set_state RUNNABLE proc0) :: replicate 62 proc0)
      (Some 0%nat) 3 1 0 0 100 (MkMlfqs 0 0 0 0 0 0 0) [] false tt.

Lemma two_tail i : getp two (S (S i)) = proc0.
Proof.
  unfold getp, two, procs. cbn [nth]. rewrite nth_lookup. destruct (_ !! i) eqn:E; [|done].
  by apply lookup_replicate in E as [-> _].
Qed.

Lemma two_ready (s : pstate unit) i : (forall j, j <> 0%nat -> getp s j = getp two j) -> state (getp s 0) <> RUNNABLE -> state (getp s i) = RUNNABLE -> i = 1%nat.
Proof.
  intros Hs H0 Hr. destruct i as [|[|i]]; [done | done|]. rewrite Hs, two_tail in Hr by done. done.
Qed.

(** A request of 5 percent; one of 50, refused; one of 21 while nobody else is ready; one that overflows the sum, and the next one. *)
Lemma cpu_share_spec_witness :
  runs (cpu_share 0 5) (fun r s' => r = 0 /\ strd_share_sum s' = 5) two /\
  runs (cpu_share 0 50) (fun r s' => r = 1 /\ share (strd (getp s' 0)) = 100) two /\
  (exists s', cpu_share 0 21 (put 1 proc0 two) = Stop DivideError s') /\
  runs (cpu_share 0 (2 ^ 31 - 1)) (fun r s' => r = 0 /\ strd_share_sum s' = - 2 ^ 31) (with_strd_share_sum 1 two) /\
  cpu_share 0 5 (with_strd_share_sum (- 2 ^ 31) two) =
    Stop (Panicked "share_sum < 0 || share < 0") (with_plocked true (with_strd_share_sum (- 2 ^ 31) two)).
Proof.
  assert (E2 : leftover two = 100) by (vm_compute; reflexivity).
  assert (Hb : forall v x, shared_out (booked 0 v (with_strd_share_sum x two)) 1 <> 0 -> dividable (booked 0 v (with_strd_share_sum x two))).
  { intros v x Hx i _ Hr. rewrite (two_ready (booked 0 v (with_strd_share_sum x two)) i); [exact Hx | | | exact Hr].
    - intros j Hj. unfold booked. by rewrite getp_put_ne.
    - unfold booked. rewrite getp_put_eq by (simpl; lia). done. }
  split; [|split; [|split; [|split]]].
  - destruct (cpu_share_spec 0 5 two) as (_ & H & _); [done | done | lia | simpl; lia | simpl; lia|].
    eapply runs_mono; [apply H; [done | lia | left; simpl; lia | apply (Hb 5 0); vm_compute; discriminate]|].
    intros a s' (-> & _ & -> & _). done.
  - destruct (cpu_share_spec 0 50 two) as (_ & _ & H); [done | done | lia | simpl; lia | simpl; lia|].
    eapply runs_mono; [apply H; [done | lia | simpl; lia | vm_compute; done |]|].
    + intros i _ Hr. rewrite (two_ready two i); [vm_compute; discriminate | done | done | exact Hr].
    + intros a s' (-> & _ & _ & _ & _ & -> & _). by rewrite E2.
  - destruct (cpu_share_spec 0 21 (put 1 proc0 two)) as (_ & _ & H); [done | done | lia | simpl; lia | simpl; lia|].
    apply H; [done | lia | simpl; lia | left; vm_compute; reflexivity].
  - destruct (cpu_share_spec 0 (2 ^ 31 - 1) (with_strd_share_sum 1 two)) as (_ & H & _); [done | done | lia | simpl; lia | simpl; lia|].
    eapply runs_mono; [apply H; [simpl; lia | lia | right; simpl; lia | apply Hb; vm_compute; discriminate]|].
    intros a s' (-> & _ & -> & _). done.
  - destruct (cpu_share_spec 0 5 (with_strd_share_sum (- 2 ^ 31) two)) as (H & _ & _); [done | done | lia | simpl; lia | simpl; lia|].
    apply H. left. simpl. lia.
Defined.
End ProcShare.
