(* ===== verification/Syscall.v ===== *)
(** System call arguments: the first half of src/xv6-public/syscall.c.

    The kernel reads the user's memory through the addresses of the running
    process; [UserMem] gives the byte at each.  An [int*] result is the result
    of the function, with [None] for a return value of -1. *)

From S2P Require Import Prelude Bytes CString Kalloc Proc.

Module Syscall.
Import Proc.

(** The bytes of the running process's address space. *)
Class UserMem (R : Type) := { ubyte : R -> Z -> Z }.

Section args.
Context {R : Type} `{UserMem R}.
Notation P := (M (pstate R)).

(** [*(int* )addr], little endian *)
Definition uint_at (r : R) (addr : Z) : Z :=
  get32 (map (fun k => ubyte r (addr + Z.of_nat k)) (seq 0 4)) 0.

Definition fetchint (me : nat) (addr : Z) : P (option Z) :=
  let! p := proc_at me in
  if decide (sz p <= addr \/ sz p < u32 (addr + 4)) then ret None else
  gets (fun s => Some (i32 (uint_at (env s) addr))).

(** The distance from [addr] to the first nul byte, looking at [k] bytes. *)
Fixpoint nul_within (r : R) (addr : Z) (k : nat) : option Z :=
  match k with
  | O => None
  | S k => if decide (ubyte r addr = 0) then Some 0
           else match nul_within r (addr + 1) k with Some n => Some (n + 1) | None => None end
  end.

(** The string's address and length. *)
Definition fetchstr (me : nat) (addr : Z) : P (option (Z * Z)) :=
  let! p := proc_at me in
  if decide (sz p <= addr) then ret None else
  gets (fun s => match nul_within (env s) addr (Z.to_nat (sz p - addr)) with
                 | Some n => Some (addr, n)
                 | None => None
                 end).

Definition argint (me : nat) (n : Z) : P (option Z) :=
  let! p := proc_at me in
  fetchint me (u32 (tesp (tf p) + 4 + 4 * n)).

Definition argptr (me : nat) (n size : Z) : P (option Z) :=
  let! r := argint me n in
  match r with
  | None => ret None
  | Some i =>
      let! p := proc_at me in
      if decide (size < 0 \/ sz p <= u32 i \/ sz p < u32 (u32 i + size)) then ret None
      else ret (Some (u32 i))
  end.

Definition argstr (me : nat) (n : Z) : P (option (Z * Z)) :=
  let! r := argint me n in
  match r with
  | None => ret None
  | Some addr => fetchstr me (u32 addr)
  end.

(** The bytes at a user address. *)
Definition user_bytes (addr n : Z) : P (list Z) :=
  gets (fun s => map (fun k => ubyte (env s) (addr + Z.of_nat k)) (seq 0 (Z.to_nat n))).

Lemma fetchint_bounds me addr s :
  0 <= sz (getp s me) <= KERNBASE -> 0 <= addr < 2 ^ 32 ->
  exists r, fetchint me addr s = Ret r s /\ (is_Some r <-> addr + 4 <= sz (getp s me)).
Proof.
  intros Hsz Ha. unfold fetchint, proc_at, KERNBASE in *. rewrite (bind_ret _ _ s (getp s me) s) by done.
  case_decide as D; eexists; (split; [done|]).
  - split; [by intros []|]. intros Hle. destruct D as [D|D]; [lia|]. rewrite u32_small in D; lia.
  - split; [|done]. intros _. rewrite u32_small in D; lia.
Qed.

(** [nul_within] finds the first nul byte. *)
Lemma nul_within_spec r addr k n :
  nul_within r addr k = Some n <->
  0 <= n < Z.of_nat k /\ ubyte r (addr + n) = 0 /\ forall j, 0 <= j < n -> ubyte r (addr + j) <> 0.
Proof.
  revert addr n. induction k as [|k IH]; intros addr n; simpl nul_within; [split; [done | lia]|].
  case_decide as D.
  - split.
    + intros [= <-]. rewrite Z.add_0_r. split; [lia|]. split; [done|]. lia.
    + intros (Hn & _ & Hj). destruct (decide (n = 0)) as [->|]; [done|].
      exfalso. apply (Hj 0); [lia|]. by rewrite Z.add_0_r.
  - specialize (IH (addr + 1)). destruct (nul_within r (addr + 1) k) as [m|] eqn:E.
    + destruct (proj1 (IH m) eq_refl) as (Hm & Hz & Hj). split.
      * intros [= <-]. split; [lia|]. split; [by replace (addr + (m + 1)) with (addr + 1 + m) by lia|].
        intros j Hjm. destruct (decide (j = 0)) as [->|]; [by rewrite Z.add_0_r|].
        replace (addr + j) with (addr + 1 + (j - 1)) by lia. apply Hj. lia.
      * intros (Hn & Hz' & Hj'). f_equal. destruct (decide (n = 0)) as [->|]; [by rewrite Z.add_0_r in Hz'|].
        destruct (decide (m + 1 < n)) as [Hl|]; [destruct (Hj' (m + 1)); [lia|]; by replace (addr + (m + 1)) with (addr + 1 + m) by lia|].
        destruct (decide (n < m + 1)) as [Hl|]; [|lia].
        destruct (Hj (n - 1)); [lia|]. by replace (addr + 1 + (n - 1)) with (addr + n) by lia.
    + split; [done|]. intros (Hn & Hz & Hj). destruct (decide (n = 0)) as [->|]; [by rewrite Z.add_0_r in Hz|].
      assert (None = Some (n - 1)) as E'; [|done]. apply IH. split; [lia|].
      split; [by replace (addr + 1 + (n - 1)) with (addr + n) by lia|].
      intros j Hjn. replace (addr + 1 + j) with (addr + (j + 1)) by lia. apply Hj. lia.
Qed.

Lemma argint_returns me n s :
  exists r, argint me n s = Ret r s.
Proof.
  unfold argint, fetchint, proc_at. rewrite !(bind_ret _ _ s (getp s me) s) by done.
  case_decide; eauto.
Qed.
End args.

(** C34: the kernel accepts exactly the user pointers that lie in the process: for a
    process of at most [KERNBASE] bytes, [fetchint] reads a word exactly when its
    four bytes are in the process, [argptr] yields a pointer exactly when the whole
    block is in the process (no sum wraps around), and [argstr] a string exactly
    when it ends with a nul byte inside the process, with its right length.  None
    of them changes anything. *)
Theorem args_in_bounds {R} `{UserMem R} me (s : pstate R) :
  0 <= sz (getp s me) <= KERNBASE ->
  (forall addr, 0 <= addr < 2 ^ 32 ->
     exists r, fetchint me addr s = Ret r s /\ (is_Some r <-> addr + 4 <= sz (getp s me))) /\
  (forall n size, size < 2 ^ 31 -> exists i r, argint me n s = Ret i s /\ argptr me n size s = Ret r s /\
     forall p, r = Some p <-> exists v, i = Some v /\ p = u32 v /\ 0 <= size /\ p < sz (getp s me) /\
                                        p + size <= sz (getp s me)) /\
  (forall n, exists i r, argint me n s = Ret i s /\ argstr me n s = Ret r s /\
     forall a len, r = Some (a, len) <-> exists v, i = Some v /\ a = u32 v /\
       0 <= len /\ a + len < sz (getp s me) /\ ubyte (env s) (a + len) = 0 /\
       forall j, 0 <= j < len -> ubyte (env s) (a + j) <> 0).
Proof.
  intros Hsz. split; [|split].
  - intros addr Ha. by apply fetchint_bounds.
  - intros n size Hsize. destruct (argint_returns me n s) as [i Ei]. exists i. unfold argptr.
    rewrite (bind_ret _ _ _ _ _ Ei). destruct i as [v|]; [|exists None; naive_solver].
    unfold proc_at. rewrite (bind_ret _ _ s (getp s me) s) by done. unfold KERNBASE in *.
    pose proof (u32_range v). case_decide as D; eexists; (split; [done|]); (split; [done|]); intros p.
    + split; [done|]. intros (v' & [= <-] & -> & H1 & H2 & H3). rewrite (u32_small (u32 v + size)) in D; lia.
    + split; [|naive_solver]. intros [= <-]. rewrite (u32_small (u32 v + size)) in D by lia. exists v. naive_solver lia.
  - intros n. destruct (argint_returns me n s) as [i Ei]. exists i. unfold argstr.
    rewrite (bind_ret _ _ _ _ _ Ei). destruct i as [v|]; [|exists None; naive_solver].
    unfold fetchstr, proc_at. rewrite (bind_ret _ _ s (getp s me) s) by done.
    pose proof (u32_range v). case_decide as D; eexists; (split; [done|]); (split; [done|]); intros a len.
    + split; [done|]. intros (v' & [= <-] & -> & ? & ? & _). lia.
    + destruct (nul_within _ _ _) as [m|] eqn:E.
      * pose proof (proj1 (nul_within_spec _ _ _ _) E) as (Hm & Hz & Hj). split.
        -- intros [= <- <-]. exists v. rewrite Z2Nat.id in Hm by lia. naive_solver lia.
        -- intros (v' & [= <-] & -> & H1 & H2 & H3 & H4).
           assert (E' : nul_within (env s) (u32 v) (Z.to_nat (sz (getp s me) - u32 v)) = Some len)
             by (apply nul_within_spec; rewrite Z2Nat.id by lia; naive_solver lia). congruence.
      * split; [done|]. intros (v' & [= <-] & -> & H1 & H2 & H3 & H4).
        assert (E' : nul_within (env s) (u32 v) (Z.to_nat (sz (getp s me) - u32 v)) = Some len)
          by (apply nul_within_spec; rewrite Z2Nat.id by lia; naive_solver lia). congruence.
Qed.

(** A process of one page whose first argument is the address 100. *)
#[local] Instance page_mem : UserMem unit := {| ubyte := fun _ a => if decide (a = 4) then 100 else 0 |}.
Definition one_page : pstate unit :=
  MkP false [set_sz 4096 (set_state RUNNING proc0)] None 1 1 0 0 100 (MkMlfqs 0 0 0 0 0 0 0) [] false tt.

Lemma args_in_bounds_witness :
  0 <= sz (getp one_page 0) <= KERNBASE /\ argptr 0 0 8 one_page = Ret (Some 100) one_page.
Proof.
  assert (Hsz : 0 <= sz (getp one_page 0) <= KERNBASE) by (unfold KERNBASE; simpl; lia).
  split; [exact Hsz|].
  destruct (args_in_bounds 0 one_page Hsz) as (_ & Hp & _).
  destruct (Hp 0 8) as (i & r & Ei & Er & Hr); [lia|]. rewrite Er. f_equal. apply Hr.
  vm_compute in Ei. injection Ei as <-. exists 100. split; [reflexivity|]. split; [reflexivity|]. simpl. lia.
Defined.
End Syscall.
