(* ===== verification/BlockCache.v ===== *)
(** The contract between the buffer cache and its clients.

    [BufOps] lists what log.c and fs.c use of a buffer cache: [bread],
    [bwrite], [brelse] of bio.c, reading and overwriting the [data] of a buffer
    they hold, reading its [blockno], and setting [B_DIRTY] on it as [log_write]
    does.  [BufSpec] states what they may rely on, over an abstract state:
    - [disk s b], the block [b] on the disk, and [trace s], the sequence of
      block writes the disk has performed;
    - [view s b], the block as a reader of the cache sees it;
    - [held s], the blocks of the buffers the caller holds locked, with
      [handle s h b] when [h] is the buffer of block [b];
    - [dirty s], the blocks pinned by [B_DIRTY];
    - [stale s b], block [b] was changed in the cache without being marked
      dirty and released: a later eviction loses the change.
    Bio.v provides the instance; Log.v and the file system are written and
    proved against the class. *)

From S2P Require Import Prelude.

Definition BSIZE : nat := 512.
Definition NBUF : nat := 30.
Definition ROOTDEV : Z := 1.

Class BufOps (S : Type) := {
  bread : Z -> Z -> M S nat;
  bwrite : nat -> M S unit;
  brelse : nat -> M S unit;
  bdata : S -> nat -> list Z;
  bblockno : S -> nat -> Z;
  bset : nat -> list Z -> S -> S;
  bpin : nat -> S -> S
}.

(** A block store after block [b] was given the contents [d]. *)
Definition upd (f : Z -> list Z) (b : Z) (d : list Z) : Z -> list Z :=
  fun x => if decide (x = b) then d else f x.

Class BufSpec (S : Type) `{BufOps S} := {
  cinv : S -> Prop;
  disk : S -> Z -> list Z;
  disksize : S -> Z;
  trace : S -> list (Z * list Z);
  view : S -> Z -> list Z;
  held : S -> gset Z;
  dirty : S -> gset Z;
  handle : S -> nat -> Z -> Prop;
  stale : S -> Z -> Prop;

  view_length : forall s b, cinv s -> 0 <= b < disksize s -> length (view s b) = BSIZE;
  disk_length : forall s b, cinv s -> 0 <= b < disksize s -> length (disk s b) = BSIZE;
  handle_held : forall s h b, cinv s -> handle s h b ->
    b ∈ held s /\ bdata s h = view s b /\ bblockno s h = b /\ 0 <= b < disksize s;
  handle_inj : forall s h h' b, cinv s -> handle s h b -> handle s h' b -> h = h';
  view_disk : forall s b, cinv s -> ~ stale s b -> b ∉ held s -> b ∉ dirty s ->
    view s b = disk s b;

  bread_spec : forall s b,
    cinv s -> 0 <= b < disksize s -> b ∉ held s ->
    (b ∈ dirty s \/ (size (held s ∪ dirty s) < NBUF)%nat) ->
    exists h s', bread ROOTDEV b s = Ret h s' /\ cinv s' /\
      handle s' h b /\ (forall h' b', handle s h' b' -> handle s' h' b') /\
      held s' = {[b]} ∪ held s /\ dirty s' = dirty s /\
      disk s' = disk s /\ trace s' = trace s /\ disksize s' = disksize s /\
      (forall b', ~ stale s b' -> view s' b' = view s b' /\ ~ stale s' b') /\
      ~ stale s' b;

  bset_spec : forall s h b d,
    cinv s -> handle s h b -> length d = BSIZE ->
    cinv (bset h d s) /\ (forall h' b', handle (bset h d s) h' b' <-> handle s h' b') /\
    held (bset h d s) = held s /\ dirty (bset h d s) = dirty s /\
    disk (bset h d s) = disk s /\ trace (bset h d s) = trace s /\
    disksize (bset h d s) = disksize s /\
    (forall b', view (bset h d s) b' = upd (view s) b d b') /\
    (forall b', stale (bset h d s) b' <-> stale s b');

  bpin_spec : forall s h b,
    cinv s -> handle s h b ->
    cinv (bpin h s) /\ (forall h' b', handle (bpin h s) h' b' <-> handle s h' b') /\
    held (bpin h s) = held s /\ dirty (bpin h s) = {[b]} ∪ dirty s /\
    disk (bpin h s) = disk s /\ trace (bpin h s) = trace s /\
    disksize (bpin h s) = disksize s /\
    (forall b', view (bpin h s) b' = view s b') /\
    (forall b', stale (bpin h s) b' <-> stale s b');

  bwrite_spec : forall s h b,
    cinv s -> handle s h b ->
    exists s', bwrite h s = Ret tt s' /\ cinv s' /\
      (forall h' b', handle s' h' b' <-> handle s h' b') /\
      held s' = held s /\ dirty s' = dirty s ∖ {[b]} /\
      (forall b', disk s' b' = upd (disk s) b (view s b) b') /\
      trace s' = trace s ++ [(b, view s b)] /\ disksize s' = disksize s /\
      (forall b', view s' b' = view s b') /\
      (forall b', stale s' b' <-> stale s b');

  brelse_spec : forall s h b,
    cinv s -> handle s h b ->
    exists s', brelse h s = Ret tt s' /\ cinv s' /\
      (forall h' b', handle s' h' b' <-> handle s h' b' /\ h' <> h) /\
      held s' = held s ∖ {[b]} /\ dirty s' = dirty s /\
      disk s' = disk s /\ trace s' = trace s /\ disksize s' = disksize s /\
      (forall b', view s' b' = view s b') /\
      (forall b', stale s' b' <-> stale s b' \/
                   (b' = b /\ b ∉ dirty s /\ view s b <> disk s b))
}.
