(* ===== verification/BlockClient.v ===== *)
(** Reasoning about the clients of a block cache.

    A client that uses buffers properly (everything it changes is written or
    pinned before it lets go) never sees the cache: the file gives an abstract
    state [acache] on which the five buffer operations are plain updates, the
    relation [repr] between a cache and its abstract state, and one rule for
    each operation in the total-correctness calculus [runs]. *)

From S2P Require Import Prelude BlockCache.

(** ** The abstract state *)

Record acache := ACache {
  aheld : gset Z;               (** blocks whose buffer the client holds *)
  adirty : gset Z;              (** blocks pinned in the cache *)
  ahandle : gmap nat Z;         (** which buffer is which block's *)
  asize : Z;
  adisk : Z -> list Z;
  atrace : list (Z * list Z);
  aview : Z -> list Z
}.

Definition a_take (h : nat) (b : Z) (a : acache) : acache :=
  ACache ({[b]} ∪ aheld a) (adirty a) (<[h := b]> (ahandle a)) (asize a) (adisk a) (atrace a) (aview a).
Definition a_set (b : Z) (d : list Z) (a : acache) : acache :=
  ACache (aheld a) (adirty a) (ahandle a) (asize a) (adisk a) (atrace a) (upd (aview a) b d).
Definition a_pin (b : Z) (a : acache) : acache :=
  ACache (aheld a) ({[b]} ∪ adirty a) (ahandle a) (asize a) (adisk a) (atrace a) (aview a).
Definition a_write (b : Z) (a : acache) : acache :=
  ACache (aheld a) (adirty a ∖ {[b]}) (ahandle a) (asize a) (upd (adisk a) b (aview a b))
         (atrace a ++ [(b, aview a b)]) (aview a).
Definition a_drop (h : nat) (b : Z) (a : acache) : acache :=
  ACache (aheld a ∖ {[b]}) (adirty a) (delete h (ahandle a)) (asize a) (adisk a) (atrace a) (aview a).

Lemma upd_eq f b d : upd f b d b = d.
Proof. unfold upd. by rewrite decide_True. Qed.
Lemma upd_ne f b d b' : b' <> b -> upd f b d b' = f b'.
Proof. intros. unfold upd. by rewrite decide_False. Qed.

Section repr.
Context {S : Type} `{BufSpec S}.

(** A cache [s] represents [a], and no change has been lost. *)
Record repr (s : S) (a : acache) : Prop := {
  r_inv : cinv s;
  r_held : held s = aheld a;
  r_dirty : dirty s = adirty a;
  r_handle : forall h b, ahandle a !! h = Some b -> handle s h b;
  r_size : disksize s = asize a;
  r_disk : forall b, disk s b = adisk a b;
  r_trace : trace s = atrace a;
  r_view : forall b, view s b = aview a b;
  r_stale : forall b, ~ stale s b
}.

Lemma repr_data s a h b : repr s a -> ahandle a !! h = Some b -> bdata s h = aview a b.
Proof.
  intros Hr Hh. destruct (handle_held s h b (r_inv _ _ Hr) (r_handle _ _ Hr _ _ Hh)) as (_ & -> & _).
  apply (r_view _ _ Hr).
Qed.

Lemma repr_blockno s a h b : repr s a -> ahandle a !! h = Some b -> bblockno s h = b.
Proof.
  intros Hr Hh. by destruct (handle_held s h b (r_inv _ _ Hr) (r_handle _ _ Hr _ _ Hh)) as (_ & _ & -> & _).
Qed.

Lemma repr_range s a h b : repr s a -> ahandle a !! h = Some b -> b ∈ aheld a /\ 0 <= b < asize a.
Proof.
  intros Hr Hh. rewrite <- (r_held _ _ Hr), <- (r_size _ _ Hr).
  by destruct (handle_held s h b (r_inv _ _ Hr) (r_handle _ _ Hr _ _ Hh)) as (? & _ & _ & ?).
Qed.

(** Outside the pinned and held blocks the reader sees the disk. *)
Lemma repr_clean s a b : repr s a -> b ∉ aheld a -> b ∉ adirty a -> aview a b = adisk a b.
Proof.
  intros Hr Hh Hd. rewrite <- (r_view _ _ Hr), <- (r_disk _ _ Hr). apply view_disk.
  - apply (r_inv _ _ Hr).
  - apply (r_stale _ _ Hr).
  - by rewrite (r_held _ _ Hr).
  - by rewrite (r_dirty _ _ Hr).
Qed.

Lemma repr_view_length s a b : repr s a -> 0 <= b < asize a -> length (aview a b) = BSIZE.
Proof.
  intros Hr Hb. rewrite <- (r_view _ _ Hr). apply view_length; [apply (r_inv _ _ Hr)|].
  by rewrite (r_size _ _ Hr).
Qed.

Lemma repr_disk_length s a b : repr s a -> 0 <= b < asize a -> length (adisk a b) = BSIZE.
Proof.
  intros Hr Hb. rewrite <- (r_disk _ _ Hr). apply disk_length; [apply (r_inv _ _ Hr)|].
  by rewrite (r_size _ _ Hr).
Qed.

(** There is a buffer for block [b]. *)
Definition room (b : Z) (a : acache) : Prop :=
  b ∈ adirty a \/ (size (aheld a ∪ adirty a) < NBUF)%nat.

Lemma runs_bread s a b (Q : nat -> S -> Prop) :
  repr s a -> 0 <= b < asize a -> b ∉ aheld a -> room b a ->
  (forall h s', ahandle a !! h = None -> repr s' (a_take h b a) -> Q h s') ->
  runs (bread ROOTDEV b) Q s.
Proof.
  intros Hr Hb Hh Hroom HQ. destruct Hr as [I1 I2 I3 I4 I5 I6 I7 I8 I9] eqn:E; clear E.
  destruct (bread_spec s b) as (h & s' & E & J1 & J2 & J3 & J4 & J5 & J6 & J7 & J8 & J9 & J10).
  { done. } { by rewrite I5. } { by rewrite I2. } { by rewrite I2, I3. }
  exists h, s'. split; [done|].
  assert (ahandle a !! h = None) as Hnew.
  { destruct (ahandle a !! h) as [b'|] eqn:Eh; [|done]. exfalso.
    pose proof (repr_range _ _ _ _ Hr Eh) as [Hin _]. apply Hh.
    apply I4, J3 in Eh. destruct (handle_held s' h b' J1 Eh) as (_ & _ & E1 & _).
    destruct (handle_held s' h b J1 J2) as (_ & _ & E2 & _). by rewrite <- E2, E1. }
  apply HQ; [done|]. split; simpl; try congruence.
  - intros h' b'. destruct (decide (h' = h)) as [->|Hne].
    + rewrite lookup_insert_eq. by intros [= ->].
    + rewrite lookup_insert_ne by done. intros Hx. by apply J3, I4.
  - intros b'. destruct (J9 b' (I9 b')) as [-> _]. apply I8.
  - intros b'. by apply J9.
Qed.

Lemma runs_bset s a h b d :
  repr s a -> ahandle a !! h = Some b -> length d = BSIZE -> repr (bset h d s) (a_set b d a).
Proof.
  intros [I1 I2 I3 I4 I5 I6 I7 I8 I9] Hh Hd.
  destruct (bset_spec s h b d I1 (I4 _ _ Hh) Hd) as (J1 & J2 & J3 & J4 & J5 & J6 & J7 & J8 & J9).
  split; simpl; try congruence.
  - intros h' b' Hx. by apply J2, I4.
  - intros b'. rewrite J8. unfold upd. by rewrite I8.
  - intros b'. rewrite J9. apply I9.
Qed.

Lemma runs_bpin s a h b :
  repr s a -> ahandle a !! h = Some b -> repr (bpin h s) (a_pin b a).
Proof.
  intros [I1 I2 I3 I4 I5 I6 I7 I8 I9] Hh.
  destruct (bpin_spec s h b I1 (I4 _ _ Hh)) as (J1 & J2 & J3 & J4 & J5 & J6 & J7 & J8 & J9).
  split; simpl; try congruence.
  - intros h' b' Hx. by apply J2, I4.
  - intros b'. rewrite J9. apply I9.
Qed.

Lemma runs_bwrite s a h b (Q : unit -> S -> Prop) :
  repr s a -> ahandle a !! h = Some b ->
  (forall s', repr s' (a_write b a) -> Q tt s') -> runs (bwrite h) Q s.
Proof.
  intros [I1 I2 I3 I4 I5 I6 I7 I8 I9] Hh HQ.
  destruct (bwrite_spec s h b I1 (I4 _ _ Hh)) as (s' & E & J1 & J2 & J3 & J4 & J5 & J6 & J7 & J8 & J9).
  exists tt, s'. split; [done|]. apply HQ. split; simpl; try congruence.
  - intros h' b' Hx. by apply J2, I4.
  - intros b'. rewrite J5. unfold upd. by rewrite I8, I6.
  - intros b'. rewrite J9. apply I9.
Qed.

Lemma runs_brelse s a h b (Q : unit -> S -> Prop) :
  repr s a -> ahandle a !! h = Some b -> b ∈ adirty a \/ aview a b = adisk a b ->
  (forall s', repr s' (a_drop h b a) -> Q tt s') -> runs (brelse h) Q s.
Proof.
  intros [I1 I2 I3 I4 I5 I6 I7 I8 I9] Hh Hok HQ.
  destruct (brelse_spec s h b I1 (I4 _ _ Hh)) as (s' & E & J1 & J2 & J3 & J4 & J5 & J6 & J7 & J8 & J9).
  exists tt, s'. split; [done|]. apply HQ. split; simpl; try congruence.
  - intros h' b'. rewrite lookup_delete_Some. intros [??]. apply J2. split; [by apply I4|done].
  - intros b'. rewrite J9. intros [?|(-> & Hn & Hne)]; [by eapply I9|].
    rewrite I3 in Hn. rewrite I8, I6 in Hne. naive_solver.
Qed.
End repr.
