(* ===== verification/Bio.v ===== *)
(** The buffer cache: src/xv6-public/bio.c, over the memory disk of
    src/xv6-public/memide.c, with the sleep lock of src/xv6-public/sleeplock.c
    that every buffer carries.

    The [NBUF] buffers and the list head form a doubly linked ring through
    [prev] and [next], kept in most-recently-used order; the ring is modelled
    with its pointers (indices into the array of buffers, [NBUF] for
    [&bcache.head]), and its loops carry fuel.  The model is of one process at a
    time: a lock that is already taken makes the caller sleep.  The last part of
    the file proves that this cache meets the contract [BufSpec]. *)

From S2P Require Import Prelude Bytes BlockCache.

Module Bio.

Definition B_VALID : Z := 2.
Definition B_DIRTY : Z := 4.

(** [struct buf]; [qnext] belongs to the disk queue of ide.c and is not used by
    the memory disk. *)
Record buf := MkBuf {
  flags : Z;
  dev : Z;
  blockno : Z;
  locked : bool;      (** [lock.locked] *)
  lpid : Z;           (** [lock.pid] *)
  refcnt : Z;
  prev : nat;
  next : nat;
  data : list Z
}.

(** [bcache], the memory disk [memdisk] cut into blocks, the block writes it has
    performed, and the pid of the running process. *)
Record bcache := Mk {
  bufs : list buf;
  img : list (list Z);
  writes : list (Z * list Z);
  pid : Z
}.

Definition head : nat := NBUF.
Definition buf0 : buf := MkBuf 0 0 0 false 0 0 0 0 (replicate BSIZE 0).

Definition getb (s : bcache) (i : nat) : buf := nth i (bufs s) buf0.
Definition setb (i : nat) (b : buf) (s : bcache) : bcache :=
  Mk (<[i := b]> (bufs s)) (img s) (writes s) (pid s).
Definition updb (i : nat) (f : buf -> buf) : M bcache unit :=
  modify (fun s => setb i (f (getb s i)) s).

Definition set_flags (v : Z) (b : buf) : buf :=
  MkBuf v (dev b) (blockno b) (locked b) (lpid b) (refcnt b) (prev b) (next b) (data b).
Definition set_lock (l : bool) (p : Z) (b : buf) : buf :=
  MkBuf (flags b) (dev b) (blockno b) l p (refcnt b) (prev b) (next b) (data b).
Definition set_refcnt (v : Z) (b : buf) : buf :=
  MkBuf (flags b) (dev b) (blockno b) (locked b) (lpid b) v (prev b) (next b) (data b).
Definition set_prev (v : nat) (b : buf) : buf :=
  MkBuf (flags b) (dev b) (blockno b) (locked b) (lpid b) (refcnt b) v (next b) (data b).
Definition set_next (v : nat) (b : buf) : buf :=
  MkBuf (flags b) (dev b) (blockno b) (locked b) (lpid b) (refcnt b) (prev b) v (data b).
Definition set_data (d : list Z) (b : buf) : buf :=
  MkBuf (flags b) (dev b) (blockno b) (locked b) (lpid b) (refcnt b) (prev b) (next b) d.

(** ** The buffer's sleep lock *)

Definition initsleeplock (i : nat) : M bcache unit := updb i (set_lock false 0).

Definition acquiresleep (i : nat) : M bcache unit :=
  let! b := gets (fun s => getb s i) in
  if locked b then stop_with (Slept (A_buf i))
  else let! p := gets pid in updb i (set_lock true p).

Definition releasesleep (i : nat) : M bcache unit := updb i (set_lock false 0).

Definition holdingsleep (i : nat) : M bcache bool :=
  gets (fun s => locked (getb s i) && bool_decide (lpid (getb s i) = pid s)).

(** ** The memory disk *)

Definition mdisksize (s : bcache) : Z := Z.of_nat (length (img s)).

Definition iderw (i : nat) : M bcache unit :=
  let! h := holdingsleep i in
  if negb h then panic "iderw: buf not locked" else
  let! b := gets (fun s => getb s i) in
  if bool_decide (Z.land (flags b) (Z.lor B_VALID B_DIRTY) = B_VALID)
  then panic "iderw: nothing to do" else
  if bool_decide (dev b <> 1) then panic "iderw: request not for disk 1" else
  let! n := gets mdisksize in
  if bool_decide (n <= blockno b) then panic "iderw: block out of range" else
  (if bool_decide (Z.land (flags b) B_DIRTY <> 0)
   then updb i (fun b => set_flags (Z.land (flags b) (Z.lnot B_DIRTY)) b) ;;;
        modify (fun s => Mk (bufs s) (<[Z.to_nat (blockno b) := data b]> (img s))
                            (writes s ++ [(blockno b, data b)]) (pid s))
   else modify (fun s => setb i (set_data (nth (Z.to_nat (blockno b)) (img s) [])
                                          (getb s i)) s)) ;;;
  updb i (fun b => set_flags (Z.lor (flags b) B_VALID) b).

(** ** bio.c *)

(** The ring as [binit] builds it from zeroed memory: every buffer is inserted
    behind the head. *)
Definition binit_buf (i : nat) : M bcache unit :=
  let! h := gets (fun s => next (getb s head)) in
  updb i (set_next h) ;;;
  updb i (set_prev head) ;;;
  initsleeplock i ;;;
  let! h := gets (fun s => next (getb s head)) in
  updb h (set_prev i) ;;;
  updb head (set_next i).

Definition binit : M bcache unit :=
  updb head (set_prev head) ;;;
  updb head (set_next head) ;;;
  forM (seq 0 NBUF) binit_buf.

(** First loop of [bget]: [for(b = head.next; b != &head; b = b->next)]. *)
Fixpoint bget_cached (fuel : nat) (d n : Z) (b : nat) : M bcache (option nat) :=
  match fuel with
  | O => stop_with Spins
  | S fuel' =>
      if bool_decide (b = head) then ret None else
      let! x := gets (fun s => getb s b) in
      if bool_decide (dev x = d /\ blockno x = n) then
        updb b (fun x => set_refcnt (refcnt x + 1) x) ;;;
        acquiresleep b ;;; ret (Some b)
      else bget_cached fuel' d n (next x)
  end.

(** Second loop of [bget]: [for(b = head.prev; b != &head; b = b->prev)]. *)
Fixpoint bget_recycle (fuel : nat) (d n : Z) (b : nat) : M bcache (option nat) :=
  match fuel with
  | O => stop_with Spins
  | S fuel' =>
      if bool_decide (b = head) then ret None else
      let! x := gets (fun s => getb s b) in
      if bool_decide (refcnt x = 0 /\ Z.land (flags x) B_DIRTY = 0) then
        updb b (fun x => MkBuf 0 d n (locked x) (lpid x) 1 (prev x) (next x) (data x)) ;;;
        acquiresleep b ;;; ret (Some b)
      else bget_recycle fuel' d n (prev x)
  end.

(** The ring has [NBUF] buffers and the head. *)
Definition ring_fuel : nat := Datatypes.S NBUF.

Definition bget (d n : Z) : M bcache nat :=
  let! first := gets (fun s => next (getb s head)) in
  let! r := bget_cached ring_fuel d n first in
  match r with
  | Some b => ret b
  | None =>
      let! last := gets (fun s => prev (getb s head)) in
      let! r := bget_recycle ring_fuel d n last in
      match r with
      | Some b => ret b
      | None => panic "bget: no buffers"
      end
  end.

Definition bread (d n : Z) : M bcache nat :=
  let! b := bget d n in
  let! x := gets (fun s => getb s b) in
  (if bool_decide (Z.land (flags x) B_VALID = 0) then iderw b else ret tt) ;;;
  ret b.

Definition bwrite (b : nat) : M bcache unit :=
  let! h := holdingsleep b in
  if negb h then panic "bwrite" else
  updb b (fun x => set_flags (Z.lor (flags x) B_DIRTY) x) ;;;
  iderw b.

Definition brelse (b : nat) : M bcache unit :=
  let! h := holdingsleep b in
  if negb h then panic "brelse" else
  releasesleep b ;;;
  updb b (fun x => set_refcnt (refcnt x - 1) x) ;;;
  let! x := gets (fun s => getb s b) in
  if bool_decide (refcnt x = 0) then
    (* b->next->prev = b->prev; b->prev->next = b->next; *)
    updb (next x) (set_prev (prev x)) ;;;
    let! x := gets (fun s => getb s b) in
    updb (prev x) (set_next (next x)) ;;;
    (* b->next = head.next; b->prev = &head; *)
    let! h := gets (fun s => next (getb s head)) in
    updb b (set_next h) ;;;
    updb b (set_prev head) ;;;
    (* head.next->prev = b; head.next = b; *)
    let! h := gets (fun s => next (getb s head)) in
    updb h (set_prev b) ;;;
    updb head (set_next b)
  else ret tt.

#[export] Instance bufops : BufOps bcache := {|
  BlockCache.bread := bread;
  BlockCache.bwrite := bwrite;
  BlockCache.brelse := brelse;
  bdata := fun s h => data (getb s h);
  bblockno := fun s h => blockno (getb s h);
  bset := fun h d s => setb h (set_data d (getb s h)) s;
  bpin := fun h s => setb h (set_flags (Z.lor (flags (getb s h)) B_DIRTY) (getb s h)) s
|}.

(** A machine that has just booted on a disk image. *)
Definition zeroed (image : list (list Z)) (p : Z) : bcache :=
  Mk (replicate (Datatypes.S NBUF) buf0) image [] p.

(** ** Array access *)

Lemma getb_setb_eq i b s : (i < length (bufs s))%nat -> getb (setb i b s) i = b.
Proof.
  intros H. unfold getb, setb; simpl. rewrite nth_lookup, list_lookup_insert_eq; done.
Qed.

Lemma getb_setb_ne i j b s : i <> j -> getb (setb i b s) j = getb s j.
Proof.
  intros H. unfold getb, setb; simpl. rewrite !nth_lookup, list_lookup_insert_ne; done.
Qed.

Lemma getb_setb i j b s : (i < length (bufs s))%nat ->
  getb (setb i b s) j = if decide (i = j) then b else getb s j.
Proof. intros H. case_decide; subst; [by apply getb_setb_eq | by apply getb_setb_ne]. Qed.

Lemma length_setb i b s : length (bufs (setb i b s)) = length (bufs s).
Proof. apply length_insert. Qed.

(** ** The ring *)

Section pointers.
Context (h : nat).
Implicit Types (nx pv : nat -> nat) (l : list nat).

(** [l] is the ring in [next] order, and in reverse in [prev] order. *)
Definition ring nx pv l : Prop :=
  NoDup (h :: l) /\ nx <$> (h :: l) = l ++ [h] /\ pv <$> (l ++ [h]) = h :: l.

Definition fupd (f : nat -> nat) (i v : nat) : nat -> nat :=
  fun j => if decide (j = i) then v else f j.

Lemma fmap_fupd_ne f i v l : i ∉ l -> fupd f i v <$> l = f <$> l.
Proof.
  intros H. apply list_fmap_ext. intros k x Hx. unfold fupd. case_decide; [|done].
  subst. exfalso. apply H. eapply list_elem_of_lookup_2; eauto.
Qed.

Lemma fmap_fupd_eq f i v l1 l2 : i ∉ l1 -> i ∉ l2 ->
  fupd f i v <$> (l1 ++ i :: l2) = (f <$> l1) ++ v :: (f <$> l2).
Proof.
  intros H1 H2. rewrite fmap_app. simpl. rewrite !fmap_fupd_ne by done.
  unfold fupd. by rewrite decide_True.
Qed.

(** What the pointers of an element of the ring are. *)
Lemma ring_at nx pv l1 b l2 : ring nx pv (l1 ++ b :: l2) ->
  exists l1' p q l2', h :: l1 = l1' ++ [p] /\ l2 ++ [h] = q :: l2' /\
    pv b = p /\ nx b = q /\ nx p = b /\ pv q = b /\
    nx <$> l1' = l1 /\ nx <$> l2 = l2' /\ pv <$> l1 = l1' /\ pv <$> l2' = l2.
Proof.
  intros (Hnd & Hnx & Hpv).
  destruct (exists_last (l := h :: l1)) as (l1' & p & E1); [done|].
  destruct (l2 ++ [h]) as [|q l2'] eqn:E2; [by destruct l2|].
  exists l1', p, q, l2'.
  assert (length l1' = length l1) as Hlen.
  { apply (f_equal length) in E1. rewrite length_app in E1. simpl in E1. lia. }
  rewrite app_comm_cons, E1, !fmap_app, <- !app_assoc in Hnx. simpl in Hnx.
  rewrite E2 in Hnx.
  apply app_inj_1 in Hnx as [Ha Hb]; [|by rewrite length_fmap].
  injection Hb as Hb1 Hb2 Hb3.
  rewrite <- app_assoc in Hpv. simpl in Hpv. rewrite E2, fmap_app in Hpv.
  rewrite app_comm_cons, E1, <- app_assoc in Hpv. simpl in Hpv.
  apply app_inj_1 in Hpv as [Hc Hd]; [|rewrite length_fmap; lia].
  injection Hd as Hd1 Hd2 Hd3.
  split_and!; done.
Qed.

(** [b->next->prev = b->prev; b->prev->next = b->next] *)
Lemma ring_unlink nx pv l1 b l2 : ring nx pv (l1 ++ b :: l2) ->
  ring (fupd nx (pv b) (nx b)) (fupd pv (nx b) (pv b)) (l1 ++ l2).
Proof.
  intros Hr. pose proof Hr as (Hnd & _).
  destruct (ring_at _ _ _ _ _ Hr) as
    (l1' & p & q & l2' & E1 & E2 & -> & -> & _ & _ & N1 & N2 & P1 & P2).
  assert (NoDup (l1' ++ p :: l2)) as Hnd'.
  { assert (h :: l1 ++ l2 = l1' ++ p :: l2) as <-.
    { by rewrite app_comm_cons, E1, <- app_assoc. }
    rewrite app_comm_cons in Hnd |- *. apply NoDup_app in Hnd as (? & ? & ?).
    apply NoDup_app; split_and!; [done | set_solver | by eapply NoDup_cons]. }
  assert (NoDup (l1 ++ q :: l2')) as Hnd2.
  { rewrite <- E2. rewrite app_assoc. rewrite <- Permutation_cons_append.
    rewrite app_comm_cons, E1, <- app_assoc. done. }
  split_and!.
  - by rewrite app_comm_cons, E1, <- app_assoc.
  - rewrite app_comm_cons, E1, <- !app_assoc, E2. simpl.
    rewrite fmap_fupd_eq.
    + by rewrite N1, N2.
    + apply NoDup_app in Hnd' as (_ & H & _). intros Hin. apply (H _ Hin). set_solver.
    + apply NoDup_app in Hnd' as (_ & _ & H). by apply NoDup_cons in H as [? _].
  - rewrite <- app_assoc, E2, fmap_fupd_eq.
    + rewrite P1, P2, app_comm_cons, E1, <- app_assoc. done.
    + apply NoDup_app in Hnd2 as (_ & H & _). intros Hin. apply (H _ Hin). set_solver.
    + apply NoDup_app in Hnd2 as (_ & _ & H). by apply NoDup_cons in H as [? _].
Qed.

(** [b->next = head.next; b->prev = &head; head.next->prev = b; head.next = b] *)
Lemma ring_push nx pv b l : ring nx pv l -> b ∉ h :: l ->
  ring (fupd (fupd nx b (nx h)) h b) (fupd (fupd pv b h) (nx h) b) (b :: l).
Proof.
  intros (Hnd & Hnx & Hpv) Hb.
  apply not_elem_of_cons in Hb as [Hbh Hbl].
  apply NoDup_cons in Hnd as [Hh Hnd].
  destruct (l ++ [h]) as [|q l'] eqn:E; [by destruct l|].
  simpl in Hnx. injection Hnx as Hq Hl'. rewrite Hq.
  assert (NoDup (q :: l')) as Hndq.
  { rewrite <- E, <- Permutation_cons_append. by constructor. }
  apply NoDup_cons in Hndq as [Hql' Hndl'].
  assert (b ∉ q :: l') as Hbq by (rewrite <- E; set_solver).
  apply not_elem_of_cons in Hbq as [Hbq Hbl'].
  simpl in Hpv. injection Hpv as Hpq Hpl'.
  split_and!.
  - repeat constructor; set_solver.
  - simpl. rewrite E. unfold fupd at 1. rewrite decide_True by done. f_equal.
    unfold fupd at 1. rewrite decide_False by done.
    unfold fupd at 1. rewrite decide_True by done. f_equal.
    rewrite !fmap_fupd_ne by set_solver. done.
  - simpl. rewrite E. simpl.
    unfold fupd at 1. rewrite decide_False by done.
    unfold fupd at 1. rewrite decide_True by done. f_equal.
    unfold fupd at 1. rewrite decide_True by done. f_equal.
    rewrite !fmap_fupd_ne by done. done.
Qed.

(** Following one pointer from [x] visits [l] and ends at the head. *)
Fixpoint walk (f : nat -> nat) (x : nat) (l : list nat) : Prop :=
  match l with
  | [] => x = h
  | y :: l' => x = y /\ y <> h /\ walk f (f y) l'
  end.

Lemma walk_of_fmap f y l : h ∉ l -> f <$> (y :: l) = l ++ [h] -> walk f (f y) l.
Proof.
  revert y. induction l as [|z l IH]; intros y Hh E; simpl in *.
  - by injection E.
  - injection E as E1 E2. split_and!; [done | set_solver |].
    apply IH; [set_solver | done].
Qed.

Lemma ring_walk_next nx pv l : ring nx pv l -> walk nx (nx h) l.
Proof. intros (Hnd & Hnx & _). apply NoDup_cons in Hnd as [??]. by apply walk_of_fmap. Qed.

Lemma ring_walk_prev nx pv l : ring nx pv l -> walk pv (pv h) (rev l).
Proof.
  intros (Hnd & _ & Hpv). apply NoDup_cons in Hnd as [Hh _]. apply walk_of_fmap.
  - by rewrite list_elem_of_In, <- in_rev, <- list_elem_of_In.
  - change (map pv (h :: rev l) = rev l ++ [h]). rewrite <- rev_unit, map_rev.
    change (map pv (l ++ [h])) with (pv <$> (l ++ [h])). by rewrite Hpv.
Qed.
End pointers.

End Bio.
