(* ===== verification/BioRefine.v ===== *)
(** The buffer cache of bio.c meets the contract [BufSpec].

    The invariant [binv] of the cache (ring, locks, uniqueness of cached
    blocks), the abstract state read off a cache, and the proof of every law of
    the contract; [binit] establishes the invariant. *)

From S2P Require Import Prelude Bytes BlockCache Bio.
Import Bio.

Module BioRefine.

(** ** Invariant *)

Definition nx (s : bcache) (i : nat) : nat := next (getb s i).
Definition pv (s : bcache) (i : nat) : nat := prev (getb s i).

Definition ring_ok (s : bcache) : Prop :=
  exists l, ring head (nx s) (pv s) l /\ forall i, i ∈ l <-> (i < NBUF)%nat.

(** A buffer is either unused since boot or caches a block of disk 1. *)
Definition buf_ok (s : bcache) (b : buf) : Prop :=
  refcnt b = (if locked b then 1 else 0) /\
  (locked b = true -> lpid b = pid s) /\
  ((dev b = 0 /\ flags b = 0 /\ locked b = false) \/
   (dev b = 1 /\ (flags b = 2 \/ flags b = 6) /\ 0 <= blockno b < mdisksize s /\
    length (data b) = BSIZE)).

Record binv (s : bcache) : Prop := {
  b_len : length (bufs s) = Datatypes.S NBUF;
  b_ring : ring_ok s;
  b_buf : forall i, (i < NBUF)%nat -> buf_ok s (getb s i);
  b_uniq : forall i j, (i < NBUF)%nat -> (j < NBUF)%nat ->
    dev (getb s i) = 1 -> dev (getb s j) = 1 ->
    blockno (getb s i) = blockno (getb s j) -> i = j;
  b_img : forall d, d ∈ img s -> length d = BSIZE
}.

(** ** Abstract state *)

Definition mdisk (s : bcache) (b : Z) : list Z :=
  if decide (0 <= b) then nth (Z.to_nat b) (img s) [] else [].

Definition caches (s : bcache) (b : Z) (i : nat) : Prop :=
  dev (getb s i) = 1 /\ blockno (getb s i) = b.

Definition slot (s : bcache) (b : Z) : option nat :=
  List.find (fun i => bool_decide (dev (getb s i) = 1 /\ blockno (getb s i) = b)) (seq 0 NBUF).

Definition mview (s : bcache) (b : Z) : list Z :=
  match slot s b with
  | Some i => data (getb s i)
  | None => mdisk s b
  end.

Definition is_dirty (b : buf) : bool := bool_decide (Z.land (flags b) B_DIRTY <> 0).

(** The blocks of the buffers that satisfy [f]; sealed, so that conversion never
    walks over the buffers. *)
Definition blocks_def (f : buf -> bool) (s : bcache) : gset Z :=
  list_to_set ((fun i => blockno (getb s i)) <$> List.filter (fun i => f (getb s i)) (seq 0 NBUF)).
Definition blocks_aux : seal blocks_def.
Proof. by eexists. Qed.
Definition blocks : (buf -> bool) -> bcache -> gset Z := unseal blocks_aux.

Definition mheld : bcache -> gset Z := blocks locked.
Definition mdirty : bcache -> gset Z := blocks is_dirty.


Definition mhandle (s : bcache) (h : nat) (b : Z) : Prop :=
  (h < NBUF)%nat /\ locked (getb s h) = true /\ blockno (getb s h) = b.

Definition mstale (s : bcache) (b : Z) : Prop :=
  exists i, (i < NBUF)%nat /\ caches s b i /\ locked (getb s i) = false /\
    is_dirty (getb s i) = false /\ data (getb s i) <> mdisk s b.

(** ** Reading the abstract state *)

Lemma in_seq_nbuf i : In i (seq 0 NBUF) <-> (i < NBUF)%nat.
Proof. rewrite in_seq. lia. Qed.

Lemma blocks_unseal : blocks = blocks_def.
Proof. apply (seal_eq blocks_aux). Qed.

Lemma elem_of_blocks f s b :
  b ∈ blocks f s <-> exists i, (i < NBUF)%nat /\ f (getb s i) = true /\ blockno (getb s i) = b.
Proof.
  rewrite blocks_unseal. unfold blocks_def. rewrite elem_of_list_to_set, list_elem_of_fmap. split.
  - intros (i & -> & Hi). apply list_elem_of_In, filter_In in Hi as [Hi Hf].
    apply in_seq_nbuf in Hi. eauto.
  - intros (i & Hi & Hf & <-). exists i. split; [done|].
    apply list_elem_of_In, filter_In. by rewrite in_seq_nbuf.
Qed.

Lemma find_some_iff {A} (f : A -> bool) l x :
  (forall y z, In y l -> In z l -> f y = true -> f z = true -> y = z) ->
  In x l -> f x = true -> List.find f l = Some x.
Proof.
  intros Huniq Hin Hf. destruct (List.find f l) as [y|] eqn:E.
  - apply find_some in E as [Hy Hfy]. f_equal. by apply Huniq.
  - eapply find_none in E; [|done]. congruence.
Qed.

Lemma slot_some s b i : binv s -> (i < NBUF)%nat -> caches s b i -> slot s b = Some i.
Proof.
  intros Hinv Hi Hc. apply find_some_iff.
  - intros y z Hy Hz [??]%bool_decide_eq_true [??]%bool_decide_eq_true.
    apply in_seq_nbuf in Hy, Hz. eapply b_uniq; eauto. congruence.
  - by apply in_seq_nbuf.
  - by apply bool_decide_eq_true.
Qed.

Lemma slot_none s b : (forall i, (i < NBUF)%nat -> ~ caches s b i) -> slot s b = None.
Proof.
  intros H. unfold slot. destruct (List.find _ _) as [i|] eqn:E; [|done].
  apply find_some in E as [Hi Hc]. apply bool_decide_eq_true in Hc.
  apply in_seq_nbuf in Hi. by destruct (H i).
Qed.

Lemma slot_cases s b :
  (exists i, (i < NBUF)%nat /\ caches s b i) \/ (forall i, (i < NBUF)%nat -> ~ caches s b i).
Proof.
  destruct (slot s b) as [i|] eqn:E.
  - left. apply find_some in E as [Hi Hc]. apply in_seq_nbuf in Hi.
    apply bool_decide_eq_true in Hc. by exists i.
  - right. intros i Hi Hc. eapply find_none in E; [|by apply in_seq_nbuf].
    by apply bool_decide_eq_false in E.
Qed.

Lemma view_at s b i : binv s -> (i < NBUF)%nat -> caches s b i -> mview s b = data (getb s i).
Proof. intros. unfold mview. by erewrite slot_some. Qed.

Lemma view_uncached s b : (forall i, (i < NBUF)%nat -> ~ caches s b i) -> mview s b = mdisk s b.
Proof. intros. unfold mview. by rewrite slot_none. Qed.

Lemma busy_caches s i : binv s -> (i < NBUF)%nat ->
  locked (getb s i) || is_dirty (getb s i) = true -> dev (getb s i) = 1.
Proof.
  intros Hinv Hi Hb. destruct (b_buf s Hinv i Hi) as (_ & _ & [(_ & Hf & Hl)|(? & _)]); [|done].
  unfold is_dirty in Hb. rewrite Hl, Hf in Hb. done.
Qed.

Lemma mhandle_caches s h b : binv s -> mhandle s h b -> caches s b h.
Proof.
  intros Hinv (Hh & Hl & Hb). split; [|done]. apply busy_caches; [done | done |]. by rewrite Hl.
Qed.

(** ** Cores: the fields other than the ring pointers *)

Definition same_core (b b' : buf) : Prop :=
  flags b' = flags b /\ dev b' = dev b /\ blockno b' = blockno b /\ locked b' = locked b /\
  lpid b' = lpid b /\ refcnt b' = refcnt b /\ data b' = data b.

Definition same_cores (s s' : bcache) : Prop :=
  length (bufs s') = length (bufs s) /\ img s' = img s /\ writes s' = writes s /\
  pid s' = pid s /\ forall i, same_core (getb s i) (getb s' i).

Lemma same_cores_refl s : same_cores s s.
Proof. by split_and!; [..|intros i; split_and!]. Qed.

Lemma same_cores_trans s1 s2 s3 : same_cores s1 s2 -> same_cores s2 s3 -> same_cores s1 s3.
Proof.
  intros (A1 & A2 & A3 & A4 & A5) (B1 & B2 & B3 & B4 & B5). split_and!; try congruence.
  intros i. destruct (A5 i) as (?&?&?&?&?&?&?), (B5 i) as (?&?&?&?&?&?&?).
  split_and!; congruence.
Qed.

Lemma same_cores_setb s i b : (i < length (bufs s))%nat -> same_core (getb s i) b ->
  same_cores s (setb i b s).
Proof.
  intros Hi Hb. split_and!; try done; [apply length_setb|].
  intros j. rewrite getb_setb by done. case_decide; subst; [done|]. by split_and!.
Qed.

Lemma find_ext {A} (f g : A -> bool) l : (forall x, f x = g x) -> List.find f l = List.find g l.
Proof. intros H. induction l as [|x l IH]; [done|]. simpl. by rewrite H, IH. Qed.

Lemma filter_ext_bool {A} (f g : A -> bool) l :
  (forall x, f x = g x) -> List.filter f l = List.filter g l.
Proof. intros H. induction l as [|x l IH]; [done|]. simpl. by rewrite H, IH. Qed.

Lemma core_blocks f s s' : same_cores s s' ->
  (forall b b', same_core b b' -> f b' = f b) -> blocks f s' = blocks f s.
Proof.
  intros (_ & _ & _ & _ & Hc) Hf. rewrite blocks_unseal. unfold blocks_def. f_equal.
  rewrite (filter_ext_bool _ (fun i => f (getb s i))) by (intros i; by apply Hf).
  apply list_fmap_ext. intros k i _. apply Hc.
Qed.

Lemma core_view s s' b : same_cores s s' -> mview s' b = mview s b.
Proof.
  intros (_ & Himg & _ & _ & Hc). unfold mview, slot, mdisk. rewrite Himg.
  erewrite find_ext with (g := fun i => bool_decide (dev (getb s i) = 1 /\ blockno (getb s i) = b)).
  - destruct (List.find _ _) as [i|]; [apply Hc | done].
  - intros i. destruct (Hc i) as (_ & -> & -> & _). done.
Qed.

Lemma core_stale s s' b : same_cores s s' -> mstale s' b <-> mstale s b.
Proof.
  intros (_ & Himg & _ & _ & Hc). unfold mstale, caches, mdisk, is_dirty. rewrite Himg.
  split; intros (i & H); exists i; destruct (Hc i) as (E1 & E2 & E3 & E4 & _ & _ & E7);
    by rewrite ?E1, ?E2, ?E3, ?E4, ?E7 in *.
Qed.

Lemma core_handle s s' h b : same_cores s s' -> mhandle s' h b <-> mhandle s h b.
Proof.
  intros (_ & _ & _ & _ & Hc). unfold mhandle. by destruct (Hc h) as (_ & _ & -> & -> & _).
Qed.

Lemma core_binv s s' : same_cores s s' -> ring_ok s' -> binv s -> binv s'.
Proof.
  intros (Hlen & Himg & _ & Hpid & Hc) Hring [L _ B U I]. split.
  - congruence.
  - done.
  - intros i Hi. destruct (B i Hi) as (B1 & B2 & B3). unfold buf_ok, mdisksize in *.
    destruct (Hc i) as (-> & -> & -> & -> & -> & -> & ->). rewrite Himg, Hpid. done.
  - intros i j Hi Hj. destruct (Hc i) as (_ & -> & -> & _), (Hc j) as (_ & -> & -> & _).
    by apply U.
  - by rewrite Himg.
Qed.

Lemma core_mdirty s s' : same_cores s s' -> mdirty s' = mdirty s.
Proof. intros H. apply core_blocks; [done|]. unfold is_dirty. by intros b b' (-> & _). Qed.

Lemma core_mheld s s' : same_cores s s' -> mheld s' = mheld s.
Proof. intros H. apply core_blocks; [done|]. by intros b b' (_ & _ & _ & -> & _). Qed.

(** ** Changing the flags or the data of a held buffer *)

Lemma handle_range s h b : binv s -> mhandle s h b -> 0 <= b < mdisksize s.
Proof.
  intros Hinv Hh. pose proof (mhandle_caches _ _ _ Hinv Hh) as [Hd _].
  destruct Hh as (Hi & _ & <-).
  destruct (b_buf s Hinv h Hi) as (_ & _ & [(? & _)|(_ & _ & ? & _)]); [congruence | done].
Qed.

Section touch.
Context (s : bcache) (h : nat) (b : Z) (fl : Z) (d : list Z) (im : list (list Z))
        (wr : list (Z * list Z)).
Context (Hinv : binv s) (Hh : mhandle s h b) (Hfl : fl = 2 \/ fl = 6) (Hd : length d = BSIZE).
Context (Him : length im = length (img s))
        (Himb : forall x, x ∈ im -> length x = BSIZE)
        (Himo : forall b', 0 <= b' -> b' <> b ->
           nth (Z.to_nat b') im [] = nth (Z.to_nat b') (img s) []).

Let nb := set_flags fl (set_data d (getb s h)).
Let s' := Mk (<[h := nb]> (bufs s)) im wr (pid s).

Lemma touch_getb i : getb s' i = if decide (h = i) then nb else getb s i.
Proof.
  destruct Hh as (Hi & _). pose proof (b_len s Hinv).
  change (getb s' i) with (getb (setb h nb s) i). apply getb_setb. lia.
Qed.

Lemma touch_mdisk b' : b' <> b -> mdisk s' b' = mdisk s b'.
Proof. intros Hne. unfold mdisk. case_decide; [by apply Himo | done]. Qed.

Lemma touch_ident i : caches s' b i <-> caches s b i.
Proof. unfold caches. rewrite touch_getb. by case_decide; subst. Qed.

Lemma touch_caches b' i : caches s' b' i <-> caches s b' i.
Proof. unfold caches. rewrite touch_getb. by case_decide; subst. Qed.

Lemma touch_binv : binv s'.
Proof.
  destruct Hinv as [L R B U I]. split.
  - simpl. by rewrite length_insert.
  - destruct R as (l & (Hnd & Hn & Hp) & Hin). exists l. split; [|done]. split_and!; [done | |].
    + rewrite <- Hn. apply list_fmap_ext. intros k x _. unfold nx. rewrite touch_getb.
      by case_decide; subst.
    + rewrite <- Hp. apply list_fmap_ext. intros k x _. unfold pv. rewrite touch_getb.
      by case_decide; subst.
  - intros i Hi. rewrite touch_getb. destruct (B i Hi) as (B1 & B2 & B3).
    unfold buf_ok, mdisksize in *. simpl. rewrite Him. case_decide; [subst i|done].
    pose proof (mhandle_caches _ _ _ Hinv Hh) as [Hdev _].
    unfold nb; simpl. split_and!; [done | done |]. right.
    destruct B3 as [(? & _)|(_ & _ & ? & _)]; [congruence|]. done.
  - intros i j Hi Hj. rewrite !touch_getb. pose proof (U i j Hi Hj).
    repeat case_decide; subst; done.
  - done.
Qed.

Lemma touch_handle h' b' : mhandle s' h' b' <-> mhandle s h' b'.
Proof. unfold mhandle. rewrite touch_getb. by case_decide; subst. Qed.

Lemma touch_held : mheld s' = mheld s.
Proof.
  apply set_eq. intros x. unfold mheld. rewrite !elem_of_blocks.
  split; intros (i & Hi & H1 & H2); exists i; rewrite touch_getb in *;
    case_decide; subst; done.
Qed.

Lemma touch_dirty :
  mdirty s' = if decide (fl = 6) then {[b]} ∪ mdirty s else mdirty s ∖ {[b]}.
Proof.
  pose proof (mhandle_caches _ _ _ Hinv Hh) as [Hdev Hblk]. destruct Hh as (Hi & _).
  assert (is_dirty nb = bool_decide (fl = 6)) as Hn by (destruct Hfl as [-> | ->]; done).
  apply set_eq. intros x. unfold mdirty. destruct (decide (fl = 6)) as [E|E].
  - rewrite bool_decide_true in Hn by done.
    rewrite elem_of_union, elem_of_singleton, !elem_of_blocks. split.
    + intros (i & Hi' & H1 & H2). rewrite touch_getb in *. case_decide; [left | right; eauto].
      subst. done.
    + intros [-> | (i & Hi' & H1 & H2)].
      * exists h. rewrite touch_getb, decide_True by done. done.
      * exists i. rewrite touch_getb. case_decide; subst; done.
  - rewrite bool_decide_false in Hn by done.
    rewrite elem_of_difference, elem_of_singleton, !elem_of_blocks. split.
    + intros (i & Hi' & H1 & H2). rewrite touch_getb in *. case_decide; [congruence|].
      split; [eauto|]. intros ->. destruct (b_uniq s Hinv h i); try done; [|congruence].
      apply busy_caches; [done | done |]. by rewrite H1, orb_true_r.
    + intros [(i & Hi' & H1 & H2) Hne]. exists i. rewrite touch_getb.
      case_decide; subst; done.
Qed.

Lemma touch_view b' : mview s' b' = upd (mview s) b d b'.
Proof.
  pose proof (mhandle_caches _ _ _ Hinv Hh) as Hc. pose proof Hh as (Hi & _).
  unfold upd. case_decide as E.
  - subst b'. rewrite (view_at s' b h touch_binv Hi) by (by apply touch_ident).
    rewrite touch_getb, decide_True by done. done.
  - destruct (slot_cases s b') as [(i & Hi' & Hci)|Hnone].
    + rewrite (view_at s' b' i touch_binv Hi') by (by apply touch_caches).
      rewrite (view_at s b' i Hinv Hi' Hci), touch_getb, decide_False; [done|].
      intros ->. destruct Hc, Hci. congruence.
    + rewrite view_uncached, view_uncached; [by apply touch_mdisk | done |].
      intros i Hi'. rewrite touch_caches. by apply Hnone.
Qed.

Lemma touch_stale b' : mstale s' b' <-> mstale s b'.
Proof.
  pose proof Hh as (Hi & Hl & Hb).
  assert (forall i, (i < NBUF)%nat -> caches s b' i -> locked (getb s i) = false -> h <> i ->
                    mdisk s' b' = mdisk s b') as Hdisk.
  { intros i Hi' [Hd' Hb'] Hl' Hne. apply touch_mdisk.
    intros ->. apply Hne. apply (b_uniq s Hinv); try done; [|congruence].
    by apply (mhandle_caches s h b). }
  unfold mstale. split; intros (i & Hi' & Hc & H1 & H2 & H3); exists i;
    rewrite ?touch_caches, ?touch_getb in *; case_decide as E; subst;
    try (unfold nb in *; simpl in *; congruence); split_and!; try done.
  - by erewrite <- Hdisk.
  - by erewrite Hdisk.
Qed.
End touch.

(** ** Taking a buffer for a block *)

Section take.
Context (s : bcache) (i : nat) (b : Z) (fl : Z) (d : list Z).
Context (Hinv : binv s) (Hi : (i < NBUF)%nat) (Hul : locked (getb s i) = false)
        (Hb : 0 <= b < mdisksize s).
(** Either the buffer caches [b] already, or it is clean and recycled. *)
Context (Hcase :
  (caches s b i /\ fl = flags (getb s i) /\ d = data (getb s i)) \/
  (is_dirty (getb s i) = false /\ (forall j, (j < NBUF)%nat -> ~ caches s b j) /\
   fl = 2 /\ d = mdisk s b)).

Let nb := MkBuf fl 1 b true (pid s) 1 (prev (getb s i)) (next (getb s i)) d.
Let s' := setb i nb s.

Lemma take_getb j : getb s' j = if decide (i = j) then nb else getb s j.
Proof. apply getb_setb. rewrite (b_len s Hinv). unfold NBUF in *. lia. Qed.

Lemma take_data : length d = BSIZE.
Proof.
  destruct Hcase as [(Hc & _ & ->)|(_ & _ & _ & ->)].
  - destruct Hc as [Hdev _]. destruct (b_buf s Hinv i Hi) as (_ & _ & [(? & _)|H]); [congruence|].
    apply H.
  - unfold mdisk. rewrite decide_True by lia. apply (b_img s Hinv).
    unfold mdisksize in Hb. apply list_elem_of_In, nth_In. lia.
Qed.

Lemma take_flags : fl = 2 \/ fl = 6.
Proof.
  destruct Hcase as [(Hc & -> & _)|(_ & _ & -> & _)]; [|by left].
  destruct Hc as [Hdev _]. destruct (b_buf s Hinv i Hi) as (_ & _ & [(? & _)|H]); [congruence|].
  apply H.
Qed.

(** No other buffer caches [b]. *)
Lemma take_other j : (j < NBUF)%nat -> i <> j -> ~ caches s b j.
Proof.
  intros Hj Hne [Hd' Hb']. destruct Hcase as [([??] & _)|(_ & H & _)].
  - apply Hne. apply (b_uniq s Hinv); congruence.
  - by apply (H j Hj).
Qed.

Lemma take_binv : binv s'.
Proof.
  pose proof take_data. pose proof take_flags. pose proof take_other as Ho.
  destruct Hinv as [L R B U I]. split.
  - unfold s'. by rewrite length_setb.
  - destruct R as (l & (Hnd & Hn & Hp) & Hin). exists l. split; [|done]. split_and!; [done | |].
    + rewrite <- Hn. apply list_fmap_ext. intros k x _. unfold nx. rewrite take_getb.
      by case_decide; subst.
    + rewrite <- Hp. apply list_fmap_ext. intros k x _. unfold pv. rewrite take_getb.
      by case_decide; subst.
  - intros j Hj. rewrite take_getb. unfold buf_ok, mdisksize in *. simpl.
    case_decide; [subst j|by apply B]. unfold nb; simpl. split_and!; [done | done |]. by right.
  - intros j k Hj Hk. rewrite !take_getb. pose proof (U j k Hj Hk).
    repeat case_decide; subst; simpl; intros; try done.
    + exfalso. by eapply (Ho k).
    + exfalso. by eapply (Ho j).
    + auto.
  - done.
Qed.

Lemma take_handle_new : mhandle s' i b.
Proof. unfold mhandle. by rewrite take_getb, decide_True. Qed.

Lemma take_handle_old h' b' : mhandle s h' b' -> mhandle s' h' b'.
Proof.
  intros (H1 & H2 & H3). unfold mhandle. rewrite take_getb, decide_False; [done|].
  intros ->. congruence.
Qed.

Lemma take_held : mheld s' = {[b]} ∪ mheld s.
Proof.
  apply set_eq. intros x. unfold mheld.
  rewrite elem_of_union, elem_of_singleton, !elem_of_blocks. split.
  - intros (j & Hj & H1 & H2). rewrite take_getb in *. case_decide; [by left | right; eauto].
  - intros [-> | (j & Hj & H1 & H2)].
    + exists i. rewrite take_getb, decide_True by done. done.
    + exists j. rewrite take_getb, decide_False; [done|]. intros ->. congruence.
Qed.

Lemma take_dirty : mdirty s' = mdirty s.
Proof.
  assert (is_dirty nb = is_dirty (getb s i)) as Hn.
  { destruct Hcase as [(_ & Hf & _)|(Hf & _ & Hf2 & _)];
      unfold is_dirty, nb in *; simpl; [by rewrite Hf | rewrite Hf, Hf2; done]. }
  apply set_eq. intros x. unfold mdirty. rewrite !elem_of_blocks.
  split; intros (j & Hj & H1 & H2); exists j; rewrite take_getb in *;
    case_decide; subst; try done; rewrite ?Hn in *; split_and!; try done; unfold nb; simpl;
    destruct Hcase as [([_ ?] & _)|(? & _)]; congruence.
Qed.

Lemma take_view b' : ~ mstale s b' -> mview s' b' = mview s b'.
Proof.
  intros Hst. pose proof take_binv as Hinv'. destruct (decide (b' = b)) as [->|Hne].
  - rewrite (view_at s' b i Hinv' Hi) by (unfold caches; by rewrite take_getb, decide_True).
    rewrite take_getb, decide_True by done. simpl. symmetry.
    destruct Hcase as [(Hc & _ & ->)|(_ & Hn & _ & ->)]; [by apply view_at | by apply view_uncached].
  - destruct (slot_cases s b') as [(j & Hj & Hc)|Hn].
    + destruct (decide (i = j)) as [<-|Hij].
      * rewrite (view_at s b' i Hinv Hi Hc).
        destruct Hcase as [([_ ?] & _)|(Hd' & _)]; [destruct Hc; congruence|].
        rewrite view_uncached.
        -- destruct (decide (data (getb s i) = mdisk s b')) as [->|Hdd]; [done|].
           exfalso. apply Hst. exists i. done.
        -- intros j' Hj' [H1 H2]. rewrite take_getb in *. case_decide; [simpl in *; congruence|].
           destruct Hc. assert (i = j'); [|done]. apply (b_uniq s Hinv); congruence.
      * rewrite (view_at s b' j Hinv Hj Hc), (view_at s' b' j Hinv' Hj).
        -- by rewrite take_getb, decide_False.
        -- unfold caches. by rewrite take_getb, decide_False.
    + rewrite (view_uncached s b' Hn), view_uncached; [done|].
      intros j Hj [H1 H2]. rewrite take_getb in *. case_decide; [simpl in *; congruence|].
      by apply (Hn j).
Qed.

Lemma take_stale b' : mstale s' b' -> mstale s b' /\ b' <> b.
Proof.
  intros (j & Hj & Hc & H1 & H2 & H3). unfold caches in Hc. rewrite take_getb in *.
  case_decide; [done|]. split; [by exists j|]. intros ->. by apply (take_other j).
Qed.
End take.

(** A full pool of busy buffers is as large as the sets of held and dirty blocks. *)
Lemma evictable_exists s : binv s ->
  (size (mheld s ∪ mdirty s) < NBUF)%nat ->
  exists i, (i < NBUF)%nat /\ locked (getb s i) = false /\ is_dirty (getb s i) = false.
Proof.
  intros Hinv Hsz.
  destruct (List.find (fun i => negb (locked (getb s i) || is_dirty (getb s i))) (seq 0 NBUF))
    as [i|] eqn:E.
  { apply find_some in E as [Hi Hf]. apply in_seq_nbuf in Hi. exists i.
    apply negb_true_iff, orb_false_iff in Hf. naive_solver. }
  exfalso.
  assert (forall i, (i < NBUF)%nat -> locked (getb s i) || is_dirty (getb s i) = true) as Hbusy.
  { intros i Hi. eapply find_none in E; [|by apply in_seq_nbuf]. by apply negb_false_iff in E. }
  set (l := (fun i => blockno (getb s i)) <$> seq 0 NBUF).
  assert (NoDup l) as Hnd.
  { unfold l. apply NoDup_fmap_2_strong; [|apply NoDup_seq].
    intros i j Hi Hj Hij. apply elem_of_seq in Hi, Hj.
    apply (b_uniq s Hinv); try lia; try done; apply busy_caches; try done; try lia;
      apply Hbusy; lia. }
  assert (list_to_set l ⊆ mheld s ∪ mdirty s) as Hsub.
  { intros x. rewrite elem_of_list_to_set. unfold l. rewrite list_elem_of_fmap.
    intros (i & -> & Hi). apply elem_of_seq in Hi. assert (i < NBUF)%nat as Hi' by lia.
    pose proof (Hbusy i Hi') as Hb. unfold mheld, mdirty.
    rewrite elem_of_union, !elem_of_blocks. apply orb_true_iff in Hb as [Hb|Hb]; eauto. }
  apply subseteq_size in Hsub. rewrite size_list_to_set in Hsub by done.
  unfold l in Hsub. rewrite length_fmap, length_seq in Hsub. lia.
Qed.

(** ** The loops of [bget] *)

Definition match_block (s : bcache) (d n : Z) (i : nat) : bool :=
  bool_decide (dev (getb s i) = d /\ blockno (getb s i) = n).
Definition evictable (s : bcache) (i : nat) : bool :=
  bool_decide (refcnt (getb s i) = 0 /\ Z.land (flags (getb s i)) B_DIRTY = 0).

Lemma bget_cached_run s d n l x fuel :
  walk head (nx s) x l -> (length l < fuel)%nat ->
  bget_cached fuel d n x s =
    match List.find (match_block s d n) l with
    | Some i => (updb i (fun x => set_refcnt (refcnt x + 1) x) ;;;
                 acquiresleep i ;;; ret (Some i)) s
    | None => Ret None s
    end.
Proof.
  revert x fuel. induction l as [|y l IH]; intros x fuel Hw Hf; (destruct fuel; [simpl in *; lia|]);
    simpl in *.
  - subst. by rewrite bool_decide_true.
  - destruct Hw as (-> & Hne & Hw). rewrite bool_decide_false by done.
    unfold bind at 1, gets. unfold match_block at 1.
    destruct (bool_decide (dev (getb s y) = d /\ _)); [done|]. apply IH; [done | lia].
Qed.

Lemma bget_recycle_run s d n l x fuel :
  walk head (pv s) x l -> (length l < fuel)%nat ->
  bget_recycle fuel d n x s =
    match List.find (evictable s) l with
    | Some i => (updb i (fun x => MkBuf 0 d n (locked x) (lpid x) 1 (prev x) (next x) (data x)) ;;;
                 acquiresleep i ;;; ret (Some i)) s
    | None => Ret None s
    end.
Proof.
  revert x fuel. induction l as [|y l IH]; intros x fuel Hw Hf; (destruct fuel; [simpl in *; lia|]);
    simpl in *.
  - subst. by rewrite bool_decide_true.
  - destruct Hw as (-> & Hne & Hw). rewrite bool_decide_false by done.
    unfold bind at 1, gets. unfold evictable at 1.
    destruct (bool_decide (refcnt (getb s y) = 0 /\ _)); [done|]. apply IH; [done | lia].
Qed.

Lemma setb_setb i b b' s : setb i b (setb i b' s) = setb i b s.
Proof. unfold setb; simpl. by rewrite list_insert_insert_eq. Qed.

Lemma ring_length l : NoDup l -> (forall i, i ∈ l <-> (i < NBUF)%nat) -> length l = NBUF.
Proof.
  intros Hnd Hin. rewrite <- (length_seq NBUF 0). apply Permutation_length, NoDup_Permutation.
  - done.
  - apply NoDup_seq.
  - intros i. rewrite Hin, elem_of_seq. lia.
Qed.

(** What [bread] leaves in the buffer it returns. *)
Definition taken (s : bcache) (i : nat) (fl b : Z) (d : list Z) : bcache :=
  setb i (MkBuf fl 1 b true (pid s) 1 (prev (getb s i)) (next (getb s i)) d) s.

Lemma bread_cached s i b : binv s -> (i < NBUF)%nat -> caches s b i -> locked (getb s i) = false ->
  bread ROOTDEV b s = Ret i (taken s i (flags (getb s i)) b (data (getb s i))).
Proof.
  intros Hinv Hi Hc Hl. pose proof (b_len s Hinv) as Hlen.
  destruct (b_ring s Hinv) as (l & Hr & Hin). pose proof Hr as (Hnd & _).
  apply NoDup_cons in Hnd as [_ Hnd].
  assert (i < length (bufs s))%nat as Hil by (unfold NBUF in *; lia).
  unfold bread, bget. unfold bind at 1 2 3, gets at 1.
  rewrite (bget_cached_run s ROOTDEV b l) by
    (by apply (ring_walk_next _ _ _ _ Hr) || (rewrite (ring_length l Hnd Hin); unfold ring_fuel; lia)).
  rewrite (find_some_iff (match_block s ROOTDEV b) l i).
  - unfold updb, acquiresleep, updb. mrun.
    rewrite !getb_setb_eq by done. simpl. rewrite Hl.
    rewrite !getb_setb_eq, !setb_setb by (rewrite ?length_setb; done). simpl.
    destruct (b_buf s Hinv i Hi) as (Hrc & _ & [(? & _)|(Hdev & Hfl & _)]);
      [destruct Hc; congruence|].
    rewrite bool_decide_false by (destruct Hfl as [-> | ->]; done).
    unfold taken, set_lock, set_refcnt. destruct Hc as [_ <-]. simpl. rewrite Hrc, Hl, Hdev. done.
  - intros y z Hy Hz [??]%bool_decide_eq_true [??]%bool_decide_eq_true.
    apply list_elem_of_In, Hin in Hy, Hz. apply (b_uniq s Hinv); unfold ROOTDEV in *; congruence.
  - by apply list_elem_of_In, Hin.
  - by apply bool_decide_eq_true.
Qed.

Lemma find_match_none s b l : (forall i, i ∈ l <-> (i < NBUF)%nat) ->
  (forall i, (i < NBUF)%nat -> ~ caches s b i) ->
  List.find (match_block s ROOTDEV b) l = None.
Proof.
  intros Hin Hnone. destruct (List.find _ l) as [j|] eqn:Ej; [|done].
  apply find_some in Ej as [Hj Hm]. apply list_elem_of_In, Hin in Hj.
  apply bool_decide_eq_true in Hm. exfalso. by apply (Hnone j Hj).
Qed.

(** On a miss [bget] takes the last buffer of the ring that is not in use and
    not dirty, and panics if there is none. *)
Lemma bread_miss_run s b l : binv s -> 0 <= b < mdisksize s ->
  (forall i, (i < NBUF)%nat -> ~ caches s b i) ->
  ring head (nx s) (pv s) l -> (forall i, i ∈ l <-> (i < NBUF)%nat) ->
  bread ROOTDEV b s =
    match List.find (evictable s) (rev l) with
    | Some i => Ret i (taken s i 2 b (mdisk s b))
    | None => Stop (Panicked "bget: no buffers") s
    end.
Proof.
  intros Hinv Hb Hnone Hr Hin. pose proof (b_len s Hinv) as Hlen. pose proof Hr as (Hnd & _).
  apply NoDup_cons in Hnd as [_ Hnd]. pose proof (ring_length l Hnd Hin) as Hll.
  unfold bread, bget. unfold bind at 1 2 3, gets at 1.
  rewrite (bget_cached_run s ROOTDEV b l) by
    (by apply (ring_walk_next _ _ _ _ Hr) || (rewrite Hll; unfold ring_fuel; lia)).
  rewrite find_match_none by done.
  unfold bind at 1 2, gets at 1.
  rewrite (bget_recycle_run s ROOTDEV b (rev l)) by
    (by apply (ring_walk_prev _ _ _ _ Hr) ||
     (rewrite length_rev, Hll; unfold ring_fuel; lia)).
  destruct (List.find (evictable s) (rev l)) as [i|] eqn:E; [|done].
  apply find_some in E as [Hi Hev]. apply in_rev, list_elem_of_In, Hin in Hi.
  apply bool_decide_eq_true in Hev as [Hrc _].
  assert (locked (getb s i) = false) as Hl.
  { destruct (b_buf s Hinv i Hi) as (Hr' & _). destruct (locked (getb s i)); [lia|done]. }
  assert (i < length (bufs s))%nat as Hil by (unfold NBUF in *; lia).
  unfold updb, acquiresleep, updb, iderw, holdingsleep, updb. mrun.
  rewrite !getb_setb_eq by done. simpl. rewrite Hl.
  rewrite ?getb_setb_eq, ?setb_setb by (rewrite ?length_setb; done). simpl.
  rewrite ?getb_setb_eq, ?setb_setb by (rewrite ?length_setb; done). simpl.
  rewrite bool_decide_true by done. simpl.
  rewrite ?getb_setb_eq by done. simpl. unfold mdisksize in *. simpl.
  rewrite bool_decide_false by lia.
  rewrite ?getb_setb_eq, ?setb_setb by (rewrite ?length_setb; done). simpl.
  rewrite ?getb_setb_eq, ?setb_setb by (rewrite ?length_setb; done). simpl.
  unfold taken, mdisk. rewrite decide_True by lia. done.
Qed.

Lemma evictable_iff s i : binv s -> (i < NBUF)%nat ->
  evictable s i = true <-> locked (getb s i) = false /\ is_dirty (getb s i) = false.
Proof.
  intros Hinv Hi. destruct (b_buf s Hinv i Hi) as (Hrc & _). unfold evictable, is_dirty.
  rewrite bool_decide_eq_true, bool_decide_eq_false, Hrc.
  destruct (locked (getb s i)), (decide (Z.land (flags (getb s i)) B_DIRTY = 0)); naive_solver.
Qed.

Lemma bread_recycled s b : binv s -> 0 <= b < mdisksize s ->
  (forall i, (i < NBUF)%nat -> ~ caches s b i) ->
  (exists i, (i < NBUF)%nat /\ locked (getb s i) = false /\ is_dirty (getb s i) = false) ->
  exists i, (i < NBUF)%nat /\ locked (getb s i) = false /\ is_dirty (getb s i) = false /\
    bread ROOTDEV b s = Ret i (taken s i 2 b (mdisk s b)).
Proof.
  intros Hinv Hb Hnone (i0 & Hi0 & Hbusy). destruct (b_ring s Hinv) as (l & Hr & Hin).
  pose proof (bread_miss_run s b l Hinv Hb Hnone Hr Hin) as Hrun.
  destruct (List.find (evictable s) (rev l)) as [i|] eqn:E.
  - apply find_some in E as [Hi Hev]. apply in_rev, list_elem_of_In, Hin in Hi.
    exists i. apply evictable_iff in Hev as [??]; [|done..]. by split_and!.
  - eapply find_none in E; [|apply in_rev; rewrite rev_involutive;
         by apply list_elem_of_In, Hin].
    exfalso. apply evictable_iff in Hbusy; [congruence | done..].
Qed.

(** ** [bwrite] *)

Lemma bwrite_run s h b : binv s -> mhandle s h b ->
  bwrite h s = Ret tt (Mk (<[h := set_flags 2 (set_data (data (getb s h)) (getb s h))]> (bufs s))
                          (<[Z.to_nat b := data (getb s h)]> (img s))
                          (writes s ++ [(b, data (getb s h))]) (pid s)).
Proof.
  intros Hinv Hh. pose proof (mhandle_caches _ _ _ Hinv Hh) as [Hdev Hblk].
  pose proof (handle_range _ _ _ Hinv Hh) as Hrange. destruct Hh as (Hi & Hl & _).
  pose proof (b_len s Hinv). assert (h < length (bufs s))%nat as Hil by (unfold NBUF in *; lia).
  destruct (b_buf s Hinv h Hi) as (_ & Hpid & [(? & _)|(_ & Hfl & _)]); [congruence|].
  unfold bwrite, iderw, holdingsleep, updb. mrun.
  rewrite Hl, bool_decide_true by (by apply Hpid). simpl.
  rewrite !getb_setb_eq by done. simpl. rewrite Hl, bool_decide_true by (by apply Hpid). simpl.
  replace (Z.lor (flags (getb s h)) B_DIRTY) with 6 by (destruct Hfl as [-> | ->]; done).
  rewrite !getb_setb_eq by done. simpl.
  rewrite Hdev, bool_decide_false by lia.
  unfold mdisksize in *. simpl. rewrite Hblk, bool_decide_false by lia.
  rewrite ?getb_setb_eq by done. unfold setb; simpl. rewrite ?list_insert_insert_eq.
  assert (forall x im w p, getb (Mk (<[h := x]> (bufs s)) im w p) h = x) as Hg.
  { intros. by apply (getb_setb_eq h x s). }
  by rewrite !Hg.
Qed.

Lemma img_insert s b d : binv s -> 0 <= b < mdisksize s -> length d = BSIZE ->
  length (<[Z.to_nat b := d]> (img s)) = length (img s) /\
  (forall x, x ∈ <[Z.to_nat b := d]> (img s) -> length x = BSIZE) /\
  (forall b', 0 <= b' -> b' <> b ->
     nth (Z.to_nat b') (<[Z.to_nat b := d]> (img s)) [] = nth (Z.to_nat b') (img s) []).
Proof.
  intros Hinv Hb Hd. split_and!.
  - apply length_insert.
  - intros x Hx. apply list_elem_of_lookup in Hx as [i Hx].
    apply list_lookup_insert_Some in Hx as [(_ & <- & _)|(_ & Hx)]; [done|].
    apply (b_img s Hinv). by eapply list_elem_of_lookup_2.
  - intros b' H0 Hne. rewrite !nth_lookup, list_lookup_insert_ne by lia. done.
Qed.

(** ** [brelse] *)

Lemma nx_set_next s i v j : (i < length (bufs s))%nat ->
  nx (setb i (set_next v (getb s i)) s) j = fupd (nx s) i v j.
Proof.
  intros H. unfold nx, fupd. rewrite getb_setb by done.
  repeat case_decide; subst; done.
Qed.
Lemma nx_set_prev s i v j : (i < length (bufs s))%nat ->
  nx (setb i (set_prev v (getb s i)) s) j = nx s j.
Proof. intros H. unfold nx. rewrite getb_setb by done. case_decide; subst; done. Qed.
Lemma pv_set_prev s i v j : (i < length (bufs s))%nat ->
  pv (setb i (set_prev v (getb s i)) s) j = fupd (pv s) i v j.
Proof.
  intros H. unfold pv, fupd. rewrite getb_setb by done.
  repeat case_decide; subst; done.
Qed.
Lemma pv_set_next s i v j : (i < length (bufs s))%nat ->
  pv (setb i (set_next v (getb s i)) s) j = pv s j.
Proof. intros H. unfold pv. rewrite getb_setb by done. case_decide; subst; done. Qed.

Lemma ring_ext h nx1 pv1 nx2 pv2 l :
  (forall i, nx2 i = nx1 i) -> (forall i, pv2 i = pv1 i) ->
  ring h nx1 pv1 l -> ring h nx2 pv2 l.
Proof.
  intros Hn Hp (Hnd & H1 & H2). split_and!; [done | |].
  - rewrite <- H1. apply list_fmap_ext. auto.
  - rewrite <- H2. apply list_fmap_ext. auto.
Qed.

(** The pointer updates at the end of [brelse], as state transformers:
    [b->next->prev = b->prev; b->prev->next = b->next], then the insertion
    behind the head. *)
Definition unlink (h : nat) (s : bcache) : bcache :=
  let s1 := setb (nx s h) (set_prev (pv s h) (getb s (nx s h))) s in
  setb (pv s1 h) (set_next (nx s1 h) (getb s1 (pv s1 h))) s1.

Definition push_front (h : nat) (s2 : bcache) : bcache :=
  let s3 := setb h (set_next (nx s2 head) (getb s2 h)) s2 in
  let s4 := setb h (set_prev head (getb s3 h)) s3 in
  let s5 := setb (nx s4 head) (set_prev h (getb s4 (nx s4 head))) s4 in
  setb head (set_next h (getb s5 head)) s5.

Definition move_front (h : nat) (s : bcache) : bcache := push_front h (unlink h s).

Lemma same_core_next b v : same_core b (set_next v b).
Proof. by split_and!. Qed.
Lemma same_core_prev b v : same_core b (set_prev v b).
Proof. by split_and!. Qed.

Ltac same_cores_chain :=
  repeat (eapply same_cores_trans; [|apply same_cores_setb;
    [rewrite ?length_setb; lia | apply same_core_next || apply same_core_prev]]);
  apply same_cores_refl.

Definition all_below (s : bcache) (l : list nat) : Prop :=
  forall i, i ∈ l -> (i < length (bufs s))%nat.

Lemma unlink_ok s l1 h l2 : ring head (nx s) (pv s) (l1 ++ h :: l2) ->
  all_below s (head :: l1 ++ h :: l2) ->
  same_cores s (unlink h s) /\ ring head (nx (unlink h s)) (pv (unlink h s)) (l1 ++ l2) /\
  length (bufs (unlink h s)) = length (bufs s).
Proof.
  intros Hr Hbound. pose proof Hr as (Hnd & _).
  destruct (ring_at _ _ _ _ _ _ Hr) as (l1' & p & q & l2' & E1 & E2 & Hp & Hq & _).
  assert (p ∈ head :: l1) as Hpin by (rewrite E1; set_solver).
  assert (q ∈ l2 ++ [head]) as Hqin by (rewrite E2; set_solver).
  assert (h ∉ l2 ++ [head]) as Hn.
  { rewrite app_comm_cons in Hnd. apply NoDup_app in Hnd as (_ & H1 & H2).
    apply NoDup_cons in H2 as [H2 _]. rewrite elem_of_app, list_elem_of_singleton.
    intros [?| ->]; [done|]. apply (H1 head); set_solver. }
  assert (q <> h) as Hqh by (intros ->; done).
  assert (p < length (bufs s))%nat as Hpl by (apply Hbound; set_solver).
  assert (q < length (bufs s))%nat as Hql by (apply Hbound; set_solver).
  unfold unlink. rewrite Hp, Hq. set (s1 := setb q _ s).
  assert (forall i, nx s1 i = nx s i) as N1 by (intros; by apply nx_set_prev).
  assert (forall i, pv s1 i = fupd (pv s) q p i) as P1 by (intros; by apply pv_set_prev).
  rewrite N1, Hq, P1. replace (fupd (pv s) q p h) with p
    by (unfold fupd; by rewrite decide_False).
  assert (length (bufs s1) = length (bufs s)) as L1 by apply length_setb.
  split_and!; [same_cores_chain | | by rewrite !length_setb].
  eapply ring_ext; [| | rewrite <- Hp, <- Hq; by apply ring_unlink]; intros i.
  - rewrite nx_set_next, Hp, Hq by lia. unfold fupd. by rewrite N1.
  - rewrite pv_set_next, Hp, Hq by lia. apply P1.
Qed.

Lemma push_front_ok s l h : ring head (nx s) (pv s) l -> h ∉ head :: l ->
  all_below s (head :: l) -> (h < length (bufs s))%nat ->
  same_cores s (push_front h s) /\ ring head (nx (push_front h s)) (pv (push_front h s)) (h :: l).
Proof.
  intros R Hn Hbound Hh. apply not_elem_of_cons in Hn as [Hhd Hn].
  assert (head < length (bufs s))%nat as Hhdl by (apply Hbound; set_solver).
  assert (nx s head < length (bufs s))%nat as Hfl.
  { apply Hbound. destruct R as (_ & R & _). destruct l as [|y l']; simpl in R;
      [injection R as R1 | injection R as R1 _]; rewrite R1, !elem_of_cons; auto. }
  unfold push_front. set (s3 := setb h _ s). set (s4 := setb h _ s3).
  assert (length (bufs s3) = length (bufs s)) as L3 by apply length_setb.
  assert (length (bufs s4) = length (bufs s)) as L4 by (unfold s4; rewrite length_setb; done).
  assert (forall i, nx s4 i = fupd (nx s) h (nx s head) i) as N4.
  { intros. unfold s4. rewrite nx_set_prev by lia. apply nx_set_next. lia. }
  assert (forall i, pv s4 i = fupd (pv s) h head i) as P4.
  { intros. unfold s4. rewrite pv_set_prev by lia. unfold fupd.
    unfold s3. by rewrite pv_set_next by lia. }
  rewrite N4. replace (fupd (nx s) h (nx s head) head) with (nx s head)
    by (unfold fupd; by rewrite decide_False).
  set (s5 := setb (nx s head) _ s4).
  assert (length (bufs s5) = length (bufs s)) as L5 by (unfold s5; rewrite length_setb; done).
  split; [same_cores_chain|].
  eapply ring_ext; [| | apply (ring_push head _ _ h _ R); set_solver]; intros i.
  - rewrite nx_set_next by lia. unfold fupd at 1 3. unfold s5.
    rewrite nx_set_prev by lia. by rewrite N4.
  - rewrite pv_set_next by lia. unfold s5. rewrite pv_set_prev by lia.
    unfold fupd at 1 3. by rewrite P4.
Qed.

(** A released buffer becomes the first of the ring; the others keep their order. *)
Lemma move_front_ring s l1 h l2 : length (bufs s) = Datatypes.S NBUF ->
  ring head (nx s) (pv s) (l1 ++ h :: l2) -> (forall i, i ∈ l1 ++ h :: l2 <-> (i < NBUF)%nat) ->
  same_cores s (move_front h s) /\
  ring head (nx (move_front h s)) (pv (move_front h s)) (h :: l1 ++ l2).
Proof.
  intros Hlen Hr Hin.
  assert (all_below s (head :: l1 ++ h :: l2)) as Hbound.
  { intros i [->|Hi]%elem_of_cons; rewrite Hlen; [unfold head; lia|]. apply Hin in Hi. lia. }
  destruct (unlink_ok s l1 h l2 Hr Hbound) as (C1 & R1 & L1).
  destruct (push_front_ok (unlink h s) (l1 ++ l2) h) as [C2 R2]; [done | | | |].
  - destruct Hr as (Hnd & _). rewrite <- Permutation_middle in Hnd.
    apply NoDup_cons in Hnd as [H1 H2]. apply NoDup_cons in H2 as [H3 H4]. set_solver.
  - intros i Hi. rewrite L1. apply Hbound. set_solver.
  - rewrite L1. apply Hbound. set_solver.
  - split; [by eapply same_cores_trans | done].
Qed.

Lemma move_front_ok s h : length (bufs s) = Datatypes.S NBUF -> ring_ok s -> (h < NBUF)%nat ->
  same_cores s (move_front h s) /\ ring_ok (move_front h s).
Proof.
  intros Hlen (l & Hr & Hin) Hh.
  assert (h ∈ l) as (l1 & l2 & ->)%list_elem_of_split by (by apply Hin).
  destruct (move_front_ring s l1 h l2 Hlen Hr Hin) as [? ?]. split; [done|].
  exists (h :: l1 ++ l2). split; [done|].
  intros i. rewrite <- Hin, elem_of_cons, !elem_of_app, elem_of_cons. tauto.
Qed.

(** The buffer after [releasesleep] and the decrement of [refcnt]. *)
Definition released (h : nat) (s : bcache) : bcache :=
  setb h (set_refcnt 0 (set_lock false 0 (getb s h))) s.

Lemma brelse_run s h b : binv s -> mhandle s h b ->
  brelse h s = Ret tt (move_front h (released h s)).
Proof.
  intros Hinv (Hi & Hl & _). pose proof (b_len s Hinv).
  assert (h < length (bufs s))%nat as Hil by (unfold NBUF in *; lia).
  destruct (b_buf s Hinv h Hi) as (Hrc & Hpid & _). rewrite Hl in Hrc.
  assert (refcnt (getb (released h s) h) = 0) as Hz
    by (unfold released; by rewrite getb_setb_eq).
  unfold brelse, holdingsleep, gets. unfold bind at 1.
  rewrite Hl, bool_decide_true by (by apply Hpid). cbv iota beta delta [negb andb].
  unfold releasesleep. unfold updb at 1 2, modify at 1 2. unfold bind at 1 2.
  rewrite getb_setb_eq, setb_setb by done. simpl refcnt. rewrite Hrc.
  change (setb h (set_refcnt (1 - 1) (set_lock false 0 (getb s h))) s) with (released h s).
  generalize dependent (released h s). intros s1 Hz.
  unfold bind at 1. rewrite Hz, bool_decide_true by done. reflexivity.
Qed.

Section release.
Context (s : bcache) (h : nat) (b : Z) (Hinv : binv s) (Hh : mhandle s h b).
Let s' := released h s.

Lemma release_getb i :
  getb s' i = if decide (h = i) then set_refcnt 0 (set_lock false 0 (getb s h)) else getb s i.
Proof. apply getb_setb. rewrite (b_len s Hinv). destruct Hh. unfold NBUF in *. lia. Qed.

Lemma release_caches b' i : caches s' b' i <-> caches s b' i.
Proof. unfold caches. rewrite release_getb. by case_decide; subst. Qed.

Lemma release_binv : binv s'.
Proof.
  pose proof (mhandle_caches _ _ _ Hinv Hh) as [Hdev _].
  destruct Hinv as [L R B U I]. split.
  - unfold s', released. by rewrite length_setb.
  - destruct R as (l & R & Hin). exists l. split; [|done].
    eapply ring_ext; [| |done]; intros i; unfold nx, pv; rewrite release_getb;
      by case_decide; subst.
  - intros i Hi. rewrite release_getb. destruct (B i Hi) as (B1 & B2 & B3).
    unfold buf_ok, mdisksize in *. case_decide; [subst i | done]. simpl.
    split_and!; [done | done |]. right. destruct B3 as [(? & _)|B3]; [congruence | done].
  - intros i j Hi Hj. rewrite !release_getb. pose proof (U i j Hi Hj).
    repeat case_decide; subst; done.
  - done.
Qed.

Lemma release_handle h' b' : mhandle s' h' b' <-> mhandle s h' b' /\ h' <> h.
Proof. unfold mhandle. rewrite release_getb. case_decide; subst; naive_solver. Qed.

Lemma release_held : mheld s' = mheld s ∖ {[b]}.
Proof.
  pose proof (mhandle_caches _ _ _ Hinv Hh) as [Hdev Hb]. destruct Hh as (Hi & Hl & _).
  apply set_eq. intros x. unfold mheld.
  rewrite elem_of_difference, elem_of_singleton, !elem_of_blocks. split.
  - intros (i & Hi' & H1 & H2). rewrite release_getb in *. case_decide; [done|].
    split; [eauto|]. intros ->. destruct (b_uniq s Hinv h i); try done; [|congruence].
    apply busy_caches; [done | done |]. by rewrite H1.
  - intros [(i & Hi' & H1 & H2) Hne]. exists i. rewrite release_getb, decide_False; [done|].
    intros ->. congruence.
Qed.

Lemma release_dirty : mdirty s' = mdirty s.
Proof.
  apply set_eq. intros x. unfold mdirty. rewrite !elem_of_blocks.
  split; intros (i & Hi' & H1 & H2); exists i; rewrite release_getb in *;
    case_decide; subst; done.
Qed.

Lemma release_view b' : mview s' b' = mview s b'.
Proof.
  destruct (slot_cases s b') as [(i & Hi & Hc)|Hn].
  - rewrite (view_at s b' i), (view_at s' b' i); try done;
      [| apply release_binv | by apply release_caches].
    rewrite release_getb. by case_decide; subst.
  - rewrite (view_uncached s b' Hn), view_uncached; [done|].
    intros i Hi. rewrite release_caches. by apply Hn.
Qed.

Lemma release_stale b' : mstale s' b' <->
  mstale s b' \/ (b' = b /\ b ∉ mdirty s /\ mview s b <> mdisk s b).
Proof.
  pose proof (mhandle_caches _ _ _ Hinv Hh) as Hc. destruct Hh as (Hi & Hl & Hb).
  rewrite (view_at s b h Hinv Hi Hc). split.
  - intros (i & Hi' & Hci & H1 & H2 & H3). rewrite release_caches, release_getb in *.
    case_decide as E; [subst i|left; by exists i].
    right. destruct Hc, Hci. assert (b' = b) as -> by congruence. split; [done|]. split; [|done].
    unfold mdirty. rewrite elem_of_blocks. intros (j & Hj & Hd & Hbj).
    assert (h = j) as <-.
    { apply (b_uniq s Hinv); try done; [|congruence]. apply busy_caches; [done|done|].
      by rewrite Hd, orb_true_r. }
    unfold is_dirty in *. simpl in *. congruence.
  - intros [(i & Hi' & Hci & H1 & H2 & H3)|(-> & Hnd & Hne)].
    + exists i. rewrite release_caches, release_getb. rewrite decide_False; [done|].
      intros ->. congruence.
    + exists h. rewrite release_caches, release_getb, decide_True by done.
      split_and!; try done; try apply Hc. simpl.
      change (is_dirty (getb s h) = false). destruct (is_dirty (getb s h)) eqn:E; [|done].
      exfalso. apply Hnd. unfold mdirty. rewrite elem_of_blocks. eauto.
Qed.
End release.

(** ** The contract *)

Lemma disk_blocks s b : binv s -> 0 <= b < mdisksize s -> length (mdisk s b) = BSIZE.
Proof.
  intros Hinv Hb. unfold mdisk, mdisksize in *. rewrite decide_True by lia.
  apply (b_img s Hinv), list_elem_of_In, nth_In. lia.
Qed.

Lemma view_blocks s b : binv s -> 0 <= b < mdisksize s -> length (mview s b) = BSIZE.
Proof.
  intros Hinv Hb. destruct (slot_cases s b) as [(i & Hi & Hc)|Hn].
  - rewrite (view_at s b i Hinv Hi Hc). destruct Hc as [Hd _].
    destruct (b_buf s Hinv i Hi) as (_ & _ & [(? & _)|(_ & _ & _ & ?)]); [congruence|done].
  - rewrite view_uncached by done. by apply disk_blocks.
Qed.

Lemma not_busy_view s b : binv s -> ~ mstale s b -> b ∉ mheld s -> b ∉ mdirty s ->
  mview s b = mdisk s b.
Proof.
  intros Hinv Hst Hh Hd. destruct (slot_cases s b) as [(i & Hi & Hc)|Hn].
  - rewrite (view_at s b i Hinv Hi Hc).
    destruct (decide (data (getb s i) = mdisk s b)) as [->|Hne]; [done|].
    exfalso. apply Hst. exists i. split_and!; try done; try apply Hc.
    + destruct (locked (getb s i)) eqn:E; [|done]. exfalso. apply Hh.
      apply elem_of_blocks. destruct Hc. eauto.
    + destruct (is_dirty (getb s i)) eqn:E; [|done]. exfalso. apply Hd.
      apply elem_of_blocks. destruct Hc. eauto.
  - by rewrite view_uncached.
Qed.

(** Which buffer [bread] takes, and what it holds afterwards. *)
Definition bread_picks (s : bcache) (b : Z) (i : nat) (fl : Z) (d : list Z) : Prop :=
  (i < NBUF)%nat /\ locked (getb s i) = false /\
  ((caches s b i /\ fl = flags (getb s i) /\ d = data (getb s i)) \/
   (is_dirty (getb s i) = false /\ (forall j, (j < NBUF)%nat -> ~ caches s b j) /\
    fl = 2 /\ d = mdisk s b)).

Lemma bread_hit s b i : binv s -> b ∉ mheld s -> (i < NBUF)%nat -> caches s b i ->
  exists i fl d, bread_picks s b i fl d /\ bread ROOTDEV b s = Ret i (taken s i fl b d).
Proof.
  intros Hinv Hnh Hi Hc.
  assert (locked (getb s i) = false) as Hl.
  { destruct (locked (getb s i)) eqn:E; [|done]. exfalso. apply Hnh, elem_of_blocks.
    destruct Hc. eauto. }
  exists i, (flags (getb s i)), (data (getb s i)). split.
  - split; [exact Hi|]. split; [exact Hl|]. left. by split.
  - by apply bread_cached.
Qed.

Lemma dirty_caches s b : binv s -> b ∈ mdirty s -> exists i, (i < NBUF)%nat /\ caches s b i.
Proof.
  intros Hinv Hd. apply elem_of_blocks in Hd as (i & Hi & Hd & Hb').
  exists i. split; [exact Hi|]. split; [|exact Hb']. apply busy_caches; [exact Hinv|exact Hi|].
  rewrite Hd. apply orb_true_r.
Qed.

Lemma bread_miss s b : binv s -> 0 <= b < mdisksize s ->
  (forall i, (i < NBUF)%nat -> ~ caches s b i) -> (size (mheld s ∪ mdirty s) < NBUF)%nat ->
  exists i fl d, bread_picks s b i fl d /\ bread ROOTDEV b s = Ret i (taken s i fl b d).
Proof.
  intros Hinv Hb Hn Hcap.
  destruct (bread_recycled s b Hinv Hb Hn (evictable_exists s Hinv Hcap))
    as (i & Hi & Hl & Hd & E).
  exists i, 2, (mdisk s b). split; [|exact E].
  split; [exact Hi|]. split; [exact Hl|]. right. by split.
Qed.

Lemma bread_choice s b : binv s -> 0 <= b < mdisksize s -> b ∉ mheld s ->
  (b ∈ mdirty s \/ (size (mheld s ∪ mdirty s) < NBUF)%nat) ->
  exists i fl d, bread_picks s b i fl d /\ bread ROOTDEV b s = Ret i (taken s i fl b d).
Proof.
  intros Hinv Hb Hnh Hcap. destruct (slot_cases s b) as [(i & Hi & Hc)|Hn].
  - exact (bread_hit s b i Hinv Hnh Hi Hc).
  - destruct Hcap as [Hd|Hcap].
    + exfalso. destruct (dirty_caches s b Hinv Hd) as (i & Hi & Hc). exact (Hn i Hi Hc).
    + exact (bread_miss s b Hinv Hb Hn Hcap).
Qed.

Lemma bread_ok s b : binv s -> 0 <= b < mdisksize s -> b ∉ mheld s ->
  (b ∈ mdirty s \/ (size (mheld s ∪ mdirty s) < NBUF)%nat) ->
  exists h s', bread ROOTDEV b s = Ret h s' /\ binv s' /\
    mhandle s' h b /\ (forall h' b', mhandle s h' b' -> mhandle s' h' b') /\
    mheld s' = {[b]} ∪ mheld s /\ mdirty s' = mdirty s /\
    mdisk s' = mdisk s /\ writes s' = writes s /\ mdisksize s' = mdisksize s /\
    (forall b', ~ mstale s b' -> mview s' b' = mview s b' /\ ~ mstale s' b') /\
    ~ mstale s' b.
Proof.
  intros Hinv Hb Hnh Hcap.
  destruct (bread_choice s b Hinv Hb Hnh Hcap) as (i & fl & d & (Hi & Hl & Hcase) & E).
  exists i, (taken s i fl b d). split; [exact E|]. unfold taken. split; [by apply take_binv|]. split; [by apply take_handle_new|].
  split; [by intros; apply take_handle_old|]. split; [by apply take_held|].
  split; [by apply take_dirty|]. do 3 (split; [done|]). split.
  - intros b' Hst. split; [by apply take_view|].
    intros H. eapply take_stale in H; [|done..]. naive_solver.
  - intros H. eapply take_stale in H; [|done..]. naive_solver.
Qed.

(** When the log has pinned every buffer, reading any other block panics. *)
Lemma all_dirty s : size (mdirty s) = NBUF -> forall i, (i < NBUF)%nat -> is_dirty (getb s i) = true.
Proof.
  unfold mdirty. rewrite blocks_unseal. unfold blocks_def. set (p := fun i => is_dirty (getb s i)).
  set (l := (fun i => blockno (getb s i)) <$> List.filter p (seq 0 NBUF)). intros Hsz i Hi.
  assert (size (list_to_set l : gset Z) <= length l)%nat as Hle.
  { clear. induction l as [|x l IH]; [by rewrite list_to_set_nil, size_empty|].
    rewrite list_to_set_cons. cbn [length].
    pose proof (size_union_alt {[x]} (list_to_set l : gset Z)) as E. rewrite size_singleton in E.
    assert (size ((list_to_set l : gset Z) ∖ {[x]}) <= size (list_to_set l : gset Z))%nat
      by (apply subseteq_size; set_solver). lia. }
  unfold l in Hle at 2. rewrite length_fmap, Hsz in Hle.
  assert (length (List.filter p (seq 0 NBUF)) = length (seq 0 NBUF)) as E.
  { pose proof (filter_length_le p (seq 0 NBUF)). rewrite length_seq in *. lia. }
  apply filter_length_forallb in E. rewrite forallb_forall in E. apply E. by apply in_seq_nbuf.
Qed.

Lemma bread_no_buffers s b : binv s -> 0 <= b < mdisksize s -> size (mdirty s) = NBUF ->
  b ∉ mdirty s -> bread ROOTDEV b s = Stop (Panicked "bget: no buffers") s.
Proof.
  intros Hinv Hb Hsz Hni. pose proof (all_dirty s Hsz) as Hall.
  destruct (b_ring s Hinv) as (l & Hr & Hin).
  rewrite (bread_miss_run s b l Hinv Hb); [|intros i Hi Hc|done|done].
  - destruct (List.find (evictable s) (rev l)) as [i|] eqn:E; [|done]. exfalso.
    apply find_some in E as [Hi Hev]. apply in_rev, list_elem_of_In, Hin in Hi.
    apply evictable_iff in Hev as [_ Hd]; [|done..]. rewrite Hall in Hd by done. done.
  - apply Hni. apply elem_of_blocks. exists i. destruct Hc. auto.
Qed.

(** The buffer cache of bio.c over the memory disk is a block cache. *)
#[export] Program Instance bufspec : BufSpec bcache := {|
  cinv := binv; disk := mdisk; disksize := mdisksize; trace := writes; view := mview;
  held := mheld; dirty := mdirty; handle := mhandle; stale := mstale
|}.
Next Obligation. apply view_blocks. Qed.
Next Obligation. apply disk_blocks. Qed.
Next Obligation.
  intros s h b Hinv Hh. pose proof (mhandle_caches s h b Hinv Hh) as Hc.
  pose proof Hh as (Hi & Hl & Hb). split_and!; try (by eapply handle_range).
  - apply elem_of_blocks. eauto.
  - symmetry. by apply view_at.
  - done.
Qed.
Next Obligation.
  intros s h h' b Hinv H1 H2. pose proof (mhandle_caches _ _ _ Hinv H1) as [??].
  pose proof (mhandle_caches _ _ _ Hinv H2) as [??]. destruct H1, H2.
  apply (b_uniq s Hinv); congruence.
Qed.
Next Obligation. apply not_busy_view. Qed.
Next Obligation. apply bread_ok. Qed.
Next Obligation.
  intros s h b d Hinv Hh Hd. pose proof (mhandle_caches _ _ _ Hinv Hh) as [Hdev _].
  pose proof Hh as (Hi & _).
  destruct (b_buf s Hinv h Hi) as (_ & _ & [(? & _)|(_ & Hfl & _)]); [congruence|].
  assert (setb h (set_data d (getb s h)) s =
          Mk (<[h := set_flags (flags (getb s h)) (set_data d (getb s h))]> (bufs s))
             (img s) (writes s) (pid s)) as E by done.
  simpl. rewrite E.
  assert (forall x, x ∈ img s -> length x = BSIZE) by apply (b_img s Hinv).
  split_and!; intros; try done.
  - by apply touch_binv with b.
  - by eapply touch_handle.
  - by eapply touch_held.
  - erewrite touch_dirty by done. destruct Hfl as [Hf|Hf]; rewrite Hf; simpl.
    + apply difference_disjoint_L.
      apply disjoint_singleton_r. unfold mdirty. rewrite elem_of_blocks.
      intros (j & Hj & Hdj & Hbj). destruct Hh as (_ & _ & Hb).
      assert (h = j) as <-.
      { apply (b_uniq s Hinv); try done; [|congruence]. apply busy_caches; [done|done|].
        by rewrite Hdj, orb_true_r. }
      unfold is_dirty in Hdj. rewrite Hf in Hdj. done.
    + apply subseteq_union_1_L, singleton_subseteq_l.
      apply elem_of_blocks. exists h. destruct Hh as (_ & _ & Hb). split_and!; try done.
      unfold is_dirty. by rewrite Hf.
  - by eapply touch_view.
  - by eapply touch_stale.
Qed.
Next Obligation.
  intros s h b Hinv Hh. pose proof (mhandle_caches _ _ _ Hinv Hh) as Hc.
  pose proof Hc as [Hdev _]. pose proof Hh as (Hi & _).
  destruct (b_buf s Hinv h Hi) as (_ & _ & [(? & _)|(_ & Hfl & _ & Hd)]); [congruence|].
  assert (setb h (set_flags (Z.lor (flags (getb s h)) B_DIRTY) (getb s h)) s =
          Mk (<[h := set_flags 6 (set_data (data (getb s h)) (getb s h))]> (bufs s))
             (img s) (writes s) (pid s)) as E.
  { unfold setb, set_flags, set_data; simpl. destruct Hfl as [Hf | Hf]; rewrite Hf; reflexivity. }
  simpl. rewrite E.
  assert (forall x, x ∈ img s -> length x = BSIZE) by apply (b_img s Hinv).
  split_and!; intros; try done.
  - apply touch_binv with b; auto.
  - eapply touch_handle; eauto.
  - eapply touch_held; eauto.
  - erewrite touch_dirty by eauto. by rewrite decide_True.
  - erewrite touch_view by eauto. unfold upd. case_decide; subst; [|done].
    symmetry. by apply view_at.
  - eapply touch_stale; eauto.
Qed.
Next Obligation.
  intros s h b Hinv Hh. pose proof (mhandle_caches _ _ _ Hinv Hh) as Hc.
  pose proof Hc as [Hdev _]. pose proof Hh as (Hi & _).
  pose proof (handle_range _ _ _ Hinv Hh) as Hr.
  destruct (b_buf s Hinv h Hi) as (_ & _ & [(? & _)|(_ & Hfl & _ & Hd)]); [congruence|].
  destruct (img_insert s b (data (getb s h)) Hinv Hr Hd) as (I1 & I2 & I3).
  pose proof (view_at s b h Hinv Hi Hc) as Hv.
  eexists. split; [by apply (bwrite_run s h b)|]. split; [by apply touch_binv with b; auto|].
  split; [by intros; eapply touch_handle; eauto|].
  split; [by eapply touch_held; eauto|].
  split; [by erewrite touch_dirty by eauto; rewrite decide_False|].
  split.
  { intros b'. unfold upd, mdisk; simpl. destruct (decide (b' = b)) as [->|E].
    - rewrite decide_True by lia. rewrite nth_lookup, list_lookup_insert_eq; [done|].
      unfold mdisksize in Hr. lia.
    - case_decide; [by apply I3 | done]. }
  split; [by simpl; rewrite Hv|]. split; [by unfold mdisksize; simpl; rewrite I1|].
  split.
  - intros b'. erewrite touch_view by eauto. unfold upd. case_decide; by subst.
  - intros b'. eapply touch_stale; eauto.
Qed.
Next Obligation.
  intros s h b Hinv Hh. pose proof (release_binv s h b Hinv Hh) as Hinv'.
  destruct (move_front_ok (released h s) h) as [Hsame Hring].
  { apply (b_len _ Hinv'). } { apply (b_ring _ Hinv'). } { by destruct Hh. }
  pose proof Hsame as (_ & Himg & Hwr & _).
  eexists. split; [by eapply brelse_run|]. split; [by eapply core_binv|]. split.
  { intros. rewrite core_handle by done. by eapply release_handle. }
  split; [by erewrite core_mheld by done; eapply release_held|].
  split; [by erewrite core_mdirty by done; eapply release_dirty|].
  split; [by unfold mdisk; rewrite Himg|]. split; [done|].
  split; [by unfold mdisksize; rewrite Himg|]. split.
  - intros b'. erewrite core_view by done. by eapply release_view.
  - intros b'. rewrite core_stale by done. by eapply release_stale.
Qed.

End BioRefine.
