(* ===== verification/BioProps.v ===== *)
(** What the buffer cache promises the rest of the kernel.

    [binit] of bio.c turns zeroed memory into an empty cache; from there any
    sequence of block reads and block writes through [bread], [bwrite] and
    [brelse] answers as a plain array of blocks does, and every write has
    reached the disk when it returns.  The sequence theorem is proved against
    the interface [BufSpec] and then read at the cache of bio.c. *)

From S2P Require Import Prelude Bytes BlockCache Bio BioRefine.
Import Bio BioRefine.

(** ** Scripts of block accesses *)

Inductive access :=
| Read (b : Z)
| Write (b : Z) (d : list Z).

Section scripts.
Context {S : Type} `{BufSpec S}.

(** One access, as the clients of bio.c perform it. *)
Definition run_access (a : access) : M S (list Z) :=
  match a with
  | Read b =>
      let! h := BlockCache.bread ROOTDEV b in
      let! d := gets (fun s => bdata s h) in
      BlockCache.brelse h ;;; ret d
  | Write b d =>
      let! h := BlockCache.bread ROOTDEV b in
      modify (bset h d) ;;; BlockCache.bwrite h ;;; BlockCache.brelse h ;;; ret d
  end.

Fixpoint run_script (l : list access) : M S (list (list Z)) :=
  match l with
  | [] => ret []
  | a :: l' => let! x := run_access a in let! xs := run_script l' in ret (x :: xs)
  end.
End scripts.

(** The reference: an array of blocks. *)
Fixpoint store_script (l : list access) (f : Z -> list Z) : list (list Z) * (Z -> list Z) :=
  match l with
  | [] => ([], f)
  | Read b :: l' => let r := store_script l' f in (f b :: r.1, r.2)
  | Write b d :: l' => let r := store_script l' (upd f b d) in (d :: r.1, r.2)
  end.

Definition access_ok (n : Z) (a : access) : Prop :=
  match a with
  | Read b => 0 <= b < n
  | Write b d => 0 <= b < n /\ length d = BSIZE
  end.

(** The block writes a script performs. *)
Definition script_writes (l : list access) : list (Z * list Z) :=
  omap (fun a => match a with Read _ => None | Write b d => Some (b, d) end) l.

Section quiet.
Context {S : Type} `{BufSpec S}.

(** Nobody holds a buffer, nothing is pinned, nothing is lost. *)
Record quiet (s : S) : Prop := {
  q_inv : cinv s;
  q_held : held s = ∅;
  q_dirty : dirty s = ∅;
  q_stale : forall b, ~ stale s b
}.

Lemma quiet_view s b : quiet s -> view s b = disk s b.
Proof.
  intros [Hi Hh Hd Hs]. apply view_disk; [done | apply Hs | rewrite Hh; set_solver |
    rewrite Hd; set_solver].
Qed.

Lemma quiet_bread s b : quiet s -> 0 <= b < disksize s ->
  exists h s', BlockCache.bread ROOTDEV b s = Ret h s' /\ cinv s' /\ handle s' h b /\
    held s' = {[b]} /\ dirty s' = ∅ /\ disk s' = disk s /\ trace s' = trace s /\
    disksize s' = disksize s /\ (forall b', view s' b' = disk s b') /\
    (forall b', ~ stale s' b').
Proof.
  intros Hq Hb. destruct Hq as [Hi Hh Hd Hs] eqn:Eq; clear Eq.
  destruct (bread_spec s b) as (h & s' & E & Hi' & Hha & _ & Hh' & Hd' & Hk & Ht & Hz & Hv & _);
    [done | done | rewrite Hh; set_solver | right; rewrite Hh, Hd, union_empty_l_L, size_empty;
     unfold NBUF; lia |].
  exists h, s'. rewrite Hh, union_empty_r_L in Hh'. rewrite Hd in Hd'. split_and!; try done.
  - intros b'. destruct (Hv b' (Hs b')) as [-> _]. by apply quiet_view.
  - intros b'. by apply Hv.
Qed.

Lemma run_read s b : quiet s -> 0 <= b < disksize s ->
  exists s', run_access (Read b) s = Ret (disk s b) s' /\ quiet s' /\
    disk s' = disk s /\ trace s' = trace s /\ disksize s' = disksize s.
Proof.
  intros Hq Hb.
  destruct (quiet_bread s b Hq Hb) as (h & s1 & E1 & Hi & Hha & Hh & Hd & Hk & Ht & Hz & Hv & Hst).
  destruct (handle_held s1 h b Hi Hha) as (_ & Hda & _).
  destruct (brelse_spec s1 h b Hi Hha)
    as (s2 & E2 & Hi2 & _ & Hh2 & Hd2 & Hk2 & Ht2 & Hz2 & _ & Hst2).
  exists s2. split.
  { simpl. rewrite (bind_ret _ _ _ _ _ E1). unfold bind at 1, gets.
    rewrite (bind_ret _ _ _ _ _ E2). by rewrite Hda, Hv. }
  split; [|rewrite Hk2, Ht2, Hz2; done].
  split; [done | rewrite Hh2, Hh; set_solver | congruence |].
  intros b' [?|(-> & _ & Hne)]%Hst2; [by eapply Hst|]. by rewrite Hv, Hk in Hne.
Qed.

Lemma run_write s b d : quiet s -> 0 <= b < disksize s -> length d = BSIZE ->
  exists s', run_access (Write b d) s = Ret d s' /\ quiet s' /\
    (forall b', disk s' b' = upd (disk s) b d b') /\ trace s' = trace s ++ [(b, d)] /\
    disksize s' = disksize s.
Proof.
  intros Hq Hb Hlen.
  destruct (quiet_bread s b Hq Hb) as (h & s1 & E1 & Hi & Hha & Hh & Hd & Hk & Ht & Hz & Hv & Hst).
  destruct (bset_spec s1 h b d Hi Hha Hlen) as (Hi2 & Hha2 & Hh2 & Hd2 & Hk2 & Ht2 & Hz2 & Hv2 & Hst2).
  set (s2 := bset h d s1) in *. assert (handle s2 h b) as Hhb by (by apply Hha2).
  destruct (bwrite_spec s2 h b Hi2 Hhb)
    as (s3 & E3 & Hi3 & Hha3 & Hh3 & Hd3 & Hk3 & Ht3 & Hz3 & Hv3 & Hst3).
  assert (handle s3 h b) as Hhc by (by apply Hha3).
  destruct (brelse_spec s3 h b Hi3 Hhc)
    as (s4 & E4 & Hi4 & _ & Hh4 & Hd4 & Hk4 & Ht4 & Hz4 & Hv4 & Hst4).
  assert (view s2 b = d) as Hvd by (rewrite Hv2; unfold upd; by rewrite decide_True).
  exists s4. split.
  { simpl. rewrite (bind_ret _ _ _ _ _ E1). unfold bind at 1, modify. fold s2.
    rewrite (bind_ret _ _ _ _ _ E3), (bind_ret _ _ _ _ _ E4). done. }
  split; [split|split_and!].
  - done.
  - rewrite Hh4, Hh3, Hh2, Hh. set_solver.
  - rewrite Hd4, Hd3, Hd2, Hd. set_solver.
  - intros b' [H1|(-> & _ & Hne)]%Hst4; [by apply Hst3, Hst2, Hst in H1|].
    rewrite Hv3, Hk3 in Hne. unfold upd in Hne. by rewrite decide_True in Hne.
  - intros b'. rewrite Hk4, Hk3, Hvd, Hk2, Hk. done.
  - by rewrite Ht4, Ht3, Ht2, Ht, Hvd.
  - congruence.
Qed.

Lemma store_script_ext l f g : (forall b, f b = g b) ->
  (store_script l f).1 = (store_script l g).1 /\
  forall b, (store_script l f).2 b = (store_script l g).2 b.
Proof.
  revert f g. induction l as [|[b|b d] l IH]; intros f g E; simpl; [done| |].
  - destruct (IH f g E) as [-> ?]. by rewrite E.
  - destruct (IH (upd f b d) (upd g b d)) as [-> ?]; [|done].
    intros x. unfold upd. by case_decide.
Qed.

Lemma run_script_ok l s : quiet s -> Forall (access_ok (disksize s)) l ->
  exists s', run_script l s = Ret (store_script l (disk s)).1 s' /\ quiet s' /\
    (forall b, disk s' b = (store_script l (disk s)).2 b) /\
    trace s' = trace s ++ script_writes l /\ disksize s' = disksize s.
Proof.
  revert s. induction l as [|a l IH]; intros s Hq Hl.
  { exists s. by rewrite app_nil_r. }
  apply Forall_cons in Hl as [Ha Hl]. destruct a as [b|b d]; simpl in Ha.
  - destruct (run_read s b Hq Ha) as (s1 & E1 & Hq1 & Hk & Ht & Hz).
    destruct (IH s1 Hq1) as (s2 & E2 & Hq2 & Hk2 & Ht2 & Hz2); [by rewrite Hz|].
    exists s2. rewrite Hk in *. split; [|split_and!; [done | done | by rewrite Ht2, Ht | congruence]].
    simpl. rewrite (bind_ret _ _ _ _ _ E1), (bind_ret _ _ _ _ _ E2). done.
  - destruct Ha as [Ha Hd]. destruct (run_write s b d Hq Ha Hd) as (s1 & E1 & Hq1 & Hk & Ht & Hz).
    destruct (IH s1 Hq1) as (s2 & E2 & Hq2 & Hk2 & Ht2 & Hz2); [by rewrite Hz|].
    destruct (store_script_ext l _ _ Hk) as [F1 F2].
    exists s2. split_and!; try done.
    + simpl. rewrite (bind_ret _ _ _ _ _ E1), (bind_ret _ _ _ _ _ E2). by rewrite F1.
    + intros b'. by rewrite Hk2, F2.
    + by rewrite Ht2, Ht, <- app_assoc.
    + congruence.
Qed.
End quiet.

Module BioProps.

(** ** Boot *)

(** The buffers [binit] leaves: the ring runs from the last buffer to the first. *)
Definition boot_bufs : list buf :=
  map (fun i => MkBuf 0 0 0 false 0 0 (if decide (i = 29%nat) then head else Datatypes.S i)
                      (match i with O => head | Datatypes.S j => j end) (replicate BSIZE 0))
      (seq 0 NBUF)
  ++ [MkBuf 0 0 0 false 0 0 0 29 (replicate BSIZE 0)].

Definition booted (image : list (list Z)) (p : Z) : bcache := Mk boot_bufs image [] p.

Lemma binit_run image p : binit (zeroed image p) = Ret tt (booted image p).
Proof. vm_compute. reflexivity. Qed.

Lemma booted_ring image p : ring_ok (booted image p).
Proof.
  exists (rev (seq 0 NBUF)). split.
  - split_and!; [|by vm_compute|by vm_compute].
    by apply (bool_decide_unpack (NoDup (head :: rev (seq 0 NBUF)))); vm_compute.
  - intros i. rewrite list_elem_of_In, <- in_rev. apply in_seq_nbuf.
Qed.

Lemma booted_buf image p i : (i < NBUF)%nat ->
  let b := getb (booted image p) i in
  flags b = 0 /\ dev b = 0 /\ locked b = false /\ refcnt b = 0.
Proof.
  intros Hi. unfold NBUF in Hi. do 30 (destruct i as [|i]; [done|]). lia.
Qed.

Lemma booted_inv image p : (forall d, d ∈ image -> length d = BSIZE) -> binv (booted image p).
Proof.
  intros Himg. split; [done | apply booted_ring | | | done].
  - intros i Hi. destruct (booted_buf image p i Hi) as (Hf & Hd & Hl & Hr).
    unfold buf_ok. rewrite Hf, Hd, Hl, Hr. naive_solver.
  - intros i j Hi _ Hd. destruct (booted_buf image p i Hi) as (_ & E & _). congruence.
Qed.

Lemma booted_quiet image p : (forall d, d ∈ image -> length d = BSIZE) ->
  quiet (booted image p).
Proof.
  intros Himg. split.
  - by apply booted_inv.
  - apply set_eq. intros b. split; [|set_solver]. intros (i & Hi & Hl & _)%elem_of_blocks.
    destruct (booted_buf image p i Hi) as (_ & _ & E & _). congruence.
  - apply set_eq. intros b. split; [|set_solver]. intros (i & Hi & Hl & _)%elem_of_blocks.
    destruct (booted_buf image p i Hi) as (E & _). unfold is_dirty in Hl. by rewrite E in Hl.
  - intros b (i & Hi & [Hd _] & _). destruct (booted_buf image p i Hi) as (_ & E & _). congruence.
Qed.

(** The blocks of a disk image, by number. *)
Definition image_block (image : list (list Z)) (b : Z) : list Z :=
  if decide (0 <= b) then nth (Z.to_nat b) image [] else [].

(** C9: Starting from zeroed memory and any disk image of 512-byte blocks,
    [binit] followed by any sequence of block reads and writes in range, each
    through [bread], [bwrite], [brelse], never panics, sleeps or runs out of
    buffers; it answers exactly as a plain array of blocks, its writes reach the
    disk one by one in program order, and the disk ends up equal to the array. *)
Theorem buffer_cache_is_store image p ops :
  (forall d, d ∈ image -> length d = BSIZE) ->
  Forall (access_ok (Z.of_nat (length image))) ops ->
  exists s, (binit ;;; run_script ops) (zeroed image p) =
              Ret (store_script ops (image_block image)).1 s /\
    (forall b, mdisk s b = (store_script ops (image_block image)).2 b) /\
    writes s = script_writes ops.
Proof.
  intros Himg Hops.
  destruct (run_script_ok ops (booted image p) (booted_quiet image p Himg) Hops)
    as (s & E & _ & Hd & Ht & _).
  exists s. split_and!; [|exact Hd|exact Ht].
  rewrite (bind_ret _ _ _ _ _ (binit_run image p)). exact E.
Qed.

Lemma buffer_cache_is_store_witness :
  exists s, (binit ;;; run_script [Write 1 (replicate 512 7); Read 1; Read 0])
              (zeroed [replicate 512 0; replicate 512 0] 1) =
            Ret [replicate 512 7; replicate 512 7; replicate 512 0] s /\
    writes s = [(1, replicate 512 7)].
Proof.
  destruct (buffer_cache_is_store [replicate 512 0; replicate 512 0] 1
    [Write 1 (replicate 512 7); Read 1; Read 0]) as (s & E & _ & Hw).
  - intros d Hd. apply elem_of_cons in Hd as [->|Hd]; [done|].
    apply list_elem_of_singleton in Hd as ->. done.
  - repeat constructor; done.
  - exists s. split; [rewrite E; by vm_compute | done].
Defined.

(** The buffers in the order of the ring, most recently released first. *)
Definition lru_order (s : bcache) (l : list nat) : Prop :=
  ring head (nx s) (pv s) l /\ forall i, i ∈ l <-> (i < NBUF)%nat.

Lemma brelse_front s l h b : binv s -> lru_order s l -> mhandle s h b ->
  exists s', brelse h s = Ret tt s' /\ lru_order s' (h :: List.filter (fun i => negb (i =? h)%nat) l).
Proof.
  intros Hinv [Hr Hin] Hh. pose proof Hh as (Hi & _).
  assert (h ∈ l) as (l1 & l2 & ->)%list_elem_of_split by (by apply Hin).
  assert (List.filter (fun i => negb (i =? h)%nat) (l1 ++ h :: l2) = l1 ++ l2) as ->.
  { destruct Hr as (Hnd & _). apply NoDup_cons in Hnd as [_ Hnd].
    apply NoDup_app in Hnd as (_ & H1 & H2). apply NoDup_cons in H2 as [H2 _].
    rewrite List.filter_app. simpl. rewrite Nat.eqb_refl. simpl.
    f_equal; apply forallb_filter_id, forallb_forall; intros x Hx%list_elem_of_In;
      apply negb_true_iff, Nat.eqb_neq; intros ->; [apply (H1 h); set_solver | done]. }
  pose proof (release_binv s h b Hinv Hh) as Hinv'.
  assert (forall i, nx (released h s) i = nx s i) as Hn.
  { intros i. unfold nx, released. rewrite getb_setb by (rewrite (b_len s Hinv); lia).
    case_decide; by subst. }
  assert (forall i, pv (released h s) i = pv s i) as Hp.
  { intros i. unfold pv, released. rewrite getb_setb by (rewrite (b_len s Hinv); lia).
    case_decide; by subst. }
  destruct (move_front_ring (released h s) l1 h l2 (b_len _ Hinv')) as [_ Hr']; [|done|].
  { by eapply ring_ext; [apply Hn | apply Hp |]. }
  eexists. split; [by eapply brelse_run|]. split; [done|].
  intros i. rewrite <- Hin, elem_of_cons, !elem_of_app, elem_of_cons. tauto.
Qed.

(** Replacement is least recently used.  On a miss [bread] recycles the
    least recently released buffer that is neither in use nor dirty, reading the
    block from the disk into it, and panics exactly when every buffer is in use
    or dirty; [brelse] makes its buffer the most recently used and keeps the
    order of the others. *)
Theorem lru_replacement s l : binv s -> lru_order s l ->
  (forall b, 0 <= b < mdisksize s -> (forall i, (i < NBUF)%nat -> ~ caches s b i) ->
     bread ROOTDEV b s =
       match List.find (evictable s) (rev l) with
       | Some i => Ret i (taken s i 2 b (mdisk s b))
       | None => Stop (Panicked "bget: no buffers") s
       end) /\
  (forall h b, mhandle s h b ->
     exists s', brelse h s = Ret tt s' /\
       lru_order s' (h :: List.filter (fun i => negb (i =? h)%nat) l)).
Proof.
  intros Hinv Hl. split.
  - intros b Hb Hn. destruct Hl as [Hr Hin]. by apply bread_miss_run.
  - intros h b Hh. by eapply brelse_front.
Qed.

Lemma lru_replacement_witness :
  let s := booted [replicate 512 0] 1 in
  bread ROOTDEV 0 s = Ret 0%nat (taken s 0 2 0 (replicate 512 0)).
Proof.
  assert (binv (booted [replicate 512 0] 1)) as Hinv.
  { apply booted_inv. intros d ->%list_elem_of_singleton. done. }
  destruct (lru_replacement (booted [replicate 512 0] 1) (rev (seq 0 NBUF)) Hinv) as [H _].
  { split.
    - split_and!; [|by vm_compute|by vm_compute].
      by apply (bool_decide_unpack (NoDup (head :: rev (seq 0 NBUF)))); vm_compute.
    - intros i. rewrite list_elem_of_In, <- in_rev. apply in_seq_nbuf. }
  intros s. etransitivity; [apply (H 0)|by vm_compute].
  - by vm_compute.
  - intros i Hi [Hd _]. destruct (booted_buf [replicate 512 0] 1 i Hi) as (_ & E & _). congruence.
Defined.

End BioProps.
