(* ===== verification/FsLayout.v ===== *)
(** The on-disk format: src/xv6-public/fs.h and the constants of
    src/xv6-public/param.h the file system uses. *)

From S2P Require Import Prelude Bytes BlockCache.

Definition MAXOPBLOCKS : nat := 10.
Definition LOGSIZE : nat := MAXOPBLOCKS * 3.

(** [struct superblock] *)
Record superblock := MkSb {
  sbsize : Z;
  nblocks : Z;
  ninodes : Z;
  nlog : Z;
  logstart : Z;
  inodestart : Z;
  bmapstart : Z
}.

Definition decode_sb (d : list Z) : superblock :=
  MkSb (get32 d 0) (get32 d 4) (get32 d 8) (get32 d 12) (get32 d 16) (get32 d 20) (get32 d 24).

(** [short] and [ushort] fields *)
Definition i16 (x : Z) : Z := let y := x mod 2 ^ 16 in if decide (y < 2 ^ 15) then y else y - 2 ^ 16.

Definition ROOTINO : Z := 1.
Definition XDIRECT : nat := 12.
Definition NDIRECT : nat := XDIRECT - 2.
Definition NINDIRECT : Z := Z.of_nat BSIZE / 4.
Definition NDINDIRECT : Z := NINDIRECT * NINDIRECT.
Definition NTINDIRECT : Z := NDINDIRECT * NINDIRECT.
Definition MAXFILE : Z := Z.of_nat NDIRECT + NINDIRECT + NDINDIRECT + NTINDIRECT.

(** [struct dinode], 64 bytes: four shorts, the size, [XDIRECT+1] addresses. *)
Record dinode := MkDinode {
  dtype : Z;
  dmajor : Z;
  dminor : Z;
  dnlink : Z;
  dsize : Z;
  daddrs : list Z
}.

Definition sizeof_dinode : nat := 64.
Definition IPB : Z := Z.of_nat BSIZE / 64.
Definition IBLOCK (i : Z) (sb : superblock) : Z := i / IPB + inodestart sb.
Definition BPB : Z := Z.of_nat BSIZE * 8.
Definition BBLOCK (b : Z) (sb : superblock) : Z := b / BPB + bmapstart sb.

(** Byte offset of inode [i] in its block. *)
Definition inode_off (i : Z) : nat := Z.to_nat (i mod IPB) * sizeof_dinode.

(** The addresses at offset [off], and storing them. *)
Definition get_addrs (d : list Z) (off : nat) : list Z :=
  (fun k => get32 d (off + 4 * k)) <$> seq 0 (XDIRECT + 1).
Definition put_addrs (off : nat) (l : list Z) (d : list Z) : list Z :=
  foldl (fun d k => put32 (off + 4 * k) (nth k l 0) d) d (seq 0 (XDIRECT + 1)).

Definition decode_dinode (d : list Z) (off : nat) : dinode :=
  MkDinode (i16 (get16 d off)) (i16 (get16 d (off + 2))) (i16 (get16 d (off + 4)))
           (i16 (get16 d (off + 6))) (get32 d (off + 8)) (get_addrs d (off + 12)).

(** Storing the fields of a [struct dinode] one by one, as [iupdate] does. *)
Definition encode_dinode (off : nat) (x : dinode) (d : list Z) : list Z :=
  put_addrs (off + 12) (daddrs x)
    (put32 (off + 8) (dsize x)
      (put16 (off + 6) (dnlink x mod 2 ^ 16)
        (put16 (off + 4) (dminor x mod 2 ^ 16)
          (put16 (off + 2) (dmajor x mod 2 ^ 16)
            (put16 off (dtype x mod 2 ^ 16) d))))).

Definition DIRSIZ : nat := 14.
Definition sizeof_dirent : nat := 16.

(** [struct dirent]: the inode number and a name of [DIRSIZ] characters. *)
Record dirent := MkDirent {
  dinum : Z;
  dname : list Z
}.

Definition decode_dirent (l : list Z) : dirent := MkDirent (get16 l 0) (slice 2 DIRSIZ l).
Definition encode_dirent (e : dirent) : list Z :=
  put16 0 (dinum e mod 2 ^ 16) (replicate 2 0) ++ dname e.
