(* ===== verification/Log.v ===== *)
(** The log: src/xv6-public/log.c.

    The functions are written against the interface [BufOps] of the buffer
    cache.  Block numbers are kept as 32-bit patterns (the code stores [uint]
    block numbers in [int] fields and back, which does not change the pattern);
    the counters [n], [outstanding] are [int]s.  Accesses to [lh.block] outside
    its [LOGSIZE] entries stop with [Undefined].  [wakeups] records the calls of
    [wakeup]. *)

From S2P Require Import Prelude Bytes BlockCache FsLayout.

Module Log.

(** [struct log]; the block numbers of [lh] are [block], its count [n]. *)
Record log := MkLog {
  llocked : bool;
  start : Z;
  lsize : Z;
  outstanding : Z;
  committing : bool;
  ldev : Z;
  full : bool;
  n : Z;
  block : list Z
}.

Definition set_llocked (v : bool) (l : log) : log :=
  MkLog v (start l) (lsize l) (outstanding l) (committing l) (ldev l) (full l) (n l) (block l).
Definition set_place (st sz dv : Z) (l : log) : log :=
  MkLog (llocked l) st sz (outstanding l) (committing l) dv (full l) (n l) (block l).
Definition set_outstanding (v : Z) (l : log) : log :=
  MkLog (llocked l) (start l) (lsize l) v (committing l) (ldev l) (full l) (n l) (block l).
Definition set_committing (v : bool) (l : log) : log :=
  MkLog (llocked l) (start l) (lsize l) (outstanding l) v (ldev l) (full l) (n l) (block l).
Definition set_full (v : bool) (l : log) : log :=
  MkLog (llocked l) (start l) (lsize l) (outstanding l) (committing l) (ldev l) v (n l) (block l).
Definition set_n (v : Z) (l : log) : log :=
  MkLog (llocked l) (start l) (lsize l) (outstanding l) (committing l) (ldev l) (full l) v (block l).
Definition set_block (v : list Z) (l : log) : log :=
  MkLog (llocked l) (start l) (lsize l) (outstanding l) (committing l) (ldev l) (full l) (n l) v.

(** [struct log log], zeroed. *)
Definition log0 : log := MkLog false 0 0 0 false 0 false 0 (replicate LOGSIZE 0).

(** The log with the buffer cache below it. *)
Record lstate (S : Type) := Mk {
  lg : log;
  bc : S;
  wakeups : list kaddr
}.
Arguments Mk {S} lg bc wakeups.
Arguments lg {S} l.
Arguments bc {S} l.
Arguments wakeups {S} l.

Section ops.
Context {S : Type} `{BufOps S}.
Notation L := (M (lstate S)).

Definition updl (f : log -> log) : L unit := modify (fun s => Mk (f (lg s)) (bc s) (wakeups s)).
Definition cache {A} (m : M S A) : L A := zoom bc (fun c s => Mk (lg s) c (wakeups s)) m.
Definition wakeup (c : kaddr) : L unit := modify (fun s => Mk (lg s) (bc s) (wakeups s ++ [c])).

Definition acquire : L unit :=
  let! l := gets lg in
  if llocked l then stop_with Spins else updl (set_llocked true).
Definition release : L unit :=
  let! l := gets lg in
  if llocked l then updl (set_llocked false) else panic "release".

(** [log.lh.block[i]] *)
Definition block_at (i : nat) : L Z :=
  let! l := gets lg in
  match block l !! i with
  | Some b => ret b
  | None => stop_with Undefined
  end.

(** [for (tail = 0; tail < log.lh.n; tail++) ...], where the body leaves
    [log.lh.n] alone. *)
Definition for_entries (body : nat -> L unit) : L unit :=
  let! l := gets lg in forM (seq 0 (Z.to_nat (n l))) body.

Definition install_block (tail : nat) : L unit :=
  let! l := gets lg in
  let! lbuf := cache (bread (ldev l) (start l + Z.of_nat tail + 1)) in
  let! b := block_at tail in
  let! dbuf := cache (bread (ldev l) b) in
  cache (modify (fun c => bset dbuf (bdata c lbuf) c)) ;;;
  cache (bwrite dbuf) ;;;
  cache (brelse lbuf) ;;;
  cache (brelse dbuf).

Definition install_trans : L unit := for_entries install_block.

(** [log.lh.block[i] = lh->block[i]] for the header block [d]. *)
Definition load_entry (d : list Z) (i : nat) : L unit :=
  if decide (i < LOGSIZE)%nat
  then updl (fun l => set_block (<[i := get32 d (4 + 4 * i)]> (block l)) l)
  else stop_with Undefined.

Definition read_head : L unit :=
  let! l := gets lg in
  let! buf := cache (bread (ldev l) (start l)) in
  let! d := gets (fun s => bdata (bc s) buf) in
  updl (set_n (i32 (get32 d 0))) ;;;
  for_entries (load_entry d) ;;;
  cache (brelse buf).

(** [hb->block[i] = log.lh.block[i]] in the buffer [buf]. *)
Definition store_entry (buf : nat) (i : nat) : L unit :=
  let! b := block_at i in
  cache (modify (fun c => bset buf (put32 (4 + 4 * i) b (bdata c buf)) c)).

Definition write_head : L unit :=
  let! l := gets lg in
  let! buf := cache (bread (ldev l) (start l)) in
  cache (modify (fun c => bset buf (put32 0 (u32 (n l)) (bdata c buf)) c)) ;;;
  for_entries (store_entry buf) ;;;
  cache (bwrite buf) ;;;
  cache (brelse buf).

Definition recover_from_log : L unit :=
  read_head ;;;
  install_trans ;;;
  updl (set_n 0) ;;;
  write_head.

(** [readsb] of fs.c, the super block being block 1. *)
Definition readsb (dev : Z) : L superblock :=
  let! bp := cache (bread dev 1) in
  let! sb := gets (fun s => decode_sb (bdata (bc s) bp)) in
  cache (brelse bp) ;;;
  ret sb.

(** [sizeof(struct logheader)]: the count and [LOGSIZE] block numbers. *)
Definition sizeof_logheader : nat := (4 + 4 * LOGSIZE)%nat.

Definition initlog (dev : Z) : L unit :=
  if decide (BSIZE <= sizeof_logheader)%nat then panic "initlog: too big logheader" else
  updl (set_llocked false) ;;;
  let! sb := readsb dev in
  updl (set_place (logstart sb) (nlog sb) dev) ;;;
  recover_from_log.

(** A pass through the loop of [begin_op]: the lock is released when it goes to
    sleep, and the loop starts over when it is woken up. *)
Definition begin_op : L (segment unit unit) :=
  acquire ;;;
  let! l := gets lg in
  if committing l then release ;;; ret (Blocked A_log tt)
  else if decide (Z.of_nat LOGSIZE - 1 < n l) then release ;;; ret (Blocked A_log tt)
  else updl (set_outstanding (outstanding l + 1)) ;;; release ;;; ret (Done tt).

Definition write_log_block (tail : nat) : L unit :=
  let! l := gets lg in
  let! to := cache (bread (ldev l) (start l + Z.of_nat tail + 1)) in
  let! b := block_at tail in
  let! from := cache (bread (ldev l) b) in
  cache (modify (fun c => bset to (bdata c from) c)) ;;;
  cache (bwrite to) ;;;
  cache (brelse from) ;;;
  cache (brelse to).

Definition write_log : L unit := for_entries write_log_block.

Definition commit : L unit :=
  let! l := gets lg in
  if decide (0 < n l) then write_log ;;; write_head else ret tt.

Definition sync : L Z :=
  let! l := gets lg in
  if decide (n l < Z.of_nat LOGSIZE - 1) then ret (-1) else
  if decide (Z.of_nat LOGSIZE - 1 < n l) then ret (-1) else
  install_trans ;;;
  updl (set_n 0) ;;;
  write_head ;;;
  ret 0.

(** [end_op] up to the first [release]; the result is [do_commit]. *)
Definition end_op_enter : L bool :=
  acquire ;;;
  let! l := gets lg in
  updl (set_outstanding (outstanding l - 1)) ;;;
  if committing l then panic "log.committing" else
  let! l := gets lg in
  let! do_commit :=
    (if decide (outstanding l = 0)
     then updl (set_committing true) ;;; ret true
     else wakeup A_log ;;; ret false) in
  release ;;;
  ret do_commit.

(** The commit of the last operation, run without the lock. *)
Definition end_op_commit : L unit :=
  commit ;;;
  let! l := gets lg in
  if full l then let! _ := sync in ret tt else ret tt.

Definition end_op_leave : L unit :=
  acquire ;;;
  updl (set_committing false) ;;;
  wakeup A_log ;;;
  release.

Definition end_op : L unit :=
  let! do_commit := end_op_enter in
  if do_commit then end_op_commit ;;; end_op_leave else ret tt.

(** The search loop of [log_write]: the first entry equal to [b], or [n]. *)
Fixpoint absorb (blocks : list Z) (b : Z) : nat :=
  match blocks with
  | [] => O
  | x :: l => if decide (x = b) then O else Datatypes.S (absorb l b)
  end.

(** The two tests come before [acquire], as in the code. *)
Definition log_write (buf : nat) : L unit :=
  let! l := gets lg in
  if decide (Z.of_nat LOGSIZE <= n l) then panic "too big a transaction" else
  if decide (outstanding l < 1) then panic "log_write outside of trans" else
  acquire ;;;
  let! l := gets lg in
  let! bno := gets (fun s => bblockno (bc s) buf) in
  let i := absorb (take (Z.to_nat (n l)) (block l)) bno in
  updl (fun l => set_block (<[i := bno]> (block l)) l) ;;;
  (if decide (Z.of_nat i = n l) then
     updl (fun l => set_n (n l + 1) l) ;;;
     let! l := gets lg in
     (if decide (n l = Z.of_nat LOGSIZE - 1) then updl (set_full true) else ret tt)
   else ret tt) ;;;
  cache (modify (bpin buf)) ;;;
  release.

End ops.

End Log.
