(* ===== verification/LogDisk.v ===== *)
(** The log on the disk: what a crash leaves and what recovery makes of it.

    Disks are functions from block numbers to contents; a run of the log code
    performs a list of block writes, and a crash leaves the disk after some
    prefix of them.  [recovered st D] is the disk [recover_from_log] installs
    from the log at block [st] of [D]. *)

From S2P Require Import Prelude Bytes BlockCache BlockClient FsLayout.

Definition disk_t : Type := Z -> list Z.

Definition apply_writes (ws : list (Z * list Z)) (D : disk_t) : disk_t :=
  foldl (fun f w => upd f w.1 w.2) D ws.

Lemma apply_writes_app ws ws' D : apply_writes (ws ++ ws') D = apply_writes ws' (apply_writes ws D).
Proof. apply foldl_app. Qed.

Lemma apply_writes_notin ws D b : b ∉ ws.*1 -> apply_writes ws D b = D b.
Proof.
  revert D. induction ws as [|[b' d] ws IH]; intros D Hb; [done|].
  apply not_elem_of_cons in Hb as [Hne Hb]. simpl. rewrite IH by done. by apply upd_ne.
Qed.

Lemma apply_writes_in ws D b d : NoDup ws.*1 -> (b, d) ∈ ws -> apply_writes ws D b = d.
Proof.
  revert D. induction ws as [|[b' d'] ws IH]; intros D Hnd Hin; [by apply elem_of_nil in Hin|].
  simpl in *. apply NoDup_cons in Hnd as [Hni Hnd]. apply elem_of_cons in Hin as [[= -> ->]|Hin].
  - rewrite apply_writes_notin by done. apply upd_eq.
  - by apply IH.
Qed.

(** What is written over does not matter. *)
Lemma apply_writes_overwrite ws D D' b :
  (b ∉ ws.*1 -> D b = D' b) -> apply_writes ws D b = apply_writes ws D' b.
Proof.
  revert D D'. induction ws as [|[b' d'] ws IH]; intros D D' Hb; [apply Hb; set_solver|].
  simpl. apply IH. intros Hni. unfold upd. case_decide; [done|]. apply Hb. set_solver.
Qed.

(** ** The header block *)

Definition head_n (D : disk_t) (st : Z) : Z := i32 (get32 (D st) 0).
Definition head_entries (D : disk_t) (st : Z) : list Z :=
  (fun i => get32 (D st) (4 + 4 * i)) <$> seq 0 (Z.to_nat (head_n D st)).

(** The header block [write_head] writes for [es] over the old contents [d]. *)
Definition put_entries (es : list Z) (d : list Z) : list Z :=
  foldl (fun d i => put32 (4 + 4 * i) (nth i es 0) d) d (seq 0 (length es)).
Definition put_head (es : list Z) (d : list Z) : list Z :=
  put_entries es (put32 0 (Z.of_nat (length es)) d).

(** The writes that copy the log at [st] home, and those that fill it. *)
Definition home_writes (D : disk_t) (st : Z) (es : list Z) : list (Z * list Z) :=
  imap (fun i b => (b, D (st + Z.of_nat i + 1))) es.
Definition log_writes (v : disk_t) (st : Z) (es : list Z) : list (Z * list Z) :=
  imap (fun i b => (st + Z.of_nat i + 1, v b)) es.

Definition recovered (st : Z) (D : disk_t) : disk_t :=
  apply_writes (home_writes D st (head_entries D st)) D.

(** Blocks the log can protect: on the disk and not in the log region. *)
Definition home (st sz : Z) (b : Z) : Prop :=
  0 <= b < sz /\ ~ (st <= b < st + Z.of_nat LOGSIZE).

Definition entries_ok (st sz : Z) (es : list Z) : Prop :=
  NoDup es /\ Forall (home st sz) es /\ (length es < LOGSIZE)%nat.

Record place_ok (st sz : Z) : Prop := {
  p_start : 0 <= st;
  p_end : st + Z.of_nat LOGSIZE <= sz;
  p_size : sz <= 2 ^ 31
}.

(** A disk whose log header is readable. *)
Definition head_ok (st sz : Z) (D : disk_t) : Prop :=
  0 <= head_n D st /\ entries_ok st sz (head_entries D st).

(** ** Accessors of the header *)

Lemma fold_puts_length g l d :
  length (foldl (fun d i => put32 (4 + 4 * i) (g i) d) d l) = length d.
Proof. revert d. induction l as [|i l IH]; intros d; [done|]. simpl. by rewrite IH, length_put32. Qed.

Lemma length_put_head es d : length (put_head es d) = length d.
Proof. unfold put_head, put_entries. by rewrite fold_puts_length, length_put32. Qed.

Lemma fold_puts_ne g l d o : (forall i, In i l -> (o + 3 < 4 + 4 * i \/ 4 + 4 * i + 3 < o)%nat) ->
  get32 (foldl (fun d i => put32 (4 + 4 * i) (g i) d) d l) o = get32 d o.
Proof.
  revert d. induction l as [|i l IH]; intros d Hl; [done|]. simpl.
  rewrite IH by (intros; apply Hl; by right). apply get32_put32_ne.
  specialize (Hl i (or_introl eq_refl)). lia.
Qed.

Lemma fold_puts_eq g l d i : NoDup l -> In i l -> (forall j, 0 <= g j < 2 ^ 32) ->
  (forall j, In j l -> (4 + 4 * j + 3 < length d)%nat) ->
  get32 (foldl (fun d i => put32 (4 + 4 * i) (g i) d) d l) (4 + 4 * i) = g i.
Proof.
  revert d. induction l as [|j l IH]; intros d Hnd Hin Hg Hlen; [done|].
  apply NoDup_cons in Hnd as [Hni Hnd]. simpl. destruct Hin as [->|Hin].
  - rewrite fold_puts_ne.
    + apply get32_put32_eq; [apply Hlen; by left | apply Hg].
    + intros k Hk. assert (k <> i) by (intros ->; by apply Hni, list_elem_of_In). lia.
  - apply IH; try done. intros k Hk. rewrite length_put32. apply Hlen. by right.
Qed.

Definition is_uint (x : Z) : Prop := 0 <= x < 2 ^ 32.

Lemma put_head_n es d : length d = BSIZE -> (length es < LOGSIZE)%nat ->
  i32 (get32 (put_head es d) 0) = Z.of_nat (length es).
Proof.
  intros Hd Hes. assert (0 <= Z.of_nat (length es) < 2 ^ 31) as Hn.
  { unfold LOGSIZE, MAXOPBLOCKS in Hes. lia. }
  unfold put_head, put_entries. rewrite fold_puts_ne by (intros; lia).
  rewrite get32_put32_eq by (unfold BSIZE in Hd; lia).
  unfold i32. rewrite u32_small by lia. by rewrite decide_True by lia.
Qed.

Lemma put_head_entries es D st : length (D st) = BSIZE -> (length es < LOGSIZE)%nat ->
  Forall is_uint es ->
  head_entries (upd D st (put_head es (D st))) st = es.
Proof.
  intros Hd Hlen Hu. unfold head_entries, head_n. rewrite upd_eq, put_head_n by auto.
  rewrite Nat2Z.id. apply list_eq. intros i. rewrite list_lookup_fmap.
  destruct (decide (i < length es)%nat) as [Hi|Hi].
  - rewrite lookup_seq_lt by done. cbn [fmap option_fmap option_map]. rewrite Nat.add_0_l.
    destruct (lookup_lt_is_Some_2 es i Hi) as [b Hb]. rewrite Hb. f_equal.
    unfold put_head, put_entries.
    rewrite (fold_puts_eq (fun i => nth i es 0)).
    + by rewrite (nth_lookup_Some es i 0 b).
    + apply NoDup_seq.
    + apply in_seq. lia.
    + intros j. rewrite nth_lookup. destruct (es !! j) eqn:E; simpl; [|unfold is_uint; lia].
      eapply Forall_lookup_1 in Hu; done.
    + intros j Hj%in_seq. rewrite length_put32, Hd. unfold BSIZE, LOGSIZE, MAXOPBLOCKS in *. lia.
  - rewrite lookup_seq_ge by lia. by rewrite (lookup_ge_None_2 es) by lia.
Qed.

(** ** Keys of the two kinds of writes *)

Lemma home_writes_keys D st es : (home_writes D st es).*1 = es.
Proof.
  unfold home_writes. rewrite fmap_imap. apply list_eq. intros i.
  rewrite list_lookup_imap. by destruct (es !! i).
Qed.

Lemma length_home_writes D st es : length (home_writes D st es) = length es.
Proof. apply length_imap. Qed.

Lemma length_log_writes v st es : length (log_writes v st es) = length es.
Proof. apply length_imap. Qed.

Lemma home_writes_lookup D st es i b : es !! i = Some b ->
  home_writes D st es !! i = Some (b, D (st + Z.of_nat i + 1)).
Proof. intros E. unfold home_writes. by rewrite list_lookup_imap, E. Qed.

Lemma log_writes_lookup v st es i b : es !! i = Some b ->
  log_writes v st es !! i = Some (st + Z.of_nat i + 1, v b).
Proof. intros E. unfold log_writes. by rewrite list_lookup_imap, E. Qed.

Lemma log_writes_inv v st es i w : log_writes v st es !! i = Some w ->
  exists b, es !! i = Some b /\ w = (st + Z.of_nat i + 1, v b).
Proof.
  unfold log_writes. rewrite list_lookup_imap. destruct (es !! i) as [b|]; [|done].
  intros [= <-]. eauto.
Qed.

Lemma log_writes_keys v st es k b : b ∈ (take k (log_writes v st es)).*1 ->
  exists i, (i < k)%nat /\ (i < length es)%nat /\ b = st + Z.of_nat i + 1.
Proof.
  intros ([b' d] & -> & Hin)%list_elem_of_fmap. apply list_elem_of_lookup in Hin as [i Hi].
  apply lookup_take_Some in Hi as [Hi Hk]. apply log_writes_inv in Hi as (b & Hb & [= -> _]).
  exists i. split_and!; [done | by eapply lookup_lt_Some | done].
Qed.

Lemma NoDup_log_keys v st es k : NoDup (take k (log_writes v st es)).*1.
Proof.
  rewrite fmap_take. apply NoDup_ListNoDup, NoDup_ListNoDup.
  eapply sublist_NoDup; [|apply sublist_take].
  apply NoDup_alt. intros i j x. rewrite !list_lookup_fmap.
  destruct (log_writes v st es !! i) as [w|] eqn:E1; [|done].
  destruct (log_writes v st es !! j) as [w'|] eqn:E2; [|done].
  apply log_writes_inv in E1 as (? & _ & ->). apply log_writes_inv in E2 as (? & _ & ->).
  simpl. intros [= <-] [=]. lia.
Qed.

Lemma log_writes_at v st es k i b D : es !! i = Some b ->
  apply_writes (take k (log_writes v st es)) D (st + Z.of_nat i + 1) =
    if decide (i < k)%nat then v b else D (st + Z.of_nat i + 1).
Proof.
  intros Hi. case_decide as Hk.
  - apply apply_writes_in; [apply NoDup_log_keys|].
    apply list_elem_of_lookup. exists i. rewrite lookup_take_lt by done. by apply log_writes_lookup.
  - apply apply_writes_notin. intros (j & Hj & _ & E)%log_writes_keys. lia.
Qed.

(** ** Recovery *)

Lemma recovered_in st D i b : NoDup (head_entries D st) -> head_entries D st !! i = Some b ->
  recovered st D b = D (st + Z.of_nat i + 1).
Proof.
  intros Hnd Hi. apply apply_writes_in; [by rewrite home_writes_keys|].
  apply list_elem_of_lookup. exists i. by apply home_writes_lookup.
Qed.

Lemma recovered_out st D b : b ∉ head_entries D st -> recovered st D b = D b.
Proof. intros Hb. apply apply_writes_notin. by rewrite home_writes_keys. Qed.

(** Two disks that agree on the log region hold the same log. *)
Definition same_log (st : Z) (D D' : disk_t) : Prop :=
  forall b, st <= b < st + Z.of_nat LOGSIZE -> D' b = D b.

Lemma same_log_entries st D D' : same_log st D D' ->
  head_n D' st = head_n D st /\ head_entries D' st = head_entries D st.
Proof.
  intros H. unfold head_entries, head_n.
  by rewrite (H st) by (unfold LOGSIZE, MAXOPBLOCKS; lia).
Qed.

Lemma same_log_home st D D' es : same_log st D D' -> (length es < LOGSIZE)%nat ->
  home_writes D' st es = home_writes D st es.
Proof.
  intros H Hlen. apply imap_ext. intros i b Hi. f_equal. apply H.
  apply lookup_lt_Some in Hi. lia.
Qed.

Lemma apply_home_same_log st sz D ws : Forall (home st sz) ws.*1 ->
  same_log st D (apply_writes ws D).
Proof.
  intros Hws b Hb. apply apply_writes_notin. intros Hin.
  rewrite Forall_forall in Hws. destruct (Hws b Hin) as [_ Hn]. by apply Hn.
Qed.

(** Interrupting the installation of a log changes nothing of what it means. *)
Lemma install_crash st sz D k b : head_ok st sz D ->
  let D' := apply_writes (take k (home_writes D st (head_entries D st))) D in
  head_ok st sz D' /\ recovered st D' b = recovered st D b.
Proof.
  intros (Hn & Hnd & Hhome & Hlen). intros D'. set (es := head_entries D st) in *.
  assert (same_log st D D') as Hsame.
  { eapply apply_home_same_log. rewrite fmap_take, home_writes_keys.
    by apply Forall_take. }
  destruct (same_log_entries _ _ _ Hsame) as [En Ee]. split.
  - unfold head_ok, entries_ok. by rewrite En, Ee.
  - unfold recovered. rewrite Ee, (same_log_home _ _ _ _ Hsame) by done. fold es.
    apply apply_writes_overwrite. intros Hb. apply apply_writes_notin.
    rewrite fmap_take. rewrite home_writes_keys in *. intros Hin. apply Hb.
    by eapply subseteq_take.
Qed.

Lemma head_ok_empty st sz D : head_n D st = 0 -> head_ok st sz D.
Proof.
  intros E. unfold head_ok, head_entries. rewrite E. split; [lia|]. split_and!; simpl.
  - apply NoDup_nil_2.
  - constructor.
  - unfold LOGSIZE, MAXOPBLOCKS. lia.
Qed.

Lemma head_n_put_head D st es : length (D st) = BSIZE -> (length es < LOGSIZE)%nat ->
  head_n (upd D st (put_head es (D st))) st = Z.of_nat (length es).
Proof. intros Hd Hes. unfold head_n. rewrite upd_eq. by apply put_head_n. Qed.

(** Clearing the header of an installed log. *)
Lemma clear_head st sz D b : length (D st) = BSIZE -> home st sz b ->
  let D' := upd D st (put_head [] (D st)) in
  head_ok st sz D' /\ recovered st D' b = D b.
Proof.
  intros Hd Hb D'.
  assert (head_n D' st = 0) as En.
  { unfold D'. rewrite head_n_put_head; [done | done |]. simpl. unfold LOGSIZE, MAXOPBLOCKS. lia. }
  split; [by apply head_ok_empty|].
  rewrite recovered_out by (unfold head_entries; rewrite En; set_solver).
  apply upd_ne. intros ->. destruct Hb as [_ Hb]. apply Hb. unfold LOGSIZE, MAXOPBLOCKS. lia.
Qed.

(** ** Commit

    [es] is the in-memory log and [v] what a reader of the cache sees; the
    header on the disk still lists the first entries of [es], those of the
    transactions committed earlier. *)
Section commit.
Context (st sz : Z) (D v : disk_t) (es es0 : list Z).
Context (Hplace : place_ok st sz) (Hes : entries_ok st sz es).
Context (Hlen : length (D st) = BSIZE).
Context (Hhead : head_entries D st = es0) (Hn0 : 0 <= head_n D st) (Hpre : es0 `prefix_of` es).
Context (Hview : forall b, home st sz b -> b ∉ es -> v b = D b).

Definition commit_writes : list (Z * list Z) :=
  log_writes v st es ++ [(st, put_head es (D st))].

Lemma log_part_home k b : home st sz b ->
  apply_writes (take k (log_writes v st es)) D b = D b.
Proof using Hes.
  clear Hlen Hview. intros [_ Hb]. apply apply_writes_notin. intros (i & _ & Hi & ->)%log_writes_keys.
  destruct Hes as (_ & _ & Hl). apply Hb. lia.
Qed.

Lemma log_part_head k : apply_writes (take k (log_writes v st es)) D st = D st.
Proof using Type. clear Hlen Hview. apply apply_writes_notin. intros (i & _ & _ & E)%log_writes_keys. lia. Qed.

Lemma es0_ok : entries_ok st sz es0.
Proof using Hes Hpre.
  clear Hlen Hview.
  destruct Hes as (H1 & H2 & H3). destruct Hpre as [t ->].
  apply NoDup_app in H1 as (? & _ & _). apply Forall_app in H2 as [? _].
  rewrite length_app in H3. split_and!; [done | done | lia].
Qed.

Lemma entries_uint : Forall is_uint es.
Proof.
  destruct Hes as (_ & H & _). eapply Forall_impl; [done|]. intros b [Hb _].
  pose proof (p_size _ _ Hplace). unfold is_uint. lia.
Qed.

(** Before the header is written. *)
Lemma commit_crash_before k b : (k <= length es)%nat -> home st sz b ->
  let D' := apply_writes (take k commit_writes) D in
  head_ok st sz D' /\
  recovered st D' b = if decide (b ∈ take k es0) then v b else recovered st D b.
Proof using Hes Hhead Hn0 Hpre.
  clear Hlen Hview. intros Hk Hb D'.
  assert (D' = apply_writes (take k (log_writes v st es)) D) as ED'.
  { unfold D', commit_writes. by rewrite take_app_le by (rewrite length_log_writes; lia). }
  assert (head_n D' st = head_n D st /\ head_entries D' st = es0) as [En Ee].
  { rewrite <- Hhead. unfold head_entries, head_n. by rewrite ED', log_part_head. }
  split; [unfold head_ok; rewrite En, Ee; split; [done | apply es0_ok]|].
  destruct es0_ok as (Hnd & _ & _).
  destruct (decide (b ∈ es0)) as [[i Hi]%list_elem_of_lookup|Hni].
  - rewrite (recovered_in st D' i b) by (by rewrite Ee).
    rewrite (recovered_in st D i b) by (by rewrite Hhead).
    assert (es !! i = Some b) as Hi' by (by eapply prefix_lookup_Some).
    rewrite ED', (log_writes_at _ _ _ _ _ _ _ Hi'). case_decide as Hd'; case_decide as Hd; try done.
    + exfalso. apply Hd. apply elem_of_take. eauto.
    + exfalso. apply elem_of_take in Hd as (j & Hj & Hjk).
      assert (i = j) by (by eapply NoDup_lookup). lia.
  - rewrite decide_False by (intros H; by apply Hni, (subseteq_take k)).
    rewrite !recovered_out by (by rewrite ?Ee, ?Hhead). rewrite ED'. by apply log_part_home.
Qed.

(** Once the header is written. *)
Lemma commit_crash_after b : home st sz b ->
  let D' := apply_writes commit_writes D in
  head_ok st sz D' /\ head_entries D' st = es /\ recovered st D' b = v b.
Proof.
  intros Hb D'. set (D1 := apply_writes (log_writes v st es) D).
  assert (forall k, apply_writes (take (length es + k) (log_writes v st es)) D = D1) as E1.
  { intros k. by rewrite take_ge by (rewrite length_log_writes; lia). }
  assert (D1 st = D st) as EDst by (rewrite <- (E1 O); apply log_part_head).
  assert (D' = upd D1 st (put_head es (D1 st))) as ED'.
  { unfold D', commit_writes. rewrite apply_writes_app. simpl. by rewrite EDst. }
  destruct Hes as (Hnd & Hhome & Hl).
  assert (head_entries D' st = es) as Ee.
  { rewrite ED'. apply put_head_entries; [by rewrite EDst | done | apply entries_uint]. }
  assert (head_n D' st = Z.of_nat (length es)) as En.
  { rewrite ED'. apply head_n_put_head; [by rewrite EDst | done]. }
  split_and!; [unfold head_ok; rewrite En, Ee; split; [lia | done] | done |].
  assert (forall x, x <> st -> D' x = D1 x) as Hne by (intros; rewrite ED'; by apply upd_ne).
  destruct (decide (b ∈ es)) as [[i Hi]%list_elem_of_lookup|Hni].
  - rewrite (recovered_in st D' i b), Hne, <- (E1 O), (log_writes_at _ _ _ _ _ _ _ Hi)
      by (rewrite ?Ee; done || lia).
    rewrite decide_True; [done|]. apply lookup_lt_Some in Hi. lia.
  - rewrite recovered_out by (by rewrite Ee).
    rewrite Hne, <- (E1 O), log_part_home, Hview; try done.
    intros ->. destruct Hb as [_ Hb]. apply Hb. unfold LOGSIZE, MAXOPBLOCKS. lia.
Qed.
End commit.
