(* ===== verification/LogRun.v ===== *)
(** Running the log code.

    Each function of log.c, run from a state in which nobody holds a buffer,
    returns and performs a definite list of block writes; what these lists mean
    on the disk is the subject of LogDisk.v.  Everything here is proved against
    the interface [BufSpec]. *)

From S2P Require Import Prelude Bytes BlockCache BlockClient FsLayout Log LogDisk.
Import Log.

#[local] Arguments Nat.add : simpl never.
#[local] Arguments Nat.mul : simpl never.

(** ** Whole-block updates of the abstract cache *)

Definition a_put (b : Z) (d : list Z) (a : acache) : acache :=
  ACache (aheld a) (adirty a ∖ {[b]}) (ahandle a) (asize a) (upd (adisk a) b d)
         (atrace a ++ [(b, d)]) (upd (aview a) b d).
Definition a_puts (ws : list (Z * list Z)) (a : acache) : acache :=
  foldl (fun a w => a_put w.1 w.2 a) a ws.

(** Equality of abstract caches up to extensionality of the block functions. *)
Record aeq (a a' : acache) : Prop := {
  e_held : aheld a' = aheld a;
  e_dirty : adirty a' = adirty a;
  e_handle : ahandle a' = ahandle a;
  e_size : asize a' = asize a;
  e_disk : forall b, adisk a' b = adisk a b;
  e_trace : atrace a' = atrace a;
  e_view : forall b, aview a' b = aview a b
}.

#[export] Instance aeq_equiv : Equivalence aeq.
Proof.
  split.
  - by intros a.
  - intros a a' []. by split.
  - intros a1 a2 a3 [] []. split; intros; congruence.
Qed.

#[export] Instance repr_proper {S} `{BufSpec S} : Proper (eq ==> aeq ==> iff) repr.
Proof.
  assert (forall s a a', aeq a a' -> repr s a -> repr s a') as Himpl.
  { intros s a a' [E1 E2 E3 E4 E5 E6 E7] [I1 I2 I3 I4 I5 I6 I7 I8 I9].
    split; intros; try congruence; [apply I4; congruence | eauto]. }
  intros s ? <- a a' E. split; apply Himpl; [done | by symmetry].
Qed.

Lemma a_puts_app ws ws' a : a_puts (ws ++ ws') a = a_puts ws' (a_puts ws a).
Proof. apply foldl_app. Qed.

Lemma a_puts_disk ws a : adisk (a_puts ws a) = apply_writes ws (adisk a).
Proof. revert a. induction ws as [|w ws IH]; intros a; [done|]. apply (IH (a_put w.1 w.2 a)). Qed.

Lemma a_puts_view ws a : aview (a_puts ws a) = apply_writes ws (aview a).
Proof. revert a. induction ws as [|w ws IH]; intros a; [done|]. apply (IH (a_put w.1 w.2 a)). Qed.

Lemma a_puts_trace ws a : atrace (a_puts ws a) = atrace a ++ ws.
Proof.
  revert a. induction ws as [|[b d] ws IH]; intros a; [by rewrite app_nil_r|].
  change (atrace (a_puts ws (a_put b d a)) = atrace a ++ (b, d) :: ws).
  rewrite IH. simpl. by rewrite <- app_assoc.
Qed.

Lemma a_puts_rest ws a : aheld (a_puts ws a) = aheld a /\ ahandle (a_puts ws a) = ahandle a /\
  asize (a_puts ws a) = asize a.
Proof. revert a. induction ws as [|w ws IH]; intros a; [done|]. apply (IH (a_put w.1 w.2 a)). Qed.

Lemma a_puts_dirty ws a : adirty (a_puts ws a) = adirty a ∖ list_to_set ws.*1.
Proof.
  revert a. induction ws as [|[b d] ws IH]; intros a; [set_solver|].
  change (adirty (a_puts ws (a_put b d a)) = adirty a ∖ list_to_set (b :: ws.*1)).
  rewrite IH. simpl. set_solver.
Qed.

(** ** Lifting the rules of the buffer operations *)

Section lift.
Context {S : Type} `{BufSpec S}.
Implicit Types (s : lstate S) (l : log) (a : acache) (w : list kaddr).

Definition lrep s l a w : Prop := lg s = l /\ repr (bc s) a /\ wakeups s = w.

Lemma lrep_aeq s l a a' w : lrep s l a w -> aeq a a' -> lrep s l a' w.
Proof. intros (? & Hr & ?) E. split_and!; try done. by rewrite <- E. Qed.

Lemma runs_updl s l a w f (Q : unit -> lstate S -> Prop) : lrep s l a w ->
  (forall s', lrep s' (f l) a w -> Q tt s') -> runs (updl f) Q s.
Proof. intros (<- & Hr & <-) HQ. apply runs_modify, HQ. by split_and!. Qed.

Lemma runs_wakeup s l a w c (Q : unit -> lstate S -> Prop) : lrep s l a w ->
  (forall s', lrep s' l a (w ++ [c]) -> Q tt s') -> runs (wakeup c) Q s.
Proof. intros (<- & Hr & <-) HQ. apply runs_modify, HQ. by split_and!. Qed.

Lemma runs_lg s l a w (Q : log -> lstate S -> Prop) : lrep s l a w -> Q l s -> runs (gets lg) Q s.
Proof. intros (<- & _) HQ. by apply runs_gets. Qed.

Lemma runs_acquire s l a w (Q : unit -> lstate S -> Prop) : lrep s l a w -> llocked l = false ->
  (forall s', lrep s' (set_llocked true l) a w -> Q tt s') -> runs acquire Q s.
Proof.
  intros Hr Hl HQ. unfold acquire. apply runs_bind. eapply runs_lg; [done|].
  rewrite Hl. eapply runs_updl; eauto.
Qed.

Lemma runs_release s l a w (Q : unit -> lstate S -> Prop) : lrep s l a w -> llocked l = true ->
  (forall s', lrep s' (set_llocked false l) a w -> Q tt s') -> runs release Q s.
Proof.
  intros Hr Hl HQ. unfold release. apply runs_bind. eapply runs_lg; [done|].
  rewrite Hl. eapply runs_updl; eauto.
Qed.

Lemma runs_lbread s l a w b (Q : nat -> lstate S -> Prop) : lrep s l a w ->
  0 <= b < asize a -> b ∉ aheld a -> room b a ->
  (forall h s', ahandle a !! h = None -> lrep s' l (a_take h b a) w -> Q h s') ->
  runs (cache (bread ROOTDEV b)) Q s.
Proof.
  intros (El & Hr & Ew) Hb Hh Hroom HQ. apply runs_zoom. eapply runs_bread; eauto.
  intros h c Hn Hr'. apply HQ; [done|]. by split_and!.
Qed.

Lemma runs_lset s l a w h b f (Q : unit -> lstate S -> Prop) : lrep s l a w ->
  ahandle a !! h = Some b -> length (f (bc s)) = BSIZE ->
  (forall s', lrep s' l (a_set b (f (bc s)) a) w -> Q tt s') ->
  runs (cache (modify (fun c => bset h (f c) c))) Q s.
Proof.
  intros (El & Hr & Ew) Hh Hlen HQ. apply runs_zoom, runs_modify, HQ.
  split_and!; try done. by apply runs_bset.
Qed.

Lemma runs_lpin s l a w h b (Q : unit -> lstate S -> Prop) : lrep s l a w ->
  ahandle a !! h = Some b -> (forall s', lrep s' l (a_pin b a) w -> Q tt s') ->
  runs (cache (modify (bpin h))) Q s.
Proof.
  intros (El & Hr & Ew) Hh HQ. apply runs_zoom, runs_modify, HQ.
  split_and!; try done. by apply runs_bpin.
Qed.

Lemma runs_lwrite s l a w h b (Q : unit -> lstate S -> Prop) : lrep s l a w ->
  ahandle a !! h = Some b -> (forall s', lrep s' l (a_write b a) w -> Q tt s') ->
  runs (cache (bwrite h)) Q s.
Proof.
  intros (El & Hr & Ew) Hh HQ. apply runs_zoom. eapply runs_bwrite; eauto.
  intros c Hr'. apply HQ. by split_and!.
Qed.

Lemma runs_lrelse s l a w h b (Q : unit -> lstate S -> Prop) : lrep s l a w ->
  ahandle a !! h = Some b -> b ∈ adirty a \/ aview a b = adisk a b ->
  (forall s', lrep s' l (a_drop h b a) w -> Q tt s') -> runs (cache (brelse h)) Q s.
Proof.
  intros (El & Hr & Ew) Hh Hok HQ. apply runs_zoom. eapply runs_brelse; eauto.
  intros c Hr'. apply HQ. by split_and!.
Qed.

Lemma lrep_data s l a w h b : lrep s l a w -> ahandle a !! h = Some b -> bdata (bc s) h = aview a b.
Proof. intros (_ & Hr & _). by apply repr_data. Qed.

Lemma runs_block_at s l a w i b (Q : Z -> lstate S -> Prop) : lrep s l a w ->
  block l !! i = Some b -> Q b s -> runs (block_at i) Q s.
Proof.
  intros Hr Hb HQ. unfold block_at. apply runs_bind. eapply runs_lg; [done|].
  rewrite Hb. by apply runs_ret.
Qed.
End lift.

(** Take the next step of a log program with the rule that fits it. *)
Ltac lstep :=
  lazymatch goal with
  | |- runs (bind _ _) _ _ => apply runs_bind; lstep
  | |- runs (gets lg) _ _ => eapply runs_lg; [eassumption|]
  | |- runs (gets _) _ _ => apply runs_gets
  | |- runs (ret _) _ _ => apply runs_ret
  | |- runs (cache (bread _ _)) _ _ =>
      eapply runs_lbread; [eassumption | | | | intros ?h ?s ? ?]
  | |- runs (cache (modify (bpin _))) _ _ =>
      eapply runs_lpin; [eassumption | | intros ?s ?]
  | |- runs (cache (modify _)) _ _ =>
      eapply runs_lset; [eassumption | | | intros ?s ?]
  | |- runs (cache (bwrite _)) _ _ => eapply runs_lwrite; [eassumption | | intros ?s ?]
  | |- runs (cache (brelse _)) _ _ => eapply runs_lrelse; [eassumption | | | intros ?s ?]
  | |- runs (block_at _) _ _ => eapply runs_block_at; [eassumption | |]
  | |- runs (updl _) _ _ => eapply runs_updl; [eassumption | intros ?s ?]
  | |- runs (wakeup _) _ _ => eapply runs_wakeup; [eassumption | intros ?s ?]
  | |- runs acquire _ _ => eapply runs_acquire; [eassumption | | intros ?s ?]
  | |- runs release _ _ => eapply runs_release; [eassumption | | intros ?s ?]
  end.

Section run.
Context {S : Type} `{BufSpec S}.
Implicit Types (s : lstate S) (l : log) (a : acache) (w : list kaddr).

(** Nobody holds a buffer. *)
Definition idle a : Prop := aheld a = ∅ /\ ahandle a = ∅.

Lemma idle_put b d a : idle a -> idle (a_put b d a).
Proof. done. Qed.

Lemma idle_puts ws a : idle a -> idle (a_puts ws a).
Proof. unfold idle. by destruct (a_puts_rest ws a) as (-> & -> & _). Qed.

Lemma idle_clean s l a w b : lrep s l a w -> idle a -> b ∈ adirty a \/ aview a b = adisk a b.
Proof.
  intros (_ & Hr & _) [Hi _]. destruct (decide (b ∈ adirty a)); [by left|right].
  eapply repr_clean; [done | | done]. rewrite Hi. set_solver.
Qed.

Lemma room_idle b a : idle a -> (size (adirty a) < NBUF)%nat -> room b a.
Proof. intros [Hi _] Hsz. right. by rewrite Hi, union_empty_l_L. Qed.

Lemma room_second x b a h : idle a -> b ∈ adirty a \/ (Datatypes.S (size (adirty a)) < NBUF)%nat ->
  room b (a_take h x a).
Proof.
  intros [Hi _] [Hd|Hsz]; [by left|right]. simpl. rewrite Hi, union_empty_r_L.
  pose proof (size_union_alt {[x]} (adirty a)) as E. rewrite size_singleton in E.
  assert (size (adirty a ∖ {[x]}) <= size (adirty a))%nat by (apply subseteq_size; set_solver).
  lia.
Qed.

Lemma drop_one (h : nat) (b : Z) : delete h (<[h := b]> (∅ : gmap nat Z)) = ∅.
Proof. by rewrite delete_insert_id. Qed.

Lemma drop_two (hx hy : nat) (x b : Z) : hx <> hy ->
  delete hy (delete hx (<[hy := b]> (<[hx := x]> (∅ : gmap nat Z)))) = ∅.
Proof.
  intros Hne. rewrite delete_insert_ne by done. rewrite delete_insert_id; [apply drop_one|].
  by rewrite lookup_delete_ne, lookup_insert_ne.
Qed.

(** Copy block [x] over block [b] on the disk, through two buffers. *)
Lemma runs_install_block s l a w tail b (Q : unit -> lstate S -> Prop) :
  let x := start l + Z.of_nat tail + 1 in
  lrep s l a w -> idle a -> ldev l = ROOTDEV -> block l !! tail = Some b ->
  0 <= x < asize a -> 0 <= b < asize a -> x <> b -> (size (adirty a) < NBUF)%nat ->
  b ∈ adirty a \/ (Datatypes.S (size (adirty a)) < NBUF)%nat ->
  (forall s', lrep s' l (a_put b (aview a x) a) w -> Q tt s') ->
  runs (install_block tail) Q s.
Proof.
  intros x Hr Hidle Hdev Hb Hx Hbr Hne Hsz Hroom HQ. pose proof Hidle as [Hh0 Hha0].
  pose proof (idle_clean s l a w x Hr Hidle) as Hclean.
  assert (length (aview a x) = BSIZE) as Hlen by (destruct Hr as (_ & Hr & _); by eapply repr_view_length).
  unfold install_block. lstep. rewrite Hdev. fold x.
  lstep; [done | by rewrite Hh0; set_solver | by apply room_idle |].
  lstep; [done|]. lstep; [done | simpl; rewrite Hh0; set_solver | by apply room_second |].
  rename h into hx, h0 into hy. simpl in *. rewrite Hha0 in *.
  assert (hx <> hy) as Hxy by (intros ->; by rewrite lookup_insert_eq in *).
  lstep; [simpl; by rewrite lookup_insert_eq | erewrite lrep_data; [|eassumption|]; [done|];
    simpl; by rewrite lookup_insert_ne, lookup_insert_eq |].
  rewrite (lrep_data _ _ _ _ hx x) in * by (eassumption ||
    (simpl; by rewrite lookup_insert_ne, lookup_insert_eq)). simpl in *.
  lstep; [by simpl; rewrite lookup_insert_eq|].
  lstep; [simpl; by rewrite lookup_insert_ne, lookup_insert_eq | |].
  { simpl. rewrite !upd_ne by done. destruct Hclean; [left; set_solver | by right]. }
  lstep; [simpl; rewrite lookup_delete_ne by done; by rewrite lookup_insert_eq | |].
  { right. simpl. by rewrite !upd_eq. }
  apply HQ. eapply lrep_aeq; [eassumption|]. split; simpl; try done.
  - rewrite Hh0. set_solver.
  - by rewrite Hha0, drop_two.
  - intros b'. by rewrite (upd_eq (aview a)).
  - by rewrite upd_eq.
Qed.

Lemma runs_write_log_block s l a w tail b (Q : unit -> lstate S -> Prop) :
  let x := start l + Z.of_nat tail + 1 in
  lrep s l a w -> idle a -> ldev l = ROOTDEV -> block l !! tail = Some b ->
  0 <= x < asize a -> 0 <= b < asize a -> x <> b -> (size (adirty a) < NBUF)%nat ->
  b ∈ adirty a \/ (Datatypes.S (size (adirty a)) < NBUF)%nat ->
  (forall s', lrep s' l (a_put x (aview a b) a) w -> Q tt s') ->
  runs (write_log_block tail) Q s.
Proof.
  intros x Hr Hidle Hdev Hb Hx Hbr Hne Hsz Hroom HQ. pose proof Hidle as [Hh0 Hha0].
  pose proof (idle_clean s l a w b Hr Hidle) as Hclean.
  assert (length (aview a b) = BSIZE) as Hlen by (destruct Hr as (_ & Hr & _); by eapply repr_view_length).
  unfold write_log_block. lstep. rewrite Hdev. fold x.
  lstep; [done | by rewrite Hh0; set_solver | by apply room_idle |].
  lstep; [done|]. lstep; [done | simpl; rewrite Hh0; set_solver | by apply room_second |].
  rename h into hx, h0 into hy. simpl in *. rewrite Hha0 in *.
  assert (hx <> hy) as Hxy by (intros ->; by rewrite lookup_insert_eq in *).
  lstep; [simpl; by rewrite lookup_insert_ne, lookup_insert_eq | erewrite lrep_data;
    [|eassumption|]; [done|]; simpl; by rewrite lookup_insert_eq |].
  rewrite (lrep_data _ _ _ _ hy b) in * by (eassumption || (simpl; by rewrite lookup_insert_eq)).
  simpl in *.
  lstep; [simpl; by rewrite lookup_insert_ne, lookup_insert_eq|].
  lstep; [simpl; by rewrite lookup_insert_eq | |].
  { simpl. rewrite !upd_ne by done. destruct Hclean; [left; set_solver | by right]. }
  lstep; [simpl; rewrite lookup_delete_ne by done; by rewrite lookup_insert_ne, lookup_insert_eq | |].
  { right. simpl. by rewrite !upd_eq. }
  apply HQ. eapply lrep_aeq; [eassumption|]. split; simpl; try done.
  - rewrite Hh0. set_solver.
  - rewrite Hha0, insert_insert_ne by done. by rewrite drop_two.
  - intros b'. by rewrite (upd_eq (aview a)).
  - by rewrite upd_eq.
Qed.

(** The entries of the in-memory log. *)
Definition entries l : list Z := take (Z.to_nat (n l)) (block l).

Record log_ok l : Prop := {
  k_dev : ldev l = ROOTDEV;
  k_block : length (block l) = LOGSIZE;
  k_n : 0 <= n l <= Z.of_nat LOGSIZE
}.

Lemma length_entries l : log_ok l -> length (entries l) = Z.to_nat (n l).
Proof. intros [_ Hb Hn]. unfold entries. rewrite length_take. lia. Qed.

Lemma entries_lookup l i b : entries l !! i = Some b -> block l !! i = Some b.
Proof. unfold entries. by intros [? _]%lookup_take_Some. Qed.

Lemma put_entries_S es d i b : es !! i = Some b ->
  foldl (fun d i => put32 (4 + 4 * i) (nth i es 0) d) d (seq 0 (Datatypes.S i)) =
  put32 (4 + 4 * i) b (foldl (fun d i => put32 (4 + 4 * i) (nth i es 0) d) d (seq 0 i)).
Proof.
  intros Hi. rewrite seq_S, foldl_app. cbn [foldl]. rewrite Nat.add_0_l.
  by rewrite (nth_lookup_Some es i 0 b).
Qed.

(** The stores of [write_head] into the buffer it holds. *)
Lemma runs_store_entries s l a w h d (Q : unit -> lstate S -> Prop) :
  lrep s l (a_set (start l) d (a_take h (start l) a)) w -> log_ok l -> length d = BSIZE ->
  (forall s', lrep s' l (a_set (start l) (put_entries (entries l) d) (a_take h (start l) a)) w ->
              Q tt s') ->
  runs (for_entries (store_entry h)) Q s.
Proof.
  intros Hr Hok Hd HQ. set (es := entries l).
  set (I := fun i (s' : lstate S) => lrep s' l (a_set (start l)
    (foldl (fun d i => put32 (4 + 4 * i) (nth i es 0) d) d (seq 0 i)) (a_take h (start l) a)) w).
  unfold for_entries. lstep. apply (runs_for I); [done | |].
  - intros i s' Hi HI. assert (i < length es)%nat as [b Hb]%lookup_lt_is_Some_2.
    { unfold es. rewrite length_entries by done. lia. }
    unfold store_entry. lstep; [by apply entries_lookup|].
    lstep; [simpl; by rewrite lookup_insert_eq | |].
    + rewrite length_put32. erewrite lrep_data; [|exact HI|simpl; by rewrite lookup_insert_eq].
      simpl. by rewrite upd_eq, fold_puts_length.
    + eapply lrep_aeq; [eassumption|]. split; simpl; try done. intros b'.
      erewrite lrep_data; [|exact HI|simpl; by rewrite lookup_insert_eq]. simpl.
      rewrite upd_eq. rewrite <- (put_entries_S es d i b Hb). unfold upd. by case_decide.
  - intros s' HI. apply HQ. unfold put_entries. fold es.
    replace (length es) with (0 + Z.to_nat (n l))%nat; [done|].
    unfold es. by rewrite length_entries.
Qed.

Lemma runs_write_head s l a w (Q : unit -> lstate S -> Prop) :
  lrep s l a w -> idle a -> log_ok l -> 0 <= start l < asize a -> (size (adirty a) < NBUF)%nat ->
  (forall s', lrep s' l (a_put (start l) (put_head (entries l) (aview a (start l))) a) w -> Q tt s') ->
  runs write_head Q s.
Proof.
  intros Hr Hidle Hok Hst Hsz HQ. pose proof Hidle as [Hh0 Hha0].
  assert (length (aview a (start l)) = BSIZE) as Hlen
    by (destruct Hr as (_ & Hr & _); by eapply repr_view_length).
  unfold write_head. lstep. rewrite (k_dev _ Hok).
  lstep; [done | by rewrite Hh0; set_solver | by apply room_idle |]. simpl in *. rewrite Hha0 in *.
  assert (bdata (bc s0) h = aview a (start l)) as Hda.
  { erewrite lrep_data; [|eassumption|simpl; by rewrite lookup_insert_eq]. done. }
  lstep; [simpl; by rewrite lookup_insert_eq | by rewrite length_put32, Hda |].
  rewrite Hda in *. apply runs_bind. eapply runs_store_entries; [eassumption | done |
    by rewrite length_put32 |]. intros s2 Hr2.
  replace (u32 (n l)) with (Z.of_nat (length (entries l))) in Hr2.
  2: { rewrite length_entries by done. pose proof (k_n _ Hok) as Hn. rewrite u32_small; [lia|].
       unfold LOGSIZE, MAXOPBLOCKS in Hn. lia. }
  fold (put_head (entries l) (aview a (start l))) in Hr2.
  lstep; [simpl; by rewrite lookup_insert_eq|].
  lstep; [simpl; by rewrite lookup_insert_eq | right; simpl; by rewrite !upd_eq |].
  apply HQ. eapply lrep_aeq; [eassumption|]. split; simpl; try done.
  - rewrite Hh0. set_solver.
  - by rewrite Hha0, drop_one.
  - intros b'. by rewrite (upd_eq (aview a)).
  - by rewrite upd_eq.
Qed.

(** The cache has buffers for copying the blocks [es] one at a time. *)
Definition copy_room (es : list Z) a : Prop :=
  (size (adirty a) < NBUF)%nat /\
  (Forall (fun b => b ∈ adirty a) es \/ (Datatypes.S (size (adirty a)) < NBUF)%nat).

Lemma a_puts_size ws a : (size (adirty (a_puts ws a)) <= size (adirty a))%nat.
Proof. apply subseteq_size. rewrite a_puts_dirty. set_solver. Qed.

Lemma copy_room_at es a ws i b : copy_room es a -> es !! i = Some b -> b ∉ ws.*1 ->
  (size (adirty (a_puts ws a)) < NBUF)%nat /\
  (b ∈ adirty (a_puts ws a) \/ (Datatypes.S (size (adirty (a_puts ws a))) < NBUF)%nat).
Proof.
  intros [Hsz Hor] Hi Hni. pose proof (a_puts_size ws a). split; [lia|].
  destruct Hor as [Hd|Hlt]; [left|right; lia]. rewrite a_puts_dirty.
  eapply Forall_lookup_1 in Hd; [|done]. apply elem_of_difference. split; [done|].
  by rewrite elem_of_list_to_set.
Qed.

Lemma take_S_lookup {A} (l : list A) i x : l !! i = Some x -> take (Datatypes.S i) l = take i l ++ [x].
Proof. apply take_S_r. Qed.

Lemma a_puts_S ws i x a : ws !! i = Some x ->
  a_puts (take (Datatypes.S i) ws) a = a_put x.1 x.2 (a_puts (take i ws) a).
Proof. intros Hi. by rewrite (take_S_lookup _ _ _ Hi), a_puts_app. Qed.

Section loops.
Context (s : lstate S) (l : log) (a : acache) (w : list kaddr).
Context (Hr : lrep s l a w) (Hidle : idle a) (Hok : log_ok l).
Context (Hplace : place_ok (start l) (asize a)).
Context (Hes : entries_ok (start l) (asize a) (entries l)).
Context (Hroom : copy_room (entries l) a).

Lemma entry_facts i b : entries l !! i = Some b ->
  let x := start l + Z.of_nat i + 1 in
  0 <= x < asize a /\ start l <= x < start l + Z.of_nat LOGSIZE /\ 0 <= b < asize a /\ x <> b.
Proof.
  intros Hi x. destruct Hes as (_ & Hh & Hl). pose proof (lookup_lt_Some _ _ _ Hi).
  eapply Forall_lookup_1 in Hh as [Hb Hn]; [|done]. destruct Hplace. unfold x.
  split_and!; try lia.
Qed.

Lemma runs_install_trans (Q : unit -> lstate S -> Prop) :
  (forall s', lrep s' l (a_puts (home_writes (aview a) (start l) (entries l)) a) w -> Q tt s') ->
  runs install_trans Q s.
Proof.
  intros HQ. set (es := entries l) in *. set (hw := home_writes (aview a) (start l) es) in *.
  unfold install_trans, for_entries. lstep.
  apply (runs_for (fun i s' => lrep s' l (a_puts (take i hw) a) w)); [done | |].
  - intros i s' Hi HI. assert (i < length es)%nat as [b Hb]%lookup_lt_is_Some_2.
    { unfold es. rewrite length_entries by done. lia. }
    pose proof (home_writes_lookup (aview a) (start l) es i b Hb) as Hw. fold hw in Hw.
    destruct (entry_facts i b Hb) as (Hx & Hxl & Hbr & Hne).
    destruct Hes as (Hnd & Hh & Hl).
    assert (b ∉ (take i hw).*1) as Hni.
    { unfold hw. rewrite fmap_take, home_writes_keys. intros (j & Hj & Hji)%elem_of_take.
      assert (i = j) by (by eapply NoDup_lookup). lia. }
    destruct (copy_room_at es a (take i hw) i b Hroom Hb Hni) as [R1 R2].
    assert (asize (a_puts (take i hw) a) = asize a) as Esz by apply a_puts_rest.
    eapply runs_install_block; [done | by apply idle_puts | apply Hok | by apply entries_lookup |
      by rewrite Esz | by rewrite Esz | done | done | done |].
    intros s2 Hr2. rewrite (a_puts_S _ _ _ _ Hw). simpl.
    rewrite a_puts_view, apply_writes_notin in Hr2; [done|].
    unfold hw. rewrite fmap_take, home_writes_keys. intros (j & Hj & _)%elem_of_take.
    eapply Forall_lookup_1 in Hh as [_ Hn]; [|exact Hj]. by apply Hn.
  - intros s' HI. apply HQ. rewrite take_ge in HI; [done|].
    unfold hw. rewrite length_home_writes. unfold es. rewrite length_entries by done. lia.
Qed.

Lemma runs_write_log (Q : unit -> lstate S -> Prop) :
  (forall s', lrep s' l (a_puts (log_writes (aview a) (start l) (entries l)) a) w -> Q tt s') ->
  runs write_log Q s.
Proof.
  intros HQ. set (es := entries l) in *. set (lw := log_writes (aview a) (start l) es) in *.
  unfold write_log, for_entries. lstep.
  apply (runs_for (fun i s' => lrep s' l (a_puts (take i lw) a) w)); [done | |].
  - intros i s' Hi HI. assert (i < length es)%nat as [b Hb]%lookup_lt_is_Some_2.
    { unfold es. rewrite length_entries by done. lia. }
    pose proof (log_writes_lookup (aview a) (start l) es i b Hb) as Hw. fold lw in Hw.
    destruct (entry_facts i b Hb) as (Hx & Hxl & Hbr & Hne).
    destruct Hes as (Hnd & Hh & Hl).
    assert (b ∉ (take i lw).*1) as Hni.
    { intros (j & _ & Hj & E)%log_writes_keys.
      eapply Forall_lookup_1 in Hh as [_ Hn]; [|exact Hb]. apply Hn. lia. }
    destruct (copy_room_at es a (take i lw) i b Hroom Hb Hni) as [R1 R2].
    assert (asize (a_puts (take i lw) a) = asize a) as Esz by apply a_puts_rest.
    eapply runs_write_log_block; [done | by apply idle_puts | apply Hok | by apply entries_lookup |
      by rewrite Esz | by rewrite Esz | done | done | done |].
    intros s2 Hr2. rewrite (a_puts_S _ _ _ _ Hw). simpl.
    by rewrite a_puts_view, apply_writes_notin in Hr2.
  - intros s' HI. apply HQ. rewrite take_ge in HI; [done|].
    unfold lw. rewrite length_log_writes. unfold es. rewrite length_entries by done. lia.
Qed.
End loops.

(** ** Reading the header *)

Definition load_entries (d : list Z) (m : nat) (bl : list Z) : list Z :=
  foldl (fun bl i => <[i := get32 d (4 + 4 * i)]> bl) bl (seq 0 m).

Lemma load_entries_S d m bl :
  load_entries d (Datatypes.S m) bl = <[m := get32 d (4 + 4 * m)]> (load_entries d m bl).
Proof. unfold load_entries. by rewrite seq_S, foldl_app. Qed.

Lemma length_load_entries d m bl : length (load_entries d m bl) = length bl.
Proof. induction m as [|m IH]; [done|]. by rewrite load_entries_S, length_insert. Qed.

Lemma take_load_entries d m bl : (m <= length bl)%nat ->
  take m (load_entries d m bl) = (fun i => get32 d (4 + 4 * i)) <$> seq 0 m.
Proof.
  induction m as [|m IH]; intros Hm; [done|].
  rewrite load_entries_S, seq_S, fmap_app. rewrite <- IH by lia.
  rewrite (take_S_lookup _ m (get32 d (4 + 4 * m))).
  - by rewrite take_insert_ge by lia.
  - rewrite list_lookup_insert_eq; [done|]. rewrite length_load_entries. lia.
Qed.

(** The log after [read_head] has read the header block [d]. *)
Definition loaded (d : list Z) l : log :=
  let k := i32 (get32 d 0) in
  set_block (load_entries d (Z.to_nat k) (block l)) (set_n k l).

Lemma runs_load_entries s l a w d (Q : unit -> lstate S -> Prop) :
  lrep s l a w -> length (block l) = LOGSIZE -> n l <= Z.of_nat LOGSIZE ->
  (forall s', lrep s' (set_block (load_entries d (Z.to_nat (n l)) (block l)) l) a w -> Q tt s') ->
  runs (for_entries (load_entry d)) Q s.
Proof.
  intros Hr Hlen Hn HQ. unfold for_entries. lstep.
  apply (runs_for (fun i s' => lrep s' (set_block (load_entries d i (block l)) l) a w)).
  - by destruct l.
  - intros i s' Hi HI. unfold load_entry. rewrite decide_True by lia.
    lstep. by rewrite load_entries_S.
  - intros s' HI. by apply HQ.
Qed.

Lemma runs_read_head s l a w (Q : unit -> lstate S -> Prop) :
  let d := aview a (start l) in
  lrep s l a w -> idle a -> ldev l = ROOTDEV -> length (block l) = LOGSIZE ->
  0 <= start l < asize a -> (size (adirty a) < NBUF)%nat -> i32 (get32 d 0) <= Z.of_nat LOGSIZE ->
  (forall s', lrep s' (loaded d l) a w -> Q tt s') ->
  runs read_head Q s.
Proof.
  intros d Hr Hidle Hdev Hlen Hst Hsz Hn HQ. pose proof Hidle as [Hh0 Hha0].
  pose proof (idle_clean s l a w (start l) Hr Hidle) as Hclean.
  unfold read_head. lstep. rewrite Hdev.
  lstep; [done | by rewrite Hh0; set_solver | by apply room_idle |]. simpl in *. rewrite Hha0 in *.
  lstep. erewrite lrep_data; [|eassumption|simpl; by rewrite lookup_insert_eq]. simpl. fold d.
  lstep. apply runs_bind. eapply runs_load_entries; [eassumption | done | done |].
  intros s2 Hr2. lstep; [simpl; by rewrite lookup_insert_eq | done |].
  apply HQ. eapply lrep_aeq; [eassumption|]. split; simpl; try done.
  - rewrite Hh0. set_solver.
  - by rewrite Hha0, drop_one.
Qed.

Lemma loaded_ok d l : ldev l = ROOTDEV -> length (block l) = LOGSIZE ->
  0 <= i32 (get32 d 0) <= Z.of_nat LOGSIZE ->
  log_ok (loaded d l) /\
  entries (loaded d l) = (fun i => get32 d (4 + 4 * i)) <$> seq 0 (Z.to_nat (i32 (get32 d 0))).
Proof.
  intros Hdev Hlen Hn. split.
  - split; simpl; [done | by rewrite length_load_entries | done].
  - unfold entries. simpl. apply take_load_entries. rewrite Hlen. lia.
Qed.

(** ** Recovery *)

(** The writes of [recover_from_log] on the disk [D]. *)
Definition recovery_writes (st : Z) (D : disk_t) : list (Z * list Z) :=
  home_writes D st (head_entries D st) ++ [(st, put_head [] (D st))].

Lemma not_home_start st sz : ~ home st sz st.
Proof. intros [_ Hn]. apply Hn. unfold LOGSIZE, MAXOPBLOCKS. lia. Qed.

(** Installing the log and clearing its header, as recovery and [sync] do. *)
Definition clear_writes (st : Z) (v : disk_t) (es : list Z) : list (Z * list Z) :=
  home_writes v st es ++ [(st, put_head [] (v st))].

Lemma runs_install_clear s l a w (Q : unit -> lstate S -> Prop) :
  lrep s l a w -> idle a -> log_ok l -> place_ok (start l) (asize a) ->
  entries_ok (start l) (asize a) (entries l) -> copy_room (entries l) a ->
  (forall s', lrep s' (set_n 0 l) (a_puts (clear_writes (start l) (aview a) (entries l)) a) w ->
     Q tt s') ->
  runs install_trans (fun _ => runs (updl (set_n 0)) (fun _ => runs write_head Q)) s.
Proof.
  intros Hr Hidle Hok Hplace Hes Hroom HQ.
  eapply runs_install_trans; [done..|]. intros s2 Hr2. lstep.
  set (hw := home_writes (aview a) (start l) (entries l)) in *.
  eapply runs_write_head; [eassumption | by apply idle_puts | | | |].
  - split; simpl; [apply Hok | apply Hok | lia].
  - destruct (a_puts_rest hw a) as (_ & _ & ->). simpl.
    destruct Hplace. unfold LOGSIZE, MAXOPBLOCKS in *. lia.
  - pose proof (a_puts_size hw a). destruct Hroom. lia.
  - intros s3 Hr3. apply HQ. unfold clear_writes. rewrite a_puts_app. simpl in *.
    change (entries (set_n 0 l)) with (@nil Z) in Hr3.
    rewrite a_puts_view, apply_writes_notin in Hr3; [done|].
    unfold hw. rewrite home_writes_keys. intros Hin. destruct Hes as (_ & Hh & _).
    rewrite Forall_forall in Hh. by apply (not_home_start (start l) (asize a)), Hh.
Qed.

Lemma runs_recover s l a w (Q : unit -> lstate S -> Prop) :
  lrep s l a w -> idle a -> adirty a = ∅ -> ldev l = ROOTDEV -> length (block l) = LOGSIZE ->
  place_ok (start l) (asize a) -> head_ok (start l) (asize a) (adisk a) ->
  (forall s' l', lrep s' l' (a_puts (recovery_writes (start l) (adisk a)) a) w ->
     log_ok l' -> entries l' = [] -> l' = set_block (block l') (set_n 0 l) -> Q tt s') ->
  runs recover_from_log Q s.
Proof.
  intros Hr Hidle Hdirty Hdev Hlen Hplace (Hn & Hes) HQ.
  assert (forall b, aview a b = adisk a b) as Hv.
  { intros b. destruct (idle_clean s l a w b Hr Hidle); [set_solver | done]. }
  assert (0 <= start l < asize a) as Hst.
  { destruct Hplace. unfold LOGSIZE, MAXOPBLOCKS in *. lia. }
  assert (size (adirty a) = 0)%nat as Hsz by (by rewrite Hdirty, size_empty).
  assert (head_n (adisk a) (start l) < Z.of_nat LOGSIZE) as Hn'.
  { destruct Hes as (_ & _ & Hl). unfold head_entries in Hl. rewrite length_fmap, length_seq in Hl.
    lia. }
  unfold head_n in *. rewrite <- Hv in Hn, Hn'.
  unfold recover_from_log. apply runs_bind.
  eapply runs_read_head; [done..| unfold NBUF; lia | lia |]. intros s1 Hr1.
  set (l1 := loaded (aview a (start l)) l) in *.
  destruct (loaded_ok (aview a (start l)) l Hdev Hlen) as [Hok1 He1]; [lia|]. fold l1 in Hok1, He1.
  assert (entries l1 = head_entries (adisk a) (start l)) as He.
  { rewrite He1. unfold head_entries, head_n. by rewrite Hv. }
  apply runs_bind. eapply runs_mono.
  { eapply runs_install_clear; [done | done | done | done | by rewrite He | |].
    - split; [unfold NBUF; lia|right; unfold NBUF; lia].
    - intros s' Hr'. eapply (HQ s' (set_n 0 l1)); [|split; simpl; [done | apply Hok1 |
        unfold LOGSIZE, MAXOPBLOCKS; lia] | done | done].
      replace (recovery_writes (start l) (adisk a))
        with (clear_writes (start l1) (aview a) (entries l1)); [done|].
      unfold clear_writes, recovery_writes. rewrite He, Hv. f_equal. apply imap_ext.
      intros. by rewrite Hv. }
  intros [] s' Hs'. by apply runs_bind.
Qed.

(** ** Commit and sync *)

Lemma runs_commit s l a w (Q : unit -> lstate S -> Prop) :
  lrep s l a w -> idle a -> log_ok l -> place_ok (start l) (asize a) ->
  entries_ok (start l) (asize a) (entries l) -> copy_room (entries l) a ->
  aview a (start l) = adisk a (start l) ->
  (forall s', lrep s' l
     (if decide (0 < n l)
      then a_puts (commit_writes (start l) (adisk a) (aview a) (entries l)) a else a) w -> Q tt s') ->
  runs commit Q s.
Proof.
  intros Hr Hidle Hok Hplace Hes Hroom Hv HQ. unfold commit. lstep. case_decide as Hn.
  2: { by apply runs_ret, HQ. }
  apply runs_bind. eapply runs_write_log; [done..|]. intros s1 Hr1.
  set (lw := log_writes (aview a) (start l) (entries l)) in *.
  eapply runs_write_head; [eassumption | by apply idle_puts | done | | |].
  - destruct (a_puts_rest lw a) as (_ & _ & ->).
    destruct Hplace. unfold LOGSIZE, MAXOPBLOCKS in *. lia.
  - pose proof (a_puts_size lw a). destruct Hroom. lia.
  - intros s2 Hr2. apply HQ. unfold commit_writes. rewrite a_puts_app. simpl. fold lw.
    rewrite a_puts_view, apply_writes_notin, Hv in Hr2; [done|].
    unfold lw. rewrite <- (take_ge (log_writes _ _ _) (length (entries l)))
      by (by rewrite length_log_writes).
    intros (i & _ & _ & E)%log_writes_keys. lia.
Qed.

Lemma runs_sync s l a w (Q : Z -> lstate S -> Prop) :
  lrep s l a w -> n l = Z.of_nat LOGSIZE - 1 -> idle a -> log_ok l -> place_ok (start l) (asize a) ->
  entries_ok (start l) (asize a) (entries l) -> copy_room (entries l) a ->
  (forall s', lrep s' (set_n 0 l) (a_puts (clear_writes (start l) (aview a) (entries l)) a) w ->
     Q 0 s') ->
  runs sync Q s.
Proof.
  intros Hr Hn Hidle Hok Hplace Hes Hroom HQ. unfold sync. lstep.
  rewrite !decide_False by lia. apply runs_bind. eapply runs_mono.
  { eapply (runs_install_clear _ _ _ _ (fun _ s' => Q 0 s')); done. }
  intros [] s1 H1. apply runs_bind. eapply runs_mono; [exact H1|].
  intros [] s2 H2. apply runs_bind. eapply runs_mono; [exact H2|].
  intros [] s3 H3. by apply runs_ret.
Qed.

Lemma sync_rejects s l a w : lrep s l a w -> n l <> Z.of_nat LOGSIZE - 1 -> sync s = Ret (-1) s.
Proof.
  intros (<- & _) Hn. unfold sync, bind, gets, ret.
  destruct (decide (n (lg s) < Z.of_nat LOGSIZE - 1)); [done|].
  by rewrite decide_True by lia.
Qed.
End run.
