(* ===== verification/LogTxn.v ===== *)
(** Transactions: [begin_op], block updates through [log_write], [end_op].

    [linv] is the state of the log between system calls: every logged block is
    pinned in the cache and has its committed contents in the log on the disk,
    so that recovering the disk gives what the cache shows.  A transaction that
    fits the log runs to completion and re-establishes [linv]. *)

From S2P Require Import Prelude Bytes BlockCache BlockClient FsLayout Log LogDisk LogRun.
Import Log.

Section txn.
Context {S : Type} `{BufSpec S}.
Implicit Types (s : lstate S) (l : log) (a : acache) (w : list kaddr).

(** Logging block [b]: log absorption. *)
Definition add_entry (es : list Z) (b : Z) : list Z :=
  if decide (b ∈ es) then es else es ++ [b].

Lemma absorb_spec es b :
  (absorb es b <= length es)%nat /\
  (b ∈ es -> (absorb es b < length es)%nat /\ es !! absorb es b = Some b) /\
  (b ∉ es -> absorb es b = length es).
Proof.
  induction es as [|x es (I1 & I2 & I3)]; simpl.
  - split_and!; [lia | by intros ?%elem_of_nil | done].
  - case_decide as Hx; subst; split_and!; try lia; intros Hb.
    + split; [lia | done].
    + set_solver.
    + apply elem_of_cons in Hb as [->|Hb]; [done|]. apply I2 in Hb as [??]. split; [lia | done].
    + rewrite I3; [done | set_solver].
Qed.

(** What [log_write] does to the log. *)
Definition logged (b : Z) l : log :=
  if decide (b ∈ entries l) then l
  else set_full (full l || bool_decide (n l + 1 = Z.of_nat LOGSIZE - 1))
         (set_n (n l + 1) (set_block (<[Z.to_nat (n l) := b]> (block l)) l)).

Lemma entries_logged l b : log_ok l -> n l < Z.of_nat LOGSIZE ->
  entries (logged b l) = add_entry (entries l) b /\ log_ok (logged b l).
Proof.
  intros Hok Hn. pose proof Hok as [Hd Hb Hn']. unfold logged, add_entry. case_decide; [done|].
  split.
  - unfold entries. simpl. rewrite Z2Nat.inj_add by lia. rewrite Nat.add_1_r.
    rewrite (take_S_lookup _ _ b).
    + by rewrite take_insert_ge by lia.
    + rewrite list_lookup_insert_eq; [done|]. lia.
  - split; simpl; [done | by rewrite length_insert | lia].
Qed.

Lemma relock_same l i b : llocked l = false -> block l !! i = Some b ->
  set_llocked false (set_block (<[i := b]> (block (set_llocked true l))) (set_llocked true l)) = l.
Proof. intros Hl E. simpl. rewrite list_insert_id by done. by destruct l; simpl in *; subst. Qed.

Lemma runs_log_write s l a w h b (Q : unit -> lstate S -> Prop) :
  lrep s l a w -> log_ok l -> ahandle a !! h = Some b -> llocked l = false ->
  n l < Z.of_nat LOGSIZE -> 1 <= outstanding l ->
  (forall s', lrep s' (logged b l) (a_pin b a) w -> Q tt s') ->
  runs (log_write h) Q s.
Proof.
  intros Hr Hok Hh Hl Hn Ho HQ. unfold log_write. lstep. rewrite !decide_False by lia.
  lstep; [done|]. lstep. cbn [n block set_llocked]. lstep.
  match goal with HR : lrep ?x _ _ _ |- runs _ _ ?x =>
    rewrite (repr_blockno _ _ _ b (proj1 (proj2 HR)) Hh) end.
  destruct (absorb_spec (entries l) b) as (A1 & A2 & A3). fold (entries l).
  rewrite length_entries in * by done. pose proof (k_n l Hok).
  lstep. unfold logged in HQ. destruct (decide (b ∈ entries l)) as [Hin|Hni].
  - destruct (A2 Hin) as [Hlt Hat]. rewrite (decide_False (P := Z.of_nat _ = _)) by lia.
    lstep. lstep; [done|]. lstep; [done|]. apply HQ.
    match goal with HR : lrep ?x (set_llocked false _) _ _ |- lrep ?x _ _ _ =>
      cbv beta in HR; by rewrite relock_same in HR by (done || by apply entries_lookup) end.
  - rewrite (A3 Hni) in *. rewrite (decide_True (P := Z.of_nat _ = _)) by lia.
    apply runs_bind. lstep. lstep. simpl.
    destruct (decide (n l + 1 = Z.of_nat LOGSIZE - 1)) as [Hfull|Hfull].
    + lstep. lstep; [done|]. lstep; [done|]. apply HQ.
      rewrite bool_decide_true by done. rewrite orb_true_r. by destruct l; simpl in *; subst.
    + lstep. lstep; [done|]. lstep; [done|]. apply HQ.
      rewrite bool_decide_false by done. rewrite orb_false_r. by destruct l; simpl in *; subst.
Qed.

(** ** Between system calls *)

Record linv l a : Prop := {
  i_idle : idle a;
  i_ok : log_ok l;
  i_place : place_ok (start l) (asize a);
  i_unlocked : llocked l = false;
  i_quiet : committing l = false;
  i_out : outstanding l = 0;
  i_es : entries_ok (start l) (asize a) (entries l);
  i_dirty : adirty a = list_to_set (entries l);
  i_small : n l < Z.of_nat LOGSIZE - 1;
  i_headn : head_n (adisk a) (start l) = n l;
  i_head : head_entries (adisk a) (start l) = entries l;
  i_logged : forall i b, entries l !! i = Some b ->
    adisk a (start l + Z.of_nat i + 1) = aview a b
}.

(** What the cache shows is what recovery would restore. *)
Definition durable l a : Prop :=
  forall b, home (start l) (asize a) b -> recovered (start l) (adisk a) b = aview a b.

Lemma linv_durable s l a w : lrep s l a w -> linv l a -> durable l a.
Proof.
  intros Hr [Hidle Hok Hpl _ _ _ (Hnd & _) Hd _ _ Hh Hl] b Hb.
  destruct (decide (b ∈ entries l)) as [[i Hi]%list_elem_of_lookup|Hni].
  - rewrite (recovered_in _ _ i b) by (by rewrite Hh). by apply Hl.
  - rewrite recovered_out by (by rewrite Hh). symmetry.
    destruct (idle_clean s l a w b Hr Hidle) as [Hc|]; [|done].
    by rewrite Hd, elem_of_list_to_set in Hc.
Qed.

(** Inside the only transaction: the disk is still [D0], where the entries
    [es0] are committed. *)
Record tinv (es0 : list Z) (D0 : disk_t) l a : Prop := {
  t_idle : idle a;
  t_ok : log_ok l;
  t_place : place_ok (start l) (asize a);
  t_unlocked : llocked l = false;
  t_quiet : committing l = false;
  t_out : outstanding l = 1;
  t_es : entries_ok (start l) (asize a) (entries l);
  t_dirty : adirty a = list_to_set (entries l);
  t_full : n l = Z.of_nat LOGSIZE - 1 -> full l = true;
  t_pre : es0 `prefix_of` entries l;
  t_disk : adisk a = D0;
  t_headn : 0 <= head_n D0 (start l) <= n l;
  t_head : head_entries D0 (start l) = es0
}.

Lemma runs_begin_op s l a w (Q : segment unit unit -> lstate S -> Prop) :
  lrep s l a w -> llocked l = false -> committing l = false -> n l <= Z.of_nat LOGSIZE - 1 ->
  (forall s', lrep s' (set_outstanding (outstanding l + 1) l) a w -> Q (Done tt) s') ->
  runs begin_op Q s.
Proof.
  intros Hr Hl Hc Hn HQ. unfold begin_op. lstep; [done|]. lstep. simpl. rewrite Hc.
  rewrite decide_False by lia. lstep. lstep; [done|]. lstep. apply HQ.
  by destruct l; simpl in *; subst.
Qed.

Lemma begin_tinv l a : linv l a ->
  tinv (entries l) (adisk a) (set_outstanding (outstanding l + 1) l) a.
Proof.
  intros [Hidle Hok Hpl Hul Hq Ho Hes Hd Hs Hhn Hh Hlg]. destruct Hok as [K1 K2 K3].
  split; simpl; try done; try lia.
Qed.

(** ** Updating a block *)

(** [bp = bread(b); bp->data = d; log_write(bp); brelse(bp)] *)
Definition write_block (u : Z * list Z) : M (lstate S) unit :=
  let! bp := cache (bread ROOTDEV u.1) in
  cache (modify (fun c => bset bp u.2 c)) ;;;
  log_write bp ;;;
  cache (brelse bp).

(** The abstract cache after it. *)
Definition a_update (u : Z * list Z) a : acache :=
  ACache (aheld a) ({[u.1]} ∪ adirty a) (ahandle a) (asize a) (adisk a) (atrace a)
         (upd (aview a) u.1 u.2).

Lemma runs_write_block s l a w b d (Q : unit -> lstate S -> Prop) :
  lrep s l a w -> idle a -> log_ok l -> 0 <= b < asize a -> length d = BSIZE ->
  llocked l = false -> n l < Z.of_nat LOGSIZE -> 1 <= outstanding l -> room b a ->
  (forall s', lrep s' (logged b l) (a_update (b, d) a) w -> Q tt s') ->
  runs (write_block (b, d)) Q s.
Proof.
  intros Hr Hidle Hok Hb Hd Hl Hn Ho Hroom HQ. pose proof Hidle as [Hh0 Hha0].
  unfold write_block. lstep; [done | by rewrite Hh0; set_solver | done |].
  simpl in *. rewrite Hha0 in *. lstep; [simpl; by rewrite lookup_insert_eq | done |].
  apply runs_bind. eapply runs_log_write; [eassumption | done | simpl; by rewrite lookup_insert_eq |
    done | done | done |]. intros s2 Hr2.
  lstep; [simpl; by rewrite lookup_insert_eq | left; simpl; set_solver |].
  apply HQ. eapply lrep_aeq; [eassumption|]. split; simpl; try done.
  - rewrite Hh0. set_solver.
  - by rewrite Hha0, drop_one.
Qed.

Lemma prefix_snoc {A} (l1 l2 : list A) x : l1 `prefix_of` l2 -> l1 `prefix_of` l2 ++ [x].
Proof. intros [k ->]. exists (k ++ [x]). by rewrite app_assoc. Qed.

Lemma logged_frame b l : start (logged b l) = start l /\ llocked (logged b l) = llocked l /\
  committing (logged b l) = committing l /\ outstanding (logged b l) = outstanding l /\
  n l <= n (logged b l) /\
  (n (logged b l) = Z.of_nat LOGSIZE - 1 -> n l <> Z.of_nat LOGSIZE - 1 -> full (logged b l) = true) /\
  (full l = true -> full (logged b l) = true).
Proof.
  unfold logged. case_decide; simpl; split_and!; try done; try lia.
  - intros E _. rewrite bool_decide_true by done. apply orb_true_r.
  - by intros ->.
Qed.

Lemma update_tinv es0 D0 l a b d : tinv es0 D0 l a -> home (start l) (asize a) b ->
  (length (add_entry (entries l) b) < LOGSIZE)%nat ->
  tinv es0 D0 (logged b l) (a_update (b, d) a).
Proof.
  intros [T1 T2 T3 T4 T5 T6 (Hnd & Hh & Hl) T8 T9 T10 T11 T12 T13] Hb Hlen.
  destruct (entries_logged l b T2) as [Ee Hok].
  { pose proof (length_entries l T2). destruct (k_n l T2). lia. }
  destruct (logged_frame b l) as (F1 & F2 & F3 & F4 & F5 & F6 & F7).
  split; rewrite ?F1, ?F2, ?F3, ?F4, ?Ee; simpl; try done; try lia.
  - split_and!; [| |done]; unfold add_entry; case_decide; try done.
    + apply NoDup_app. split_and!; [done | set_solver | apply NoDup_singleton].
    + apply Forall_app. split; [done|]. by apply Forall_singleton.
  - rewrite T8. unfold add_entry. case_decide; set_solver.
  - intros E. destruct (decide (n l = Z.of_nat LOGSIZE - 1)); auto.
  - unfold add_entry. case_decide; [done|]. by apply prefix_snoc.
Qed.

Definition add_entries (es : list Z) (bs : list Z) : list Z := foldl add_entry es bs.
Definition a_updates (ups : list (Z * list Z)) a : acache := foldl (fun a u => a_update u a) a ups.

Lemma add_entries_length es bs : (length es <= length (add_entries es bs))%nat.
Proof.
  revert es. induction bs as [|b bs IH]; intros es; [done|]. simpl.
  etransitivity; [|apply IH]. unfold add_entry. case_decide; rewrite ?length_app; lia.
Qed.

Definition update_ok (st sz : Z) (u : Z * list Z) : Prop :=
  home st sz u.1 /\ length u.2 = BSIZE.

Lemma dirty_size es a : NoDup es -> adirty a = list_to_set es -> size (adirty a) = length es.
Proof. intros Hnd ->. by apply size_list_to_set. Qed.

Lemma runs_updates es0 D0 ups s l a w (Q : unit -> lstate S -> Prop) :
  lrep s l a w -> tinv es0 D0 l a -> Forall (update_ok (start l) (asize a)) ups ->
  (length (add_entries (entries l) ups.*1) < LOGSIZE)%nat ->
  (forall s' l', lrep s' l' (a_updates ups a) w -> tinv es0 D0 l' (a_updates ups a) ->
     start l' = start l -> entries l' = add_entries (entries l) ups.*1 -> Q tt s') ->
  runs (forM ups write_block) Q s.
Proof.
  revert s l a. induction ups as [|[b d] ups IH]; intros s l a Hr Ht Hu Hlen HQ; simpl.
  { apply runs_ret. by apply (HQ s l). }
  apply Forall_cons in Hu as [[Hb Hd] Hu]. simpl in Hb, Hd.
  change (length (add_entries (add_entry (entries l) b) ups.*1) < LOGSIZE)%nat in Hlen.
  pose proof (add_entries_length (add_entry (entries l) b) ups.*1) as Hmono.
  pose proof Ht as [T1 T2 T3 T4 T5 T6 (Hnd & Hh & Hl) T8 T9 T10 T11 T12 T13].
  pose proof (length_entries l T2) as Hle. pose proof (k_n l T2).
  apply runs_bind. eapply (runs_write_block s l a w b d); try done; try lia.
  { by destruct Hb. }
  { apply room_idle; [done|]. rewrite (dirty_size _ _ Hnd T8). unfold NBUF, LOGSIZE, MAXOPBLOCKS in *. lia. }
  intros s1 Hr1. destruct (logged_frame b l) as (F1 & _).
  destruct (entries_logged l b T2) as [Ee _]; [lia|].
  eapply IH; [done | apply update_tinv; [done | done | lia] | by rewrite F1 | by rewrite Ee |].
  intros s' l' Hr' Ht' Es Ent. apply (HQ s' l'); try done; [by rewrite Es | by rewrite Ent, Ee].
Qed.

(** ** The end of a transaction *)

Lemma commit_keys_home sz v st es D b : place_ok st sz -> (length es < LOGSIZE)%nat -> home st sz b ->
  b ∉ (commit_writes st D v es).*1.
Proof.
  intros Hpl Hlen [_ Hb]. unfold commit_writes. rewrite fmap_app. simpl.
  rewrite <- (take_ge (log_writes v st es) (length es)) by (by rewrite length_log_writes).
  intros [(i & _ & Hi & ->)%log_writes_keys| ->%list_elem_of_singleton]%elem_of_app; apply Hb; lia.
Qed.

Section finish.
Context (es0 : list Z) (D0 : disk_t) (s : lstate S) (l : log) (a : acache) (w : list kaddr).
Context (Hr : lrep s l a w) (Ht : tinv es0 D0 l a).

(** The abstract cache after [commit]. *)
Definition a_commit : acache :=
  if decide (0 < n l)
  then a_puts (commit_writes (start l) (adisk a) (aview a) (entries l)) a else a.

Lemma tinv_room : copy_room (entries l) a.
Proof.
  destruct Ht as [T1 T2 T3 T4 T5 T6 (Hnd & Hh & Hl) T8 T9 T10 T11 T12 T13].
  rewrite <- (dirty_size _ _ Hnd T8) in Hl. split; [unfold NBUF, LOGSIZE, MAXOPBLOCKS in *; lia|].
  left. apply Forall_forall. intros b Hb. by rewrite T8, elem_of_list_to_set.
Qed.

Lemma tinv_clean b : b ∉ entries l -> aview a b = adisk a b.
Proof.
  intros Hb. destruct (idle_clean s l a w b Hr (t_idle _ _ _ _ Ht)) as [Hd|]; [|done].
  by rewrite (t_dirty _ _ _ _ Ht), elem_of_list_to_set in Hd.
Qed.

Lemma start_not_entry : start l ∉ entries l.
Proof.
  intros Hin. destruct (t_es _ _ _ _ Ht) as (_ & Hh & _). rewrite Forall_forall in Hh.
  by apply (not_home_start (start l) (asize a)), Hh.
Qed.

Lemma a_commit_frame : idle a_commit /\ asize a_commit = asize a /\ adirty a_commit = adirty a /\
  (forall b, home (start l) (asize a) b -> aview a_commit b = aview a b).
Proof.
  destruct Ht as [T1 T2 T3 T4 T5 T6 (Hnd & Hh & Hl) T8 T9 T10 T11 T12 T13].
  unfold a_commit. case_decide; [|done]. split_and!; [by apply idle_puts | apply a_puts_rest | |].
  - rewrite a_puts_dirty, T8. apply set_eq. intros b.
    rewrite elem_of_difference, !elem_of_list_to_set. split; [by intros [??]|]. intros Hb.
    split; [done|]. eapply commit_keys_home; [done | done |]. rewrite Forall_forall in Hh. by apply Hh.
  - intros b Hb. rewrite a_puts_view, apply_writes_notin; [done|]. by eapply commit_keys_home.
Qed.

Lemma a_commit_disk : head_n (adisk a_commit) (start l) = n l /\
  head_entries (adisk a_commit) (start l) = entries l /\
  (forall i b, entries l !! i = Some b ->
     adisk a_commit (start l + Z.of_nat i + 1) = aview a b) /\
  (forall b, home (start l) (asize a) b -> recovered (start l) (adisk a_commit) b = aview a b).
Proof.
  pose proof Ht as [T1 T2 T3 T4 T5 T6 Hes T8 T9 T10 T11 T12 T13].
  pose proof Hes as (Hnd & Hh & Hl). pose proof (length_entries l T2) as Hle. pose proof (k_n l T2).
  assert (length (adisk a (start l)) = BSIZE) as Hlen.
  { destruct Hr as (_ & Hrp & _). eapply repr_disk_length; [done|].
    destruct T3. unfold LOGSIZE, MAXOPBLOCKS in *. lia. }
  assert (forall b, home (start l) (asize a) b -> b ∉ entries l -> aview a b = adisk a b) as Hv
    by (intros; by apply tinv_clean).
  unfold a_commit. case_decide as Hn.
  - rewrite a_puts_disk.
    pose proof (fun b => commit_crash_after (start l) (asize a) (adisk a) (aview a) (entries l)
      T3 Hes Hlen Hv b) as Hafter. cbv zeta in Hafter.
    assert (exists b, entries l !! 0%nat = Some b) as [b0 Hb0] by (apply lookup_lt_is_Some_2; lia).
    assert (home (start l) (asize a) b0) as Hb0h by (by eapply Forall_lookup_1 in Hh).
    destruct (Hafter b0 Hb0h) as (_ & He & _).
    assert (forall i b, entries l !! i = Some b ->
      apply_writes (commit_writes (start l) (adisk a) (aview a) (entries l)) (adisk a)
        (start l + Z.of_nat i + 1) = aview a b) as Hlog.
    { intros i b Hi. unfold commit_writes. rewrite apply_writes_app. simpl. rewrite upd_ne by lia.
      rewrite <- (take_ge (log_writes _ _ _) (length (entries l))) by (by rewrite length_log_writes).
      rewrite (log_writes_at _ _ _ _ _ _ _ Hi), decide_True; [done|]. by eapply lookup_lt_Some. }
    split_and!; [|exact He|exact Hlog|intros b Hb; by apply Hafter].
    assert (length (head_entries (apply_writes (commit_writes (start l) (adisk a) (aview a) (entries l))
      (adisk a)) (start l)) = Z.to_nat (n l)) as E by (by rewrite He).
    destruct (Hafter b0 Hb0h) as ((Hp & _) & _ & _).
    unfold head_entries in E. rewrite length_fmap, length_seq in E. lia.
  - assert (n l = 0) as Hn0 by lia. assert (entries l = []) as E0 by (unfold entries; by rewrite Hn0).
    rewrite T11. assert (es0 = []) as Ees0.
    { rewrite E0 in T10. by apply prefix_nil_inv in T10. }
    split_and!; [lia | by rewrite T13, E0 | by rewrite E0 |].
    intros b Hb. rewrite recovered_out by (rewrite T13, Ees0; set_solver).
    rewrite <- T11. symmetry. apply tinv_clean. rewrite E0. set_solver.
Qed.

(** The log and the cache when [end_op] is done: the log is emptied when it has
    reached [LOGSIZE - 1] entries. *)
Definition log_end : log :=
  let l1 := set_committing false (set_outstanding 0 l) in
  if decide (n l = Z.of_nat LOGSIZE - 1) then set_n 0 l1 else l1.
Definition a_end : acache :=
  if decide (n l = Z.of_nat LOGSIZE - 1)
  then a_puts (clear_writes (start l) (aview a_commit) (entries l)) a_commit else a_commit.

Lemma a_end_full : n l = Z.of_nat LOGSIZE - 1 ->
  idle a_end /\ asize a_end = asize a /\ adirty a_end = ∅ /\
  head_n (adisk a_end) (start l) = 0 /\
  (forall b, home (start l) (asize a) b -> aview a_end b = aview a b).
Proof.
  intros Hn. unfold a_end. rewrite decide_True by done.
  destruct a_commit_frame as (F1 & F2 & F3 & F4).
  destruct a_commit_disk as (G1 & G2 & G3 & G4).
  pose proof (t_place _ _ _ _ Ht) as Hpl. destruct (t_es _ _ _ _ Ht) as (Hnd & Hh & Hl).
  split_and!.
  - by apply idle_puts.
  - by rewrite (proj2 (proj2 (a_puts_rest _ _))).
  - rewrite a_puts_dirty, F3, (t_dirty _ _ _ _ Ht). unfold clear_writes.
    rewrite fmap_app, home_writes_keys. set_solver.
  - rewrite a_puts_disk. unfold clear_writes. rewrite apply_writes_app. simpl.
    unfold head_n. rewrite upd_eq. apply (put_head_n []); [|simpl; unfold LOGSIZE, MAXOPBLOCKS; lia].
    unfold a_commit. case_decide; [|unfold LOGSIZE, MAXOPBLOCKS in *; lia].
    assert (0 <= start l < asize a) as Hst by (destruct Hpl; unfold LOGSIZE, MAXOPBLOCKS in *; lia).
    rewrite a_puts_view. unfold commit_writes. rewrite apply_writes_app. simpl. rewrite upd_eq.
    rewrite length_put_head. destruct Hr as (_ & Hrp & _). by eapply repr_disk_length.
  - intros b Hb. rewrite a_puts_view. unfold clear_writes. rewrite apply_writes_app. simpl.
    rewrite upd_ne by (intros ->; by apply not_home_start in Hb).
    destruct (decide (b ∈ entries l)) as [[i Hi]%list_elem_of_lookup|Hni].
    + rewrite (apply_writes_in _ _ b (aview a_commit (start l + Z.of_nat i + 1))).
      * unfold a_commit. case_decide; [|unfold LOGSIZE, MAXOPBLOCKS in *; lia].
        rewrite a_puts_view. unfold commit_writes. rewrite apply_writes_app. simpl.
        rewrite upd_ne by lia.
        rewrite <- (take_ge (log_writes _ _ _) (length (entries l))) by (by rewrite length_log_writes).
        rewrite (log_writes_at _ _ _ _ _ _ _ Hi), decide_True; [done|]. by eapply lookup_lt_Some.
      * by rewrite home_writes_keys.
      * apply list_elem_of_lookup. exists i. by apply home_writes_lookup.
    + rewrite apply_writes_notin by (by rewrite home_writes_keys). by apply F4.
Qed.

Lemma end_linv : linv log_end a_end /\ asize a_end = asize a /\
  (forall b, home (start l) (asize a) b -> aview a_end b = aview a b).
Proof.
  pose proof Ht as [T1 T2 T3 T4 T5 T6 Hes T8 T9 T10 T11 T12 T13].
  pose proof (length_entries l T2) as Hle. pose proof (k_n l T2) as Hkn.
  destruct T2 as [K1 K2 K3].
  destruct (decide (n l = Z.of_nat LOGSIZE - 1)) as [Hn|Hn].
  - destruct (a_end_full Hn) as (E1 & E2 & E3 & E4 & E5). split_and!; [|done|done].
    unfold log_end. rewrite decide_True by done.
    assert (entries (set_n 0 (set_committing false (set_outstanding 0 l))) = []) as E0 by done.
    split; rewrite ?E0, ?E2; simpl; try done.
    + split_and!; [apply NoDup_nil_2 | constructor | unfold LOGSIZE, MAXOPBLOCKS; simpl; lia].
    + unfold head_entries. by rewrite E4.
  - unfold log_end, a_end. rewrite !decide_False by done.
    destruct a_commit_frame as (F1 & F2 & F3 & F4).
    destruct a_commit_disk as (G1 & G2 & G3 & G4). split_and!; [|done|done].
    destruct Hes as (Hnd & Hh & Hl).
    split; rewrite ?F2; simpl; try done; try lia; [by rewrite F3|].
    intros i b Hi. rewrite F4; [by apply G3|].
    eapply Forall_lookup_1 in Hh; done.
Qed.

Lemma runs_end_op (Q : unit -> lstate S -> Prop) :
  (forall s', lrep s' log_end a_end (w ++ [A_log]) -> Q tt s') -> runs end_op Q s.
Proof.
  intros HQ. pose proof Ht as [T1 T2 T3 T4 T5 T6 Hes T8 T9 T10 T11 T12 T13].
  pose proof T2 as [K1 K2 K3].
  unfold end_op. apply runs_bind. unfold end_op_enter.
  lstep; [done|]. lstep. lstep. simpl. rewrite T5. lstep. simpl.
  rewrite decide_True by lia. apply runs_bind. lstep. lstep. lstep; [done|]. lstep.
  apply runs_bind. unfold end_op_commit. apply runs_bind.
  set (l1 := set_llocked false _) in *.
  assert (l1 = set_committing true (set_outstanding 0 l)) as El1.
  { unfold l1. destruct l; simpl in *; subst. done. }
  eapply runs_commit; [eassumption | done | by split | done | done | | |].
  { apply tinv_room. } { apply tinv_clean, start_not_entry. }
  change (start l1) with (start l). change (n l1) with (n l). change (entries l1) with (entries l).
  fold a_commit. intros s5 Hr5. lstep. change (full l1) with (full l).
  destruct a_commit_frame as (F1 & F2 & F3 & F4).
  assert (forall s6, lrep s6 (if decide (n l = Z.of_nat LOGSIZE - 1) then set_n 0 l1 else l1) a_end w ->
    runs end_op_leave Q s6) as Hleave.
  { intros s6 Hr6. unfold end_op_leave. lstep; [by case_decide|]. lstep. lstep. lstep; [by case_decide|].
    apply HQ. unfold log_end. rewrite El1 in *.
    by case_decide; destruct l; simpl in *; subst. }
  unfold a_end in Hleave. destruct (decide (n l = Z.of_nat LOGSIZE - 1)) as [Hn|Hn].
  - rewrite (T9 Hn). apply runs_bind.
    eapply runs_sync; [eassumption | done | done | by split | by rewrite F2 | by rewrite F2 | |].
    { unfold copy_room. rewrite F3. apply tinv_room. }
    intros s6 Hr6. lstep. by apply Hleave.
  - destruct (full l).
    + apply runs_bind. eexists _, _. split; [by eapply sync_rejects|]. lstep. by apply Hleave.
    + lstep. by apply Hleave.
Qed.

(** ** Crashes during [end_op] *)

Definition end_writes : list (Z * list Z) :=
  (if decide (0 < n l) then commit_writes (start l) (adisk a) (aview a) (entries l) else []) ++
  (if decide (n l = Z.of_nat LOGSIZE - 1)
   then clear_writes (start l) (adisk a_commit) (entries l) else []).

Lemma a_commit_log_view i : n l = Z.of_nat LOGSIZE - 1 -> (i < length (entries l))%nat ->
  aview a_commit (start l + Z.of_nat i + 1) = adisk a_commit (start l + Z.of_nat i + 1).
Proof.
  intros Hn [b Hi]%lookup_lt_is_Some_2. destruct a_commit_disk as (_ & _ & G3 & _).
  rewrite (G3 i b Hi). unfold a_commit. case_decide; [|unfold LOGSIZE, MAXOPBLOCKS in *; lia].
  rewrite a_puts_view. unfold commit_writes. rewrite apply_writes_app. simpl. rewrite upd_ne by lia.
  rewrite <- (take_ge (log_writes _ _ _) (length (entries l))) by (by rewrite length_log_writes).
  rewrite (log_writes_at _ _ _ _ _ _ _ Hi), decide_True; [done|]. by eapply lookup_lt_Some.
Qed.

Lemma end_clear_writes : n l = Z.of_nat LOGSIZE - 1 ->
  clear_writes (start l) (aview a_commit) (entries l) =
  clear_writes (start l) (adisk a_commit) (entries l).
Proof.
  intros Hn. unfold clear_writes. f_equal.
  - apply imap_ext. intros i b Hi. f_equal. apply a_commit_log_view; [done|]. by eapply lookup_lt_Some.
  - unfold a_commit. case_decide; [|unfold LOGSIZE, MAXOPBLOCKS in *; lia].
    rewrite a_puts_view, a_puts_disk. unfold commit_writes. rewrite !apply_writes_app. simpl.
    by rewrite !upd_eq.
Qed.

Lemma end_writes_ok : atrace a_end = atrace a ++ end_writes /\
  adisk a_end = apply_writes end_writes (adisk a).
Proof.
  unfold a_end, end_writes. destruct (decide (n l = Z.of_nat LOGSIZE - 1)) as [Hn|Hn].
  - rewrite end_clear_writes, a_puts_trace, a_puts_disk, apply_writes_app by done.
    unfold a_commit. case_decide; [|unfold LOGSIZE, MAXOPBLOCKS in *; lia].
    by rewrite a_puts_trace, a_puts_disk, app_assoc.
  - rewrite app_nil_r. unfold a_commit. case_decide; simpl.
    + by rewrite a_puts_trace, a_puts_disk.
    + by rewrite app_nil_r.
Qed.

(** Installing the committed log and clearing it is invisible. *)
Lemma clear_crash k b : n l = Z.of_nat LOGSIZE - 1 -> home (start l) (asize a) b ->
  recovered (start l)
    (apply_writes (take k (clear_writes (start l) (adisk a_commit) (entries l))) (adisk a_commit)) b =
  aview a b.
Proof.
  intros Hn Hb. destruct a_commit_disk as (G1 & G2 & G3 & G4). rewrite <- G4 by done.
  assert (head_ok (start l) (asize a) (adisk a_commit)) as Hok.
  { split; [rewrite G1; unfold LOGSIZE, MAXOPBLOCKS in *; lia|]. rewrite G2. apply (t_es _ _ _ _ Ht). }
  unfold clear_writes. destruct (decide (k <= length (entries l))%nat) as [Hk|Hk].
  - rewrite take_app_le by (rewrite length_home_writes; lia). rewrite <- G2 at 1.
    by apply (install_crash _ (asize a)).
  - rewrite take_ge by (rewrite length_app, length_home_writes; simpl; lia).
    rewrite apply_writes_app. cbn [apply_writes foldl fst snd].
    set (D1 := apply_writes (home_writes _ _ _) _).
    assert (D1 (start l) = adisk a_commit (start l)) as E.
    { apply apply_writes_notin. rewrite home_writes_keys. apply start_not_entry. }
    rewrite <- E. destruct (clear_head (start l) (asize a) D1 b) as [_ ->]; [|done|].
    + rewrite E. destruct Hr as (_ & Hrp & _).
      assert (0 <= start l < asize a) as Hst.
      { destruct (t_place _ _ _ _ Ht). unfold LOGSIZE, MAXOPBLOCKS in *. lia. }
      unfold a_commit. case_decide; [|by eapply repr_disk_length].
      rewrite a_puts_disk. unfold commit_writes. rewrite apply_writes_app. simpl. rewrite upd_eq.
      rewrite length_put_head. by eapply repr_disk_length.
    + unfold D1, recovered. by rewrite G2.
Qed.

(** What every crash point of [end_op] recovers to. *)
Lemma end_crash_states k b : home (start l) (asize a) b ->
  recovered (start l) (apply_writes (take k end_writes) (adisk a)) b =
  if decide (k <= length (entries l))%nat
  then if decide (b ∈ take k es0) then aview a b else recovered (start l) D0 b
  else aview a b.
Proof.
  intros Hb. pose proof Ht as [T1 T2 T3 T4 T5 T6 Hes T8 T9 T10 T11 T12 T13].
  destruct a_commit_disk as (G1 & G2 & G3 & G4).
  unfold end_writes. destruct (decide (0 < n l)) as [Hn|Hn].
  2: { pose proof (k_n l T2). assert (n l = 0) as Hn0 by lia. assert (entries l = []) as E0 by (unfold entries; by rewrite Hn0).
       rewrite E0 in T10. apply prefix_nil_inv in T10. rewrite decide_False by (unfold LOGSIZE, MAXOPBLOCKS; lia).
       assert (recovered (start l) D0 b = aview a b) as E.
       { specialize (G4 b Hb). unfold a_commit in G4. rewrite decide_False in G4 by done. by rewrite <- T11. }
       rewrite app_nil_r, take_nil. simpl. rewrite T11, E. by repeat case_decide. }
  set (cw := commit_writes _ _ _ _). assert (length cw = Datatypes.S (length (entries l))) as Hcw.
  { unfold cw, commit_writes. rewrite length_app, length_log_writes. simpl. lia. }
  destruct (decide (k <= length (entries l))%nat) as [Hk|Hk].
  - rewrite take_app_le by lia. unfold cw. rewrite <- T11 in T13, T12 |- *.
    by apply (commit_crash_before (start l) (asize a) (adisk a) (aview a) (entries l) es0 Hes T13 (proj1 T12) T10 k b).
  - rewrite take_app_ge, apply_writes_app by lia.
    assert (apply_writes cw (adisk a) = adisk a_commit) as ->.
    { unfold a_commit. rewrite decide_True by done. by rewrite a_puts_disk. }
    destruct (decide (n l = Z.of_nat LOGSIZE - 1)) as [Hfull|Hfull]; [by apply clear_crash|].
    rewrite take_nil. by apply G4.
Qed.

(** If no block of an earlier, still logged transaction has been changed, every
    crash point of [end_op] recovers to the state before or after the
    transaction. *)
Lemma end_crash k :
  (forall i b, es0 !! i = Some b -> D0 (start l + Z.of_nat i + 1) = aview a b) ->
  let D' := apply_writes (take k end_writes) (adisk a) in
  (forall b, home (start l) (asize a) b -> recovered (start l) D' b = recovered (start l) D0 b) \/
  (forall b, home (start l) (asize a) b -> recovered (start l) D' b = aview a b).
Proof.
  intros Hfresh D'. pose proof Ht as [T1 T2 T3 T4 T5 T6 (Hnd & _) T8 T9 T10 T11 T12 T13].
  destruct (decide (k <= length (entries l))%nat) as [Hk|Hk].
  - left. intros b Hb. unfold D'. rewrite end_crash_states, decide_True by done. case_decide as Hin; [|done].
    apply elem_of_take in Hin as (i & Hi & _).
    rewrite (recovered_in _ _ i b); [by rewrite (Hfresh i b Hi) | | by rewrite T13].
    rewrite T13. destruct T10 as [t E]. rewrite E in Hnd. by apply NoDup_app in Hnd as (? & _).
  - right. intros b Hb. unfold D'. by rewrite end_crash_states, decide_False by done.
Qed.
End finish.
End txn.
