(* ===== verification/LogProps.v ===== *)
(** What the log guarantees.

    The theorems are about the functions of log.c over any block cache that
    meets [BufSpec]; their witnesses run on the cache of bio.c.  A crash is any
    prefix of the block writes of a run; [recovered] is what [recover_from_log]
    then restores. *)

From S2P Require Import Prelude Bytes BlockCache BlockClient Bio BioRefine BioProps FsLayout.
From S2P Require Import Log LogDisk LogRun LogTxn.
Import Log.

Module LogProps.

Section txns.
Context {S : Type} `{BufSpec S}.
Implicit Types (s : lstate S) (l : log) (a : acache) (w : list kaddr).

(** A file-system call: its block updates inside [begin_op] and [end_op]. *)
Definition txn (ups : list (Z * list Z)) : M (lstate S) unit :=
  let! r := begin_op in
  match r with
  | Done _ => forM ups write_block ;;; end_op
  | Blocked c _ => stop_with (Slept c)
  end.

(** The log entries after a transaction on the blocks [bs]. *)
Definition log_after (es bs : list Z) : list Z :=
  let es' := add_entries es bs in
  if decide (Z.of_nat (length es') = Z.of_nat LOGSIZE - 1) then [] else es'.

(** The transactions fit the log: it never gets more than [LOGSIZE - 1] entries. *)
Fixpoint fits (es : list Z) (ts : list (list (Z * list Z))) : Prop :=
  match ts with
  | [] => True
  | t :: ts' => (length (add_entries es t.*1) < LOGSIZE)%nat /\ fits (log_after es t.*1) ts'
  end.

Definition logs_after (es : list Z) (ts : list (list (Z * list Z))) : list Z := foldl (fun es t => log_after es t.*1) es ts.

Lemma fits_app es ts ts' : fits es (ts ++ ts') <-> fits es ts /\ fits (logs_after es ts) ts'.
Proof. revert es. induction ts as [|t ts IH]; intros es; simpl; [tauto|]. rewrite IH. tauto. Qed.

(** No transaction changes a block that an earlier one has left in the log. *)
Fixpoint fresh (es : list Z) (ts : list (list (Z * list Z))) : Prop :=
  match ts with
  | [] => True
  | t :: ts' => (forall b, b ∈ t.*1 -> b ∉ es) /\ fresh (log_after es t.*1) ts'
  end.

Lemma a_updates_frame ups a : aview (a_updates ups a) = apply_writes ups (aview a) /\
  adisk (a_updates ups a) = adisk a /\ atrace (a_updates ups a) = atrace a /\
  asize (a_updates ups a) = asize a.
Proof.
  revert a. induction ups as [|u ups IH]; intros a; [done|]. apply (IH (a_update u a)).
Qed.

(** After a crash at any point of a run with writes [ws] from disk [D], recovery
    restores [old] or [new]. *)
Definition atomic_crash (st sz : Z) (D : disk_t) (ws : list (Z * list Z)) (old new : disk_t) : Prop :=
  forall k, let D' := apply_writes (take k ws) D in
    (forall b, home st sz b -> recovered st D' b = old b) \/
    (forall b, home st sz b -> recovered st D' b = new b).

(** What a crash after [k] of the block writes [ws] of a transaction recovers to, when the log held the blocks [es] before it and [m] during it: once
    all the log blocks are written, and then the header, the new contents; before, the old ones, except that the first [k]
    blocks of [es] already have their new contents. *)
Definition crash_states (st sz : Z) (D : disk_t) (ws : list (Z * list Z)) (es : list Z) (m : nat) (old new : disk_t) : Prop :=
  forall k b, home st sz b -> recovered st (apply_writes (take k ws) D) b =
    if decide (k <= m)%nat then if decide (b ∈ take k es) then new b else old b else new b.

Lemma runs_txn s l a w ups (Q : unit -> lstate S -> Prop) :
  lrep s l a w -> linv l a -> Forall (update_ok (start l) (asize a)) ups ->
  (length (add_entries (entries l) ups.*1) < LOGSIZE)%nat ->
  (forall s' l' a' ws, lrep s' l' a' (w ++ [A_log]) -> linv l' a' ->
     start l' = start l -> asize a' = asize a -> entries l' = log_after (entries l) ups.*1 ->
     (forall b, home (start l) (asize a) b -> aview a' b = apply_writes ups (aview a) b) ->
     atrace a' = atrace a ++ ws -> adisk a' = apply_writes ws (adisk a) ->
     ((forall b, b ∈ ups.*1 -> b ∉ entries l) ->
        atomic_crash (start l) (asize a) (adisk a) ws (aview a) (apply_writes ups (aview a))) ->
     crash_states (start l) (asize a) (adisk a) ws (entries l) (length (add_entries (entries l) ups.*1)) (aview a) (apply_writes ups (aview a)) ->
     Q tt s') ->
  runs (txn ups) Q s.
Proof.
  intros Hr Hinv Hu Hlen HQ. unfold txn. apply runs_bind.
  eapply runs_begin_op; [done | apply Hinv | apply Hinv | pose proof (i_small _ _ Hinv); lia|].
  intros s1 Hr1. apply runs_bind.
  eapply runs_updates; [done | by apply begin_tinv | done | done |].
  intros s2 l2 Hr2 Ht2 Est Ent. simpl in Est. destruct (a_updates_frame ups a) as (V1 & V2 & V3 & V4).
  eapply runs_end_op; [done | done |]. intros s3 Hr3.
  destruct (end_linv _ _ _ _ _ _ Hr2 Ht2) as (L1 & L2 & L3).
  destruct (end_writes_ok _ _ _ _ _ _ Hr2 Ht2) as [W1 W2].
  assert (start (log_end l2) = start l) as Est' by (unfold log_end; case_decide; done).
  apply (HQ s3 (log_end l2) (a_end l2 (a_updates ups a)) (end_writes l2 (a_updates ups a)));
    try done; try congruence.
  - unfold log_end, log_after. change (entries l) with (entries (set_outstanding (outstanding l + 1) l)).
    rewrite <- Ent. rewrite length_entries by apply (t_ok _ _ _ _ Ht2).
    rewrite Z2Nat.id by apply (k_n _ (t_ok _ _ _ _ Ht2)). case_decide; done.
  - intros b Hb. rewrite L3, V1 by (by rewrite Est, V4). done.
  - intros Hfresh k D'. rewrite <- Est, <- V4, <- V1.
    pose proof (linv_durable _ _ _ _ Hr Hinv) as Hdur. unfold D'. rewrite <- V2.
    destruct (end_crash _ _ _ _ _ _ Hr2 Ht2 k) as [E|E]; [| |by right].
    + intros i b Hi. rewrite Est, (i_logged _ _ Hinv i b Hi), V1.
      symmetry. apply apply_writes_notin. intros Hin. apply (Hfresh b Hin).
      by eapply list_elem_of_lookup_2.
    + left. intros b Hb. rewrite E by done. rewrite Est. apply Hdur. by rewrite <- Est, <- V4.
  - intros k b Hb. pose proof (linv_durable _ _ _ _ Hr Hinv b Hb) as Hdur. rewrite <- V2 at 1. rewrite <- Est.
    rewrite (end_crash_states _ _ _ _ _ _ Hr2 Ht2) by (by rewrite Est, V4). rewrite Ent, V1, Est. by rewrite Hdur.
Qed.

Lemma apply_writes_ext ws (D D' : disk_t) b : D b = D' b -> apply_writes ws D b = apply_writes ws D' b.
Proof. intros E. by apply apply_writes_overwrite. Qed.

(** After a crash at any point, recovery restores the state after some prefix of
    the transactions [ts] from [V]. *)
Definition prefix_crash (st sz : Z) (D : disk_t) (ws : list (Z * list Z)) (V : disk_t)
    (ts : list (list (Z * list Z))) : Prop :=
  forall k, exists j, (j <= length ts)%nat /\ forall b, home st sz b ->
    recovered st (apply_writes (take k ws) D) b = apply_writes (concat (take j ts)) V b.

Lemma prefix_crash_cons st sz D V t ts ws ws' V1 :
  atomic_crash st sz D ws V (apply_writes t V) ->
  (forall b, home st sz b -> V1 b = apply_writes t V b) ->
  prefix_crash st sz (apply_writes ws D) ws' V1 ts ->
  prefix_crash st sz D (ws ++ ws') V (t :: ts).
Proof.
  intros Hat HV Hpre k. destruct (decide (k <= length ws)%nat) as [Hk|Hk].
  - rewrite take_app_le by done. destruct (Hat k) as [E|E].
    + exists O. split; [lia|]. intros b Hb. by apply E.
    + exists 1%nat. split; [simpl; lia|]. intros b Hb. simpl.
      rewrite app_nil_r. by apply E.
  - rewrite take_app_ge, apply_writes_app by lia. destruct (Hpre (k - length ws)%nat) as (j & Hj & E).
    exists (Datatypes.S j). split; [simpl; lia|]. intros b Hb. rewrite E by done. simpl.
    rewrite apply_writes_app. by apply apply_writes_ext, HV.
Qed.

Lemma runs_txns ts s l a w (Q : unit -> lstate S -> Prop) :
  lrep s l a w -> linv l a -> Forall (Forall (update_ok (start l) (asize a))) ts ->
  fits (entries l) ts ->
  (forall s' l' a' w' ws, lrep s' l' a' w' -> linv l' a' -> start l' = start l -> asize a' = asize a ->
     (forall b, home (start l) (asize a) b -> aview a' b = apply_writes (concat ts) (aview a) b) ->
     atrace a' = atrace a ++ ws -> adisk a' = apply_writes ws (adisk a) ->
     (fresh (entries l) ts -> prefix_crash (start l) (asize a) (adisk a) ws (aview a) ts) ->
     entries l' = logs_after (entries l) ts ->
     Q tt s') ->
  runs (forM ts txn) Q s.
Proof.
  revert s l a w. induction ts as [|t ts IH]; intros s l a w Hr Hinv Hok Hfits HQ; simpl.
  { apply runs_ret. apply (HQ s l a w []); try done; [by rewrite app_nil_r|].
    intros _ k. exists O. split; [done|]. intros b Hb. rewrite take_nil.
    by apply (linv_durable _ _ _ _ Hr Hinv). }
  apply Forall_cons in Hok as [Ht Hts]. destruct Hfits as [Hf Hfs].
  apply runs_bind. eapply runs_txn; [done..|].
  intros s1 l1 a1 ws1 Hr1 Hinv1 E1 E2 E3 E4 E5 E6 Hat _.
  eapply IH; [done | done | by rewrite E1, E2 | by rewrite E3 |].
  intros s2 l2 a2 w2 ws2 Hr2 Hinv2 F1 F2 F4 F5 F6 Hpre F7.
  apply (HQ s2 l2 a2 w2 (ws1 ++ ws2)); try done; try congruence.
  - intros b Hb. rewrite F4 by (by rewrite E1, E2). simpl. rewrite apply_writes_app.
    by apply apply_writes_ext, E4.
  - by rewrite F5, E5, app_assoc.
  - by rewrite F6, E6, apply_writes_app.
  - intros [Hfr Hfrs]. eapply prefix_crash_cons; [by apply Hat | exact E4 |].
    rewrite <- E6. rewrite E3, E1, E2 in Hpre. by apply Hpre.
  - by rewrite F7, E3.
Qed.

(** ** Boot *)

Lemma runs_initlog s a w (Q : unit -> lstate S -> Prop) :
  let st := logstart (decode_sb (adisk a 1)) in
  lrep s log0 a w -> idle a -> adirty a = ∅ -> 1 < asize a -> place_ok st (asize a) ->
  head_ok st (asize a) (adisk a) ->
  (forall s' l', lrep s' l' (a_puts (recovery_writes st (adisk a)) a) w ->
     linv l' (a_puts (recovery_writes st (adisk a)) a) -> start l' = st -> entries l' = [] -> Q tt s') ->
  runs (initlog ROOTDEV) Q s.
Proof.
  intros st Hr Hidle Hd Hsz Hplace Hhead HQ. pose proof Hidle as [Hh0 Hha0].
  pose proof (idle_clean s log0 a w 1 Hr Hidle) as Hclean.
  assert (aview a 1 = adisk a 1) as Hv1 by (destruct Hclean; [set_solver | done]).
  unfold initlog. rewrite decide_False by (unfold BSIZE, sizeof_logheader, LOGSIZE, MAXOPBLOCKS; lia).
  lstep. apply runs_bind. unfold readsb.
  lstep; [lia | rewrite Hh0; set_solver | apply room_idle; [done | by rewrite Hd, size_empty; unfold NBUF; lia] |].
  simpl in *. rewrite Hha0 in *. lstep.
  erewrite lrep_data; [|eassumption|simpl; by rewrite lookup_insert_eq]. simpl. rewrite Hv1.
  lstep; [simpl; by rewrite lookup_insert_eq | by right |]. lstep. lstep. fold st in H5.
  eapply runs_recover; [eapply lrep_aeq; [eassumption|] | done | done | done | done | done | done |].
  { split; simpl; try done; [rewrite Hh0; set_solver | by rewrite Hha0, drop_one]. }
  intros s' l' Hr' Hok' He' El'. simpl in Hr'. fold st in Hr', El'.
  assert (start l' = st) as Est by (rewrite El'; done).
  assert (n l' = 0) as En by (rewrite El'; done).
  set (rw := recovery_writes st (adisk a)) in *.
  destruct (a_puts_rest rw a) as (P1 & P2 & P3).
  assert (adisk (a_puts rw a) st = put_head [] (adisk a st)) as Ehd.
  { rewrite a_puts_disk. unfold rw, recovery_writes. rewrite apply_writes_app. simpl. apply upd_eq. }
  assert (head_n (adisk (a_puts rw a)) st = 0) as Ehn.
  { unfold head_n. rewrite Ehd. apply (put_head_n []); [|simpl; unfold LOGSIZE, MAXOPBLOCKS; lia].
    destruct Hr as (_ & Hrp & _). eapply repr_disk_length; [done|].
    destruct Hplace. unfold LOGSIZE, MAXOPBLOCKS in *. lia. }
  apply (HQ s' l'); try done.
  split; rewrite ?Est, ?En, ?He'; try done; try (rewrite El'; done).
  - by apply idle_puts.
  - by rewrite P3.
  - split_and!; [apply NoDup_nil_2 | constructor | unfold LOGSIZE, MAXOPBLOCKS; simpl; lia].
  - rewrite a_puts_dirty, Hd. set_solver.
  - unfold head_entries. by rewrite Ehn.
Qed.

(** The abstract state of a cache nobody uses. *)
Definition a_boot (c : S) : acache := ACache ∅ ∅ ∅ (disksize c) (disk c) (trace c) (disk c).

Lemma quiet_repr c : quiet c -> repr c (a_boot c).
Proof.
  intros Hq. pose proof Hq as [Q1 Q2 Q3 Q4]. split; simpl; try done.
  intros b. by apply quiet_view.
Qed.

Lemma recovery_crash st sz (D : disk_t) k b : length (D st) = BSIZE -> head_ok st sz D -> home st sz b ->
  recovered st (apply_writes (take k (recovery_writes st D)) D) b = recovered st D b.
Proof.
  intros Hlen Hok Hb. unfold recovery_writes.
  destruct (decide (k <= length (head_entries D st))%nat) as [Hk|Hk].
  - rewrite take_app_le by (rewrite length_home_writes; lia). by apply (install_crash _ sz).
  - rewrite take_ge by (rewrite length_app, length_home_writes; simpl; lia).
    rewrite apply_writes_app. cbn [apply_writes foldl fst snd].
    set (D1 := apply_writes (home_writes _ _ _) _).
    assert (D1 st = D st) as E.
    { apply apply_writes_notin. rewrite home_writes_keys. intros Hin.
      destruct Hok as (_ & _ & Hh & _). rewrite Forall_forall in Hh.
      by apply (not_home_start st sz), Hh. }
    rewrite <- E. destruct (clear_head st sz D1 b) as [_ ->]; [by rewrite E | done | done].
Qed.
End txns.

Section claims.
Context {S : Type} `{BufSpec S}.

(** A disk with a super block that places the log and a readable log header. *)
Record log_disk (D : disk_t) (sz : Z) : Prop := {
  ld_sb : 1 < sz;
  ld_place : place_ok (logstart (decode_sb (D 1))) sz;
  ld_head : head_ok (logstart (decode_sb (D 1))) sz D
}.

(** C1: The log makes transactions atomic and durable.  Booting ([initlog]) from
    any disk with a readable log and running any sequence of transactions (each
    [begin_op], block updates through [log_write], [end_op]) that fit the log
    returns; readers then see exactly the updates applied in order to the
    recovered disk, and that is what a crash after the last [end_op] recovers
    to.  If moreover no transaction rewrites a block still in the log, a crash
    after any prefix of all the block writes of the run, recovery's included,
    recovers to the state after some prefix of the transactions. *)
Theorem log_crash_safe (c : S) ts :
  let D := disk c in let sz := disksize c in let st := logstart (decode_sb (D 1)) in
  quiet c -> log_disk D sz -> Forall (Forall (update_ok st sz)) ts -> fits [] ts ->
  runs (initlog ROOTDEV ;;; forM ts txn) (fun _ s' => exists ws,
    trace (bc s') = trace c ++ ws /\
    (forall b, disk (bc s') b = apply_writes ws D b) /\
    (forall b, home st sz b ->
       view (bc s') b = apply_writes (concat ts) (recovered st D) b /\
       recovered st (disk (bc s')) b = view (bc s') b) /\
    (fresh [] ts -> prefix_crash st sz D ws (recovered st D) ts)) (Mk log0 c []).
Proof.
  intros D sz st Hq [Hsb Hpl Hhd] Hok Hfits.
  assert (lrep (Mk log0 c []) log0 (a_boot c) []) as Hr by (split_and!; [done | by apply quiet_repr | done]).
  assert (length (D st) = BSIZE) as Hlen.
  { apply disk_length; [apply Hq|]. destruct Hpl. unfold LOGSIZE, MAXOPBLOCKS in *. subst sz st D. lia. }
  apply runs_bind. eapply runs_initlog; [done..|].
  set (rw := recovery_writes st D). change (adisk (a_boot c)) with D.
  change (logstart (decode_sb (D 1))) with st. fold rw. intros s1 l1 Hr1 Hinv1 Est Ent.
  destruct (a_puts_rest rw (a_boot c)) as (_ & _ & P3). change (asize (a_boot c)) with sz in P3.
  eapply runs_txns; [done | done | by rewrite Est, P3 | by rewrite Ent |].
  rewrite Est, P3, Ent, a_puts_trace, a_puts_disk, a_puts_view.
  change (adisk (a_boot c)) with D. change (aview (a_boot c)) with D.
  intros s2 l2 a2 w2 ws Hr2 Hinv2 E1 E2 E3 E4 E5 Hpre _.
  assert (forall b, home st sz b -> apply_writes rw D b = recovered st D b) as Hrw.
  { intros b Hb. unfold rw, recovery_writes. rewrite apply_writes_app. simpl.
    apply upd_ne. intros ->. by apply not_home_start in Hb. }
  destruct Hr2 as (Hr2a & Hr2b & Hr2c).
  assert (lrep s2 l2 a2 w2) as Hr2 by done.
  exists (rw ++ ws). split_and!.
  - by rewrite (r_trace _ _ Hr2b), E4, app_assoc.
  - intros b. by rewrite (r_disk _ _ Hr2b), E5, apply_writes_app.
  - intros b Hb. rewrite (r_view _ _ Hr2b), E3 by done. split; [by apply apply_writes_ext, Hrw|].
    rewrite <- E3 by done.
    rewrite <- (linv_durable _ _ _ _ Hr2 Hinv2 b) by (by rewrite E1, E2). rewrite E1.
    unfold recovered, head_entries, home_writes, head_n.
    rewrite (r_disk _ _ Hr2b). rewrite (imap_ext _ (fun i b => (b, adisk a2 (st + Z.of_nat i + 1)))).
    { apply apply_writes_ext. apply (r_disk _ _ Hr2b). }
    intros. by rewrite (r_disk _ _ Hr2b).
  - intros Hfr k. destruct (decide (k <= length rw)%nat) as [Hk|Hk].
    + exists O. split; [lia|]. intros b Hb. rewrite take_app_le by done. simpl.
      by apply recovery_crash with sz.
    + rewrite take_app_ge, apply_writes_app by lia.
      destruct (Hpre Hfr (k - length rw)%nat) as (j & Hj & E). exists j. split; [done|].
      intros b Hb. rewrite E by done. by apply apply_writes_ext, Hrw.
Qed.

Lemma recovered_ext st (D D' : disk_t) b : (forall x, D x = D' x) -> recovered st D b = recovered st D' b.
Proof.
  intros E. unfold recovered, head_entries, home_writes, head_n. rewrite E.
  rewrite (imap_ext _ (fun i b => (b, D' (st + Z.of_nat i + 1)))) by (intros; by rewrite E).
  by apply apply_writes_ext.
Qed.

(** C2: Recovery installs the committed log and can be interrupted and restarted
    any number of times.  From any disk with a readable log, whose super block is a home block and not in the log, [initlog] returns
    with an empty log, in memory and on the disk, and every home block equal to
    its recovered contents; and the disk after any prefix of its writes is
    again one with a readable log and the same recovered contents. *)
Theorem recovery_restartable (c : S) :
  let D := disk c in let sz := disksize c in let st := logstart (decode_sb (D 1)) in
  quiet c -> log_disk D sz -> home st sz 1 -> 1 ∉ head_entries D st ->
  runs (initlog ROOTDEV) (fun _ s' => exists ws,
    trace (bc s') = trace c ++ ws /\ n (lg s') = 0 /\ head_n (disk (bc s')) st = 0 /\
    quiet (bc s') /\
    (forall b, home st sz b -> disk (bc s') b = recovered st D b) /\
    (forall k, let D' := apply_writes (take k ws) D in
       log_disk D' sz /\ forall b, home st sz b -> recovered st D' b = recovered st D b))
    (Mk log0 c []).
Proof.
  intros D sz st Hq Hld H1 H1e. pose proof Hld as [Hsb Hpl Hhd]. fold st in Hpl, Hhd.
  assert (lrep (Mk log0 c []) log0 (a_boot c) []) as Hr by (split_and!; [done | by apply quiet_repr | done]).
  assert (length (D st) = BSIZE) as Hlen.
  { apply disk_length; [apply Hq|]. destruct Hpl. unfold LOGSIZE, MAXOPBLOCKS in *. subst sz D. lia. }
  eapply runs_initlog; [done..|].
  set (rw := recovery_writes st D). change (adisk (a_boot c)) with D.
  change (logstart (decode_sb (D 1))) with st. fold rw. intros s1 l1 (R1 & R2 & R3) Hinv Est Ent.
  assert (forall k b, home st sz b -> (b ∉ head_entries D st) ->
    apply_writes (take k rw) D b = D b) as Hkeep.
  { intros k b Hb Hni. apply apply_writes_notin. rewrite fmap_take. intros Hin%subseteq_take.
    unfold rw, recovery_writes in Hin. rewrite fmap_app, home_writes_keys in Hin.
    apply elem_of_app in Hin as [?| ->%list_elem_of_singleton]; [done|]. by apply not_home_start in Hb. }
  assert (forall k, logstart (decode_sb (apply_writes (take k rw) D 1)) = st) as Hst
    by (intros k; by rewrite Hkeep).
  exists rw. split_and!.
  - rewrite (r_trace _ _ R2), a_puts_trace. done.
  - rewrite R1. pose proof (length_entries _ (i_ok _ _ Hinv)) as E. rewrite Ent in E. simpl in E.
    pose proof (k_n _ (i_ok _ _ Hinv)). lia.
  - unfold head_n. rewrite (r_disk _ _ R2). pose proof (i_headn _ _ Hinv) as E. unfold head_n in E.
    rewrite Est in E. rewrite E. pose proof (length_entries _ (i_ok _ _ Hinv)) as E'. rewrite Ent in E'.
    simpl in E'. pose proof (k_n _ (i_ok _ _ Hinv)). lia.
  - split; [apply R2 | | | apply R2].
    + rewrite (r_held _ _ R2). by destruct (a_puts_rest rw (a_boot c)) as (-> & _).
    + by rewrite (r_dirty _ _ R2), (i_dirty _ _ Hinv), Ent.
  - intros b Hb. rewrite (r_disk _ _ R2), a_puts_disk. unfold rw, recovery_writes.
    rewrite apply_writes_app. simpl. apply upd_ne. intros ->. by apply not_home_start in Hb.
  - intros k D'. split; [|intros b Hb; by apply recovery_crash with sz].
    split; unfold D'; rewrite ?Hst; [done | done |].
    unfold rw, recovery_writes. destruct (decide (k <= length (head_entries D st))%nat) as [Hk|Hk].
    + rewrite take_app_le by (rewrite length_home_writes; lia). by apply (install_crash _ _ _ _ 1).
    + rewrite take_ge by (rewrite length_app, length_home_writes; simpl; lia).
      apply head_ok_empty. unfold head_n. rewrite apply_writes_app. simpl. rewrite upd_eq.
      apply (put_head_n []); [done|]. simpl. unfold LOGSIZE, MAXOPBLOCKS. lia.
Qed.

(** The state in which a transaction starts: after [initlog] and the transactions [ts]. *)
Lemma runs_boot (c : S) ts (Q : unit -> lstate S -> Prop) :
  let D := disk c in let sz := disksize c in let st := logstart (decode_sb (D 1)) in
  quiet c -> log_disk D sz -> Forall (Forall (update_ok st sz)) ts -> fits [] ts ->
  (forall s l a w, lrep s l a w -> linv l a -> start l = st -> asize a = sz -> entries l = logs_after [] ts -> Q tt s) ->
  runs (initlog ROOTDEV ;;; forM ts txn) Q (Mk log0 c []).
Proof.
  intros D sz st Hq [Hsb Hpl Hhd] Hok Hfits HQ.
  assert (lrep (Mk log0 c []) log0 (a_boot c) []) as Hr by (split_and!; [done | by apply quiet_repr | done]).
  apply runs_bind. eapply runs_initlog; [done..|]. intros s1 l1 Hr1 Hinv1 Est Ent.
  set (rw := recovery_writes _ _) in *. assert (asize (a_puts rw (a_boot c)) = sz) as P3 by apply a_puts_rest.
  eapply runs_txns; [done | done | by rewrite Est, P3 | by rewrite Ent |].
  intros s2 l2 a2 w2 ws Hr2 Hinv2 E1 E2 _ _ _ _ E3. eapply HQ; [done | done | by rewrite E1 | by rewrite E2 |]. by rewrite E3, Ent.
Qed.

(** C6: what a crash inside a transaction leaves, exactly.  Boot from any disk with a readable log and run any transactions [ts] that
    fit the log, so that it holds the blocks [logs_after [] ts].  Then a further transaction [t] that fits returns, and a crash after [k] of its block writes recovers to
    the following.  Up to and including the last log block, every block has its old contents, except that
    the first [k] blocks the log held before, if [t] changes them, already have their new ones: their log blocks are overwritten while the
    header on the disk still lists them.  Once the header is written, and while the log is installed and
    cleared, every block has its new contents.  So a transaction is atomic
    when it changes no block still in the log, and otherwise it can be torn. *)
Theorem commit_crash_states (c : S) ts t :
  let D := disk c in let sz := disksize c in let st := logstart (decode_sb (D 1)) in
  let es := logs_after [] ts in
  quiet c -> log_disk D sz -> Forall (Forall (update_ok st sz)) (ts ++ [t]) -> fits [] (ts ++ [t]) ->
  runs (initlog ROOTDEV ;;; forM ts txn) (fun _ s =>
    runs (txn t) (fun _ s' => exists ws, trace (bc s') = trace (bc s) ++ ws /\
      crash_states st sz (disk (bc s)) ws es (length (add_entries es t.*1)) (view (bc s)) (apply_writes t (view (bc s)))) s)
    (Mk log0 c []).
Proof.
  intros D sz st es Hq Hld [Hok [Ht _]%Forall_cons]%Forall_app [Hfits [Hf _]]%fits_app.
  apply runs_boot; try done. fold D sz st. intros s l a w Hr Hinv Est Esz Ent. fold es in Ent, Hf.
  eapply runs_txn; [done | done | by rewrite Est, Esz | by rewrite Ent |].
  intros s' l' a' ws Hr' _ _ _ _ _ Etr _ _ Hcr. pose proof Hr as (_ & Hrp & _). pose proof Hr' as (_ & Hrp' & _). rewrite Est, Esz, Ent in Hcr.
  exists ws. split; [by rewrite (r_trace _ _ Hrp'), (r_trace _ _ Hrp)|]. intros k b Hb.
  rewrite (recovered_ext st _ (apply_writes (take k ws) (adisk a))) by (intros x; apply apply_writes_ext, (r_disk _ _ Hrp)).
  rewrite (apply_writes_ext t (view (bc s)) (aview a)) by apply (r_view _ _ Hrp). rewrite (r_view _ _ Hrp). by apply Hcr.
Qed.

(** Every branch of [log_write].  It panics when the log already has
    [LOGSIZE] entries or no operation is outstanding; otherwise it enters the
    block at the end of the log, or not at all if the log has it (absorption),
    pins its buffer, and touches neither the disk nor any contents. *)
Theorem log_write_cases (s : lstate S) l a w h b :
  lrep s l a w -> log_ok l -> llocked l = false -> ahandle a !! h = Some b ->
  (Z.of_nat LOGSIZE <= n l -> log_write h s = Stop (Panicked "too big a transaction") s) /\
  (n l < Z.of_nat LOGSIZE -> outstanding l < 1 ->
     log_write h s = Stop (Panicked "log_write outside of trans") s) /\
  (n l < Z.of_nat LOGSIZE -> 1 <= outstanding l -> exists s', log_write h s = Ret tt s' /\
     entries (lg s') = (if decide (b ∈ entries l) then entries l else entries l ++ [b]) /\
     (NoDup (entries l) -> NoDup (entries (lg s'))) /\ llocked (lg s') = false /\
     dirty (bc s') = {[b]} ∪ dirty (bc s) /\ trace (bc s') = trace (bc s) /\
     (forall b', view (bc s') b' = view (bc s) b' /\ disk (bc s') b' = disk (bc s) b')).
Proof.
  intros Hr Hok Hl Hh. pose proof Hr as (El & Hrp & _). split_and!.
  - intros Hn. unfold log_write, bind, gets. rewrite El. by rewrite decide_True.
  - intros Hn Ho. unfold log_write, bind, gets. rewrite El. by rewrite decide_False, decide_True by lia.
  - intros Hn Ho.
    assert (runs (log_write h) (fun _ s' => lrep s' (logged b l) (a_pin b a) w) s) as ([] & s' & E & Hr').
    { by eapply runs_log_write. }
    exists s'. destruct (entries_logged l b Hok Hn) as [Ee _]. destruct Hr' as (El' & Hrp' & _).
    rewrite El'. split_and!; [done | done | | | | |].
    + intros Hnd. rewrite Ee. unfold add_entry. case_decide; [done|].
      apply NoDup_app. split_and!; [done | set_solver | apply NoDup_singleton].
    + by destruct (logged_frame b l) as (_ & -> & _).
    + by rewrite (r_dirty _ _ Hrp'), (r_dirty _ _ Hrp).
    + by rewrite (r_trace _ _ Hrp'), (r_trace _ _ Hrp).
    + intros b'. by rewrite (r_view _ _ Hrp'), (r_view _ _ Hrp), (r_disk _ _ Hrp'), (r_disk _ _ Hrp).
Qed.
End claims.

#[local] Existing Instance Bio.bufops.
#[local] Existing Instance BioRefine.bufspec.

(** A small file system of 70 blocks: the log at block 2, eight inodes in block
    32, the bitmap in block 33, as mkfs.c lays it out; inode 1 is the root directory, with its entries in
    block 34, and inode 2 a file of 600 bytes in blocks 35 and 36. *)
Definition small_sb : list Z :=
  put32 24 33 (put32 20 32 (put32 16 2 (put32 12 30 (put32 8 8 (put32 4 33 (put32 0 70
    (replicate BSIZE 0))))))).
Definition small_bitmap : list Z := replicate 4 255 ++ [31] ++ replicate 507 0.
Definition small_inodes : list Z :=
  encode_dinode (inode_off 2) (MkDinode 2 0 0 1 600 (35 :: 36 :: replicate 11 0))
    (encode_dinode (inode_off 1) (MkDinode 1 0 0 1 48 (34 :: replicate 12 0)) (replicate BSIZE 0)).
Definition small_root : list Z :=
  let entry num name := encode_dirent (MkDirent num (name ++ replicate (DIRSIZ - length name) 0)) in
  entry 1 [46] ++ entry 1 [46; 46] ++ entry 2 [102] ++ replicate 464 0.
Definition small_image : list (list Z) :=
  [replicate BSIZE 0; small_sb] ++ replicate 30 (replicate BSIZE 0) ++
  [small_inodes; small_bitmap; small_root] ++ replicate 35 (replicate BSIZE 0).
Definition small_boot : Bio.bcache := BioProps.booted small_image 1.

Lemma small_blocks d : d ∈ small_image -> length d = BSIZE.
Proof.
  intros Hd. assert (forallb (fun d => bool_decide (length d = BSIZE)) small_image = true) as Hall by (by vm_compute).
  rewrite forallb_forall in Hall. apply list_elem_of_In, Hall in Hd. by apply bool_decide_eq_true in Hd.
Qed.

Lemma small_start : logstart (decode_sb (disk small_boot 1)) = 2.
Proof. by vm_compute. Qed.

Lemma small_home b : 32 <= b < 70 -> home 2 (disksize small_boot) b.
Proof.
  intros Hb. assert (disksize small_boot = 70) as -> by (by vm_compute).
  split; [lia | unfold LOGSIZE, MAXOPBLOCKS; lia].
Qed.

Lemma small_log_disk : log_disk (disk small_boot) (disksize small_boot).
Proof.
  split; rewrite ?small_start; [by vm_compute | split; by vm_compute |].
  apply head_ok_empty. by vm_compute.
Qed.

Lemma log_crash_safe_witness :
  exists s', (initlog ROOTDEV ;;; forM [[(40, replicate BSIZE 7)]] txn) (Mk log0 small_boot []) = Ret tt s' /\
    view (bc s') 40 = replicate BSIZE 7 /\ recovered 2 (disk (bc s')) 40 = replicate BSIZE 7.
Proof.
  destruct (log_crash_safe small_boot [[(40, replicate BSIZE 7)]]) as ([] & s' & E & ws & _ & _ & Hv & _).
  - apply BioProps.booted_quiet, small_blocks.
  - apply small_log_disk.
  - rewrite small_start. apply Forall_singleton, Forall_singleton.
    split; [by apply small_home | done].
  - split; [by vm_compute; lia | done].
  - exists s'. split; [exact E|]. rewrite small_start in Hv.
    destruct (Hv 40 (small_home 40 ltac:(lia))) as [V1 V2].
    rewrite V2, V1. split; by vm_compute.
Defined.

Lemma recovery_restartable_witness :
  exists s', initlog ROOTDEV (Mk log0 small_boot []) = Ret tt s' /\ n (lg s') = 0.
Proof.
  destruct (recovery_restartable small_boot) as ([] & s' & E & ws & _ & Hn & _).
  - apply BioProps.booted_quiet, small_blocks.
  - apply small_log_disk.
  - rewrite small_start. assert (disksize small_boot = 70) as -> by (by vm_compute).
    split; [lia | unfold LOGSIZE, MAXOPBLOCKS; lia].
  - rewrite small_start. unfold head_entries.
    assert (head_n (disk small_boot) 2 = 0) as -> by (by vm_compute). apply not_elem_of_nil.
  - exists s'. split; [exact E | exact Hn].
Defined.

(** A machine inside a transaction that has made the updates [ups]. *)
Lemma small_in_txn ups : Forall (update_ok 2 (disksize small_boot)) ups ->
  (length (add_entries [] ups.*1) < LOGSIZE)%nat ->
  exists s l a w es0, lrep (S := Bio.bcache) s l a w /\ tinv es0 (adisk a) l a /\
    entries l = add_entries [] ups.*1 /\ start l = 2 /\ asize a = disksize small_boot /\
    (forall b, b <> 2 -> aview a b = apply_writes ups (disk small_boot) b).
Proof.
  intros Hups Hlen. assert (lrep (Mk log0 small_boot []) log0 (a_boot small_boot) []) as Hr.
  { split_and!; [done | apply quiet_repr, BioProps.booted_quiet, small_blocks | done]. }
  destruct small_log_disk as [L1 L2 L3].
  assert (runs (initlog ROOTDEV) (fun _ s => exists l a, lrep s l a [] /\ linv l a /\ start l = 2 /\
    asize a = disksize small_boot /\ entries l = [] /\
    (forall b, b <> 2 -> aview a b = disk small_boot b)) (Mk log0 small_boot []))
    as (u & s1 & _ & l1 & a1 & Hr1 & Hi1 & Es1 & Ez1 & En1 & Ev1).
  { eapply runs_initlog; [exact Hr | split; reflexivity | reflexivity | exact L1 | exact L2 | exact L3 |].
    intros s l Hr' Hi' Es Ee. exists l. eexists. split; [exact Hr'|].
    split; [exact Hi'|]. split; [rewrite Es; exact small_start|]. split; [apply a_puts_rest|].
    split; [exact Ee|]. intros b Hb. rewrite a_puts_view. apply apply_writes_notin.
    unfold recovery_writes. rewrite fmap_app, home_writes_keys.
    change (adisk (a_boot small_boot)) with (disk small_boot). rewrite small_start.
    unfold head_entries. assert (head_n (disk small_boot) 2 = 0) as -> by (by vm_compute).
    intros [?%elem_of_nil|?%list_elem_of_singleton]%elem_of_app; done. }
  set (l1' := set_outstanding (outstanding l1 + 1) l1).
  assert (runs begin_op (fun _ s => lrep s l1' a1 []) s1) as (u' & s2 & _ & Hr2).
  { eapply runs_begin_op; [done | apply Hi1 | apply Hi1 | pose proof (i_small _ _ Hi1); lia | done]. }
  change (entries l1) with (entries l1') in En1. change (start l1) with (start l1') in Es1.
  destruct (a_updates_frame ups a1) as (V1 & V2 & _ & V4).
  assert (runs (forM ups write_block) (fun _ s => exists l, lrep s l (a_updates ups a1) [] /\
    tinv (entries l1) (adisk a1) l (a_updates ups a1) /\ entries l = add_entries [] ups.*1 /\ start l = 2) s2)
    as (u'' & s3 & _ & l3 & Hr3 & Ht3 & E3 & S3).
  { eapply runs_updates; [done | by apply begin_tinv | by rewrite Es1, Ez1 | by rewrite En1 |].
    intros s l Hr' Ht' Es' Ee. exists l. split_and!; [done | done | by rewrite Ee, En1 | congruence]. }
  exists s3, l3, (a_updates ups a1), [], (entries l1). rewrite V1, V2, V4.
  split; [done|]. split; [done|]. split_and!; try done.
  intros b Hb. apply apply_writes_ext. by apply Ev1.
Qed.

Definition final {S A} (m : M S A) (s : S) : S := match m s with Ret _ s' | Stop _ s' => s' end.

(** A torn transaction: two of them set blocks 40 and 41, first to 1 and then to 2; a crash after the first log block of the
    second recovers block 40 with 2 and block 41 with 1. *)
Lemma commit_crash_states_witness :
  let t v := [(40, replicate BSIZE v); (41, replicate BSIZE v)] in
  let s := final (initlog ROOTDEV ;;; forM [t 1] txn) (Mk log0 small_boot []) in
  exists s' ws, txn (t 2) s = Ret tt s' /\ trace (bc s') = trace (bc s) ++ ws /\
    recovered 2 (apply_writes (take 1 ws) (disk (bc s))) 40 = replicate BSIZE 2 /\
    recovered 2 (apply_writes (take 1 ws) (disk (bc s))) 41 = replicate BSIZE 1.
Proof.
  intros t s. destruct (commit_crash_states small_boot [t 1] (t 2)) as ([] & s1 & E1 & [] & s' & E2 & ws & Etr & Hcr).
  - apply BioProps.booted_quiet, small_blocks.
  - apply small_log_disk.
  - rewrite small_start. repeat constructor; apply small_home; simpl; lia.
  - vm_compute. lia.
  - assert (s1 = s) as -> by (unfold s, final; by rewrite E1). exists s', ws. split; [exact E2|]. split; [exact Etr|].
    rewrite small_start in Hcr. rewrite (Hcr 1%nat 40), (Hcr 1%nat 41) by (apply small_home; lia). split; by vm_compute.
Defined.

(** ** The last entry of the log *)

(** With all buffers pinned, no other block can be read. *)
Lemma cache_no_buffers (s : lstate Bio.bcache) a b : repr (bc s) a -> 0 <= b < asize a -> size (adirty a) = NBUF -> b ∉ adirty a ->
  cache (bread ROOTDEV b) s = Stop (Panicked "bget: no buffers") s.
Proof.
  intros Hr Hb Hsz Hni. unfold cache, zoom. change (BlockCache.bread ROOTDEV b) with (Bio.bread ROOTDEV b).
  rewrite BioRefine.bread_no_buffers; [by destruct s | apply Hr | | | ].
  - by rewrite (r_size _ _ Hr : Bio.mdisksize _ = _).
  - by rewrite (r_dirty _ _ Hr : BioRefine.mdirty _ = _).
  - by rewrite (r_dirty _ _ Hr : BioRefine.mdirty _ = _).
Qed.

(** With all buffers pinned by the log, the first [bread] of [commit] panics. *)
Lemma commit_no_buffers (s : lstate Bio.bcache) l a w :
  lrep s l a w -> log_ok l -> n l = Z.of_nat LOGSIZE -> size (adirty a) = NBUF ->
  0 <= start l + 1 < asize a -> start l + 1 ∉ adirty a ->
  commit s = Stop (Panicked "bget: no buffers") s.
Proof.
  intros (<- & Hr & <-) [Hdev _ _] Hn Hsz Hst Hni.
  assert (write_log_block 0 s = Stop (Panicked "bget: no buffers") s) as E0.
  { unfold write_log_block. unfold bind at 1, gets at 1. apply bind_stop. change (Z.of_nat 0) with 0. rewrite Z.add_0_r, Hdev.
    by apply (cache_no_buffers s a). }
  unfold commit. unfold bind at 1, gets at 1. rewrite decide_True by (rewrite Hn; by vm_compute).
  apply bind_stop. unfold write_log, for_entries. unfold bind, gets. rewrite Hn.
  change (seq 0 (Z.to_nat (Z.of_nat LOGSIZE))) with (0%nat :: seq 1 29). cbn [forM].
  by apply bind_stop.
Qed.

(** [m] panics for lack of a buffer or of a log entry. *)
Definition exhausts {A} (m : M (lstate Bio.bcache) A) (s : lstate Bio.bcache) : Prop :=
  exists msg s', m s = Stop (Panicked msg) s' /\ (msg = "bget: no buffers"%string \/ msg = "too big a transaction"%string).

Lemma exhausts_now {A B} (m : M (lstate Bio.bcache) A) (f : A -> M (lstate Bio.bcache) B) s : exhausts m s -> exhausts (bind m f) s.
Proof. intros (msg & s' & E & Hm). exists msg, s'. split; [by apply bind_stop | done]. Qed.

Lemma exhausts_later {A B} (m : M (lstate Bio.bcache) A) (f : A -> M (lstate Bio.bcache) B) s :
  runs m (fun x s' => exhausts (f x) s') s -> exhausts (bind m f) s.
Proof. intros (x & s1 & E1 & msg & s' & E & Hm). exists msg, s'. split; [by rewrite (bind_ret _ _ _ _ _ E1) | done]. Qed.

Lemma forM_app_ret {S A} (f : A -> M S unit) t0 t1 s s1 : forM t0 f s = Ret tt s1 -> forM (t0 ++ t1) f s = forM t1 f s1.
Proof.
  revert s. induction t0 as [|x t0 IH]; intros s E; simpl in *; [by injection E as ->|].
  apply bind_ret_inv in E as ([] & s2 & E1 & E2). rewrite (bind_ret _ _ _ _ _ E1). by apply IH.
Qed.

Lemma runs_forM_app {S A} (f : A -> M S unit) t0 t1 Q s : runs (forM t0 f) (fun _ s' => runs (forM t1 f) Q s') s -> runs (forM (t0 ++ t1) f) Q s.
Proof. intros ([] & s1 & E1 & Hr). unfold runs. by rewrite (forM_app_ret _ _ _ _ _ E1). Qed.

Lemma exhausts_forM {A B} (f : A -> M (lstate Bio.bcache) unit) t0 t1 (g : unit -> M (lstate Bio.bcache) B) s :
  runs (forM t0 f) (fun _ s' => exhausts (bind (forM t1 f) g) s') s -> exhausts (bind (forM (t0 ++ t1) f) g) s.
Proof. intros ([] & s1 & E1 & Hx). unfold exhausts, bind in *. by rewrite (forM_app_ret _ _ _ _ _ E1). Qed.

(** The log has taken its last entry, and every buffer is pinned. *)
Record exhausted (s : lstate Bio.bcache) l a w : Prop := {
  x_rep : lrep s l a w;
  x_idle : idle a;
  x_ok : log_ok l;
  x_place : place_ok (start l) (asize a);
  x_unlocked : llocked l = false;
  x_quiet : committing l = false;
  x_out : outstanding l = 1;
  x_n : n l = Z.of_nat LOGSIZE;
  x_size : size (adirty a) = NBUF;
  x_home : forall b, b ∈ adirty a -> home (start l) (asize a) b
}.

(** Updating one more block. *)
Lemma exhausts_write s l a w u : exhausted s l a w -> update_ok (start l) (asize a) u -> exhausts (write_block u) s.
Proof.
  intros [X1 X2 X3 X4 X5 X6 X7 X8 X9 X10] [[Hb _] Hd]. unfold write_block. destruct (decide (u.1 ∈ adirty a)) as [Hin|Hni].
  - apply exhausts_later. destruct X2 as [Hh0 Hha0]. eapply runs_lbread; [exact X1 | done | rewrite Hh0; apply not_elem_of_empty | by left|].
    intros h s1 Hnone Hr1. apply exhausts_later. eapply runs_lset; [exact Hr1 | simpl; apply lookup_insert_eq | done |]. intros s2 Hr2.
    apply exhausts_now. exists "too big a transaction"%string, s2. split; [|by right]. destruct Hr2 as (E2 & _).
    unfold log_write, bind, gets. rewrite E2. by rewrite decide_True by lia.
  - apply exhausts_now. exists "bget: no buffers"%string, s. split; [|by left]. by apply (cache_no_buffers s a); [apply X1|..].
Qed.

Lemma exhausts_end s l a w : exhausted s l a w -> exhausts end_op s.
Proof.
  intros [X1 X2 X3 X4 X5 X6 X7 X8 X9 X10]. unfold end_op. apply exhausts_later. unfold end_op_enter.
  lstep; [done|]. lstep. lstep. simpl. rewrite X6. lstep. simpl. rewrite decide_True by lia. apply runs_bind. lstep. lstep. lstep; [done|]. lstep.
  apply exhausts_now, exhausts_now. eexists _, _. split; [|by left]. eapply commit_no_buffers; [eassumption | by destruct X3; split | done | done | |].
  - destruct X4. unfold LOGSIZE, MAXOPBLOCKS in *. simpl. lia.
  - simpl. intros [_ Hx]%X10. apply Hx. unfold LOGSIZE, MAXOPBLOCKS. lia.
Qed.

(** A transaction that does not fit: its updates up to the one that takes the last entry. *)
Lemma split_last es (t : list (Z * list Z)) : (length es < LOGSIZE)%nat -> (LOGSIZE <= length (add_entries es t.*1))%nat ->
  exists t0 u t1, t = t0 ++ u :: t1 /\ length (add_entries es t0.*1) = (LOGSIZE - 1)%nat /\ u.1 ∉ add_entries es t0.*1.
Proof.
  revert es. induction t as [|u t IH]; intros es Hes Hl; [simpl in Hl; lia|].
  destruct (decide (length (add_entry es u.1) < LOGSIZE)%nat) as [Hlt|Hge].
  - destruct (IH _ Hlt Hl) as (t0 & u' & t1 & -> & E & Hn). by exists (u :: t0), u', t1.
  - exists [], u, t. unfold add_entry in Hge. case_decide; [lia|]. rewrite length_app in Hge. cbn [length] in Hge.
    split; [done|]. cbn [fmap list_fmap add_entries foldl]. split; [lia | done].
Qed.

(** The update that takes the last entry pins the last buffer. *)
Lemma runs_last es0 D0 s l a w b d : lrep s l a w -> tinv es0 D0 l a -> home (start l) (asize a) b -> length d = BSIZE ->
  length (entries l) = (LOGSIZE - 1)%nat -> b ∉ entries l ->
  runs (write_block (b, d)) (fun _ s' => exists l', exhausted s' l' (a_update (b, d) a) w /\ start l' = start l) s.
Proof.
  intros Hr [T1 T2 T3 T4 T5 T6 (Hnd & Hh & _) T8 T9 T10 T11 T12 T13] Hb Hd E Hni.
  pose proof (length_entries l T2) as Hle. pose proof (k_n l T2). pose proof (dirty_size _ _ Hnd T8) as Hsz. rewrite E in Hsz, Hle.
  assert (n l = Z.of_nat LOGSIZE - 1) as Hn by (unfold LOGSIZE, MAXOPBLOCKS in *; lia).
  eapply runs_write_block; [exact Hr | exact T1 | exact T2 | by destruct Hb | done | done | lia | lia | |].
  { apply room_idle; [exact T1|]. rewrite Hsz. unfold NBUF, LOGSIZE, MAXOPBLOCKS. lia. }
  intros s3 Hr3. exists (logged b l). destruct (entries_logged l b T2) as [Ee Hok]; [lia|].
  destruct (logged_frame b l) as (F1 & F2 & F3 & F4 & _). split; [|by rewrite F1].
  split; rewrite ?F1, ?F2, ?F3, ?F4; try done.
  - unfold logged. rewrite decide_False by done. simpl. lia.
  - simpl. rewrite size_union, size_singleton, Hsz; [done|]. apply disjoint_singleton_l. by rewrite T8, elem_of_list_to_set.
  - simpl. intros x [->%elem_of_singleton|Hx]%elem_of_union; [done|]. rewrite Forall_forall in Hh. apply Hh.
    by rewrite T8, elem_of_list_to_set in Hx.
Qed.

Lemma exhausts_txn s l a w t : lrep s l a w -> linv l a -> Forall (update_ok (start l) (asize a)) t ->
  (LOGSIZE <= length (add_entries (entries l) t.*1))%nat -> exhausts (txn t) s.
Proof.
  intros Hr Hinv Hu Hl. destruct (split_last (entries l) t) as (t0 & [b d] & t1 & -> & E & Hni); [apply Hinv | done |].
  apply Forall_app in Hu as [Hu0 [[Hb Hd] Hu1]%Forall_cons]. simpl in Hb, Hd, Hni. unfold txn. apply exhausts_later.
  eapply runs_begin_op; [done | apply Hinv | apply Hinv | pose proof (i_small _ _ Hinv); lia|].
  intros s1 Hr1. destruct (a_updates_frame t0 a) as (_ & _ & _ & V4). set (a2 := a_updates t0 a) in *.
  replace (t0 ++ (b, d) :: t1) with ((t0 ++ [(b, d)]) ++ t1) by (by rewrite <- app_assoc). apply exhausts_forM.
  apply runs_forM_app. eapply runs_updates; [done | by apply begin_tinv | done | |].
  { change (length (add_entries (entries l) t0.*1) < LOGSIZE)%nat. rewrite E. unfold LOGSIZE, MAXOPBLOCKS. lia. }
  fold a2. intros s2 l2 Hr2 Ht2 Est Ent. cbn [forM]. apply runs_bind. change (entries l2 = add_entries (entries l) t0.*1) in Ent.
  change (start l2 = start l) in Est. rewrite <- Ent in E, Hni. rewrite <- Est, <- V4 in Hb.
  eapply runs_mono; [by eapply runs_last|]. intros [] s3 (l3 & Hx & Est3). apply runs_ret. destruct t1 as [|u t1].
  - apply exhausts_later, runs_ret. by eapply exhausts_end.
  - apply exhausts_now, exhausts_now. apply Forall_cons in Hu1 as [Hu1 _]. eapply exhausts_write; [exact Hx|].
    simpl. by rewrite Est3, Est, V4.
Qed.

(** C33: the last entry of the log is one too many.  [begin_op] and [log_write] let the log grow to [LOGSIZE] entries, but every logged block pins
    a buffer and there are [NBUF = LOGSIZE] of them.  Boot from any disk with a readable log
    and run any transactions that fit; then a further transaction whose blocks, with those still in the log, are [LOGSIZE] or
    more panics: for lack of a buffer, at the latest at the first [bread] of [commit], or in [log_write].  So the transactions that
    return are exactly those that fit in [LOGSIZE - 1] entries. *)
Theorem full_log_panics (c : Bio.bcache) ts t :
  let sz := disksize c in let st := logstart (decode_sb (disk c 1)) in
  quiet c -> log_disk (disk c) sz -> Forall (Forall (update_ok st sz)) (ts ++ [t]) -> fits [] ts ->
  runs (initlog ROOTDEV ;;; forM ts txn) (fun _ s =>
    (exists s', txn t s = Ret tt s') /\ fits [] (ts ++ [t]) \/ exhausts (txn t) s /\ ~ fits [] (ts ++ [t])) (Mk log0 c []).
Proof.
  intros sz st Hq Hld [Hok [Ht _]%Forall_cons]%Forall_app Hfits. apply runs_boot; try done. fold sz st.
  intros s l a w Hr Hinv Est Esz Ent. rewrite fits_app. rewrite <- Est, <- Esz in Ht.
  destruct (decide (length (add_entries (entries l) t.*1) < LOGSIZE)%nat) as [Hlt|Hge].
  - left. split; [|split; [done|]; split; [by rewrite <- Ent | done]].
    assert (runs (txn t) (fun _ _ => True) s) as ([] & s' & E & _) by (by eapply runs_txn). by exists s'.
  - right. split; [eapply exhausts_txn; [done | done | done | lia]|]. intros [_ [Hf _]]. rewrite <- Ent in Hf. done.
Qed.

(** One transaction of 30 blocks on the small disk. *)
Lemma full_log_panics_witness :
  let t := (fun i => (38 + Z.of_nat i, replicate BSIZE 7)) <$> seq 0 30 in
  exhausts (txn t) (final (initlog ROOTDEV ;;; forM [] txn) (Mk log0 small_boot [])).
Proof.
  intros t. destruct (full_log_panics small_boot [] t) as ([] & s & E & [[_ [Hf _]]|[Hx _]]).
  - apply BioProps.booted_quiet, small_blocks.
  - apply small_log_disk.
  - rewrite small_start. apply Forall_singleton, Forall_fmap, Forall_forall. intros i Hi%list_elem_of_In%in_seq.
    split; [apply small_home; simpl; lia | done].
  - done.
  - vm_compute in Hf. lia.
  - unfold final. rewrite E. exact Hx.
Defined.

(** A machine inside a transaction that holds the buffer of block 33. *)
Lemma log_write_cases_witness :
  exists (s s' : lstate Bio.bcache) h, log_write h s = Ret tt s' /\ entries (lg s') = [33].
Proof.
  destruct (small_in_txn []) as (s & l & a & w & es0 & Hr & Ht & E & Es & Ez & _).
  { constructor. } { vm_compute. lia. }
  pose proof Ht as [T1 T2 T3 T4 T5 T6 T7 T8 T9 T10 T11 T12 T13]. pose proof T1 as [Hh0 _].
  assert (asize a = 70) as E70 by (rewrite Ez; by vm_compute).
  pose proof (length_entries _ T2) as En. rewrite E in En. change (0%nat = Z.to_nat (n l)) in En.
  assert (runs (cache (bread ROOTDEV 33)) (fun h s' => lrep s' l (a_take h 33 a) w) s) as (h & s1 & _ & Hr1).
  { eapply runs_lbread; [exact Hr | lia | rewrite Hh0; apply not_elem_of_empty | | auto].
    apply room_idle; [exact T1|]. rewrite T8, E. by vm_compute; lia. }
  destruct (log_write_cases s1 l (a_take h 33 a) w h 33) as (_ & _ & Hok).
  { exact Hr1. } { exact T2. } { exact T4. } { apply lookup_insert_eq. }
  pose proof (k_n _ T2).
  destruct Hok as (s2 & Ew & Ee & _); [unfold LOGSIZE, MAXOPBLOCKS; lia | lia |].
  exists s1, s2, h. split; [exact Ew|]. by rewrite Ee, E.
Defined.

End LogProps.
