(* ===== verification/LogProto.v ===== *)
(** The protocol of [begin_op], [log_write] and [end_op] between processes.

    The processes that use the file system interleave at the log's critical
    sections.  The model runs the functions of log.c as atomic steps of any
    process that is at the right point of a system call; the commit itself runs
    without the lock and is one step of its own between [end_op_enter] and
    [end_op_leave].  The invariant ties [outstanding] and [committing] to where
    the processes are. *)

From S2P Require Import Prelude Bytes BlockCache BlockClient Bio BioRefine.
From S2P Require Import FsLayout Log LogDisk LogRun LogTxn.
Import Log.

Module LogProto.

Section proto.
Context {S : Type} `{BufSpec S}.
Implicit Types (s : lstate S).

(** ** What the functions leave alone *)

Definition counters (l : log) : bool * bool * Z := (llocked l, committing l, outstanding l).

Definition keeps {A} (m : M (lstate S) A) : Prop :=
  forall s a s', m s = Ret a s' -> counters (lg s') = counters (lg s).

Lemma keeps_ret {A} (a : A) : keeps (ret a).
Proof. by intros s x s' [= <- <-]. Qed.
Lemma keeps_stop {A} r : keeps (A := A) (stop_with r).
Proof. done. Qed.
Lemma keeps_gets {A} (f : lstate S -> A) : keeps (gets f).
Proof. by intros s x s' [= <- <-]. Qed.
Lemma keeps_cache {A} (m : M S A) : keeps (cache m).
Proof. intros s x s'. unfold cache, zoom. destruct (m (bc s)); [by intros [= <- <-] | done]. Qed.
Lemma keeps_updl f : (forall l, counters (f l) = counters l) -> keeps (updl f).
Proof. intros Hf s x s' [= <- <-]. apply Hf. Qed.
Lemma keeps_bind {A B} (m : M (lstate S) A) (f : A -> M (lstate S) B) :
  keeps m -> (forall a, keeps (f a)) -> keeps (bind m f).
Proof.
  intros Hm Hf s b s' (a & s1 & E1 & E2)%bind_ret_inv. rewrite (Hf _ _ _ _ E2). by eapply Hm.
Qed.
Lemma keeps_forM {A} (l : list A) (f : A -> M (lstate S) unit) :
  (forall x, keeps (f x)) -> keeps (forM l f).
Proof. intros Hf. induction l; [apply keeps_ret | by apply keeps_bind]. Qed.
Lemma keeps_if {P} `{Decision P} {A} (m m' : M (lstate S) A) :
  keeps m -> keeps m' -> keeps (if decide P then m else m').
Proof. by case_decide. Qed.
Lemma keeps_block_at i : keeps (block_at i).
Proof.
  apply keeps_bind; [apply keeps_gets|]. intros l. destruct (block l !! i); [apply keeps_ret | apply keeps_stop].
Qed.

Create HintDb keeps discriminated.
#[local] Hint Resolve keeps_ret keeps_stop keeps_gets keeps_cache keeps_bind keeps_forM keeps_if
  keeps_block_at : keeps.
#[local] Hint Extern 1 (keeps (updl _)) => apply keeps_updl; reflexivity : keeps.
#[local] Hint Extern 2 (forall _, keeps _) => intros ? : keeps.

Ltac keeps := repeat (eauto with keeps; first
  [ apply keeps_bind; [|intros ?] | apply keeps_if | apply keeps_forM; intros ? ]); eauto with keeps.

Lemma keeps_install_trans : keeps install_trans.
Proof. unfold install_trans, for_entries, install_block. keeps. Qed.
Lemma keeps_write_log : keeps write_log.
Proof. unfold write_log, for_entries, write_log_block. keeps. Qed.
Lemma keeps_write_head : keeps write_head.
Proof. unfold write_head, for_entries, store_entry. keeps. Qed.
#[local] Hint Resolve keeps_install_trans keeps_write_log keeps_write_head : keeps.
Lemma keeps_commit : keeps commit.
Proof. unfold commit. keeps. Qed.
Lemma keeps_sync : keeps sync.
Proof. unfold sync. keeps. Qed.
#[local] Hint Resolve keeps_commit keeps_sync : keeps.
Lemma keeps_end_op_commit : keeps end_op_commit.
Proof.
  unfold end_op_commit. apply keeps_bind; [apply keeps_commit|]. intros _.
  apply keeps_bind; [apply keeps_gets|]. intros l. destruct (full l); keeps.
Qed.

Lemma keeps_log_write h s s' : log_write h s = Ret tt s' -> llocked (lg s) = false ->
  counters (lg s') = counters (lg s) /\ 1 <= outstanding (lg s).
Proof.
  unfold log_write. unfold bind at 1, gets at 1. intros E Hl.
  destruct (decide (Z.of_nat LOGSIZE <= n (lg s))); [done|].
  destruct (decide (outstanding (lg s) < 1)); [done|]. split; [|lia]. revert E.
  unfold acquire, release, cache, zoom, updl. mrun. rewrite Hl. simpl.
  repeat (case_decide; simpl); intros [= <-]; unfold counters; simpl; by rewrite Hl.
Qed.

(** ** The transition system *)

(** The state, and the processes inside an operation, committing, and about to
    leave [end_op] after their commit. *)
Record pstate := P {
  ls : lstate S;
  inside : gset nat;
  comm : gset nat;
  leaving : gset nat
}.

Definition outside (p : nat) (x : pstate) : Prop :=
  p ∉ inside x /\ p ∉ comm x /\ p ∉ leaving x.

Inductive step : pstate -> pstate -> Prop :=
| step_begin p x s' : outside p x -> begin_op (ls x) = Ret (Done tt) s' ->
    step x (P s' ({[p]} ∪ inside x) (comm x) (leaving x))
| step_wait p x c s' : outside p x -> begin_op (ls x) = Ret (Blocked c tt) s' ->
    step x (P s' (inside x) (comm x) (leaving x))
| step_buffers p x A (m : M S A) r s' : p ∈ inside x -> cache m (ls x) = Ret r s' ->
    step x (P s' (inside x) (comm x) (leaving x))
| step_log p x h s' : p ∈ inside x -> log_write h (ls x) = Ret tt s' ->
    step x (P s' (inside x) (comm x) (leaving x))
| step_end p x (b : bool) s' : p ∈ inside x -> end_op_enter (ls x) = Ret b s' ->
    step x (P s' (inside x ∖ {[p]}) (if b then {[p]} ∪ comm x else comm x) (leaving x))
| step_commit p x s' : p ∈ comm x -> end_op_commit (ls x) = Ret tt s' ->
    step x (P s' (inside x) (comm x ∖ {[p]}) ({[p]} ∪ leaving x))
| step_leave p x s' : p ∈ leaving x -> end_op_leave (ls x) = Ret tt s' ->
    step x (P s' (inside x) (comm x) (leaving x ∖ {[p]})).

Definition initial (x : pstate) : Prop :=
  counters (lg (ls x)) = (false, false, 0) /\ inside x = ∅ /\ comm x = ∅ /\ leaving x = ∅.

Record pinv (x : pstate) : Prop := {
  v_unlocked : llocked (lg (ls x)) = false;
  v_out : outstanding (lg (ls x)) = Z.of_nat (size (inside x));
  v_quiet : committing (lg (ls x)) = false -> comm x = ∅ /\ leaving x = ∅;
  v_comm : committing (lg (ls x)) = true -> inside x = ∅ /\
    exists p, (comm x = {[p]} /\ leaving x = ∅) \/ (comm x = ∅ /\ leaving x = {[p]})
}.

(** The outcomes of the critical sections. *)
Lemma begin_op_run s : llocked (lg s) = false ->
  begin_op s =
    if committing (lg s) || bool_decide (Z.of_nat LOGSIZE - 1 < n (lg s)) then Ret (Blocked A_log tt) s
    else Ret (Done tt) (Mk (set_outstanding (outstanding (lg s) + 1) (lg s)) (bc s) (wakeups s)).
Proof.
  intros Hl. destruct s as [l c w]. destruct l; simpl in *. subst.
  unfold begin_op, acquire, release, updl. mrun. simpl.
  destruct committing0; simpl; [done|].
  destruct (decide (Z.of_nat LOGSIZE - 1 < n0)); simpl.
  - by rewrite bool_decide_true.
  - by rewrite bool_decide_false.
Qed.

Lemma end_op_enter_run s : llocked (lg s) = false -> committing (lg s) = false ->
  end_op_enter s =
    if decide (outstanding (lg s) = 1)
    then Ret true (Mk (set_committing true (set_outstanding (outstanding (lg s) - 1) (lg s))) (bc s) (wakeups s))
    else Ret false (Mk (set_outstanding (outstanding (lg s) - 1) (lg s)) (bc s) (wakeups s ++ [A_log])).
Proof.
  intros Hl Hc. destruct s as [l c w]. destruct l; simpl in *. subst.
  unfold end_op_enter, acquire, release, updl, wakeup. mrun. simpl.
  destruct (decide (outstanding0 - 1 = 0)); simpl.
  - by rewrite decide_True by lia.
  - by rewrite decide_False by lia.
Qed.

Lemma end_op_leave_run s : llocked (lg s) = false ->
  end_op_leave s = Ret tt (Mk (set_committing false (lg s)) (bc s) (wakeups s ++ [A_log])).
Proof.
  intros Hl. destruct s as [l c w]. destruct l; simpl in *. subst.
  unfold end_op_leave, acquire, release, updl, wakeup. mrun. done.
Qed.

Lemma counters_pinv x s' : pinv x -> counters (lg s') = counters (lg (ls x)) ->
  pinv (P s' (inside x) (comm x) (leaving x)).
Proof. intros [V1 V2 V3 V4] [= E1 E2 E3]. split; simpl; rewrite ?E1, ?E2, ?E3; done. Qed.

Lemma initial_pinv x : initial x -> pinv x.
Proof.
  intros ([= E1 E2 E3] & I1 & I2 & I3). split; rewrite ?I1, ?I2, ?I3; try done; congruence.
Qed.

Lemma empty_absurd (X : gset nat) p : X = ∅ -> p ∈ X -> False.
Proof. intros -> Hp. by apply not_elem_of_empty in Hp. Qed.

Lemma size_nonzero (X : gset nat) p : p ∈ X -> size X <> 0%nat.
Proof. intros Hp Hz. apply size_empty_inv, leibniz_equiv in Hz. by eapply empty_absurd. Qed.

Lemma size_remove (X : gset nat) p : p ∈ X -> size (X ∖ {[p]}) = (size X - 1)%nat.
Proof.
  intros Hp. rewrite size_difference by (by apply singleton_subseteq_l). by rewrite size_singleton.
Qed.

Lemma singleton_eq (X : gset nat) p q : X = {[q]} -> p ∈ X -> p = q.
Proof. intros ->. apply elem_of_singleton. Qed.

Lemma step_end_pinv p x b s' : pinv x -> p ∈ inside x -> end_op_enter (ls x) = Ret b s' ->
  pinv (P s' (inside x ∖ {[p]}) (if b : bool then {[p]} ∪ comm x else comm x) (leaving x)).
Proof.
  intros [V1 V2 V3 V4] Hp E. destruct (committing (lg (ls x))) eqn:Ec.
  { destruct (V4 eq_refl) as [Hi _]. by destruct (empty_absurd _ _ Hi Hp). }
  destruct (V3 eq_refl) as [Hc Hl]. pose proof (size_remove _ _ Hp). pose proof (size_nonzero _ _ Hp).
  rewrite end_op_enter_run in E by done. destruct (decide (outstanding (lg (ls x)) = 1)) as [Ho|Ho];
    injection E as <- <-; split; simpl; try done; try lia.
  - intros _. split; [apply leibniz_equiv, size_empty_inv; lia|]. exists p. left.
    by rewrite Hc, union_empty_r_L.
  - by rewrite Ec.
Qed.

Lemma step_pinv x y : pinv x -> step x y -> pinv y.
Proof.
  intros Hv Hs. pose proof Hv as [V1 V2 V3 V4].
  destruct Hs as [p x s' Ho E|p x c s' Ho E|p x A m r s' Hp E|p x h s' Hp E|p x b s' Hp E
                 |p x s' Hp E|p x s' Hp E].
  - rewrite begin_op_run in E by done. destruct (committing (lg (ls x))) eqn:Ec; [done|].
    simpl in E. destruct (bool_decide _); [done|]. injection E as <-.
    destruct (V3 eq_refl) as [Hc Hl]. destruct Ho as (Ho & _ & _).
    split; simpl; try done; [|by rewrite Ec].
    rewrite V2, size_union by (by apply disjoint_singleton_l). rewrite size_singleton. lia.
  - rewrite begin_op_run in E by done. apply counters_pinv; [done|].
    destruct (committing (lg (ls x)) || _); [|done]. by injection E as _ <-.
  - apply counters_pinv; [done|]. by eapply keeps_cache.
  - apply counters_pinv; [done|]. by apply (keeps_log_write h).
  - by apply step_end_pinv.
  - apply keeps_end_op_commit in E. injection E as E1 E2 E3.
    destruct (committing (lg (ls x))) eqn:Ec.
    2: { destruct (V3 eq_refl) as [Hc _]. by destruct (empty_absurd _ _ Hc Hp). }
    destruct (V4 eq_refl) as [Hi (q & [[Hq Hl]|[Hq Hl]])]; [|by destruct (empty_absurd _ _ Hq Hp)].
    pose proof (singleton_eq _ _ _ Hq Hp) as ->.
    split; simpl; rewrite ?E1, ?E2, ?E3; try done. intros _. split; [done|].
    exists q. right. by rewrite Hq, Hl, difference_diag_L, union_empty_r_L.
  - rewrite end_op_leave_run in E by done. injection E as <-.
    destruct (committing (lg (ls x))) eqn:Ec.
    2: { destruct (V3 eq_refl) as [_ Hl]. by destruct (empty_absurd _ _ Hl Hp). }
    destruct (V4 eq_refl) as [Hi (q & [[Hq Hl]|[Hq Hl]])]; [by destruct (empty_absurd _ _ Hl Hp)|].
    pose proof (singleton_eq _ _ _ Hl Hp) as ->.
    split; simpl; try done. intros _. by rewrite Hq, Hl, difference_diag_L.
Qed.

Lemma reachable_pinv x y : initial x -> rtc step x y -> pinv y.
Proof.
  intros Hi Hr. assert (pinv x) as Hv by (by apply initial_pinv). clear Hi.
  induction Hr as [|x y z Hxy _ IH]; [done|]. by apply IH, (step_pinv x).
Qed.

(** C11: In every interleaving of processes, [outstanding] counts the processes
    inside an operation, a commit runs only while there are none and is the only
    one, so that: [end_op] never panics with "log.committing" and always gets
    the lock; [log_write] inside an operation never panics with "log_write
    outside of trans"; [begin_op] lets a process in exactly when nobody commits
    and the log has a free entry, and otherwise puts it to sleep. *)
Theorem log_protocol x y : initial x -> rtc step x y ->
  outstanding (lg (ls y)) = Z.of_nat (size (inside y)) /\
  (comm y ∪ leaving y <> ∅ -> inside y = ∅ /\ size (comm y ∪ leaving y) = 1%nat) /\
  (forall p, p ∈ inside y -> (exists b s', end_op_enter (ls y) = Ret b s') /\
     forall h, log_write h (ls y) <> Stop (Panicked "log_write outside of trans") (ls y)) /\
  (forall p, p ∈ leaving y -> exists s', end_op_leave (ls y) = Ret tt s') /\
  (exists r s', begin_op (ls y) = Ret r s' /\
     (r = Done tt <-> comm y ∪ leaving y = ∅ /\ n (lg (ls y)) <= Z.of_nat LOGSIZE - 1)).
Proof.
  intros Hi Hr. destruct (reachable_pinv _ _ Hi Hr) as [V1 V2 V3 V4]. split_and!.
  - done.
  - intros Hne. destruct (committing (lg (ls y))) eqn:Ec.
    2: { destruct (V3 eq_refl) as [E1 E2]. by rewrite E1, E2, union_empty_l_L in Hne. }
    destruct (V4 eq_refl) as [Hin (p & [[-> ->]|[-> ->]])]; (split; [done|]);
      rewrite ?union_empty_r_L, ?union_empty_l_L; apply size_singleton.
  - intros p Hp. pose proof (size_nonzero _ _ Hp). destruct (committing (lg (ls y))) eqn:Ec.
    { destruct (V4 eq_refl) as [E _]. by destruct (empty_absurd _ _ E Hp). }
    split.
    + rewrite end_op_enter_run by done. case_decide; eauto.
    + intros h. unfold log_write. unfold bind at 1, gets at 1. case_decide; [done|].
      rewrite decide_False by lia.
      unfold acquire, release, cache, zoom, updl. mrun. rewrite V1. simpl.
      repeat (case_decide; simpl); done.
  - intros p Hp. rewrite end_op_leave_run by done. eauto.
  - rewrite begin_op_run by done. destruct (committing (lg (ls y))) eqn:Ec; simpl.
    + eexists _, _. split; [done|]. split; [done|]. intros [He _].
      apply empty_union_L in He as [He1 He2]. exfalso.
      destruct (V4 eq_refl) as [_ (p & [[Hp _]|[_ Hp]])];
        [apply (empty_absurd _ p He1) | apply (empty_absurd _ p He2)]; rewrite Hp; by apply elem_of_singleton.
    + destruct (V3 eq_refl) as [-> ->]. case_bool_decide as Hn; eexists _, _; (split; [done|]).
      * split; [done|]. lia.
      * split; [|done]. intros _. split; [apply union_empty_l_L | lia].
Qed.
End proto.

#[local] Existing Instance Bio.Bio.bufops.
#[local] Existing Instance BioRefine.BioRefine.bufspec.

Lemma log_protocol_witness :
  let x := P (Mk log0 (Bio.Bio.zeroed [] 1) []) ∅ ∅ ∅ in
  exists y, step x y /\ outstanding (lg (ls y)) = 1 /\ inside y = {[3%nat]}.
Proof.
  intros x. set (y := P (Mk (set_outstanding 1 log0) (Bio.Bio.zeroed [] 1) []) ({[3%nat]} ∪ ∅) ∅ ∅).
  assert (step x y) as Hs by (apply (step_begin 3); done).
  exists y. split; [exact Hs|].
  destruct (log_protocol x y) as (Ho & _); [done | by apply rtc_once |].
  split; [exact Ho|]. simpl. by rewrite union_empty_r_L.
Defined.
End LogProto.
