(* ===== verification/Fs.v ===== *)
(** The file system: src/xv6-public/fs.c.

    Blocks, inodes, directories and path names, written over the log and the
    buffer cache ([lstate S], with [S] any implementation of [BufOps]).  The
    in-memory inodes are the array [icache]; a pointer to one is its index.  The
    sleep lock of an inode is as one process sees it: a taken lock makes the
    caller sleep.  The device switch [devsw] holds functions installed by other
    parts of the kernel and is a parameter.  [cprintf] output is not part of the
    state. *)

From S2P Require Import Prelude Bytes CString BlockCache FsLayout Log.

Module Fs.

Definition NINODE : nat := 50.
Definition NDEV : Z := 10.
Definition T_DIR : Z := 1.
Definition T_FILE : Z := 2.
Definition T_DEV : Z := 3.

(** [struct inode]; the fields copied from the disk are a [dinode]. *)
Record inode := MkInode {
  idev : Z;
  inum : Z;
  ref : Z;
  ilocked : bool;
  ilpid : Z;
  valid : bool;
  din : dinode
}.

Definition inode0 : inode := MkInode 0 0 0 false 0 false (MkDinode 0 0 0 0 0 (replicate (XDIRECT + 1) 0)).

Definition set_ref (v : Z) (ip : inode) : inode :=
  MkInode (idev ip) (inum ip) v (ilocked ip) (ilpid ip) (valid ip) (din ip).
Definition set_ilock (b : bool) (p : Z) (ip : inode) : inode :=
  MkInode (idev ip) (inum ip) (ref ip) b p (valid ip) (din ip).
Definition set_valid (v : bool) (ip : inode) : inode :=
  MkInode (idev ip) (inum ip) (ref ip) (ilocked ip) (ilpid ip) v (din ip).
Definition set_din (d : dinode) (ip : inode) : inode :=
  MkInode (idev ip) (inum ip) (ref ip) (ilocked ip) (ilpid ip) (valid ip) d.
Definition set_type (v : Z) (d : dinode) : dinode :=
  MkDinode v (dmajor d) (dminor d) (dnlink d) (dsize d) (daddrs d).
Definition set_nlink (v : Z) (d : dinode) : dinode :=
  MkDinode (dtype d) (dmajor d) (dminor d) v (dsize d) (daddrs d).
Definition set_size (v : Z) (d : dinode) : dinode :=
  MkDinode (dtype d) (dmajor d) (dminor d) (dnlink d) v (daddrs d).
Definition set_addr (k : nat) (v : Z) (d : dinode) : dinode :=
  MkDinode (dtype d) (dmajor d) (dminor d) (dnlink d) (dsize d) (<[k := v]> (daddrs d)).

(** The file system over the log, with the super block [sb], the inode cache,
    and the pid of the running process. *)
Record fstate (S : Type) := MkFs {
  fl : Log.lstate S;
  sb : superblock;
  icache : list inode;
  cpid : Z
}.
Arguments MkFs {S} fl sb icache cpid.
Arguments fl {S} f.
Arguments sb {S} f.
Arguments icache {S} f.
Arguments cpid {S} f.

Section ops.
Context {S : Type} `{BufOps S}.
Notation F := (M (fstate S)).

(** The functions of the device switch, by major number: reading yields the
    result and the bytes stored, writing the result. *)
Context (devread : Z -> option (nat -> Z -> F (Z * list Z))).
Context (devwrite : Z -> option (nat -> list Z -> F Z)).

Definition logop {A} (m : M (Log.lstate S) A) : F A :=
  zoom fl (fun l s => MkFs l (sb s) (icache s) (cpid s)) m.
Definition bread (dev b : Z) : F nat := logop (Log.cache (BlockCache.bread dev b)).
Definition brelse (bp : nat) : F unit := logop (Log.cache (BlockCache.brelse bp)).
Definition log_write (bp : nat) : F unit := logop (Log.log_write bp).
(** [bp->data] *)
Definition bufdata (bp : nat) : F (list Z) := gets (fun s => bdata (Log.bc (fl s)) bp).
Definition store (bp : nat) (f : list Z -> list Z) : F unit :=
  logop (Log.cache (modify (fun c => bset bp (f (bdata c bp)) c))).

Definition geti (s : fstate S) (ip : nat) : inode := nth ip (icache s) inode0.
Definition inode_at (ip : nat) : F inode := gets (fun s => geti s ip).
Definition updi (ip : nat) (f : inode -> inode) : F unit :=
  modify (fun s => MkFs (fl s) (sb s) (<[ip := f (geti s ip)]> (icache s)) (cpid s)).

(** ** Blocks *)

Definition readsb (dev : Z) : F superblock :=
  let! bp := bread dev 1 in
  let! d := bufdata bp in
  brelse bp ;;;
  ret (decode_sb d).

Definition set_sb (v : superblock) : F unit := modify (fun s => MkFs (fl s) v (icache s) (cpid s)).

Definition bzero (dev bno : Z) : F unit :=
  let! bp := bread dev bno in
  store bp (fun d => replicate (length d) 0) ;;;
  log_write bp ;;;
  brelse bp.

(** [1 << (bi % 8)], and byte [bi/8] of the bitmap block. *)
Definition bit_mask (bi : Z) : Z := Z.shiftl 1 (bi mod 8).
Definition bit_byte (bi : Z) : nat := Z.to_nat (bi / 8).

(** The inner loop of [balloc]: the first clear bit among the first [lim]. *)
Definition free_bit (d : list Z) (lim : Z) : option Z :=
  List.find (fun bi => bool_decide (Z.land (byte_at d (bit_byte bi)) (bit_mask bi) = 0))
            (Z.of_nat <$> seq 0 (Z.to_nat lim)).

(** One round of the outer loop of [balloc], for the blocks from [b]. *)
Definition balloc_group (dev b : Z) : F (option Z) :=
  let! s := gets sb in
  let! bp := bread dev (BBLOCK b s) in
  let! d := bufdata bp in
  match free_bit d (Z.min BPB (sbsize s - b)) with
  | Some bi =>
      store bp (fun d => <[bit_byte bi := Z.lor (byte_at d (bit_byte bi)) (bit_mask bi)]> d) ;;;
      log_write bp ;;;
      brelse bp ;;;
      bzero dev (b + bi) ;;;
      ret (Some (b + bi))
  | None => brelse bp ;;; ret None
  end.

Definition balloc (dev : Z) : F Z :=
  let! s := gets sb in
  let! r := find_forM ((fun k => Z.of_nat k * BPB) <$> seq 0 (Z.to_nat ((sbsize s + BPB - 1) / BPB)))
                      (balloc_group dev) in
  match r with
  | Some b => ret b
  | None => panic "balloc: out of blocks"
  end.

Definition bfree (dev b : Z) : F unit :=
  let! s := readsb dev in
  set_sb s ;;;
  let! bp := bread dev (BBLOCK b s) in
  let! d := bufdata bp in
  let bi := b mod BPB in
  if decide (Z.land (byte_at d (bit_byte bi)) (bit_mask bi) = 0) then panic "freeing free block" else
  store bp (fun d => <[bit_byte bi := Z.land (byte_at d (bit_byte bi)) (Z.lnot (bit_mask bi))]> d) ;;;
  log_write bp ;;;
  brelse bp.

(** ** Inodes *)

Definition iinit (dev : Z) : F unit :=
  forM (seq 0 NINODE) (fun i => updi i (set_ilock false 0)) ;;;
  let! s := readsb dev in
  set_sb s.

(** The loop of [iget] from entry [i]: a referenced entry for the inode, or the
    first free entry. *)
Fixpoint iget_scan (l : list inode) (dev num : Z) (i : nat) (empty : option nat) : bool * option nat :=
  match l with
  | [] => (false, empty)
  | ip :: l' =>
      if decide (0 < ref ip /\ idev ip = dev /\ inum ip = num) then (true, Some i)
      else iget_scan l' dev num (Datatypes.S i)
             (if decide (empty = None /\ ref ip = 0) then Some i else empty)
  end.

Definition iget (dev num : Z) : F nat :=
  let! l := gets icache in
  match iget_scan l dev num 0 None with
  | (true, Some i) => updi i (fun ip => set_ref (ref ip + 1) ip) ;;; ret i
  | (_, Some i) =>
      updi i (fun ip => MkInode dev num 1 (ilocked ip) (ilpid ip) false (din ip)) ;;; ret i
  | (_, None) => panic "iget: no inodes"
  end.

Definition ialloc_try (dev type num : Z) : F (option nat) :=
  let! s := gets sb in
  let! bp := bread dev (IBLOCK num s) in
  let! d := bufdata bp in
  if decide (get16 d (inode_off num) = 0) then
    store bp (fun d => put16 (inode_off num) (type mod 2 ^ 16)
                         (blit (inode_off num) (replicate sizeof_dinode 0) d)) ;;;
    log_write bp ;;;
    brelse bp ;;;
    let! ip := iget dev num in
    ret (Some ip)
  else brelse bp ;;; ret None.

Definition ialloc (dev type : Z) : F nat :=
  let! s := gets sb in
  let! r := find_forM (Z.of_nat <$> seq 1 (Z.to_nat (ninodes s - 1))) (ialloc_try dev type) in
  match r with
  | Some ip => ret ip
  | None => panic "ialloc: no inodes"
  end.

Definition iupdate (ip : nat) : F unit :=
  let! i := inode_at ip in
  let! s := gets sb in
  let! bp := bread (idev i) (IBLOCK (inum i) s) in
  store bp (encode_dinode (inode_off (inum i)) (din i)) ;;;
  log_write bp ;;;
  brelse bp.

Definition idup (ip : nat) : F nat :=
  updi ip (fun i => set_ref (ref i + 1) i) ;;; ret ip.

Definition acquiresleep (ip : nat) : F unit :=
  let! i := inode_at ip in
  if ilocked i then stop_with (Slept (A_sleeplock (Z.of_nat ip)))
  else let! p := gets cpid in updi ip (set_ilock true p).
Definition releasesleep (ip : nat) : F unit := updi ip (set_ilock false 0).
Definition holdingsleep (ip : nat) : F bool :=
  gets (fun s => ilocked (geti s ip) && bool_decide (ilpid (geti s ip) = cpid s)).

Definition ilock (ip : nat) : F unit :=
  let! i := inode_at ip in
  if decide (ref i < 1) then panic "ilock" else
  acquiresleep ip ;;;
  let! i := inode_at ip in
  if valid i then ret tt else
  let! s := gets sb in
  let! bp := bread (idev i) (IBLOCK (inum i) s) in
  let! d := bufdata bp in
  updi ip (set_din (decode_dinode d (inode_off (inum i)))) ;;;
  brelse bp ;;;
  updi ip (set_valid true) ;;;
  let! i := inode_at ip in
  if decide (dtype (din i) = 0) then panic "ilock: no type" else ret tt.

Definition iunlock (ip : nat) : F unit :=
  let! h := holdingsleep ip in
  let! i := inode_at ip in
  if negb h || bool_decide (ref i < 1) then panic "iunlock" else
  releasesleep ip.

(** ** Inode contents *)

(** [ip->addrs[k]], allocating a block if there is none. *)
Definition inode_slot (ip k : nat) : F Z :=
  let! i := inode_at ip in
  let addr := nth k (daddrs (din i)) 0 in
  if decide (addr = 0) then
    let! addr := balloc (idev i) in
    updi ip (fun i => set_din (set_addr k addr (din i)) i) ;;;
    ret addr
  else ret addr.

(** [a[k]] of the indirect block in [bp], allocating a block if there is none. *)
Definition indirect_slot (ip bp : nat) (k : Z) : F Z :=
  let! i := inode_at ip in
  let! d := bufdata bp in
  let addr := get32 d (4 * Z.to_nat k) in
  if decide (addr = 0) then
    let! addr := balloc (idev i) in
    store bp (put32 (4 * Z.to_nat k) addr) ;;;
    log_write bp ;;;
    ret addr
  else ret addr.

Definition bmap (ip : nat) (bn : Z) : F Z :=
  let! i := inode_at ip in
  if decide (bn < Z.of_nat NDIRECT) then inode_slot ip (Z.to_nat bn) else
  let bn := bn - Z.of_nat NDIRECT in
  if decide (bn < NINDIRECT) then
    let! addr := inode_slot ip NDIRECT in
    let! bp := bread (idev i) addr in
    let! addr := indirect_slot ip bp bn in
    brelse bp ;;;
    ret addr
  else
  let bn := bn - NINDIRECT in
  if decide (bn < NDINDIRECT) then
    let! addr := inode_slot ip (NDIRECT + 1) in
    let! bp := bread (idev i) addr in
    let! addr := indirect_slot ip bp (bn / NINDIRECT) in
    let! bp2 := bread (idev i) addr in
    let! addr := indirect_slot ip bp2 (bn mod NINDIRECT) in
    brelse bp2 ;;;
    brelse bp ;;;
    ret addr
  else
  let bn := bn - NDINDIRECT in
  if decide (bn < NTINDIRECT) then
    let! addr := inode_slot ip (NDIRECT + 2) in
    let! bp := bread (idev i) addr in
    let! addr := indirect_slot ip bp (bn / NDINDIRECT) in
    let! bp2 := bread (idev i) addr in
    let! addr := indirect_slot ip bp2 ((bn mod NDINDIRECT) / NINDIRECT) in
    let! bp3 := bread (idev i) addr in
    let! addr := indirect_slot ip bp3 ((bn mod NDINDIRECT) mod NINDIRECT) in
    brelse bp3 ;;;
    brelse bp2 ;;;
    brelse bp ;;;
    ret addr
  else panic "bmap: out of range".

(** [if(a[j]) { bfree(a[j]); a[j] = 0; }] for the indirect block in [bp], after
    [pre a[j]] where the entry is itself an indirect block. *)
Definition free_entry (dev : Z) (bp : nat) (pre : Z -> F unit) (j : nat) : F unit :=
  let! d := bufdata bp in
  let a := get32 d (4 * j) in
  if decide (a = 0) then ret tt else
  pre a ;;;
  bfree dev a ;;;
  store bp (put32 (4 * j) 0).

(** The loops over the entries of one, two and three levels of indirection. *)
Definition free_level1 (dev : Z) (bp : nat) : F unit :=
  forM (seq 0 (Z.to_nat NINDIRECT)) (free_entry dev bp (fun _ => ret tt)).
Definition free_level2 (dev : Z) (bp : nat) : F unit :=
  forM (seq 0 (Z.to_nat NINDIRECT)) (free_entry dev bp (fun a =>
    let! bp2 := bread dev a in free_level1 dev bp2 ;;; brelse bp2)).
Definition free_level3 (dev : Z) (bp : nat) : F unit :=
  forM (seq 0 (Z.to_nat NINDIRECT)) (free_entry dev bp (fun a =>
    let! bp2 := bread dev a in free_level2 dev bp2 ;;; brelse bp2)).

(** [if(ip->addrs[k]) { bp = bread(..); ..; brelse(bp); bfree(..); ip->addrs[k] = 0; }] *)
Definition trunc_slot (ip k : nat) (level : Z -> nat -> F unit) : F unit :=
  let! i := inode_at ip in
  let a := nth k (daddrs (din i)) 0 in
  if decide (a = 0) then ret tt else
  let! bp := bread (idev i) a in
  level (idev i) bp ;;;
  brelse bp ;;;
  bfree (idev i) a ;;;
  updi ip (fun i => set_din (set_addr k 0 (din i)) i).

Definition itrunc (ip : nat) : F unit :=
  forM (seq 0 NDIRECT) (fun k =>
    let! i := inode_at ip in
    let a := nth k (daddrs (din i)) 0 in
    if decide (a = 0) then ret tt else
    bfree (idev i) a ;;;
    updi ip (fun i => set_din (set_addr k 0 (din i)) i)) ;;;
  trunc_slot ip NDIRECT free_level1 ;;;
  trunc_slot ip (NDIRECT + 1) free_level2 ;;;
  trunc_slot ip (NDIRECT + 2) free_level3 ;;;
  updi ip (fun i => set_din (set_size 0 (din i)) i) ;;;
  iupdate ip.

Definition iput (ip : nat) : F unit :=
  acquiresleep ip ;;;
  let! i := inode_at ip in
  (if valid i && bool_decide (dnlink (din i) = 0) && bool_decide (ref i = 1) then
     itrunc ip ;;;
     updi ip (fun i => set_din (set_type 0 (din i)) i) ;;;
     iupdate ip ;;;
     updi ip (set_valid false)
   else ret tt) ;;;
  releasesleep ip ;;;
  updi ip (fun i => set_ref (ref i - 1) i).

Definition iunlockput (ip : nat) : F unit := iunlock ip ;;; iput ip.

(** [struct stat] as [stati] fills it. *)
Record stat := MkStat {
  st_type : Z;
  st_dev : Z;
  st_ino : Z;
  st_nlink : Z;
  st_size : Z
}.
Definition stati (ip : nat) : F stat :=
  let! i := inode_at ip in
  ret (MkStat (dtype (din i)) (i32 (idev i)) (inum i) (dnlink (din i)) (dsize (din i))).

(** The bytes of one block a transfer of [n - tot] bytes at [off] can move. *)
Definition chunk (off n tot : Z) : Z := Z.min (n - tot) (Z.of_nat BSIZE - off mod Z.of_nat BSIZE).

(** The copying loop of [readi]; every round moves at least one byte. *)
Fixpoint readi_loop (fuel : nat) (ip : nat) (off n tot : Z) : F (list Z) :=
  if decide (n <= tot) then ret [] else
  match fuel with
  | O => stop_with Spins
  | Datatypes.S fuel' =>
      let! i := inode_at ip in
      let! b := bmap ip (off / Z.of_nat BSIZE) in
      let! bp := bread (idev i) b in
      let m := chunk off n tot in
      let! d := bufdata bp in
      brelse bp ;;;
      let! rest := readi_loop fuel' ip (off + m) n (tot + m) in
      ret (slice (Z.to_nat (off mod Z.of_nat BSIZE)) (Z.to_nat m) d ++ rest)
  end.

(** The result and the bytes stored at [dst]. *)
Definition readi (ip : nat) (off n : Z) : F (Z * list Z) :=
  let! i := inode_at ip in
  if decide (dtype (din i) = T_DEV) then
    if decide (dmajor (din i) < 0 \/ NDEV <= dmajor (din i)) then ret (-1, []) else
    match devread (dmajor (din i)) with
    | Some f => f ip (i32 n)
    | None => ret (-1, [])
    end
  else
  if decide (dsize (din i) < off \/ u32 (off + n) < off) then ret (-1, []) else
  let n := if decide (dsize (din i) < off + n) then dsize (din i) - off else n in
  let! l := readi_loop (Z.to_nat n) ip off n 0 in
  ret (i32 n, l).

(** The copying loop of [writei]; [src] is what is left to write.  The result is
    the final offset. *)
Fixpoint writei_loop (fuel : nat) (ip : nat) (src : list Z) (off n tot : Z) : F Z :=
  if decide (n <= tot) then ret off else
  match fuel with
  | O => stop_with Spins
  | Datatypes.S fuel' =>
      let! i := inode_at ip in
      let! b := bmap ip (off / Z.of_nat BSIZE) in
      let! bp := bread (idev i) b in
      let m := chunk off n tot in
      store bp (blit (Z.to_nat (off mod Z.of_nat BSIZE)) (take (Z.to_nat m) src)) ;;;
      log_write bp ;;;
      brelse bp ;;;
      writei_loop fuel' ip (drop (Z.to_nat m) src) (off + m) n (tot + m)
  end.

Definition writei (ip : nat) (src : list Z) (off n : Z) : F Z :=
  let! i := inode_at ip in
  if decide (dtype (din i) = T_DEV) then
    if decide (dmajor (din i) < 0 \/ NDEV <= dmajor (din i)) then ret (-1) else
    match devwrite (dmajor (din i)) with
    | Some f => f ip (take (Z.to_nat n) src)
    | None => ret (-1)
    end
  else
  if decide (dsize (din i) < off \/ u32 (off + n) < off) then ret (-1) else
  if decide (MAXFILE * Z.of_nat BSIZE < u32 (off + n)) then ret (-1) else
  let! off' := writei_loop (Z.to_nat n) ip src off n 0 in
  let! i := inode_at ip in
  (if decide (0 < n /\ dsize (din i) < off')
   then updi ip (fun i => set_din (set_size off' (din i)) i) ;;; iupdate ip
   else ret tt) ;;;
  ret (i32 n).

(** ** Directories *)

(** Names are character arrays; the string functions stop at a terminator or
    after [DIRSIZ] characters. *)
Definition namecmp (s t : list Z) : Z :=
  CString.strncmp (CString.chars s) (CString.chars t) DIRSIZ.

(** The offsets of the entries of a directory of [size] bytes. *)
Definition dir_offsets (size : Z) : list Z :=
  (fun k => 16 * Z.of_nat k) <$> seq 0 (Z.to_nat ((size + 15) / 16)).

(** Reading the entry at [off]. *)
Definition read_dirent (dp : nat) (msg : string) (off : Z) : F dirent :=
  let! r := readi dp off 16 in
  if decide (r.1 <> 16) then panic msg else ret (decode_dirent r.2).

(** The inode, and the offset [*poff] of its entry. *)
Definition dirlookup (dp : nat) (name : list Z) : F (option (nat * Z)) :=
  let! d := inode_at dp in
  if decide (dtype (din d) <> T_DIR) then panic "dirlookup not DIR" else
  find_forM (dir_offsets (dsize (din d))) (fun off =>
    let! de := read_dirent dp "dirlookup read" off in
    if decide (dinum de = 0) then ret None else
    if decide (namecmp name (dname de) = 0) then
      let! ip := iget (idev d) (dinum de) in
      ret (Some (ip, off))
    else ret None).

Definition dirlink (dp : nat) (name : list Z) (num : Z) : F Z :=
  let! r := dirlookup dp name in
  match r with
  | Some (ip, _) => iput ip ;;; ret (-1)
  | None =>
      let! d := inode_at dp in
      let! free := find_forM (dir_offsets (dsize (din d))) (fun off =>
        let! de := read_dirent dp "dirlink read" off in
        ret (if decide (dinum de = 0) then Some off else None)) in
      let off := default (16 * ((dsize (din d) + 15) / 16)) free in
      let de := MkDirent (num mod 2 ^ 16) (CString.strncpy (CString.chars name) DIRSIZ) in
      let! w := writei dp (encode_dirent de) off 16 in
      if decide (w <> 16) then panic "dirlink" else ret 0
  end.

(** ** Paths *)

Definition SLASH : Z := 47.

Fixpoint skip_slashes (path : list Z) : list Z :=
  match path with
  | c :: p => if decide (c = SLASH) then skip_slashes p else path
  | [] => []
  end.

(** The characters before the next slash, and the rest. *)
Fixpoint path_elem (path : list Z) : list Z * list Z :=
  match path with
  | [] => ([], [])
  | c :: p => if decide (c = SLASH) then ([], path)
              else let (e, r) := path_elem p in (c :: e, r)
  end.

(** Paths are the characters before the terminator.  The result is the rest of
    the path and the new contents of the array [name]. *)
Definition skipelem (path name : list Z) : option (list Z * list Z) :=
  match skip_slashes path with
  | [] => None
  | p =>
      let (s, r) := path_elem p in
      let name' := if decide (DIRSIZ <= length s)%nat then blit 0 (take DIRSIZ s) name
                   else blit 0 (s ++ [0]) name in
      Some (skip_slashes r, name')
  end.

(** The loop of [namex]; each round consumes at least one character. *)
Fixpoint namex_loop (fuel : nat) (ip : nat) (path name : list Z) (parent : bool)
  : F (option nat * list Z) :=
  match skipelem path name with
  | None =>
      if parent then iput ip ;;; ret (None, name) else ret (Some ip, name)
  | Some (path, name) =>
      match fuel with
      | O => stop_with Spins
      | Datatypes.S fuel' =>
          ilock ip ;;;
          let! i := inode_at ip in
          if decide (dtype (din i) <> T_DIR) then iunlockput ip ;;; ret (None, name) else
          if parent && bool_decide (path = []) then iunlock ip ;;; ret (Some ip, name) else
          let! next := dirlookup ip name in
          match next with
          | None => iunlockput ip ;;; ret (None, name)
          | Some (next, _) => iunlockput ip ;;; namex_loop fuel' next path name parent
          end
      end
  end.

(** [cwd] is [myproc()->cwd]. *)
Definition namex (cwd : nat) (path : list Z) (parent : bool) (name : list Z) : F (option nat * list Z) :=
  let! ip := (if bool_decide (head path = Some SLASH) then iget ROOTDEV ROOTINO else idup cwd) in
  namex_loop (length path) ip path name parent.

(** [name] is an uninitialised array in [namei]; its contents do not matter. *)
Definition namei (cwd : nat) (path : list Z) : F (option nat) :=
  let! r := namex cwd path false (replicate DIRSIZ 0) in ret r.1.
Definition nameiparent (cwd : nat) (path name : list Z) : F (option nat * list Z) :=
  namex cwd path true name.
End ops.
End Fs.
