(* ===== verification/FsPure.v ===== *)
(** The on-disk inode format and path names, without the state.

    Storing a [dinode] and loading it back is the identity and leaves the other
    inodes of the block alone; [skipelem] takes the components of a path one at a
    time. *)

From S2P Require Import Prelude Bytes CString BlockCache BlockClient FsLayout Log LogDisk Fs.
Import Fs.

#[local] Arguments Nat.add : simpl never.
#[local] Arguments Nat.mul : simpl never.

(** ** Inodes on the disk *)

Definition is_short (x : Z) : Prop := - 2 ^ 15 <= x < 2 ^ 15.

Record dinode_ok (x : dinode) : Prop := {
  do_type : is_short (dtype x);
  do_major : is_short (dmajor x);
  do_minor : is_short (dminor x);
  do_nlink : is_short (dnlink x);
  do_size : is_uint (dsize x);
  do_len : length (daddrs x) = (XDIRECT + 1)%nat;
  do_addrs : Forall is_uint (daddrs x)
}.

Lemma i16_mod x : is_short x -> i16 (x mod 2 ^ 16) = x.
Proof.
  unfold is_short, i16. intros Hx. rewrite Z.mod_mod by lia.
  destruct (decide (0 <= x)) as [H0|H0].
  - rewrite Z.mod_small by lia. by rewrite decide_True by lia.
  - rewrite <- (Z.mod_add x 1), Z.mod_small by lia. rewrite decide_False by lia. lia.
Qed.

Lemma short_range x : 0 <= x mod 2 ^ 16 < 2 ^ 16.
Proof. apply Z.mod_pos_bound. lia. Qed.

Lemma put_addrs_fold off l d : put_addrs off l d =
  foldl (fun d k => put32 (off + 4 * k) (nth k l 0) d) d (seq 0 (XDIRECT + 1)).
Proof. done. Qed.

Lemma addrs_fold_length off g ks d :
  length (foldl (fun d k => put32 (off + 4 * k) (g k) d) d ks) = length d.
Proof. revert d. induction ks as [|k ks IH]; intros d; [done|]. simpl. by rewrite IH, length_put32. Qed.

Lemma addrs_fold_get16 off g ks d o :
  (forall k, In k ks -> (o + 1 < off + 4 * k \/ off + 4 * k + 3 < o)%nat) ->
  get16 (foldl (fun d k => put32 (off + 4 * k) (g k) d) d ks) o = get16 d o.
Proof.
  revert d. induction ks as [|k ks IH]; intros d Hk; [done|]. simpl.
  rewrite IH by (intros; apply Hk; by right). apply get16_put32_ne.
  specialize (Hk k (or_introl eq_refl)). lia.
Qed.

Lemma addrs_fold_get32 off g ks d o :
  (forall k, In k ks -> (o + 3 < off + 4 * k \/ off + 4 * k + 3 < o)%nat) ->
  get32 (foldl (fun d k => put32 (off + 4 * k) (g k) d) d ks) o = get32 d o.
Proof.
  intros Hk. unfold get32. rewrite !addrs_fold_get16; [done | |]; intros k Hi; specialize (Hk k Hi); lia.
Qed.

Lemma addrs_fold_eq off g ks d k : NoDup ks -> In k ks -> is_uint (g k) ->
  (off + 4 * k + 3 < length d)%nat ->
  get32 (foldl (fun d k => put32 (off + 4 * k) (g k) d) d ks) (off + 4 * k) = g k.
Proof.
  revert d. induction ks as [|j ks IH]; intros d Hnd Hin Hg Hlen; [done|].
  apply NoDup_cons in Hnd as [Hni Hnd]. simpl. destruct Hin as [->|Hin].
  - rewrite addrs_fold_get32; [by apply get32_put32_eq|].
    intros i Hi. assert (i <> k) by (intros ->; by apply Hni, list_elem_of_In). lia.
  - apply IH; try done. by rewrite length_put32.
Qed.

Lemma get_put_addrs off l d : length l = (XDIRECT + 1)%nat -> Forall is_uint l ->
  (off + 4 * (XDIRECT + 1) <= length d)%nat -> get_addrs (put_addrs off l d) off = l.
Proof.
  intros Hl Hu Hd. unfold get_addrs. rewrite put_addrs_fold. apply list_eq. intros i.
  rewrite list_lookup_fmap. destruct (decide (i < XDIRECT + 1)%nat) as [Hi|Hi].
  - rewrite lookup_seq_lt by done. cbn [fmap option_fmap option_map]. rewrite Nat.add_0_l.
    destruct (lookup_lt_is_Some_2 l i) as [b Hb]; [lia|]. rewrite Hb. f_equal.
    rewrite (addrs_fold_eq off (fun k => nth k l 0)).
    + by rewrite (nth_lookup_Some l i 0 b).
    + apply NoDup_seq.
    + apply in_seq. lia.
    + rewrite (nth_lookup_Some l i 0 b) by done. by eapply Forall_lookup_1 in Hu.
    + lia.
  - rewrite lookup_seq_ge by lia. by rewrite (lookup_ge_None_2 l) by lia.
Qed.

Lemma get_put_addrs_ne off off' l d :
  (off + 52 <= off' \/ off' + 52 <= off)%nat ->
  get_addrs (put_addrs off l d) off' = get_addrs d off'.
Proof.
  intros Ho. unfold get_addrs. rewrite put_addrs_fold. apply list_fmap_ext. intros i k Hk.
  apply lookup_seq in Hk as [-> Hk]. apply addrs_fold_get32. intros j Hj%in_seq.
  unfold XDIRECT in *. lia.
Qed.

Lemma length_encode_dinode off x d : length (encode_dinode off x d) = length d.
Proof.
  unfold encode_dinode. rewrite put_addrs_fold, addrs_fold_length.
  by rewrite length_put32, !length_put16.
Qed.

Lemma encode_dinode_eq off x d : dinode_ok x -> (off + 64 <= length d)%nat ->
  decode_dinode (encode_dinode off x d) off = x.
Proof.
  intros [H1 H2 H3 H4 H5 H6 H7] Hd. unfold decode_dinode, encode_dinode.
  rewrite get_put_addrs by (rewrite ?length_put32, ?length_put16; done || (unfold XDIRECT; lia)).
  rewrite put_addrs_fold.
  rewrite !addrs_fold_get16 by (intros k Hk%in_seq; lia).
  rewrite addrs_fold_get32 by (intros k Hk%in_seq; lia).
  rewrite !get16_put32_ne by lia.
  rewrite get32_put32_eq by (rewrite ?length_put16; done || lia).
  assert (forall o v e, (o + 1 < length e)%nat -> is_short v ->
    i16 (get16 (put16 o (v mod 2 ^ 16) e) o) = v) as Hget.
  { intros o v e Ho Hv. rewrite get16_put16_eq by (done || apply short_range). by apply i16_mod. }
  rewrite !(get16_put16_ne (off + 6)) by lia. rewrite !(get16_put16_ne (off + 4)) by lia.
  rewrite !(get16_put16_ne (off + 2)) by lia. rewrite !Hget by (rewrite ?length_put16; done || lia).
  by destruct x.
Qed.

Lemma encode_dinode_ne off off' x d : (off + 64 <= off' \/ off' + 64 <= off)%nat ->
  decode_dinode (encode_dinode off x d) off' = decode_dinode d off'.
Proof.
  intros Ho. unfold decode_dinode, encode_dinode. rewrite get_put_addrs_ne by lia.
  assert (get_addrs (put32 (off + 8) (dsize x) (put16 (off + 6) (dnlink x mod 2 ^ 16)
    (put16 (off + 4) (dminor x mod 2 ^ 16) (put16 (off + 2) (dmajor x mod 2 ^ 16)
    (put16 off (dtype x mod 2 ^ 16) d))))) (off' + 12) = get_addrs d (off' + 12)) as ->.
  { unfold get_addrs. apply list_fmap_ext. intros i k Hk. apply lookup_seq in Hk as [-> Hk].
    unfold XDIRECT in Hk. rewrite get32_put32_ne by lia. by rewrite !get32_put16_ne by lia. }
  rewrite put_addrs_fold.
  rewrite !addrs_fold_get16 by (intros k Hk%in_seq; unfold XDIRECT in Hk; lia).
  rewrite addrs_fold_get32 by (intros k Hk%in_seq; unfold XDIRECT in Hk; lia).
  rewrite !get16_put32_ne by lia. rewrite get32_put32_ne by lia. rewrite !get32_put16_ne by lia.
  by rewrite !get16_put16_ne by lia.
Qed.

(** ** Paths *)

(** The pieces of a path between slashes, and its components: the pieces that
    are not empty. *)
Fixpoint split_slash (p : list Z) : list (list Z) :=
  match p with
  | [] => [[]]
  | c :: p' =>
      if decide (c = SLASH) then [] :: split_slash p'
      else match split_slash p' with
           | e :: es => (c :: e) :: es
           | [] => [[c]]
           end
  end.
Definition components (p : list Z) : list (list Z) :=
  List.filter (fun e => bool_decide (e <> [])) (split_slash p).

Lemma split_slash_cons p : exists e es, split_slash p = e :: es.
Proof. destruct p as [|c p]; simpl; [eauto|]. case_decide; [eauto|]. destruct (split_slash p); eauto. Qed.

Lemma components_skip p : components (skip_slashes p) = components p.
Proof.
  induction p as [|c p IH]; [done|]. simpl. case_decide as Hc; [|done].
  rewrite IH. unfold components. simpl. by rewrite decide_True.
Qed.

Lemma skip_slashes_head p : match skip_slashes p with c :: _ => c <> SLASH | [] => True end.
Proof. induction p as [|c p IH]; [done|]. simpl. by case_decide. Qed.

Lemma skip_slashes_length p : (length (skip_slashes p) <= length p)%nat.
Proof. induction p as [|c p IH]; [done|]. simpl. case_decide; simpl; lia. Qed.

Lemma path_elem_spec p e r : path_elem p = (e, r) ->
  p = e ++ r /\ Forall (fun c => c <> SLASH) e /\ match r with c :: _ => c = SLASH | [] => True end.
Proof.
  revert e r. induction p as [|c p IH]; intros e r; simpl; [by intros [= <- <-]|].
  case_decide as Hc; [intros [= <- <-]; by split_and!|].
  destruct (path_elem p) as [e' r'] eqn:E. intros [= <- <-].
  destruct (IH _ _ eq_refl) as (-> & H1 & H2). split_and!; try done. by constructor.
Qed.

Lemma components_elem e r : e <> [] -> Forall (fun c => c <> SLASH) e ->
  match r with c :: _ => c = SLASH | [] => True end ->
  components (e ++ r) = e :: components r.
Proof.
  intros He Hs Hr.
  assert (exists es, split_slash (e ++ r) = e :: es /\ components r = List.filter (fun e => bool_decide (e <> [])) es)
    as (es & E & Ec).
  { clear He. induction e as [|c e IH].
    - destruct r as [|c r]; simpl; [by exists []|]. subst. rewrite decide_True by done.
      exists (split_slash r). split; [done|]. done.
    - apply Forall_cons in Hs as [Hc Hs]. destruct (IH Hs) as (es & E & Ec). exists es.
      simpl. rewrite decide_False, E by done. done. }
  unfold components at 1. rewrite E. simpl. rewrite bool_decide_true by done. by rewrite Ec.
Qed.

Lemma upto_cut l n : Forall (fun c => c <> 0) l -> (n <= length l)%nat ->
  CString.upto (CString.chars l) n = take n l.
Proof.
  revert n. induction l as [|c l IH]; intros n Hl Hn; destruct n as [|n]; try done; try (simpl in Hn; lia).
  apply Forall_cons in Hl as [Hc Hl]. simpl. rewrite decide_False by done. f_equal.
  apply IH; [done|]. simpl in Hn. lia.
Qed.

Lemma upto_stop l r n : Forall (fun c => c <> 0) l -> (length l <= n)%nat ->
  CString.upto (CString.chars (l ++ 0 :: r)) n = l.
Proof.
  revert n. induction l as [|c l IH]; intros n Hl Hn; destruct n as [|n]; try done; try (simpl in Hn; lia).
  apply Forall_cons in Hl as [Hc Hl]. simpl. rewrite decide_False by done. f_equal.
  apply IH; [done|]. simpl in Hn. lia.
Qed.

(** The contents [skipelem] leaves in the array [name] for the element [e]. *)
Lemma name_string e name : Forall (fun c => c <> 0) e -> length name = DIRSIZ ->
  let name' := if decide (DIRSIZ <= length e)%nat then blit 0 (take DIRSIZ e) name
               else blit 0 (e ++ [0]) name in
  length name' = DIRSIZ /\ CString.upto (CString.chars name') DIRSIZ = take DIRSIZ e.
Proof.
  intros He Hn name'. unfold name'. case_decide as Hl.
  - rewrite blit_all by (rewrite length_take; lia). split; [rewrite length_take; lia|].
    rewrite upto_cut; [by rewrite take_take, Nat.min_id | by apply Forall_take | rewrite length_take; lia].
  - assert (length (e ++ [0%Z]) <= length name)%nat as Hle by (rewrite length_app; simpl; lia).
    split; [rewrite length_blit by lia; done|].
    unfold blit. rewrite take_0, app_nil_l, <- app_assoc. cbn [app].
    rewrite upto_stop by (done || lia). by rewrite take_ge by lia.
Qed.

(** What one step of path resolution does. *)
Lemma skipelem_step path name : Forall (fun c => c <> 0) path -> length name = DIRSIZ ->
  match components path with
  | [] => skipelem path name = None
  | c :: cs => exists rest name', skipelem path name = Some (rest, name') /\
      components rest = cs /\ (rest = [] <-> cs = []) /\ head rest <> Some SLASH /\
      (length rest < length path)%nat /\ Forall (fun c => c <> 0) rest /\
      length name' = DIRSIZ /\ CString.upto (CString.chars name') DIRSIZ = take DIRSIZ c
  end.
Proof.
  intros Hp Hn. rewrite <- (components_skip path). unfold skipelem.
  pose proof (skip_slashes_head path) as Hhd. pose proof (skip_slashes_length path) as Hlen.
  assert (Forall (fun c => c <> 0) (skip_slashes path)) as Hp'.
  { clear -Hp. induction path as [|c p IH]; [done|]. simpl. case_decide; [|done].
    apply IH. by apply Forall_cons in Hp as [_ ?]. }
  destruct (skip_slashes path) as [|c p] eqn:E; [done|].
  destruct (path_elem (c :: p)) as [e r] eqn:Ee.
  destruct (path_elem_spec _ _ _ Ee) as (Heq & He & Hr).
  assert (e <> []) as Hne.
  { intros ->. simpl in Heq. subst r. done. }
  rewrite Heq, components_elem by done.
  assert (Forall (fun c => c <> 0) e /\ Forall (fun c => c <> 0) r) as [He0 Hr0].
  { rewrite Heq in Hp'. by apply Forall_app in Hp'. }
  destruct (name_string e name He0 Hn) as [N1 N2].
  eexists _, _. split; [done|]. split_and!; try done.
  - apply components_skip.
  - rewrite <- (components_skip r). pose proof (skip_slashes_head r) as Hh.
    destruct (skip_slashes r) as [|c' r'] eqn:Er; [done|]. split; [done|].
    destruct (path_elem (c' :: r')) as [e' r''] eqn:Ee'.
    destruct (path_elem_spec _ _ _ Ee') as (Heq' & He' & Hr').
    rewrite Heq', components_elem; try done. intros ->. simpl in Heq'. by subst r''.
  - pose proof (skip_slashes_head r) as Hh. destruct (skip_slashes r); [done|]. simpl. congruence.
  - pose proof (skip_slashes_length r). rewrite Heq in Hlen. rewrite length_app in Hlen.
    destruct e; [done|]. simpl in Hlen. lia.
  - clear -Hr0. induction r as [|c r IH]; [done|]. simpl. case_decide; [|done].
    apply IH. by apply Forall_cons in Hr0 as [_ ?].
Qed.

(** Iterating [skipelem], as [namex] does: the element names of a path. *)
Fixpoint elements (fuel : nat) (path name : list Z) : option (list (list Z)) :=
  match skipelem path name with
  | None => Some []
  | Some (path', name') =>
      match fuel with
      | O => None
      | S f => match elements f path' name' with
               | Some l => Some (CString.upto (CString.chars name') DIRSIZ :: l)
               | None => None
               end
      end
  end.

Module FsPure.

(** Iterating [skipelem] over a path yields its components between slashes,
    in order, each cut to [DIRSIZ] characters, and takes no more rounds than the
    path has characters; repeated, leading and trailing slashes do not matter. *)
Theorem skipelem_components path name :
  Forall (fun c => c <> 0) path -> length name = DIRSIZ ->
  elements (length path) path name = Some (take DIRSIZ <$> components path).
Proof.
  assert (forall fuel path name, Forall (fun c => c <> 0) path -> length name = DIRSIZ ->
    (length path <= fuel)%nat -> elements fuel path name = Some (take DIRSIZ <$> components path)) as H.
  { clear. intros fuel. induction fuel as [|f IH]; intros path name Hp Hn Hf;
      pose proof (skipelem_step path name Hp Hn) as Hs.
    - destruct path; [done | simpl in Hf; lia].
    - destruct (components path) as [|c cs] eqn:Ec.
      { cbn [elements]. by rewrite Hs. }
      destruct Hs as (rest & name' & E & <- & _ & _ & Hl & Hr & Hn' & Hu).
      cbn [elements]. rewrite E, (IH rest name') by (done || lia). by rewrite Hu. }
  intros Hp Hn. by apply H.
Qed.

(** "///a//bb" *)
Lemma skipelem_components_witness :
  elements 8 [47; 47; 47; 97; 47; 47; 98; 98] (replicate 14 0) = Some [[97]; [98; 98]].
Proof.
  etransitivity; [apply (skipelem_components [47; 47; 47; 97; 47; 47; 98; 98] (replicate 14 0))|];
    [|done|done].
  repeat constructor; done.
Defined.

(** The on-disk inode format: storing the fields of an inode as [iupdate]
    does and loading them as [ilock] does gives the same inode back, and leaves
    the other inodes of the block unchanged. *)
Theorem dinode_roundtrip i x d : dinode_ok x -> length d = BSIZE ->
  decode_dinode (encode_dinode (inode_off i) x d) (inode_off i) = x /\
  forall j, j mod IPB <> i mod IPB ->
    decode_dinode (encode_dinode (inode_off i) x d) (inode_off j) = decode_dinode d (inode_off j).
Proof.
  intros Hx Hd. assert (forall k, 0 <= k mod IPB < 8) as Hr.
  { intros k. change IPB with 8. by apply Z.mod_pos_bound. }
  split.
  - apply encode_dinode_eq; [done|]. rewrite Hd. unfold inode_off, sizeof_dinode, BSIZE.
    specialize (Hr i). lia.
  - intros j Hj. apply encode_dinode_ne. unfold inode_off, sizeof_dinode.
    pose proof (Hr i). pose proof (Hr j). lia.
Qed.

Lemma dinode_roundtrip_witness :
  let x := MkDinode 2 0 0 1 1000 (replicate 13 77) in
  decode_dinode (encode_dinode (inode_off 11) x (replicate 512 9)) (inode_off 11) = x.
Proof.
  intros x. destruct (dinode_roundtrip 11 x (replicate 512 9)) as [E _]; [|done|exact E].
  split; try done. repeat constructor; done.
Defined.

End FsPure.
