(* ===== verification/FsRun.v ===== *)
(** Running the file system inside a transaction.

    [frep s x] relates a file-system state to an abstract one: the abstract cache
    of BlockClient.v, the super block, the in-memory inodes.  The rules below
    step through fs.c on the abstract state; the log's own bookkeeping
    disappears behind the requirement that fewer than [LOGSIZE] blocks are
    logged. *)

From S2P Require Import Prelude Bytes CString BlockCache BlockClient FsLayout.
From S2P Require Import Log LogDisk LogRun LogTxn Fs FsPure.
Import Fs.

#[local] Arguments Nat.add : simpl never.
#[local] Arguments Nat.mul : simpl never.

Record afs := AFs {
  ac : acache;
  asb : superblock;
  aic : list inode;
  apid : Z
}.

Definition with_ac (a : acache) (x : afs) : afs := AFs a (asb x) (aic x) (apid x).
Definition with_ic (l : list inode) (x : afs) : afs := AFs (ac x) (asb x) l (apid x).
Definition with_sb (v : superblock) (x : afs) : afs := AFs (ac x) v (aic x) (apid x).
Definition ageti (x : afs) (ip : nat) : inode := nth ip (aic x) inode0.
Definition aupdi (ip : nat) (f : inode -> inode) (x : afs) : afs :=
  with_ic (<[ip := f (ageti x ip)]> (aic x)) x.

Section run.
Context {S : Type} `{BufSpec S}.
Implicit Types (s : fstate S) (x : afs) (a : acache).

(** The log inside a transaction. *)
Definition tx (l : Log.log) a : Prop :=
  log_ok l /\ Log.llocked l = false /\ 1 <= Log.outstanding l /\
  NoDup (entries l) /\ adirty a = list_to_set (entries l).

Definition frep s x : Prop :=
  exists l w, lrep (fl s) l (ac x) w /\ tx l (ac x) /\
    sb s = asb x /\ icache s = aic x /\ cpid s = apid x.

Lemma frep_aeq s x a : frep s x -> aeq (ac x) a -> frep s (with_ac a x).
Proof.
  intros (l & w & Hr & (T1 & T2 & T3 & T4 & T5) & E1 & E2 & E3) Ha. exists l, w.
  split; [by eapply lrep_aeq|]. split; [|by split_and!]. unfold tx. simpl.
  rewrite (e_dirty _ _ Ha). by split_and!.
Qed.

Lemma frep_repr s x : frep s x -> repr (Log.bc (fl s)) (ac x).
Proof. by intros (l & w & (_ & Hr & _) & _). Qed.

Lemma fruns_logop {A} s x (m : M (Log.lstate S) A) (Q : A -> fstate S -> Prop) :
  (forall l w, lrep (fl s) l (ac x) w -> tx l (ac x) ->
     runs m (fun r ls => Q r (MkFs ls (sb s) (icache s) (cpid s))) (fl s)) ->
  frep s x -> runs (logop m) Q s.
Proof. intros Hm (l & w & Hr & Ht & _). apply runs_zoom. by eapply Hm. Qed.

Lemma fruns_bread s x b (Q : nat -> fstate S -> Prop) : frep s x ->
  0 <= b < asize (ac x) -> b ∉ aheld (ac x) -> room b (ac x) ->
  (forall h s', ahandle (ac x) !! h = None -> frep s' (with_ac (a_take h b (ac x)) x) -> Q h s') ->
  runs (Fs.bread ROOTDEV b) Q s.
Proof.
  intros Hf Hb Hh Hroom HQ. pose proof Hf as (l0 & w0 & _ & _ & E1 & E2 & E3).
  eapply fruns_logop; [|done]. intros l w Hr Ht. eapply runs_lbread; [done..|].
  intros h ls Hn Hr'. apply HQ; [done|]. exists l, w. by split_and!.
Qed.

Lemma fruns_store s x h b f (Q : unit -> fstate S -> Prop) : frep s x ->
  ahandle (ac x) !! h = Some b -> length (f (aview (ac x) b)) = BSIZE ->
  (forall s', frep s' (with_ac (a_set b (f (aview (ac x) b)) (ac x)) x) -> Q tt s') ->
  runs (store h f) Q s.
Proof.
  intros Hf Hh Hlen HQ. pose proof Hf as (l0 & w0 & _ & _ & E1 & E2 & E3).
  eapply fruns_logop; [|done]. intros l w Hr Ht.
  eapply (runs_lset _ _ _ _ h b (fun c => f (bdata c h))); [done | done | by rewrite (lrep_data _ _ _ _ _ _ Hr Hh)|].
  intros ls Hr'. rewrite (lrep_data _ _ _ _ _ _ Hr Hh) in Hr'. apply HQ. exists l, w. by split_and!.
Qed.

Lemma fruns_log_write s x h b (Q : unit -> fstate S -> Prop) : frep s x ->
  ahandle (ac x) !! h = Some b -> (size (adirty (ac x)) < LOGSIZE)%nat ->
  (forall s', frep s' (with_ac (a_pin b (ac x)) x) -> Q tt s') ->
  runs (Fs.log_write h) Q s.
Proof.
  intros Hf Hh Hsz HQ. pose proof Hf as (l0 & w0 & _ & _ & E1 & E2 & E3).
  eapply fruns_logop; [|done]. intros l w Hr (T1 & T2 & T3 & T4 & T5).
  rewrite (dirty_size _ _ T4 T5), (length_entries _ T1) in Hsz. pose proof (k_n _ T1) as Hkn.
  assert (Log.n l < Z.of_nat LOGSIZE) as Hn by lia.
  eapply runs_log_write; [done | done | done | done | done | done |].
  intros ls Hr'. apply HQ. exists (logged b l), w.
  destruct (entries_logged l b T1 Hn) as [Ee Hok].
  destruct (logged_frame b l) as (F1 & F2 & F3 & F4 & _).
  split; [done|]. split; [|by split_and!].
  split; [done|]. split; [by rewrite F2|]. split; [by rewrite F4|]. rewrite Ee. simpl. rewrite T5.
  unfold add_entry. case_decide.
  - split; [done | set_solver].
  - split; [|set_solver]. apply NoDup_app. split_and!; [done | set_solver | apply NoDup_singleton].
Qed.

Lemma fruns_brelse s x h b (Q : unit -> fstate S -> Prop) : frep s x ->
  ahandle (ac x) !! h = Some b -> b ∈ adirty (ac x) \/ aview (ac x) b = adisk (ac x) b ->
  (forall s', frep s' (with_ac (a_drop h b (ac x)) x) -> Q tt s') ->
  runs (Fs.brelse h) Q s.
Proof.
  intros Hf Hh Hok HQ. pose proof Hf as (l0 & w0 & _ & _ & E1 & E2 & E3).
  eapply fruns_logop; [|done]. intros l w Hr Ht. eapply runs_lrelse; [done..|].
  intros ls Hr'. apply HQ. exists l, w. by split_and!.
Qed.

Lemma fruns_bufdata s x h b (Q : list Z -> fstate S -> Prop) : frep s x ->
  ahandle (ac x) !! h = Some b -> Q (aview (ac x) b) s -> runs (bufdata h) Q s.
Proof.
  intros (l & w & Hr & _) Hh HQ. apply runs_gets. by rewrite (lrep_data _ _ _ _ _ _ Hr Hh).
Qed.

Lemma fruns_sb s x (Q : superblock -> fstate S -> Prop) : frep s x -> Q (asb x) s -> runs (gets sb) Q s.
Proof. intros (l & w & _ & _ & <- & _) HQ. by apply runs_gets. Qed.

Lemma fruns_cpid s x (Q : Z -> fstate S -> Prop) : frep s x -> Q (apid x) s -> runs (gets cpid) Q s.
Proof. intros (l & w & _ & _ & _ & _ & <-) HQ. by apply runs_gets. Qed.

Lemma fruns_icache s x (Q : list inode -> fstate S -> Prop) : frep s x -> Q (aic x) s -> runs (gets icache) Q s.
Proof. intros (l & w & _ & _ & _ & <- & _) HQ. by apply runs_gets. Qed.

Lemma fruns_inode s x ip (Q : inode -> fstate S -> Prop) : frep s x -> Q (ageti x ip) s ->
  runs (inode_at ip) Q s.
Proof.
  intros (l & w & _ & _ & _ & E & _) HQ. apply runs_gets. unfold geti. rewrite E. done.
Qed.

Lemma fruns_updi s x ip f (Q : unit -> fstate S -> Prop) : frep s x ->
  (forall s', frep s' (aupdi ip f x) -> Q tt s') -> runs (updi ip f) Q s.
Proof.
  intros (l & w & Hr & Ht & E1 & E2 & E3) HQ. apply runs_modify, HQ. exists l, w.
  split_and!; try done. simpl. unfold geti, ageti. by rewrite E2.
Qed.

Lemma fruns_set_sb s x v (Q : unit -> fstate S -> Prop) : frep s x ->
  (forall s', frep s' (with_sb v x) -> Q tt s') -> runs (set_sb v) Q s.
Proof.
  intros (l & w & Hr & Ht & E1 & E2 & E3) HQ. apply runs_modify, HQ. exists l, w. by split_and!.
Qed.
End run.

(** Simplify projections of updated abstract states. *)
Ltac fclean :=
  repeat match goal with
  | H : context [ac (with_ac ?a ?x)] |- _ => change (ac (with_ac a x)) with a in H
  | H : context [with_ac ?a (with_ac ?a' ?x)] |- _ =>
      change (with_ac a (with_ac a' x)) with (with_ac a x) in H
  | H : context [asb (with_ac ?a ?x)] |- _ => change (asb (with_ac a x)) with (asb x) in H
  | H : context [ageti (with_ac ?a ?x) ?i] |- _ => change (ageti (with_ac a x) i) with (ageti x i) in H
  | |- context [ac (with_ac ?a ?x)] => change (ac (with_ac a x)) with a
  | |- context [with_ac ?a (with_ac ?a' ?x)] =>
      change (with_ac a (with_ac a' x)) with (with_ac a x)
  | |- context [asb (with_ac ?a ?x)] => change (asb (with_ac a x)) with (asb x)
  | |- context [ageti (with_ac ?a ?x) ?i] => change (ageti (with_ac a x) i) with (ageti x i)
  end.

(** Take the next step with the rule that fits it. *)
Ltac fstep := fstep_rule; fclean
with fstep_rule :=
  lazymatch goal with
  | |- runs (bind _ _) _ _ => apply runs_bind; fstep_rule
  | |- runs (ret _) _ _ => apply runs_ret
  | |- runs (gets sb) _ _ => eapply fruns_sb; [eassumption|]
  | |- runs (gets cpid) _ _ => eapply fruns_cpid; [eassumption|]
  | |- runs (gets icache) _ _ => eapply fruns_icache; [eassumption|]
  | |- runs (inode_at _) _ _ => eapply fruns_inode; [eassumption|]
  | |- runs (updi _ _) _ _ => eapply fruns_updi; [eassumption | intros ?s ?]
  | |- runs (set_sb _) _ _ => eapply fruns_set_sb; [eassumption | intros ?s ?]
  | |- runs (bufdata _) _ _ => eapply fruns_bufdata; [eassumption | |]
  | |- runs (Fs.bread _ _) _ _ => eapply fruns_bread; [eassumption | | | | intros ?h ?s ? ?]
  | |- runs (store _ _) _ _ => eapply fruns_store; [eassumption | | | intros ?s ?]
  | |- runs (Fs.log_write _) _ _ => eapply fruns_log_write; [eassumption | | | intros ?s ?]
  | |- runs (Fs.brelse _) _ _ => eapply fruns_brelse; [eassumption | | | intros ?s ?]
  end.
