(* ===== verification/FsBlocks.v ===== *)
(** The block allocator: [balloc] and [bfree] of fs.c.

    The bitmap is read through the cache: bit [b] of the bitmap says whether block
    [b] is in use.  [balloc] hands out the lowest free block, zeroed and marked;
    [bfree] clears one bit, and panics on a free block. *)

From S2P Require Import Prelude Bytes CString BlockCache BlockClient FsLayout.
From S2P Require Import Log LogDisk LogRun LogTxn Fs FsPure FsRun.
Import Fs.

#[local] Arguments Nat.add : simpl never.
#[local] Arguments Nat.mul : simpl never.

(** ** Buffers *)

(** Blocks that take up a buffer, and how many more may. *)
Definition used (a : acache) : gset Z := aheld a ∪ adirty a.
Definition space (k : nat) (a : acache) : Prop := (size (used a) + k < NBUF)%nat.

Lemma space_le k k' a : (k' <= k)%nat -> space k a -> space k' a.
Proof. unfold space. lia. Qed.

Lemma size_add (b : Z) (X Y : gset Z) : Y ⊆ {[b]} ∪ X -> (size Y <= Datatypes.S (size X))%nat.
Proof.
  intros HY. apply subseteq_size in HY. pose proof (size_union_alt {[b]} X) as E.
  rewrite size_singleton in E.
  assert (size (X ∖ {[b]}) <= size X)%nat by (apply subseteq_size; set_solver). lia.
Qed.

Lemma space_grow k b a a' : space (Datatypes.S k) a -> used a' ⊆ {[b]} ∪ used a -> space k a'.
Proof. unfold space. intros Hs Hu. pose proof (size_add b _ _ Hu). lia. Qed.

Lemma space_same k a a' : space k a -> used a' ⊆ used a -> space k a'.
Proof. unfold space. intros Hs Hu. apply subseteq_size in Hu. lia. Qed.

Lemma space_room k b a : space k a -> room b a.
Proof. unfold space, used. intros Hs. right. lia. Qed.

Lemma space_log k a : space k a -> (size (adirty a) < LOGSIZE)%nat.
Proof.
  unfold space, used. intros Hs. assert (size (adirty a) <= size (aheld a ∪ adirty a))%nat
    by (apply subseteq_size; set_solver). unfold NBUF, LOGSIZE, MAXOPBLOCKS in *. lia.
Qed.

(** A buffer taken and given back leaves no trace. *)
Lemma take_drop_aeq h b a : b ∉ aheld a -> ahandle a !! h = None ->
  aeq (a_drop h b (a_take h b a)) a.
Proof.
  intros Hb Hh. split; simpl; try done; [set_solver|]. by rewrite delete_insert_id.
Qed.

(** A buffer taken, overwritten, logged and given back. *)
Lemma update_aeq h b d a : b ∉ aheld a -> ahandle a !! h = None ->
  aeq (a_drop h b (a_pin b (a_set b d (a_take h b a)))) (a_update (b, d) a).
Proof.
  intros Hb Hh. split; simpl; try done; [set_solver|]. by rewrite delete_insert_id.
Qed.

Lemma used_update u a : used (a_update u a) ⊆ {[u.1]} ∪ used a.
Proof. unfold used. simpl. set_solver. Qed.

Section blocks.
Context {S : Type} `{BufSpec S}.
Implicit Types (s : fstate S) (x : afs) (a : acache).

(** [bread]; read the data; [brelse]. *)
Lemma fruns_release s x h b (Q : unit -> fstate S -> Prop) :
  frep s (with_ac (a_take h b (ac x)) x) -> b ∉ aheld (ac x) -> ahandle (ac x) !! h = None ->
  (forall s0, frep s0 x -> b ∈ adirty (ac x) \/ aview (ac x) b = adisk (ac x) b) ->
  (exists s0, frep s0 x) ->
  (forall s', frep s' x -> Q tt s') -> runs (Fs.brelse h) Q s.
Proof.
  intros Hf Hb Hh Hclean [s0 Hs0] HQ.
  fstep; [simpl; by rewrite lookup_insert_eq | simpl; by eapply Hclean |].
  apply HQ. replace x with (with_ac (ac x) x) by (by destruct x).
  eapply (frep_aeq _ (with_ac _ x)); [eassumption|]. by apply take_drop_aeq.
Qed.

Lemma frep_clean s x b : frep s x -> b ∉ aheld (ac x) ->
  b ∈ adirty (ac x) \/ aview (ac x) b = adisk (ac x) b.
Proof.
  intros Hf Hb. destruct (decide (b ∈ adirty (ac x))); [by left|right].
  eapply repr_clean; [by eapply frep_repr | done | done].
Qed.

(** Reading a block that nobody holds. *)
Lemma fruns_read {A} s x b (k : nat -> M (fstate S) A) (Q : A -> fstate S -> Prop) :
  frep s x -> 0 <= b < asize (ac x) -> b ∉ aheld (ac x) -> room b (ac x) ->
  (forall h s', ahandle (ac x) !! h = None -> frep s' (with_ac (a_take h b (ac x)) x) ->
     (forall Q' : unit -> fstate S -> Prop, (forall s'', frep s'' x -> Q' tt s'') ->
        runs (Fs.brelse h) Q' s') ->
     runs (k h) Q s') ->
  runs (bind (Fs.bread ROOTDEV b) k) Q s.
Proof.
  intros Hf Hb Hh Hr HQ. fstep; [done | done | done |]. apply HQ; [done | done |].
  intros Q' HQ'. eapply fruns_release; [eassumption | done | done | | by exists s | done].
  intros s1 Hs1. by eapply frep_clean.
Qed.

(** Overwriting a logged block. *)
Lemma fruns_write_back s x h b d (Q : unit -> fstate S -> Prop) k :
  frep s (with_ac (a_set b d (a_take h b (ac x))) x) -> b ∉ aheld (ac x) -> ahandle (ac x) !! h = None ->
  space k (ac x) ->
  (forall s', frep s' (with_ac (a_update (b, d) (ac x)) x) -> Q tt s') ->
  runs (bind (Fs.log_write h) (fun _ => Fs.brelse h)) Q s.
Proof.
  intros Hf Hb Hh Hsp HQ. fstep; [simpl; by rewrite lookup_insert_eq | simpl; by eapply space_log |].
  fstep; [simpl; by rewrite lookup_insert_eq | left; simpl; set_solver |].
  apply HQ. eapply (frep_aeq _ (with_ac _ x)); [eassumption|]. by apply update_aeq.
Qed.

Lemma fruns_write_back_then {A} s x h b d (k : unit -> M (fstate S) A) (Q : A -> fstate S -> Prop) j :
  frep s (with_ac (a_set b d (a_take h b (ac x))) x) -> b ∉ aheld (ac x) -> ahandle (ac x) !! h = None ->
  space j (ac x) ->
  (forall s', frep s' (with_ac (a_update (b, d) (ac x)) x) -> runs (k tt) Q s') ->
  runs (bind (Fs.log_write h) (fun _ => bind (Fs.brelse h) k)) Q s.
Proof.
  intros Hf Hb Hh Hsp HQ.
  assert (runs (bind (Fs.log_write h) (fun _ => Fs.brelse h)) (fun u s' => runs (k u) Q s') s)
    as (u & s' & E & Hk).
  { eapply fruns_write_back; [eassumption | done | done | done | done]. }
  destruct Hk as (r & s2 & E2 & HQ2). exists r, s2. split; [|done].
  apply bind_ret_inv in E as ([] & s1 & E0 & E1). rewrite (bind_ret _ _ _ _ _ E0).
  by rewrite (bind_ret _ _ _ _ _ E1).
Qed.

(** [bzero] *)
Lemma fruns_bzero s x b (Q : unit -> fstate S -> Prop) :
  frep s x -> 0 <= b < asize (ac x) -> b ∉ aheld (ac x) -> space 0 (ac x) ->
  (forall s', frep s' (with_ac (a_update (b, replicate BSIZE 0) (ac x)) x) -> Q tt s') ->
  runs (bzero ROOTDEV b) Q s.
Proof.
  intros Hf Hb Hh Hsp HQ. unfold bzero.
  assert (length (aview (ac x) b) = BSIZE) as Hlen by (eapply repr_view_length; [by eapply frep_repr | done]).
  fstep; [done | done | by eapply space_room |].
  fstep; [simpl; by rewrite lookup_insert_eq | simpl; by rewrite length_replicate |].
  simpl in *. rewrite Hlen in *. by eapply fruns_write_back.
Qed.

(** ** The bitmap *)

(** Block [b] is marked in use in the bitmap. *)
Definition bit_set (v : Z -> list Z) (sbv : superblock) (b : Z) : bool :=
  negb (bool_decide (Z.land (byte_at (v (BBLOCK b sbv)) (bit_byte (b mod BPB))) (bit_mask (b mod BPB)) = 0)).

(** The bitmap block after marking and after clearing block [b]. *)
Definition mark (b : Z) (d : list Z) : list Z :=
  let bi := b mod BPB in <[bit_byte bi := Z.lor (byte_at d (bit_byte bi)) (bit_mask bi)]> d.
Definition unmark (b : Z) (d : list Z) : list Z :=
  let bi := b mod BPB in <[bit_byte bi := Z.land (byte_at d (bit_byte bi)) (Z.lnot (bit_mask bi))]> d.

(** The super block describes a disk of [sz] blocks. *)
Record geom (sbv : superblock) (sz : Z) : Prop := {
  g_size : 0 <= sbsize sbv <= sz;
  g_bmap : forall b, 0 <= b < sbsize sbv -> 0 <= BBLOCK b sbv < sz
}.

(** [b] is the lowest free block. *)
Definition first_free (v : Z -> list Z) (sbv : superblock) (b : Z) : Prop :=
  0 <= b < sbsize sbv /\ bit_set v sbv b = false /\
  forall b', 0 <= b' < b -> bit_set v sbv b' = true.

Lemma find_nats (p : Z -> bool) m n :
  match List.find p (Z.of_nat <$> seq m n) with
  | Some z => Z.of_nat m <= z < Z.of_nat (m + n) /\ p z = true /\
      forall y, Z.of_nat m <= y < z -> p y = false
  | None => forall y, Z.of_nat m <= y < Z.of_nat (m + n) -> p y = false
  end.
Proof.
  revert m. induction n as [|n IH]; intros m; [simpl; lia|].
  cbn [seq]. rewrite fmap_cons. cbn [List.find]. destruct (p (Z.of_nat m)) eqn:E.
  { split_and!; [lia | lia | done | lia]. }
  specialize (IH (Datatypes.S m)).
  destruct (List.find p _) as [z|].
  - destruct IH as (H1 & H2 & H3). split_and!; try done; [lia | lia |].
    intros y Hy. destruct (decide (y = Z.of_nat m)) as [->|]; [done|]. apply H3. lia.
  - intros y Hy. destruct (decide (y = Z.of_nat m)) as [->|]; [done|]. apply IH. lia.
Qed.

Lemma group_block k bi : 0 <= bi < BPB -> (k * BPB + bi) / BPB = k /\ (k * BPB + bi) mod BPB = bi.
Proof.
  intros Hb. assert (BPB <> 0) by done. rewrite Z.add_comm. split.
  - rewrite Z.div_add by done. rewrite Z.div_small by done. lia.
  - rewrite Z.mod_add by done. by apply Z.mod_small.
Qed.

Lemma free_bit_spec v sbv k lim : 0 <= lim <= BPB ->
  match free_bit (v (BBLOCK (k * BPB) sbv)) lim with
  | Some bi => 0 <= bi < lim /\ bit_set v sbv (k * BPB + bi) = false /\
      forall y, 0 <= y < bi -> bit_set v sbv (k * BPB + y) = true
  | None => forall y, 0 <= y < lim -> bit_set v sbv (k * BPB + y) = true
  end.
Proof.
  intros Hlim. unfold free_bit.
  pose proof (find_nats (fun bi => bool_decide (Z.land (byte_at (v (BBLOCK (k * BPB) sbv)) (bit_byte bi))
    (bit_mask bi) = 0)) 0 (Z.to_nat lim)) as Hf. rewrite Nat.add_0_l, Z2Nat.id in Hf by lia.
  assert (forall y, 0 <= y < BPB -> bit_set v sbv (k * BPB + y) =
    negb (bool_decide (Z.land (byte_at (v (BBLOCK (k * BPB) sbv)) (bit_byte y)) (bit_mask y) = 0))) as Hb.
  { intros y Hy. unfold bit_set, BBLOCK. destruct (group_block k y Hy) as [-> ->].
    destruct (group_block k 0) as [E _]; [done|]. rewrite Z.add_0_r in E. by rewrite E. }
  destruct (List.find _ _) as [bi|].
  - destruct Hf as (H1 & H2 & H3). split_and!; try lia.
    + rewrite Hb by lia. by rewrite H2.
    + intros y Hy. rewrite Hb by lia. by rewrite H3 by lia.
  - intros y Hy. rewrite Hb by lia. by rewrite Hf by lia.
Qed.

Lemma bit_byte_range bi : 0 <= bi < BPB -> (bit_byte bi < BSIZE)%nat.
Proof.
  intros Hb. unfold bit_byte, BPB, BSIZE in *. assert (0 <= bi / 8 < 512); [|lia].
  split; [apply Z.div_pos; lia | apply Z.div_lt_upper_bound; lia].
Qed.

(** ** [balloc] *)

(** The file-system state after block [b] was allocated. *)
Definition a_alloc (sbv : superblock) (b : Z) (a : acache) : acache :=
  a_update (b, replicate BSIZE 0) (a_update (BBLOCK b sbv, mark b (aview a (BBLOCK b sbv))) a).

Lemma used_alloc sbv b a : used (a_alloc sbv b a) ⊆ {[b]} ∪ ({[BBLOCK b sbv]} ∪ used a).
Proof. unfold used. simpl. set_solver. Qed.

Lemma space_alloc k sbv b a : space (2 + k) a -> space k (a_alloc sbv b a).
Proof.
  intros Hs. unfold a_alloc. eapply space_grow; [|apply used_update].
  eapply space_grow; [|apply used_update]. done.
Qed.

Section alloc.
Context (x : afs).
Context (Hgeom : geom (asb x) (asize (ac x))).
Context (Hbits : forall b, 0 <= b < sbsize (asb x) -> BBLOCK b (asb x) ∉ aheld (ac x)).
Context (Hfree : forall b, first_free (aview (ac x)) (asb x) b -> b ∉ aheld (ac x)).
Context (Hspace : space 2 (ac x)).

Lemma fruns_group_hit s k bi (Q : option Z -> fstate S -> Prop) :
  let b := k * BPB + bi in
  frep s x -> 0 <= k -> 0 <= bi < Z.min BPB (sbsize (asb x) - k * BPB) ->
  free_bit (aview (ac x) (BBLOCK (k * BPB) (asb x))) (Z.min BPB (sbsize (asb x) - k * BPB)) = Some bi ->
  first_free (aview (ac x)) (asb x) b ->
  (forall s', frep s' (with_ac (a_alloc (asb x) b (ac x)) x) -> Q (Some b) s') ->
  runs (balloc_group ROOTDEV (k * BPB)) Q s.
Proof.
  intros b Hf Hk Hbi Efree Hff HQ. destruct (group_block k bi) as [Ed Em]; [lia|].
  assert (BBLOCK b (asb x) = BBLOCK (k * BPB) (asb x)) as EB.
  { unfold BBLOCK, b. rewrite Ed. destruct (group_block k 0) as [E _]; [done|].
    rewrite Z.add_0_r in E. by rewrite E. }
  pose proof Hff as (Hb & _). pose proof (g_bmap _ _ Hgeom b Hb) as HB. rewrite EB in HB.
  pose proof (Hbits b Hb) as HBh. rewrite EB in HBh.
  assert (length (aview (ac x) (BBLOCK (k * BPB) (asb x))) = BSIZE) as Hlen.
  { eapply repr_view_length; [by eapply frep_repr | done]. }
  unfold balloc_group. fstep. fstep; [done | done | by eapply space_room |].
  fstep; [simpl; by rewrite lookup_insert_eq|]. simpl. rewrite Efree.
  fstep; [simpl; by rewrite lookup_insert_eq | simpl; by rewrite length_insert |].
  eapply fruns_write_back_then; [eassumption | done | done | done |].
  intros s2 Hf2. apply runs_bind. eapply fruns_bzero; [eassumption | | | |].
  - simpl. pose proof (g_size _ _ Hgeom). lia.
  - simpl. by apply Hfree.
  - eapply space_grow; [|apply used_update]. by eapply space_le; [|exact Hspace]; lia.
  - fclean. intros s3 Hf3. apply runs_ret, HQ. unfold a_alloc. rewrite EB. unfold mark.
    unfold b. rewrite Em. done.
Qed.

Lemma fruns_group_miss s k (Q : option Z -> fstate S -> Prop) :
  frep s x -> 0 <= k * BPB < sbsize (asb x) ->
  free_bit (aview (ac x) (BBLOCK (k * BPB) (asb x))) (Z.min BPB (sbsize (asb x) - k * BPB)) = None ->
  (forall s', frep s' x -> Q None s') ->
  runs (balloc_group ROOTDEV (k * BPB)) Q s.
Proof.
  intros Hf Hk Efree HQ. unfold balloc_group. fstep.
  eapply fruns_read; [done | by apply Hgeom | by apply Hbits | by eapply space_room |].
  intros h s1 Hh Hf1 Hrel. fstep; [simpl; by rewrite lookup_insert_eq|]. simpl. rewrite Efree.
  apply runs_bind, Hrel. intros s2 Hf2. by apply runs_ret, HQ.
Qed.

Lemma fruns_groups m k s (Q : option Z -> fstate S -> Prop) :
  frep s x -> Z.of_nat (k + m) = (sbsize (asb x) + BPB - 1) / BPB ->
  (forall b, 0 <= b < Z.of_nat k * BPB -> b < sbsize (asb x) -> bit_set (aview (ac x)) (asb x) b = true) ->
  (exists b, 0 <= b < sbsize (asb x) /\ bit_set (aview (ac x)) (asb x) b = false) ->
  (forall s' b, first_free (aview (ac x)) (asb x) b ->
     frep s' (with_ac (a_alloc (asb x) b (ac x)) x) -> Q (Some b) s') ->
  runs (find_forM ((fun k => Z.of_nat k * BPB) <$> seq k m) (balloc_group ROOTDEV)) Q s.
Proof.
  assert (BPB = 4096) as EBPB by done.
  revert k s. induction m as [|m IH]; intros k s Hf Hm Hpre [b0 [Hb0 Hbit0]] HQ.
  { exfalso. rewrite Nat.add_0_r in Hm. rewrite Hpre in Hbit0; [done | | lia].
    rewrite Hm. change BPB with 4096. pose proof (Z.mod_pos_bound (sbsize (asb x) + 4096 - 1) 4096 eq_refl).
    pose proof (Z.div_mod (sbsize (asb x) + 4096 - 1) 4096). lia. }
  assert (0 <= Z.of_nat k * BPB < sbsize (asb x)) as Hk.
  { change BPB with 4096 in *. pose proof (Z.mod_pos_bound (sbsize (asb x) + 4096 - 1) 4096 eq_refl).
    pose proof (Z.div_mod (sbsize (asb x) + 4096 - 1) 4096). lia. }
  cbn [seq]. rewrite fmap_cons. cbn [find_forM]. apply runs_bind.
  set (lim := Z.min BPB (sbsize (asb x) - Z.of_nat k * BPB)).
  pose proof (free_bit_spec (aview (ac x)) (asb x) (Z.of_nat k) lim) as Hfb.
  assert (0 <= lim <= BPB) as Hlim by (unfold lim; lia). specialize (Hfb Hlim).
  destruct (free_bit _ lim) as [bi|] eqn:Efree.
  - destruct Hfb as (H1 & H2 & H3).
    assert (first_free (aview (ac x)) (asb x) (Z.of_nat k * BPB + bi)) as Hff.
    { split_and!; [lia | unfold lim in H1; lia | done |]. intros b' Hb'.
      destruct (decide (b' < Z.of_nat k * BPB)); [apply Hpre; unfold lim in H1; lia|].
      replace b' with (Z.of_nat k * BPB + (b' - Z.of_nat k * BPB)) by lia. apply H3. lia. }
    eapply fruns_group_hit; [done | lia | done | done | done |].
    intros s' Hf'. apply runs_ret. by apply HQ.
  - eapply fruns_group_miss; [done | done | done |]. intros s' Hf'.
    apply IH; [done | lia | | by exists b0 | done].
    intros b Hb Hbs. destruct (decide (b < Z.of_nat k * BPB)); [apply Hpre; lia|].
    replace b with (Z.of_nat k * BPB + (b - Z.of_nat k * BPB)) by lia. apply Hfb.
    unfold lim. lia.
Qed.

Lemma fruns_balloc s (Q : Z -> fstate S -> Prop) :
  frep s x -> (exists b, 0 <= b < sbsize (asb x) /\ bit_set (aview (ac x)) (asb x) b = false) ->
  (forall s' b, first_free (aview (ac x)) (asb x) b ->
     frep s' (with_ac (a_alloc (asb x) b (ac x)) x) -> Q b s') ->
  runs (balloc ROOTDEV) Q s.
Proof.
  intros Hf Hex HQ. unfold balloc. fstep. apply runs_bind.
  eapply fruns_groups; [done | | lia | done |].
  - rewrite Nat.add_0_l, Z2Nat.id; [done|]. apply Z.div_pos; [|done].
    pose proof (g_size _ _ Hgeom). assert (BPB = 4096) by done. lia.
  - intros s' b Hff Hf'. apply runs_ret. by apply HQ.
Qed.
End alloc.

(** ** [bfree] *)

Lemma fruns_readsb s x (Q : superblock -> fstate S -> Prop) :
  frep s x -> 1 < asize (ac x) -> 1 ∉ aheld (ac x) -> room 1 (ac x) ->
  (forall s', frep s' x -> Q (decode_sb (aview (ac x) 1)) s') -> runs (readsb ROOTDEV) Q s.
Proof.
  intros Hf Hsz Hh Hr HQ. unfold readsb.
  eapply fruns_read; [done | lia | done | done |].
  intros h s1 Hn Hf1 Hrel. fstep; [simpl; by rewrite lookup_insert_eq|]. simpl.
  apply runs_bind, Hrel. intros s2 Hf2. by apply runs_ret, HQ.
Qed.

Lemma fruns_bfree s x b (Q : unit -> fstate S -> Prop) :
  frep s x -> 1 < asize (ac x) -> 1 ∉ aheld (ac x) -> decode_sb (aview (ac x) 1) = asb x ->
  geom (asb x) (asize (ac x)) -> 0 <= b < sbsize (asb x) -> BBLOCK b (asb x) ∉ aheld (ac x) ->
  space 0 (ac x) -> bit_set (aview (ac x)) (asb x) b = true ->
  (forall s', frep s' (with_ac (a_update (BBLOCK b (asb x), unmark b (aview (ac x) (BBLOCK b (asb x))))
     (ac x)) x) -> Q tt s') ->
  runs (bfree ROOTDEV b) Q s.
Proof.
  intros Hf Hsz Hh1 Hsb Hgeom Hb HBh Hsp Hbit HQ.
  pose proof (g_bmap _ _ Hgeom b Hb) as HB.
  assert (length (aview (ac x) (BBLOCK b (asb x))) = BSIZE) as Hlen.
  { eapply repr_view_length; [by eapply frep_repr | done]. }
  unfold bfree. apply runs_bind. eapply fruns_readsb; [done | done | done | by eapply space_room |].
  rewrite Hsb. intros s1 Hf1. fstep.
  replace (with_sb (asb x) x) with x in * by (by destruct x).
  fstep; [done | done | by eapply space_room |].
  fstep; [simpl; by rewrite lookup_insert_eq|]. simpl. unfold bit_set in Hbit.
  apply negb_true_iff, bool_decide_eq_false in Hbit. rewrite decide_False by done.
  fstep; [simpl; by rewrite lookup_insert_eq | simpl; by rewrite length_insert |].
  eapply fruns_write_back; [eassumption | done | done | done |].
  intros s' Hf'. by apply HQ.
Qed.
End blocks.

(** ** Bits *)

Lemma land_mask y k : 0 <= k -> bool_decide (Z.land y (Z.shiftl 1 k) = 0) = negb (Z.testbit y k).
Proof.
  intros Hk. rewrite Z.shiftl_1_l. destruct (Z.testbit y k) eqn:E; simpl.
  - apply bool_decide_eq_false. intros E0. apply (f_equal (fun z => Z.testbit z k)) in E0.
    rewrite Z.land_spec, Z.pow2_bits_true, Z.bits_0, E in E0 by done. done.
  - apply bool_decide_eq_true. apply Z.bits_inj'. intros j Hj.
    rewrite Z.land_spec, Z.bits_0. destruct (decide (j = k)) as [->|Hne].
    + by rewrite E.
    + rewrite Z.pow2_bits_false by done. apply andb_false_r.
Qed.

Lemma bit_set_testbit v sbv b :
  bit_set v sbv b = Z.testbit (byte_at (v (BBLOCK b sbv)) (bit_byte (b mod BPB))) ((b mod BPB) mod 8).
Proof.
  unfold bit_set, bit_mask. rewrite land_mask by (apply Z.mod_pos_bound; lia). apply negb_involutive.
Qed.

Lemma BPB_eq : BPB = 4096.
Proof. done. Qed.

(** Two bits of one bitmap block that share byte and position are the same bit. *)
Lemma same_bit b b' : b / BPB = b' / BPB -> bit_byte (b mod BPB) = bit_byte (b' mod BPB) ->
  (b mod BPB) mod 8 = (b' mod BPB) mod 8 -> b = b'.
Proof.
  intros H1 H2 H3. rewrite BPB_eq in *.
  pose proof (Z.mod_pos_bound b 4096 eq_refl). pose proof (Z.mod_pos_bound b' 4096 eq_refl).
  pose proof (Z.div_mod b 4096). pose proof (Z.div_mod b' 4096).
  pose proof (Z.div_mod (b mod 4096) 8). pose proof (Z.div_mod (b' mod 4096) 8).
  assert (0 <= b mod 4096 / 8) by (apply Z.div_pos; lia).
  assert (0 <= b' mod 4096 / 8) by (apply Z.div_pos; lia). unfold bit_byte in H2. lia.
Qed.

Lemma bit_byte_ok b (d : list Z) : length d = BSIZE -> (bit_byte (b mod BPB) < length d)%nat.
Proof. intros ->. apply bit_byte_range. rewrite BPB_eq. by apply Z.mod_pos_bound. Qed.

(** A bitmap in which bit [b] was given the value [c] by changing its byte. *)
Lemma bit_set_change v sbv b (f : Z -> Z) c b' :
  let BB := BBLOCK b sbv in
  let d := v BB in
  length d = BSIZE ->
  (forall y k, 0 <= k -> Z.testbit (f y) k = if decide (k = (b mod BPB) mod 8) then c else Z.testbit y k) ->
  bit_set (upd v BB (<[bit_byte (b mod BPB) := f (byte_at d (bit_byte (b mod BPB)))]> d)) sbv b' =
    if decide (b' = b) then c else bit_set v sbv b'.
Proof.
  intros BB d Hd Hf. rewrite !bit_set_testbit.
  assert (0 <= (b' mod BPB) mod 8) as Hk by (by apply Z.mod_pos_bound).
  unfold upd. case_decide as HB.
  - assert (b' / BPB = b / BPB) as HB' by (unfold BB, BBLOCK in HB; lia). rewrite HB. fold d.
    destruct (decide (bit_byte (b' mod BPB) = bit_byte (b mod BPB))) as [E|E].
    + rewrite E, byte_at_insert_eq by (by apply bit_byte_ok). rewrite Hf by done.
      case_decide as Hm; [|case_decide; [by subst|done]].
      rewrite decide_True; [done|]. by apply same_bit.
    + rewrite byte_at_insert_ne by done. case_decide; [by subst|done].
  - rewrite decide_False; [done|]. intros ->. done.
Qed.

Lemma bit_set_mark v sbv b b' : length (v (BBLOCK b sbv)) = BSIZE ->
  bit_set (upd v (BBLOCK b sbv) (mark b (v (BBLOCK b sbv)))) sbv b' =
    if decide (b' = b) then true else bit_set v sbv b'.
Proof.
  intros Hd. apply (bit_set_change v sbv b (fun y => Z.lor y (bit_mask (b mod BPB)))); [done|].
  intros y k Hk. unfold bit_mask. rewrite Z.lor_spec, Z.shiftl_1_l.
  assert (0 <= (b mod BPB) mod 8) by (by apply Z.mod_pos_bound).
  case_decide; subst; [by rewrite Z.pow2_bits_true, orb_true_r|].
  rewrite Z.pow2_bits_false by done. apply orb_false_r.
Qed.

Lemma bit_set_unmark v sbv b b' : length (v (BBLOCK b sbv)) = BSIZE ->
  bit_set (upd v (BBLOCK b sbv) (unmark b (v (BBLOCK b sbv)))) sbv b' =
    if decide (b' = b) then false else bit_set v sbv b'.
Proof.
  intros Hd. apply (bit_set_change v sbv b (fun y => Z.land y (Z.lnot (bit_mask (b mod BPB))))); [done|].
  intros y k Hk. unfold bit_mask. rewrite Z.land_spec, Z.lnot_spec, Z.shiftl_1_l by done.
  assert (0 <= (b mod BPB) mod 8) by (by apply Z.mod_pos_bound).
  case_decide; subst; [by rewrite Z.pow2_bits_true, andb_false_r|].
  rewrite Z.pow2_bits_false by done. apply andb_true_r.
Qed.

Lemma bit_set_other v sbv b d b' : b <> BBLOCK b' sbv -> bit_set (upd v b d) sbv b' = bit_set v sbv b'.
Proof. intros Hb. unfold bit_set. by rewrite upd_ne by done. Qed.

Lemma length_mark b d : length (mark b d) = length d.
Proof. apply length_insert. Qed.
Lemma length_unmark b d : length (unmark b d) = length d.
Proof. apply length_insert. Qed.

Module FsBlocks.
Section claims.
Context {S : Type} `{BufSpec S}.

(** A state of the file system inside a transaction, with [k] buffers to spare,
    whose bitmap blocks nobody holds. *)
Record alloc_ready (k : nat) (s : fstate S) (x : afs) : Prop := {
  ar_rep : frep s x;
  ar_geom : geom (asb x) (asize (ac x));
  ar_sb : decode_sb (aview (ac x) 1) = asb x;
  ar_one : 1 < asize (ac x) /\ 1 ∉ aheld (ac x);
  ar_bits : forall b, 0 <= b < sbsize (asb x) -> BBLOCK b (asb x) ∉ aheld (ac x);
  ar_space : space k (ac x)
}.

(** C21: The block allocator.  With a free block, [balloc] returns the lowest one;
    afterwards its contents are zero, its bit is set, no other bit has changed,
    and no block but it and its bitmap block has changed.  Without one it panics
    and changes nothing. *)
Theorem balloc_spec s x : alloc_ready 2 s x ->
  (forall b, first_free (aview (ac x)) (asb x) b ->
     b ∉ aheld (ac x) /\ forall b', 0 <= b' < sbsize (asb x) -> b <> BBLOCK b' (asb x)) ->
  ((exists b, 0 <= b < sbsize (asb x) /\ bit_set (aview (ac x)) (asb x) b = false) ->
   runs (balloc ROOTDEV) (fun b s' => first_free (aview (ac x)) (asb x) b /\
     exists x', frep s' x' /\ aview (ac x') b = replicate BSIZE 0 /\
       (forall b', 0 <= b' < sbsize (asb x) -> bit_set (aview (ac x')) (asb x) b' =
          if decide (b' = b) then true else bit_set (aview (ac x)) (asb x) b') /\
       (forall b', b' <> b -> b' <> BBLOCK b (asb x) -> aview (ac x') b' = aview (ac x) b')) s) /\
  ((forall b, 0 <= b < sbsize (asb x) -> bit_set (aview (ac x)) (asb x) b = true) ->
   exists s', balloc ROOTDEV s = Stop (Panicked "balloc: out of blocks") s' /\ frep s' x).
Proof.
  intros [Hf Hg Hsb [H1 H1h] Hbits Hsp] Hmeta. split.
  - intros Hex. eapply fruns_balloc; [done | done | by intros b Hb; apply Hmeta | done | done | done |].
    intros s' b Hff Hf'. split; [done|]. destruct (Hmeta b Hff) as [_ Hdata].
    pose proof Hff as (Hb & _). eexists. split; [exact Hf'|]. simpl.
    assert (length (aview (ac x) (BBLOCK b (asb x))) = BSIZE) as Hlen.
    { eapply repr_view_length; [by eapply frep_repr | by apply Hg]. }
    split_and!; [apply upd_eq | |].
    + intros b' Hb'. rewrite bit_set_other by (by apply Hdata). by apply bit_set_mark.
    + intros b' N1 N2. by rewrite !upd_ne.
  - intros Hall.
    assert (forall m k s, frep s x -> Z.of_nat (k + m) = (sbsize (asb x) + BPB - 1) / BPB ->
      runs (find_forM ((fun k => Z.of_nat k * BPB) <$> seq k m) (balloc_group ROOTDEV))
        (fun r s' => r = None /\ frep s' x) s) as Hloop.
    { clear s Hf. induction m as [|m IH]; intros k s Hf Hm; [by apply runs_ret|].
      cbn [seq]. rewrite fmap_cons. cbn [find_forM]. apply runs_bind.
      assert (0 <= Z.of_nat k * BPB < sbsize (asb x)) as Hk.
      { rewrite BPB_eq in *. pose proof (Z.mod_pos_bound (sbsize (asb x) + 4096 - 1) 4096 eq_refl).
        pose proof (Z.div_mod (sbsize (asb x) + 4096 - 1) 4096). lia. }
      set (lim := Z.min BPB (sbsize (asb x) - Z.of_nat k * BPB)).
      pose proof (free_bit_spec (aview (ac x)) (asb x) (Z.of_nat k) lim) as Hfb.
      destruct (free_bit _ lim) as [bi|] eqn:Efree.
      - destruct Hfb as (Q1 & Q2 & _); [unfold lim; rewrite BPB_eq in *; lia|].
        rewrite Hall in Q2 by (unfold lim in Q1; lia). done.
      - eapply fruns_group_miss; [done | done | done | done | done | done |].
        intros s' Hf'. apply IH; [done | lia]. }
    assert (runs (gets sb) (fun v s' => v = asb x /\ s' = s) s) as (v & s0 & Es & -> & ->).
    { destruct Hf as (l & w & _ & _ & <- & _). by apply runs_gets. }
    destruct (Hloop (Z.to_nat ((sbsize (asb x) + BPB - 1) / BPB)) 0%nat s Hf) as (r & s' & Er & -> & Hf').
    { rewrite Nat.add_0_l, Z2Nat.id; [done|]. apply Z.div_pos; [|done]. rewrite BPB_eq.
      pose proof (g_size _ _ Hg). lia. }
    exists s'. split; [|done]. unfold balloc. rewrite (bind_ret _ _ _ _ _ Es).
    by rewrite (bind_ret _ _ _ _ _ Er).
Qed.

(** [bfree] clears exactly one bit.  Freeing a block in use clears its bit and
    changes no other bit and no other block; freeing a free block panics with
    "freeing free block".  In particular [bfree] after [balloc] gives the bitmap
    back. *)
Theorem bfree_spec s x b : alloc_ready 0 s x -> 0 <= b < sbsize (asb x) ->
  (bit_set (aview (ac x)) (asb x) b = true ->
   runs (bfree ROOTDEV b) (fun _ s' => exists x', frep s' x' /\ asb x' = asb x /\
     (forall b', bit_set (aview (ac x')) (asb x) b' =
        if decide (b' = b) then false else bit_set (aview (ac x)) (asb x) b') /\
     (forall b', b' <> BBLOCK b (asb x) -> aview (ac x') b' = aview (ac x) b')) s) /\
  (bit_set (aview (ac x)) (asb x) b = false ->
   exists s', bfree ROOTDEV b s = Stop (Panicked "freeing free block") s').
Proof.
  intros [Hf Hg Hsb [H1 H1h] Hbits Hsp] Hb. pose proof (g_bmap _ _ Hg b Hb) as HB.
  assert (length (aview (ac x) (BBLOCK b (asb x))) = BSIZE) as Hlen.
  { eapply repr_view_length; [by eapply frep_repr | done]. }
  split; intros Hbit.
  - eapply fruns_bfree; [done | done | done | done | done | done | by apply Hbits | done | done |].
    intros s' Hf'. eexists. split; [exact Hf'|]. simpl. split_and!; [done | |].
    + intros b'. by apply bit_set_unmark.
    + intros b' N. by rewrite upd_ne.
  - assert (runs (readsb ROOTDEV) (fun v s' => v = asb x /\ frep s' x) s) as (v & s1 & E1 & -> & Hf1).
    { eapply fruns_readsb; [done | done | done | by eapply space_room |]. by rewrite Hsb. }
    assert (runs (set_sb (asb x)) (fun _ s' => frep s' x) s1) as (u & s2 & E2 & Hf2).
    { fstep. by replace (with_sb (asb x) x) with x in * by (by destruct x). }
    assert (runs (Fs.bread ROOTDEV (BBLOCK b (asb x)))
      (fun h s' => frep s' (with_ac (a_take h (BBLOCK b (asb x)) (ac x)) x)) s2) as (h & s3 & E3 & Hf3).
    { eapply fruns_bread; [done | done | by apply Hbits | by eapply space_room | auto]. }
    assert (runs (bufdata h) (fun d s' => d = aview (ac x) (BBLOCK b (asb x)) /\ s' = s3) s3)
      as (d & s4 & E4 & -> & ->).
    { eapply fruns_bufdata; [done | simpl; by rewrite lookup_insert_eq | done]. }
    exists s3. unfold bfree. rewrite (bind_ret _ _ _ _ _ E1), (bind_ret _ _ _ _ _ E2).
    rewrite (bind_ret _ _ _ _ _ E3), (bind_ret _ _ _ _ _ E4).
    unfold bit_set in Hbit. apply negb_false_iff, bool_decide_eq_true in Hbit.
    by rewrite decide_True.
Qed.
End claims.
End FsBlocks.
