(* ===== verification/FsTree.v ===== *)
(** The block tree of an inode: what the addresses of an inode and its indirect
    blocks say, as a function from block numbers to disk blocks, and how it
    changes when a block is added to it or the contents of a data block change.

    A position in the tree is a slot of [addrs] and a list of indices into
    indirect blocks; [bpath bn] is the position of block [bn] of the file, the
    arithmetic of [bmap] in fs.c.  A tree is in order ([tree_ok]) when its nodes
    are distinct data blocks marked in use. *)

From S2P Require Import Prelude Bytes CString BlockCache BlockClient FsLayout.
From S2P Require Import Log LogDisk LogRun LogTxn Fs FsPure FsRun FsBlocks.
Import Fs.

#[local] Arguments Nat.add : simpl never.
#[local] Arguments Nat.mul : simpl never.
#[local] Arguments Z.add : simpl never.
#[local] Arguments Z.mul : simpl never.

(** ** Positions *)

Notation pos := (nat * list Z)%type.

(** The number of indirect blocks above the data blocks of slot [k]. *)
Definition depth (k : nat) : nat := k - (NDIRECT - 1).

Record valid_pos (p : pos) : Prop := {
  vp_slot : (p.1 <= NDIRECT + 2)%nat;
  vp_depth : (length p.2 <= depth p.1)%nat;
  vp_index : Forall (fun i => 0 <= i < NINDIRECT) p.2
}.

(** A data block rather than an indirect block. *)
Definition leaf (p : pos) : Prop := length p.2 = depth p.1.

(** The position of block [bn] of a file. *)
Definition bpath (bn : Z) : pos :=
  if decide (bn < Z.of_nat NDIRECT) then (Z.to_nat bn, []) else
  let bn := bn - Z.of_nat NDIRECT in
  if decide (bn < NINDIRECT) then (NDIRECT, [bn]) else
  let bn := bn - NINDIRECT in
  if decide (bn < NDINDIRECT) then ((NDIRECT + 1)%nat, [bn / NINDIRECT; bn mod NINDIRECT]) else
  let bn := bn - NDINDIRECT in
  ((NDIRECT + 2)%nat,
   [bn / NDINDIRECT; (bn mod NDINDIRECT) / NINDIRECT; (bn mod NDINDIRECT) mod NINDIRECT]).

Lemma levels : Z.of_nat NDIRECT = 10 /\ NINDIRECT = 128 /\ NDINDIRECT = 16384 /\ NTINDIRECT = 2097152 /\
  MAXFILE = 2113674.
Proof. done. Qed.

Ltac levels := destruct levels as (EL0 & EL1 & EL2 & EL3 & EL4); rewrite ?EL0, ?EL1, ?EL2, ?EL3, ?EL4 in *;
  clear EL0 EL1 EL2 EL3 EL4.

Lemma bpath_valid bn : 0 <= bn < MAXFILE -> valid_pos (bpath bn) /\ leaf (bpath bn).
Proof.
  intros Hbn. unfold bpath, leaf. levels.
  repeat case_decide; (split; [|simpl; unfold depth, NDIRECT, XDIRECT; lia]); (split; [simpl; unfold NDIRECT, XDIRECT; lia | simpl; unfold depth, NDIRECT, XDIRECT; lia|]);
    simpl; repeat constructor; levels; repeat match goal with
    | |- 0 <= ?a mod ?b => by apply Z.mod_pos_bound
    | |- ?a mod ?b < _ => by apply Z.mod_pos_bound
    | |- 0 <= ?a / ?b => apply Z.div_pos; [|done]
    | |- ?a / ?b < _ => apply Z.div_lt_upper_bound; [done|]
    end; try lia.
Qed.

Lemma bpath_inj bn bn' : 0 <= bn < MAXFILE -> 0 <= bn' < MAXFILE -> bpath bn = bpath bn' -> bn = bn'.
Proof.
  intros H1 H2. unfold bpath. levels.
  repeat case_decide; intros [= E]; try (unfold NDIRECT, XDIRECT in *; lia); repeat match goal with
    | H : _ / _ = _ |- _ => revert H | H : _ mod _ = _ |- _ => revert H end.
  - intros E2 E1. pose proof (Z.div_mod (bn - 10 - 128) 128). pose proof (Z.div_mod (bn' - 10 - 128) 128). lia.
  - intros E3 E2 E1. set (a := bn - 10 - 128 - 16384) in *. set (b := bn' - 10 - 128 - 16384) in *.
    pose proof (Z.div_mod (a mod 16384) 128). pose proof (Z.div_mod (b mod 16384) 128).
    pose proof (Z.div_mod a 16384). pose proof (Z.div_mod b 16384). lia.
Qed.

(** ** Nodes *)

(** Entry [i] of the indirect block [a]; a missing block has no entries. *)
Definition entry (v : Z -> list Z) (a i : Z) : Z :=
  if decide (a = 0) then 0 else get32 (v a) (4 * Z.to_nat i).

(** The block at a position, 0 if there is none. *)
Definition node (v : Z -> list Z) (ad : list Z) (p : pos) : Z := foldl (entry v) (nth p.1 ad 0) p.2.

Lemma node_snoc v ad k ix i : node v ad (k, ix ++ [i]) = entry v (node v ad (k, ix)) i.
Proof. unfold node. simpl. by rewrite foldl_app. Qed.

Lemma node_missing v ad k ix i : node v ad (k, ix) = 0 -> node v ad (k, ix ++ [i]) = 0.
Proof. intros E. rewrite node_snoc, E. done. Qed.

Lemma valid_snoc k ix i : valid_pos (k, ix ++ [i]) -> valid_pos (k, ix) /\ 0 <= i < NINDIRECT /\ ~ leaf (k, ix).
Proof.
  intros [H1 H2 H3]. simpl in *. rewrite length_app in H2. simpl in H2.
  apply Forall_app in H3 as [H3 H4]. apply Forall_cons in H4 as [H4 _].
  split; [split; simpl; [done | lia | done]|]. split; [done|]. unfold leaf. simpl. lia.
Qed.

Lemma valid_root k : (k <= NDIRECT + 2)%nat -> valid_pos (k, []).
Proof. intros Hk. split; simpl; [done | lia | done]. Qed.

(** ** Trees in order *)

(** The first block after the bitmap: the data blocks start here. *)
Definition nmeta (sbv : superblock) : Z := bmapstart sbv + sbsize sbv / BPB + 1.

(** The disk describes itself: the blocks before the data blocks are marked in use,
    and the super block comes before the bitmap. *)
Record disk_ok (v : Z -> list Z) (sbv : superblock) (sz : Z) : Prop := {
  dk_geom : geom sbv sz;
  dk_size : sbsize sbv <= 2 ^ 32;
  dk_start : 1 < bmapstart sbv;
  dk_meta : forall b, 0 <= b < nmeta sbv -> b < sbsize sbv -> bit_set v sbv b = true
}.

(** A data block marked in use. *)
Definition in_use (v : Z -> list Z) (sbv : superblock) (b : Z) : Prop :=
  nmeta sbv <= b < sbsize sbv /\ bit_set v sbv b = true.

Record tree_ok (v : Z -> list Z) (sbv : superblock) (ad : list Z) : Prop := {
  tr_len : length ad = (NDIRECT + 3)%nat;
  tr_used : forall p, valid_pos p -> node v ad p <> 0 -> in_use v sbv (node v ad p);
  tr_inj : forall p q, valid_pos p -> valid_pos q -> node v ad p <> 0 -> node v ad p = node v ad q -> p = q
}.

Lemma bblock_meta sbv b : 0 <= b < sbsize sbv -> bmapstart sbv <= BBLOCK b sbv < nmeta sbv.
Proof.
  intros Hb. unfold BBLOCK, nmeta. rewrite BPB_eq.
  assert (0 <= b / 4096) by (apply Z.div_pos; lia).
  assert (b / 4096 <= sbsize sbv / 4096) by (apply Z.div_le_mono; lia). lia.
Qed.

(** A free block is a data block, and no node of the tree. *)
Lemma free_data v sbv sz b : disk_ok v sbv sz -> 0 <= b < sbsize sbv -> bit_set v sbv b = false ->
  nmeta sbv <= b < sbsize sbv.
Proof.
  intros Hd Hb Hf. destruct (decide (b < nmeta sbv)) as [Hlt|]; [|lia].
  by rewrite (dk_meta _ _ _ Hd b) in Hf by lia.
Qed.

Lemma nmeta_pos v sbv sz : disk_ok v sbv sz -> 2 < nmeta sbv.
Proof.
  intros Hd. unfold nmeta. rewrite BPB_eq. pose proof (dk_start _ _ _ Hd). pose proof (g_size _ _ (dk_geom _ _ _ Hd)).
  assert (0 <= sbsize sbv / 4096) by (apply Z.div_pos; lia). lia.
Qed.

(** ** Adding a block *)

(** The tree after block [b] was put at position [p]. *)
Record added (v : Z -> list Z) (ad : list Z) (p : pos) (b : Z) (v' : Z -> list Z) (ad' : list Z) : Prop := {
  ad_root : forall k, nth k ad' 0 = if decide (p = (k, [])) then b else nth k ad 0;
  ad_new : forall i, 0 <= i < NINDIRECT -> entry v' b i = 0;
  ad_old : forall k ix i, valid_pos (k, ix ++ [i]) -> node v ad (k, ix) <> 0 ->
    entry v' (node v ad (k, ix)) i = if decide (p = (k, ix ++ [i])) then b else entry v (node v ad (k, ix)) i
}.

Lemma added_node v ad p b v' ad' q : added v ad p b v' ad' ->
  node v ad p = 0 -> (forall ix i, p.2 = ix ++ [i] -> node v ad (p.1, ix) <> 0) -> valid_pos q ->
  node v' ad' q = if decide (q = p) then b else node v ad q.
Proof.
  intros [A1 A2 A3] Hp Hpar. destruct q as [k js]. induction js as [|j js IH] using rev_ind; intros Hq.
  - unfold node. simpl. rewrite A1. repeat case_decide; congruence.
  - destruct (valid_snoc _ _ _ Hq) as (Hq' & Hj & _). rewrite !node_snoc, (IH Hq').
    destruct (decide ((k, js) = p)) as [<-|Hne].
    + rewrite A2, Hp by done. rewrite decide_False; [done|]. intros [= E].
      apply (f_equal length) in E. rewrite length_app in E. simpl in E. lia.
    + destruct (decide (node v ad (k, js) = 0)) as [E0|E0].
      * rewrite E0. rewrite decide_False; [done|]. intros <-. by eapply (Hpar js j).
      * rewrite A3 by done. repeat case_decide; congruence.
Qed.

Lemma added_ok v sbv ad p b v' ad' : added v ad p b v' ad' -> tree_ok v sbv ad -> valid_pos p ->
  node v ad p = 0 -> (forall ix i, p.2 = ix ++ [i] -> node v ad (p.1, ix) <> 0) ->
  length ad' = length ad -> b <> 0 -> nmeta sbv <= b < sbsize sbv -> bit_set v sbv b = false ->
  (forall b', nmeta sbv <= b' < sbsize sbv -> bit_set v' sbv b' = if decide (b' = b) then true else bit_set v sbv b') ->
  tree_ok v' sbv ad'.
Proof.
  intros Ha [T1 T2 T3] Vp Hp Hpar Hlen Hb0 Hb Hbit Hbits.
  pose proof (fun q => added_node v ad p b v' ad' q Ha Hp Hpar) as Hn. split; [congruence | |].
  - intros q Vq. rewrite Hn by done. case_decide as E; intros Hq; split; try done.
    + rewrite Hbits by done. by rewrite decide_True.
    + by apply T2.
    + rewrite Hbits by (by apply T2). case_decide; [done|]. by apply T2.
  - assert (forall q, valid_pos q -> node v ad q <> b) as Hfresh.
    { intros q Vq E. destruct (decide (node v ad q = 0)) as [E0|E0].
      - congruence.
      - destruct (T2 q Vq E0) as [_ Hs]. rewrite E in Hs. congruence. }
    intros q r Vq Vr. rewrite !Hn by done. repeat case_decide; intros H1 H2; subst; try done.
    + exfalso. by apply (Hfresh r).
    + exfalso. by apply (Hfresh q).
    + by apply T3.
Qed.

(** The view after [balloc] handed out [b]. *)
Definition v_alloc (sbv : superblock) (b : Z) (v : Z -> list Z) : Z -> list Z :=
  upd (upd v (BBLOCK b sbv) (mark b (v (BBLOCK b sbv)))) b (replicate BSIZE 0).

Lemma v_alloc_other sbv b v n : 0 <= b < sbsize sbv -> n <> b -> n <> BBLOCK b sbv -> v_alloc sbv b v n = v n.
Proof. intros Hb H1 H2. unfold v_alloc. by rewrite !upd_ne. Qed.

Lemma v_alloc_data sbv b v n : 0 <= b < sbsize sbv -> nmeta sbv <= n -> n <> b -> v_alloc sbv b v n = v n.
Proof. intros Hb Hn Hne. apply v_alloc_other; [done..|]. pose proof (bblock_meta sbv b Hb). lia. Qed.

Lemma v_alloc_bits sbv b v b' : nmeta sbv <= b < sbsize sbv -> 0 <= b -> 0 <= b' < sbsize sbv ->
  length (v (BBLOCK b sbv)) = BSIZE ->
  bit_set (v_alloc sbv b v) sbv b' = if decide (b' = b) then true else bit_set v sbv b'.
Proof.
  intros Hb H0 Hb' Hlen. unfold v_alloc. rewrite bit_set_other; [by apply bit_set_mark|].
  pose proof (bblock_meta sbv b' Hb'). lia.
Qed.

Lemma bit_set_data sbv v n d b : 0 <= b < sbsize sbv -> nmeta sbv <= n ->
  bit_set (upd v n d) sbv b = bit_set v sbv b.
Proof. intros Hb Hn. apply bit_set_other. pose proof (bblock_meta sbv b Hb). lia. Qed.

Lemma get32_zeros n o : get32 (replicate n 0) o = 0.
Proof.
  assert (forall i, byte_at (replicate n 0) i = 0) as E.
  { intros i. unfold byte_at. rewrite nth_lookup. destruct (_ !! i) eqn:E; [|done].
    by apply lookup_replicate in E as [-> _]. }
  unfold get32, get16. by rewrite !E.
Qed.

Lemma entry_zeros v b i : v b = replicate BSIZE 0 -> entry v b i = 0.
Proof. intros E. unfold entry. case_decide; [done|]. rewrite E. apply get32_zeros. Qed.

(** [inode_slot] puts a block in a slot of the inode. *)
Lemma added_root v sbv ad k b : tree_ok v sbv ad -> (k <= NDIRECT + 2)%nat ->
  0 <= b < sbsize sbv -> bit_set v sbv b = false ->
  added v ad (k, []) b (v_alloc sbv b v) (<[k := b]> ad).
Proof.
  intros [T1 T2 T3] Hk Hb Hbit. split.
  - intros k'. rewrite !nth_lookup. destruct (decide (k = k')) as [->|Hne].
    + rewrite list_lookup_insert_eq by lia. by rewrite decide_True.
    + rewrite list_lookup_insert_ne by done. rewrite decide_False by congruence. done.
  - intros i Hi. apply entry_zeros. apply upd_eq.
  - intros k' ix i Hv Hn. rewrite decide_False; [|by destruct ix].
    destruct (valid_snoc _ _ _ Hv) as (Hv' & _). destruct (T2 _ Hv' Hn) as [Hr Hs].
    unfold entry. rewrite v_alloc_data; [done | done | lia | congruence].
Qed.

(** [indirect_slot] puts a block in an entry of an indirect block. *)
Lemma added_child v sbv ad k ix i b : tree_ok v sbv ad -> valid_pos (k, ix ++ [i]) ->
  let par := node v ad (k, ix) in
  par <> 0 -> 0 <= b < sbsize sbv -> b < 2 ^ 32 -> bit_set v sbv b = false ->
  length (v par) = BSIZE ->
  added v ad (k, ix ++ [i]) b
    (upd (v_alloc sbv b v) par (put32 (4 * Z.to_nat i) b (v_alloc sbv b v par))) ad.
Proof.
  intros [T1 T2 T3] Hv par Hpar Hb Hb32 Hbit Hlen. destruct (valid_snoc _ _ _ Hv) as (Hv' & Hi & _).
  destruct (T2 _ Hv' Hpar) as [Hr Hs]. assert (par <> b) as Hpb by (unfold par; congruence).
  assert (v_alloc sbv b v par = v par) as Ep by (apply v_alloc_data; [done | unfold par; lia | done]).
  levels. split.
  - intros k'. rewrite decide_False; [done|]. by destruct ix.
  - intros j Hj. apply entry_zeros. rewrite upd_ne by done. apply upd_eq.
  - intros k' jx j Hj Hn. destruct (valid_snoc _ _ _ Hj) as (Hj' & Hji & _). levels.
    destruct (T2 _ Hj' Hn) as [Hr' Hs']. unfold entry. rewrite decide_False by done.
    destruct (decide (node v ad (k', jx) = par)) as [E|Hne].
    + assert ((k', jx) = (k, ix)) as [= -> ->] by (by apply T3). fold par. rewrite upd_eq, Ep.
      destruct (decide (j = i)) as [->|Hji'].
      * rewrite get32_put32_eq by (rewrite ?Hlen; unfold BSIZE; lia). by rewrite decide_True.
      * rewrite get32_put32_ne by lia. rewrite decide_False; [by rewrite decide_False|].
        intros [= E']. apply app_inj_tail in E' as [_ ?]. done.
    + rewrite upd_ne by done. rewrite v_alloc_data; [|done | lia | congruence].
      rewrite (decide_False (P := (k, ix ++ [i]) = _)); [by rewrite decide_False|].
      intros [= -> E']. apply app_inj_tail in E' as [-> _]. done.
Qed.

(** ** Contents *)

(** Byte [off] of the file; a missing block reads as zeros. *)
Definition content (v : Z -> list Z) (ad : list Z) (off : Z) : Z :=
  let a := node v ad (bpath (off / Z.of_nat BSIZE)) in
  if decide (a = 0) then 0 else byte_at (v a) (Z.to_nat (off mod Z.of_nat BSIZE)).

(** Offsets a file can have. *)
Definition in_file (off : Z) : Prop := 0 <= off < MAXFILE * Z.of_nat BSIZE.

Lemma in_file_block off : in_file off -> 0 <= off / Z.of_nat BSIZE < MAXFILE.
Proof.
  unfold in_file, BSIZE. intros H. split; [apply Z.div_pos; lia | apply Z.div_lt_upper_bound; lia].
Qed.

Lemma byte_zeros n i : byte_at (replicate n 0) i = 0.
Proof.
  unfold byte_at. rewrite nth_lookup. destruct (_ !! i) eqn:E; [|done]. by apply lookup_replicate in E as [-> _].
Qed.

Lemma added_content v ad p b v' ad' off : added v ad p b v' ad' ->
  node v ad p = 0 -> (forall ix i, p.2 = ix ++ [i] -> node v ad (p.1, ix) <> 0) ->
  (leaf p -> v' b = replicate BSIZE 0) ->
  (forall q, valid_pos q -> leaf q -> node v ad q <> 0 -> v' (node v ad q) = v (node v ad q)) ->
  in_file off -> content v' ad' off = content v ad off.
Proof.
  intros Ha Hp Hpar Hb Hq Hoff. destruct (bpath_valid _ (in_file_block _ Hoff)) as [Vq Lq].
  unfold content. cbv zeta. rewrite (added_node _ _ _ _ _ _ _ Ha Hp Hpar Vq).
  destruct (decide (bpath (off / Z.of_nat BSIZE) = p)) as [E|E].
  - rewrite E, Hp, (decide_True (P := 0 = 0)) by done. rewrite Hb by (by rewrite <- E).
    rewrite byte_zeros. by case_decide.
  - case_decide; [done|]. by rewrite Hq.
Qed.

(** ** Free blocks *)

Definition nfree (v : Z -> list Z) (sbv : superblock) : nat :=
  length (filter (fun b => bit_set v sbv b = false) (seqZ 0 (sbsize sbv))).

Lemma nfree_some v sbv : (0 < nfree v sbv)%nat -> exists b, 0 <= b < sbsize sbv /\ bit_set v sbv b = false.
Proof.
  unfold nfree. intros Hn. destruct (filter _ _) as [|b l] eqn:E; [simpl in Hn; lia|].
  assert (b ∈ filter (fun b => bit_set v sbv b = false) (seqZ 0 (sbsize sbv))) as Hb
    by (rewrite E; apply list_elem_of_here).
  apply list_elem_of_filter in Hb as [Hb Hr]. apply elem_of_seqZ in Hr. exists b. split; [lia | done].
Qed.

Lemma filter_same (f g : Z -> bool) (l : list Z) : (forall x, x ∈ l -> g x = f x) ->
  filter (fun x => g x = false) l = filter (fun x => f x = false) l.
Proof.
  intros Heq. induction l as [|y l IH]; [done|].
  assert (g y = f y) as Ey by (apply Heq, list_elem_of_here).
  destruct (f y) eqn:E; [rewrite !filter_cons_False by congruence | rewrite !filter_cons_True by congruence; f_equal];
    apply IH; intros x Hx; by apply Heq, list_elem_of_further.
Qed.

(** A test that fails on one more element of a list without duplicates. *)
Lemma filter_flip (f g : Z -> bool) (l : list Z) b : NoDup l -> b ∈ l -> f b = false ->
  (forall x, x ∈ l -> g x = if decide (x = b) then true else f x) ->
  length (filter (fun x => f x = false) l) = S (length (filter (fun x => g x = false) l)).
Proof.
  intros Hnd Hb Hf Hg. induction l as [|a l IH]; [by apply elem_of_nil in Hb|].
  apply NoDup_cons in Hnd as [Hni Hnd].
  assert (g a = if decide (a = b) then true else f a) as Ega by (apply Hg, list_elem_of_here).
  destruct (decide (a = b)) as [->|Hne].
  - rewrite filter_cons_True by done. rewrite (filter_cons_False _ b) by congruence. simpl. f_equal. f_equal.
    symmetry. apply filter_same. intros x Hx. rewrite Hg by (by apply list_elem_of_further).
    rewrite decide_False; [done|]. by intros ->.
  - apply elem_of_cons in Hb as [->|Hb]; [done|].
    specialize (IH Hnd Hb (fun x Hx => Hg x (list_elem_of_further _ _ _ Hx))).
    destruct (f a) eqn:E; [rewrite !filter_cons_False by congruence | rewrite !filter_cons_True by congruence; simpl];
      lia.
Qed.

Lemma nfree_alloc v v' sbv b : 0 <= b < sbsize sbv -> bit_set v sbv b = false ->
  (forall b', 0 <= b' < sbsize sbv -> bit_set v' sbv b' = if decide (b' = b) then true else bit_set v sbv b') ->
  nfree v sbv = S (nfree v' sbv).
Proof.
  intros Hb Hbit Hbits. unfold nfree. apply (filter_flip (bit_set v sbv) (bit_set v' sbv) _ b); [|by apply elem_of_seqZ | done |].
  - apply NoDup_seqZ.
  - intros x Hx. apply elem_of_seqZ in Hx. apply Hbits. lia.
Qed.

Lemma nfree_ext v v' sbv : (forall b, 0 <= b < sbsize sbv -> bit_set v' sbv b = bit_set v sbv b) ->
  nfree v' sbv = nfree v sbv.
Proof.
  intros He. unfold nfree. f_equal. apply filter_same. intros b Hb.
  apply elem_of_seqZ in Hb. apply He. lia.
Qed.

(** ** Trees that grow *)

(** Block [b] does not belong to the tree or the bitmap. *)
Definition outside (v : Z -> list Z) (sbv : superblock) (ad : list Z) (b : Z) : Prop :=
  (forall b', 0 <= b' < sbsize sbv -> b <> BBLOCK b' sbv) /\
  (nmeta sbv <= b -> bit_set v sbv b = true) /\ 0 <= b < sbsize sbv /\
  (forall q, valid_pos q -> node v ad q <> 0 -> node v ad q <> b).

(** Blocks are added at positions of [P] only; blocks outside the tree stay. *)
Record extends (sbv : superblock) (P : pos -> Prop) (v : Z -> list Z) (ad : list Z)
    (v' : Z -> list Z) (ad' : list Z) : Prop := {
  gw_keep : forall q, valid_pos q -> node v ad q <> 0 -> node v' ad' q = node v ad q;
  gw_only : forall q, valid_pos q -> ~ P q -> node v' ad' q = node v ad q;
  gw_fresh : forall q, valid_pos q -> node v ad q = 0 -> node v' ad' q <> 0 ->
    bit_set v sbv (node v' ad' q) = false;
  gw_bits : forall b, 0 <= b < sbsize sbv -> bit_set v sbv b = true -> bit_set v' sbv b = true;
  gw_rest : forall b, outside v sbv ad b -> v' b = v b
}.

(** ... and the contents of the file stay. *)
Record grows (sbv : superblock) (P : pos -> Prop) (v : Z -> list Z) (ad : list Z)
    (v' : Z -> list Z) (ad' : list Z) : Prop := {
  gw_ext :> extends sbv P v ad v' ad';
  gw_content : forall off, in_file off -> content v' ad' off = content v ad off
}.

Lemma extends_refl sbv P v ad : extends sbv P v ad v ad.
Proof. by split. Qed.

Lemma grows_refl sbv P v ad : grows sbv P v ad v ad.
Proof. split; [apply extends_refl | done]. Qed.

Lemma outside_extends sbv sz P v ad v' ad' b : extends sbv P v ad v' ad' -> disk_ok v sbv sz -> tree_ok v' sbv ad' ->
  outside v sbv ad b -> outside v' sbv ad' b.
Proof.
  intros G Hd Ht (O1 & O2 & O3 & O4). split; [done|]. split; [|split; [done|]].
  - intros Hn. apply (gw_bits _ _ _ _ _ _ G); [lia | by apply O2].
  - intros q Vq Hq E. destruct (decide (node v ad q = 0)) as [E0|E0].
    + pose proof (gw_fresh _ _ _ _ _ _ G q Vq E0 Hq) as Hf. rewrite E in Hf.
      rewrite O2 in Hf; [done|]. destruct (tr_used _ _ _ Ht q Vq Hq). lia.
    + rewrite (gw_keep _ _ _ _ _ _ G) in E by done. by apply (O4 q).
Qed.

Lemma extends_trans sbv sz P v ad v1 ad1 v2 ad2 : disk_ok v sbv sz -> tree_ok v1 sbv ad1 -> tree_ok v2 sbv ad2 ->
  2 < nmeta sbv -> extends sbv P v ad v1 ad1 -> extends sbv P v1 ad1 v2 ad2 -> extends sbv P v ad v2 ad2.
Proof.
  intros Hd Ht1 Ht2 Hm G H. split.
  - intros q Vq Hq. rewrite (gw_keep _ _ _ _ _ _ H); [by apply (gw_keep _ _ _ _ _ _ G) | done |].
    by rewrite (gw_keep _ _ _ _ _ _ G).
  - intros q Vq Hq. rewrite (gw_only _ _ _ _ _ _ H) by done. by apply (gw_only _ _ _ _ _ _ G).
  - intros q Vq Hq Hq2. destruct (decide (node v1 ad1 q = 0)) as [E|E].
    + pose proof (gw_fresh _ _ _ _ _ _ H q Vq E Hq2) as Hf. destruct (tr_used _ _ _ Ht2 q Vq Hq2) as [Hr _].
      destruct (bit_set v sbv (node v2 ad2 q)) eqn:Eb; [|done].
      rewrite (gw_bits _ _ _ _ _ _ G) in Hf; [done | lia | done].
    + rewrite (gw_keep _ _ _ _ _ _ H) by done. apply (gw_fresh _ _ _ _ _ _ G); done.
  - intros b Hb Hs. by apply (gw_bits _ _ _ _ _ _ H), (gw_bits _ _ _ _ _ _ G).
  - intros b Ho. rewrite (gw_rest _ _ _ _ _ _ H); [by apply (gw_rest _ _ _ _ _ _ G)|]. by eapply outside_extends.
Qed.

Lemma grows_trans sbv sz P v ad v1 ad1 v2 ad2 : disk_ok v sbv sz -> tree_ok v1 sbv ad1 -> tree_ok v2 sbv ad2 ->
  2 < nmeta sbv -> grows sbv P v ad v1 ad1 -> grows sbv P v1 ad1 v2 ad2 -> grows sbv P v ad v2 ad2.
Proof.
  intros Hd Ht1 Ht2 Hm [G1 G2] [H1 H2]. split; [exact (extends_trans _ _ _ _ _ _ _ _ _ Hd Ht1 Ht2 Hm G1 H1)|].
  intros off Ho. by rewrite H2, G2.
Qed.

(** Both ways of adding a block are growth. *)
Lemma added_grows v sbv sz ad p b v' ad' (P : pos -> Prop) : added v ad p b v' ad' -> disk_ok v sbv sz ->
  tree_ok v sbv ad -> valid_pos p -> P p ->
  node v ad p = 0 -> (forall ix i, p.2 = ix ++ [i] -> node v ad (p.1, ix) <> 0) ->
  bit_set v sbv b = false ->
  (forall b', 0 <= b' < sbsize sbv -> bit_set v' sbv b' = if decide (b' = b) then true else bit_set v sbv b') ->
  (leaf p -> v' b = replicate BSIZE 0) ->
  (forall q, valid_pos q -> leaf q -> node v ad q <> 0 -> v' (node v ad q) = v (node v ad q)) ->
  (forall b', outside v sbv ad b' -> v' b' = v b') ->
  grows sbv P v ad v' ad'.
Proof.
  intros Ha Hd Ht Vp Pp Hp Hpar Hbit Hbits Hleaf Hleaves Hrest.
  pose proof (fun q => added_node v ad p b v' ad' q Ha Hp Hpar) as Hn. split; [split|].
  - intros q Vq Hq. rewrite Hn by done. case_decide; congruence.
  - intros q Vq Hq. rewrite Hn by done. case_decide; congruence.
  - intros q Vq Hq. rewrite Hn by done. case_decide; congruence.
  - intros b' Hb' Hs. rewrite Hbits by done. by case_decide.
  - done.
  - intros off Hoff. by eapply added_content.
Qed.

(** ** Missing blocks *)

Definition missing (v : Z -> list Z) (ad : list Z) (P : gset pos) : nat :=
  size (filter (fun p => node v ad p = 0) P).

(** The positions after [ix] on the way to [ix ++ jx]. *)
Fixpoint below (k : nat) (ix jx : list Z) : gset pos :=
  match jx with
  | [] => ∅
  | j :: jx' => {[(k, ix ++ [j])]} ∪ below k (ix ++ [j]) jx'
  end.

(** The positions [bmap] visits for block [bn]. *)
Definition path (bn : Z) : gset pos := {[((bpath bn).1, [])]} ∪ below (bpath bn).1 [] (bpath bn).2.

Lemma elem_of_below k ix jx q : q ∈ below k ix jx <-> exists l r, jx = l ++ r /\ l <> [] /\ q = (k, ix ++ l).
Proof.
  revert ix. induction jx as [|j jx IH]; intros ix; simpl.
  - split; [by intros ?%elem_of_empty|]. intros (l & r & E & Hl & _). by destruct l.
  - rewrite elem_of_union, elem_of_singleton, IH. split.
    + intros [->|(l & r & -> & Hl & ->)].
      * exists [j], jx. by split_and!.
      * exists (j :: l), r. split_and!; [done | done |]. by rewrite <- app_assoc.
    + intros (l & r & E & Hl & ->). destruct l as [|j' l]; [done|]. simplify_eq/=.
      destruct l as [|j2 l]; [by left|right]. exists (j2 :: l), r. split_and!; [done | done |].
      by rewrite <- app_assoc.
Qed.

Lemma below_deeper k ix jx q : q ∈ below k ix jx -> (length ix < length q.2)%nat.
Proof.
  rewrite elem_of_below. intros (l & r & -> & Hl & ->). simpl. rewrite length_app. destruct l; [done|]. simpl. lia.
Qed.

Lemma elem_of_path bn q : q ∈ path bn <-> exists l r, (bpath bn).2 = l ++ r /\ q = ((bpath bn).1, l).
Proof.
  unfold path. rewrite elem_of_union, elem_of_singleton, elem_of_below. split.
  - intros [->|(l & r & E & _ & ->)]; [by exists [], (bpath bn).2 | by exists l, r].
  - intros (l & r & E & ->). destruct l as [|j l]; [by left | right]. by exists (j :: l), r.
Qed.

Lemma path_leaf bn : bpath bn ∈ path bn.
Proof.
  rewrite elem_of_path. exists (bpath bn).2, []. rewrite app_nil_r. split; [done|]. by destruct (bpath bn).
Qed.

Lemma missing_ext v ad v' ad' P : (forall p, p ∈ P -> node v' ad' p = node v ad p) ->
  missing v' ad' P = missing v ad P.
Proof.
  intros He. unfold missing. f_equal. apply set_eq. intros p. rewrite !elem_of_filter.
  split; intros [E Hp]; (split; [|done]); [by rewrite <- He | by rewrite He].
Qed.

Lemma missing_add v ad p P : p ∉ P ->
  missing v ad ({[p]} ∪ P) = ((if decide (node v ad p = 0%Z) then 1 else 0) + missing v ad P)%nat.
Proof.
  intros Hp. unfold missing. case_decide as E.
  - assert (filter (fun p => node v ad p = 0) ({[p]} ∪ P) = {[p]} ∪ filter (fun p => node v ad p = 0) P) as ->.
    { apply set_eq. intros q. rewrite elem_of_union, !elem_of_filter, elem_of_union, elem_of_singleton. naive_solver. }
    rewrite size_union; [by rewrite size_singleton|].
    intros q Hq. apply elem_of_singleton in Hq as ->. rewrite elem_of_filter. by intros [_ ?].
  - rewrite Nat.add_0_l. f_equal. apply set_eq. intros q. rewrite !elem_of_filter, elem_of_union, elem_of_singleton. naive_solver.
Qed.

Lemma missing_empty v ad : missing v ad ∅ = 0%nat.
Proof. unfold missing. apply size_empty_iff. intros p. rewrite elem_of_filter. set_solver. Qed.

Lemma missing_one v ad p : node v ad p = 0 -> missing v ad {[p]} = 1%nat.
Proof.
  intros Hp. rewrite <- (union_empty_r_L {[p]}), missing_add by set_solver.
  by rewrite decide_True, missing_empty by done.
Qed.

Lemma missing_mono v ad P Q : P ⊆ Q -> (missing v ad P <= missing v ad Q)%nat.
Proof. intros HPQ. apply subseteq_size. intros p. rewrite !elem_of_filter. set_solver. Qed.

(** Filling all positions of [Q] and nothing else. *)
Lemma missing_fill v ad v' ad' P Q : Q ⊆ P -> (forall p, p ∈ Q -> node v' ad' p <> 0) ->
  (forall p, p ∈ P -> p ∉ Q -> node v' ad' p = node v ad p) ->
  (missing v' ad' P + missing v ad Q = missing v ad P)%nat.
Proof.
  intros HQ Hf Hk. unfold missing.
  rewrite <- size_union.
  - f_equal. apply set_eq. intros p. rewrite elem_of_union, !elem_of_filter. split.
    + intros [[E Hp]|[E Hp]]; [|by auto]. split; [|done]. destruct (decide (p ∈ Q)) as [Hq|Hq]; [by apply Hf in Hq|].
      by rewrite <- Hk.
    + intros [E Hp]. destruct (decide (p ∈ Q)); [by right | left]. split; [by rewrite Hk | done].
  - intros p. rewrite !elem_of_filter. intros [E _] [_ Hq]. by apply Hf in Hq.
Qed.

Lemma missing_below_cons v ad k ix j jx : missing v ad (below k ix (j :: jx)) =
  ((if decide (node v ad (k, ix ++ [j]) = 0%Z) then 1 else 0) + missing v ad (below k (ix ++ [j]) jx))%nat.
Proof. simpl. apply missing_add. intros Hp. apply below_deeper in Hp. simpl in Hp. lia. Qed.

Lemma missing_path v ad bn : missing v ad (path bn) =
  ((if decide (node v ad ((bpath bn).1, []) = 0%Z) then 1 else 0) + missing v ad (below (bpath bn).1 [] (bpath bn).2))%nat.
Proof. apply missing_add. intros Hp. apply below_deeper in Hp. simpl in Hp. lia. Qed.

(** ** Writing to a data block *)

(** What holds of any tree with distinct nodes. *)
Section write_distinct.
Context (v : Z -> list Z) (ad : list Z) (q : pos) (d : list Z).
Context (Hinj : forall p q, valid_pos p -> valid_pos q -> node v ad p <> 0 -> node v ad p = node v ad q -> p = q).
Context (Vq : valid_pos q) (Lq : leaf q) (Hq : node v ad q <> 0).

Lemma wr_node p : valid_pos p -> node (upd v (node v ad q) d) ad p = node v ad p.
Proof.
  destruct p as [k jx]. induction jx as [|j jx IH] using rev_ind; intros Vp; [done|].
  destruct (valid_snoc _ _ _ Vp) as (Vp' & _ & Hl). rewrite !node_snoc, IH by done. unfold entry.
  case_decide; [done|]. rewrite upd_ne; [done|]. intros E. apply Hl.
  by rewrite (Hinj _ _ Vp' Vq ltac:(done) E).
Qed.

Lemma wr_content bn off : bpath bn = q -> 0 <= bn < MAXFILE -> in_file off ->
  content (upd v (node v ad q) d) ad off =
    if decide (off / Z.of_nat BSIZE = bn) then byte_at d (Z.to_nat (off mod Z.of_nat BSIZE)) else content v ad off.
Proof.
  intros E Hbn Hoff. pose proof (in_file_block _ Hoff) as Ho. unfold content. cbv zeta.
  destruct (bpath_valid _ Ho) as [Vo _]. rewrite wr_node by done.
  destruct (decide (off / Z.of_nat BSIZE = bn)) as [Eb|Eb].
  - rewrite Eb, E. rewrite decide_False by done. by rewrite upd_eq.
  - case_decide; [done|]. rewrite upd_ne; [done|]. intros En. apply Eb.
    apply bpath_inj; [done..|]. rewrite E. by apply Hinj.
Qed.

(** The contents after the bytes [src] were copied into the block of offset [off], which they
    fit in. *)
Lemma wr_chunk off src o : in_file off -> bpath (off / 512) = q -> off mod 512 + Z.of_nat (length src) <= 512 ->
  length (v (node v ad q)) = BSIZE -> d = blit (Z.to_nat (off mod 512)) src (v (node v ad q)) -> in_file o ->
  content (upd v (node v ad q) d) ad o =
    if decide (off <= o < off + Z.of_nat (length src)) then nth (Z.to_nat (o - off)) src 0 else content v ad o.
Proof.
  intros Hin Eq Hfit Hlen Ed Ho. pose proof (in_file_block off Hin) as Hbn. change (Z.of_nat BSIZE) with 512 in Hbn.
  rewrite (wr_content (off / 512)) by done. change (Z.of_nat BSIZE) with 512. pose proof (Z.mod_pos_bound off 512 eq_refl) as Hob.
  pose proof (Z.mod_pos_bound o 512 eq_refl) as Hob'. pose proof (Z.div_mod off 512) as Eo. pose proof (Z.div_mod o 512) as Eo'.
  case_decide as Eb.
  - unfold byte_at. rewrite Ed, nth_lookup, lookup_blit by (rewrite Hlen; unfold BSIZE; lia).
    destruct (decide (off <= o < off + Z.of_nat (length src))) as [Hio|Hio].
    + rewrite decide_True by lia. rewrite nth_lookup. do 2 f_equal. lia.
    + rewrite decide_False by lia. unfold content. cbv zeta. change (Z.of_nat BSIZE) with 512. rewrite Eb, Eq.
      rewrite decide_False by done. unfold byte_at. by rewrite nth_lookup.
  - rewrite decide_False; [done|]. intros Hio. apply Eb. Z.to_euclidean_division_equations. lia.
Qed.
End write_distinct.

Section write.
Context (v : Z -> list Z) (sbv : superblock) (ad : list Z) (q : pos) (d : list Z).
Context (Ht : tree_ok v sbv ad) (Vq : valid_pos q) (Lq : leaf q) (Hq : node v ad q <> 0).

Lemma write_node p : valid_pos p -> node (upd v (node v ad q) d) ad p = node v ad p.
Proof. apply wr_node; [apply Ht | done | done]. Qed.

Lemma write_bits b : 0 <= b < sbsize sbv -> bit_set (upd v (node v ad q) d) sbv b = bit_set v sbv b.
Proof. intros Hb. apply bit_set_data; [done|]. by apply (tr_used _ _ _ Ht q Vq Hq). Qed.

Lemma write_tree : 0 <= nmeta sbv -> tree_ok (upd v (node v ad q) d) sbv ad.
Proof.
  intros Hm. split; [apply Ht | |].
  - intros p Vp. rewrite write_node by done. intros Hp. destruct (tr_used _ _ _ Ht p Vp Hp) as [Hr Hs].
    split; [done|]. by rewrite write_bits by lia.
  - intros p r Vp Vr. rewrite !write_node by done. by apply Ht.
Qed.

Lemma write_rest b : outside v sbv ad b -> upd v (node v ad q) d b = v b.
Proof. intros (_ & _ & _ & Ho). apply upd_ne. intros ->. by apply (Ho q). Qed.

Lemma write_content bn off : bpath bn = q -> 0 <= bn < MAXFILE -> in_file off ->
  content (upd v (node v ad q) d) ad off =
    if decide (off / Z.of_nat BSIZE = bn) then byte_at d (Z.to_nat (off mod Z.of_nat BSIZE)) else content v ad off.
Proof. apply wr_content; [apply Ht | done | done | done]. Qed.
End write.
