(* ===== verification/FsMap.v ===== *)
(** [bmap] of fs.c: finding, and if need be adding, a block of a file.

    The function walks from the inode through up to three indirect blocks, and
    allocates what is missing on the way.  The rules say what it does to the block
    tree of the inode (FsTree.v), how many buffers and free blocks it takes, and
    that it leaves everything else alone. *)

From S2P Require Import Prelude Bytes CString BlockCache BlockClient FsLayout.
From S2P Require Import Log LogDisk LogRun LogTxn Fs FsPure FsRun FsBlocks FsTree.
Import Fs.

#[local] Arguments Nat.add : simpl never.
#[local] Arguments Nat.mul : simpl never.
#[local] Arguments Z.add : simpl never.
#[local] Arguments Z.mul : simpl never.

(** The addresses of an in-memory inode. *)
Definition addrs (x : afs) (ip : nat) : list Z := daddrs (din (ageti x ip)).
Definition with_addrs (ad : list Z) (i : inode) : inode :=
  set_din (MkDinode (dtype (din i)) (dmajor (din i)) (dminor (din i)) (dnlink (din i)) (dsize (din i)) ad) i.

(** The block tree of the inode is in order. *)
Record fbase (x : afs) (ip : nat) : Prop := {
  fb_ip : (ip < length (aic x))%nat;
  fb_dev : idev (ageti x ip) = ROOTDEV;
  fb_disk : disk_ok (aview (ac x)) (asb x) (asize (ac x));
  fb_tree : tree_ok (aview (ac x)) (asb x) (addrs x ip)
}.

(** Only contents, pinned blocks and the addresses of the inode differ. *)
Record keeps (ip : nat) (x x' : afs) : Prop := {
  kp_sb : asb x' = asb x;
  kp_pid : apid x' = apid x;
  kp_held : aheld (ac x') = aheld (ac x);
  kp_handle : ahandle (ac x') = ahandle (ac x);
  kp_size : asize (ac x') = asize (ac x);
  kp_disk : forall b, adisk (ac x') b = adisk (ac x) b;
  kp_dirty : adirty (ac x) ⊆ adirty (ac x');
  kp_len : length (aic x') = length (aic x);
  kp_other : forall j, j <> ip -> ageti x' j = ageti x j;
  kp_ip : ageti x' ip = with_addrs (addrs x' ip) (ageti x ip)
}.

Lemma keeps_refl ip x : keeps ip x x.
Proof. split; try done. unfold with_addrs, addrs. by destruct (ageti x ip) as [?????? []]. Qed.

Lemma keeps_trans ip x y z : keeps ip x y -> keeps ip y z -> keeps ip x z.
Proof.
  intros [A1 A2 A3 A4 A5 A6 A7 A8 A9 A10] [B1 B2 B3 B4 B5 B6 B7 B8 B9 B10].
  split.
  1-5: congruence.
  - intros b. by rewrite B6, A6.
  - by etransitivity.
  - congruence.
  - intros j Hj. by rewrite B9, A9.
  - rewrite B10 at 1. by rewrite A10.
Qed.

(** The deepest block there is on the way from block [a] along [jx]. *)
Fixpoint deepest (v : Z -> list Z) (a : Z) (jx : list Z) : Z :=
  match jx with
  | [] => a
  | j :: jx' => if decide (entry v a j = 0) then a else deepest v (entry v a j) jx'
  end.

(** What a walk has done when every position of [P] has a block: [z] is the one
    old block that may have been logged for a new entry, and nodes less deep than
    [d] have kept their contents. *)
Record walked (ip : nat) (P : gset pos) (z : Z) (d : nat) (x x' : afs) : Prop := {
  wk_keeps : keeps ip x x';
  wk_base : fbase x' ip;
  wk_grows : grows (asb x) (fun p => p ∈ P) (aview (ac x)) (addrs x ip) (aview (ac x')) (addrs x' ip);
  wk_full : forall p, p ∈ P -> node (aview (ac x')) (addrs x' ip) p <> 0;
  wk_dirty : exists N : gset Z, adirty (ac x') ⊆ N ∪ adirty (ac x) /\
    (missing (aview (ac x)) (addrs x ip) P = 0%nat -> N = ∅) /\
    (exists N', N ⊆ {[z]} ∪ N' /\ (size N' <= 2 * missing (aview (ac x)) (addrs x ip) P)%nat);
  wk_new : forall p, p ∈ P -> node (aview (ac x)) (addrs x ip) p = 0 ->
    node (aview (ac x')) (addrs x' ip) p ∈ adirty (ac x');
  wk_free : (nfree (aview (ac x')) (asb x) + missing (aview (ac x)) (addrs x ip) P
             = nfree (aview (ac x)) (asb x))%nat;
  wk_above : forall q, valid_pos q -> (length q.2 < d)%nat -> node (aview (ac x)) (addrs x ip) q <> 0 ->
    aview (ac x') (node (aview (ac x)) (addrs x ip) q) = aview (ac x) (node (aview (ac x)) (addrs x ip) q)
}.

Section map.
Context {S : Type} `{BufSpec S}.
Implicit Types (s : fstate S) (x : afs).
Notation F := (M (fstate S)).

(** The rest of [bmap] from the indirect block [a] on. *)
Fixpoint descend (ip : nat) (jx : list Z) (a : Z) : F Z :=
  match jx with
  | [] => ret a
  | j :: jx' =>
      let! bp := Fs.bread ROOTDEV a in
      let! c := indirect_slot ip bp j in
      let! r := descend ip jx' c in
      Fs.brelse bp ;;;
      ret r
  end.

(** A node of the tree lies on the disk, in the data area. *)
Lemma node_range x ip p : fbase x ip -> valid_pos p -> node (aview (ac x)) (addrs x ip) p <> 0 ->
  0 <= node (aview (ac x)) (addrs x ip) p < asize (ac x) /\
  nmeta (asb x) <= node (aview (ac x)) (addrs x ip) p < sbsize (asb x).
Proof.
  intros [_ _ Hd Ht] Vp Hp. destruct (tr_used _ _ _ Ht p Vp Hp) as [Hr _].
  pose proof (nmeta_pos _ _ _ Hd). pose proof (g_size _ _ (dk_geom _ _ _ Hd)). lia.
Qed.

(** The blocks held are nodes of the tree less deep than [d]. *)
Definition holds (x : afs) (ip d : nat) : Prop :=
  forall b, b ∈ aheld (ac x) -> exists p, valid_pos p /\ (length p.2 < d)%nat /\ b <> 0 /\
    node (aview (ac x)) (addrs x ip) p = b.

Lemma holds_node x ip d p : fbase x ip -> holds x ip d -> valid_pos p -> (d <= length p.2)%nat ->
  node (aview (ac x)) (addrs x ip) p <> 0 -> node (aview (ac x)) (addrs x ip) p ∉ aheld (ac x).
Proof.
  intros Hb Hh Vp Hd Hn Hin. destruct (Hh _ Hin) as (q & Vq & Hq & _ & E).
  assert (p = q) as -> by (apply (tr_inj _ _ _ (fb_tree _ _ Hb)); congruence). lia.
Qed.

Lemma holds_meta x ip d b : fbase x ip -> holds x ip d -> b < nmeta (asb x) -> b ∉ aheld (ac x).
Proof.
  intros Hb Hh Hlt Hin. destruct (Hh _ Hin) as (q & Vq & _ & Hz & E).
  rewrite <- E in Hz. pose proof (node_range x ip q Hb Vq Hz). lia.
Qed.

Lemma holds_free x ip d b : fbase x ip -> holds x ip d -> first_free (aview (ac x)) (asb x) b -> b ∉ aheld (ac x).
Proof.
  intros Hb Hh (Hr & Hf & _) Hin. destruct (Hh _ Hin) as (q & Vq & _ & Hz & E). rewrite <- E in Hz.
  destruct (tr_used _ _ _ (fb_tree _ _ Hb) q Vq Hz) as [_ Hs]. congruence.
Qed.

(** [balloc] while nodes of the tree are held. *)
Lemma fruns_balloc_tree s x ip d (Q : Z -> fstate S -> Prop) : frep s x -> fbase x ip -> holds x ip d ->
  space 2 (ac x) -> (0 < nfree (aview (ac x)) (asb x))%nat ->
  (forall s' b, nmeta (asb x) <= b < sbsize (asb x) -> b <> 0 -> bit_set (aview (ac x)) (asb x) b = false ->
     frep s' (with_ac (a_alloc (asb x) b (ac x)) x) -> Q b s') ->
  runs (balloc ROOTDEV) Q s.
Proof.
  intros Hf Hb Hh Hsp Hn HQ. pose proof Hb as [_ _ Hd Ht]. pose proof (nmeta_pos _ _ _ Hd).
  eapply fruns_balloc; [apply Hd | | | done | done | by apply nfree_some |].
  - intros b Hr. eapply holds_meta; [done | done |]. by apply bblock_meta.
  - intros b Hff. by eapply holds_free.
  - intros s' b (Hr & Hbit & _) Hf'. pose proof (free_data _ _ _ _ Hd Hr Hbit). apply HQ; try done. lia.
Qed.
End map.

(** ** Composing walks *)

Lemma extends_weaken sbv (P P' : pos -> Prop) v ad v' ad' : (forall p, P p -> P' p) ->
  extends sbv P v ad v' ad' -> extends sbv P' v ad v' ad'.
Proof. intros HP [G1 G2 G3 G4 G5]. split; try done. intros q Vq Hq. apply G2; [done|]. intros Hp. by apply Hq, HP. Qed.

Lemma grows_weaken sbv (P P' : pos -> Prop) v ad v' ad' : (forall p, P p -> P' p) ->
  grows sbv P v ad v' ad' -> grows sbv P' v ad v' ad'.
Proof. intros HP [G1 G2]. split; [by eapply extends_weaken | done]. Qed.

Lemma walked_refl ip z d x : fbase x ip -> walked ip ∅ z d x x.
Proof.
  intros Hb. split; rewrite ?missing_empty; try done.
  - apply keeps_refl.
  - exists ∅. split; [set_solver|]. split; [done|]. exists ∅. split; [set_solver | by rewrite size_empty].
Qed.

(** A position that has its block already. *)
Lemma walked_present ip p P z d x x' : p ∉ P -> valid_pos p -> node (aview (ac x)) (addrs x ip) p <> 0 ->
  walked ip P z d x x' -> walked ip ({[p]} ∪ P) z d x x'.
Proof.
  intros Hp Vp Hn [W1 W2 W3 W4 W5 W6 W7 W8].
  assert (missing (aview (ac x)) (addrs x ip) ({[p]} ∪ P) = missing (aview (ac x)) (addrs x ip) P) as Em
    by (rewrite missing_add by done; by rewrite decide_False).
  split; rewrite ?Em; try done.
  - eapply grows_weaken; [|exact W3]. set_solver.
  - intros q [->%elem_of_singleton|Hq]%elem_of_union; [|by apply W4]. by rewrite (gw_keep _ _ _ _ _ _ W3).
  - intros q [->%elem_of_singleton|Hq]%elem_of_union Hq0; [done|]. by apply W6.
Qed.

Lemma dirty_compose (D D1 D2 N1 N1' N2 N2' : gset Z) z z' : D1 ⊆ N1 ∪ D -> N1 ⊆ {[z]} ∪ N1' ->
  D2 ⊆ N2 ∪ D1 -> N2 ⊆ {[z']} ∪ N2' -> z' ∈ D1 ->
  D2 ⊆ (N1 ∪ N2') ∪ D /\ N1 ∪ N2' ⊆ {[z]} ∪ (N1' ∪ N2').
Proof.
  intros H1 H2 H3 H4 Hz. assert (N2 ⊆ N2' ∪ D1) as H5 by (clear H1 H2 H3; set_solver).
  assert (D2 ⊆ N2' ∪ D1) as H6 by (clear H1 H2 H4; set_solver).
  split; [clear -H1 H6; set_solver | clear -H2; set_solver].
Qed.

(** A block added at [p], then a walk from there. *)
Lemma walked_cons ip p P z z' d d' x x1 x2 : p ∉ P -> valid_pos p -> (forall q, q ∈ P -> valid_pos q) ->
  fbase x ip -> node (aview (ac x)) (addrs x ip) p = 0 -> z' ∈ adirty (ac x1) -> (d <= d')%nat ->
  walked ip {[p]} z d x x1 -> walked ip P z' d' x1 x2 -> walked ip ({[p]} ∪ P) z d x x2.
Proof.
  intros Hp Vp VP Hb Hp0 Hz' Hd [W1 W2 W3 W4 (N1 & D1 & _ & N1' & D1' & S1) W6 W7 W8]
    [X1 X2 X3 X4 (N2 & D2 & _ & N2' & D2' & S2) X6 X7 X8].
  pose proof (kp_sb _ _ _ W1) as Esb. rewrite Esb in *.
  assert (forall q, q ∈ P -> node (aview (ac x1)) (addrs x1 ip) q = node (aview (ac x)) (addrs x ip) q) as EP.
  { intros q Hq. apply (gw_only _ _ _ _ _ _ W3); [by apply VP|]. intros E%elem_of_singleton. by subst. }
  rewrite (missing_ext _ _ _ _ P EP) in *. rewrite (missing_one _ _ _ Hp0) in *.
  assert (missing (aview (ac x)) (addrs x ip) ({[p]} ∪ P) = 1 + missing (aview (ac x)) (addrs x ip) P)%nat as Em
    by (rewrite missing_add by done; by rewrite decide_True).
  assert (node (aview (ac x1)) (addrs x1 ip) p <> 0) as Hp1 by (by apply W4, elem_of_singleton).
  assert (node (aview (ac x2)) (addrs x2 ip) p = node (aview (ac x1)) (addrs x1 ip) p) as Ep
    by (by apply (gw_keep _ _ _ _ _ _ X3)).
  split; rewrite ?Em; try done.
  - by eapply keeps_trans.
  - pose proof (fb_disk _ _ Hb) as Hdk. pose proof (fb_tree _ _ W2) as T1. pose proof (fb_tree _ _ X2) as T2.
    rewrite Esb in T1. rewrite (kp_sb _ _ _ X1), Esb in T2.
    eapply grows_trans; [exact Hdk | exact T1 | exact T2 | by eapply nmeta_pos | |];
      (eapply grows_weaken; [|eassumption]); intros q Hq; apply elem_of_union; [by left | by right].
  - intros q [->%elem_of_singleton|Hq]%elem_of_union; [by rewrite Ep | by apply X4].
  - destruct (dirty_compose _ _ _ _ _ _ _ _ _ D1 D1' D2 D2' Hz') as [C1 C2].
    exists (N1 ∪ N2'). split; [done|]. split; [lia|]. exists (N1' ∪ N2'). split; [done|].
    rewrite size_union_alt. assert (size (N2' ∖ N1') <= size N2')%nat by (apply subseteq_size; set_solver). lia.
  - intros q [->%elem_of_singleton|Hq]%elem_of_union Hq0.
    + rewrite Ep. apply (kp_dirty _ _ _ X1). by apply W6; [apply elem_of_singleton|].
    + apply X6; [done|]. by rewrite EP.
  - lia.
  - intros q Vq Hq Hn. rewrite <- (W8 q) by done. pose proof (gw_keep _ _ _ _ _ _ W3 q Vq Hn) as Ek.
    rewrite <- Ek. apply X8; [done | lia | by rewrite Ek].
Qed.

(** A buffer held during a walk. *)
Lemma walked_take_drop ip P z d x x' h a : a ∉ aheld (ac x) -> ahandle (ac x) !! h = None ->
  walked ip P z d (with_ac (a_take h a (ac x)) x) x' -> walked ip P z d x (with_ac (a_drop h a (ac x')) x').
Proof.
  intros Ha Hh [[K1 K2 K3 K4 K5 K6 K7 K8 K9 K10] W2 W3 W4 W5 W6 W7 W8]. split; try done.
  - split; simpl; try done.
    + rewrite K3. simpl. set_solver.
    + rewrite K4. simpl. by rewrite delete_insert_id.
  - destruct W2. by split.
Qed.

(** ** Adding one block *)

Lemma disk_ok_bits v v' sbv sz : disk_ok v sbv sz ->
  (forall b, 0 <= b < sbsize sbv -> bit_set v sbv b = true -> bit_set v' sbv b = true) -> disk_ok v' sbv sz.
Proof. intros [D1 D2 D3 D4] Hb. split; try done. intros b Hr Hs. apply Hb; [lia | by apply D4]. Qed.

Definition full_blocks (x : afs) : Prop := forall b, 0 <= b < asize (ac x) -> length (aview (ac x) b) = BSIZE.

Section add.
Context (x : afs) (ip : nat) (b : Z).
Context (Hbase : fbase x ip) (Hfull : full_blocks x).
Context (Hb : nmeta (asb x) <= b < sbsize (asb x)) (Hb0 : b <> 0) (Hbit : bit_set (aview (ac x)) (asb x) b = false).
#[local] Notation v := (aview (ac x)).
#[local] Notation ad := (addrs x ip).

Lemma add_range : 0 <= b < sbsize (asb x).
Proof. pose proof (nmeta_pos _ _ _ (fb_disk _ _ Hbase)). lia. Qed.

Lemma add_bits b' : 0 <= b' < sbsize (asb x) ->
  bit_set (v_alloc (asb x) b v) (asb x) b' = if decide (b' = b) then true else bit_set v (asb x) b'.
Proof.
  intros Hr. pose proof add_range. apply v_alloc_bits; [done | lia | done |].
  apply Hfull. by apply (g_bmap _ _ (dk_geom _ _ _ (fb_disk _ _ Hbase))).
Qed.

Lemma add_outside b' : outside v (asb x) ad b' -> v_alloc (asb x) b v b' = v b'.
Proof.
  intros (O1 & O2 & O3 & O4). pose proof add_range. apply v_alloc_other; [done | | by apply O1].
  intros ->. rewrite O2 in Hbit by lia. done.
Qed.

(** A node of the tree is not the new block, and [balloc] does not touch it. *)
Lemma add_node q : valid_pos q -> node v ad q <> 0 -> node v ad q <> b /\ v_alloc (asb x) b v (node v ad q) = v (node v ad q).
Proof.
  intros Vq Hq. destruct (tr_used _ _ _ (fb_tree _ _ Hbase) q Vq Hq) as [Hr Hs].
  assert (node v ad q <> b) by congruence. split; [done|]. apply v_alloc_data; [apply add_range | lia | done].
Qed.

(** The parts of [walked] that both ways of adding a block share. *)
Lemma walked_added p z d x' : valid_pos p -> node v ad p = 0 ->
  (forall ix i, p.2 = ix ++ [i] -> node v ad (p.1, ix) <> 0) ->
  added v ad p b (aview (ac x')) (addrs x' ip) -> length (addrs x' ip) = length ad ->
  keeps ip x x' -> adirty (ac x') = {[b; BBLOCK b (asb x)]} ∪ adirty (ac x) \/
    adirty (ac x') = {[z]} ∪ ({[b; BBLOCK b (asb x)]} ∪ adirty (ac x)) ->
  (forall b', 0 <= b' < sbsize (asb x) ->
     bit_set (aview (ac x')) (asb x) b' = if decide (b' = b) then true else bit_set v (asb x) b') ->
  (leaf p -> aview (ac x') b = replicate BSIZE 0) ->
  (forall q, valid_pos q -> leaf q \/ (length q.2 < d)%nat -> node v ad q <> 0 ->
     aview (ac x') (node v ad q) = v (node v ad q)) ->
  (forall b', outside v (asb x) ad b' -> aview (ac x') b' = v b') ->
  walked ip {[p]} z d x x'.
Proof.
  intros Vp Hp Hpar Ha Hlen Hk Hdirty Hbits Hleaf Hsame Hrest.
  pose proof (added_node v ad p b _ _ p Ha Hp Hpar Vp) as Ep. rewrite decide_True in Ep by done.
  pose proof (kp_sb _ _ _ Hk) as Esb. pose proof (kp_size _ _ _ Hk) as Esz.
  pose proof add_range as Hr. pose proof (nmeta_pos _ _ _ (fb_disk _ _ Hbase)).
  split.
  - done.
  - split.
    + rewrite (kp_len _ _ _ Hk). apply Hbase.
    + rewrite (kp_ip _ _ _ Hk). apply (fb_dev _ _ Hbase).
    + rewrite Esb, Esz. eapply disk_ok_bits; [apply (fb_disk _ _ Hbase)|].
      intros b' Hb' Hs. rewrite Hbits by done. by case_decide.
    + rewrite Esb. eapply added_ok; [exact Ha | apply Hbase | done..|]. intros b' Hb'. apply Hbits. lia.
  - eapply added_grows; [exact Ha | apply (fb_disk _ _ Hbase) | apply Hbase | done | by apply elem_of_singleton | done | done | done | done | done | | done].
    intros q Vq Lq Hq. apply Hsame; [done | by left | done].
  - intros q ->%elem_of_singleton. by rewrite Ep.
  - exists ({[z]} ∪ {[b; BBLOCK b (asb x)]}). rewrite (missing_one _ _ _ Hp). split; [|split; [done|]].
    + clear -Hdirty. set_solver.
    + exists {[b; BBLOCK b (asb x)]}. split; [done|].
      pose proof (size_union_alt ({[b]} : gset Z) {[BBLOCK b (asb x)]}) as E. rewrite size_singleton in E.
      assert (size (({[BBLOCK b (asb x)]} : gset Z) ∖ {[b]}) <= size ({[BBLOCK b (asb x)]} : gset Z))%nat as E'
        by (apply subseteq_size; set_solver). rewrite size_singleton in E'. lia.
  - intros q ->%elem_of_singleton _. rewrite Ep. clear -Hdirty. set_solver.
  - rewrite (missing_one _ _ _ Hp). rewrite (nfree_alloc _ (aview (ac x')) (asb x) b Hr Hbit Hbits). lia.
  - intros q Vq Hq Hn. apply Hsame; [done | by right | done].
Qed.

(** [indirect_slot] has added the block to the indirect block at [(k, ix)]. *)
Lemma walked_child k ix j : valid_pos (k, ix ++ [j]) -> node v ad (k, ix) <> 0 -> node v ad (k, ix ++ [j]) = 0 ->
  let a := node v ad (k, ix) in
  let a1 := a_alloc (asb x) b (ac x) in
  walked ip {[(k, ix ++ [j])]} a (length ix) x
    (with_ac (a_pin a (a_set a (put32 (4 * Z.to_nat j) b (aview a1 a)) a1)) x).
Proof.
  intros Vp Hpar Hp a a1. destruct (valid_snoc _ _ _ Vp) as (Vpar & Hj & Hnl).
  destruct (node_range _ _ _ Hbase Vpar Hpar) as [Hra Hrd]. pose proof add_range as Hr.
  pose proof (dk_size _ _ _ (fb_disk _ _ Hbase)) as Hsz. destruct (add_node _ Vpar Hpar) as [Hab Ea].
  apply walked_added; try done.
  - intros ix' i' E. simpl in E. apply app_inj_tail in E as [<- _]. done.
  - apply added_child; [apply Hbase | done | done | done | lia | done | by apply Hfull].
  - destruct (keeps_refl ip x) as [K1 K2 K3 K4 K5 K6 K7 K8 K9 K10]. split; try done. simpl. clear. set_solver.
  - right. simpl. clear. set_solver.
  - intros b' Hb'. simpl. rewrite bit_set_data; [by apply add_bits | done | unfold a; lia].
  - intros _. simpl. rewrite upd_ne by done. apply upd_eq.
  - intros q Vq Hq Hn. simpl. rewrite upd_ne; [by apply add_node|]. intros E.
    assert (q = (k, ix)) as -> by (by apply (tr_inj _ _ _ (fb_tree _ _ Hbase))). simpl in Hq.
    destruct Hq as [Hq|Hq]; [done | lia].
  - intros b' Ho. simpl. rewrite upd_ne; [by apply add_outside|]. intros ->. by apply (proj2 (proj2 (proj2 Ho)) (k, ix)).
Qed.

Lemma ageti_upd i f y : (i < length (aic y))%nat ->
  ageti (aupdi i f y) i = f (ageti y i) /\ (forall j, j <> i -> ageti (aupdi i f y) j = ageti y j).
Proof.
  intros Hi. unfold ageti at 1 3, aupdi. simpl. split.
  - rewrite nth_lookup, list_lookup_insert_eq by done. done.
  - intros j Hj. rewrite nth_lookup, list_lookup_insert_ne by done. unfold ageti. by rewrite nth_lookup.
Qed.

(** [inode_slot] has put the block in slot [k] of the inode. *)
Lemma walked_root k z : (k <= NDIRECT + 2)%nat -> node v ad (k, []) = 0 ->
  walked ip {[(k, [])]} z 0 x
    (aupdi ip (fun i => set_din (set_addr k b (din i)) i) (with_ac (a_alloc (asb x) b (ac x)) x)).
Proof.
  intros Hk Hp. pose proof (fb_ip _ _ Hbase) as Hip. pose proof add_range as Hr.
  destruct (ageti_upd ip (fun i => set_din (set_addr k b (din i)) i) (with_ac (a_alloc (asb x) b (ac x)) x) Hip) as [E1 E2].
  assert (addrs (aupdi ip (fun i => set_din (set_addr k b (din i)) i) (with_ac (a_alloc (asb x) b (ac x)) x)) ip
          = <[k := b]> ad) as Ead by (unfold addrs; by rewrite E1).
  apply walked_added; rewrite ?Ead; try done.
  - by apply valid_root.
  - intros ix i E. by destruct ix.
  - apply added_root; [apply Hbase | done..].
  - by rewrite length_insert.
  - destruct (keeps_refl ip x) as [K1 K2 K3 K4 K5 K6 K7 K8 K9 K10]. split; try done.
    + simpl. clear. set_solver.
    + simpl. by rewrite length_insert.
    + rewrite E1. unfold addrs. rewrite E1. done.
  - left. simpl. clear. set_solver.
  - intros b' Hb'. by apply add_bits.
  - intros _. apply upd_eq.
  - intros q Vq Hq Hn. by apply add_node.
  - intros b' Ho. by apply add_outside.
Qed.
End add.

(** ** Running the walk *)

Section run.
Context {S : Type} `{BufSpec S}.
Implicit Types (s : fstate S) (x : afs).
Notation F := (M (fstate S)).

Lemma frep_full s x : frep s x -> full_blocks x.
Proof. intros Hf b Hb. eapply repr_view_length; [by eapply frep_repr | done]. Qed.

Lemma holds_take x ip d h p : holds x ip d -> valid_pos p -> (length p.2 <= d)%nat ->
  node (aview (ac x)) (addrs x ip) p <> 0 ->
  holds (with_ac (a_take h (node (aview (ac x)) (addrs x ip) p) (ac x)) x) ip (Datatypes.S d).
Proof.
  intros Hh Vp Hd Hn b [->%elem_of_singleton|Hin]%elem_of_union.
  - exists p. split; [done|]. split; [lia|]. by split.
  - destruct (Hh b Hin) as (q & Vq & Hq & Hz & E). exists q. split; [done|]. split; [lia|]. by split.
Qed.

Lemma holds_walked ip P z d d' x x' : walked ip P z d x x' -> holds x ip d' -> holds x' ip d'.
Proof.
  intros [W1 _ W3 _ _ _ _ _] Hh b Hin. rewrite (kp_held _ _ _ W1) in Hin.
  destruct (Hh b Hin) as (q & Vq & Hq & Hz & E). exists q. split; [done|]. split; [done|]. split; [done|].
  rewrite (gw_keep _ _ _ _ _ _ W3); [done | done | by rewrite E].
Qed.

Lemma entry_node x ip k ix j : node (aview (ac x)) (addrs x ip) (k, ix) <> 0 ->
  get32 (aview (ac x) (node (aview (ac x)) (addrs x ip) (k, ix))) (4 * Z.to_nat j) =
    node (aview (ac x)) (addrs x ip) (k, ix ++ [j]).
Proof. intros Hn. rewrite node_snoc. unfold entry. by rewrite decide_False. Qed.

Lemma used_take h a c : used (a_take h a c) ⊆ {[a]} ∪ used c.
Proof. unfold used. simpl. set_solver. Qed.

Lemma space_grow2 k a b c c' : space (2 + k) c -> used c' ⊆ {[a]} ∪ ({[b]} ∪ used c) -> space k c'.
Proof.
  unfold space. intros Hs Hu. pose proof (size_add a _ _ Hu).
  pose proof (size_add b (used c) ({[b]} ∪ used c) (reflexivity _)). lia.
Qed.

Lemma deepest_fresh v b jx : (forall j, 0 <= j < NINDIRECT -> entry v b j = 0) ->
  Forall (fun j => 0 <= j < NINDIRECT) jx -> deepest v b jx = b.
Proof. intros He Hj. destruct jx as [|j jx]; [done|]. apply Forall_cons in Hj as [Hj _]. simpl. by rewrite decide_True by (by apply He). Qed.

Lemma below_valid k ix jx q : valid_pos (k, ix ++ jx) -> q ∈ below k ix jx -> valid_pos q.
Proof.
  rewrite elem_of_below. intros [V1 V2 V3] (l & r & -> & _ & ->). simpl in *.
  rewrite !length_app in V2. apply Forall_app in V3 as [V3 V4]. apply Forall_app in V4 as [V4 _].
  split; simpl; [done | rewrite length_app; lia | by apply Forall_app].
Qed.

#[local] Notation nd x ip p := (node (aview (ac x)) (addrs x ip) p).

(** A new block [b] at position [p], with no entries yet. *)
Record fresh_at (ip : nat) (p : pos) (z : Z) (d : nat) (x : afs) (b : Z) (x' : afs) : Prop := {
  fa_walked : walked ip {[p]} z d x x';
  fa_node : nd x' ip p = b;
  fa_used : used (ac x') ⊆ {[b]} ∪ ({[BBLOCK b (asb x)]} ∪ used (ac x));
  fa_dirty : b ∈ adirty (ac x');
  fa_empty : forall i, 0 <= i < NINDIRECT -> entry (aview (ac x')) b i = 0
}.

(** Finding or adding entry [j] of the indirect block held as [h]. *)
Lemma fruns_slot s x ip k ix j h d (Q : Z -> fstate S -> Prop) :
  frep s x -> fbase x ip -> holds x ip d -> valid_pos (k, ix ++ [j]) ->
  nd x ip (k, ix) <> 0 -> ahandle (ac x) !! h = Some (nd x ip (k, ix)) -> nd x ip (k, ix) ∈ aheld (ac x) ->
  (nd x ip (k, ix ++ [j]) = 0 -> space 2 (ac x) /\ (0 < nfree (aview (ac x)) (asb x))%nat) ->
  (nd x ip (k, ix ++ [j]) <> 0 -> Q (nd x ip (k, ix ++ [j])) s) ->
  (forall s' b x', frep s' x' -> nd x ip (k, ix ++ [j]) = 0 ->
     fresh_at ip (k, ix ++ [j]) (nd x ip (k, ix)) (length ix) x b x' -> nd x ip (k, ix) ∈ adirty (ac x') -> b <> 0 ->
     Q b s') ->
  runs (indirect_slot ip h j) Q s.
Proof.
  intros Hf Hb Hh Vp Hpar Hhd Hheld Hres HQ1 HQ2. destruct (valid_snoc _ _ _ Vp) as (Vpar & Hj & _).
  pose proof (frep_full _ _ Hf) as Hfull. unfold indirect_slot. fstep. fstep; [done|].
  rewrite (entry_node x ip k ix j Hpar). case_decide as Ez; [|by apply runs_ret, HQ1].
  destruct (Hres Ez) as [Hsp Hnf]. rewrite (fb_dev _ _ Hb). apply runs_bind.
  eapply fruns_balloc_tree; [done | done | done | done | done |]. intros s1 b Hr Hb0 Hbit Hf1.
  destruct (add_node x ip b Hb Hr Hb0 Hbit _ Vpar Hpar) as [Hab Ea].
  destruct (node_range _ _ _ Hb Vpar Hpar) as [Hra _].
  pose proof (added_child _ _ _ _ _ j b (fb_tree _ _ Hb) Vp Hpar (add_range x ip b Hb Hr Hb0)
       ltac:(pose proof (dk_size _ _ _ (fb_disk _ _ Hb)); lia) Hbit (Hfull _ Hra)) as Hadd.
  fstep; [done | rewrite length_put32; simpl; change (upd _ b _) with (v_alloc (asb x) b (aview (ac x))); rewrite Ea; by apply Hfull |].
  fstep; [done | exact (space_log 0 (a_alloc (asb x) b (ac x)) (space_alloc 0 _ _ _ Hsp)) |]. apply runs_ret.
  eapply (HQ2 _ b); [eassumption | done | | simpl; clear; set_solver | done].
  split.
  - by apply walked_child.
  - etransitivity; [apply (added_node _ _ _ _ _ _ (k, ix ++ [j]) Hadd Ez); [|done] | by rewrite decide_True].
    intros ix' i E. apply app_inj_tail in E as [<- _]. done.
  - unfold used. simpl. clear -Hheld. set_solver.
  - simpl. clear. set_solver.
  - apply (ad_new _ _ _ _ _ _ Hadd).
Qed.

Lemma fruns_root s x ip k z (Q : Z -> fstate S -> Prop) :
  frep s x -> fbase x ip -> aheld (ac x) = ∅ -> (k <= NDIRECT + 2)%nat ->
  (nd x ip (k, []) = 0 -> space 2 (ac x) /\ (0 < nfree (aview (ac x)) (asb x))%nat) ->
  (nd x ip (k, []) <> 0 -> Q (nd x ip (k, [])) s) ->
  (forall s' b x', frep s' x' -> nd x ip (k, []) = 0 -> fresh_at ip (k, []) z 0 x b x' -> b <> 0 -> Q b s') ->
  runs (inode_slot ip k) Q s.
Proof.
  intros Hf Hb Hh Hk Hres HQ1 HQ2. pose proof (frep_full _ _ Hf) as Hfull. unfold inode_slot. fstep.
  change (nth k (daddrs (din (ageti x ip))) 0) with (nd x ip (k, [])).
  case_decide as Ez; [|by apply runs_ret, HQ1]. destruct (Hres Ez) as [Hsp Hnf].
  rewrite (fb_dev _ _ Hb). apply runs_bind.
  eapply (fruns_balloc_tree _ _ _ 0); [done | done | intros b Hin; rewrite Hh in Hin; set_solver | done | done |].
  intros s1 b Hr Hb0 Hbit Hf1. fstep. apply runs_ret. eapply (HQ2 _ b); [eassumption | done | | done].
  pose proof (added_root _ _ _ k b (fb_tree _ _ Hb) Hk (add_range x ip b Hb Hr Hb0) Hbit) as Hadd. split.
  - by apply walked_root.
  - unfold node. simpl. unfold addrs. rewrite (proj1 (ageti_upd _ _ _ (fb_ip _ _ Hb : _ < length (aic (with_ac _ x)))%nat)).
    simpl. rewrite nth_lookup, list_lookup_insert_eq; [done|]. pose proof (tr_len _ _ _ (fb_tree _ _ Hb)) as Hl.
    unfold addrs in Hl. change (ageti (with_ac _ x) ip) with (ageti x ip). lia.
  - unfold used. simpl. clear. set_solver.
  - simpl. clear. set_solver.
  - apply (ad_new _ _ _ _ _ _ Hadd).
Qed.

Lemma walked_depth ip P z d d' x x' : (d' <= d)%nat -> walked ip P z d x x' -> walked ip P z d' x x'.
Proof. intros Hd [W1 W2 W3 W4 W5 W6 W7 W8]. split; try done. intros q Vq Hq Hn. apply W8; [done | lia | done]. Qed.

(** Letting go of the indirect block after the walk below it. *)
Lemma fruns_done s x x' ip P z k ix h (Q : unit -> fstate S -> Prop) :
  fbase x ip -> valid_pos (k, ix) -> nd x ip (k, ix) <> 0 -> nd x ip (k, ix) ∉ aheld (ac x) ->
  ahandle (ac x) !! h = None ->
  (nd x ip (k, ix) ∈ adirty (ac x) \/ aview (ac x) (nd x ip (k, ix)) = adisk (ac x) (nd x ip (k, ix))) ->
  frep s x' ->
  (nd x ip (k, ix) ∈ adirty (ac x') /\ walked ip P z (length ix) (with_ac (a_take h (nd x ip (k, ix)) (ac x)) x) x' \/
   walked ip P z (Datatypes.S (length ix)) (with_ac (a_take h (nd x ip (k, ix)) (ac x)) x) x') ->
  (forall s' x2, frep s' x2 -> walked ip P z (length ix) x x2 -> aview (ac x2) = aview (ac x') -> addrs x2 ip = addrs x' ip -> Q tt s') ->
  runs (Fs.brelse h) Q s.
Proof.
  intros Hb Vp Hn Hh Hhd Hcl Hf Hw HQ.
  assert (walked ip P z (length ix) (with_ac (a_take h (nd x ip (k, ix)) (ac x)) x) x') as Hw'.
  { destruct Hw as [[_ ?]|Hw]; [done|]. eapply walked_depth; [|exact Hw]. lia. }
  pose proof (wk_keeps _ _ _ _ _ _ Hw') as Hk.
  fstep; [rewrite (kp_handle _ _ _ Hk); simpl; by rewrite lookup_insert_eq | |].
  - destruct Hw as [[? _]|Hw]; [by left|]. destruct Hcl as [Hd|Hv]; [left; by apply (kp_dirty _ _ _ Hk)|right].
    rewrite (kp_disk _ _ _ Hk). simpl. rewrite <- Hv.
    apply (wk_above _ _ _ _ _ _ Hw (k, ix)); [done | simpl; lia | done].
  - eapply HQ; [eassumption | by apply walked_take_drop | done | done].
Qed.

Lemma fruns_descend jx : forall s x ip k ix (Q : Z -> fstate S -> Prop),
  frep s x -> fbase x ip -> holds x ip (length ix) -> valid_pos (k, ix ++ jx) -> nd x ip (k, ix) <> 0 ->
  space (2 * missing (aview (ac x)) (addrs x ip) (below k ix jx) + length jx + 1) (ac x) ->
  (missing (aview (ac x)) (addrs x ip) (below k ix jx) <= nfree (aview (ac x)) (asb x))%nat ->
  (forall s' x', frep s' x' ->
     walked ip (below k ix jx) (deepest (aview (ac x)) (nd x ip (k, ix)) jx) (length ix) x x' ->
     Q (nd x' ip (k, ix ++ jx)) s') ->
  runs (descend ip jx (nd x ip (k, ix))) Q s.
Proof.
  induction jx as [|j jx IH]; intros s x ip k ix Q Hf Hb Hh Vp Hn Hsp Hnf HQ.
  { apply runs_ret. specialize (HQ s x Hf). rewrite app_nil_r in HQ. by apply HQ, walked_refl. }
  assert (valid_pos (k, ix ++ [j])) as Vj.
  { apply (below_valid k ix (j :: jx)); [done|]. apply elem_of_union. left. by apply elem_of_singleton. }
  destruct (valid_snoc _ _ _ Vj) as (Vi & Hj & _). pose proof (cons_middle j ix jx) as Emid. rewrite app_assoc in Emid.
  assert (forall q, q ∈ below k (ix ++ [j]) jx -> valid_pos q) as Vb.
  { intros q Hq. eapply (below_valid k (ix ++ [j]) jx); [by rewrite <- app_assoc | done]. }
  assert ((k, ix ++ [j]) ∉ below k (ix ++ [j]) jx) as Hjb by (intros Hq%below_deeper; simpl in Hq; lia).
  destruct (node_range _ _ _ Hb Vi Hn) as [Hr _]. pose proof (holds_node _ _ _ (k, ix) Hb Hh Vi (le_n _) Hn) as Hnh.
  pose proof (frep_clean _ _ _ Hf Hnh) as Hcl. rewrite missing_below_cons in Hsp, Hnf.
  cbn [descend]. fstep; [done | done | by eapply space_room |].
  set (x1 := with_ac (a_take h (nd x ip (k, ix)) (ac x)) x) in *.
  assert (fbase x1 ip) as Hb1 by (destruct Hb; by split).
  assert (holds x1 ip (length (ix ++ [j]))) as Hh1.
  { rewrite length_app, Nat.add_1_r. by apply holds_take. }
  assert (forall m, space (2 * m + length (j :: jx) + 1) (ac x) -> space (2 * m + length jx + 1) (ac x1)) as Hs1.
  { intros m Hm. eapply space_grow; [|apply used_take]. eapply space_le; [|exact Hm]. simpl. lia. }
  apply runs_bind. eapply (fruns_slot _ x1 ip k ix j h); try done.
  - simpl. by rewrite lookup_insert_eq.
  - simpl. clear. set_solver.
  - intros E0. change (nd x1 ip (k, ix ++ [j])) with (nd x ip (k, ix ++ [j])) in E0.
    rewrite decide_True in Hsp, Hnf by done. split; [|simpl; lia].
    eapply space_le; [|apply (Hs1 1%nat)]; [lia|]. eapply space_le; [|exact Hsp]. lia.
  - intros E1. change (nd x1 ip (k, ix ++ [j])) with (nd x ip (k, ix ++ [j])) in E1.
    rewrite decide_False in Hsp, Hnf by done. apply runs_bind.
    apply (IH _ x1 ip k (ix ++ [j])); try done; [by rewrite <- app_assoc | by apply Hs1 |].
    intros s2 x2 Hf2 Hw2. apply runs_bind. eapply (fruns_done _ x x2); try done.
    { right. by rewrite length_app, Nat.add_1_r in Hw2. }
    intros s3 x3 Hf3 Hw3 Ev Ea. apply runs_ret. rewrite <- app_assoc, <- Ev, <- Ea. apply HQ; [done|].
    cbn [below deepest]. change (nd x1 ip (k, ix ++ [j])) with (nd x ip (k, ix ++ [j])) in Hw3.
    rewrite node_snoc in Hw3, E1. rewrite decide_False by done. apply walked_present; try done. by rewrite node_snoc.
  - intros s2 b x2 Hf2 E0 [F1 F2 F3 F4 F5] Hd2 Hb0. change (nd x1 ip (k, ix ++ [j])) with (nd x ip (k, ix ++ [j])) in E0.
    change (nd x1 ip (k, ix)) with (nd x ip (k, ix)) in *. rewrite decide_True in Hsp, Hnf by done.
    assert (missing (aview (ac x2)) (addrs x2 ip) (below k (ix ++ [j]) jx)
            = missing (aview (ac x)) (addrs x ip) (below k (ix ++ [j]) jx)) as Em.
    { apply missing_ext. intros q Hq. apply (gw_only _ _ _ _ _ _ (wk_grows _ _ _ _ _ _ F1)); [by apply Vb|].
      intros ->%elem_of_singleton. done. }
    pose proof (wk_free _ _ _ _ _ _ F1) as Hfr. rewrite (missing_one _ _ (k, ix ++ [j])) in Hfr by done.
    pose proof (kp_sb _ _ _ (wk_keeps _ _ _ _ _ _ F1)) as Esb. change (asb x1) with (asb x) in Esb.
    apply runs_bind. rewrite <- F2. apply (IH _ x2 ip k (ix ++ [j])); try done.
    { apply (wk_base _ _ _ _ _ _ F1). } { by eapply holds_walked. } { by rewrite <- app_assoc. } { by rewrite F2. }
    { rewrite Em. eapply space_grow2; [|exact F3].
      eapply space_le; [|apply (Hs1 (1 + missing (aview (ac x)) (addrs x ip) (below k (ix ++ [j]) jx))%nat), Hsp]. lia. }
    { rewrite Em, Esb. simpl in Hfr. lia. }
    rewrite F2, deepest_fresh; [|done | apply vp_index in Vp; simpl in Vp; apply Forall_app in Vp as [_ Vp]; by apply Forall_cons in Vp as [_ Vp]].
    intros s3 x3 Hf3 Hw3. apply runs_bind. eapply (fruns_done _ x x3 ip (below k ix (j :: jx)) (nd x ip (k, ix))); try done.
    { left. split; [by apply (kp_dirty _ _ _ (wk_keeps _ _ _ _ _ _ Hw3))|]. cbn [below].
      eapply walked_cons; [done | done | done | done | done | exact F4 | | exact F1 | exact Hw3].
      rewrite length_app. lia. }
    intros s4 x4 Hf4 Hw4 Ev Ea. apply runs_ret. rewrite <- app_assoc, <- Ev, <- Ea. apply HQ; [done|].
    cbn [deepest]. rewrite node_snoc in E0. by rewrite decide_True.
Qed.

(** [bmap] as a walk along [bpath]. *)
Definition bmap_walk (ip : nat) (bn : Z) : F Z :=
  let! a := inode_slot ip (bpath bn).1 in descend ip (bpath bn).2 a.

Lemma bind_ext {A B} (m : F A) (f g : A -> F B) s : (forall a s, f a s = g a s) -> bind m f s = bind m g s.
Proof. intros He. unfold bind. destruct (m s); [apply He | done]. Qed.

Lemma bind_assoc {A B C} (m : F A) (f : A -> F B) (g : B -> F C) s :
  bind (bind m f) g s = bind m (fun a => bind (f a) g) s.
Proof. unfold bind. by destruct (m s). Qed.

Lemma bmap_walk_eq s ip bn : idev (geti s ip) = ROOTDEV -> bn < MAXFILE -> bmap ip bn s = bmap_walk ip bn s.
Proof.
  intros Hd Hm. unfold bmap, bmap_walk, bpath, inode_at. unfold bind at 1, gets at 1. rewrite Hd. levels.
  repeat case_decide; try lia; cbn [fst snd descend].
  - unfold bind. by destruct (inode_slot _ _ s).
  - apply bind_ext. intros a s1. apply bind_ext. intros h s2. apply bind_ext. intros c s3. done.
  - repeat (rewrite ?bind_assoc; apply bind_ext; intros ? ?). unfold bind, ret. by repeat (case_match; simplify_eq/=).
  - repeat (rewrite ?bind_assoc; apply bind_ext; intros ? ?). unfold bind, ret. by repeat (case_match; simplify_eq/=).
Qed.

Lemma fruns_bmap s x ip bn (Q : Z -> fstate S -> Prop) :
  frep s x -> fbase x ip -> aheld (ac x) = ∅ -> 0 <= bn < MAXFILE ->
  space (2 * missing (aview (ac x)) (addrs x ip) (path bn) + 4) (ac x) ->
  (missing (aview (ac x)) (addrs x ip) (path bn) <= nfree (aview (ac x)) (asb x))%nat ->
  (forall s' x' z, frep s' x' -> walked ip (path bn) z 0 x x' -> Q (nd x' ip (bpath bn)) s') ->
  runs (bmap ip bn) Q s.
Proof.
  intros Hf Hb Hh Hbn Hsp Hnf HQ. destruct (bpath_valid bn Hbn) as [Vp Lp].
  assert (runs (bmap_walk ip bn) Q s) as Hrun.
  2: { destruct Hrun as (r & s' & E & Hr). exists r, s'. split; [|done]. rewrite bmap_walk_eq; [done | | lia].
       destruct Hf as (l & w & _ & _ & _ & E1 & _). unfold geti. rewrite E1. apply (fb_dev _ _ Hb). }
  unfold bmap_walk. rewrite missing_path in Hsp, Hnf. unfold path in HQ.
  destruct (bpath bn) as [k jx]. simpl in *. pose proof (vp_slot _ Vp) as Hk. simpl in Hk.
  assert (length jx <= 3)%nat as Hjx by (unfold leaf in Lp; simpl in Lp; unfold depth, NDIRECT, XDIRECT in *; lia).
  assert ((k, []) ∉ below k [] jx) as Hkb by (intros Hq%below_deeper; simpl in Hq; lia).
  pose proof (fun q Hq => below_valid k [] jx q Vp Hq) as Vb.
  assert (forall y, holds y ip 0 -> holds y ip (length ([] : list Z))) as Hl by done.
  assert (holds x ip 0) as Hhx by (intros b Hin; rewrite Hh in Hin; set_solver).
  apply runs_bind. eapply (fruns_root _ x ip k 0); try done.
  - intros E0. rewrite decide_True in Hsp, Hnf by done. split; [|lia]. eapply space_le; [|exact Hsp]. lia.
  - intros E1. rewrite decide_False in Hsp, Hnf by done. apply (fruns_descend jx _ x ip k []); try done.
    { eapply space_le; [|exact Hsp]. lia. }
    intros s' x' Hf' Hw. eapply HQ; [done|]. apply walked_present; try done. by apply valid_root.
  - intros s1 b x1 Hf1 E0 [F1 F2 F3 F4 F5] Hb0. rewrite decide_True in Hsp, Hnf by done.
    assert (missing (aview (ac x1)) (addrs x1 ip) (below k [] jx) = missing (aview (ac x)) (addrs x ip) (below k [] jx)) as Em.
    { apply missing_ext. intros q Hq. apply (gw_only _ _ _ _ _ _ (wk_grows _ _ _ _ _ _ F1)); [by apply Vb|].
      intros ->%elem_of_singleton. done. }
    pose proof (wk_free _ _ _ _ _ _ F1) as Hfr. rewrite (missing_one _ _ (k, [])) in Hfr by done.
    rewrite <- F2. apply (fruns_descend jx _ x1 ip k []); try done.
    { apply (wk_base _ _ _ _ _ _ F1). } { by apply Hl; eapply holds_walked. } { by rewrite F2. }
    { rewrite Em. eapply space_grow2; [|exact F3]. eapply space_le; [|exact Hsp]. lia. }
    { rewrite Em, (kp_sb _ _ _ (wk_keeps _ _ _ _ _ _ F1)). lia. }
    rewrite F2, deepest_fresh; [|done | apply (vp_index _ Vp)].
    intros s2 x2 Hf2 Hw2. eapply HQ; [done|].
    eapply walked_cons; [done | by apply valid_root | done | done | done | exact F4 | lia | exact F1 | exact Hw2].
Qed.
End run.
