(* ===== verification/FsFile.v ===== *)
(** Reading and writing files: [readi] and [writei] of fs.c.

    A file is a sequence of bytes ([content] of FsTree.v): [readi] returns the bytes
    of a range, [writei] replaces them and extends the file, and neither touches a
    block that does not belong to the file, its inode or the bitmap.  Both take
    as many free blocks as positions of the range are without a block. *)

From S2P Require Import Prelude Bytes CString BlockCache BlockClient FsLayout.
From S2P Require Import Log LogDisk LogRun LogTxn Fs FsPure FsRun FsBlocks FsTree FsMap.
Import Fs.

#[local] Arguments Nat.add : simpl never.
#[local] Arguments Nat.mul : simpl never.
#[local] Arguments Z.add : simpl never.
#[local] Arguments Z.mul : simpl never.

#[local] Notation nd x ip p := (node (aview (ac x)) (addrs x ip) p).
#[local] Notation vw x := (aview (ac x)).

(** ** Steps of a transfer *)

(** What a part of a transfer does to the tree of the file. *)
Record stepped (ip : nat) (P : gset pos) (x x' : afs) : Prop := {
  sp_keeps : keeps ip x x';
  sp_base : fbase x' ip;
  sp_ext : extends (asb x) (fun p => p ∈ P) (vw x) (addrs x ip) (vw x') (addrs x' ip);
  sp_free : (nfree (vw x') (asb x) + missing (vw x) (addrs x ip) P
             = nfree (vw x) (asb x) + missing (vw x') (addrs x' ip) P)%nat
}.

Lemma stepped_refl ip P x : fbase x ip -> stepped ip P x x.
Proof. intros Hb. split; [apply keeps_refl | done | apply extends_refl | done]. Qed.

Lemma stepped_trans ip P x y z : fbase x ip -> stepped ip P x y -> stepped ip P y z -> stepped ip P x z.
Proof.
  intros Hb [A1 A2 A3 A4] [B1 B2 B3 B4]. pose proof (kp_sb _ _ _ A1) as E1. pose proof (kp_sb _ _ _ B1) as E2.
  rewrite E1 in *. split; [by eapply keeps_trans | done | | lia].
  pose proof (fb_tree _ _ A2) as T1. pose proof (fb_tree _ _ B2) as T2. rewrite E1 in T1. rewrite E2 in T2.
  eapply extends_trans; [apply (fb_disk _ _ Hb) | exact T1 | exact T2 | eapply nmeta_pos, (fb_disk _ _ Hb) | done | done].
Qed.

(** Room for filling the missing positions of [P] and [c] buffers more. *)
Definition roomy (ip : nat) (P : gset pos) (c : nat) (x : afs) : Prop :=
  space (2 * missing (vw x) (addrs x ip) P + c) (ac x).

Lemma roomy_le ip P c c' x : (c' <= c)%nat -> roomy ip P c x -> roomy ip P c' x.
Proof. intros Hc. apply space_le. lia. Qed.

(** A missing node has missing children. *)
Lemma node_prefix v ad k l r : node v ad (k, l ++ r) <> 0 -> node v ad (k, l) <> 0.
Proof.
  intros Hn E. apply Hn. clear Hn. induction r as [|j r IH] using rev_ind; [by rewrite app_nil_r|].
  rewrite app_assoc. by apply node_missing.
Qed.

Lemma path_full v ad bn : node v ad (bpath bn) <> 0 -> missing v ad (path bn) = 0%nat.
Proof.
  intros Hn. unfold missing. apply size_empty_iff. intros q. rewrite elem_of_filter. split; [|set_solver].
  intros [E (l & r & Er & ->)%elem_of_path]. exfalso. destruct (bpath bn) as [k ix]. simpl in *. subst ix.
  by apply node_prefix in Hn.
Qed.

Lemma path_valid bn q : 0 <= bn < MAXFILE -> q ∈ path bn -> valid_pos q.
Proof.
  intros Hbn (l & r & Er & ->)%elem_of_path. destruct (bpath_valid bn Hbn) as [[V1 V2 V3] _].
  rewrite Er in V2, V3. rewrite length_app in V2. apply Forall_app in V3 as [V3 _]. split; simpl; [done | lia | done].
Qed.

(** [bmap] as a step of a transfer over the positions [P]. *)
Lemma walked_stepped ip P bn z x x' : fbase x ip -> 0 <= bn < MAXFILE -> path bn ⊆ P -> (forall q, q ∈ P -> valid_pos q) ->
  walked ip (path bn) z 0 x x' -> stepped ip P x x' /\
  (missing (vw x') (addrs x' ip) P + missing (vw x) (addrs x ip) (path bn) = missing (vw x) (addrs x ip) P)%nat.
Proof.
  intros Hb Hbn HP VP [W1 W2 W3 W4 W5 W6 W7 W8].
  assert (missing (vw x') (addrs x' ip) P + missing (vw x) (addrs x ip) (path bn) = missing (vw x) (addrs x ip) P)%nat as Em.
  { apply missing_fill; [done | done |]. intros p Hp Hn. by apply (gw_only _ _ _ _ _ _ W3); [apply VP|]. }
  split; [|done]. split; [done | done | | lia]. eapply extends_weaken; [|exact W3]. set_solver.
Qed.

(** The buffers it takes. *)
Lemma walked_used ip P z d x x' : walked ip P z d x x' ->
  (size (used (ac x')) <= size (used (ac x)) + 2 * missing (vw x) (addrs x ip) P +
     (if decide (missing (vw x) (addrs x ip) P = 0) then 0 else 1))%nat.
Proof.
  intros [W1 _ _ _ (N & D1 & D2 & N' & D3 & D4) _ _ _]. case_decide as E.
  - rewrite D2 in D1 by done. assert (used (ac x') ⊆ used (ac x)) as Hu.
    { unfold used. rewrite (kp_held _ _ _ W1). clear -D1. set_solver. }
    apply subseteq_size in Hu. lia.
  - assert (used (ac x') ⊆ {[z]} ∪ (N' ∪ used (ac x))) as Hu.
    { unfold used. rewrite (kp_held _ _ _ W1). assert (adirty (ac x') ⊆ {[z]} ∪ N' ∪ adirty (ac x)) as Ha by (etransitivity; [exact D1|]; clear -D3; set_solver).
      clear -Ha. set_solver. }
    apply size_add in Hu. pose proof (size_union_alt N' (used (ac x))) as Eu.
    assert (size (used (ac x) ∖ N') <= size (used (ac x)))%nat by (apply subseteq_size; clear; set_solver). lia.
Qed.

(** ** Bytes of a file *)

Definition bytes (x : afs) (ip : nat) (off len : Z) : list Z := content (vw x) (addrs x ip) <$> seqZ off len.

#[local] Notation BS := (Z.of_nat BSIZE).





Lemma length_bytes x ip off len : 0 <= len -> length (bytes x ip off len) = Z.to_nat len.
Proof. intros Hl. unfold bytes. by rewrite length_fmap, length_seqZ. Qed.

(** The blocks of a range, and how many there are. *)
Definition covers (P : gset pos) (off len : Z) (c : nat) : Prop :=
  (forall q, q ∈ P -> valid_pos q) /\
  (forall o, off <= o < off + len -> in_file o /\ path (o / BS) ⊆ P) /\
  (0 < len -> (off + len - 1) / BS < off / BS + Z.of_nat c).

Lemma chunk_range off n tot : 0 <= off -> tot < n -> 0 < chunk off n tot <= n - tot /\ off mod BS + chunk off n tot <= BS.
Proof. intros Ho Ht. unfold chunk. pose proof (Z.mod_pos_bound off BS eq_refl). lia. Qed.

Lemma covers_next P off n tot c : 0 <= off -> tot < n -> covers P off (n - tot) c ->
  exists c', c = Datatypes.S c' /\ covers P (off + chunk off n tot) (n - (tot + chunk off n tot)) c'.
Proof.
  intros Ho Ht (C1 & C2 & C3). destruct (chunk_range off n tot Ho Ht) as [Hm _].
  specialize (C3 ltac:(lia)). assert (off / BS <= (off + (n - tot) - 1) / BS) by (apply Z.div_le_mono; [done | lia]).
  destruct c as [|c']; [lia|]. exists c'. split; [done|]. split; [done|]. split.
  - intros o Hoo. apply C2. lia.
  - intros Hpos. unfold chunk in *. change BS with 512 in *.
    replace (Z.min (n - tot) (512 - off mod 512)) with (512 - off mod 512) in * by lia.
    replace (off + (512 - off mod 512)) with (512 * (off / 512 + 1)) by (pose proof (Z.div_mod off 512); lia).
    rewrite (Z.mul_comm 512), Z.div_mul by done.
    replace ((off / 512 + 1) * 512 + (n - (tot + (512 - off mod 512))) - 1) with (off + (n - tot) - 1) by (pose proof (Z.div_mod off 512); lia).
    lia.
Qed.

(** ** Running the transfers *)

Section run.
Context {S : Type} `{BufSpec S}.
Implicit Types (s : fstate S) (x : afs).
Context (ip : nat) (P : gset pos).

(** What a transfer over [P] with [c] blocks to go needs. *)
Record able (c : nat) (x : afs) : Prop := {
  ab_base : fbase x ip;
  ab_held : aheld (ac x) = ∅;
  ab_room : roomy ip P (c + 4) x;
  ab_free : (missing (vw x) (addrs x ip) P <= nfree (vw x) (asb x))%nat
}.

Lemma able_stepped c x x' : able (Datatypes.S c) x -> stepped ip P x x' -> roomy ip P (c + 4) x' -> able c x'.
Proof.
  intros [A1 A2 A3 A4] [B1 B2 B3 B4] Hr. split; [done | by rewrite (kp_held _ _ _ B1) | done |].
  rewrite (kp_sb _ _ _ B1). lia.
Qed.

(** [bmap] in a transfer. *)
Lemma fruns_bmap_step s x c bn (Q : Z -> fstate S -> Prop) :
  frep s x -> able (Datatypes.S c) x -> 0 <= bn < MAXFILE -> path bn ⊆ P -> (forall q, q ∈ P -> valid_pos q) ->
  (forall s' x', frep s' x' -> stepped ip P x x' -> aheld (ac x') = ∅ ->
     (forall off, in_file off -> content (vw x') (addrs x' ip) off = content (vw x) (addrs x ip) off) ->
     nd x' ip (bpath bn) <> 0 -> roomy ip P (c + 4) x' ->
     (nd x' ip (bpath bn) ∈ adirty (ac x') \/ roomy ip P (Datatypes.S c + 4) x') ->
     Q (nd x' ip (bpath bn)) s') ->
  runs (bmap ip bn) Q s.
Proof.
  intros Hf [A1 A2 A3 A4] Hbn HP VP HQ. pose proof (missing_mono (vw x) (addrs x ip) _ _ HP) as Hmono.
  eapply fruns_bmap; [done | done | done | done | | lia |].
  { eapply space_le; [|exact A3]. lia. }
  intros s' x' z Hf' Hw. destruct (walked_stepped ip P bn z x x' A1 Hbn HP VP Hw) as [Hst Em].
  pose proof (walked_used _ _ _ _ _ _ Hw) as Hu. unfold roomy, space in A3.
  assert (roomy ip P (c + 4) x') as Hroom by (unfold roomy, space; case_decide; lia).
  apply HQ; try done.
  - by rewrite (kp_held _ _ _ (sp_keeps _ _ _ _ Hst)).
  - apply (gw_content _ _ _ _ _ _ (wk_grows _ _ _ _ _ _ Hw)).
  - apply (wk_full _ _ _ _ _ _ Hw), path_leaf.
  - destruct (decide (nd x ip (bpath bn) = 0)) as [E|E]; [left; by apply (wk_new _ _ _ _ _ _ Hw), E; apply path_leaf | right].
    rewrite (path_full _ _ _ E) in *. rewrite decide_True in Hu by done. unfold roomy, space. lia.
Qed.


(** Overwriting a data block of the file. *)
Lemma stepped_write x bn d : fbase x ip -> (forall q, q ∈ P -> valid_pos q) -> 0 <= bn < MAXFILE -> nd x ip (bpath bn) <> 0 ->
  stepped ip P x (with_ac (a_update (nd x ip (bpath bn), d) (ac x)) x).
Proof.
  intros Hb VP Hbn Hn. destruct (bpath_valid bn Hbn) as [Vb Lb]. pose proof (fb_tree _ _ Hb) as Ht.
  pose proof (nmeta_pos _ _ _ (fb_disk _ _ Hb)) as Hm.
  pose proof (write_node _ _ _ _ d Ht Vb Lb) as En. pose proof (write_bits _ _ _ _ d Ht Vb Hn) as Eb.
  destruct (keeps_refl ip x) as [K1 K2 K3 K4 K5 K6 K7 K8 K9 K10]. split.
  - split; try done. simpl. clear. set_solver.
  - split; [apply Hb | apply Hb | |].
    + eapply disk_ok_bits; [apply (fb_disk _ _ Hb)|]. intros b Hr Hs. simpl. by rewrite Eb.
    + apply (write_tree _ _ _ _ d Ht Vb Lb Hn). lia.
  - split; simpl.
    + intros q Vq Hq. by apply En.
    + intros q Vq Hq. by apply En.
    + intros q Vq Hq. change (addrs (with_ac _ x) ip) with (addrs x ip). rewrite En by done. done.
    + intros b Hr Hs. by rewrite Eb.
    + intros b Ho. by eapply write_rest.
  - change (addrs (with_ac _ x) ip) with (addrs x ip). simpl. rewrite (nfree_ext (vw x)) by done. f_equal.
    symmetry. apply missing_ext. intros q Hq. by apply En, VP.
Qed.

(** ... takes a buffer unless the block is logged already. *)
Lemma write_room x bn d c : fbase x ip -> (forall q, q ∈ P -> valid_pos q) -> 0 <= bn < MAXFILE ->
  nd x ip (bpath bn) <> 0 -> roomy ip P (c + 4) x ->
  (nd x ip (bpath bn) ∈ adirty (ac x) \/ roomy ip P (Datatypes.S c + 4) x) ->
  roomy ip P (c + 4) (with_ac (a_update (nd x ip (bpath bn), d) (ac x)) x).
Proof.
  intros Hb VP Hbn Hn Hroom Hpin. destruct (bpath_valid bn Hbn) as [Vb Lb]. unfold roomy.
  change (addrs (with_ac _ x) ip) with (addrs x ip).
  rewrite (missing_ext (vw x) (addrs x ip) (vw (with_ac (a_update (nd x ip (bpath bn), d) (ac x)) x))).
  - destruct Hpin as [Hin|Hmore].
    + eapply space_same; [exact Hroom|]. unfold used. simpl. clear -Hin. set_solver.
    + eapply space_grow; [|apply (used_update (nd x ip (bpath bn), d))]. eapply space_le; [|exact Hmore]. lia.
  - intros q Hq. apply (write_node _ _ _ _ _ (fb_tree _ _ Hb) Vb Lb). by apply VP.
Qed.

(** The contents after one block of a transfer. *)
Lemma chunk_content x off m src o : fbase x ip -> in_file off -> 0 <= m -> off mod BS + m <= BS ->
  m <= Z.of_nat (length src) -> full_blocks x -> nd x ip (bpath (off / BS)) <> 0 -> in_file o ->
  let a := nd x ip (bpath (off / BS)) in
  let x' := with_ac (a_update (a, blit (Z.to_nat (off mod BS)) (take (Z.to_nat m) src) (vw x a)) (ac x)) x in
  content (vw x') (addrs x' ip) o =
    if decide (off <= o < off + m) then nth (Z.to_nat (o - off)) src 0 else content (vw x) (addrs x ip) o.
Proof.
  intros Hb Hin Hm Hmb Hsrc Hfull Hn Ho a x'. destruct (bpath_valid _ (in_file_block off Hin)) as [Vb Lb].
  destruct (node_range x ip _ Hb Vb Hn) as [Hr _]. change BS with 512 in *.
  assert (length (take (Z.to_nat m) src) = Z.to_nat m) as Hlm by (rewrite length_take; lia).
  unfold x'. simpl. change (addrs (with_ac _ x) ip) with (addrs x ip).
  rewrite (wr_chunk _ _ _ _ (tr_inj _ _ _ (fb_tree _ _ Hb)) Vb Lb Hn off (take (Z.to_nat m) src)); try done.
  - rewrite Hlm, Z2Nat.id by lia. case_decide; [|done]. by rewrite !nth_lookup, lookup_take_lt by lia.
  - lia.
  - by apply Hfull.
Qed.

Lemma fruns_writei_loop fuel : forall s x src off n tot c (Q : Z -> fstate S -> Prop),
  frep s x -> able c x -> covers P off (n - tot) c -> 0 <= off -> n - tot <= Z.of_nat fuel -> tot <= n ->
  n - tot <= Z.of_nat (length src) ->
  (forall s' x', frep s' x' -> stepped ip P x x' -> aheld (ac x') = ∅ -> roomy ip P 4 x' ->
     (forall o, in_file o -> content (vw x') (addrs x' ip) o =
        if decide (off <= o < off + (n - tot)) then nth (Z.to_nat (o - off)) src 0 else content (vw x) (addrs x ip) o) ->
     Q (off + (n - tot)) s') ->
  runs (writei_loop fuel ip src off n tot) Q s.
Proof.
  assert (forall s x off n tot c (Q : Z -> fstate S -> Prop) src, frep s x -> able c x -> tot = n ->
    (forall s' x', frep s' x' -> stepped ip P x x' -> aheld (ac x') = ∅ -> roomy ip P 4 x' ->
     (forall o, in_file o -> content (vw x') (addrs x' ip) o =
        if decide (off <= o < off + (n - tot)) then nth (Z.to_nat (o - off)) src 0 else content (vw x) (addrs x ip) o) ->
     Q (off + (n - tot)) s') -> runs (ret off) Q s) as Hend.
  { intros s x off n tot c Q src Hf Ha -> HQ. apply runs_ret. replace off with (off + (n - n)) at 1 by lia.
    apply (HQ s x); [done | by apply stepped_refl, Ha | apply Ha | eapply roomy_le; [|apply (ab_room _ _ Ha)]; lia |].
    intros o Ho. rewrite decide_False by lia. done. }
  induction fuel as [|fuel IH]; intros s x src off n tot c Q Hf Ha Hcov Hoff Hfuel Htot Hsrc HQ; simpl.
  { rewrite decide_True by lia. eapply (Hend _ _ off n tot); [done | done | lia | done]. }
  case_decide as Hdone; [eapply (Hend _ _ off n tot); [done | done | lia | done]|].
  destruct (covers_next P off n tot c) as (c' & -> & Hcov'); [done | lia | done |].
  destruct (chunk_range off n tot Hoff ltac:(lia)) as [Hm Hmb]. set (m := chunk off n tot) in *.
  destruct Hcov as (C1 & C2 & C3). destruct (C2 off ltac:(lia)) as [Hin Hpath].
  pose proof (in_file_block off Hin) as Hbn. fstep. apply runs_bind.
  eapply fruns_bmap_step; [done | done | done | done | done |].
  intros s1 x1 Hf1 Hst Hh1 Hc1 Hn1 Hroom Hpin. pose proof (sp_base _ _ _ _ Hst) as Hb1.
  destruct (bpath_valid _ Hbn) as [Vb Lb]. destruct (node_range x1 ip _ Hb1 Vb Hn1) as [Hr1 _].
  pose proof (frep_full _ _ Hf1 _ Hr1) as Hlen. rewrite (fb_dev _ _ (ab_base _ _ Ha)).
  set (o0 := Z.to_nat (off mod BS)) in *.
  assert (length (take (Z.to_nat m) src) = Z.to_nat m) as Hlm by (rewrite length_take; lia).
  assert (o0 + length (take (Z.to_nat m) src) <= length (vw x1 (nd x1 ip (bpath (off / BS)))))%nat as Hfit.
  { rewrite Hlm, Hlen. unfold o0, BSIZE. change BS with 512 in *. pose proof (Z.mod_pos_bound off 512 eq_refl). lia. }
  fstep; [done | rewrite Hh1; set_solver | by eapply space_room |].
  fstep; [simpl; by rewrite lookup_insert_eq | simpl; by rewrite length_blit |].
  eapply fruns_write_back_then; [eassumption | rewrite Hh1; set_solver | done | exact Hroom |]. simpl.
  intros t2 Hf2.
  set (d := blit o0 (take (Z.to_nat m) src) (vw x1 (nd x1 ip (bpath (off / BS))))) in *.
  pose proof (stepped_write x1 (off / BS) d Hb1 C1 Hbn Hn1) as Hst2.
  set (x2 := with_ac (a_update (nd x1 ip (bpath (off / BS)), d) (ac x1)) x1) in *.
  pose proof (write_room x1 (off / BS) d c' Hb1 C1 Hbn Hn1 Hroom Hpin) as Hroom2.
  eapply (IH t2 x2 _ (off + m) n (tot + m) c'); try done; try lia.
  - eapply able_stepped; [exact Ha | by eapply stepped_trans; [apply Ha | |] | done].
  - rewrite length_drop. lia.
  - intros s3 x3 Hf3 Hst3 Hh3 Hr3 Hc3. replace (off + m + (n - (tot + m))) with (off + (n - tot)) by lia.
    eapply HQ; [done | | done | done |].
    + eapply stepped_trans; [apply Ha | exact Hst |]. by eapply stepped_trans.
    + intros o Ho. rewrite Hc3 by done. unfold x2, d, o0.
      rewrite (chunk_content x1 off m src o Hb1 Hin ltac:(lia) Hmb ltac:(lia) (frep_full _ _ Hf1) Hn1 Ho), Hc1 by done.
      rewrite !nth_lookup, lookup_drop. repeat case_decide; try lia; try done; do 2 f_equal; lia.
Qed.
End run.

(** ** The inode on the disk *)

(** A block before the data area that is not part of the bitmap. *)
Section meta.
Context (v : Z -> list Z) (sbv : superblock) (ad : list Z) (b : Z) (d : list Z).
Context (Ht : tree_ok v sbv ad) (Hb : b < bmapstart sbv) (Hm : 0 <= sbsize sbv).

Lemma meta_node p : valid_pos p -> node (upd v b d) ad p = node v ad p.
Proof.
  destruct p as [k jx]. induction jx as [|j jx IH] using rev_ind; intros Vp; [done|].
  destruct (valid_snoc _ _ _ Vp) as (Vp' & _ & Hl). rewrite !node_snoc, IH by done. unfold entry.
  case_decide as E; [done|]. rewrite upd_ne; [done|]. destruct (tr_used _ _ _ Ht _ Vp' E) as [Hr _].
  unfold nmeta in Hr. rewrite BPB_eq in Hr. assert (0 <= sbsize sbv / 4096) by (apply Z.div_pos; lia). lia.
Qed.

Lemma meta_bits b' : 0 <= b' < sbsize sbv -> bit_set (upd v b d) sbv b' = bit_set v sbv b'.
Proof. intros Hr. apply bit_set_other. pose proof (bblock_meta sbv b' Hr). lia. Qed.

Lemma meta_tree : 0 <= nmeta sbv -> tree_ok (upd v b d) sbv ad.
Proof.
  intros Hn. split; [apply Ht | |].
  - intros p Vp. rewrite meta_node by done. intros Hp. destruct (tr_used _ _ _ Ht p Vp Hp) as [Hr Hs].
    split; [done|]. by rewrite meta_bits by lia.
  - intros p q Vp Vq. rewrite !meta_node by done. by apply Ht.
Qed.

Lemma meta_content off : in_file off -> content (upd v b d) ad off = content v ad off.
Proof.
  intros Ho. destruct (bpath_valid _ (in_file_block _ Ho)) as [Vo _]. unfold content. cbv zeta. rewrite meta_node by done.
  case_decide as E; [done|]. rewrite upd_ne; [done|]. destruct (tr_used _ _ _ Ht _ Vo E) as [Hr _].
  unfold nmeta in Hr. rewrite BPB_eq in Hr. assert (0 <= sbsize sbv / 4096) by (apply Z.div_pos; lia). lia.
Qed.
End meta.

Section inode.
Context {S : Type} `{BufSpec S}.
Implicit Types (s : fstate S) (x : afs).

(** The block of inode [ip]. *)
Definition iblock (x : afs) (ip : nat) : Z := IBLOCK (inum (ageti x ip)) (asb x).

Lemma fruns_iupdate s x ip (Q : unit -> fstate S -> Prop) :
  frep s x -> fbase x ip -> aheld (ac x) = ∅ -> 0 <= iblock x ip < bmapstart (asb x) -> space 0 (ac x) ->
  0 < sbsize (asb x) ->
  (forall s', frep s' (with_ac (a_update (iblock x ip,
     encode_dinode (inode_off (inum (ageti x ip))) (din (ageti x ip)) (vw x (iblock x ip))) (ac x)) x) -> Q tt s') ->
  runs (iupdate ip) Q s.
Proof.
  intros Hf Hb Hh Hib Hsp Hsz HQ. pose proof (fb_disk _ _ Hb) as Hd.
  pose proof (g_bmap _ _ (dk_geom _ _ _ Hd) 0 ltac:(lia)) as Hbm. unfold BBLOCK in Hbm. rewrite BPB_eq in Hbm. change (0 / 4096) with 0 in Hbm.
  unfold iupdate. fstep. fstep. rewrite (fb_dev _ _ Hb). fold (iblock x ip).
  fstep; [lia | rewrite Hh; set_solver | by eapply space_room |].
  fstep; [apply lookup_insert_eq | rewrite length_encode_dinode; apply (frep_full _ _ Hf (iblock x ip)); lia |].
  eapply fruns_write_back; [eassumption | rewrite Hh; set_solver | done | exact Hsp | exact HQ].
Qed.
(** The inode as it is written back: its addresses are those of its tree. *)
Lemma dinode_ok_tree x ip d : fbase x ip -> daddrs d = addrs x ip -> is_short (dtype d) -> is_short (dmajor d) ->
  is_short (dminor d) -> is_short (dnlink d) -> is_uint (dsize d) -> dinode_ok d.
Proof.
  intros Hb Ea H1 H2 H3 H4 H5. pose proof (fb_tree _ _ Hb) as Ht. pose proof (tr_len _ _ _ Ht) as Hl.
  split; try done; [by rewrite Ea|]. rewrite Ea. apply Forall_lookup. intros k a Hk. unfold is_uint.
  assert (k < NDIRECT + 3)%nat as Hlt by (rewrite <- Hl; by eapply lookup_lt_Some).
  assert (node (vw x) (addrs x ip) (k, []) = a) as En by (unfold node; simpl; by rewrite nth_lookup, Hk).
  destruct (decide (a = 0)) as [->|Ha]; [lia|].
  destruct (tr_used _ _ _ Ht (k, []) (valid_root k ltac:(lia))) as [Hr _]; [by rewrite En|].
  rewrite En in Hr. pose proof (nmeta_pos _ _ _ (fb_disk _ _ Hb)). pose proof (dk_size _ _ _ (fb_disk _ _ Hb)). lia.
Qed.

Lemma inode_off_range i : (inode_off i + 64 <= BSIZE)%nat.
Proof.
  unfold inode_off, sizeof_dinode, BSIZE. change IPB with 8. pose proof (Z.mod_pos_bound i 8 ltac:(lia)). lia.
Qed.

(** The end of a write that made the file longer. *)
Lemma fruns_grow s x ip sz (Q : unit -> fstate S -> Prop) :
  let i' := set_din (set_size sz (din (ageti x ip))) (ageti x ip) in
  frep s x -> fbase x ip -> aheld (ac x) = ∅ -> 0 <= iblock x ip < bmapstart (asb x) -> space 0 (ac x) ->
  0 < sbsize (asb x) -> dinode_ok (din i') ->
  (forall s' x', frep s' x' -> fbase x' ip -> aheld (ac x') = ∅ -> ageti x' ip = i' -> asb x' = asb x ->
     (forall o, in_file o -> content (vw x') (addrs x' ip) o = content (vw x) (addrs x ip) o) ->
     decode_dinode (vw x' (iblock x ip)) (inode_off (inum (ageti x ip))) = din i' ->
     (forall b, b <> iblock x ip -> vw x' b = vw x b) -> Q tt s') ->
  runs (updi ip (fun i => set_din (set_size sz (din i)) i) ;;; iupdate ip) Q s.
Proof.
  intros i' Hf Hb Hh Hib Hsp Hsz Hok HQ. pose proof (fb_disk _ _ Hb) as Hd. pose proof (fb_tree _ _ Hb) as Ht.
  pose proof (nmeta_pos _ _ _ Hd) as Hnm. fstep. destruct (ageti_upd ip (fun i => set_din (set_size sz (din i)) i) x (fb_ip _ _ Hb)) as [E1 _].
  set (y := aupdi ip (fun i => set_din (set_size sz (din i)) i) x) in *. fold i' in E1.
  assert (addrs y ip = addrs x ip) as Ea by (unfold addrs; by rewrite E1).
  assert (iblock y ip = iblock x ip) as Ei by (unfold iblock; by rewrite E1).
  assert (fbase y ip) as Hby.
  { split; [unfold y, aupdi; simpl; rewrite length_insert; apply Hb | rewrite E1; apply Hb | exact Hd |].
    rewrite Ea. exact Ht. }
  eapply (fruns_iupdate s0 y); [done | done | done | by rewrite Ei | done | done |].
  rewrite Ei, E1. intros s' Hf'. set (d := encode_dinode _ _ _) in Hf'.
  eapply HQ; [exact Hf' | | done | exact E1 | done | | |].
  - split; [apply Hby | simpl; change (ageti (with_ac _ y) ip) with (ageti y ip); rewrite E1; apply Hb | |].
    + simpl. eapply disk_ok_bits; [exact Hd|]. intros b Hr Hs. rewrite bit_set_other; [done|].
      pose proof (bblock_meta (asb x) b Hr). simpl. lia.
    + change (addrs (with_ac _ y) ip) with (addrs y ip). rewrite Ea. apply (meta_tree (vw x) (asb x)); [done | simpl; lia | lia | lia].
  - intros o Ho. change (addrs (with_ac _ y) ip) with (addrs y ip). rewrite Ea.
    apply (meta_content (vw x) (asb x)); [done | simpl; lia | lia | done].
  - simpl. rewrite upd_eq. apply encode_dinode_eq; [exact Hok|]. rewrite (frep_full _ _ Hf).
    + apply inode_off_range.
    + pose proof (g_bmap _ _ (dk_geom _ _ _ Hd) 0 ltac:(lia)) as Hbm. unfold BBLOCK in Hbm. rewrite BPB_eq in Hbm.
      change (0 / 4096) with 0 in Hbm. lia.
  - intros b Hbn. simpl. by rewrite upd_ne.
Qed.
End inode.

(** ** The claims *)

(** The number of blocks of a range, and the positions on the way to them. *)
Definition nblk (off len : Z) : Z := if decide (len <= 0) then 0 else (off + len - 1) / BS - off / BS + 1.
Definition span (off len : Z) : gset pos := ⋃ (path <$> seqZ (off / BS) (nblk off len)).

Lemma elem_of_span off len q : q ∈ span off len <-> exists bn, off / BS <= bn < off / BS + nblk off len /\ q ∈ path bn.
Proof.
  unfold span. rewrite elem_of_union_list. split.
  - intros (X & (bn & -> & Hbn%elem_of_seqZ)%list_elem_of_fmap & Hq). by exists bn.
  - intros (bn & Hbn & Hq). exists (path bn). split; [|done]. apply list_elem_of_fmap. exists bn. by rewrite elem_of_seqZ.
Qed.

Lemma nblk_mono off o len : off <= o < off + len -> off / BS <= o / BS < off / BS + nblk off len.
Proof.
  intros Ho. unfold nblk. rewrite decide_False by lia. change BS with 512.
  assert (off / 512 <= o / 512) by (apply Z.div_le_mono; lia).
  assert (o / 512 <= (off + len - 1) / 512) by (apply Z.div_le_mono; lia). lia.
Qed.

Lemma covers_span off len : 0 <= off -> off + len <= MAXFILE * BS -> covers (span off len) off len (Z.to_nat (nblk off len)).
Proof.
  intros H0 H1. split; [|split].
  - intros q (bn & Hbn & Hq)%elem_of_span. apply (path_valid bn); [|done].
    unfold nblk in Hbn. destruct (decide (len <= 0)); [lia|]. change BS with 512 in *.
    assert (0 <= off / 512) by (apply Z.div_pos; lia).
    assert ((off + len - 1) / 512 < MAXFILE) by (apply Z.div_lt_upper_bound; lia). lia.
  - intros o Ho. split; [unfold in_file; lia|]. intros q Hq. apply elem_of_span. exists (o / BS). split; [by apply nblk_mono | done].
  - intros Hl. pose proof (nblk_mono off (off + len - 1) len ltac:(lia)). lia.
Qed.

(** The inode [ip] is locked by the running process and its block tree is in order;
    no buffer is held.  There are free blocks for the missing positions of the
    range, and buffers for them, the blocks of the range and the inode. *)
Definition file_ready (ip : nat) (off len : Z) (x : afs) : Prop :=
  able ip (span off len) (Z.to_nat (nblk off len) + 1) x.

Lemma covers_le P off len c : covers P off len c -> covers P off len (c + 1).
Proof. intros (C1 & C2 & C3). split; [done|]. split; [done|]. lia. Qed.

(** The test for a range that wraps around. *)
Lemma u32_range_wraps {A} off n P `{!Decision P} (a b : A) : 0 <= off < 2 ^ 32 -> 0 <= n < 2 ^ 31 ->
  (if decide (P \/ u32 (off + n) < off) then a else b) = (if decide (P \/ 2 ^ 32 <= off + n) then a else b).
Proof.
  intros Hoff Hn. assert (u32 (off + n) < off <-> 2 ^ 32 <= off + n) as Hiff; [|by repeat case_decide; tauto].
  unfold u32. destruct (decide (off + n < 2 ^ 32)); [rewrite Z.mod_small by lia; lia|].
  rewrite <- (Z.mod_add (off + n) (-1)), Z.mod_small by lia. lia.
Qed.

Module FsFile.
Section claims.
Context {S : Type} `{BufSpec S}.

(** C5: The block map.  For a block number up to the triply indirect limit [bmap]
    returns the data block at its position in the tree, in use and shared with no
    other position; beyond the limit it panics.  Blocks already in the tree stay
    where they are, only the missing positions on the way are filled, with blocks
    that were free, the file has the same bytes, and blocks in use outside the file
    and the bitmap are untouched. *)
Theorem bmap_spec (s : fstate S) x ip bn :
  frep s x -> fbase x ip -> aheld (ac x) = ∅ -> 0 <= bn ->
  (bn < MAXFILE -> space (2 * missing (vw x) (addrs x ip) (path bn) + 4) (ac x) /\
     (missing (vw x) (addrs x ip) (path bn) <= nfree (vw x) (asb x))%nat) ->
  if decide (bn < MAXFILE) then
    runs (bmap ip bn) (fun b s' => exists x', frep s' x' /\ fbase x' ip /\ keeps ip x x' /\
      in_use (vw x') (asb x) b /\
      (forall q, valid_pos q -> node (vw x') (addrs x' ip) q = b <-> q = bpath bn) /\
      grows (asb x) (fun p => p ∈ path bn) (vw x) (addrs x ip) (vw x') (addrs x' ip)) s
  else bmap ip bn s = Stop (Panicked "bmap: out of range") s.
Proof.
  intros Hf Hb Hh Hbn Hsp. case_decide as Hlt.
  - destruct (Hsp Hlt) as [Hroom Hfree]. eapply fruns_bmap; [done.. | lia | done | done |].
    intros s' x' z Hf' [W1 W2 W3 W4 W5 W6 W7 W8]. exists x'. do 3 (split; [done|]).
    destruct (bpath_valid bn ltac:(lia)) as [Vb _]. pose proof (W4 _ (path_leaf bn)) as Hn.
    pose proof (fb_tree _ _ W2) as Ht. rewrite (kp_sb _ _ _ W1) in Ht. split; [by apply Ht|]. split; [|done].
    intros q Vq. split; [|by intros ->]. intros Eq. symmetry. by apply (tr_inj _ _ _ Ht).
  - unfold bmap, inode_at, gets, bind. revert Hlt. levels. intros Hlt. rewrite !decide_False by lia. done.
Qed.


(** C3: Writing a file.  [writei] returns -1 and changes nothing when the offset is
    beyond the size, the range wraps around, or it ends after the largest file.
    Otherwise it returns the number of bytes; the bytes of the range are those of
    the source, every other byte of the file is as before, the size is the larger of
    the old one and the end of the range, and the block tree is in order again.
    Blocks in use outside the file, the bitmap and the inode's own block stay; when
    the file grew, the inode on the disk is the one in memory. *)
Theorem writei_spec devwrite (s : fstate S) x ip src off n :
  let d := din (ageti x ip) in
  frep s x -> dtype d <> T_DEV -> is_short (dtype d) -> is_short (dmajor d) -> is_short (dminor d) -> is_short (dnlink d) ->
  0 <= off < 2 ^ 32 -> 0 <= n < 2 ^ 31 -> n <= Z.of_nat (length src) -> 0 <= dsize d <= MAXFILE * BS ->
  0 <= iblock x ip < bmapstart (asb x) -> 0 < sbsize (asb x) ->
  (off <= dsize d -> off + n <= MAXFILE * BS -> file_ready ip off n x) ->
  runs (writei devwrite ip src off n) (fun r s' =>
    if decide (dsize d < off \/ MAXFILE * BS < off + n) then r = -1 /\ s' = s else
    r = n /\ exists x', frep s' x' /\ fbase x' ip /\ aheld (ac x') = ∅ /\
    dsize (din (ageti x' ip)) = Z.max (dsize d) (off + n) /\
    (forall o, in_file o -> content (vw x') (addrs x' ip) o =
       if decide (off <= o < off + n) then nth (Z.to_nat (o - off)) src 0 else content (vw x) (addrs x ip) o) /\
    (forall b, outside (vw x) (asb x) (addrs x ip) b -> b <> iblock x ip -> vw x' b = vw x b) /\
    (dsize d < off + n -> decode_dinode (vw x' (iblock x ip)) (inode_off (inum (ageti x ip))) = din (ageti x' ip))) s.
Proof.
  intros d Hf Hty T1 T2 T3 T4 Hoff Hn Hsrc Hsz Hib Hsb Hready. assert (MAXFILE * BS < 2 ^ 31) as Hmax by (by vm_compute).
  unfold writei. fstep. rewrite decide_False by done. fold d. rewrite (u32_range_wraps off n) by done.
  destruct (decide (dsize d < off \/ 2 ^ 32 <= off + n)) as [Hbad|Hok].
  { apply runs_ret. rewrite decide_True by lia. done. }
  rewrite u32_small by lia. change (Z.of_nat BSIZE) with BS. destruct (decide (MAXFILE * BS < off + n)) as [Hbig|Hfit].
  { apply runs_ret. rewrite decide_True by lia. done. }
  specialize (Hready ltac:(lia) ltac:(lia)). apply runs_bind.
  eapply (fruns_writei_loop ip (span off n) _ s x src off n 0); try (done || lia).
  { rewrite Z.sub_0_r. apply covers_le, covers_span; lia. }
  rewrite Z.sub_0_r. intros s1 x1 Hf1 Hst Hh1 Hroom Hc. pose proof (sp_base _ _ _ _ Hst) as Hb1.
  pose proof (sp_keeps _ _ _ _ Hst) as K. pose proof (kp_ip _ _ _ K) as Ki. pose proof (kp_sb _ _ _ K) as Ks.
  assert (iblock x1 ip = iblock x ip) as Ei by (unfold iblock; by rewrite Ks, Ki).
  assert (i32 n = n) as -> by (unfold i32; rewrite u32_small by lia; by rewrite decide_True by lia).
  assert (dsize (din (ageti x1 ip)) = dsize d) as Esz by (by rewrite Ki).
  fstep. rewrite Esz. case_decide as Hgrow; apply runs_bind.
  - eapply fruns_grow; rewrite ?Ei, ?Ks; try done.
    { eapply space_le; [|exact Hroom]. lia. }
    { eapply dinode_ok_tree; [exact Hb1 | done | rewrite Ki; done.. |]. simpl. unfold is_uint. lia. }
    intros s2 x2 Hf2 Hb2 Hh2 E2 Es2 Hc2 Hdec Hrest. apply runs_ret. rewrite decide_False by lia. split; [done|]. exists x2. do 3 (split; [done|]).
    split; [rewrite E2; simpl; lia|]. split; [intros o Ho; rewrite Hc2 by done; by apply Hc|]. split.
    + intros b Ho Hne. rewrite Hrest by done. by apply (gw_rest _ _ _ _ _ _ (sp_ext _ _ _ _ Hst)).
    + intros _. rewrite E2, <- Hdec. do 2 f_equal. by rewrite Ki.
  - apply runs_ret, runs_ret. rewrite decide_False by lia. split; [done|]. exists x1. do 3 (split; [done|]).
    split; [rewrite Ki; simpl; fold d; lia|]. split; [exact Hc|]. split; [|lia].
    intros b Ho _. by apply (gw_rest _ _ _ _ _ _ (sp_ext _ _ _ _ Hst)).
Qed.
End claims.
End FsFile.
