(* ===== verification/FsSmall.v ===== *)
(** A small concrete file system, for examples: the image of LogProps.v on the
    buffer cache of bio.c, booted and inside a transaction. *)

From S2P Require Import Prelude Bytes BlockCache BlockClient Bio BioRefine BioProps FsLayout.
From S2P Require Import Log LogDisk LogRun LogTxn LogProps Fs FsPure FsRun FsBlocks.
From S2P Require Import FsTree FsMap FsFile.
Import Fs.

#[export] Existing Instance Bio.bufops.
#[export] Existing Instance BioRefine.bufspec.

Definition small_super : superblock := decode_sb LogProps.small_sb.

(** The blocks of the image. *)
Definition small_block (b : Z) : list Z := BioProps.image_block LogProps.small_image b.

Lemma small_fs ics : exists (s : fstate Bio.bcache) x, frep s x /\ asb x = small_super /\
  aheld (ac x) = ∅ /\ adirty (ac x) = ∅ /\ ahandle (ac x) = ∅ /\ asize (ac x) = 70 /\
  (forall b, b <> 2 -> aview (ac x) b = small_block b) /\ aic x = ics /\ apid x = 1.
Proof.
  destruct (LogProps.small_in_txn []) as (s & l & a & w & es0 & Hr & Ht & E & Es & Ez & Ev).
  { constructor. } { vm_compute. lia. }
  pose proof Ht as [[T1 T1'] T2 T3 T4 T5 T6 (T7 & _) T8 T9 T10 T11 T12 T13].
  exists (MkFs s small_super ics 1), (AFs a small_super ics 1). split.
  { exists l, w. split; [exact Hr|]. split; [|by split_and!].
    split; [exact T2|]. split; [exact T4|]. split; [rewrite T6; lia|]. split; [exact T7 | exact T8]. }
  split; [done|]. split; [exact T1|]. split; [simpl; rewrite T8, E; done|]. split; [exact T1'|].
  split; [simpl; rewrite Ez; by vm_compute|]. split; [|done].
  intros b Hb. simpl. rewrite Ev by done. reflexivity.
Qed.

Lemma small_geom : geom small_super 70.
Proof.
  split; [by vm_compute|]. intros b Hb. change (sbsize small_super) with 70 in Hb.
  unfold BBLOCK. change (bmapstart small_super) with 33. rewrite BPB_eq, Z.div_small by lia. lia.
Qed.

Lemma small_bblock b : 0 <= b < 70 -> BBLOCK b small_super = 33.
Proof.
  intros Hb. unfold BBLOCK. change (bmapstart small_super) with 33. rewrite BPB_eq, Z.div_small by lia. lia.
Qed.

Lemma small_alloc_ready s x : frep s x -> asb x = small_super -> aheld (ac x) = ∅ -> adirty (ac x) = ∅ ->
  asize (ac x) = 70 -> (forall b, b <> 2 -> aview (ac x) b = small_block b) ->
  FsBlocks.alloc_ready (S := Bio.bcache) 20 s x.
Proof.
  intros Hf Esb Eh Ed Ez Ev. split; try done.
  - rewrite Esb, Ez. apply small_geom.
  - rewrite Ev, Esb by done. by vm_compute.
  - rewrite Ez, Eh. split; [lia | apply not_elem_of_empty].
  - intros b _. rewrite Eh. apply not_elem_of_empty.
  - unfold space, used. rewrite Eh, Ed, union_empty_l_L, size_empty. unfold NBUF. lia.
Qed.

(** The bits of the image: blocks 0 to 36 are in use. *)
Lemma small_bits v b : v 33 = small_block 33 -> 0 <= b < 70 ->
  bit_set v small_super b = bool_decide (b < 37).
Proof.
  intros Hv Hb. rewrite bit_set_testbit, (small_bblock b Hb), Hv. rewrite BPB_eq, Z.mod_small by lia.
  assert (forallb (fun b => Bool.eqb (Z.testbit (byte_at (small_block 33) (bit_byte b)) (b mod 8))
    (bool_decide (b < 37))) (Z.of_nat <$> seq 0 70) = true) as Hall by (by vm_compute).
  rewrite forallb_forall in Hall. apply eqb_prop, Hall. apply list_elem_of_In, list_elem_of_fmap.
  exists (Z.to_nat b). split; [lia|]. apply list_elem_of_In, in_seq. lia.
Qed.

Lemma small_first_free v b : v 33 = small_block 33 -> first_free v small_super b <-> b = 37.
Proof.
  intros Hv. split.
  - intros (Hb & Hbit & Hmin). change (sbsize small_super) with 70 in Hb.
    rewrite (small_bits v b Hv Hb) in Hbit. apply bool_decide_eq_false in Hbit.
    destruct (decide (b = 37)); [done|]. specialize (Hmin 37 ltac:(lia)).
    rewrite (small_bits v 37 Hv) in Hmin by lia. done.
  - intros ->. split; [by vm_compute|]. split; [by rewrite (small_bits v 37 Hv)|].
    intros b' Hb'. rewrite (small_bits v b' Hv) by lia. apply bool_decide_eq_true. lia.
Qed.

#[local] Notation vw x := (aview (ac x)).

(** ** A small file: 600 bytes in blocks 35 and 36 *)

Definition small_addrs : list Z := [35; 36] ++ replicate 11 0.
Definition small_file : inode := MkInode ROOTDEV 2 1 true 1 true (MkDinode T_FILE 0 0 1 600 small_addrs).

Lemma small_node v p : valid_pos p ->
  node v small_addrs p = if decide (p = (0%nat, [])) then 35 else if decide (p = (1%nat, [])) then 36 else 0.
Proof.
  destruct p as [k jx]. intros [V1 V2 _]. simpl in *. unfold depth, NDIRECT, XDIRECT in *.
  destruct jx as [|j jx].
  - unfold node. simpl. do 13 (destruct k as [|k]; [done|]). lia.
  - rewrite !decide_False by done.
    change (node v small_addrs (k, j :: jx)) with (foldl (entry v) (entry v (nth k small_addrs 0) j) jx).
    assert (nth k small_addrs 0 = 0) as ->.
    { destruct k as [|[|k]]; simpl in V2; [lia | lia |]. unfold small_addrs. simpl.
      do 11 (destruct k as [|k]; [done|]). by destruct k. }
    change (entry v 0 j) with 0. clear. induction jx as [|i jx IH]; [done | exact IH].
Qed.

Record small_ready (x : afs) : Prop := {
  sr_sb : asb x = small_super;
  sr_held : aheld (ac x) = ∅;
  sr_dirty : adirty (ac x) = ∅;
  sr_size : asize (ac x) = 70;
  sr_view : forall b, b <> 2 -> vw x b = small_block b;
  sr_ic : aic x = [small_file]
}.

Lemma small_file_fs : exists (s : fstate Bio.bcache) x, frep s x /\ small_ready x.
Proof.
  destruct (small_fs [small_file]) as (s & x & Hf & Esb & Eh & Ed & _ & Ez & Ev & Ei & _). by exists s, x.
Qed.

Lemma missing_size v ad P : (missing v ad P <= size P)%nat.
Proof. unfold missing. apply subseteq_size. set_solver. Qed.

Section ready.
Context (x : afs) (Hx : small_ready x).

Lemma small_inode : ageti x 0 = small_file.
Proof. unfold ageti. by rewrite (sr_ic _ Hx). Qed.

Lemma small_base : fbase x 0.
Proof.
  pose proof (sr_view _ Hx 33 ltac:(done)) as Hv. split.
  - rewrite (sr_ic _ Hx). simpl. lia.
  - by rewrite small_inode.
  - rewrite (sr_sb _ Hx), (sr_size _ Hx). split; [apply small_geom | by vm_compute | by vm_compute |].
    intros b Hb Hs. change (nmeta small_super) with 34 in Hb. change (sbsize small_super) with 70 in Hs.
    rewrite small_bits by (done || lia). apply bool_decide_eq_true. lia.
  - unfold addrs. rewrite small_inode, (sr_sb _ Hx). simpl daddrs. split; [done | |].
    + intros p Vp. rewrite small_node by done. intros Hp.
      assert (35 <= (if decide (p = (0%nat, [])) then 35 else if decide (p = (1%nat, [])) then 36 else 0) <= 36) as Hr
        by (repeat case_decide; lia).
      split; [change (nmeta small_super) with 34; change (sbsize small_super) with 70; lia|].
      rewrite small_bits by (done || lia). apply bool_decide_eq_true. lia.
    + intros p q Vp Vq. rewrite !small_node by done. repeat case_decide; subst; by try lia.
Qed.

Lemma small_nfree : (33 <= nfree (vw x) (asb x))%nat.
Proof.
  unfold nfree. rewrite (sr_sb _ Hx). change (sbsize small_super) with (37 + 33). rewrite seqZ_app, filter_app, length_app by lia. change (0 + 37) with 37.
  assert (Forall (fun b => bit_set (vw x) small_super b = false) (seqZ 37 33)) as Hall.
  { apply Forall_forall. intros b Hb%elem_of_seqZ. rewrite small_bits; [apply bool_decide_eq_false | apply Hx |]; lia. }
  assert (filter (fun b => bit_set (vw x) small_super b = false) (seqZ 37 33) = seqZ 37 33) as ->; [|rewrite length_seqZ; lia].
  induction Hall; [done|]. by rewrite filter_cons_True, IHHall.
Qed.

Lemma small_space k : (k < NBUF)%nat -> space k (ac x).
Proof. unfold space, used. rewrite (sr_held _ Hx), (sr_dirty _ Hx), union_empty_l_L, size_empty. lia. Qed.

Lemma small_file_ready off len : (size (span off len) <= 4)%nat -> nblk off len <= 8 -> file_ready 0 off len x.
Proof.
  intros Hs Hn. pose proof (missing_size (vw x) (addrs x 0) (span off len)) as Hm. pose proof small_nfree. split.
  - apply small_base.
  - apply Hx.
  - apply small_space. unfold NBUF. lia.
  - lia.
Qed.
End ready.

Module FsSmall.

Lemma balloc_spec_witness : exists s s' : fstate Bio.bcache, balloc ROOTDEV s = Ret 37 s'.
Proof.
  destruct (small_fs []) as (s & x & Hf & Esb & Eh & Ed & _ & Ez & Ev & _ & _).
  assert (FsBlocks.alloc_ready 2 s x) as Hready.
  { destruct (small_alloc_ready s x Hf Esb Eh Ed Ez Ev) as [A1 A2 A3 A4 A5 A6].
    split; try done. by eapply space_le; [|exact A6]; lia. }
  pose proof (Ev 33 ltac:(done)) as Ev32.
  destruct (FsBlocks.balloc_spec s x Hready) as [Hrun _].
  { intros b Hff. rewrite Esb in Hff. apply (small_first_free _ _ Ev32) in Hff as ->.
    split; [rewrite Eh; apply not_elem_of_empty|]. intros b' Hb'. rewrite Esb in *.
    change (sbsize small_super) with 70 in Hb'. rewrite small_bblock by done. lia. }
  destruct Hrun as (b & s' & E & Hff & _).
  { exists 37. rewrite Esb. split; [by vm_compute|]. by rewrite (small_bits _ 37 Ev32). }
  rewrite Esb in Hff. apply (small_first_free _ _ Ev32) in Hff as ->. exists s, s'. exact E.
Defined.

Lemma bfree_spec_witness : exists s s' : fstate Bio.bcache, bfree ROOTDEV 36 s = Ret tt s'.
Proof.
  destruct (small_fs []) as (s & x & Hf & Esb & Eh & Ed & _ & Ez & Ev & _ & _).
  assert (FsBlocks.alloc_ready 0 s x) as Hready.
  { destruct (small_alloc_ready s x Hf Esb Eh Ed Ez Ev) as [A1 A2 A3 A4 A5 A6].
    split; try done. by eapply space_le; [|exact A6]; lia. }
  destruct (FsBlocks.bfree_spec s x 36 Hready) as [Hrun _]; [rewrite Esb; by vm_compute|].
  destruct Hrun as ([] & s' & E & _); [|by exists s, s'].
  rewrite Esb, (small_bits _ 36 (Ev 33 ltac:(done))); [done | lia].
Defined.

Lemma bmap_spec_witness : exists (s s' : fstate Bio.bcache) b, bmap 0 20000 s = Ret b s'.
Proof.
  destruct small_file_fs as (s & x & Hf & Hx). pose proof (missing_size (vw x) (addrs x 0) (path 20000)) as Hm.
  assert (size (path 20000) = 4)%nat as Es by (by vm_compute). pose proof (small_nfree _ Hx).
  pose proof (FsFile.bmap_spec s x 0 20000 Hf (small_base _ Hx) (sr_held _ Hx) ltac:(lia)) as Hrun.
  destruct Hrun as (b & s' & E & _); [|by exists s, s', b].
  intros _. split; [apply (small_space _ Hx); unfold NBUF; lia | lia].
Defined.


Lemma writei_spec_witness : exists s s' : fstate Bio.bcache,
  writei (fun _ => None) 0 (replicate 700 7) 300 700 s = Ret 700 s'.
Proof.
  destruct small_file_fs as (s & x & Hf & Hx). pose proof (small_inode _ Hx) as Ei.
  destruct (FsFile.writei_spec (fun _ => None) s x 0 (replicate 700 7) 300 700 Hf) as (r & s' & E & HQ);
    [by rewrite Ei | rewrite Ei; by split | rewrite Ei; by split | rewrite Ei; by split | rewrite Ei; by split | lia | lia |
     rewrite length_replicate; lia | rewrite Ei; split; vm_compute; discriminate | | | |].
  { unfold iblock. rewrite Ei, (sr_sb _ Hx). split; vm_compute; (discriminate || reflexivity). }
  { rewrite (sr_sb _ Hx). by vm_compute. }
  { intros _ _. apply (small_file_ready _ Hx); vm_compute; (lia || discriminate). }
  rewrite Ei, decide_False in HQ by (intros [E'|E']; vm_compute in E'; discriminate). destruct HQ as [-> _]. by exists s, s'.
Defined.

End FsSmall.
