(* ===== verification/MkfsImage.v ===== *)
(** What mkfs leaves in the image (Mkfs.v): the files it was given.

    The block trees are those of FsTree.v.  While the image is made the bitmap is
    empty: the blocks in use are those below [freeblock], and everything from
    there on is zero.  [iappend] keeps that so and touches only its file. *)

From S2P Require Import Prelude Bytes CString BlockCache BlockClient FsLayout.
From S2P Require Import Log LogDisk LogRun LogTxn Fs FsPure FsRun FsBlocks FsTree Mkfs.
Import Mkfs.

#[local] Arguments Nat.add : simpl never.
#[local] Arguments Nat.mul : simpl never.
#[local] Arguments Z.add : simpl never.
#[local] Arguments Z.mul : simpl never.

Notation BS := (Z.of_nat BSIZE) (only parsing).

(** ** Numbers *)

Lemma xint_id x : 0 <= x < 2 ^ 32 -> xint x = x.
Proof.
  intros Hx. unfold xint. rewrite !Z.shiftr_div_pow2 by lia.
  change (2 ^ 8) with 256. change (2 ^ 16) with 65536. change (2 ^ 24) with 16777216.
  Z.to_euclidean_division_equations. lia.
Qed.

Lemma xshort_id x : 0 <= x < 2 ^ 16 -> xshort x = x.
Proof.
  intros Hx. unfold xshort. rewrite !Z.shiftr_div_pow2 by lia. change (2 ^ 8) with 256.
  Z.to_euclidean_division_equations. lia.
Qed.

Lemma layout : nmeta = 68 /\ FsTree.nmeta sb = 68 /\ sbsize sb = 40000 /\ inodestart sb = 32 /\ bmapstart sb = 58 /\ FSSIZE = 40000.
Proof. done. Qed.

(** The data blocks of a file of [n] bytes, and all its blocks. *)
Definition data_blocks (n : Z) : Z := (n + 511) / 512.
Definition file_blocks (n : Z) : Z := data_blocks n + (if decide (10 < data_blocks n) then 1 else 0).

(** The largest file [iappend] can make: ten direct blocks and one indirect block. *)
Definition MAXDATA : Z := 138 * 512.

(** ** Trees *)

(** A tree with the first [m] data blocks of a file and, if [g], the indirect block, all
    between the metadata and [hi]. *)
Record mtree (v : Z -> list Z) (hi : Z) (ad : list Z) (m : Z) (g : bool) : Prop := {
  mt_len : length ad = (NDIRECT + 3)%nat;
  mt_range : forall p, valid_pos p -> node v ad p <> 0 -> nmeta <= node v ad p < hi;
  mt_inj : forall p q, valid_pos p -> valid_pos q -> node v ad p <> 0 -> node v ad p = node v ad q -> p = q;
  mt_data : forall bn, 0 <= bn < 138 -> node v ad (bpath bn) <> 0 <-> bn < m;
  mt_ind : node v ad (NDIRECT, []) <> 0 <-> g = true;
  mt_none : nth 11 ad 0 = 0 /\ nth 12 ad 0 = 0
}.

Definition owned (v : Z -> list Z) (ad : list Z) (b : Z) : Prop := b <> 0 /\ exists p, valid_pos p /\ node v ad p = b.

(** The tree depends only on the blocks it owns. *)
Lemma node_frame v v' ad : (forall b, owned v ad b -> v' b = v b) -> forall p, valid_pos p -> node v' ad p = node v ad p.
Proof.
  intros Hv [k jx]. induction jx as [|j jx IH] using rev_ind; intros Vp; [done|].
  destruct (valid_snoc _ _ _ Vp) as (Vp' & _). rewrite !node_snoc, IH by done. unfold entry.
  case_decide as E; [done|]. rewrite Hv; [done|]. split; [done|]. by exists (k, jx).
Qed.

Lemma mtree_frame v v' hi hi' ad m g : mtree v hi ad m g -> hi <= hi' -> (forall b, owned v ad b -> v' b = v b) -> mtree v' hi' ad m g.
Proof.
  intros [T1 T2 T3 T4 T5 T6] Hhi Hv. pose proof (node_frame v v' ad Hv) as Hn. split; try done.
  - intros p Vp. rewrite Hn by done. intros Hp. specialize (T2 p Vp Hp). lia.
  - intros p q Vp Vq. rewrite !Hn by done. by apply T3.
  - intros bn Hbn. destruct (bpath_valid bn) as [Vb _]; [levels; lia|]. rewrite Hn by done. by apply T4.
Qed.

Lemma content_frame v v' ad o : (forall b, owned v ad b -> v' b = v b) -> in_file o -> content v' ad o = content v ad o.
Proof.
  intros Hv Ho. destruct (bpath_valid _ (in_file_block _ Ho)) as [Vo _]. unfold content. cbv zeta.
  rewrite (node_frame v v' ad Hv) by done. case_decide; [done|]. rewrite Hv; [done|]. split; [done|]. by eexists.
Qed.

Lemma owned_frame v v' ad b : (forall b, owned v ad b -> v' b = v b) -> owned v' ad b <-> owned v ad b.
Proof.
  intros Hv. unfold owned. split; intros (Hb & p & Vp & Hp); (split; [done|]); exists p; (split; [done|]).
  - by rewrite <- (node_frame v v' ad Hv).
  - by rewrite (node_frame v v' ad Hv).
Qed.

(** *** Adding a block *)

(** A block at a position whose parent is there, with the two ways to put it there. *)
Lemma put_root v ad k b : length ad = (NDIRECT + 3)%nat -> (k <= NDIRECT + 2)%nat -> v b = replicate BSIZE 0 ->
  added v ad (k, []) b v (<[k := b]> ad).
Proof.
  intros Hl Hk Hz. split.
  - intros k'. rewrite !nth_lookup. destruct (decide (k = k')) as [->|Hne].
    + rewrite list_lookup_insert_eq by lia. by rewrite decide_True.
    + rewrite list_lookup_insert_ne by done. rewrite decide_False by congruence. done.
  - intros i _. by apply entry_zeros.
  - intros k' ix i _ _. rewrite decide_False; [done|]. by destruct ix.
Qed.

Lemma put_child v hi ad m g k i b : mtree v hi ad m g -> valid_pos (k, [i]) ->
  let par := node v ad (k, []) in
  par <> 0 -> hi <= b < 2 ^ 32 -> length (v par) = BSIZE -> v b = replicate BSIZE 0 ->
  added v ad (k, [i]) b (upd v par (put32 (4 * Z.to_nat i) b (v par))) ad.
Proof.
  intros T Hv par Hpar Hb Hlen Hz. change [i] with ([] ++ [i]) in Hv. destruct (valid_snoc _ _ _ Hv) as (Hv' & Hi & _).
  pose proof (mt_range _ _ _ _ _ T _ Hv' Hpar) as Hr. fold par in Hr. change nmeta with 68 in Hr. levels. split.
  - intros k'. by rewrite decide_False.
  - intros j Hj. apply entry_zeros. by rewrite upd_ne by lia.
  - intros k' jx j Hj Hn. destruct (valid_snoc _ _ _ Hj) as (Hj' & Hji & _). levels.
    unfold entry. rewrite decide_False by done.
    destruct (decide (node v ad (k', jx) = par)) as [E|Hne].
    + assert ((k', jx) = (k, [])) as [= -> ->] by (by apply (mt_inj _ _ _ _ _ T)). fold par. rewrite upd_eq.
      destruct (decide (j = i)) as [->|Hji'].
      * rewrite get32_put32_eq by (rewrite ?Hlen; unfold is_uint, BSIZE; lia). by rewrite decide_True.
      * rewrite get32_put32_ne by lia. rewrite decide_False; [by rewrite decide_False|]. by intros [= ?].
    + rewrite upd_ne by done. rewrite (decide_False (P := (k, [i]) = _)); [by rewrite decide_False|].
      intros [= -> E']. destruct jx; [done|]. by destruct jx.
Qed.

(** The position is that of the next data block, or of the indirect block. *)
Definition next_pos (m : Z) (g : bool) (p : pos) (m' : Z) (g' : bool) : Prop :=
  (p = bpath m /\ m < 138 /\ m' = m + 1 /\ g' = g) \/ (p = (NDIRECT, []) /\ m' = m /\ g' = true).

Lemma small_bpath m : 0 <= m < 138 -> bpath m = if decide (m < 10) then (Z.to_nat m, []) else (NDIRECT, [m - 10]).
Proof. intros Hm. unfold bpath. levels. repeat case_decide; try lia; done. Qed.

Lemma ind_not_data bn : 0 <= bn < 138 -> bpath bn <> (NDIRECT, []).
Proof. intros Hbn. rewrite small_bpath by done. case_decide; [|done]. intros [= E]. unfold NDIRECT, XDIRECT in E. lia. Qed.

Lemma next_slots m g p m' g' : 0 <= m -> next_pos m g p m' g' -> p <> (11%nat, []) /\ p <> (12%nat, []).
Proof.
  intros Hm [(-> & Hlt & _) | (-> & _)]; [|done]. rewrite small_bpath by done. case_decide; split; intros [= E]; lia.
Qed.

Lemma mtree_added v hi ad m g p b v' ad' m' g' : added v ad p b v' ad' -> mtree v hi ad m g -> 0 <= m -> next_pos m g p m' g' ->
  valid_pos p -> node v ad p = 0 -> (forall ix i, p.2 = ix ++ [i] -> node v ad (p.1, ix) <> 0) ->
  length ad' = length ad -> nmeta <= b -> hi <= b -> mtree v' (b + 1) ad' m' g'.
Proof.
  intros Ha [T1 T2 T3 T4 T5 T6] Hm Hnx Vp Hp Hpar Hlen Hb Hhi. assert (nmeta = 68) as EM by done.
  pose proof (fun q => added_node v ad p b v' ad' q Ha Hp Hpar) as Hn. split; [congruence | | | | |].
  - intros q Vq. rewrite Hn by done. case_decide; intros Hq; [lia|]. specialize (T2 q Vq Hq). lia.
  - assert (forall q, valid_pos q -> node v ad q <> b) as Hf.
    { intros q Vq E. destruct (decide (node v ad q = 0)) as [E0|E0]; [lia|]. specialize (T2 q Vq E0). lia. }
    intros q r Vq Vr. rewrite !Hn by done. repeat case_decide; intros H1 H2; subst; try done.
    + exfalso. by apply (Hf r).
    + exfalso. by apply (Hf q).
    + by apply T3.
  - intros bn Hbn. destruct (bpath_valid bn) as [Vb _]; [levels; lia|]. rewrite Hn by done.
    destruct Hnx as [(-> & Hlt & -> & ->) | (-> & -> & ->)].
    + case_decide as E; [apply bpath_inj in E; [split; [intros; lia | intros; lia] | levels; lia | levels; lia]|].
      rewrite T4 by done. split; [lia|]. intros Hx. destruct (decide (bn = m)) as [->|]; [done | lia].
    + rewrite decide_False; [by apply T4|]. by apply ind_not_data.
  - rewrite Hn by (apply valid_root; lia). destruct Hnx as [(-> & Hlt & -> & ->) | (-> & -> & ->)].
    + rewrite decide_False; [done|]. intros E. symmetry in E. revert E. by apply ind_not_data.
    + rewrite decide_True by done. split; [done | lia].
  - destruct (next_slots _ _ _ _ _ Hm Hnx). rewrite !(ad_root _ _ _ _ _ _ Ha). by rewrite !decide_False.
Qed.

Lemma owned_added v ad p b v' ad' : added v ad p b v' ad' -> valid_pos p -> node v ad p = 0 ->
  (forall ix i, p.2 = ix ++ [i] -> node v ad (p.1, ix) <> 0) -> forall b', owned v' ad' b' -> owned v ad b' \/ b' = b.
Proof.
  intros Ha Vp Hp Hpar b' (Hb & q & Vq & Hq). rewrite (added_node v ad p b v' ad' q Ha Hp Hpar Vq) in Hq.
  case_decide; [by right|]. left. split; [done|]. by exists q.
Qed.

(** ** Appending to a file *)

(** The state while a file is appended to: [ad] are the addresses in the copy of its inode
    in memory, [data] its bytes; everything from [freeblock] on is zero. *)
Record appending (s : mkfs) (ad : list Z) (m : Z) (g : bool) (data : list Z) : Prop := {
  ap_sect : nsect s = FSSIZE;
  ap_full : forall b, 0 <= b < FSSIZE -> length (img s b) = BSIZE;
  ap_low : nmeta <= freeblock s <= FSSIZE;
  ap_zero : forall b, freeblock s <= b < FSSIZE -> img s b = replicate BSIZE 0;
  ap_tree : mtree (img s) (freeblock s) ad m g;
  ap_data : forall o, in_file o -> content (img s) ad o = nth (Z.to_nat o) data 0
}.

(** Only the file and blocks that were free change. *)
Record touches (s : mkfs) (ad : list Z) (s' : mkfs) (ad' : list Z) : Prop := {
  to_img : forall b, b < freeblock s -> ~ owned (img s) ad b -> img s' b = img s b;
  to_owned : forall b, owned (img s') ad' b -> owned (img s) ad b \/ freeblock s <= b;
  to_free : freeblock s <= freeblock s';
  to_inode : freeinode s' = freeinode s
}.

Lemma touches_refl s ad : touches s ad s ad.
Proof. split; [done | by left | done | done]. Qed.

Lemma touches_trans s ad s1 ad1 s2 ad2 : touches s ad s1 ad1 -> touches s1 ad1 s2 ad2 -> touches s ad s2 ad2.
Proof.
  intros [A1 A2 A3 A4] [B1 B2 B3 B4]. split; [| |lia | congruence].
  - intros b Hb Ho. rewrite B1; [by apply A1 | lia|]. intros Ho1. destruct (A2 b Ho1); [done | lia].
  - intros b Ho. destruct (B2 b Ho) as [Ho1|]; [by apply A2 | right; lia].
Qed.

(** One block of the free ones joins the tree. *)
Lemma appending_added s ad m g data p v' ad' m' g' :
  appending s ad m g data -> freeblock s < FSSIZE -> 0 <= m -> next_pos m g p m' g' ->
  added (img s) ad p (freeblock s) v' ad' -> valid_pos p -> node (img s) ad p = 0 ->
  (forall ix i, p.2 = ix ++ [i] -> node (img s) ad (p.1, ix) <> 0) -> length ad' = length ad ->
  (forall b, v' b = img s b \/ owned (img s) ad b /\ length (v' b) = BSIZE) ->
  (forall q, valid_pos q -> leaf q -> node (img s) ad q <> 0 -> v' (node (img s) ad q) = img s (node (img s) ad q)) ->
  let s' := MkM v' (nsect s) (freeinode s) (freeblock s + 1) in
  appending s' ad' m' g' data /\ touches s ad s' ad'.
Proof.
  intros [P1 P2 P3 P4 P5 P6] Hlt Hm Hnx Ha Vp Hp Hpar Hlen Hdiff Hleaf. assert (nmeta = 68) as EM by done.
  assert (forall b, owned (img s) ad b -> nmeta <= b < freeblock s) as Ho.
  { intros b (Hb & q & Vq & <-). by apply (mt_range _ _ _ _ _ P5). }
  assert (forall b, freeblock s <= b -> v' b = img s b) as Hv.
  { intros b Hb. destruct (Hdiff b) as [|[Hb' _]]; [done|]. specialize (Ho b Hb'). lia. }
  split; split; simpl; try done.
  - intros b Hb. destruct (Hdiff b) as [-> | [_ ?]]; [by apply P2 | done].
  - lia.
  - intros b Hb. rewrite Hv by lia. apply P4. lia.
  - eapply mtree_added; [exact Ha | exact P5 | done..| lia | lia].
  - intros o Hof. rewrite <- P6 by done. eapply added_content; [exact Ha | done | done | | done | done].
    intros _. rewrite Hv by lia. apply P4. lia.
  - intros b Hb Hno. destruct (Hdiff b) as [|[Hb' _]]; [done | tauto].
  - intros b Hb. destruct (owned_added _ _ _ _ _ _ Ha Vp Hp Hpar b Hb) as [| ->]; [by left | right; lia].
  - lia.
Qed.

Lemma runs_next_block s (Q : Z -> mkfs -> Prop) : 0 <= freeblock s < FSSIZE ->
  Q (freeblock s) (MkM (img s) (nsect s) (freeinode s) (freeblock s + 1)) -> runs next_block Q s.
Proof.
  intros Hf HQ. unfold next_block. change FSSIZE with 40000 in Hf. do 2 rstep. apply runs_ret.
  by rewrite u32_small by lia.
Qed.

Lemma runs_rsect s b (Q : list Z -> mkfs -> Prop) : nsect s = FSSIZE -> 0 <= b < FSSIZE -> Q (img s b) s -> runs (rsect b) Q s.
Proof. intros Hn Hb HQ. unfold runs, rsect. rewrite Hn, decide_True by done. eauto. Qed.

Lemma runs_wsect s b d (Q : unit -> mkfs -> Prop) : nsect s = FSSIZE -> 0 <= b < FSSIZE ->
  Q tt (MkM (upd (img s) b d) (nsect s) (freeinode s) (freeblock s)) -> runs (wsect b d) Q s.
Proof. intros Hn Hb HQ. unfold wsect. apply runs_modify. replace (Z.max (nsect s) (b + 1)) with (nsect s) by (rewrite Hn; lia). done. Qed.

(** A missing slot of the inode is filled. *)
Lemma runs_slot_new s d m g data k m' g' (Q : dinode -> mkfs -> Prop) :
  appending s (daddrs d) m g data -> freeblock s < FSSIZE -> 0 <= m -> next_pos m g (k, []) m' g' ->
  (k <= NDIRECT + 2)%nat -> addr d k = 0 ->
  (forall s' , let d' := set_addr k (freeblock s) d in appending s' (daddrs d') m' g' data -> touches s (daddrs d) s' (daddrs d') ->
     freeblock s' = freeblock s + 1 -> img s' = img s -> Q d' s') -> runs (slot d k) Q s.
Proof.
  intros Hap Hlt Hm Hnx Hk Hz HQ. assert (nmeta = 68) as EM by done. pose proof (ap_low _ _ _ _ _ Hap) as Hlow.
  unfold slot. rewrite Hz. rewrite decide_True by done. apply runs_bind, runs_next_block; [lia|]. apply runs_ret.
  change FSSIZE with 40000 in *. rewrite xint_id by lia. pose proof (ap_tree _ _ _ _ _ Hap) as Ht.
  destruct (appending_added s (daddrs d) m g data (k, []) (img s) (<[k := freeblock s]> (daddrs d)) m' g') as [HA HT]; try done.
  - apply put_root; [apply Ht | done|]. apply (ap_zero _ _ _ _ _ Hap). change FSSIZE with 40000. lia.
  - by apply valid_root.
  - intros ix i E. by destruct ix.
  - apply length_insert.
  - intros b. by left.
  - by apply HQ.
Qed.

Lemma runs_slot_old s d k (Q : dinode -> mkfs -> Prop) : 0 <= addr d k < 2 ^ 32 -> addr d k <> 0 -> Q d s -> runs (slot d k) Q s.
Proof. intros Hr Hz HQ. unfold slot. rewrite xint_id by done. rewrite decide_False by done. by apply runs_ret. Qed.

(** *** The block of a file *)

Definition gof (m : Z) : bool := bool_decide (10 < m).
Definition blocks (m : Z) : Z := m + (if decide (10 < m) then 1 else 0).

Definition same_meta (d d' : dinode) : Prop :=
  dtype d' = dtype d /\ dmajor d' = dmajor d /\ dminor d' = dminor d /\ dnlink d' = dnlink d /\ dsize d' = dsize d.

Lemma node_root v ad k : node v ad (k, []) = nth k ad 0.
Proof. done. Qed.

(** Addresses of blocks in the tree fit a word. *)
Lemma node_small s ad m g data p : appending s ad m g data -> valid_pos p -> 0 <= node (img s) ad p < FSSIZE.
Proof.
  intros Hap Vp. pose proof (ap_low _ _ _ _ _ Hap). assert (nmeta = 68) as EM by done.
  destruct (decide (node (img s) ad p = 0)) as [->|Hn]; [done|].
  pose proof (mt_range _ _ _ _ _ (ap_tree _ _ _ _ _ Hap) p Vp Hn). lia.
Qed.

Lemma addr_small s d m g data k : appending s (daddrs d) m g data -> (k <= NDIRECT + 2)%nat -> xint (addr d k) = addr d k /\ 0 <= addr d k < FSSIZE.
Proof.
  intros Hap Hk. pose proof (node_small _ _ _ _ _ (k, []) Hap (valid_root k Hk)) as Hn. rewrite node_root in Hn.
  split; [|done]. apply xint_id. unfold FSSIZE, addr in *. lia.
Qed.

(** The blocks of the file come in order: [fbn] is the last one there is, or the next. *)
Definition in_order (m fbn : Z) : Prop := fbn = m \/ (fbn = m - 1 /\ 0 <= fbn).

Lemma runs_indirect_block s d m data fbn (Q : Z -> mkfs -> Prop) :
  appending s (daddrs d) m true data -> 10 <= m -> 10 <= fbn < 138 -> in_order m fbn ->
  let m' := Z.max m (fbn + 1) in freeblock s + (m' - m) <= FSSIZE ->
  (forall s', appending s' (daddrs d) m' true data -> touches s (daddrs d) s' (daddrs d) -> freeblock s' = freeblock s + (m' - m) ->
     node (img s') (daddrs d) (bpath fbn) <> 0 -> Q (node (img s') (daddrs d) (bpath fbn)) s') ->
  runs (indirect_block d fbn) Q s.
Proof.
  intros Hap Hm Hfbn Hord m' Hroom HQ. assert (nmeta = 68) as EM by done. assert (FSSIZE = 40000) as EF by done.
  pose proof (ap_tree _ _ _ _ _ Hap) as Ht. pose proof (ap_low _ _ _ _ _ Hap) as Hlow.
  assert (bpath fbn = (NDIRECT, [fbn - 10])) as Eb by (rewrite small_bpath by lia; by rewrite decide_False by lia).
  destruct (bpath_valid fbn) as [Vb Lb]; [levels; lia|].
  assert (addr d NDIRECT <> 0) as Hi by (by apply (mt_ind _ _ _ _ _ Ht)).
  destruct (addr_small _ _ _ _ _ NDIRECT Hap ltac:(lia)) as [Ex Hr].
  assert (node (img s) (daddrs d) (bpath fbn) = get32 (img s (addr d NDIRECT)) (4 * Z.to_nat (fbn - 10))) as En.
  { rewrite Eb. change [fbn - 10] with ([] ++ [fbn - 10]). rewrite node_snoc. unfold entry. rewrite node_root.
    change (nth NDIRECT (daddrs d) 0) with (addr d NDIRECT). by rewrite decide_False. }
  unfold indirect_block. rewrite !Ex. apply runs_bind, runs_rsect; [apply Hap | lia|].
  change (Z.of_nat NDIRECT) with 10. rewrite decide_False by (levels; lia). rewrite <- En.
  pose proof (mt_data _ _ _ _ _ Ht fbn ltac:(lia)) as Hdata.
  destruct (decide (node (img s) (daddrs d) (bpath fbn) = 0)) as [E0|E0].
  - assert (fbn = m) as -> by (destruct Hord as [|[-> _]]; [done|]; exfalso; apply Hdata; [lia | done]).
    assert (m' = m + 1) as Em by (unfold m'; lia). rewrite Em in *.
    apply runs_bind, runs_next_block; [lia|]. rewrite xint_id by lia.
    apply runs_bind, runs_wsect; [apply Hap | lia|]. apply runs_ret. cbn [img nsect freeinode freeblock].
    assert (length (img s (addr d NDIRECT)) = BSIZE) as Hlen by (apply (ap_full _ _ _ _ _ Hap); lia).
    assert (valid_pos (NDIRECT, [m - 10])) as Vc by (by rewrite <- Eb).
    pose proof (put_child (img s) _ _ _ _ NDIRECT (m - 10) (freeblock s) Ht Vc Hi) as Ha. cbv zeta in Ha. rewrite node_root in Ha.
    change (nth NDIRECT (daddrs d) 0) with (addr d NDIRECT) in Ha.
    specialize (Ha ltac:(lia) Hlen ltac:(apply (ap_zero _ _ _ _ _ Hap); lia)).
    rewrite get32_put32_eq by (rewrite ?Hlen; unfold is_uint, BSIZE; lia). rewrite xint_id by lia.
    assert (forall ix i, (NDIRECT, [m - 10]).2 = ix ++ [i] -> node (img s) (daddrs d) ((NDIRECT, [m - 10]).1, ix) <> 0) as Hpar.
    { intros [|x [|]] i [= E]; exact Hi. }
    rewrite Eb in E0. pose proof (added_node _ _ _ _ _ _ (NDIRECT, [m - 10]) Ha E0 Hpar Vc) as Enew. rewrite decide_True in Enew by done.
    set (v' := upd _ _ _) in *.
    destruct (appending_added s (daddrs d) m true data (NDIRECT, [m - 10]) v' (daddrs d) (m + 1) true Hap ltac:(lia) ltac:(lia)) as [HA HT]; try done.
    + left. split_and!; [done | lia | done | done].
    + intros b. destruct (decide (b = addr d NDIRECT)) as [->|Hne]; [right | left; by apply upd_ne].
      split; [split; [done|]; exists (NDIRECT, []); split; [by apply valid_root; lia | done]|]. unfold v'. by rewrite upd_eq, length_put32.
    + intros q Vq Lq Hq. apply upd_ne. intros E. assert (q = (NDIRECT, [])) as ->; [|by unfold leaf in Lq].
      apply (mt_inj _ _ _ _ _ Ht); [done | by apply valid_root; lia | done | done].
    + specialize (HQ _ HA HT ltac:(cbn [freeblock]; lia)). rewrite Eb in HQ. cbn [img] in HQ.
      replace (node _ _ (NDIRECT, [m - 10])) with (freeblock s) in HQ by (symmetry; exact Enew). apply HQ. lia.
  - apply runs_ret. assert (m' = m) as Em by (unfold m'; pose proof (proj1 Hdata E0); lia). rewrite Em in *.
    pose proof (node_small _ _ _ _ _ _ Hap Vb). rewrite xint_id by lia. apply HQ; [done | apply touches_refl | lia | done].
Qed.

Lemma gof_true m : gof m = true <-> 10 < m.
Proof. apply bool_decide_eq_true. Qed.

Lemma runs_file_block s d m data fbn (Q : dinode * Z -> mkfs -> Prop) :
  appending s (daddrs d) m (gof m) data -> 0 <= m -> 0 <= fbn < 138 -> in_order m fbn ->
  let m' := Z.max m (fbn + 1) in freeblock s + (blocks m' - blocks m) <= FSSIZE ->
  (forall d' s', same_meta d d' -> appending s' (daddrs d') m' (gof m') data -> touches s (daddrs d) s' (daddrs d') ->
     freeblock s' = freeblock s + (blocks m' - blocks m) -> node (img s') (daddrs d') (bpath fbn) <> 0 ->
     Q (d', node (img s') (daddrs d') (bpath fbn)) s') ->
  runs (file_block d fbn) Q s.
Proof.
  intros Hap Hm Hfbn Hord m' Hroom HQ. assert (nmeta = 68) as EM by done. assert (FSSIZE = 40000) as EF by done.
  pose proof (ap_tree _ _ _ _ _ Hap) as Ht. pose proof (ap_low _ _ _ _ _ Hap) as Hlow.
  pose proof (mt_data _ _ _ _ _ Ht fbn ltac:(lia)) as Hdata. unfold file_block. change (Z.of_nat NDIRECT) with 10.
  destruct (decide (fbn < 10)) as [Hd|Hd].
  - pose proof (small_bpath fbn ltac:(lia)) as Eb. rewrite decide_True in Eb by done. rewrite Eb in *. rewrite node_root in Hdata.
    assert (Z.to_nat fbn <= NDIRECT + 2)%nat as Hk by (change NDIRECT with 10%nat; lia).
    assert (forall d' s', same_meta d d' -> appending s' (daddrs d') m' (gof m') data -> touches s (daddrs d) s' (daddrs d') ->
      freeblock s' = freeblock s + (blocks m' - blocks m) -> addr d' (Z.to_nat fbn) <> 0 -> Q (d', xint (addr d' (Z.to_nat fbn))) s') as Hend.
    { intros d' s' H1 H2 H3 H4 H5. destruct (addr_small _ _ _ _ _ (Z.to_nat fbn) H2 Hk) as [-> _]. by apply HQ. }
    apply runs_bind. destruct (decide (addr d (Z.to_nat fbn) = 0)) as [E0|E0].
    + assert (fbn = m) as <- by (destruct Hord as [|[-> _]]; [done|]; exfalso; apply Hdata; [lia | done]).
      assert (m' = fbn + 1) as Em by (unfold m'; lia). rewrite Em in *. unfold blocks in *. rewrite !decide_False in * by lia.
      eapply (runs_slot_new s d fbn (gof fbn) data (Z.to_nat fbn) (fbn + 1)); [done | lia | done | | done | done|].
      { left. split_and!; [by rewrite small_bpath, decide_True by lia | lia | done | reflexivity]. }
      intros s' d' HA HT Hfb _. apply runs_ret, Hend; [done | | done | lia |].
      * replace (gof (fbn + 1)) with (gof fbn); [done|]. unfold gof. rewrite !bool_decide_eq_false_2 by lia. done.
      * unfold addr, d'. simpl. rewrite nth_lookup, list_lookup_insert_eq; [simpl; lia|]. rewrite (mt_len _ _ _ _ _ Ht). lia.
    + assert (m' = m) as Em by (unfold m'; pose proof (proj1 Hdata E0); lia). rewrite Em in *.
      destruct (addr_small _ _ _ _ _ (Z.to_nat fbn) Hap Hk) as [_ Hr].
      apply runs_slot_old; [lia | done|]. apply runs_ret, Hend; [done | done | apply touches_refl | lia | done].
  - apply runs_bind. pose proof (mt_ind _ _ _ _ _ Ht) as Hind. rewrite gof_true in Hind.
    assert (forall d1 s1, same_meta d d1 -> appending s1 (daddrs d1) m true data -> touches s (daddrs d) s1 (daddrs d1) ->
      freeblock s1 + (m' - m) = freeblock s + (blocks m' - blocks m) ->
      runs (let! x := indirect_block d1 fbn in ret (d1, x)) Q s1) as Hend.
    { intros d1 s1 H1 H2 H3 H4. apply runs_bind.
      apply (runs_indirect_block s1 d1 m data fbn); [done | destruct Hord; lia | lia | done | fold m'; lia|]. fold m'.
      intros s2 HA HT Hfb Hn. apply runs_ret. apply HQ; [done | | by eapply touches_trans | lia | done].
      replace (gof m') with true; [done|]. symmetry. apply gof_true. unfold m'. lia. }
    destruct (decide (m = 10)) as [E10|E10].
    + assert (fbn = m) as Ef by (destruct Hord; lia). assert (m' = m + 1) as Em by (unfold m'; lia). clearbody m'. subst m' fbn m. unfold blocks in *.
      rewrite !decide_True in * by lia. rewrite (decide_False (P := 10 < 10)) in * by lia.
      eapply (runs_slot_new s d 10 (gof 10) data NDIRECT 10 true); [done | lia | lia | by right | lia | |].
      { apply dec_stable. intros Hne. apply Hind in Hne. lia. }
      intros s1 d1 HA HT Hfb _. apply Hend; [done | done | done | lia].
    + assert (10 < m) as Hgt by (destruct Hord; lia). assert (addr d NDIRECT <> 0) as Hne by (by apply Hind).
      destruct (addr_small _ _ _ _ _ NDIRECT Hap ltac:(lia)) as [_ Hr]. apply runs_slot_old; [lia | done|].
      apply Hend; [done | | apply touches_refl |].
      * by rewrite <- (proj2 (gof_true m) Hgt).
      * unfold blocks. rewrite !decide_True by (unfold m'; lia). lia.
Qed.

(** *** The loop *)

Lemma data_blocks_step off n1 : 0 <= off -> 0 < n1 -> off mod 512 + n1 <= 512 ->
  data_blocks (off + n1) = Z.max (data_blocks off) (off / 512 + 1) /\ in_order (data_blocks off) (off / 512).
Proof. unfold data_blocks, in_order. intros. Z.to_euclidean_division_equations. lia. Qed.

Lemma blocks_mono m m' : m <= m' -> blocks m <= blocks m'.
Proof. unfold blocks. intros. repeat case_decide; lia. Qed.

Lemma data_blocks_mono n n' : n <= n' -> data_blocks n <= data_blocks n'.
Proof. intros. unfold data_blocks. apply Z.div_le_mono; lia. Qed.

Lemma nth_app_cases (l r : list Z) o : 0 <= o ->
  nth (Z.to_nat o) (l ++ r) 0 = if decide (Z.of_nat (length l) <= o < Z.of_nat (length l) + Z.of_nat (length r)) then nth (Z.to_nat (o - Z.of_nat (length l))) r 0
    else nth (Z.to_nat o) l 0.
Proof.
  intros Ho. case_decide as Hd.
  - rewrite app_nth2 by lia. f_equal. lia.
  - destruct (decide (o < Z.of_nat (length l))); [by rewrite app_nth1 by lia|]. rewrite !nth_overflow; rewrite ?length_app; lia || done.
Qed.

(** Copying into a block of the file. *)
Lemma appending_write s ad m g data src :
  appending s ad m g data -> let off := Z.of_nat (length data) in
  off < MAXDATA -> off mod 512 + Z.of_nat (length src) <= 512 -> node (img s) ad (bpath (off / 512)) <> 0 ->
  let x := node (img s) ad (bpath (off / 512)) in
  let s' := MkM (upd (img s) x (blit (Z.to_nat (off mod 512)) src (img s x))) (nsect s) (freeinode s) (freeblock s) in
  appending s' ad m g (data ++ src) /\ touches s ad s' ad.
Proof.
  intros Hap off Hoff Hfit Hn x s'. unfold MAXDATA in Hoff. assert (in_file off) as Hin by (unfold in_file; levels; change BS with 512; lia).
  destruct (bpath_valid _ (in_file_block off Hin)) as [Vb Lb]. change BS with 512 in Vb, Lb.
  assert (nmeta = 68) as EM by done. assert (FSSIZE = 40000) as EF by done. pose proof Hap as [P1 P2 P3 P4 Ht P6].
  pose proof (mt_range _ _ _ _ _ Ht _ Vb Hn) as Hr. pose proof (mt_inj _ _ _ _ _ Ht) as Hinj. fold x in Hr.
  assert (length (img s x) = BSIZE) as Hlen by (apply P2; lia).
  set (d := blit _ _ _) in s'. pose proof (fun p => wr_node (img s) ad _ d Hinj Vb Lb p) as Hnode. fold x in Hnode.
  split; split; simpl; try done.
  - intros b Hb. destruct (decide (b = x)) as [->|]; [|by rewrite upd_ne; auto]. rewrite upd_eq. unfold d. rewrite length_blit; [done|].
    rewrite Hlen. unfold BSIZE. pose proof (Z.mod_pos_bound off 512 eq_refl). lia.
  - intros b Hb. rewrite upd_ne by lia. by apply P4.
  - destruct Ht as [T1 T2 T3 T4 T5 T6]. split; try done.
    + intros p Vp. rewrite Hnode by done. by apply T2.
    + intros p q Vp Vq. rewrite !Hnode by done. by apply T3.
    + intros bn Hbn. destruct (bpath_valid bn) as [Vn _]; [levels; lia|]. rewrite Hnode by done. by apply T4.
  - intros o Ho. unfold d, x. rewrite (wr_chunk (img s) ad _ _ Hinj Vb Lb Hn off src) by done.
    rewrite nth_app_cases by (destruct Ho; lia). fold off. case_decide; [done|]. by apply P6.
  - intros b Hb Hno. apply upd_ne. intros ->. apply Hno. split; [done|]. by exists (bpath (off / 512)).
  - intros b (Hb & q & Vq & Hq). left. rewrite Hnode in Hq by done. split; [done|]. by exists q.
Qed.

Lemma iappend_loop_runs fuel : forall s d p data (Q : dinode * Z -> mkfs -> Prop),
  let off := Z.of_nat (length data) in let m := data_blocks off in
  let off' := off + Z.of_nat (length p) in let m' := data_blocks off' in
  appending s (daddrs d) m (gof m) data -> off' <= MAXDATA -> freeblock s + (blocks m' - blocks m) <= FSSIZE -> (length p < fuel)%nat ->
  (forall d' s', same_meta d d' -> appending s' (daddrs d') m' (gof m') (data ++ p) -> touches s (daddrs d) s' (daddrs d') ->
     freeblock s' = freeblock s + (blocks m' - blocks m) -> Q (d', off') s') ->
  runs (iappend_loop fuel d off p) Q s.
Proof.
  induction fuel as [|fuel IH]; intros s d p data Q off m off' m' Hap Hmax Hroom Hf HQ; [lia|]. cbn [iappend_loop].
  assert (nmeta = 68) as EM by done. assert (FSSIZE = 40000) as EF by done. unfold MAXDATA in Hmax.
  case_decide as Hp.
  2:{ assert (p = []) as -> by (apply length_zero_iff_nil; lia). apply runs_ret.
      assert (off' = off) as E by (unfold off'; simpl; lia). unfold m' in *. rewrite E in *.
      apply HQ; [done | by rewrite app_nil_r | apply touches_refl | unfold m; lia]. }
  change BS with 512. set (fbn := off / 512) in *. set (n1 := Z.min _ _).
  pose proof (Z.mod_pos_bound off 512 eq_refl) as Hob. pose proof (Z.div_mod off 512) as Eo. fold fbn in Eo.
  assert (0 < n1 <= Z.of_nat (length p) /\ off mod 512 + n1 <= 512) as (Hn1 & Hfit) by (unfold n1; lia).
  destruct (data_blocks_step off n1) as [Em Hord]; [lia | lia | lia|]. fold fbn m in Em, Hord.
  assert (0 <= fbn < 138) as Hfbn by lia.
  unfold assert_. rewrite decide_True by (levels; lia). apply runs_bind, runs_ret, runs_bind.
  assert (blocks (data_blocks (off + n1)) <= blocks m') as Hle by (apply blocks_mono, data_blocks_mono; unfold off'; lia).
  apply (runs_file_block s d m data fbn); [done | unfold m, data_blocks; apply Z.div_pos; lia | done | done | rewrite <- Em; lia|].
  rewrite <- Em. intros d1 s1 Hd1 Hap1 Ht1 Hf1 Hn. cbn [fst snd]. set (x := node _ _ _) in *.
  assert (0 <= x < FSSIZE) as Hx by (eapply node_small; [exact Hap1 | apply bpath_valid; levels; lia]).
  apply runs_bind, runs_rsect; [apply Hap1 | done|]. apply runs_bind, runs_wsect; [apply Hap1 | done|].
  replace (off - fbn * 512) with (off mod 512) by lia. set (src := take (Z.to_nat n1) p).
  assert (Z.of_nat (length src) = n1) as Hls by (unfold src; rewrite length_take; lia).
  destruct (appending_write s1 (daddrs d1) _ _ data src Hap1) as [HA HT]; [unfold MAXDATA; fold off; lia | fold off; lia | done|].
  fold off fbn x in HA, HT. set (s2 := MkM _ _ _ _) in *.
  assert (Z.of_nat (length (data ++ src)) = off + n1) as Hl2 by (rewrite length_app; lia). rewrite <- Hl2.
  assert (Z.of_nat (length (data ++ src)) + Z.of_nat (length (drop (Z.to_nat n1) p)) = off') as Hl3 by (rewrite Hl2, length_drop; unfold off'; lia).
  apply IH; rewrite ?Hl3, ?Hl2; [done | done | simpl; rewrite Hf1; fold m'; lia | rewrite length_drop; lia|].
  intros d' s' Hd' Hap' Ht' Hf'. fold m' in Hap', Hf'. apply HQ.
  - unfold same_meta in *. naive_solver congruence.
  - rewrite <- app_assoc in Hap'. unfold src in Hap'. by rewrite take_drop in Hap'.
  - eapply touches_trans; [exact Ht1|]. by eapply touches_trans.
  - simpl in Hf'. lia.
Qed.

(** One byte more than ten direct blocks and an indirect block hold: the test against
    [MAXFILE] passes, and the array [indirect] is read behind its end. *)
Lemma iappend_overflow fuel s d data p : length data = Z.to_nat MAXDATA -> appending s (daddrs d) 138 (gof 138) data -> p <> [] ->
  iappend_loop (S fuel) d MAXDATA p s = Stop Undefined s.
Proof.
  intros Hl Hap Hp. cbn [iappend_loop]. rewrite decide_True by (destruct p; [done | simpl; lia]).
  change (MAXDATA / BS) with 138. unfold assert_. rewrite decide_True by done. unfold bind at 1, ret at 1, bind at 1. unfold file_block.
  change (Z.of_nat NDIRECT) with 10. rewrite decide_False by lia. pose proof (ap_tree _ _ _ _ _ Hap) as Ht.
  assert (addr d NDIRECT <> 0) as Hi by (by apply (mt_ind _ _ _ _ _ Ht)). destruct (addr_small _ _ _ _ _ NDIRECT Hap ltac:(lia)) as [Ex Hr].
  unfold bind at 1, slot. rewrite Ex, decide_False by done. unfold ret at 1, bind at 1, indirect_block, bind at 1, rsect.
  rewrite Ex, (ap_sect _ _ _ _ _ Hap), decide_True by done. change (Z.of_nat NDIRECT) with 10. by rewrite decide_True.
Qed.
