(* ===== verification/MkfsProps.v ===== *)
(** The image mkfs makes: the invariant of the program over all its files, and the theorem
    that the kernel's file system finds there the files mkfs was given. *)

From S2P Require Import Prelude Bytes CString BlockCache BlockClient FsLayout.
From S2P Require Import Log LogDisk LogRun LogTxn Fs FsPure FsRun FsBlocks FsTree Mkfs MkfsImage.
Import Mkfs.

#[local] Arguments Nat.add : simpl never.
#[local] Arguments Nat.mul : simpl never.
#[local] Arguments Z.add : simpl never.
#[local] Arguments Z.mul : simpl never.

Lemma zero_inode n o : dtype (decode_dinode (replicate n 0) o) = 0.
Proof. unfold decode_dinode. cbn [dtype]. unfold get16. by rewrite !byte_zeros. Qed.

#[local] Opaque encode_dinode decode_dinode.

(** ** Inodes *)

Definition inode_at (v : Z -> list Z) (i : Z) : dinode := decode_dinode (v (IBLOCK i sb)) (inode_off i).
Definition addrs_of (v : Z -> list Z) (i : Z) : list Z := daddrs (inode_at v i).
Definition inode_of (ty n : Z) (ad : list Z) : dinode := MkDinode ty 0 0 1 n ad.

(** The inode blocks hold this many inodes. *)
Notation NI := 208 (only parsing).

Lemma iblock_range i : 0 <= i < NI -> 32 <= IBLOCK i sb < 58.
Proof. intros Hi. unfold IBLOCK. change IPB with 8. change (inodestart sb) with 32. Z.to_euclidean_division_equations. lia. Qed.

Lemma inode_slots i j : 0 <= i < NI -> 0 <= j < NI -> i <> j -> IBLOCK i sb = IBLOCK j sb ->
  (inode_off i + 64 <= inode_off j \/ inode_off j + 64 <= inode_off i)%nat.
Proof.
  unfold IBLOCK, inode_off, sizeof_dinode. change IPB with 8. intros Hi Hj Hne E.
  assert (i mod 8 < j mod 8 \/ j mod 8 < i mod 8) as Hm by (Z.to_euclidean_division_equations; lia).
  pose proof (Z.mod_pos_bound i 8 eq_refl). pose proof (Z.mod_pos_bound j 8 eq_refl). lia.
Qed.

Lemma inode_fits i : (inode_off i + 64 <= BSIZE)%nat.
Proof.
  unfold inode_off, sizeof_dinode, BSIZE. change IPB with 8. pose proof (Z.mod_pos_bound i 8 eq_refl). lia.
Qed.

Definition put_inode (i : Z) (d : dinode) (v : Z -> list Z) : Z -> list Z :=
  upd v (IBLOCK i sb) (encode_dinode (inode_off i) d (v (IBLOCK i sb))).

Lemma inode_at_put v i d j : dinode_ok d -> 0 <= i < NI -> 0 <= j < NI -> length (v (IBLOCK i sb)) = BSIZE ->
  inode_at (put_inode i d v) j = if decide (j = i) then d else inode_at v j.
Proof.
  intros Hd Hi Hj Hl. unfold inode_at, put_inode. destruct (decide (j = i)) as [->|Hne].
  - rewrite upd_eq. apply encode_dinode_eq; [done|]. rewrite Hl. apply inode_fits.
  - destruct (decide (IBLOCK j sb = IBLOCK i sb)) as [E|E]; [|by rewrite upd_ne].
    rewrite E, upd_eq. apply encode_dinode_ne. by apply inode_slots.
Qed.

Lemma runs_winode s i d (Q : unit -> mkfs -> Prop) : nsect s = FSSIZE -> 0 <= i < NI ->
  Q tt (MkM (put_inode i d (img s)) (nsect s) (freeinode s) (freeblock s)) -> runs (winode i d) Q s.
Proof.
  intros Hn Hi HQ. pose proof (iblock_range i Hi) as Hb. unfold winode.
  apply runs_bind, runs_rsect; [done | unfold FSSIZE; lia|]. apply runs_wsect; [done | unfold FSSIZE; lia | exact HQ].
Qed.

Lemma runs_rinode s i (Q : dinode -> mkfs -> Prop) : nsect s = FSSIZE -> 0 <= i < NI -> Q (inode_at (img s) i) s -> runs (rinode i) Q s.
Proof.
  intros Hn Hi HQ. pose proof (iblock_range i Hi) as Hb. unfold rinode.
  apply runs_bind, runs_rsect; [done | unfold FSSIZE; lia|]. by apply runs_ret.
Qed.

(** ** The files of an image *)

(** Kinds and contents of the files, in the order of their inode numbers, from 1. *)
Notation files := (list (Z * list Z)) (only parsing).

Definition total (fs : files) : Z := foldr (fun f n => file_blocks (Z.of_nat (length f.2)) + n) 0 fs.

(** They fit the disk the way mkfs fills it. *)
Record fits (fs : files) : Prop := {
  ft_count : Z.of_nat (length fs) < NINODES;
  ft_data : Forall (fun f => Z.of_nat (length f.2) <= MAXDATA) fs;
  ft_total : nmeta + total fs < 4096
}.

(** Each file of [fs] is in [fs'], perhaps longer. *)
Definition shorter (fs fs' : files) : Prop :=
  forall k ty data, fs !! k = Some (ty, data) -> exists data', fs' !! k = Some (ty, data') /\ (length data <= length data')%nat.

#[global] Instance shorter_preorder : PreOrder shorter.
Proof.
  split; [intros fs k ty data Hk; eauto|]. intros a b c H1 H2 k ty data Hk.
  destruct (H1 _ _ _ Hk) as (d1 & Hk1 & L1). destruct (H2 _ _ _ Hk1) as (d2 & Hk2 & L2). exists d2. split; [done | lia].
Qed.

Lemma shorter_cons_inv f fs fs' : shorter (f :: fs) fs' -> exists f' r', fs' = f' :: r' /\ (length f.2 <= length f'.2)%nat /\ shorter fs r'.
Proof.
  intros Hs. destruct f as [ty data]. destruct (Hs 0%nat ty data eq_refl) as (data' & Hk & Hl).
  destruct fs' as [|f' r']; [done|]. simpl in Hk. injection Hk as ->. exists (ty, data'), r'. split_and!; [done | done|].
  intros k. apply (Hs (S k)).
Qed.

Lemma file_blocks_mono n n' : n <= n' -> file_blocks n <= file_blocks n'.
Proof. intros Hn. exact (blocks_mono _ _ (data_blocks_mono _ _ Hn)). Qed.

Lemma file_blocks_nonneg n : 0 <= n -> 0 <= file_blocks n.
Proof. intros Hn. unfold file_blocks, data_blocks. case_decide; Z.to_euclidean_division_equations; lia. Qed.

Lemma total_nonneg fs : 0 <= total fs.
Proof. induction fs as [|f fs IH]; simpl; [done|]. pose proof (file_blocks_nonneg (Z.of_nat (length f.2)) ltac:(lia)). lia. Qed.

Lemma total_mono fs : forall fs', shorter fs fs' -> total fs <= total fs'.
Proof.
  induction fs as [|f fs IH]; intros fs' Hs; [apply total_nonneg|].
  destruct (shorter_cons_inv _ _ _ Hs) as (f' & r' & -> & Hl & Hr). simpl. specialize (IH _ Hr).
  pose proof (file_blocks_mono (Z.of_nat (length f.2)) (Z.of_nat (length f'.2)) ltac:(lia)). lia.
Qed.

Lemma total_app fs fs' : total (fs ++ fs') = total fs + total fs'.
Proof. induction fs as [|f fs IH]; simpl; [done|]. rewrite IH. lia. Qed.

Lemma total_insert fs : forall k f g, fs !! k = Some f -> total (<[k := g]> fs) =
  total fs + (file_blocks (Z.of_nat (length g.2)) - file_blocks (Z.of_nat (length f.2))).
Proof.
  induction fs as [|x fs IH]; intros [|k] f g Hk; simpl in *; try done; [injection Hk as ->; lia|]. rewrite (IH k f g Hk). lia.
Qed.

Lemma shorter_length fs fs' : shorter fs fs' -> (length fs <= length fs')%nat.
Proof.
  revert fs'. induction fs as [|f fs IH]; intros fs' Hs; simpl; [lia|].
  destruct (shorter_cons_inv _ _ _ Hs) as (f' & r' & -> & _ & Hr). specialize (IH _ Hr). simpl. lia.
Qed.

Lemma fits_shorter fs fs' : shorter fs fs' -> fits fs' -> fits fs.
Proof.
  intros Hs [F1 F2 F3]. split.
  - pose proof (shorter_length _ _ Hs). lia.
  - apply Forall_lookup. intros k [ty data] Hk. destruct (Hs _ _ _ Hk) as (data' & Hk' & Hl). simpl.
    pose proof (Forall_lookup_1 _ _ _ _ F2 Hk') as Hm. simpl in Hm. lia.
  - pose proof (total_mono _ _ Hs). lia.
Qed.

Lemma shorter_insert fs k ty data p : fs !! k = Some (ty, data) -> shorter fs (<[k := (ty, data ++ p)]> fs).
Proof.
  intros Hk j ty' data' Hj. destruct (decide (k = j)) as [<-|Hne].
  - rewrite Hk in Hj. injection Hj as <- <-. rewrite list_lookup_insert_eq by (by eapply lookup_lt_Some). eexists. split; [done|]. rewrite length_app. lia.
  - rewrite list_lookup_insert_ne by done. eauto.
Qed.

Lemma shorter_app fs fs' : shorter fs (fs ++ fs').
Proof. intros k ty data Hk. exists data. split; [by apply lookup_app_l_Some | done]. Qed.

(** File [i] of the image, when all blocks in use are below [hi]. *)
Record file_at (v : Z -> list Z) (hi i ty : Z) (data : list Z) : Prop := {
  fa_inode : inode_at v i = inode_of ty (Z.of_nat (length data)) (addrs_of v i);
  fa_tree : let m := data_blocks (Z.of_nat (length data)) in mtree v hi (addrs_of v i) m (gof m);
  fa_data : forall o, in_file o -> content v (addrs_of v i) o = nth (Z.to_nat o) data 0
}.

(** The image at any time after the super block was written: it holds the files [fs]. *)
Record image (s : mkfs) (fs : files) : Prop := {
  im_sect : nsect s = FSSIZE;
  im_full : forall b, 0 <= b < FSSIZE -> length (img s b) = BSIZE;
  im_low : freeblock s = nmeta + total fs;
  im_zero : forall b, freeblock s <= b < FSSIZE -> img s b = replicate BSIZE 0;
  im_next : freeinode s = Z.of_nat (length fs) + 1;
  im_files : forall k ty data, fs !! k = Some (ty, data) -> file_at (img s) (freeblock s) (Z.of_nat k + 1) ty data;
  im_apart : forall i j b, 1 <= i <= Z.of_nat (length fs) -> 1 <= j <= Z.of_nat (length fs) -> i <> j ->
    owned (img s) (addrs_of (img s) i) b -> owned (img s) (addrs_of (img s) j) b -> False;
  im_unused : forall i, 0 <= i < NI -> ~ (1 <= i <= Z.of_nat (length fs)) -> dtype (inode_at (img s) i) = 0;
  im_super : forall b, 0 <= b < nmeta -> ~ (32 <= b < 58) -> img s b = if decide (b = 1) then sb_block else replicate BSIZE 0
}.

Lemma owned_data v hi ad m g b : mtree v hi ad m g -> owned v ad b -> nmeta <= b < hi.
Proof. intros Ht (Hb & p & Vp & <-). by apply (mt_range _ _ _ _ _ Ht). Qed.

Lemma file_frame v v' hi hi' i ty data : file_at v hi i ty data -> hi <= hi' -> inode_at v' i = inode_at v i ->
  (forall b, owned v (addrs_of v i) b -> v' b = v b) -> file_at v' hi' i ty data.
Proof.
  intros [F1 F2 F3] Hhi Ei Hv. assert (addrs_of v' i = addrs_of v i) as Ea by (unfold addrs_of; by rewrite Ei).
  split; rewrite Ea; [congruence | by eapply mtree_frame|]. intros o Ho. rewrite content_frame with (v := v); [by apply F3 | done | done].
Qed.

Lemma put_data i d v b : 0 <= i < NI -> 68 <= b -> put_inode i d v b = v b.
Proof. intros Hi Hb. apply upd_ne. pose proof (iblock_range i Hi). lia. Qed.

Lemma node_empty v p : node v (replicate 13 0) p = 0.
Proof.
  unfold node. assert (nth p.1 (replicate 13 0) 0 = 0) as ->.
  { rewrite nth_lookup. destruct (_ !! p.1) eqn:E; [|done]. by apply lookup_replicate in E as [-> _]. }
  induction p.2 as [|j l IH]; [done|]. simpl. exact IH.
Qed.

Lemma empty_tree v hi : mtree v hi (replicate 13 0) 0 (gof 0).
Proof. split; try done; intros; rewrite ?node_empty in *; done || (split; [done | lia]). Qed.

Lemma inode_ok v hi ty n ad m g : is_short ty -> 0 <= n <= MAXDATA -> hi <= FSSIZE -> mtree v hi ad m g -> dinode_ok (inode_of ty n ad).
Proof.
  intros Hty Hn Hhi Ht. unfold MAXDATA in Hn. split; simpl; try done; [unfold is_uint; lia | apply Ht|].
  apply Forall_lookup. intros k a Hk. pose proof (lookup_lt_Some _ _ _ Hk) as Hlt. rewrite (mt_len _ _ _ _ _ Ht) in Hlt.
  assert (node v ad (k, []) = a) as <- by (rewrite node_root, nth_lookup, Hk; done).
  destruct (decide (node v ad (k, []) = 0)) as [->|Hne]; [by unfold is_uint|].
  pose proof (mt_range _ _ _ _ _ Ht _ (valid_root k ltac:(lia)) Hne) as Hr. assert (nmeta = 68) as EM by done.
  unfold is_uint. unfold FSSIZE in Hhi. lia.
Qed.

(** ** Creating a file *)

Lemma fits_room fs : fits fs -> nmeta + total fs < 4096 /\ Z.of_nat (length fs) < 200.
Proof. by intros [F1 _ F3]. Qed.

Lemma ialloc_runs s fs ty : image s fs -> fits (fs ++ [(ty, [])]) -> 0 <= ty < 2 ^ 15 ->
  runs (ialloc ty) (fun i s' => i = Z.of_nat (length fs) + 1 /\ image s' (fs ++ [(ty, [])])) s.
Proof.
  intros [I1 I2 I3 I4 I5 I6 I7 I8 I9] Hfit Hty. destruct (fits_room _ Hfit) as [Htot Hcnt]. rewrite total_app in Htot. rewrite length_app in Hcnt. simpl in Htot, Hcnt.
  change (file_blocks 0) with 0 in Htot. assert (nmeta = 68) as EM by done. assert (FSSIZE = 40000) as EF by done.
  set (i := Z.of_nat (length fs) + 1) in *. assert (0 <= i < NI) as Hi by lia. unfold ialloc. rstep. rewrite I5. rstep. apply runs_bind, runs_winode; [done | done|]. cbn [img nsect freeinode freeblock].
  rewrite u32_small by lia. rewrite !xshort_id by lia. change (xint 0) with 0. fold (inode_of ty 0 (replicate (XDIRECT + 1) 0)).
  change (replicate (XDIRECT + 1) 0) with (replicate 13 0). set (d := inode_of _ _ _). apply runs_ret. split; [done|].
  assert (dinode_ok d) as Hd by (apply (inode_ok (img s) FSSIZE ty 0 (replicate 13 0) 0 (gof 0)); [unfold is_short; lia | unfold MAXDATA; lia | done | apply empty_tree]).
  pose proof (iblock_range i Hi) as Hib. assert (length (img s (IBLOCK i sb)) = BSIZE) as Hlen by (apply I2; lia).
  assert (forall j, 0 <= j < NI -> inode_at (put_inode i d (img s)) j = if decide (j = i) then d else inode_at (img s) j) as Hat.
  { intros j Hj. by apply inode_at_put. }
  set (v' := put_inode i d (img s)) in *.
  assert (forall j, 1 <= j <= Z.of_nat (length fs) -> addrs_of v' j = addrs_of (img s) j /\ (forall b, owned v' (addrs_of v' j) b <-> owned (img s) (addrs_of (img s) j) b)) as Hown.
  { intros j Hj. assert (addrs_of v' j = addrs_of (img s) j) as Ea by (unfold addrs_of; rewrite Hat, decide_False by lia; done). split; [done|].
    intros b. rewrite Ea. destruct (fs !! Z.to_nat (j - 1)) as [[ty' data]|] eqn:E; [|apply lookup_ge_None in E; lia].
    specialize (I6 _ _ _ E). replace (Z.of_nat (Z.to_nat (j - 1)) + 1) with j in I6 by lia. destruct I6 as [_ Ht _].
    apply owned_frame. intros b' Hb'. pose proof (owned_data _ _ _ _ _ _ Ht Hb'). apply put_data; [done | lia]. }
  assert (addrs_of v' i = replicate 13 0) as Ei by (unfold addrs_of; rewrite Hat, decide_True by lia; done).
  split; cbn [img nsect freeinode freeblock]; try done.
  - intros b Hb. unfold v', put_inode. destruct (decide (b = IBLOCK i sb)) as [->|]; [by rewrite upd_eq, length_encode_dinode | rewrite upd_ne by done; by apply I2].
  - rewrite total_app. change (total [(ty, [])]) with 0. lia.
  - intros b Hb. unfold v'. rewrite put_data; [by apply I4 | done | pose proof (total_nonneg fs); lia].
  - rewrite length_app. simpl. lia.
  - intros k ty' data Hk. apply lookup_app_Some in Hk as [Hk | [Hk1 Hk2]].
    + pose proof (lookup_lt_Some _ _ _ Hk) as Hlt. eapply file_frame; [by apply I6 | done | rewrite Hat, decide_False by lia; done|].
      intros b Hb. apply put_data; [done|]. pose proof (owned_data _ _ _ _ _ _ (fa_tree _ _ _ _ _ (I6 _ _ _ Hk)) Hb). lia.
    + destruct (k - length fs)%nat as [|n] eqn:En; [|by destruct n]. simpl in Hk2. injection Hk2 as <- <-.
      replace (Z.of_nat k + 1) with i by lia. split; rewrite ?Ei; [rewrite Hat, decide_True by lia; done | apply empty_tree|].
      intros o _. unfold content. rewrite node_empty. rewrite decide_True by done. by destruct (Z.to_nat o).
  - rewrite length_app. simpl. assert (forall b, ~ owned v' (addrs_of v' i) b) as Hno.
    { intros b (Hb & p & _ & Hp). rewrite Ei, node_empty in Hp. done. }
    intros j k b Hj Hk Hne Hoj Hok. destruct (decide (j = i)) as [->|]; [by apply (Hno b)|]. destruct (decide (k = i)) as [->|]; [by apply (Hno b)|].
    apply (I7 j k b); [lia | lia | done | apply Hown; [lia | done] | apply Hown; [lia | done]].
  - rewrite length_app. simpl. intros j Hj Hn. rewrite Hat, decide_False by lia. apply I8; [done | lia].
  - intros b Hb Hn. unfold v', put_inode. rewrite upd_ne by lia. by apply I9.
Qed.

(** ** Appending to a file of the image *)

Lemma image_appending s fs k ty data : image s fs -> fits fs -> fs !! k = Some (ty, data) ->
  let m := data_blocks (Z.of_nat (length data)) in appending s (addrs_of (img s) (Z.of_nat k + 1)) m (gof m) data.
Proof.
  intros Hi Hf Hk m. destruct (im_files _ _ Hi _ _ _ Hk) as [_ F2 F3]. destruct (fits_room _ Hf) as [Ht _].
  assert (nmeta = 68) as EM by done. assert (FSSIZE = 40000) as EF by done. pose proof (total_nonneg fs).
  split; [apply Hi | apply Hi | rewrite (im_low _ _ Hi); lia | apply Hi | done | done].
Qed.

(** The metadata outside the inode is untouched by an append. *)
Lemma touches_meta s fs k ty data s1 ad1 b : image s fs -> fs !! k = Some (ty, data) ->
  touches s (addrs_of (img s) (Z.of_nat k + 1)) s1 ad1 -> b < nmeta -> img s1 b = img s b.
Proof.
  intros Hi Hk Ht Hb. pose proof (total_nonneg fs). apply (to_img _ _ _ _ Ht); [rewrite (im_low _ _ Hi); lia|].
  intros Ho. pose proof (owned_data _ _ _ _ _ _ (fa_tree _ _ _ _ _ (im_files _ _ Hi _ _ _ Hk)) Ho). lia.
Qed.

Lemma index_file s fs j : image s fs -> 1 <= j <= Z.of_nat (length fs) -> exists ty data, fs !! Z.to_nat (j - 1) = Some (ty, data) /\
  file_at (img s) (freeblock s) j ty data.
Proof.
  intros Hi Hj. destruct (fs !! Z.to_nat (j - 1)) as [[ty data]|] eqn:E; [|apply lookup_ge_None in E; lia].
  exists ty, data. split; [done|]. pose proof (im_files _ _ Hi _ _ _ E) as Hf. by replace (Z.of_nat (Z.to_nat (j - 1)) + 1) with j in Hf by lia.
Qed.

(** The image after the blocks of file [k] grew and its inode was written. *)
Lemma image_append s fs k ty data p s1 ad1 : image s fs -> fs !! k = Some (ty, data) ->
  let fs' := <[k := (ty, data ++ p)]> fs in let m' := data_blocks (Z.of_nat (length (data ++ p))) in
  let i := Z.of_nat k + 1 in fits fs' -> 0 <= ty < 2 ^ 15 ->
  appending s1 ad1 m' (gof m') (data ++ p) -> touches s (addrs_of (img s) i) s1 ad1 -> freeblock s1 = nmeta + total fs' ->
  image (MkM (put_inode i (inode_of ty (Z.of_nat (length (data ++ p))) ad1) (img s1)) (nsect s1) (freeinode s1) (freeblock s1)) fs'.
Proof.
  intros Hi Hk fs' m' i Hfit Hty Hap Hto Hfb. pose proof (lookup_lt_Some _ _ _ Hk) as Hlt. pose proof Hap as [P1 P2 P3 P4 P5 P6].
  assert (nmeta = 68) as EM by done. assert (FSSIZE = 40000) as EF by done. destruct (fits_room _ Hfit) as [_ Hcnt].
  assert (length fs' = length fs) as Hl by apply length_insert. assert (0 <= i < NI) as Hir by lia. set (d := inode_of _ _ _).
  assert (fs' !! k = Some (ty, data ++ p)) as Hk' by (by apply list_lookup_insert_eq).
  assert (dinode_ok d) as Hd.
  { eapply (inode_ok (img s1)); [unfold is_short; lia | | apply P3 | exact P5]. pose proof (Forall_lookup_1 _ _ _ _ (ft_data _ Hfit) Hk'). simpl in *. lia. }
  pose proof (iblock_range i Hir) as Hib. assert (length (img s1 (IBLOCK i sb)) = BSIZE) as Hlen by (apply P2; lia).
  assert (forall j, 0 <= j < NI -> inode_at (put_inode i d (img s1)) j = if decide (j = i) then d else inode_at (img s) j) as Hat.
  { intros j Hj. rewrite inode_at_put by done. case_decide; [done|]. unfold inode_at. pose proof (iblock_range j Hj).
    by rewrite (touches_meta s fs k ty data s1 ad1) by (done || lia). }
  set (v' := put_inode i d (img s1)) in *.
  assert (addrs_of v' i = ad1) as Ei by (unfold addrs_of; rewrite Hat, decide_True by lia; done).
  assert (forall b, owned (img s1) ad1 b -> v' b = img s1 b) as Hvi.
  { intros b Hb. apply put_data; [done|]. pose proof (owned_data _ _ _ _ _ _ P5 Hb). lia. }
  assert (forall j, 1 <= j <= Z.of_nat (length fs) -> j <> i -> addrs_of v' j = addrs_of (img s) j /\
    (forall b, owned (img s) (addrs_of (img s) j) b -> v' b = img s b /\ b < freeblock s)) as Hoth.
  { intros j Hj Hne. split; [unfold addrs_of; by rewrite Hat, decide_False by lia|]. intros b Hb.
    destruct (index_file s fs j Hi Hj) as (ty' & data' & _ & Hf). pose proof (owned_data _ _ _ _ _ _ (fa_tree _ _ _ _ _ Hf) Hb) as Hr.
    split; [|lia]. unfold v'. rewrite put_data by lia. apply (to_img _ _ _ _ Hto); [lia|]. intros Ho.
    apply (im_apart _ _ Hi j i b); [lia | lia | done | done | done]. }
  split; cbn [img nsect freeinode freeblock]; rewrite ?Hl; try done.
  - intros b Hb. unfold v', put_inode. destruct (decide (b = IBLOCK i sb)) as [->|]; [by rewrite upd_eq, length_encode_dinode | rewrite upd_ne by done; by apply P2].
  - intros b Hb. unfold v'. rewrite put_data; [by apply P4 | done | lia].
  - rewrite (to_inode _ _ _ _ Hto). apply Hi.
  - intros j ty' data' Hj. destruct (decide (j = k)) as [->|Hne].
    + rewrite Hk' in Hj. injection Hj as <- <-. fold i. split; rewrite ?Ei; [rewrite Hat, decide_True by lia; done | by eapply mtree_frame|].
      intros o Ho. rewrite content_frame with (v := img s1) by done. by apply P6.
    + unfold fs' in Hj. rewrite list_lookup_insert_ne in Hj by done. pose proof (lookup_lt_Some _ _ _ Hj).
      destruct (Hoth (Z.of_nat j + 1)) as [Ea Hb]; [lia | lia|]. eapply file_frame; [by apply (im_files _ _ Hi) | apply Hto | rewrite Hat, decide_False by lia; done|].
      intros b Ho. by apply Hb.
  - assert (forall j b, 1 <= j <= Z.of_nat (length fs) -> j <> i -> owned v' (addrs_of v' i) b -> owned v' (addrs_of v' j) b -> False) as Hap1.
    { intros j b Hj Hne Hoi Hoj. destruct (Hoth j Hj Hne) as [Ea Hb]. rewrite Ea, owned_frame in Hoj by (intros; by apply Hb).
      rewrite Ei, owned_frame in Hoi by done. destruct (to_owned _ _ _ _ Hto b Hoi) as [Ho|Ho]; [|pose proof (proj2 (Hb b Hoj)); lia].
      apply (im_apart _ _ Hi i j b); [lia | lia | done | done | done]. }
    intros j l b Hj Hl2 Hne Hoj Hol. destruct (decide (j = i)) as [->|]; [by eapply (Hap1 l b)|]. destruct (decide (l = i)) as [->|]; [by eapply (Hap1 j b)|].
    destruct (Hoth j) as [Ea Hb]; [done | done|]. destruct (Hoth l) as [Ea2 Hb2]; [done | done|].
    rewrite Ea, owned_frame in Hoj by (intros; by apply Hb). rewrite Ea2, owned_frame in Hol by (intros; by apply Hb2). by apply (im_apart _ _ Hi j l b).
  - intros j Hj Hn. rewrite Hat, decide_False by lia. by apply (im_unused _ _ Hi).
  - intros b Hb Hn. unfold v', put_inode. rewrite upd_ne by lia. rewrite (touches_meta s fs k ty data s1 ad1) by (done || lia). by apply (im_super _ _ Hi).
Qed.

Lemma iappend_runs s fs k ty data p : image s fs -> fs !! k = Some (ty, data) -> 0 <= ty < 2 ^ 15 ->
  let fs' := <[k := (ty, data ++ p)]> fs in fits fs' ->
  runs (iappend (Z.of_nat k + 1) p) (fun _ s' => image s' fs') s.
Proof.
  intros Hi Hk Hty fs' Hfit. assert (fits fs) as Hf by (eapply fits_shorter; [by apply shorter_insert | done]).
  pose proof (lookup_lt_Some _ _ _ Hk) as Hlt. destruct (fits_room _ Hfit) as [Htot Hcnt]. unfold fs' in Hcnt. rewrite length_insert in Hcnt.
  destruct (im_files _ _ Hi _ _ _ Hk) as [F1 F2 F3]. set (i := Z.of_nat k + 1) in *. assert (nmeta = 68) as EM by done.
  assert (FSSIZE = 40000) as EF by done. assert (fs' !! k = Some (ty, data ++ p)) as Hk' by (by apply list_lookup_insert_eq).
  pose proof (Forall_lookup_1 _ _ _ _ (ft_data _ Hfit) Hk') as Hmax. simpl in Hmax.
  assert (nmeta + total fs' = freeblock s + (blocks (data_blocks (Z.of_nat (length (data ++ p)))) - blocks (data_blocks (Z.of_nat (length data))))) as Efb.
  { rewrite (im_low _ _ Hi). unfold fs'. rewrite (total_insert _ _ _ _ Hk). simpl. unfold file_blocks, blocks. lia. }
  unfold iappend. apply runs_bind, runs_rinode; [apply Hi | lia|]. rewrite F1. cbn [dsize inode_of]. unfold MAXDATA in Hmax. rewrite length_app in Hmax.
  rewrite xint_id by lia. apply runs_bind. rewrite length_app, Nat2Z.inj_add in Efb.
  apply iappend_loop_runs; cbn [daddrs inode_of]; [by apply (image_appending s fs k ty data) | unfold MAXDATA; lia | lia | lia|].
  intros d' s1 Hd Hap Hto Hfb. cbn [fst snd]. rewrite xint_id by lia. apply runs_winode; [apply Hap | lia|].
  assert (set_size (Z.of_nat (length data) + Z.of_nat (length p)) d' = inode_of ty (Z.of_nat (length (data ++ p))) (daddrs d')) as ->.
  { destruct Hd as (D1 & D2 & D3 & D4 & D5). unfold set_size, inode_of in *. simpl in *. rewrite D1, D2, D3, D4. f_equal. rewrite length_app. lia. }
  rewrite <- Nat2Z.inj_add, <- length_app in Hap. apply (image_append s fs k ty data p s1 (daddrs d')); [done | done | done | done | done | done | fold fs'; lia].
Qed.

(** ** The files of the command line *)

(** One more file: an entry in the directory, which is the first file, and the file. *)
Definition add_spec (fs : files) (f : list Z * list (list Z)) : files :=
  match fs with
  | (ty, dir) :: rest => (ty, dir ++ entry_for (Z.of_nat (length fs) + 1) (bare f.1)) :: rest ++ [(Fs.T_FILE, concat f.2)]
  | [] => []
  end.

(** The root directory with its two own entries, and a file for each argument. *)
Definition contents (args : list (list Z * list (list Z))) : files :=
  foldl add_spec [(Fs.T_DIR, entry_for ROOTINO [46] ++ entry_for ROOTINO [46; 46])] args.

Lemma shorter_last fs ty data p : shorter (fs ++ [(ty, data)]) (fs ++ [(ty, data ++ p)]).
Proof.
  pose proof (shorter_insert (fs ++ [(ty, data)]) (length fs) ty data p (list_lookup_middle _ _ _ _ eq_refl)) as Hs.
  by rewrite insert_app_r_alt, Nat.sub_diag in Hs by done.
Qed.

Lemma pieces_runs pieces : forall s fs data, image s (fs ++ [(Fs.T_FILE, data)]) -> fits (fs ++ [(Fs.T_FILE, data ++ concat pieces)]) ->
  runs (forM pieces (iappend (Z.of_nat (length fs) + 1))) (fun _ s' => image s' (fs ++ [(Fs.T_FILE, data ++ concat pieces)])) s.
Proof.
  induction pieces as [|p ps IH]; intros s fs data Hi Hfit; cbn [forM concat].
  { apply runs_ret. by rewrite app_nil_r. }
  cbn [concat] in Hfit. apply runs_bind. eapply runs_mono.
  { apply (iappend_runs s _ (length fs) Fs.T_FILE data p Hi); [by apply list_lookup_middle | done|].
    rewrite insert_app_r_alt, Nat.sub_diag by done. eapply fits_shorter; [|exact Hfit]. rewrite app_assoc. apply shorter_last. }
  intros ? s1 Hi1. rewrite insert_app_r_alt, Nat.sub_diag in Hi1 by done. rewrite app_assoc in *. by apply IH.
Qed.

Lemma add_spec_cons ty dir rest f : add_spec ((ty, dir) :: rest) f =
  (ty, dir ++ entry_for (Z.of_nat (length ((ty, dir) :: rest)) + 1) (bare f.1)) :: rest ++ [(Fs.T_FILE, concat f.2)].
Proof. done. Qed.

Lemma add_file_runs s dir rest f : image s ((Fs.T_DIR, dir) :: rest) -> fits (add_spec ((Fs.T_DIR, dir) :: rest) f) -> 47 ∉ f.1 ->
  runs (add_file f) (fun _ s' => image s' (add_spec ((Fs.T_DIR, dir) :: rest) f)) s.
Proof.
  destruct f as [name pieces]. intros Hi Hfit Hn. rewrite add_spec_cons in *. simpl in Hn. cbn [fst snd] in *. set (fs := (Fs.T_DIR, dir) :: rest) in *.
  set (e := entry_for _ _) in *. unfold add_file, assert_. rewrite decide_True by done. apply runs_bind, runs_ret, runs_bind.
  assert (shorter (<[0%nat := (Fs.T_DIR, dir ++ e)]> (fs ++ [(Fs.T_FILE, [])])) ((Fs.T_DIR, dir ++ e) :: rest ++ [(Fs.T_FILE, concat pieces)])) as Hs1.
  { exact (shorter_last ((Fs.T_DIR, dir ++ e) :: rest) Fs.T_FILE [] (concat pieces)). }
  assert (fits (<[0%nat := (Fs.T_DIR, dir ++ e)]> (fs ++ [(Fs.T_FILE, [])]))) as Hf1 by (by eapply fits_shorter).
  eapply runs_mono; [apply ialloc_runs; [exact Hi | | done]|].
  { eapply fits_shorter; [|exact Hf1]. apply (shorter_insert (fs ++ [(Fs.T_FILE, [])]) 0 Fs.T_DIR dir). done. }
  intros i s1 [-> Hi1]. apply runs_bind. eapply runs_mono; [apply (iappend_runs s1 _ 0 Fs.T_DIR dir e Hi1); [done | done | done]|].
  intros ? s2 Hi2. exact (pieces_runs pieces s2 ((Fs.T_DIR, dir ++ e) :: rest) [] Hi2 Hfit).
Qed.

Lemma shorter_add dir rest f : shorter ((Fs.T_DIR, dir) :: rest) (add_spec ((Fs.T_DIR, dir) :: rest) f).
Proof.
  rewrite add_spec_cons. transitivity (((Fs.T_DIR, dir) :: rest) ++ [(Fs.T_FILE, concat f.2)]); [apply shorter_app|].
  exact (shorter_insert (((Fs.T_DIR, dir) :: rest) ++ [(Fs.T_FILE, concat f.2)]) 0 Fs.T_DIR dir _ eq_refl).
Qed.

Lemma shorter_contents args : forall dir rest, shorter ((Fs.T_DIR, dir) :: rest) (foldl add_spec ((Fs.T_DIR, dir) :: rest) args).
Proof.
  induction args as [|f args IH]; intros dir rest; [done|]. cbn [foldl]. etransitivity; [apply (shorter_add dir rest f)|].
  rewrite add_spec_cons. apply IH.
Qed.

Lemma args_runs args : forall s dir rest, image s ((Fs.T_DIR, dir) :: rest) -> fits (foldl add_spec ((Fs.T_DIR, dir) :: rest) args) ->
  Forall (fun f => 47 ∉ f.1) args ->
  runs (forM args add_file) (fun _ s' => image s' (foldl add_spec ((Fs.T_DIR, dir) :: rest) args)) s.
Proof.
  induction args as [|f args IH]; intros s dir rest Hi Hfit Hn; cbn [forM foldl] in *; [by apply runs_ret|].
  apply Forall_cons in Hn as [Hn1 Hn]. apply runs_bind. eapply runs_mono; [apply add_file_runs; [done | | done]|].
  - eapply fits_shorter; [|exact Hfit]. rewrite add_spec_cons. apply shorter_contents.
  - intros ? s1 Hi1. rewrite add_spec_cons in *. by apply IH.
Qed.

(** ** The start *)

Lemma zeroing_runs n : forall k s (Q : unit -> mkfs -> Prop), nsect s = k -> 0 <= k ->
  (forall s', nsect s' = k + Z.of_nat n -> (forall b, img s' b = if decide (k <= b < k + Z.of_nat n) then zeroes else img s b) ->
     freeinode s' = freeinode s -> freeblock s' = freeblock s -> Q tt s') ->
  runs (forM (seqZ k (Z.of_nat n)) (fun i => wsect i zeroes)) Q s.
Proof.
  induction n as [|n IH]; intros k s Q Hn Hk HQ.
  - apply runs_ret, HQ; [lia | | done | done]. intros b. by rewrite decide_False by lia.
  - rewrite seqZ_cons by lia. replace (Z.pred (Z.of_nat (S n))) with (Z.of_nat n) by lia. cbn [forM]. apply runs_bind, runs_modify.
    apply IH; cbn [nsect img freeinode freeblock]; [lia | lia|]. intros s' Hn' Himg Hi Hb. apply HQ; [lia | | done | done].
    intros b. rewrite Himg. destruct (decide (b = k)) as [->|Hne].
    + rewrite decide_False by lia. rewrite decide_True by lia. apply upd_eq.
    + rewrite upd_ne by done. repeat case_decide; try done; lia.
Qed.

Lemma zeroing_all s (Q : unit -> mkfs -> Prop) : nsect s = 0 ->
  (forall s', nsect s' = FSSIZE -> (forall b, 0 <= b < FSSIZE -> img s' b = zeroes) -> freeinode s' = freeinode s -> freeblock s' = freeblock s -> Q tt s') ->
  runs (forM (seqZ 0 FSSIZE) (fun i => wsect i zeroes)) Q s.
Proof.
  intros Hn HQ. assert (0 <= FSSIZE) as Hf by done. revert Hf HQ. generalize FSSIZE as n. intros n Hf HQ.
  rewrite <- (Z2Nat.id n Hf). apply zeroing_runs; [done | done|]. rewrite Z2Nat.id by done. intros s' H1 H2 H3 H4.
  apply HQ; [lia | | done | done]. intros b Hb. rewrite H2. by rewrite decide_True by lia.
Qed.

Lemma image_start v : (forall b, 0 <= b < FSSIZE -> v b = zeroes) -> image (MkM (upd v 1 sb_block) FSSIZE 1 nmeta) [].
Proof.
  intros Hv. assert (nmeta = 68) as EM by done. assert (FSSIZE = 40000) as EF by done. split; cbn [img nsect freeinode freeblock]; try done.
  - intros b Hb. destruct (decide (b = 1)) as [->|]; [by rewrite upd_eq | by rewrite upd_ne, Hv].
  - intros b Hb. rewrite upd_ne by lia. apply Hv. lia.
  - simpl. intros; lia.
  - intros i Hi _. pose proof (iblock_range i Hi). unfold inode_at. rewrite upd_ne, Hv by lia. apply zero_inode.
  - intros b Hb Hn. destruct (decide (b = 1)) as [->|]; [by rewrite upd_eq | rewrite upd_ne by done; apply Hv; lia].
Qed.

(** ** The bitmap *)

Lemma set_bit_mark d i : (i < 4096)%nat -> set_bit d i = mark (Z.of_nat i) d.
Proof.
  intros Hi. unfold set_bit, mark, Fs.bit_byte, Fs.bit_mask, byte_at. rewrite BPB_eq, (Z.mod_small (Z.of_nat i)) by lia.
  pose proof (Nat2Z.inj_div i 8) as Ed. pose proof (Nat2Z.inj_mod i 8) as Em. change (Z.of_nat 8) with 8 in *.
  rewrite <- Ed, <- Em, Nat2Z.id. done.
Qed.

Definition bitmap (n : nat) : list Z := foldl set_bit (replicate BSIZE 0) (seq 0 n).

Lemma length_bitmap n : length (bitmap n) = BSIZE.
Proof. induction n as [|n IH]; [done|]. unfold bitmap. rewrite seq_S, foldl_app. cbn [foldl]. unfold set_bit at 1. by rewrite length_insert. Qed.

Lemma bitmap_bits v n b : (n <= 4096)%nat -> 0 <= b < 4096 -> bit_set (upd v 58 (bitmap n)) sb b = bool_decide (b < Z.of_nat n).
Proof.
  assert (forall c, 0 <= c < 4096 -> BBLOCK c sb = 58) as EB.
  { intros c Hc. unfold BBLOCK. rewrite BPB_eq, Z.div_small by lia. done. }
  induction n as [|n IH]; intros Hn Hb.
  - change (bitmap 0) with (replicate BSIZE 0). rewrite bool_decide_eq_false_2 by lia. unfold bit_set. rewrite EB, upd_eq, byte_zeros by done. done.
  - unfold bitmap. rewrite seq_S, foldl_app. cbn [foldl]. rewrite Nat.add_0_l, set_bit_mark by lia. fold (bitmap n).
    pose proof (bit_set_mark (upd v 58 (bitmap n)) sb (Z.of_nat n) b) as Hm. rewrite EB, upd_eq in Hm by lia. specialize (Hm (length_bitmap n)).
    rewrite (IH ltac:(lia) Hb) in Hm.
    assert (bit_set (upd v 58 (mark (Z.of_nat n) (bitmap n))) sb b = bit_set (upd (upd v 58 (bitmap n)) 58 (mark (Z.of_nat n) (bitmap n))) sb b) as ->.
    { unfold bit_set. by rewrite EB, !upd_eq by done. }
    rewrite Hm. case_decide; [by rewrite bool_decide_eq_true_2 by lia|]. apply bool_decide_ext. lia.
Qed.

(** ** The finished image *)

(** The size mkfs records: that of the root directory is rounded up. *)
Definition recorded (k : nat) (data : list Z) : Z :=
  let n := Z.of_nat (length data) in if decide (k = 0%nat) then (n / 512 + 1) * 512 else n.

Record installed (v : Z -> list Z) (fs : files) : Prop := {
  in_super : decode_sb (v 1) = sb;
  in_log : v (logstart sb) = replicate BSIZE 0;
  in_disk : disk_ok v sb FSSIZE;
  in_full : forall b, 0 <= b < FSSIZE -> length (v b) = BSIZE;
  in_bits : forall b, 0 <= b < FSSIZE -> bit_set v sb b = bool_decide (b < nmeta + total fs);
  in_free : forall b, nmeta + total fs <= b < FSSIZE -> v b = replicate BSIZE 0;
  in_files : forall k ty data, fs !! k = Some (ty, data) ->
    let d := inode_at v (Z.of_nat k + 1) in
    d = inode_of ty (recorded k data) (daddrs d) /\ tree_ok v sb (daddrs d) /\
    (forall o, in_file o -> content v (daddrs d) o = nth (Z.to_nat o) data 0);
  in_apart : forall i j b, 1 <= i <= Z.of_nat (length fs) -> 1 <= j <= Z.of_nat (length fs) -> i <> j ->
    owned v (addrs_of v i) b -> owned v (addrs_of v j) b -> False;
  in_unused : forall i, 0 <= i < NINODES -> ~ (1 <= i <= Z.of_nat (length fs)) -> dtype (inode_at v i) = 0
}.

(** The last two writes, to the image with all the files: the root inode and the bitmap. *)
Section finish.
Context (s : mkfs) (fs : files) (dir : list Z) (rest : files).
Context (Hi : image s fs) (Hfit : fits fs) (Efs : fs = (Fs.T_DIR, dir) :: rest).
Let d := inode_of Fs.T_DIR (recorded 0 dir) (addrs_of (img s) 1).
Let v := upd (put_inode 1 d (img s)) 58 (bitmap (Z.to_nat (freeblock s))).

Lemma fin_root : fs !! 0%nat = Some (Fs.T_DIR, dir).
Proof using Efs. by rewrite Efs. Qed.

Lemma fin_ok : dinode_ok d.
Proof using Hi Hfit Efs.
  pose proof (Forall_lookup_1 _ _ _ _ (ft_data _ Hfit) fin_root) as Hmax. simpl in Hmax. destruct (fits_room _ Hfit) as [Htot _].
  pose proof (fa_tree _ _ _ _ _ (im_files _ _ Hi _ _ _ fin_root)) as Ht. change (Z.of_nat 0 + 1) with 1 in Ht.
  assert (nmeta = 68) as EM by done. assert (FSSIZE = 40000) as EF by done. pose proof (im_low _ _ Hi).
  destruct (inode_ok (img s) (freeblock s) Fs.T_DIR 0 _ _ _ ltac:(by unfold is_short, Fs.T_DIR) ltac:(unfold MAXDATA; lia) ltac:(lia) Ht) as [D1 D2 D3 D4 D5 D6 D7].
  split; try done. simpl. unfold recorded, is_uint, MAXDATA in *. rewrite decide_True by done. Z.to_euclidean_division_equations; lia.
Qed.

Lemma fin_inode j : 0 <= j < NI -> inode_at v j = if decide (j = 1) then d else inode_at (img s) j.
Proof using Hi Hfit Efs.
  intros Hj. pose proof (iblock_range j Hj). pose proof (iblock_range 1 ltac:(lia)). unfold inode_at at 1, v. rewrite upd_ne by lia.
  apply (inode_at_put (img s) 1 d j); [apply fin_ok | lia | done | apply (im_full _ _ Hi); unfold FSSIZE; lia].
Qed.

Lemma fin_addrs j : 0 <= j < NI -> addrs_of v j = addrs_of (img s) j.
Proof using Hi Hfit Efs. intros Hj. unfold addrs_of. rewrite fin_inode by done. case_decide; [by subst j | done]. Qed.

Lemma fin_data b : 68 <= b -> v b = img s b.
Proof using. intros Hb. unfold v. rewrite upd_ne by lia. apply put_data; lia. Qed.

Lemma fin_meta b : 0 <= b < 68 -> ~ (32 <= b < 59) -> v b = if decide (b = 1) then sb_block else replicate BSIZE 0.
Proof using Hi.
  intros Hb Hn. pose proof (iblock_range 1 ltac:(lia)). unfold v, put_inode. rewrite !upd_ne by lia. apply (im_super _ _ Hi); [|lia].
  change nmeta with 68. lia.
Qed.

Lemma fin_owned k ty data b : fs !! k = Some (ty, data) -> owned (img s) (addrs_of (img s) (Z.of_nat k + 1)) b -> v b = img s b.
Proof using Hi.
  intros Hk Hb. apply fin_data. assert (nmeta = 68) as EM by done. pose proof (owned_data _ _ _ _ _ _ (fa_tree _ _ _ _ _ (im_files _ _ Hi _ _ _ Hk)) Hb). lia.
Qed.

(** The bitmap blocks after the first stay zero. *)
Lemma fin_bits b : 0 <= b < FSSIZE -> bit_set v sb b = bool_decide (b < nmeta + total fs).
Proof using Hi Hfit.
  intros Hb. destruct (fits_room _ Hfit) as [Htot _]. pose proof (total_nonneg fs). pose proof (im_low _ _ Hi) as Hfb.
  assert (nmeta = 68) as EM by done. unfold FSSIZE in Hb. destruct (decide (b < 4096)) as [Hlt|Hge].
  - unfold v. rewrite bitmap_bits by lia. apply bool_decide_ext. lia.
  - rewrite bool_decide_eq_false_2 by lia. unfold bit_set.
    assert (58 < BBLOCK b sb < 68) as Hbb by (unfold BBLOCK; rewrite BPB_eq; change (bmapstart sb) with 58; Z.to_euclidean_division_equations; lia).
    rewrite fin_meta, decide_False by lia. by rewrite byte_zeros.
Qed.

Lemma fin_disk : disk_ok v sb FSSIZE.
Proof using Hi Hfit.
  pose proof (total_nonneg fs). assert (nmeta = 68) as EM by done. split; [split; [done|] | done | done|].
  - intros b Hb. unfold BBLOCK. rewrite BPB_eq. change (bmapstart sb) with 58. change (sbsize sb) with 40000 in Hb. unfold FSSIZE. Z.to_euclidean_division_equations; lia.
  - change (FsTree.nmeta sb) with 68. intros b Hb _. rewrite fin_bits, bool_decide_eq_true_2 by (unfold FSSIZE; lia). done.
Qed.

Lemma fin_full b : 0 <= b < FSSIZE -> length (v b) = BSIZE.
Proof using Hi.
  intros Hb. unfold v, put_inode. destruct (decide (b = 58)) as [->|]; [rewrite upd_eq; apply length_bitmap | rewrite upd_ne by done].
  destruct (decide (b = IBLOCK 1 sb)) as [->|]; [rewrite upd_eq, length_encode_dinode | rewrite upd_ne by done]; by apply (im_full _ _ Hi).
Qed.

Lemma fin_file k ty data : fs !! k = Some (ty, data) ->
  let d := inode_at v (Z.of_nat k + 1) in
  d = inode_of ty (recorded k data) (daddrs d) /\ tree_ok v sb (daddrs d) /\
  (forall o, in_file o -> content v (daddrs d) o = nth (Z.to_nat o) data 0).
Proof using Hi Hfit Efs.
  intros Hk. pose proof (lookup_lt_Some _ _ _ Hk) as Hlt. destruct (im_files _ _ Hi _ _ _ Hk) as [F1 F2 F3]. set (i := Z.of_nat k + 1) in *.
  destruct (fits_room _ Hfit) as [Htot Hcnt]. assert (nmeta = 68) as EM by done. pose proof (im_low _ _ Hi) as Hfb.
  cbv zeta. change (daddrs (inode_at v i)) with (addrs_of v i). rewrite fin_addrs by lia. split_and!.
  - rewrite fin_inode by lia. unfold recorded. case_decide as E1.
    + assert (k = 0%nat) as -> by lia. rewrite fin_root in Hk. injection Hk as <- <-. done.
    + by rewrite decide_False by lia.
  - pose proof (mtree_frame _ v _ (freeblock s) _ _ _ F2 ltac:(lia) (fun b => fin_owned k ty data b Hk)) as [T1 T2 T3 T4 T5 T6]. split; [done | | done].
    intros p Vp Hp. specialize (T2 p Vp Hp). split; [change (FsTree.nmeta sb) with 68; change (sbsize sb) with 40000; lia|].
    rewrite fin_bits by (unfold FSSIZE; lia). apply bool_decide_eq_true. lia.
  - intros o Ho. rewrite content_frame with (v := img s); [by apply F3 | intros b; by apply (fin_owned k ty data) | done].
Qed.

Lemma fin_apart i b : 1 <= i <= Z.of_nat (length fs) -> owned v (addrs_of v i) b -> owned (img s) (addrs_of (img s) i) b.
Proof using Hi Hfit Efs.
  intros Hj. destruct (fits_room _ Hfit) as [_ Hcnt]. rewrite fin_addrs by lia. destruct (index_file s fs i Hi Hj) as (ty & data & Hk & _). rewrite owned_frame; [done|].
  intros b' Hb'. apply (fin_owned _ _ _ _ Hk). by replace (Z.of_nat (Z.to_nat (i - 1)) + 1) with i by lia.
Qed.

Lemma image_finish : installed v fs.
Proof using Hi Hfit Efs.
  destruct (fits_room _ Hfit) as [_ Hcnt]. assert (nmeta = 68) as EM by done. pose proof (im_low _ _ Hi) as Hfb. pose proof (total_nonneg fs).
  split; [rewrite fin_meta by lia; done | change (logstart sb) with 2; rewrite fin_meta by lia; done | apply fin_disk | apply fin_full | apply fin_bits | | apply fin_file | |].
  - intros b Hb. rewrite fin_data by lia. apply (im_zero _ _ Hi). lia.
  - intros i j b H1 H2 Hne Hoi Hoj. apply (im_apart _ _ Hi i j b); [done | done | done | by apply fin_apart | by apply fin_apart].
  - intros i Hin Hn. unfold NINODES in Hin. assert (1 <= length fs)%nat by (rewrite Efs; simpl; lia).
    rewrite fin_inode, decide_False by lia. apply (im_unused _ _ Hi); [lia | done].
Qed.
End finish.

Lemma contents_root args : exists dir rest, contents args = (Fs.T_DIR, dir) :: rest.
Proof.
  unfold contents. generalize (entry_for ROOTINO [46] ++ entry_for ROOTINO [46; 46]). generalize (@nil (Z * list Z)).
  induction args as [|f args IH]; intros rest dir; [by exists dir, rest|]. cbn [foldl]. rewrite add_spec_cons. apply IH.
Qed.

(** The directory is made, with its two own entries. *)
Lemma root_runs s args (Q : unit -> mkfs -> Prop) : image s [] -> fits (contents args) ->
  (forall s', image s' [(Fs.T_DIR, entry_for ROOTINO [46] ++ entry_for ROOTINO [46; 46])] ->
     runs (forM args add_file ;;; fix_root ;;; (let! used := gets freeblock in balloc used)) Q s') ->
  runs (let! rootino := ialloc Fs.T_DIR in
        assert_ (rootino = ROOTINO) ;;;
        iappend rootino (entry_for rootino [46]) ;;;
        iappend rootino (entry_for rootino [46; 46]) ;;;
        forM args add_file ;;; fix_root ;;; (let! used := gets freeblock in balloc used)) Q s.
Proof.
  intros Hi Hfit HQ. set (e := entry_for ROOTINO [46]) in *. set (e2 := entry_for ROOTINO [46; 46]) in *.
  assert (fits [(Fs.T_DIR, e ++ e2)]) as F2 by (eapply fits_shorter; [apply shorter_contents | exact Hfit]).
  assert (fits [(Fs.T_DIR, e)]) as F1 by (eapply fits_shorter; [exact (shorter_last [] Fs.T_DIR e e2) | done]).
  assert (fits [(Fs.T_DIR, [])]) as F0 by (eapply fits_shorter; [exact (shorter_last [] Fs.T_DIR [] e) | done]).
  apply runs_bind. eapply runs_mono; [apply (ialloc_runs s [] Fs.T_DIR Hi F0); done|]. intros i s1 [-> Hi1].
  change (Z.of_nat (length []) + 1) with ROOTINO. unfold assert_. rewrite decide_True by done. apply runs_bind, runs_ret, runs_bind.
  eapply runs_mono; [apply (iappend_runs s1 _ 0 Fs.T_DIR [] e Hi1); done|]. intros ? s2 Hi2. apply runs_bind.
  eapply runs_mono; [apply (iappend_runs s2 _ 0 Fs.T_DIR e e2 Hi2); done|]. intros ? s3 Hi3. by apply HQ.
Qed.

Module MkfsProps.

(** C10: mkfs makes the file system the kernel expects.  For any files whose names have no
    slash and that fit the image as mkfs fills it, the program ends, and the image has
    the super block, an empty log, a bitmap that marks exactly the metadata and the
    blocks handed out, and zeros in the free blocks.  Inode 1 is the root
    directory, with the entries for itself and for every file in order; each file has the inode of
    its number with its contents in a block tree in order, as
    the theorems about [bmap], [readi] and [writei] ask for; no two files
    share a block and all other inodes are free. *)
Theorem mkfs_image args : Forall (fun f => 47 ∉ f.1) args -> fits (contents args) ->
  runs (main args) (fun _ s' => installed (img s') (contents args)) fresh.
Proof.
  intros Hn Hfit. assert (nmeta = 68) as EM by done. assert (FSSIZE = 40000) as EF by done. unfold main.
  apply runs_bind, runs_modify, runs_bind. apply zeroing_all; [done|].
  intros s0 N0 I0 FI0 FB0. apply runs_bind. apply runs_wsect; [done | lia|]. cbn [img nsect freeinode freeblock fresh] in *.
  apply root_runs; [| done|].
  { rewrite N0, FI0, FB0. by apply image_start. }
  intros s1 Hi1. apply runs_bind. eapply runs_mono; [by apply args_runs|]. intros ? s2 Hi2. fold (contents args) in Hi2.
  destruct (contents_root args) as (dir & rest & Er). assert (contents args !! 0%nat = Some (Fs.T_DIR, dir)) as H0 by (by rewrite Er).
  pose proof (im_files _ _ Hi2 _ _ _ H0) as [F1 _ _]. change (Z.of_nat 0 + 1) with 1 in F1.
  pose proof (Forall_lookup_1 _ _ _ _ (ft_data _ Hfit) H0) as Hmax. simpl in Hmax. unfold MAXDATA in Hmax.
  unfold fix_root. apply runs_bind, runs_bind, runs_rinode; [apply Hi2 | unfold ROOTINO; lia|]. change ROOTINO with 1. rewrite F1. cbn [dsize inode_of].
  rewrite (xint_id (Z.of_nat _)) by lia. change (Z.of_nat BSIZE) with 512. rewrite xint_id by (Z.to_euclidean_division_equations; lia).
  apply runs_winode; [apply Hi2 | lia|]. apply runs_bind, runs_gets. cbn [freeblock]. destruct (fits_room _ Hfit) as [Htot _].
  unfold balloc, assert_. rewrite decide_True by (rewrite (im_low _ _ Hi2); change (Z.of_nat BSIZE * 8) with 4096; lia).
  apply runs_bind, runs_ret, runs_wsect; [apply Hi2 | done|]. apply (image_finish s2 (contents args) dir rest Hi2 Hfit Er).
Qed.

(** A program of 600 bytes read in two pieces and an empty file. *)
Lemma mkfs_image_witness :
  let args := [([95; 99; 97; 116], [replicate 512 7; replicate 88 8]); ([82], [])] in
  contents args !! 1%nat = Some (Fs.T_FILE, replicate 512 7 ++ replicate 88 8) /\
  runs (main args) (fun _ s' => installed (img s') (contents args)) fresh.
Proof.
  intros args. split; [by vm_compute|]. apply (mkfs_image args).
  - apply (bool_decide_unpack _). by vm_compute.
  - split; [by vm_compute | apply (bool_decide_unpack _); by vm_compute | by vm_compute].
Defined.
End MkfsProps.
