(* ===== verification/User.v ===== *)
(** The user library: src/xv6-public/printf.c, the functions of
    src/xv6-public/ulib.c that make system calls, and the system calls of
    src/xv6-public/user.h they are written against.

    A user program is a function of the outcome monad over any state with the
    system calls of [Sys]; what the programs rely on is [SysSpec]: descriptors
    deliver a stream of bytes in pieces of any size, and accept what is written.
    [world] is a small implementation, for examples. *)

From S2P Require Import Prelude CString Fs.

(** ** Strings of a program text *)

Definition cs (s : string) : list Z := (fun c => Z.of_nat (Ascii.nat_of_ascii c)) <$> String.list_ascii_of_string s.

Definition nl : list Z := [10].

(** ** The system calls *)

(** user.h: what a process can ask of the kernel.  A call that fills memory
    returns the bytes or the fields it stores; [exit] is [u_exit] below. *)
Class Sys (S : Type) := {
  u_fork : M S Z;
  u_wait : M S Z;
  u_pipe : M S (Z * (Z * Z));
  u_write : Z -> list Z -> M S Z;
  u_read : Z -> Z -> M S (Z * list Z);
  u_close : Z -> M S Z;
  u_kill : Z -> M S Z;
  u_exec : list Z -> list (list Z) -> M S Z;
  u_open : list Z -> Z -> M S Z;
  u_mknod : list Z -> Z -> Z -> M S Z;
  u_unlink : list Z -> M S Z;
  u_fstat : Z -> M S (Z * Fs.stat);
  u_link : list Z -> list Z -> M S Z;
  u_mkdir : list Z -> M S Z;
  u_chdir : list Z -> M S Z;
  u_dup : Z -> M S Z;
  u_getpid : M S Z;
  u_getppid : M S Z;
  u_sbrk : Z -> M S Z;
  u_sleep : Z -> M S Z
}.

(** [exit()] does not return. *)
Definition u_exit {S A} : M S A := stop_with Exits.

(** ** What programs rely on *)

(** The bytes still to be read from each descriptor and those written to it. *)
Record uview := UView { uin : Z -> list Z; uout : Z -> list Z }.

Definition fupd {A} (f : Z -> A) (fd : Z) (a : A) : Z -> A := fun k => if decide (k = fd) then a else f k.
Definition consume (fd : Z) (l : list Z) (v : uview) : uview := UView (fupd (uin v) fd l) (uout v).
Definition emit (fd : Z) (l : list Z) (v : uview) : uview := UView (uin v) (fupd (uout v) fd (uout v fd ++ l)).

(** A read takes a prefix of what is left, possibly short, and nothing only at the
    end of the stream; a write takes all the bytes. *)
Class SysSpec (S : Type) `{Sys S} := {
  urep : S -> uview -> Prop;
  read_law : forall s v fd n, urep s v -> 0 < n ->
    runs (u_read fd n) (fun r s' => exists l l', uin v fd = l ++ l' /\ r = (Z.of_nat (length l), l) /\
      Z.of_nat (length l) <= n /\ (l = [] -> l' = []) /\ urep s' (consume fd l' v)) s;
  write_law : forall s v fd l, urep s v ->
    runs (u_write fd l) (fun r s' => r = Z.of_nat (length l) /\ urep s' (emit fd l v)) s
}.

(** A descriptor of a regular file: reads are as long as possible. *)
Definition full_reads {S} `{SysSpec S} (fd : Z) : Prop := forall s v n, urep s v -> 0 < n ->
  runs (u_read fd n) (fun r s' => let l := take (Z.to_nat n) (uin v fd) in
    r = (Z.of_nat (length l), l) /\ urep s' (consume fd (drop (Z.to_nat n) (uin v fd)) v)) s.

(** ** printf.c *)

Section printf.
Context {S : Type} `{Sys S}.

Definition putc (fd c : Z) : M S unit := let! _ := u_write fd [c] in ret tt.

Definition digit (d : Z) : Z := nth (Z.to_nat d) (cs "0123456789ABCDEF") 0.

(** The loop that fills [buf]: the digits, least significant first.  A 32-bit number has
    at most 32 digits in any base. *)
Fixpoint digits_loop (fuel : nat) (x base : Z) : list Z :=
  match fuel with
  | O => []
  | Datatypes.S fuel' => digit (x mod base) :: (if decide (x / base = 0) then [] else digits_loop fuel' (x / base) base)
  end.

Definition printint (fd xx base : Z) (sgn : bool) : M S unit :=
  let neg := sgn && bool_decide (xx < 0) in
  let x := u32 (if neg then - xx else xx) in
  let buf := digits_loop 32 x base ++ (if neg then cs "-" else []) in
  forM (rev buf) (putc fd).

(** The arguments after the format: words, and pointers to strings ([None] is the null
    pointer). *)
Inductive arg :=
| AInt (w : Z)
| AStr (s : option (list Z)).

(** The loop of [printf] over the rest of the format; [state] says that the last character
    was a percent sign.  An argument that is missing or of the wrong kind is undefined. *)
Fixpoint printf_loop (fd : Z) (fmt : list Z) (state : bool) (ap : list arg) : M S unit :=
  match fmt with
  | [] => ret tt
  | c :: fmt' =>
      if negb state then
        if decide (c = 37) then printf_loop fd fmt' true ap
        else putc fd c ;;; printf_loop fd fmt' false ap
      else if decide (c = 100) then
        match ap with
        | AInt w :: ap' => printint fd (i32 w) 10 true ;;; printf_loop fd fmt' false ap'
        | _ => stop_with Undefined
        end
      else if decide (c = 120 \/ c = 112) then
        match ap with
        | AInt w :: ap' => printint fd (i32 w) 16 false ;;; printf_loop fd fmt' false ap'
        | _ => stop_with Undefined
        end
      else if decide (c = 115) then
        match ap with
        | AStr s :: ap' =>
            forM (default (cs "(null)") s) (putc fd) ;;; printf_loop fd fmt' false ap'
        | _ => stop_with Undefined
        end
      else if decide (c = 99) then
        match ap with
        | AInt w :: ap' => putc fd (u8 w) ;;; printf_loop fd fmt' false ap'
        | _ => stop_with Undefined
        end
      else if decide (c = 37) then putc fd c ;;; printf_loop fd fmt' false ap
      else putc fd 37 ;;; putc fd c ;;; printf_loop fd fmt' false ap
  end.

Definition printf (fd : Z) (fmt : list Z) (ap : list arg) : M S unit := printf_loop fd fmt false ap.

End printf.

(** ** ulib.c: the functions that make system calls *)

Module Ulib.
Section ulib.
Context {S : Type} `{Sys S}.

(** [gets(buf, max)]: at most [max - 1] bytes from descriptor 0, one at a time, up to and
    including the end of a line. *)
Fixpoint gets_loop (k : nat) : M S (list Z) :=
  match k with
  | O => ret []
  | Datatypes.S k' =>
      let! r := u_read 0 1 in
      if decide (r.1 < 1) then ret [] else
      let c := nth 0 r.2 0 in
      if decide (c = 10 \/ c = 13) then ret [c] else
      let! l := gets_loop k' in
      ret (c :: l)
  end.
Definition gets (max : Z) : M S (list Z) :=
  let! l := gets_loop (Z.to_nat (max - 1)) in ret (l ++ [0]).

Definition stat (n : list Z) : M S (Z * option Fs.stat) :=
  let! fd := u_open n 0 in
  if decide (fd < 0) then ret (-1, None) else
  let! r := u_fstat fd in
  let! _ := u_close fd in
  ret (r.1, Some r.2).
End ulib.
End Ulib.

(** ** Reasoning *)

Lemma fupd_eq {A} (f : Z -> A) fd a : fupd f fd a fd = a.
Proof. unfold fupd. by rewrite decide_True. Qed.

(** Equal views, and writing twice. *)
Definition veq (v w : uview) : Prop := (forall fd, uin v fd = uin w fd) /\ (forall fd, uout v fd = uout w fd).
#[export] Instance veq_equivalence : Equivalence veq.
Proof.
  split; [by split | intros v w [A B]; by split |]. intros u v w [A B] [C D].
  split; intros fd; [by rewrite A | by rewrite B].
Qed.

Lemma emit_emit fd l k v : veq (emit fd k (emit fd l v)) (emit fd (l ++ k) v).
Proof.
  split; [done|]. intros fd'. simpl. unfold fupd. repeat case_decide; try done. by rewrite app_assoc.
Qed.

Lemma emit_nil fd v : veq (emit fd [] v) v.
Proof. split; [done|]. intros fd'. simpl. unfold fupd. case_decide; [|done]. subst. by rewrite app_nil_r. Qed.

#[export] Instance emit_proper fd l : Proper (veq ==> veq) (emit fd l).
Proof. intros v w [A B]. split; [done|]. intros fd'. simpl. unfold fupd. case_decide; [by rewrite B | done]. Qed.
#[export] Instance consume_proper fd l : Proper (veq ==> veq) (consume fd l).
Proof. intros v w [A B]. split; [|done]. intros fd'. simpl. unfold fupd. case_decide; [done | apply A]. Qed.

Section spec.
Context {S : Type} `{SysSpec S}.
Implicit Types (s : S) (v : uview).

Definition shows s v : Prop := exists w, urep s w /\ veq w v.

#[export] Instance shows_proper : Proper (eq ==> veq ==> iff) shows.
Proof. intros s ? <- v v' E. split; intros (w & Hw & Ew); exists w; (split; [done|]); by rewrite Ew. Qed.

Lemma runs_write s v fd l (Q : Z -> S -> Prop) : shows s v ->
  (forall s', shows s' (emit fd l v) -> Q (Z.of_nat (length l)) s') -> runs (u_write fd l) Q s.
Proof.
  intros (w & Hw & E) HQ. eapply runs_mono; [apply (write_law _ _ _ _ Hw)|].
  intros r s' [-> Hr]. apply HQ. exists (emit fd l w). split; [done | by rewrite E].
Qed.

Lemma runs_read s v fd n (Q : Z * list Z -> S -> Prop) : shows s v -> 0 < n ->
  (forall s' l l', uin v fd = l ++ l' -> Z.of_nat (length l) <= n -> (l = [] -> l' = []) ->
     shows s' (consume fd l' v) -> Q (Z.of_nat (length l), l) s') -> runs (u_read fd n) Q s.
Proof.
  intros (w & Hw & E) Hn HQ. eapply runs_mono; [apply (read_law _ _ fd n Hw Hn)|].
  intros r s' (l & l' & E1 & -> & Hl & Hnil & Hr). eapply HQ; [by rewrite <- (proj1 E) | done | done |].
  exists (consume fd l' w). split; [done | by rewrite E].
Qed.

Lemma runs_read_full s v fd n (Q : Z * list Z -> S -> Prop) : full_reads fd -> shows s v -> 0 < n ->
  (forall s', shows s' (consume fd (drop (Z.to_nat n) (uin v fd)) v) ->
     Q (Z.of_nat (length (take (Z.to_nat n) (uin v fd))), take (Z.to_nat n) (uin v fd)) s') -> runs (u_read fd n) Q s.
Proof.
  intros Hfull (w & Hw & E) Hn HQ. eapply runs_mono; [apply (Hfull _ _ n Hw Hn)|].
  intros r s' [-> Hr]. rewrite (proj1 E). apply HQ. eexists. split; [exact Hr|]. rewrite (proj1 E fd). by rewrite E.
Qed.

Lemma runs_putc s v fd c (Q : unit -> S -> Prop) : shows s v ->
  (forall s', shows s' (emit fd [c] v) -> Q tt s') -> runs (putc fd c) Q s.
Proof. intros Hs HQ. apply runs_bind. eapply runs_write; [done|]. intros s' Hs'. by apply runs_ret, HQ. Qed.

Lemma runs_puts s v fd l (Q : unit -> S -> Prop) : shows s v ->
  (forall s', shows s' (emit fd l v) -> Q tt s') -> runs (forM l (putc fd)) Q s.
Proof.
  revert s v. induction l as [|c l IH]; intros s v Hs HQ; simpl.
  - apply runs_ret, HQ. by rewrite emit_nil.
  - apply runs_bind. eapply runs_putc; [done|]. intros s1 Hs1. eapply IH; [done|].
    intros s2. rewrite emit_emit. apply HQ.
Qed.

(** *** Numbers *)

(** The number a list of digits stands for, most significant first. *)
Definition value (base : Z) (ds : list Z) : Z := foldl (fun n d => n * base + d) 0 ds.

(** The digits the loop finds, before they are turned into characters. *)
Fixpoint digits (fuel : nat) (x base : Z) : list Z :=
  match fuel with
  | O => []
  | Datatypes.S fuel' => x mod base :: (if decide (x / base = 0) then [] else digits fuel' (x / base) base)
  end.

Lemma digits_loop_map fuel x base : digits_loop fuel x base = digit <$> digits fuel x base.
Proof. revert x. induction fuel as [|fuel IH]; intros x; simpl; [done|]. f_equal. case_decide; [done | apply IH]. Qed.

Lemma value_snoc base ds d : value base (ds ++ [d]) = value base ds * base + d.
Proof. unfold value. by rewrite foldl_app. Qed.

Lemma digits_value base fuel x : 2 <= base -> 0 <= x < 2 ^ Z.of_nat fuel ->
  value base (rev (digits fuel x base)) = x /\ Forall (fun d => 0 <= d < base) (digits fuel x base) /\
  (x <> 0 -> last (digits fuel x base) <> Some 0).
Proof.
  intros Hb. revert x. induction fuel as [|fuel IH]; intros x Hx.
  { simpl in *. assert (x = 0) as -> by lia. repeat split; [constructor | done]. }
  simpl. pose proof (Z.mod_pos_bound x base ltac:(lia)) as Hm. pose proof (Z.div_mod x base ltac:(lia)) as Hd.
  assert (0 <= x / base < 2 ^ Z.of_nat fuel) as Hq.
  { split; [apply Z.div_pos; lia|]. apply Z.div_lt_upper_bound; [lia|]. rewrite Nat2Z.inj_succ, Z.pow_succ_r in Hx by lia.
    nia. }
  rewrite value_snoc. case_decide as E.
  - cbn. split; [lia|]. split; [constructor; [done | constructor]|]. intros Hx0 [= E']. lia.
  - destruct (IH _ Hq) as (IH1 & IH2 & IH3). rewrite IH1. split; [lia|]. split; [by constructor|].
    intros _. specialize (IH3 E). by destruct (digits fuel (x / base) base).
Qed.

Lemma fmap_rev {A B} (f : A -> B) l : f <$> rev l = rev (f <$> l).
Proof. induction l as [|a l IH]; [done|]. simpl. by rewrite fmap_app, IH. Qed.

Lemma head_rev {A} (l : list A) : head (rev l) = last l.
Proof. rewrite rev_alt. change (head (reverse l) = last l). apply head_reverse. Qed.

Lemma runs_printint s v fd xx base sgn (Q : unit -> S -> Prop) :
  let neg := sgn && bool_decide (xx < 0) in
  let x := u32 (if neg then - xx else xx) in
  shows s v -> (forall s', shows s' (emit fd ((if neg then cs "-" else []) ++ (digit <$> rev (digits 32 x base))) v) -> Q tt s') ->
  runs (printint fd xx base sgn) Q s.
Proof.
  intros neg x Hs HQ. unfold printint. eapply runs_puts; [exact Hs|]. intros s' Hs'. apply HQ.
  fold neg in Hs'. fold x in Hs'. rewrite rev_app_distr, digits_loop_map, <- fmap_rev in Hs'. by destruct neg.
Qed.

Lemma length_digits x base : (1 <= length (digits 32 x base))%nat.
Proof. cbn [digits]. rewrite length_cons. lia. Qed.
#[local] Opaque digits digits_loop.

(** *** The text of a format *)

(** A number in a base, as [printint] writes it. *)
Definition number (xx base : Z) (sgn : bool) : list Z :=
  let neg := sgn && bool_decide (xx < 0) in
  (if neg then cs "-" else []) ++ (digit <$> rev (digits 32 (u32 (if neg then - xx else xx)) base)).

Fixpoint render (fmt : list Z) (state : bool) (ap : list arg) : option (list Z) :=
  match fmt with
  | [] => Some []
  | c :: fmt' =>
      if negb state then
        if decide (c = 37) then render fmt' true ap else app [c] <$> render fmt' false ap
      else if decide (c = 100) then
        match ap with AInt w :: ap' => app (number (i32 w) 10 true) <$> render fmt' false ap' | _ => None end
      else if decide (c = 120 \/ c = 112) then
        match ap with AInt w :: ap' => app (number (i32 w) 16 false) <$> render fmt' false ap' | _ => None end
      else if decide (c = 115) then
        match ap with AStr s :: ap' => app (default (cs "(null)") s) <$> render fmt' false ap' | _ => None end
      else if decide (c = 99) then
        match ap with AInt w :: ap' => app [u8 w] <$> render fmt' false ap' | _ => None end
      else if decide (c = 37) then app [c] <$> render fmt' false ap
      else app [37; c] <$> render fmt' false ap
  end.

Lemma runs_printf_loop fd fmt state ap out : render fmt state ap = Some out -> forall s v (Q : unit -> S -> Prop),
  shows s v -> (forall s', shows s' (emit fd out v) -> Q tt s') -> runs (printf_loop fd fmt state ap) Q s.
Proof.
  revert state ap out. induction fmt as [|c fmt IH]; intros state ap out Hr s v Q Hs HQ.
  { simpl in *. injection Hr as <-. apply runs_ret, HQ. by rewrite emit_nil. }
  assert (forall (m : M S unit) l state' ap', app l <$> render fmt state' ap' = Some out ->
    (forall (Q' : unit -> S -> Prop), (forall s', shows s' (emit fd l v) -> Q' tt s') -> runs m Q' s) ->
    runs (m ;;; printf_loop fd fmt state' ap') Q s) as Hstep.
  { intros m l state' ap' (out' & Hm & E)%fmap_Some Hrun. apply runs_bind, Hrun. intros s1 Hs1.
    eapply IH; [exact Hm | exact Hs1 |]. intros s2 Hs2. apply HQ. rewrite emit_emit in Hs2. by rewrite E. }
  cbn [render printf_loop] in *. destruct (negb state).
  { case_decide; [by eapply IH|]. eapply Hstep; [exact Hr|]. intros Q' HQ'. by eapply runs_putc. }
  repeat (case_decide; [try (destruct ap as [|[w|str] ap]; try done); (eapply Hstep; [exact Hr|]); intros Q' HQ';
    first [by eapply runs_putc | by eapply runs_puts | by eapply runs_printint]|]).
  apply fmap_Some in Hr as (out' & Hm & E). apply runs_bind. eapply runs_putc; [done|]. intros s1 Hs1.
  apply runs_bind. eapply runs_putc; [done|]. intros s2 Hs2. eapply IH; [exact Hm | exact Hs2 |].
  intros s3 Hs3. apply HQ. rewrite !emit_emit in Hs3. by rewrite E.
Qed.

Lemma runs_printf fd fmt ap out s v (Q : unit -> S -> Prop) : render fmt false ap = Some out ->
  shows s v -> (forall s', shows s' (emit fd out v) -> Q tt s') -> runs (printf fd fmt ap) Q s.
Proof. intros Hr. by apply runs_printf_loop. Qed.

(** Reading decimal digits back. *)
Lemma digit_char d : 0 <= d < 10 -> digit d = 48 + d.
Proof.
  intros Hd. assert (d = 0 \/ d = 1 \/ d = 2 \/ d = 3 \/ d = 4 \/ d = 5 \/ d = 6 \/ d = 7 \/ d = 8 \/ d = 9) as Hc by lia.
  repeat destruct Hc as [-> | Hc]; try done. by subst.
Qed.

Lemma atoi_digits ds n fuel : Forall (fun d => 0 <= d < 10) ds -> (length ds < fuel)%nat ->
  CString.atoi_from (CString.chars (digit <$> ds)) n fuel = Some (foldl (fun n d => n * 10 + d) n ds).
Proof.
  intros Hds. revert n fuel. induction Hds as [|d ds Hd _ IH]; intros n fuel Hf; (destruct fuel as [|fuel]; [simpl in Hf; lia|]).
  - cbn [CString.atoi_from]. rewrite decide_False; [done|]. unfold CString.is_digit, CString.chars. simpl. lia.
  - cbn [CString.atoi_from]. assert (CString.chars (digit <$> d :: ds) 0%nat = 48 + d) as -> by (by apply digit_char).
    rewrite decide_True by (unfold CString.is_digit; lia).
    change (CString.tail (CString.chars (digit <$> d :: ds))) with (CString.chars (digit <$> ds)).
    replace (n * 10 + (48 + d) - 48) with (n * 10 + d) by lia. apply IH. simpl in Hf. lia.
Qed.
End spec.

(** ** A small world

    Streams, outputs and a break, and nothing else; a read of [n] bytes delivers [piece n] of
    them, so that [piece n = n] is a file and [piece n = 1] a slow terminal. *)
Record world := World { win : Z -> list Z; wout : Z -> list Z; wbrk : Z }.

Definition world_sys (piece : Z -> Z) : Sys world := {|
  u_fork := ret (-1);
  u_wait := ret (-1);
  u_pipe := ret (-1, (0, 0));
  u_write fd l := fun w => Ret (Z.of_nat (length l)) (World (win w) (fupd (wout w) fd (wout w fd ++ l)) (wbrk w));
  u_read fd n := fun w =>
    let l := take (Z.to_nat (piece n)) (win w fd) in
    Ret (Z.of_nat (length l), l) (World (fupd (win w) fd (drop (Z.to_nat (piece n)) (win w fd))) (wout w) (wbrk w));
  u_close _ := ret 0;
  u_kill _ := ret (-1);
  u_exec _ _ := ret (-1);
  u_open _ _ := ret 3;
  u_mknod _ _ _ := ret (-1);
  u_unlink _ := ret (-1);
  u_fstat _ := ret (-1, Fs.MkStat 0 0 0 0 0);
  u_link _ _ := ret (-1);
  u_mkdir _ := ret (-1);
  u_chdir _ := ret (-1);
  u_dup _ := ret (-1);
  u_getpid := ret 1;
  u_getppid := ret 1;
  u_sbrk n := fun w =>
    if decide (wbrk w + n <= 2 ^ 31) then Ret (wbrk w) (World (win w) (wout w) (wbrk w + n)) else Ret (-1) w;
  u_sleep _ := ret 0
|}.

Definition world_rep (w : world) (v : uview) : Prop := v = UView (win w) (wout w).

Lemma world_spec piece : (forall n, 0 < n -> 0 < piece n <= n) -> @SysSpec world (world_sys piece).
Proof.
  intros Hp. refine (@Build_SysSpec world (world_sys piece) world_rep _ _).
  - intros w v fd n -> Hn. specialize (Hp n Hn). set (l := take (Z.to_nat (piece n)) (win w fd)).
    eexists _, _. split; [reflexivity|]. exists l, (drop (Z.to_nat (piece n)) (win w fd)).
    split; [symmetry; apply take_drop|]. split; [done|]. split.
    { unfold l. rewrite length_take. lia. }
    split; [|done]. intros E. assert (length l = 0%nat) as El by (by rewrite E). unfold l in El.
    rewrite length_take in El. apply nil_length_inv. rewrite length_drop. lia.
  - intros w v fd l ->. eexists _, _. split; [reflexivity|]. done.
Defined.

Definition file_world : Sys world := world_sys (fun n => n).
Definition file_spec : @SysSpec world file_world := world_spec (fun n => n) ltac:(lia).

Lemma file_full fd : @full_reads world file_world file_spec fd.
Proof. intros w v n -> Hn. eexists _, _. split; [reflexivity|]. done. Qed.

(** A world with [l] to read from descriptor [fd]. *)
Definition world_of (fd : Z) (l : list Z) : world := World (fupd (fun _ => []) fd l) (fun _ => []) 16384.

Lemma world_shows piece Hp w : @shows world _ (world_spec piece Hp) w (UView (win w) (wout w)).
Proof. by exists (UView (win w) (wout w)). Qed.

Module User.
Section claims.
Context {S : Type} `{SysSpec S}.

(** Numbers read back.  For every [int], [printf] with the format for decimal numbers writes
    an optional minus sign, exactly for negative numbers, and decimal digits without a
    leading zero, which [atoi] turns back into the absolute value; and the
    hexadecimal format writes the digits of the 32-bit pattern. *)
Theorem printf_number_roundtrip (s : S) v fd x : shows s v -> - 2 ^ 31 <= x < 2 ^ 31 ->
  (exists l, runs (printf fd (cs "%d") [AInt x]) (fun _ s' => shows s' (emit fd ((if bool_decide (x < 0) then cs "-" else []) ++ l) v)) s /\
     CString.atoi (CString.chars l) (length l + 1) = Some (Z.abs x) /\ (1 <= length l)%nat /\
     (x <> 0 -> head l <> Some (digit 0))) /\
  (exists ds, runs (printf fd (cs "%x") [AInt x]) (fun _ s' => shows s' (emit fd (digit <$> ds) v)) s /\
     value 16 ds = u32 x /\ Forall (fun d => 0 <= d < 16) ds /\ (u32 x <> 0 -> head ds <> Some 0)).
Proof.
  intros Hs Hx. split.
  - set (n := Z.abs x). assert (u32 (if bool_decide (x < 0) then - x else x) = n) as En.
    { unfold n. case_bool_decide; rewrite u32_small; lia. }
    destruct (digits_value 10 32 n) as (Hv & Hall & Hlast); [lia | lia |].
    exists (digit <$> rev (digits 32 n 10)). split.
    + change (printf fd (cs "%d") [AInt x]) with (printint fd (i32 x) 10 true ;;; ret tt). apply runs_bind. eapply runs_printint; [done|].
      intros s' Hs'. apply runs_ret. rewrite i32_small in Hs' by done. cbn [andb] in Hs'. rewrite En in Hs'.
      exact Hs'.
    + rewrite length_fmap, length_rev. split; [|split; [by apply length_digits|]].
      * unfold CString.atoi. rewrite atoi_digits; [by rewrite <- Hv at 2 | by apply Forall_rev | rewrite length_rev; lia].
      * intros Hx0. rewrite fmap_rev, head_rev, fmap_last. specialize (Hlast ltac:(lia)).
        assert (forall d, last (digits 32 n 10) = Some d -> 0 <= d < 10) as Hd.
        { intros d Hd. rewrite last_lookup in Hd. by eapply (proj1 (Forall_lookup _ _) Hall). }
        destruct (last (digits 32 n 10)) as [d|]; [|done]. specialize (Hd d eq_refl). simpl. rewrite !digit_char by lia.
        intros [= E]. apply Hlast. f_equal. lia.
  - set (n := u32 x). pose proof (u32_range x) as Hr. fold n in Hr.
    destruct (digits_value 16 32 n) as (Hv & Hall & Hlast); [lia | lia |].
    exists (rev (digits 32 n 16)). split; [|split; [done | split; [by apply Forall_rev|]]].
    + change (printf fd (cs "%x") [AInt x]) with (printint fd (i32 x) 16 false ;;; ret tt). apply runs_bind. eapply runs_printint; [done|].
      intros s' Hs'. apply runs_ret. rewrite i32_small in Hs' by done. exact Hs'.
    + intros Hn. rewrite head_rev. by apply Hlast.
Qed.
End claims.

Lemma printf_number_roundtrip_witness : exists l,
  @runs world unit (@printf world file_world 1 (cs "%d") [AInt (-42)])
    (fun _ s' => @shows world _ file_spec s' (emit 1 (cs "-" ++ l) (UView (fun _ => []) (fun _ => [])))) (world_of 0 []).
Proof.
  destruct (@printf_number_roundtrip world file_world file_spec (world_of 0 []) (UView (win (world_of 0 [])) (wout (world_of 0 []))) 1 (-42))
    as [(l & Hl & _) _]; [apply world_shows | lia |].
  exists l. eapply runs_mono; [exact Hl|]. intros _ s' (w & Hw & E). exists w. split; [exact Hw|].
  rewrite E. apply emit_proper. split; [|done]. intros fd.
  simpl. unfold fupd. by destruct (decide (fd = 0)).
Defined.
End User.
