(* ===== verification/UserProgs.v ===== *)
(** The user programs cat.c, wc.c, echo.c, ls.c, ln.c, rm.c, mkdir.c, kill.c,
    init.c, zombie.c and my_userapp.c of src/xv6-public.

    Loops that read until the end of a stream take a bound on the number of
    reads; the theorems show how many are enough. *)

From S2P Require Import Prelude Bytes CString FsLayout Fs User.

Section programs.
Context {S : Type} `{Sys S}.

(** ** cat.c *)

Fixpoint cat (fuel : nat) (fd : Z) : M S unit :=
  match fuel with
  | O => stop_with Spins
  | Datatypes.S fuel' =>
      let! r := u_read fd 512 in
      if decide (0 < r.1) then
        let! k := u_write 1 (take (Z.to_nat r.1) r.2) in
        if decide (k <> r.1) then printf 1 (cs "cat: write error" ++ nl) [] ;;; u_exit
        else cat fuel' fd
      else if decide (r.1 < 0) then printf 1 (cs "cat: read error" ++ nl) [] ;;; u_exit
      else ret tt
  end.

Definition cat_main (fuel : nat) (argv : list (list Z)) : M S unit :=
  match argv with
  | _ :: ((_ :: _) as files) =>
      forM files (fun f =>
        let! fd := u_open f 0 in
        if decide (fd < 0) then printf 1 (cs "cat: cannot open %s" ++ nl) [AStr (Some f)] ;;; u_exit else
        cat fuel fd ;;;
        let! _ := u_close fd in
        ret tt) ;;;
      u_exit
  | _ => cat fuel 0 ;;; u_exit
  end.

(** ** wc.c *)

(** The counters [l], [w], [c] and [inword]. *)
Record wcount := WC { wl : Z; ww : Z; wch : Z; inword : bool }.

(** [strchr(" \r\t\n\v", c)] finds the character. *)
Definition is_space (c : Z) : Prop := c ∈ [32; 13; 9; 10; 11].
#[export] Instance is_space_dec c : Decision (is_space c).
Proof. unfold is_space. apply _. Defined.

Definition wc_char (x : wcount) (c : Z) : wcount :=
  let ch := wch x + 1 in
  let l := if decide (c = 10) then wl x + 1 else wl x in
  if decide (is_space c) then WC l (ww x) ch false
  else if inword x then WC l (ww x) ch true
  else WC l (ww x + 1) ch true.

Fixpoint wc_loop (fuel : nat) (fd : Z) (x : wcount) : M S wcount :=
  match fuel with
  | O => stop_with Spins
  | Datatypes.S fuel' =>
      let! r := u_read fd 512 in
      if decide (0 < r.1) then wc_loop fuel' fd (foldl wc_char x (take (Z.to_nat r.1) r.2))
      else if decide (r.1 < 0) then printf 1 (cs "wc: read error" ++ nl) [] ;;; u_exit
      else ret x
  end.

Definition wc (fuel : nat) (fd : Z) (name : list Z) : M S unit :=
  let! x := wc_loop fuel fd (WC 0 0 0 false) in
  printf 1 (cs "%d %d %d %s" ++ nl) [AInt (wl x); AInt (ww x); AInt (wch x); AStr (Some name)].

Definition wc_main (fuel : nat) (argv : list (list Z)) : M S unit :=
  match argv with
  | _ :: ((_ :: _) as files) =>
      forM files (fun f =>
        let! fd := u_open f 0 in
        if decide (fd < 0) then printf 1 (cs "wc: cannot open %s" ++ nl) [AStr (Some f)] ;;; u_exit else
        wc fuel fd f ;;;
        let! _ := u_close fd in
        ret tt) ;;;
      u_exit
  | _ => wc fuel 0 [] ;;; u_exit
  end.

(** ** echo.c *)

Fixpoint echo_args (args : list (list Z)) : M S unit :=
  match args with
  | [] => ret tt
  | a :: args' =>
      printf 1 (cs "%s%s") [AStr (Some a); AStr (Some (if decide (args' = []) then nl else cs " "))] ;;;
      echo_args args'
  end.
Definition echo_main (argv : list (list Z)) : M S unit := echo_args (drop 1 argv) ;;; u_exit.

(** ** ls.c *)

(** The part of a path after its last slash. *)
Fixpoint after_slash (path : list Z) : list Z :=
  match path with
  | [] => []
  | c :: path' => if decide (47 ∈ path) then after_slash path' else path
  end.

(** The name, padded with blanks to [DIRSIZ] characters. *)
Definition fmtname (path : list Z) : list Z :=
  let p := after_slash path in
  if decide (DIRSIZ <= length p)%nat then p else p ++ replicate (DIRSIZ - length p) 32.

Definition ls_line (name : list Z) (st : Fs.stat) : M S unit :=
  printf 1 (cs "%s %d %d %d" ++ nl)
    [AStr (Some (fmtname name)); AInt (Fs.st_type st); AInt (Fs.st_ino st); AInt (Fs.st_size st)].

(** The loop over the entries of the directory [path] open at [fd]. *)
Fixpoint ls_dir (fuel : nat) (path : list Z) (fd : Z) : M S unit :=
  match fuel with
  | O => stop_with Spins
  | Datatypes.S fuel' =>
      let! r := u_read fd 16 in
      if decide (r.1 <> 16) then ret tt else
      let de := decode_dirent r.2 in
      if decide (dinum de = 0) then ls_dir fuel' path fd else
      let buf := path ++ cs "/" ++ CString.upto (CString.chars (dname de)) DIRSIZ in
      let! st := Ulib.stat buf in
      match st with
      | (r, Some st) =>
          if decide (r < 0) then printf 1 (cs "ls: cannot stat %s" ++ nl) [AStr (Some buf)] ;;; ls_dir fuel' path fd
          else ls_line buf st ;;; ls_dir fuel' path fd
      | (_, None) => printf 1 (cs "ls: cannot stat %s" ++ nl) [AStr (Some buf)] ;;; ls_dir fuel' path fd
      end
  end.

Definition ls (fuel : nat) (path : list Z) : M S unit :=
  let! fd := u_open path 0 in
  if decide (fd < 0) then printf 2 (cs "ls: cannot open %s" ++ nl) [AStr (Some path)] else
  let! r := u_fstat fd in
  if decide (r.1 < 0) then
    printf 2 (cs "ls: cannot stat %s" ++ nl) [AStr (Some path)] ;;;
    let! _ := u_close fd in ret tt
  else
  let st := r.2 in
  (if decide (Fs.st_type st = Fs.T_FILE) then ls_line path st
   else if decide (Fs.st_type st = Fs.T_DIR) then
     if decide (512 < length path + 1 + DIRSIZ + 1)%nat then printf 1 (cs "ls: path too long" ++ nl) []
     else ls_dir fuel path fd
   else ret tt) ;;;
  let! _ := u_close fd in
  ret tt.

Definition ls_main (fuel : nat) (argv : list (list Z)) : M S unit :=
  match argv with
  | _ :: ((_ :: _) as paths) => forM paths (ls fuel) ;;; u_exit
  | _ => ls fuel (cs ".") ;;; u_exit
  end.

(** ** ln.c, rm.c, mkdir.c, kill.c *)

Definition ln_main (argv : list (list Z)) : M S unit :=
  match argv with
  | [_; old; new] =>
      let! r := u_link old new in
      (if decide (r < 0) then printf 2 (cs "link %s %s: failed" ++ nl) [AStr (Some old); AStr (Some new)] else ret tt) ;;;
      u_exit
  | _ => printf 2 (cs "Usage: ln old new" ++ nl) [] ;;; u_exit
  end.

(** The loop that gives up at the first failure. *)
Fixpoint each_file (call : list Z -> M S Z) (msg : list Z) (files : list (list Z)) : M S unit :=
  match files with
  | [] => ret tt
  | f :: files' =>
      let! r := call f in
      if decide (r < 0) then printf 2 msg [AStr (Some f)] else each_file call msg files'
  end.

Definition rm_main (argv : list (list Z)) : M S unit :=
  (if decide (length argv < 2)%nat then printf 2 (cs "Usage: rm files..." ++ nl) []
   else each_file u_unlink (cs "rm: %s failed to delete" ++ nl) (drop 1 argv)) ;;;
  u_exit.

Definition mkdir_main (argv : list (list Z)) : M S unit :=
  (if decide (length argv < 2)%nat then printf 2 (cs "Usage: mkdir files..." ++ nl) []
   else each_file u_mkdir (cs "mkdir: %s failed to create" ++ nl) (drop 1 argv)) ;;;
  u_exit.

Definition kill_main (argv : list (list Z)) : M S unit :=
  if decide (length argv < 2)%nat then printf 2 (cs "usage: kill pid..." ++ nl) [] ;;; u_exit else
  forM (drop 1 argv) (fun a =>
    match CString.atoi (CString.chars a) (length a + 1) with
    | Some pid => let! _ := u_kill pid in ret tt
    | None => stop_with Undefined
    end) ;;;
  u_exit.

(** ** init.c *)

(** [while((wpid=wait()) >= 0 && wpid != pid) printf(..)] *)
Fixpoint init_wait (fuel : nat) (pid : Z) : M S unit :=
  match fuel with
  | O => stop_with Spins
  | Datatypes.S fuel' =>
      let! wpid := u_wait in
      if decide (0 <= wpid /\ wpid <> pid) then printf 1 (cs "zombie!" ++ nl) [] ;;; init_wait fuel' pid
      else ret tt
  end.

(** The loop of [init] never ends: [fuel] bounds its rounds. *)
Fixpoint init_loop (fuel : nat) : M S unit :=
  match fuel with
  | O => stop_with Spins
  | Datatypes.S fuel' =>
      printf 1 (cs "init: starting sh" ++ nl) [] ;;;
      let! pid := u_fork in
      if decide (pid < 0) then printf 1 (cs "init: fork failed" ++ nl) [] ;;; u_exit
      else if decide (pid = 0) then
        let! _ := u_exec (cs "sh") [cs "sh"] in
        printf 1 (cs "init: exec sh failed" ++ nl) [] ;;; u_exit
      else init_wait fuel pid ;;; init_loop fuel'
  end.

Definition init_main (fuel : nat) : M S unit :=
  let! fd := u_open (cs "console") 2 in
  (if decide (fd < 0) then
     let! _ := u_mknod (cs "console") 1 1 in
     let! _ := u_open (cs "console") 2 in ret tt
   else ret tt) ;;;
  let! _ := u_dup 0 in
  let! _ := u_dup 0 in
  init_loop fuel.

(** ** zombie.c, my_userapp.c *)

Definition zombie_main : M S unit :=
  let! pid := u_fork in
  (if decide (0 < pid) then let! _ := u_sleep 5 in ret tt else ret tt) ;;;
  u_exit.

Definition my_userapp_main : M S unit :=
  let! pid := u_getpid in
  printf 1 (cs "My pid is: %d" ++ nl) [AInt pid] ;;;
  let! ppid := u_getppid in
  printf 1 (cs "My ppid is: %d" ++ nl) [AInt ppid] ;;;
  u_exit.
End programs.

(** ** What the words of a text are *)

Fixpoint words_of (l : list Z) : list (list Z) :=
  match l with
  | [] => []
  | c :: l' =>
      if decide (is_space c) then words_of l' else
      match l' with
      | d :: _ => if decide (is_space d) then [c] :: words_of l'
                  else match words_of l' with w :: ws => (c :: w) :: ws | [] => [[c]] end
      | [] => [[c]]
      end
  end.

Definition count_nl (l : list Z) : Z := Z.of_nat (length (filter (fun c => c = 10) l)).

(** The text begins inside a word. *)
Definition starts (l : list Z) : bool := match l with [] => false | c :: _ => negb (bool_decide (is_space c)) end.

Lemma words_starts l : starts l = true -> words_of l <> [].
Proof.
  destruct l as [|c l]; [done|]. simpl. intros Hc. case_bool_decide; [done|]. rewrite decide_False by done.
  destruct l as [|d l]; [done|]. case_decide; [done|]. by destruct (words_of (d :: l)).
Qed.

Lemma words_cons c l : length (words_of (c :: l)) =
  (length (words_of l) + if decide (is_space c) then 0 else if starts l then 0 else 1)%nat.
Proof.
  cbn [words_of]. case_decide as Hc; [lia|]. destruct l as [|d l]; [done|]. cbn [starts].
  case_bool_decide as Hd; simpl negb; cbn iota.
  - rewrite decide_True by done. cbn [length]. lia.
  - rewrite decide_False by done. pose proof (words_starts (d :: l)) as Hw. cbn [starts] in Hw.
    rewrite bool_decide_false in Hw by done. specialize (Hw eq_refl). destruct (words_of (d :: l)); [done|]. cbn [length]. lia.
Qed.

Lemma words_length l : (length (words_of l) <= length l)%nat.
Proof.
  induction l as [|c l IH]; [done|]. rewrite words_cons. cbn [length].
  destruct (decide (is_space c)), (starts l); lia.
Qed.

Lemma wc_fold l : forall x, let y := foldl wc_char x l in
  wl y = wl x + count_nl l /\ wch y = wch x + Z.of_nat (length l) /\
  ww y = ww x + Z.of_nat (length (words_of l)) - (if inword x && starts l then 1 else 0).
Proof.
  induction l as [|c l IH]; intros x; cbn [foldl].
  { unfold count_nl. simpl. rewrite andb_false_r. lia. }
  destruct (IH (wc_char x c)) as (E1 & E2 & E3). rewrite words_cons. cbn [length starts]. unfold count_nl in *.
  rewrite filter_cons. unfold wc_char in *. destruct (decide (is_space c)) as [Hs|Hs].
  - rewrite bool_decide_true by done. destruct (decide (c = 10)); cbn [wl ww wch inword andb negb length] in *; rewrite ?andb_false_r; lia.
  - rewrite bool_decide_false by done. assert (c <> 10) by (intros ->; apply Hs; unfold is_space; set_solver).
    destruct (decide (c = 10)); [done|].
    destruct (inword x), (starts l); cbn [wl ww wch inword andb negb length] in *; lia.
Qed.

Section run.
Context {S : Type} `{SysSpec S}.
Implicit Types (s : S) (v : uview).

Lemma consume_consume fd a b v : veq (consume fd a (consume fd b v)) (consume fd a v).
Proof. split; [|done]. intros k. simpl. unfold fupd. by case_decide. Qed.

Lemma runs_cat fuel fd : forall s v, shows s v -> (length (uin v fd) < fuel)%nat ->
  runs (cat fuel fd) (fun _ s' => shows s' (emit 1 (uin v fd) (consume fd [] v))) s.
Proof.
  induction fuel as [|fuel IH]; intros s v Hs Hf; [lia|]. cbn [cat]. apply runs_bind.
  eapply runs_read; [done | lia |]. intros s1 l l' El Hl Hnil Hs1. cbn [fst snd]. rewrite El in *.
  rewrite length_app in Hf. case_decide as Hpos.
  - rewrite Nat2Z.id, firstn_all. apply runs_bind. eapply runs_write; [done|]. intros s2 Hs2. rewrite decide_False by lia.
    eapply runs_mono.
    + apply (IH _ _ Hs2). simpl. rewrite fupd_eq. lia.
    + intros r s3 Hs3. simpl in Hs3. rewrite fupd_eq in Hs3. eapply shows_proper; [reflexivity | | exact Hs3].
      change (consume fd [] (emit 1 l (consume fd l' v))) with (emit 1 l (consume fd [] (consume fd l' v))).
      by rewrite emit_emit, consume_consume.
  - rewrite decide_False by lia. assert (l = []) as -> by (apply nil_length_inv; lia). rewrite (Hnil eq_refl) in *.
    apply runs_ret. by rewrite emit_nil.
Qed.

Lemma runs_wc_loop fuel fd : forall s v x, shows s v -> (length (uin v fd) < fuel)%nat ->
  runs (wc_loop fuel fd x) (fun y s' => y = foldl wc_char x (uin v fd) /\ shows s' (consume fd [] v)) s.
Proof.
  induction fuel as [|fuel IH]; intros s v x Hs Hf; [lia|]. cbn [wc_loop]. apply runs_bind.
  eapply runs_read; [done | lia |]. intros s1 l l' El Hl Hnil Hs1. cbn [fst snd]. rewrite El in *.
  rewrite length_app in Hf. case_decide as Hpos.
  - rewrite Nat2Z.id, firstn_all. eapply runs_mono.
    + apply (IH _ _ _ Hs1). simpl. rewrite fupd_eq. lia.
    + intros y s2 [-> Hs2]. simpl in *. rewrite fupd_eq, foldl_app. split; [done|]. by rewrite consume_consume in Hs2.
  - rewrite decide_False by lia. assert (l = []) as -> by (apply nil_length_inv; lia). rewrite (Hnil eq_refl) in *.
    apply runs_ret. done.
Qed.
End run.

(** A count as [printf] writes it. *)
Definition dec (n : Z) : list Z := number n 10 true.

Module UserProgs.
Section claims.
Context {S : Type} `{SysSpec S}.

(** Cat and wc see the whole stream, in whatever pieces it arrives.  [cat] ends and has
    copied every byte to its output; [wc] ends and has written the numbers of newlines,
    of words (maximal runs of other characters than blanks) and of bytes. *)
Theorem cat_wc_stream (s : S) v fd name : shows s v -> Z.of_nat (length (uin v fd)) < 2 ^ 31 ->
  let l := uin v fd in let fuel := (length l + 1)%nat in
  runs (cat fuel fd) (fun _ s' => shows s' (emit 1 l (consume fd [] v))) s /\
  runs (wc fuel fd name) (fun _ s' => shows s'
    (emit 1 (dec (count_nl l) ++ cs " " ++ dec (Z.of_nat (length (words_of l))) ++ cs " " ++
             dec (Z.of_nat (length l)) ++ cs " " ++ name ++ nl) (consume fd [] v))) s.
Proof.
  intros Hs Hlen l fuel. assert (length (uin v fd) < fuel)%nat as Hf by (unfold fuel, l; lia).
  split; [by apply runs_cat|]. apply runs_bind.
  eapply runs_mono; [apply (runs_wc_loop fuel fd s v (WC 0 0 0 false) Hs Hf)|]. intros x s1 [-> Hs1].
  destruct (wc_fold l (WC 0 0 0 false)) as (E1 & E2 & E3). cbn [wl ww wch inword andb] in *. fold l.
  rewrite !Z.add_0_l in *. rewrite Z.sub_0_r in E3. rewrite E1, E2, E3.
  eapply runs_printf; [reflexivity | exact Hs1 |]. intros s2 Hs2.
  assert (Z.of_nat (length (words_of l)) <= Z.of_nat (length l) /\ count_nl l <= Z.of_nat (length l)) as [Hw Hn].
  { split; [pose proof (words_length l); lia|]. unfold count_nl. pose proof (length_filter (fun c => c = 10) l). lia. }
  assert (0 <= count_nl l) by (unfold count_nl; lia).
  fold l in Hlen. rewrite !i32_small in Hs2 by lia. exact Hs2.
Qed.
End claims.

Lemma cat_wc_stream_witness :
  let w := world_of 0 (cs "to be" ++ nl) in let v := UView (win w) (wout w) in
  @runs world unit (@wc world file_world 7 0 [])
    (fun _ s' => @shows world _ file_spec s' (emit 1 (cs "1 2 6 " ++ nl) (consume 0 [] v))) w.
Proof.
  intros w v. destruct (@cat_wc_stream world file_world file_spec w v 0 []) as [_ Hw]; [apply world_shows | done |].
  exact Hw.
Defined.
End UserProgs.
