(* ===== verification/Grep.v ===== *)
(** The pattern search program: src/xv6-public/grep.c.

    The matcher is compared with the language a pattern stands for; the search of
    a file with the list of its lines that match. *)

From S2P Require Import Prelude CString Fs User.

(** ** The matcher

    A C string is the list of the characters before its terminator; reading the
    terminator is reading [[]]. *)

Notation c_caret := 94 (only parsing).
Notation c_dollar := 36 (only parsing).
Notation c_dot := 46 (only parsing).
Notation c_star := 42 (only parsing).

(** [matchstar(c, re, text)], given [matchhere re]. *)
Fixpoint matchstar (here : list Z -> bool) (c : Z) (text : list Z) : bool :=
  if here text then true else
  match text with
  | [] => false
  | t :: text' => if decide (t = c \/ c = c_dot) then matchstar here c text' else false
  end.

Fixpoint matchhere (re : list Z) (text : list Z) : bool :=
  match re with
  | [] => true
  | c :: re1 =>
      let plain :=
        if decide (c = c_dollar /\ re1 = []) then bool_decide (text = []) else
        match text with
        | [] => false
        | t :: text' => if decide (c = c_dot \/ c = t) then matchhere re1 text' else false
        end in
      match re1 with
      | c1 :: re2 => if decide (c1 = c_star) then matchstar (matchhere re2) c text else plain
      | [] => plain
      end
  end.

Fixpoint match_anywhere (re : list Z) (text : list Z) : bool :=
  if matchhere re text then true else
  match text with
  | [] => false
  | _ :: text' => match_anywhere re text'
  end.

Definition match_ (re text : list Z) : bool :=
  match re with
  | c :: re' => if decide (c = c_caret) then matchhere re' text else match_anywhere re text
  | [] => match_anywhere re text
  end.

(** ** The language of a pattern *)

(** One character, any character, or any number of either, then perhaps the end of
    the text. *)
Inductive item :=
| One (c : Z)
| Many (c : Z).

Record pattern := Pattern { anchored : bool; items : list item; to_end : bool }.

(** Reading a pattern.  A star after a character repeats it; a dollar is special only
    at the end and a caret only at the beginning. *)
Fixpoint parse_items (re : list Z) : list item * bool :=
  match re with
  | [] => ([], false)
  | c :: re1 =>
      match re1 with
      | c1 :: re2 =>
          if decide (c1 = c_star) then let r := parse_items re2 in (Many c :: r.1, r.2)
          else let r := parse_items re1 in (One c :: r.1, r.2)
      | [] => if decide (c = c_dollar) then ([], true) else ([One c], false)
      end
  end.

Definition parse (re : list Z) : pattern :=
  match re with
  | c :: re' => if decide (c = c_caret) then let r := parse_items re' in Pattern true r.1 r.2
                else let r := parse_items re in Pattern false r.1 r.2
  | [] => Pattern false [] false
  end.

(** The character [c] of a pattern stands for [t]. *)
Definition admits (c t : Z) : Prop := c = c_dot \/ c = t.

(** The words of a list of items. *)
Inductive word : list item -> list Z -> Prop :=
| word_nil : word [] []
| word_one c t r w : admits c t -> word r w -> word (One c :: r) (t :: w)
| word_many c l r w : Forall (admits c) l -> word r w -> word (Many c :: r) (l ++ w).

(** Some part of the text is a word of the pattern, at the beginning and up to the end
    where the pattern says so. *)
Definition in_language (p : pattern) (text : list Z) : Prop :=
  exists pre w post, text = pre ++ w ++ post /\ word (items p) w /\
    (anchored p = true -> pre = []) /\ (to_end p = true -> post = []).

(** ** The matcher decides the language *)

(** A word at the beginning of the text. *)
Definition begins (r : list item * bool) (text : list Z) : Prop :=
  exists w post, text = w ++ post /\ word r.1 w /\ (r.2 = true -> post = []).

Lemma matchstar_spec here c text : matchstar here c text = true <->
  exists l post, text = l ++ post /\ Forall (admits c) l /\ here post = true.
Proof.
  split.
  - induction text as [|t text IH]; simpl; (destruct (here _) eqn:E; [intros _; by eexists [], _|]).
    + done.
    + case_decide as Hc; [|done]. intros (l & post & -> & Hl & Hp)%IH.
      exists (t :: l), post. split; [done|]. split; [|done]. constructor; [unfold admits; naive_solver | done].
  - intros (l & post & -> & Hl & Hp). induction Hl as [|t l Ht Hl IH]; simpl.
    + destruct post; simpl; by rewrite Hp.
    + destruct (here (t :: l ++ post)); [done|]. rewrite decide_True; [done|]. unfold admits in Ht. naive_solver.
Qed.

Lemma begins_one c r text : begins (One c :: r.1, r.2) text <->
  exists t text', text = t :: text' /\ admits c t /\ begins r text'.
Proof.
  split.
  - intros (w & post & -> & Hw & Hend). inversion Hw; subst. exists t, (w0 ++ post). split; [done|]. split; [done|].
    by exists w0, post.
  - intros (t & text' & -> & Ha & w & post & -> & Hw & Hend). exists (t :: w), post. split; [done|]. split; [|done].
    by constructor.
Qed.

Lemma begins_many c r text : begins (Many c :: r.1, r.2) text <->
  exists l text', text = l ++ text' /\ Forall (admits c) l /\ begins r text'.
Proof.
  split.
  - intros (w & post & -> & Hw & Hend). inversion Hw; subst. exists l, (w0 ++ post). split; [by rewrite app_assoc|]. split; [done|].
    by exists w0, post.
  - intros (l & text' & -> & Ha & w & post & -> & Hw & Hend). exists (l ++ w), post. split; [by rewrite app_assoc|]. split; [|done].
    by constructor.
Qed.

Lemma begins_nil b text : begins ([], b) text <-> (b = true -> text = []).
Proof.
  split.
  - intros (w & post & -> & Hw & Hend). inversion Hw; subst. done.
  - intros Hend. exists [], text. split; [done|]. split; [constructor | done].
Qed.

(** The step over one character, given the step after it. *)
Lemma one_char c (f : list Z -> bool) r text : (forall text', f text' = true <-> begins r text') ->
  (match text with
   | [] => false
   | t :: text' => if decide (c = c_dot \/ c = t) then f text' else false
   end) = true <-> exists t text', text = t :: text' /\ admits c t /\ begins r text'.
Proof.
  intros Hf. destruct text as [|t text]; [split; [done | by intros (? & ? & ? & _)]|].
  case_decide as Hc; rewrite ?Hf; unfold admits; naive_solver.
Qed.

Lemma matchhere_spec re text : matchhere re text = true <-> begins (parse_items re) text.
Proof.
  revert text. induction re as [re IH] using (induction_ltof1 _ length). unfold ltof in IH. intros text.
  destruct re as [|c [|c1 re2]]; cbn [matchhere parse_items].
  - rewrite begins_nil. done.
  - case_decide as Hd.
    + rewrite decide_True by naive_solver. rewrite begins_nil, bool_decide_eq_true. naive_solver.
    + rewrite decide_False by naive_solver. rewrite (begins_one c ([], false)). apply one_char. apply (IH []). simpl. lia.
  - case_decide as Hs.
    + rewrite matchstar_spec, begins_many. split; intros (l & post & -> & Hl & Hp); exists l, post; (split; [done|]);
        (split; [done|]); by apply (IH re2 ltac:(simpl; lia)).
    + rewrite decide_False by naive_solver. rewrite begins_one. apply one_char. intros text'. exact (IH (c1 :: re2) ltac:(simpl; lia) text').
Qed.

Lemma match_anywhere_spec re text : match_anywhere re text = true <->
  exists pre post, text = pre ++ post /\ begins (parse_items re) post.
Proof.
  split.
  - induction text as [|t text IH]; cbn [match_anywhere]; (destruct (matchhere _ _) eqn:E; [intros _; eexists [], _; by rewrite <- matchhere_spec|]).
    + done.
    + intros (pre & post & -> & Hp)%IH. by exists (t :: pre), post.
  - intros (pre & post & -> & Hp%matchhere_spec). induction pre as [|t pre IH]; cbn [match_anywhere app].
    + destruct post; cbn [match_anywhere]; by rewrite Hp.
    + by destruct (matchhere re (t :: pre ++ post)).
Qed.

(** ** Searching a file

    [buf] is a memory of its own, at address 0. *)

Definition sizeof_buf : Z := 1024.

(** The bytes [read] stores at [a]. *)
Fixpoint mwrite (m : CString.mem) (a : Z) (l : list Z) : CString.mem :=
  match l with
  | [] => m
  | c :: l' => mwrite (CString.mset m a c) (a + 1) l'
  end.

(** [n] bytes from [a]. *)
Definition mread (m : CString.mem) (a n : Z) : list Z := (fun i => m (a + i)) <$> seqZ 0 n.

Section grep.
Context {S : Type} `{Sys S}.

(** The loop over the lines in the buffer; the result is the buffer and the start of the
    first incomplete line.  Every round moves [p] past a newline of the buffer. *)
Fixpoint grep_lines (fuel : nat) (pattern : list Z) (buf : CString.mem) (p : Z) : M S (CString.mem * Z) :=
  match fuel with
  | O => stop_with Spins
  | Datatypes.S fuel' =>
      match CString.strchr (CString.at_ptr buf p) 10 (Z.to_nat sizeof_buf) with
      | None => stop_with Undefined
      | Some None => ret (buf, p)
      | Some (Some i) =>
          let q := p + Z.of_nat i in
          let buf := CString.mset buf q 0 in
          if match_ pattern (CString.upto (CString.at_ptr buf p) (Z.to_nat sizeof_buf)) then
            let buf := CString.mset buf q 10 in
            let! _ := u_write 1 (mread buf p (q + 1 - p)) in
            grep_lines fuel' pattern buf (q + 1)
          else grep_lines fuel' pattern buf (q + 1)
      end
  end.

Fixpoint grep_loop (fuel : nat) (pattern : list Z) (fd : Z) (buf : CString.mem) (m : Z) : M S CString.mem :=
  match fuel with
  | O => stop_with Spins
  | Datatypes.S fuel' =>
      let! r := u_read fd (u32 (sizeof_buf - m - 1)) in
      if decide (r.1 <= 0) then ret buf else
      let buf := mwrite buf m r.2 in
      let m := m + r.1 in
      let buf := CString.mset buf m 0 in
      let! bp := grep_lines (Z.to_nat sizeof_buf) pattern buf 0 in
      let buf := bp.1 in
      let p := bp.2 in
      let m := if decide (p = 0) then 0 else m in
      if decide (0 < m) then
        let m := m - p in
        grep_loop fuel' pattern fd (CString.umemmove buf 0 p m) m
      else grep_loop fuel' pattern fd buf m
  end.

(** [grep(pattern, fd)]: the result is the buffer; [fuel] bounds the number of reads. *)
Definition grep (fuel : nat) (pattern : list Z) (fd : Z) (buf : CString.mem) : M S CString.mem :=
  grep_loop fuel pattern fd buf 0.

(** The loop over the arguments from the second. *)
Fixpoint grep_files (fuel : nat) (pattern : list Z) (files : list (list Z)) (buf : CString.mem) : M S unit :=
  match files with
  | [] => u_exit
  | f :: files' =>
      let! fd := u_open f 0 in
      if decide (fd < 0) then printf 1 (cs "grep: cannot open %s" ++ nl) [AStr (Some f)] ;;; u_exit else
      let! buf := grep fuel pattern fd buf in
      let! _ := u_close fd in
      grep_files fuel pattern files' buf
  end.

Definition grep_main (fuel : nat) (argv : list (list Z)) : M S unit :=
  let buf := fun _ => 0 in
  match argv with
  | _ :: pattern :: [] => let! _ := grep fuel pattern 0 buf in u_exit
  | _ :: pattern :: files => grep_files fuel pattern files buf
  | _ => printf 2 (cs "usage: grep pattern [file ...]" ++ nl) [] ;;; u_exit
  end.
End grep.

(** ** The lines of a text *)

(** The complete lines, without their newlines, and the rest. *)
Fixpoint split_lines (l : list Z) : list (list Z) * list Z :=
  match l with
  | [] => ([], [])
  | c :: l' =>
      let r := split_lines l' in
      if decide (c = 10) then ([] :: r.1, r.2)
      else match r.1 with
           | [] => ([], c :: r.2)
           | line :: ls => ((c :: line) :: ls, r.2)
           end
  end.

Definition unlines (ls : list (list Z)) : list Z := concat ((fun line => line ++ [10]) <$> ls).

(** What grep is to print. *)
Definition matching (pattern : list Z) (ls : list (list Z)) : list Z :=
  unlines (filter (fun line => match_ pattern line = true) ls).

Definition no_nl (l : list Z) : Prop := Forall (fun c => c <> 10) l.

Lemma unlines_cons line ls : unlines (line :: ls) = line ++ 10 :: unlines ls.
Proof. unfold unlines. simpl. by rewrite <- app_assoc. Qed.

Lemma split_lines_line line l : no_nl line ->
  split_lines (line ++ 10 :: l) = (line :: (split_lines l).1, (split_lines l).2).
Proof. induction 1 as [|c line Hc _ IH]; [done|]. simpl. by rewrite IH, decide_False. Qed.

Lemma split_lines_rest l : no_nl l -> split_lines l = ([], l).
Proof. induction 1 as [|c l Hc _ IH]; [done|]. simpl. by rewrite IH, decide_False. Qed.

Lemma split_lines_unlines ls rest : Forall no_nl ls -> no_nl rest -> split_lines (unlines ls ++ rest) = (ls, rest).
Proof.
  intros Hls Hrest. induction Hls as [|line ls Hline _ IH]; [by apply split_lines_rest|].
  by rewrite unlines_cons, <- app_assoc, <- app_comm_cons, split_lines_line, IH.
Qed.

Lemma split_lines_inv l : l = unlines (split_lines l).1 ++ (split_lines l).2 /\
  Forall no_nl (split_lines l).1 /\ no_nl (split_lines l).2.
Proof.
  induction l as [|c l (IH1 & IH2 & IH3)]; [repeat constructor|]. simpl.
  destruct (split_lines l) as [ls rest]. simpl in *. case_decide as Hc.
  - subst c. unfold unlines. simpl. split; [f_equal; exact IH1|]. split; [constructor; [constructor | done] | done].
  - destruct ls as [|line ls]; simpl.
    + split; [f_equal; exact IH1|]. split; [done|]. by constructor.
    + split; [unfold unlines in *; simpl in *; f_equal; exact IH1|]. split; [|done].
      inversion IH2; subst. constructor; [by constructor | done].
Qed.

Lemma split_lines_app ls a : Forall no_nl ls ->
  split_lines (unlines ls ++ a) = (ls ++ (split_lines a).1, (split_lines a).2).
Proof.
  induction 1 as [|line ls Hline _ IH]; [change (unlines [] ++ a) with a; by destruct (split_lines a)|].
  by rewrite unlines_cons, <- app_assoc, <- app_comm_cons, split_lines_line, IH.
Qed.

Lemma matching_app pattern ls ls' : matching pattern (ls ++ ls') = matching pattern ls ++ matching pattern ls'.
Proof. unfold matching, unlines. by rewrite filter_app, fmap_app, concat_app. Qed.

(** A text has no newline or a first one. *)
Lemma first_nl l : no_nl l \/ exists line l', l = line ++ 10 :: l' /\ no_nl line.
Proof.
  induction l as [|c l IH]; [left; constructor|]. destruct (decide (c = 10)) as [->|Hc]; [right; exists [], l; split; [done | constructor]|].
  destruct IH as [IH|(line & l' & -> & IH)]; [left; by constructor|]. right. exists (c :: line), l'.
  split; [done | by constructor].
Qed.

(** ** The buffer *)

Definition nonzero (l : list Z) : Prop := Forall (fun c => c <> 0) l.

(** The C string at [p] is [l]. *)
Definition str_at (m : CString.mem) (p : Z) (l : list Z) : Prop :=
  forall i, (i <= length l)%nat -> m (p + Z.of_nat i) = nth i l 0.

Lemma str_at_app m p l k : str_at m p (l ++ k) -> str_at m (p + Z.of_nat (length l)) k.
Proof.
  intros Hs i Hi. replace (p + Z.of_nat (length l) + Z.of_nat i) with (p + Z.of_nat (length l + i)) by lia.
  rewrite Hs by (rewrite length_app; lia). rewrite app_nth2 by lia. f_equal. lia.
Qed.

Lemma strchr_none (s : CString.cstr) l fuel : (forall i, (i <= length l)%nat -> s i = nth i l 0) -> nonzero l -> no_nl l ->
  (length l < fuel)%nat -> CString.strchr s 10 fuel = Some None.
Proof.
  revert s fuel. induction l as [|c l IH]; intros s fuel Hs Hz Hn Hf; (destruct fuel as [|fuel]; [simpl in Hf; lia|]); simpl.
  - by rewrite decide_True by (by rewrite (Hs O)).
  - inversion Hz; inversion Hn; subst. rewrite (Hs O), !decide_False by (simpl; (done || lia)).
    rewrite (IH (CString.tail s)); [done | | done | done | simpl in Hf; lia].
    intros i Hi. apply (Hs (S i)). simpl. lia.
Qed.

Lemma strchr_some (s : CString.cstr) line l fuel : (forall i, (i <= length line)%nat -> s i = nth i (line ++ 10 :: l) 0) ->
  nonzero line -> no_nl line -> (length line < fuel)%nat -> CString.strchr s 10 fuel = Some (Some (length line)).
Proof.
  revert s fuel. induction line as [|c line IH]; intros s fuel Hs Hz Hn Hf; (destruct fuel as [|fuel]; [simpl in Hf; lia|]); simpl.
  - rewrite (Hs O) by done. done.
  - inversion Hz; inversion Hn; subst. rewrite (Hs O), !decide_False by (simpl; (done || lia)).
    rewrite (IH (CString.tail s)); [done | | done | done | simpl in Hf; lia].
    intros i Hi. apply (Hs (S i)). simpl. lia.
Qed.

Lemma upto_str (s : CString.cstr) l n : (forall i, (i <= length l)%nat -> s i = nth i l 0) -> nonzero l ->
  (length l <= n)%nat -> CString.upto s n = l.
Proof.
  revert s n. induction l as [|c l IH]; intros s n Hs Hz Hn.
  - destruct n; simpl; [done|]. by rewrite decide_True by (by rewrite (Hs O)).
  - destruct n as [|n]; [simpl in Hn; lia|]. simpl. inversion Hz; subst. rewrite (Hs O), decide_False by (simpl; (done || lia)).
    cbn [nth]. f_equal. apply IH; [|done | simpl in Hn; lia]. intros i Hi. apply (Hs (S i)). simpl. lia.
Qed.

Lemma mwrite_at l : forall m a x, mwrite m a l x =
  if decide (a <= x < a + Z.of_nat (length l)) then nth (Z.to_nat (x - a)) l 0 else m x.
Proof.
  induction l as [|c l IH]; intros m a x; simpl; [by rewrite decide_False by lia|].
  rewrite IH. unfold CString.mset. destruct (decide (x = a)) as [->|Hx].
  - rewrite decide_False, decide_True by lia. by rewrite Z.sub_diag.
  - repeat case_decide; try lia. replace (Z.to_nat (x - a)) with (S (Z.to_nat (x - (a + 1)))) by lia. done.
Qed.

Lemma mread_str m p l : (forall i, (i < length l)%nat -> m (p + Z.of_nat i) = nth i l 0) -> mread m p (Z.of_nat (length l)) = l.
Proof.
  intros Hs. apply (list_eq_same_length _ _ (length l)); [done | unfold mread; rewrite length_fmap, length_seqZ; lia |].
  intros i x y Hi Hx Hy. unfold mread in Hx. rewrite list_lookup_fmap, lookup_seqZ_lt in Hx by lia. simpl in Hx.
  injection Hx as <-. replace (p + _) with (p + Z.of_nat i) by lia. rewrite Hs by done. rewrite nth_lookup, Hy. done.
Qed.

Lemma mread_line buf p line l : (forall i, (i <= length line)%nat -> buf (p + Z.of_nat i) = nth i (line ++ 10 :: l) 0) ->
  let q := p + Z.of_nat (length line) in
  mread (CString.mset (CString.mset buf q 0) q 10) p (q + 1 - p) = line ++ [10].
Proof.
  intros Hbuf q. replace (q + 1 - p) with (Z.of_nat (length (line ++ [10]))) by (rewrite length_app; simpl; lia).
  apply mread_str. intros i Hi. rewrite length_app in Hi. simpl in Hi. destruct (decide (i = length line)) as [->|Hne].
  - fold q. rewrite CString.mset_eq. by rewrite app_nth2, Nat.sub_diag by lia.
  - rewrite !CString.mset_ne by lia. rewrite Hbuf by lia. by rewrite !app_nth1 by lia.
Qed.

Section run.
Context {S : Type} `{SysSpec S} (pattern : list Z).
Implicit Types (s : S) (v : uview).

Lemma runs_grep_lines fuel : forall buf p data s v (Q : CString.mem * Z -> S -> Prop),
  shows s v -> str_at buf p data -> nonzero data -> (length data < 1024)%nat -> (length data < fuel)%nat ->
  (let ls := (split_lines data).1 in forall s' buf', shows s' (emit 1 (matching pattern ls) v) ->
     str_at buf' (p + Z.of_nat (length (unlines ls))) (split_lines data).2 ->
     Q (buf', p + Z.of_nat (length (unlines ls))) s') ->
  runs (grep_lines fuel pattern buf p) Q s.
Proof.
  induction fuel as [|fuel IH]; intros buf p data s v Q Hs Hbuf Hz Hlen Hfuel HQ; [lia|]. cbn [grep_lines].
  destruct (first_nl data) as [Hn|(line & l & -> & Hn)].
  - rewrite (strchr_none _ data) by (done || (unfold sizeof_buf; lia)). apply runs_ret.
    rewrite (split_lines_rest _ Hn) in HQ. rewrite <- (Z.add_0_r p). apply (HQ s buf); [by rewrite emit_nil|].
    by rewrite Z.add_0_r.
  - rewrite length_app in Hlen, Hfuel. simpl in Hlen, Hfuel. pose proof (proj1 (Forall_app _ _ _) Hz) as [Hz1 Hz2].
    inversion Hz2 as [|? ? _ Hz3]; subst. rewrite (split_lines_line _ _ Hn) in HQ. cbn [fst snd] in HQ.
    rewrite (strchr_some _ line l);
      [| intros i Hi; apply Hbuf; rewrite length_app; simpl; lia | done | done | unfold sizeof_buf; lia].
    set (q := p + Z.of_nat (length line)). rewrite (upto_str _ line); [| | done | unfold sizeof_buf; lia].
    2: { intros i Hi. unfold CString.at_ptr. destruct (decide (i = length line)) as [->|Hne].
         - fold q. rewrite CString.mset_eq, nth_overflow; done.
         - rewrite CString.mset_ne by lia. rewrite Hbuf by (rewrite length_app; lia). apply app_nth1. lia. }
    assert (str_at buf (q + 1) l) as Hrest.
    { pose proof (str_at_app buf p (line ++ [10]) l) as Ha. rewrite <- app_assoc in Ha. specialize (Ha Hbuf).
      rewrite length_app in Ha. replace (q + 1) with (p + Z.of_nat (length line + 1)) by lia. exact Ha. }
    assert (forall b v' s', (forall x, q < x -> b x = buf x) -> shows s' v' ->
      veq (emit 1 (matching pattern (split_lines l).1) v') (emit 1 (matching pattern (line :: (split_lines l).1)) v) ->
      runs (grep_lines fuel pattern b (q + 1)) Q s') as Hnext.
    { intros b v' s' Hb Hs' Ev. eapply IH; [done | | done | lia | lia |].
      - intros i Hi. rewrite Hb by lia. by apply Hrest.
      - intros ls s2 buf2 Hs2 Hbuf2. rewrite unlines_cons, length_app in HQ. simpl in HQ.
        replace (q + 1 + Z.of_nat (length (unlines ls))) with (p + Z.of_nat (length line + Datatypes.S (length (unlines ls)))) in * by lia.
        apply HQ; [by rewrite <- Ev | done]. }
    destruct (match_ pattern line) eqn:Em.
    + apply runs_bind. eapply runs_write; [done|]. intros s1 Hs1.
      unfold q in Hs1. rewrite (mread_line buf p line l) in Hs1 by (intros i Hi; apply Hbuf; rewrite length_app; simpl; lia).
      eapply Hnext; [|exact Hs1|].
      * intros x Hx. by rewrite !CString.mset_ne by lia.
      * rewrite emit_emit. unfold matching. rewrite filter_cons_True, unlines_cons by done. by rewrite <- app_assoc.
    + eapply Hnext; [|exact Hs|].
      * intros x Hx. by rewrite CString.mset_ne by lia.
      * unfold matching. rewrite filter_cons_False by (by rewrite Em). done.
Qed.

(** The lines that fit the buffer. *)
Definition fits (ls : list (list Z)) : Prop := Forall (fun line => (length line <= 1022)%nat) ls.

(** Without a newline in a full buffer, or in all that is left, there is no line that fits. *)
Lemma no_line data l : no_nl data -> fits (split_lines (data ++ l)).1 -> length data = 1023%nat \/ l = [] ->
  (split_lines (data ++ l)).1 = [] /\ (split_lines l).1 = [].
Proof.
  intros Hn Hfit Hfull. destruct (first_nl l) as [Hl|(line & l' & -> & Hl)].
  { rewrite !split_lines_rest; [done | done | by apply Forall_app]. }
  destruct Hfull as [Hfull|Hnil]; [|by destruct line].
  rewrite app_assoc, split_lines_line in Hfit by (by apply Forall_app). inversion Hfit as [|? ? Hlen _]; subst.
  rewrite length_app in Hlen. lia.
Qed.

(** Reading and writing change different parts of the view. *)
Lemma step_view fd fd' a b l v : veq (emit fd' b (consume fd [] (emit fd' a (consume fd l v)))) (emit fd' (a ++ b) (consume fd [] v)).
Proof.
  change (consume fd [] (emit fd' a (consume fd l v))) with (emit fd' a (consume fd [] (consume fd l v))). rewrite emit_emit.
  apply emit_proper. split; [|done]. intros k. simpl. unfold fupd. by case_decide.
Qed.

Lemma runs_grep_loop fd fuel : full_reads fd -> forall pre l s v buf,
  shows s v -> uin v fd = l -> (forall i, (i < length pre)%nat -> buf (Z.of_nat i) = nth i pre 0) ->
  (length pre <= 1022)%nat -> nonzero pre -> nonzero l -> fits (split_lines (pre ++ l)).1 -> no_nl pre -> (length l < fuel)%nat ->
  runs (grep_loop fuel pattern fd buf (Z.of_nat (length pre)))
    (fun _ s' => shows s' (emit 1 (matching pattern (split_lines (pre ++ l)).1) (consume fd [] v))) s.
Proof.
  intros Hfull. induction fuel as [|fuel IH]; intros pre l s v buf Hs El Hbuf Hpre Hz1 Hz2 Hfit Hn Hfuel; [lia|].
  cbn [grep_loop]. unfold sizeof_buf at 1. rewrite u32_small by lia. apply runs_bind.
  set (n := 1024 - Z.of_nat (length pre) - 1). eapply runs_read_full; [done | done | lia |].
  rewrite El. set (d := take (Z.to_nat n) l). set (l' := drop (Z.to_nat n) l). intros s1 Hs1. cbn [fst snd].
  assert (l = d ++ l') as Ed by (symmetry; apply take_drop).
  assert (length d = Nat.min (Z.to_nat n) (length l)) as Ld by apply length_take. case_decide as Hd.
  { assert (l = []) as -> by (apply nil_length_inv; lia). apply runs_ret. rewrite app_nil_r, split_lines_rest by done.
    change (matching pattern []) with (@nil Z). rewrite emit_nil. unfold l' in Hs1. by rewrite drop_nil in Hs1. }
  apply runs_bind. assert (nonzero (pre ++ d)) as Hz by (apply Forall_app; split; [done | by apply Forall_take]).
  eapply (runs_grep_lines _ _ _ (pre ++ d)); [exact Hs1 | | done | rewrite length_app; lia | rewrite length_app; unfold sizeof_buf; lia |].
  { intros i Hi. rewrite length_app in Hi. unfold CString.mset. rewrite mwrite_at. case_decide as E.
    - rewrite nth_overflow; [done|]. rewrite length_app. lia.
    - case_decide; [rewrite app_nth2 by lia; f_equal; lia|]. rewrite app_nth1 by lia. apply Hbuf. lia. }
  intros ls s2 buf2 Hs2 Hbuf2. cbn [fst snd]. rewrite Z.add_0_l in *.
  destruct (split_lines_inv (pre ++ d)) as (Esp & Hls & Hrest). fold ls in Esp, Hls.
  set (rest := (split_lines (pre ++ d)).2) in *.
  assert (nonzero l') as Hz' by (by apply Forall_drop).
  assert (length l' < fuel)%nat as Hf' by (unfold l'; rewrite length_drop; lia).
  assert (pre ++ l = (pre ++ d) ++ l') as Epl by (by rewrite Ed at 1; rewrite app_assoc).
  destruct (decide (ls = [])) as [El0|Hne].
  - rewrite El0 in *. simpl in Esp. change (Z.of_nat (length (unlines []))) with 0. rewrite (decide_True (P := 0 = 0)) by done.
    rewrite decide_False by lia. rewrite Epl in Hfit |- *.
    destruct (no_line (pre ++ d) l') as [N1 N2]; [by rewrite Esp | done | |].
    { unfold l'. destruct (decide (Z.to_nat n <= length l)%nat); [left; rewrite length_app; lia | right; apply drop_ge; lia]. }
    eapply runs_mono.
    + apply (IH [] l' s2 _ buf2 Hs2); [apply fupd_eq | simpl; lia | simpl; lia | constructor | done | simpl; rewrite N2; constructor | constructor | done].
    + intros r s3 Hs3. simpl in Hs3. rewrite N1. rewrite N2 in Hs3. by rewrite step_view in Hs3.
  - assert (0 < length (unlines ls))%nat as Hpos.
    { destruct ls as [|line ls']; [done|]. rewrite unlines_cons, length_app. simpl. lia. }
    assert (length (pre ++ d) = length (unlines ls) + length rest)%nat as Hlen by (by rewrite Esp at 1; rewrite length_app).
    rewrite length_app in Hlen.
    rewrite (decide_False (P := Z.of_nat (length (unlines ls)) = 0)) by lia. rewrite decide_True by lia.
    replace (Z.of_nat (length pre) + Z.of_nat (length d) - Z.of_nat (length (unlines ls))) with (Z.of_nat (length rest)) by lia.
    assert (split_lines (pre ++ l) = (ls ++ (split_lines (rest ++ l')).1, (split_lines (rest ++ l')).2)) as Esl.
    { rewrite Epl, Esp, <- app_assoc. by apply split_lines_app. }
    rewrite Esl in Hfit |- *. cbn [fst] in Hfit |- *. apply Forall_app in Hfit as [_ Hfit].
    eapply runs_mono.
    + apply (IH rest l' s2 _ _ Hs2); [apply fupd_eq | | lia | rewrite Esp in Hz; by apply Forall_app in Hz as [_ ?] | done..].
      intros i Hi. unfold CString.umemmove. rewrite CString.copy_up_ok by lia. unfold CString.copied. rewrite decide_True by lia.
      rewrite <- (Hbuf2 i) by lia. f_equal. lia.
    + intros r s3 Hs3. rewrite matching_app. eapply shows_proper; [reflexivity | | exact Hs3]. symmetry. apply step_view.
Qed.
End run.

Module Grep.

(** C37: The matcher of grep decides the language of the pattern: it answers 1 exactly
    when some part of the text is a word of the pattern, a star standing for any
    number of the character before it, a dot for any character, a caret at the
    beginning and a dollar at the end for the ends of the text. *)
Theorem match_equivalence re text : match_ re text = true <-> in_language (parse re) text.
Proof.
  assert (forall b, matchhere b text = true <-> in_language (Pattern true (parse_items b).1 (parse_items b).2) text) as Hanch.
  { intros b. rewrite matchhere_spec. split.
    - intros (w & post & -> & Hw & He). by exists [], w, post.
    - intros (pre & w & post & -> & Hw & Hp & He). rewrite (Hp eq_refl). by exists w, post. }
  assert (forall b, match_anywhere b text = true <-> in_language (Pattern false (parse_items b).1 (parse_items b).2) text) as Hany.
  { intros b. rewrite match_anywhere_spec. split.
    - intros (pre & ? & -> & w & post & -> & Hw & He). by exists pre, w, post.
    - intros (pre & w & post & -> & Hw & _ & He). exists pre, (w ++ post). split; [done|]. by exists w, post. }
  unfold match_, parse. destruct re as [|c re]; [apply (Hany [])|]. case_decide; [apply Hanch | apply Hany].
Qed.

(** Searching a file.  When reads are as long as possible, the text has no zero byte
    and its lines fit the buffer (at most 1022 characters), [grep] returns after
    reading all of it, and has written exactly the lines that match, in
    order, each with its newline; an unterminated last line is not searched. *)
Theorem grep_file {S : Type} `{SysSpec S} (s : S) v pattern fd buf :
  full_reads fd -> shows s v -> nonzero (uin v fd) -> fits (split_lines (uin v fd)).1 ->
  runs (grep (length (uin v fd) + 1) pattern fd buf)
    (fun _ s' => shows s' (emit 1 (matching pattern (split_lines (uin v fd)).1) (consume fd [] v))) s.
Proof.
  intros Hfull Hs Hz Hfit. apply (runs_grep_loop pattern fd _ Hfull [] (uin v fd) s v buf); simpl; try done; try lia; constructor.
Qed.

Lemma grep_file_witness :
  let text := cs "one" ++ nl ++ cs "two" ++ nl ++ cs "three" in
  @runs world CString.mem (@grep world file_world (length text + 1) (cs "o$") 0 (fun _ => 0))
    (fun _ s' => @shows world _ file_spec s' (emit 1 (cs "two" ++ nl) (consume 0 [] (UView (win (world_of 0 text)) (wout (world_of 0 text))))))
    (world_of 0 text).
Proof.
  intros text. apply (@grep_file world file_world file_spec (world_of 0 text) (UView (win (world_of 0 text)) (wout (world_of 0 text))) (cs "o$") 0).
  - apply file_full.
  - apply world_shows.
  - repeat constructor; done.
  - vm_compute. repeat constructor; lia.
Defined.

(** A line that arrives in pieces is lost: when a read brings no newline, [grep] throws
    away what it has of the line.  A terminal or pipe that delivers one byte at a
    time yields no output where a file with the same bytes yields the line. *)
Theorem grep_loses_pieces : exists buf w,
  @grep world (world_sys (fun _ => 1)) 10 (cs "a") 0 (fun _ => 0) (world_of 0 (cs "ab" ++ nl)) = Ret buf w /\
  wout w 1 = [] /\ matching (cs "a") (split_lines (cs "ab" ++ nl)).1 = cs "ab" ++ nl.
Proof. vm_compute. eexists _, _. split; [reflexivity|]. done. Qed.
End Grep.
