(* ===== verification/Umalloc.v ===== *)
(** The user memory allocator: src/xv6-public/umalloc.c.

    Free blocks form a ring through their headers, in the order of their addresses,
    with the static header [base] as its lowest element.  The state is the
    contents of the memory read as headers, [freep] and the system; addresses
    count bytes and a header is 8 bytes long. *)

From S2P Require Import Prelude Fs User.

(** ** The allocator *)

(** [union header]: the pointer and the size in units of a header. *)
Record header := Header { hptr : Z; hsize : Z }.

Record ustate (S : Type) := UState { uhdr : Z -> header; freep : Z; uos : S }.
Arguments UState {S} uhdr freep uos.
Arguments uhdr {S} u.
Arguments freep {S} u.
Arguments uos {S} u.

Definition hset (h : Z -> header) (a : Z) (x : header) : Z -> header := fun b => if decide (b = a) then x else h b.

Section umalloc.
Context {S : Type} `{Sys S} (base : Z).
Let U := M (ustate S).

Definition get_ptr (p : Z) : U Z := gets (fun s => hptr (uhdr s p)).
Definition get_size (p : Z) : U Z := gets (fun s => hsize (uhdr s p)).
Definition set_ptr (p v : Z) : U unit :=
  modify (fun s => UState (hset (uhdr s) p (Header v (hsize (uhdr s p)))) (freep s) (uos s)).
Definition set_size (p v : Z) : U unit :=
  modify (fun s => UState (hset (uhdr s) p (Header (hptr (uhdr s p)) v)) (freep s) (uos s)).
Definition set_freep (p : Z) : U unit := modify (fun s => UState (uhdr s) p (uos s)).
Definition sys {A} (c : M S A) : U A := zoom uos (fun o s => UState (uhdr s) (freep s) o) c.

(** The search of [free] for the place of [bp] in the ring. *)
Fixpoint free_search (fuel : nat) (bp p : Z) : U Z :=
  match fuel with
  | O => stop_with Spins
  | Datatypes.S fuel' =>
      let! q := get_ptr p in
      if decide (p < bp /\ bp < q) then ret p
      else if decide (q <= p /\ (p < bp \/ bp < q)) then ret p
      else free_search fuel' bp q
  end.

Definition free (fuel : nat) (ap : Z) : U unit :=
  let bp := ap - 8 in
  let! f := gets freep in
  let! p := free_search fuel bp f in
  let! bs := get_size bp in
  let! q := get_ptr p in
  (if decide (u32 (bp + 8 * bs) = q) then
     let! qs := get_size q in
     set_size bp (u32 (bs + qs)) ;;;
     let! qq := get_ptr q in
     set_ptr bp qq
   else set_ptr bp q) ;;;
  let! ps := get_size p in
  (if decide (u32 (p + 8 * ps) = bp) then
     let! bs := get_size bp in
     set_size p (u32 (ps + bs)) ;;;
     let! bq := get_ptr bp in
     set_ptr p bq
   else set_ptr p bp) ;;;
  set_freep p.

Definition morecore (fuel : nat) (nu : Z) : U Z :=
  let nu := if decide (nu < 4096) then 4096 else nu in
  let! p := sys (u_sbrk (i32 (u32 (nu * 8)))) in
  if decide (p = -1) then ret 0 else
  set_size p nu ;;;
  free fuel (p + 8) ;;;
  gets freep.

(** The loop of [malloc]. *)
Fixpoint malloc_loop (fuel : nat) (nunits prevp p : Z) : U Z :=
  match fuel with
  | O => stop_with Spins
  | Datatypes.S fuel' =>
      let! sz := get_size p in
      if decide (nunits <= sz) then
        let! p :=
          (if decide (sz = nunits) then
             let! q := get_ptr p in
             set_ptr prevp q ;;; ret p
           else
             set_size p (sz - nunits) ;;;
             let p := p + 8 * (sz - nunits) in
             set_size p nunits ;;; ret p) in
        set_freep prevp ;;;
        ret (p + 8)
      else
        let! f := gets freep in
        if decide (p = f) then
          let! p := morecore fuel' nunits in
          if decide (p = 0) then ret 0 else
          let! q := get_ptr p in
          malloc_loop fuel' nunits p q
        else
          let! q := get_ptr p in
          malloc_loop fuel' nunits p q
  end.

Definition nunits (nbytes : Z) : Z := u32 (nbytes + 8 - 1) / 8 + 1.

Definition malloc (fuel : nat) (nbytes : Z) : U Z :=
  let n := nunits nbytes in
  let! f := gets freep in
  let! prevp :=
    (if decide (f = 0) then
       set_freep base ;;; set_ptr base base ;;; set_size base 0 ;;; ret base
     else ret f) in
  let! p := get_ptr prevp in
  malloc_loop fuel n prevp p.
End umalloc.

(** ** The free list *)

Notation block := (Z * Z)%type (only parsing).

(** Following the pointers from [a] through the blocks [F] leads to [z]. *)
Fixpoint links (h : Z -> header) (a : Z) (F : list block) (z : Z) : Prop :=
  match F with
  | [] => hptr (h a) = z
  | (b, n) :: F' => hptr (h a) = b /\ hsize (h b) = n /\ links h b F' z
  end.

(** The last block of [F], or [a]. *)
Definition endp (a : Z) (F : list block) : Z := foldl (fun _ b => b.1) a F.

(** Blocks in the order of their addresses after [lo], with a gap before each. *)
Fixpoint spaced (lo : Z) (F : list block) : Prop :=
  match F with
  | [] => True
  | (b, n) :: F' => lo < b /\ 0 < n /\ spaced (b + 8 * n) F'
  end.

Lemma links_app h a F b n G z : links h a (F ++ (b, n) :: G) z <-> links h a F b /\ hsize (h b) = n /\ links h b G z.
Proof. revert a. induction F as [|[c m] F IH]; intros a; simpl; [done|]. rewrite IH. tauto. Qed.

Lemma links_ext h h' a F z : links h a F z -> hptr (h' a) = hptr (h a) -> (forall b n, (b, n) ∈ F -> h' b = h b) -> links h' a F z.
Proof.
  revert a. induction F as [|[c m] F IH]; intros a Hl Ha HF; simpl in *; [congruence|]. destruct Hl as (E1 & E2 & Hl).
  rewrite (HF c m) by left. split; [congruence|]. split; [done|]. apply IH; [done | by rewrite (HF c m) by left |].
  intros b n Hb. apply (HF b n). by right.
Qed.

Lemma endp_snoc a F b : endp a (F ++ [b]) = b.1.
Proof. unfold endp. by rewrite foldl_app. Qed.

Lemma endp_cons a b F : endp a (b :: F) = endp b.1 F.
Proof. done. Qed.

Lemma endp_app a F b G : endp a (F ++ b :: G) = endp b.1 G.
Proof. unfold endp. by rewrite foldl_app. Qed.

Lemma spaced_app lo F b n G : spaced lo (F ++ (b, n) :: G) <-> spaced lo (F ++ [(b, n)]) /\ spaced (b + 8 * n) G.
Proof. revert lo. induction F as [|[c m] F IH]; intros lo; simpl; [tauto|]. rewrite IH. tauto. Qed.

Lemma spaced_prefix lo F G : spaced lo (F ++ G) -> spaced lo F.
Proof. revert lo. induction F as [|[c m] F IH]; intros lo; simpl; [done|]. intros (H1 & H2 & H3). by eauto. Qed.

Lemma spaced_le lo lo' F : lo' <= lo -> spaced lo F -> spaced lo' F.
Proof. destruct F as [|[b n] F]; simpl; [done|]. intros Hl (H1 & H2 & H3). split; [lia|]. done. Qed.

Lemma spaced_elem lo F b n : spaced lo F -> (b, n) ∈ F -> lo < b /\ 0 < n.
Proof.
  revert lo. induction F as [|[c m] F IH]; intros lo Hs Hb; [by apply not_elem_of_nil in Hb|].
  destruct Hs as (H1 & H2 & H3). apply elem_of_cons in Hb as [[= -> ->]|Hb]; [done|].
  destruct (IH _ H3 Hb). lia.
Qed.

(** The last block before [bp]: the blocks below and above. *)
Lemma spaced_split lo F bp n : 0 < n -> lo < bp -> spaced lo F -> (forall b m, (b, m) ∈ F -> b + 8 * m <= bp \/ bp + 8 * n <= b) ->
  exists F1 F2, F = F1 ++ F2 /\ (forall b m, (b, m) ∈ F1 -> b + 8 * m <= bp) /\ (forall b m, (b, m) ∈ F2 -> bp + 8 * n <= b).
Proof.
  intros Hn. revert lo. induction F as [|[c m] F IH]; intros lo Hlo Hs Hd.
  { exists [], []. split; [done|]. split; intros b m Hb; by apply not_elem_of_nil in Hb. }
  destruct Hs as (H1 & H2 & H3). destruct (Hd c m) as [Hc|Hc]; [left | |].
  - destruct (decide (c + 8 * m < bp)) as [Hlt|Hge].
    + destruct (IH _ Hlt H3) as (F1 & F2 & -> & HF1 & HF2); [intros b k Hb; apply Hd; by right|].
      exists ((c, m) :: F1), F2. split; [done|]. split; [|done]. intros b k [[= -> ->]|Hb]%elem_of_cons; [lia | by eapply HF1].
    + exists [(c, m)], F. split; [done|]. split.
      * intros b k Hb%list_elem_of_singleton. injection Hb as -> ->. lia.
      * intros b k Hb. destruct (spaced_elem _ _ _ _ H3 Hb) as [Hb1 Hb2]. destruct (Hd b k) as [Hx|Hx]; [by right | lia | lia].
  - exists [], ((c, m) :: F). split; [done|]. split; [intros b k Hb; by apply not_elem_of_nil in Hb|].
    intros b k [[= -> ->]|Hb]%elem_of_cons; [lia|]. destruct (spaced_elem _ _ _ _ H3 Hb). lia.
Qed.

(** What [malloc] relies on: [sbrk] moves the break up by what it is asked for and returns where it
    was, or fails; user memory ends at the kernel's. *)
Class SbrkSpec (S : Type) `{Sys S} := {
  ubrk : S -> Z;
  sbrk_law : forall s n, 0 < n -> runs (u_sbrk n) (fun r s' =>
    (r = -1 /\ ubrk s' = ubrk s) \/ (r = ubrk s /\ ubrk s' = ubrk s + n /\ ubrk s' <= 2 ^ 31)) s
}.

Section proofs.
Context {S : Type} `{HSys : Sys S, HSpec : !SbrkSpec S} (base : Z).
Implicit Types (s : ustate S) (h : Z -> header) (F G : list block).

(** *** The search of [free] *)

Lemma search_low s bp p G F2 fuel : base < bp -> base <= p -> p < bp -> links (uhdr s) p (G ++ F2) base -> spaced p (G ++ F2) ->
  (forall b n, (b, n) ∈ G -> b < bp) -> (forall b n, (b, n) ∈ F2 -> bp < b) -> (length G < fuel)%nat ->
  free_search fuel bp p s = Ret (endp p G) s.
Proof.
  intros Hb. revert p fuel. induction G as [|[b n] G IH]; intros p fuel Hp0 Hp Hl Hs HG HF Hf;
    (destruct fuel as [|fuel]; [simpl in Hf; lia|]); cbn [free_search]; unfold get_ptr, bind, gets.
  - destruct F2 as [|[b n] F2]; simpl in Hl.
    + rewrite Hl. rewrite decide_False by lia. by rewrite decide_True by lia.
    + destruct Hl as (-> & _). specialize (HF b n ltac:(left)). by rewrite decide_True by lia.
  - destruct Hl as (-> & _ & Hl). destruct Hs as (Hs1 & Hs2 & Hs3). pose proof (HG b n ltac:(left)).
    rewrite !decide_False by lia. rewrite endp_cons. apply IH; [simpl; lia | done | done | | | done | simpl in Hf; lia].
    + by eapply spaced_le; [|exact Hs3]; simpl; lia.
    + intros c m Hc. apply (HG c m). by right.
Qed.

Lemma search_high s bp p G fuel : base < bp -> bp < p -> links (uhdr s) p G base -> spaced p G ->
  free_search (length G + 1 + fuel) bp p s = free_search fuel bp base s.
Proof.
  intros Hb. revert p. induction G as [|[b n] G IH]; intros p Hp Hl Hs; cbn [length Nat.add free_search]; unfold get_ptr, bind, gets.
  - simpl in Hl. rewrite Hl. by rewrite !decide_False by lia.
  - destruct Hl as (-> & _ & Hl). destruct Hs as (Hs1 & Hs2 & Hs3). rewrite !decide_False by lia. apply IH; [lia | done |].
    by eapply spaced_le; [|exact Hs3]; lia.
Qed.

Lemma search_ok s bp F1 F2 f fuel : base < bp -> links (uhdr s) base (F1 ++ F2) base -> spaced base (F1 ++ F2) ->
  (forall b n, (b, n) ∈ F1 -> b < bp) -> (forall b n, (b, n) ∈ F2 -> bp < b) ->
  f ∈ base :: (F1 ++ F2).*1 -> (2 * length (F1 ++ F2) + 2 <= fuel)%nat ->
  free_search fuel bp f s = Ret (endp base F1) s.
Proof.
  intros Hb Hl Hs HF1 HF2 Hf Hfuel. rewrite length_app in Hfuel.
  assert (forall k, (length F1 < k)%nat -> free_search k bp base s = Ret (endp base F1) s) as Hlow.
  { intros k Hk. by apply (search_low s bp base F1 F2); [lia | lia | ..]. }
  apply elem_of_cons in Hf as [->|Hf]; [apply Hlow; lia|]. rewrite fmap_app in Hf.
  apply elem_of_app in Hf as [Hf|Hf]; apply list_elem_of_fmap in Hf as ([g n] & -> & Hg); simpl.
  - apply list_elem_of_split in Hg as (A & B & ->). rewrite <- app_assoc in Hl, Hs. cbn [app] in Hl, Hs.
    apply links_app in Hl as (_ & _ & Hl). apply spaced_app in Hs as [Hs0 Hs].
    destruct (spaced_elem _ _ g n Hs0) as [Hg1 Hg2]; [set_solver|]. rewrite endp_app.
    rewrite length_app in Hfuel. simpl in Hfuel. apply (search_low s bp g B F2); [done | lia | | done | | | done | lia].
    + apply (HF1 g n). set_solver.
    + by eapply spaced_le; [|exact Hs]; lia.
    + intros b m Hm. apply (HF1 b m). set_solver.
  - apply list_elem_of_split in Hg as (A & B & ->). rewrite app_assoc in Hl, Hs.
    apply links_app in Hl as (_ & _ & Hl'). apply spaced_app in Hs as [Hs0 Hs'].
    destruct (spaced_elem _ _ g n Hs0) as [Hg1 Hg2]; [set_solver|]. rewrite length_app in Hfuel. simpl in Hfuel.
    replace fuel with (length B + 1 + (fuel - length B - 1))%nat by lia. rewrite search_high; [|done | | done |].
    + apply Hlow. lia.
    + apply (HF2 g n). set_solver.
    + by eapply spaced_le; [|exact Hs']; lia.
Qed.

(** *** The effect of [free] on the headers *)

(** The header of the freed block [bp] after the upper neighbour [q] has been joined to it. *)
Definition joined h (bp q : Z) : header :=
  if decide (u32 (bp + 8 * hsize (h bp)) = q) then Header (hptr (h q)) (u32 (hsize (h bp) + hsize (h q)))
  else Header q (hsize (h bp)).

Lemma hset_eq h a x : hset h a x a = x.
Proof. unfold hset. by rewrite decide_True. Qed.
Lemma hset_ne h a x b : b <> a -> hset h a x b = h b.
Proof. intros. unfold hset. by rewrite decide_False. Qed.

Ltac ustep :=
  match goal with
  | |- runs (bind _ _) _ _ => apply runs_bind
  | |- runs (ret _) _ _ => apply runs_ret
  | |- runs (gets _) _ _ => apply runs_gets
  | |- runs (get_ptr _) _ _ => apply runs_gets
  | |- runs (get_size _) _ _ => apply runs_gets
  | |- runs (set_ptr _ _) _ _ => apply runs_modify
  | |- runs (set_size _ _) _ _ => apply runs_modify
  | |- runs (set_freep _) _ _ => apply runs_modify
  end; cbn [uhdr freep uos].
Ltac hsimpl := repeat first [rewrite hset_eq | rewrite hset_ne by congruence]; cbn [hptr hsize].

Lemma free_effect fuel s bp p : free_search fuel bp (freep s) s = Ret p s -> p <> bp -> hptr (uhdr s p) <> bp ->
  let b := joined (uhdr s) bp (hptr (uhdr s p)) in
  runs (free fuel (bp + 8)) (fun _ s' => freep s' = p /\ uos s' = uos s /\
    (forall x, x <> p -> x <> bp -> uhdr s' x = uhdr s x) /\ uhdr s' bp = b /\
    uhdr s' p = if decide (u32 (p + 8 * hsize (uhdr s p)) = bp) then Header (hptr b) (u32 (hsize (uhdr s p) + hsize b))
                else Header bp (hsize (uhdr s p))) s.
Proof.
  intros Hse Hp Hq b. unfold free. replace (bp + 8 - 8) with bp by lia. do 3 ustep.
  exists p, s. split; [done|]. repeat ustep. unfold b, joined. set (h := uhdr s) in *. set (q := hptr (h p)) in *.
  destruct (decide (u32 (bp + 8 * hsize (h bp)) = q)) as [E1|E1]; repeat ustep; hsimpl; fold h;
    (destruct (decide (u32 (p + 8 * hsize (h p)) = bp)) as [E2|E2]; repeat ustep; hsimpl; fold h).
  all: split; [done|]; split; [done|]; split; [intros x Hx1 Hx2; hsimpl; done | done].
Qed.

(** What joining the upper neighbour does to the blocks above. *)
Lemma joined_right h p bp z lo F2 brk : base < bp -> 0 <= base -> brk <= 2 ^ 31 -> 0 < z -> bp + 8 * z <= brk ->
  links h p F2 base -> hsize (h bp) = z -> spaced lo F2 -> (forall b n, (b, n) ∈ F2 -> bp + 8 * z <= b /\ b + 8 * n <= brk) ->
  exists z' G, let b := joined h bp (hptr (h p)) in hsize b = z' /\ spaced (bp + 8 * z') G /\
    (forall h', hptr (h' bp) = hptr b -> (forall c n, (c, n) ∈ F2 -> h' c = h c) -> links h' bp G base) /\
    ((z' = z /\ G = F2) \/ exists zq, F2 = (bp + 8 * z, zq) :: G /\ z' = z + zq).
Proof.
  intros Hb H0 Hbrk Hz Hend Hl Hsz Hs HF2. unfold joined. rewrite Hsz. rewrite u32_small by lia.
  destruct F2 as [|[q zq] F2]; simpl in Hl.
  - rewrite Hl. rewrite decide_False by lia. exists z, []. split; [done|]. split; [done|]. split; [|by left].
    intros h' E _. simpl in *. done.
  - destruct Hl as (-> & Eq & Hl). destruct Hs as (Hs1 & Hs2 & Hs3). destruct (HF2 q zq ltac:(left)) as [Hq1 Hq2].
    case_decide as E.
    + exists (z + zq), F2. rewrite Eq. split; [simpl; apply u32_small; lia|].
      replace (bp + 8 * (z + zq)) with (q + 8 * zq) by lia. split; [done|].
      split; [|right; exists zq; by rewrite E]. intros h' E1 E2. simpl in E1.
      destruct F2 as [|[c m] F2]; simpl in *; [congruence|]. destruct Hl as (E3 & E4 & Hl).
      split; [congruence|]. rewrite (E2 c m) by (right; left). split; [done|].
      eapply links_ext; [exact Hl | by rewrite (E2 c m) by (right; left) |]. intros d k Hd. apply (E2 d k). right. by right.
    + exists z, ((q, zq) :: F2). split; [done|]. split; [split; [lia | done]|]. split; [|by left].
      intros h' E1 E2. simpl in E1. split; [done|]. rewrite (E2 q zq) by left. split; [done|].
      eapply links_ext; [exact Hl | by rewrite (E2 q zq) by left |]. intros d k Hd. apply (E2 d k). by right.
Qed.

(** *** The heap *)

(** The blocks [F] are free and those of [L] in use, all of them disjoint, between
    the static header and the break. *)
Record heap_ok (brk : Z) s F (L : gmap Z Z) : Prop := {
  hk_freep : freep s ∈ base :: F.*1;
  hk_links : links (uhdr s) base F base;
  hk_spaced : spaced (base + 7) F;
  hk_base : hsize (uhdr s base) = 0;
  hk_live : forall a n, L !! a = Some n -> hsize (uhdr s a) = n /\ 0 < n /\ base + 8 <= a /\ a + 8 * n <= brk;
  hk_free : forall a n, (a, n) ∈ F -> a + 8 * n <= brk;
  hk_apart : forall a n b m, L !! a = Some n -> (b, m) ∈ F -> a + 8 * n <= b \/ b + 8 * m <= a;
  hk_disj : forall a n b m, L !! a = Some n -> L !! b = Some m -> a <> b -> a + 8 * n <= b \/ b + 8 * m <= a
}.

(** The 8 bytes at [x] are apart from the block of [n] headers at [a]. *)
Definition apart (x a n : Z) : Prop := x + 8 <= a \/ a + 8 * n <= x.

(** The 8 bytes at [x] are neither the static header nor in a block of [F]. *)
Definition outside F (x : Z) : Prop := apart x base 1 /\ forall b n, (b, n) ∈ F -> apart x b n.

(** The byte [x] is in a block of [F]. *)
Definition within F (x : Z) : Prop := exists b n, (b, n) ∈ F /\ b <= x < b + 8 * n.

(** A step that leaves the memory of the blocks in use alone. *)
Definition spares (L : gmap Z Z) s s' : Prop :=
  forall a n x, L !! a = Some n -> a <= x -> x + 8 <= a + 8 * n -> uhdr s' x = uhdr s x.

(** Memory in use is outside of the free list. *)
Lemma live_outside brk s F L a n x : heap_ok brk s F L -> L !! a = Some n -> a <= x -> x + 8 <= a + 8 * n -> outside F x /\ x + 8 <= brk.
Proof.
  intros [K1 K2 K3 K4 K5 K6 K7 K8] Ha Hx1 Hx2. destruct (K5 a n Ha) as (_ & ? & ? & ?). unfold outside, apart. split; [split; [lia|]|lia].
  intros b m Hb. destruct (K7 a n b m Ha Hb); lia.
Qed.

Lemma links_prefix h h' a F z x : links h a F z -> (forall b n, (b, n) ∈ (a, x) :: F -> h' b = h b) -> links h' a F z.
Proof.
  intros Hl HF. eapply links_ext; [done | by rewrite (HF a x) by left |]. intros b n Hb. apply (HF b n). by right.
Qed.

(** The free block that holds the freed one: joined with a free block that ends where it begins
    and one that begins where it ends, if there are any. *)
Definition holds F (bp z : Z) (c : block) : Prop :=
  c.1 <= bp /\ bp + 8 * z <= c.1 + 8 * c.2 /\
  (c.1 = bp \/ exists n, (c.1, n) ∈ F /\ c.1 + 8 * n = bp) /\
  (c.1 + 8 * c.2 = bp + 8 * z \/ exists n, (bp + 8 * z, n) ∈ F /\ bp + 8 * z + 8 * n = c.1 + 8 * c.2).

Record freed (h' : Z -> header) F (bp z p : Z) F' : Prop := {
  fd_links : links h' base F' base;
  fd_spaced : spaced (base + 7) F';
  fd_in : forall c, c ∈ F' -> c ∈ F \/ holds F bp z c;
  fd_holds : exists c, c ∈ F' /\ holds F bp z c;
  fd_keep : forall c, c ∈ F -> exists c', c' ∈ F' /\ c'.1 <= c.1 /\ c.1 + 8 * c.2 <= c'.1 + 8 * c'.2;
  fd_freep : p ∈ base :: F'.*1;
  fd_length : (length F' <= length F + 1)%nat
}.

Lemma spaced_before lo F p zp c n : spaced lo (F ++ [(p, zp)]) -> (c, n) ∈ F -> c < p.
Proof.
  revert lo. induction F as [|[d m] F IH]; intros lo Hs Hc; [by apply not_elem_of_nil in Hc|].
  destruct Hs as (H1 & H2 & H3). apply elem_of_cons in Hc as [[= -> ->]|Hc]; [|by eapply IH].
  destruct (spaced_elem _ _ p zp H3); [set_solver | lia].
Qed.

Lemma spaced_last lo F p zp zp' : spaced lo (F ++ [(p, zp)]) -> 0 < zp' -> spaced lo (F ++ [(p, zp')]).
Proof.
  revert lo. induction F as [|[d m] F IH]; intros lo Hs Hz; simpl in *; [by destruct Hs as (? & _)|].
  destruct Hs as (H1 & H2 & H3). split; [done|]. split; [done|]. by apply IH.
Qed.

Section freeing.
Context (h h' : Z -> header) (bp z p brk : Z) (F1 F2 : list block).
Context (Hbase : 0 <= base) (Hbp : base + 8 <= bp) (Hbrk : brk <= 2 ^ 31) (Hz : 0 < z) (Hend : bp + 8 * z <= brk).
Context (Hsz : hsize (h bp) = z).
Context (HF2 : forall b n, (b, n) ∈ F2 -> bp + 8 * z <= b /\ b + 8 * n <= brk).
#[local] Notation b := (joined h bp (hptr (h p))).
Context (Hother : forall x, x <> p -> x <> bp -> h' x = h x) (Hb : h' bp = b).
Context (Hp : h' p = if decide (u32 (p + 8 * hsize (h p)) = bp) then Header (hptr b) (u32 (hsize (h p) + hsize b))
                    else Header bp (hsize (h p))).

Lemma above_same c n : p < bp -> (c, n) ∈ F2 -> h' c = h c.
Proof. intros Hlt Hc. destruct (HF2 c n Hc). apply Hother; lia. Qed.

(** The first free block is above. *)
Lemma freed_first : p = base -> links h p F2 base -> spaced (base + 7) F2 -> hsize (h p) = 0 -> exists F', freed h' F2 bp z p F'.
Proof.
  intros Epb Hl Hs H0. destruct (joined_right h p bp z (base + 7) F2 brk) as (z' & G & E1 & E2 & E3 & E4); try done; [lia|].
  assert (hptr (h' p) = bp) as Hp' by (rewrite Hp, decide_False; [done | rewrite u32_small; lia]).
  assert (links h' bp G base) as HG by (apply E3; [by rewrite Hb | intros c n Hc; apply (above_same c n); [lia | done]]).
  assert (0 < z') as Hz' by (destruct E4 as [[-> _]|(zq & -> & ->)]; [lia | destruct Hs; lia]).
  assert (holds F2 bp z (bp, z')) as Hh.
  { split; [simpl; lia|]. destruct E4 as [[-> _]|(zq & -> & ->)]; simpl.
    - split; [lia|]. split; [by left | by left].
    - destruct Hs as (_ & ? & _). split; [lia|]. split; [by left|]. right. exists zq. split; [left | lia]. }
  exists ((bp, z') :: G). split.
  - simpl. rewrite <- Epb at 1. split; [done|]. split; [by rewrite Hb | done].
  - split; [lia | done].
  - intros c [->|Hc]%elem_of_cons; [by right|]. left. destruct E4 as [[_ ->]|(zq & -> & _)]; [done | by right].
  - exists (bp, z'). split; [left | done].
  - intros c Hc. destruct E4 as [[_ ->]|(zq & -> & ->)]; [exists c; split; [by right | done]|].
    apply elem_of_cons in Hc as [->|Hc]; [exists (bp, z + zq); split; [left | simpl; lia] | exists c; split; [by right | done]].
  - rewrite Epb. left.
  - destruct E4 as [[_ ->]|(zq & -> & _)]; simpl; lia.
Qed.

Ltac inn := rewrite ?elem_of_app, ?elem_of_cons in *; tauto.

(** There is a free block before. *)
Lemma freed_after zp : links h base (F1 ++ (p, zp) :: F2) base -> spaced (base + 7) (F1 ++ (p, zp) :: F2) ->
  (forall c n, (c, n) ∈ F1 ++ [(p, zp)] -> c + 8 * n <= bp) -> exists F', freed h' (F1 ++ (p, zp) :: F2) bp z p F'.
Proof.
  intros Hl Hs HF1. apply links_app in Hl as (Hl1 & Hzp & Hl2). apply spaced_app in Hs as [Hs1 Hs2].
  destruct (spaced_elem _ _ p zp Hs1) as [Hp1 Hp2]; [set_solver|]. pose proof (HF1 p zp ltac:(set_solver)) as Hp3.
  destruct (joined_right h p bp z (p + 8 * zp) F2 brk) as (z' & G & E1 & E2 & E3 & E4); try done; [lia|].
  assert (links h' bp G base) as HG by (apply E3; [by rewrite Hb | intros c n Hc; apply (above_same c n); [lia | done]]).
  assert (0 < z' /\ bp + 8 * z' <= brk) as [Hz' Hze].
  { destruct E4 as [[-> _]|(zq & -> & ->)]; [lia|]. destruct Hs2 as (_ & ? & _). destruct (HF2 (bp + 8 * z) zq ltac:(left)). lia. }
  assert (forall c n, (c, n) ∈ (base, 0) :: F1 -> h' c = h c) as Hlow.
  { intros c n Hc. assert (c < p); [|apply Hother; lia]. apply elem_of_cons in Hc as [[= -> ->]|Hc]; [lia|].
    apply (spaced_before _ _ _ _ _ _ Hs1 Hc). }
  pose proof (links_prefix h h' base F1 p 0 Hl1 Hlow) as Hl1'.
  assert (z <= z' /\ (bp + 8 * z' = bp + 8 * z \/ exists n, (bp + 8 * z, n) ∈ F1 ++ (p, zp) :: F2 /\ bp + 8 * z + 8 * n = bp + 8 * z'))
    as [Hzz Hright].
  { destruct E4 as [[-> _]|(zq & EF & ->)]; [split; [lia | by left]|]. rewrite EF in Hs2. destruct Hs2 as (_ & ? & _).
    split; [lia|]. right. exists zq. split; [rewrite EF; set_solver | lia]. }
  assert (forall c, c ∈ G -> c ∈ F1 ++ (p, zp) :: F2) as HGF by (destruct E4 as [[_ ->]|(zq & -> & _)]; set_solver).
  assert (forall c, c ∈ F1 ++ (p, zp) :: F2 -> c ∈ F1 ++ G \/ c = (p, zp) \/ bp <= c.1 /\ c.1 + 8 * c.2 <= bp + 8 * z') as HFG.
  { intros c [Hc|[->|Hc]%elem_of_cons]%elem_of_app; [set_solver | by right; left|].
    destruct E4 as [[_ ->]|(zq & EF & ->)]; [set_solver|]. rewrite EF in Hc. apply elem_of_cons in Hc as [->|Hc]; [|set_solver].
    right. right. simpl. lia. }
  assert (length G <= length F2)%nat as HGl by (destruct E4 as [[_ ->]|(zq & -> & _)]; simpl; lia).
  rewrite Hzp, E1 in Hp. rewrite u32_small in Hp by lia. case_decide as Em.
  - rewrite u32_small in Hp by lia. assert (holds (F1 ++ (p, zp) :: F2) bp z (p, zp + z')) as Hh.
    { split; [simpl; lia|]. split; [simpl; lia|]. simpl. replace (p + 8 * (zp + z')) with (bp + 8 * z') by lia.
      split; [|done]. right. exists zp. split; [inn | done]. }
    exists (F1 ++ (p, zp + z') :: G). split.
    + apply links_app. split; [done|]. rewrite Hp. split; [done|]. destruct G as [|[c m] G]; simpl in *.
      * rewrite Hp. simpl. congruence.
      * destruct HG as (G1 & G2 & G3). rewrite Hp. simpl. split; [congruence | done].
    + apply spaced_app. replace (p + 8 * (zp + z')) with (bp + 8 * z') by lia. split; [|done].
      by eapply spaced_last; [exact Hs1 | lia].
    + intros c [Hc|[->|Hc]%elem_of_cons]%elem_of_app; [left; inn | by right | left; by apply HGF].
    + exists (p, zp + z'). split; [inn | done].
    + intros c Hc. destruct (HFG c Hc) as [Hc'|[Hc'|Hc']]; [exists c; split; [inn | done] | |].
      * exists (p, zp + z'). split; [inn|]. rewrite Hc'. simpl. lia.
      * exists (p, zp + z'). split; [inn|]. simpl in *. lia.
    + right. rewrite fmap_app. set_solver.
    + rewrite !length_app. simpl. lia.
  - assert (holds (F1 ++ (p, zp) :: F2) bp z (bp, z')) as Hh.
    { split; [simpl; lia|]. split; [simpl; lia|]. split; [by left | done]. }
    exists (F1 ++ (p, zp) :: (bp, z') :: G). split.
    + apply links_app. split; [done|]. rewrite Hp. split; [done|]. split; [by rewrite Hp|]. split; [by rewrite Hb | done].
    + apply spaced_app. split; [done|]. split; [lia | done].
    + intros c [Hc|[->|[->|Hc]%elem_of_cons]%elem_of_cons]%elem_of_app; [left; inn | left; inn | by right | left; by apply HGF].
    + exists (bp, z'). split; [inn | done].
    + intros c Hc. destruct (HFG c Hc) as [Hc'|[Hc'|Hc']]; [exists c; split; [inn | done] | |].
      * exists (p, zp). split; [inn|]. by rewrite Hc'.
      * exists (bp, z'). split; [inn | done].
    + right. rewrite fmap_app. set_solver.
    + rewrite !length_app. simpl. lia.
Qed.
End freeing.

Section heap.
Context (Hbase : 0 < base).

(** The block that is being freed: its header is written, and it overlaps no other block. *)
Record loose (brk : Z) s F (L : gmap Z Z) (bp z : Z) : Prop := {
  ls_size : hsize (uhdr s bp) = z;
  ls_pos : 0 < z;
  ls_low : base + 8 <= bp;
  ls_high : bp + 8 * z <= brk;
  ls_free : forall b m, (b, m) ∈ F -> b + 8 * m <= bp \/ bp + 8 * z <= b;
  ls_live : forall a n, L !! a = Some n -> a + 8 * n <= bp \/ bp + 8 * z <= a
}.

Lemma freed_heap brk s s' F L bp z p F' : heap_ok brk s F L -> loose brk s F L bp z -> freed (uhdr s') F bp z p F' ->
  freep s' = p -> (p = base \/ p ∈ F.*1) -> p <> bp -> (forall x, x <> p -> x <> bp -> uhdr s' x = uhdr s x) ->
  hsize (uhdr s' base) = 0 -> heap_ok brk s' F' L /\ (forall x, outside F x -> x <> bp -> uhdr s' x = uhdr s x).
Proof.
  intros [K1 K2 K3 K4 K5 K6 K7 K8] [B1 B2 B3 B4 B5 B6] [D1 D2 D3 D4 D5 D6 D7] Ep Hp Hpb Ho H0.
  assert (forall x, outside F x -> x <> bp -> uhdr s' x = uhdr s x) as Hsp.
  { intros x [Hx0 Hx] Hxb. apply Ho; [|done]. unfold apart in *. destruct Hp as [->|([q m] & -> & Hq)%list_elem_of_fmap]; simpl; [lia|].
    destruct (spaced_elem _ _ q m K3 Hq). pose proof (Hx q m Hq). lia. }
  split; [|done]. split; try done.
  - by rewrite Ep.
  - intros a n Ha. destruct (K5 a n Ha) as (? & ? & ?). rewrite Hsp; [done | | destruct (B6 a n Ha); lia].
    by eapply (live_outside brk s F L a n a); [split | done | lia | lia].
  - intros a n Hc. destruct (D3 (a, n) Hc) as [Hc'|(_ & _ & _ & [E|(m & Hm & E)])]; [by apply (K6 a n) | simpl in E; lia|].
    specialize (K6 _ _ Hm). simpl in E. lia.
  - intros a n b m Ha Hc. destruct (K5 a n Ha) as (_ & Hn & _). destruct (D3 (b, m) Hc) as [Hc'|(_ & _ & E1 & E2)]; [by apply (K7 a n)|].
    simpl in *. pose proof (B6 a n Ha). destruct E1 as [E1|(k & Hk & E1)].
    + destruct E2 as [E2|(k' & Hk' & E2)]; [lia|]. pose proof (K7 a n _ _ Ha Hk'). lia.
    + pose proof (K7 a n _ _ Ha Hk). destruct (spaced_elem _ _ _ _ K3 Hk).
      destruct E2 as [E2|(k' & Hk' & E2)]; [lia|]. pose proof (K7 a n _ _ Ha Hk'). lia.
Qed.

(** The free memory after a block has been freed. *)
Lemma freed_within h' F bp z p F' x : freed h' F bp z p F' -> within F' x <-> within F x \/ bp <= x < bp + 8 * z.
Proof.
  intros [D1 D2 D3 D4 D5 D6 D7]. split.
  - intros (b & n & Hb & Hx). destruct (D3 _ Hb) as [Hb'|(H1 & H2 & H3 & H4)]; [left; by exists b, n|]. simpl in *.
    destruct (decide (x < bp)) as [Hlt|Hge].
    { destruct H3 as [H3|(m & Hm & H3)]; [lia|]. left. exists b, m. split; [done | lia]. }
    destruct (decide (x < bp + 8 * z)) as [Hlt'|Hge']; [right; lia|]. destruct H4 as [H4|(m & Hm & H4)]; [lia|].
    left. eexists _, m. split; [exact Hm | lia].
  - intros [(b & n & Hb & Hx)|Hx].
    + destruct (D5 _ Hb) as ([c m] & Hc & H1 & H2). exists c, m. split; [done|]. simpl in *. lia.
    + destruct D4 as ([c m] & Hc & H1 & H2 & _). exists c, m. split; [done|]. simpl in *. lia.
Qed.

(** The block before [bp] in the ring. *)
Lemma before_ok h bp z F1 F2 : base + 8 <= bp -> 0 < z -> links h base (F1 ++ F2) base -> spaced (base + 7) (F1 ++ F2) ->
  (forall b n, (b, n) ∈ F1 -> b + 8 * n <= bp) -> (forall b n, (b, n) ∈ F2 -> bp + 8 * z <= b) ->
  endp base F1 < bp /\ (endp base F1 = base \/ endp base F1 ∈ (F1 ++ F2).*1) /\ hptr (h (endp base F1)) <> bp.
Proof.
  intros Hbp Hz Hl Hs HF1 HF2. destruct F1 as [|[q zp] F1' _] using rev_ind.
  - split; [simpl; lia|]. split; [by left|]. simpl in *. destruct F2 as [|[b n] F2]; simpl in Hl; [lia|].
    destruct Hl as (-> & _). pose proof (HF2 b n ltac:(left)). lia.
  - rewrite endp_snoc. rewrite <- app_assoc in Hl, Hs |- *. cbn [app] in Hl, Hs |- *. apply links_app in Hl as (_ & _ & Hl).
    destruct (spaced_elem _ _ q zp Hs) as [_ Hzp]; [set_solver|]. pose proof (HF1 q zp ltac:(set_solver)). simpl.
    split; [lia|]. split; [right; rewrite fmap_app; set_solver|].
    destruct F2 as [|[b n] F2]; simpl in Hl; [lia|]. destruct Hl as (-> & _). pose proof (HF2 b n ltac:(left)). lia.
Qed.

Lemma runs_free brk s F L bp z fuel : brk <= 2 ^ 31 -> heap_ok brk s F L -> loose brk s F L bp z ->
  (2 * length F + 2 <= fuel)%nat ->
  runs (free fuel (bp + 8)) (fun _ s' => exists F', heap_ok brk s' F' L /\ uos s' = uos s /\ (forall x, outside F x -> x <> bp -> uhdr s' x = uhdr s x) /\
    freed (uhdr s') F bp z (freep s') F') s.
Proof.
  intros Hbrk Hk Hl Hfuel. pose proof Hk as [K1 K2 K3 K4 K5 K6 K7 K8]. pose proof Hl as [B1 B2 B3 B4 B5 B6].
  destruct (spaced_split (base + 7) F bp z) as (F1 & F2 & -> & HF1 & HF2); [done | lia | done | done |].
  set (p := endp base F1).
  assert (free_search fuel bp (freep s) s = Ret p s) as Hse.
  { apply search_ok with (F2 := F2); [lia | done | eapply spaced_le; [|done]; lia | | | done | done].
    - intros b n Hb. pose proof (HF1 b n Hb). destruct (spaced_elem _ _ b n K3); [set_solver | lia].
    - intros b n Hb. pose proof (HF2 b n Hb). lia. }
  assert (forall b n, (b, n) ∈ F2 -> bp + 8 * z <= b /\ b + 8 * n <= brk) as HF2'.
  { intros b n Hb. split; [by apply (HF2 b n)|]. apply (K6 b n). set_solver. }
  assert (p < bp /\ (p = base \/ p ∈ (F1 ++ F2).*1) /\ hptr (uhdr s p) <> bp) as (Hp & Hpin & Hptr).
  { destruct (before_ok (uhdr s) bp z F1 F2) as (? & ? & ?); try done; lia. }
  eapply runs_mono; [apply (free_effect fuel s bp p Hse); [lia | done]|]. intros _ s' (E1 & E2 & E3 & E4 & E5).
  assert ((exists F', freed (uhdr s') (F1 ++ F2) bp z p F') /\ hsize (uhdr s' base) = 0) as [[F' HF'] H0].
  { destruct F1 as [|[q zp] F1' _] using rev_ind.
    - split; [apply (freed_first (uhdr s) (uhdr s') bp z p brk F2); try done; lia|].
      change p with base in E5. rewrite E5, K4, decide_False; [done|]. rewrite u32_small; lia.
    - assert (p = q) as Epq by apply endp_snoc. rewrite <- app_assoc in K2, K3 |- *. cbn [app] in K2, K3 |- *.
      destruct (spaced_elem _ _ q zp K3) as [Hq _]; [set_solver|]. split; [|by rewrite E3 by lia].
      rewrite <- Epq in *. by apply (freed_after (uhdr s) (uhdr s') bp z p brk F1' F2); [lia | lia | ..]. }
  destruct (freed_heap brk s s' _ L bp z p F' Hk Hl HF' E1 Hpin) as [Hk' Hsp]; [lia | done | done |].
  exists F'. split; [done|]. split; [done|]. split; [done|]. by rewrite E1.
Qed.

(** *** The search of [malloc] *)

Lemma walk_eq s prev G x nu fuel : links (uhdr s) prev G x -> (forall b n, (b, n) ∈ G -> n < nu /\ b <> freep s) ->
  malloc_loop (length G + fuel) nu prev (hptr (uhdr s prev)) s = malloc_loop fuel nu (endp prev G) x s.
Proof.
  revert prev. induction G as [|[b n] G IH]; intros prev Hl HG; [simpl in Hl; by rewrite Hl|].
  destruct Hl as (-> & Hn & Hl). destruct (HG b n ltac:(left)) as [Hlt Hf].
  change (length ((b, n) :: G) + fuel)%nat with (Datatypes.S (length G + fuel)). cbn [malloc_loop]. unfold get_size, get_ptr, bind, gets.
  rewrite Hn. rewrite !decide_False by (done || lia). rewrite endp_cons. apply IH; [done|]. intros c m Hc. apply (HG c m). by right.
Qed.

Lemma base_step s prev nu fuel : hsize (uhdr s base) = 0 -> 0 < nu -> base <> freep s ->
  malloc_loop (Datatypes.S fuel) nu prev base s = malloc_loop fuel nu base (hptr (uhdr s base)) s.
Proof.
  intros H0 Hnu Hf. cbn [malloc_loop]. unfold get_size, get_ptr, bind, gets. rewrite H0. by rewrite !decide_False by (done || lia).
Qed.

(** *** Taking a block out *)

Lemma spaced_remove lo X c Y : spaced lo (X ++ c :: Y) -> spaced lo (X ++ Y).
Proof.
  revert lo. induction X as [|[b n] X IH]; intros lo; simpl.
  - destruct c as [p zp]. intros (H1 & H2 & H3). eapply spaced_le; [|done]. lia.
  - intros (H1 & H2 & H3). split; [done|]. split; [done|]. by apply IH.
Qed.

Lemma spaced_apart lo X p zp Y b m : spaced lo (X ++ (p, zp) :: Y) -> (b, m) ∈ X ++ Y -> b + 8 * m < p \/ p + 8 * zp < b.
Proof.
  revert lo. induction X as [|[c n] X IH]; intros lo Hs Hb; simpl in *.
  - destruct Hs as (_ & _ & Hs). right. by destruct (spaced_elem _ _ b m Hs Hb).
  - destruct Hs as (_ & _ & Hs). apply elem_of_cons in Hb as [[= -> ->]|Hb]; [|by eapply IH].
    left. destruct (spaced_elem _ _ p zp Hs); [set_solver | lia].
Qed.

Lemma endp_le a X : spaced a X -> a <= endp a X /\ (a = endp a X \/ exists n, (endp a X, n) ∈ X).
Proof.
  intros Hs. destruct X as [|[q n] X _] using rev_ind; [simpl; split; [lia | by left]|]. rewrite endp_snoc. simpl.
  destruct (spaced_elem _ _ q n Hs) as [H1 _]; [set_solver|]. split; [lia|]. right. exists n. set_solver.
Qed.

Lemma links_skip h h' X : forall a p zp Y z, links h a (X ++ (p, zp) :: Y) z -> spaced a (X ++ (p, zp) :: Y) ->
  h' (endp a X) = Header (hptr (h p)) (hsize (h (endp a X))) -> (forall x, x <> endp a X -> h' x = h x) -> links h' a (X ++ Y) z.
Proof.
  induction X as [|[b n] X IH]; intros a p zp Y z Hl Hs He Ho; simpl in *.
  - destruct Hl as (_ & _ & Hl). destruct Hs as (H1 & H2 & H3).
    assert (forall c m, (c, m) ∈ Y -> h' c = h c) as HY.
    { intros c m Hc. apply Ho. destruct (spaced_elem _ _ _ _ H3 Hc). lia. }
    destruct Y as [|[c m] Y]; simpl in *; [by rewrite He|]. destruct Hl as (L1 & L2 & L3). rewrite He. split; [done|].
    rewrite (HY c m) by left. split; [done|]. eapply links_ext; [exact L3 | by rewrite (HY c m) by left |].
    intros d k Hd. apply (HY d k). by right.
  - destruct Hl as (L1 & L2 & L3). destruct Hs as (H1 & H2 & H3). change (endp a ((b, n) :: X)) with (endp b X) in *.
    assert (spaced b (X ++ (p, zp) :: Y)) as H3' by (eapply spaced_le; [|done]; lia).
    pose proof (proj1 (spaced_app _ _ _ _ _) H3') as [H3'' _].
    assert (b <= endp b X) as Hbe by (apply (endp_le b X); eapply (spaced_prefix b X); exact H3'').
    rewrite Ho by lia. split; [done|]. split; [|by eapply IH].
    destruct (decide (b = endp b X)) as [E|E]; [|by rewrite Ho]. rewrite E at 1. rewrite He. by rewrite <- E.
Qed.

(** The result of a successful [malloc]: a block of its own at [a]. *)
Definition taken (brk nu : Z) s F L (r : Z) s' : Prop :=
  exists a F', r = a + 8 /\ L !! a = None /\ heap_ok brk s' F' (<[a := nu]> L) /\ uos s' = uos s /\
    (forall x, outside F x -> uhdr s' x = uhdr s x) /\ (forall x, within F' x \/ a <= x < a + 8 * nu <-> within F x).

(** [a] is a piece of the free block [p] and nothing else overlaps it. *)
Lemma taken_heap brk nu s s' L X p zp Y a F' : 0 < nu -> heap_ok brk s (X ++ (p, zp) :: Y) L ->
  p <= a -> a + 8 * nu = p + 8 * zp -> freep s' = endp base X -> endp base X ∈ base :: F'.*1 -> uos s' = uos s ->
  links (uhdr s') base F' base -> spaced (base + 7) F' ->
  (forall b m, (b, m) ∈ F' -> (b, m) ∈ X ++ Y \/ b = p /\ b + 8 * m = a) ->
  (forall b m, (b, m) ∈ X ++ Y \/ b = p /\ b + 8 * m = a /\ 0 < m -> (b, m) ∈ F') -> (8 | a - p) -> hsize (uhdr s' a) = nu ->
  hsize (uhdr s' base) = 0 -> (forall x, x <> endp base X -> x <> p -> x <> a -> uhdr s' x = uhdr s x) ->
  taken brk nu s (X ++ (p, zp) :: Y) L (a + 8) s'.
Proof.
  intros Hnu Hk Hpa Hae Ef Hf' Eo Hl' Hs' HF' HF2 [e He] Hsz H0 Ho. pose proof Hk as [K1 K2 K3 K4 K5 K6 K7 K8].
  assert ((p, zp) ∈ X ++ (p, zp) :: Y) as Hin by set_solver. destruct (spaced_elem _ _ _ _ K3 Hin) as [Hp1 Hp2].
  assert (forall b m, (b, m) ∈ X ++ Y -> (b, m) ∈ X ++ (p, zp) :: Y) as Hsub by (clear; set_solver).
  assert (forall c n, L !! c = Some n -> c + 8 * n <= p \/ p + 8 * zp <= c) as HL by (intros c n Hc; by apply (K7 c n p zp)).
  assert (forall x, outside (X ++ (p, zp) :: Y) x -> uhdr s' x = uhdr s x) as Hsp.
  { intros x [Hx0 Hx]. unfold apart in *. pose proof (Hx p zp Hin). apply Ho; [|lia | lia].
    pose proof (spaced_prefix _ _ _ K3) as Hsx. destruct (endp_le base X) as [_ [<-|(k & Hk')]]; [eapply spaced_le; [|done]; lia | lia |].
    destruct (spaced_elem _ _ _ _ Hsx Hk'). pose proof (Hx _ k (proj2 (elem_of_app _ _ _) (or_introl Hk'))). lia. }
  exists a, F'. split; [done|]. split.
  { destruct (L !! a) as [n|] eqn:E; [|done]. destruct (K5 a n E) as (_ & ? & _). pose proof (HL a n E). lia. }
  split; [|split; [done|]; split; [done|]].
  2: { intros x. split.
    - intros [(b & m & Hb & Hx)|Hx]; [|exists p, zp; split; [done | lia]]. destruct (HF' b m Hb) as [Hb'|[-> E]]; [exists b, m; auto|].
      exists p, zp. split; [done | lia].
    - intros (b & m & Hb & Hx). apply elem_of_app in Hb as [Hb|[[= -> ->]|Hb]%elem_of_cons];
        [left; exists b, m; split; [apply HF2; set_solver | done] | | left; exists b, m; split; [apply HF2; set_solver | done]].
      destruct (decide (a <= x)) as [Hax|Hax]; [right; lia|]. left. exists p, e. split; [apply HF2; right; lia | lia]. }
  split; try done.
  - by rewrite Ef.
  - intros c n [[<- <-]|[Hne Hc]]%lookup_insert_Some; [pose proof (K6 p zp Hin); lia|].
    destruct (K5 c n Hc) as (? & ? & ?). rewrite Hsp; [done|]. by eapply (live_outside brk s _ L c n c); [| | lia | lia].
  - intros b m Hb. destruct (HF' b m Hb) as [Hb'|[-> E]]; [by apply K6, Hsub|]. pose proof (K6 p zp Hin). lia.
  - intros c n b m [[<- <-]|[Hne Hc]]%lookup_insert_Some Hb; destruct (HF' b m Hb) as [Hb'|[-> E]]; [| lia | exact (K7 c n b m Hc (Hsub b m Hb')) |].
    + destruct (spaced_apart _ _ _ _ _ _ _ K3 Hb'); lia.
    + pose proof (HL c n Hc). lia.
  - intros c n d m [[<- <-]|[Hc1 Hc]]%lookup_insert_Some [[<- <-]|[Hd1 Hd]]%lookup_insert_Some Hcd; [done | | | by apply K8].
    + pose proof (HL d m Hd). lia.
    + pose proof (HL c n Hc). lia.
Qed.

Lemma runs_take brk s X p zp Y L nu fuel : 0 < nu -> nu <= zp -> heap_ok brk s (X ++ (p, zp) :: Y) L ->
  runs (malloc_loop (Datatypes.S fuel) nu (endp base X) p) (taken brk nu s (X ++ (p, zp) :: Y) L) s.
Proof.
  intros Hnu Hle Hk. pose proof Hk as [K1 K2 K3 K4 K5 K6 K7 K8]. pose proof (proj1 (links_app _ _ _ _ _ _ _) K2) as (L1 & Hsz & L2).
  assert (spaced base (X ++ (p, zp) :: Y)) as Ks by (eapply spaced_le; [|done]; lia).
  destruct (endp_le base X (spaced_prefix _ _ _ Ks)) as [He1 He2].
  assert (endp base X < p) as Hep.
  { destruct (spaced_elem _ _ p zp K3) as [Hp _]; [set_solver|]. destruct He2 as [<-|(k & Hk')]; [lia|].
    apply (spaced_before base X p zp _ k); [|done]. by apply spaced_app in Ks as [? _]. }
  destruct (spaced_elem _ _ p zp K3) as [Hp1 _]; [set_solver|].
  assert (forall Y', endp base X ∈ base :: (X ++ Y').*1) as Hin.
  { intros Y'. destruct He2 as [<-|(k & Hk')]; [left|]. right. rewrite fmap_app, elem_of_app. left. apply list_elem_of_fmap. by exists (endp base X, k). }
  cbn [malloc_loop]. repeat ustep. rewrite Hsz. rewrite decide_True by lia. repeat ustep. case_decide as Ez; repeat ustep.
  - apply (taken_heap brk nu s _ L X p zp Y p (X ++ Y)); cbn [uhdr freep uos]; try done; try lia.
    + eapply links_skip; [exact K2 | done | by rewrite hset_eq | intros x Hx; by rewrite hset_ne].
    + by eapply spaced_remove.
    + by left.
    + intros b m [?|?]; [done | lia].
    + by rewrite Z.sub_diag; apply Z.divide_0_r.
    + rewrite hset_ne by lia. lia.
    + unfold hset. case_decide as E; [|done]. by rewrite <- E.
    + intros x Hx1 Hx2 _. by rewrite hset_ne.
  - apply (taken_heap brk nu s _ L X p zp Y _ (X ++ (p, zp - nu) :: Y)); cbn [uhdr freep uos]; try done; try lia.
    + pose proof (proj1 (spaced_app _ _ _ _ _) K3) as [S1 S2]. apply links_app. split; [|split].
      * eapply links_ext; [exact L1 | by rewrite !hset_ne by lia|]. intros b n Hb. pose proof (spaced_before _ _ _ _ _ _ S1 Hb).
        by rewrite !hset_ne by lia.
      * by rewrite hset_ne, hset_eq by lia.
      * eapply links_ext; [exact L2 | by rewrite hset_ne, hset_eq by lia|]. intros b n Hb. destruct (spaced_elem _ _ b n S2 Hb).
        by rewrite !hset_ne by lia.
    + apply spaced_app in K3 as [S1 S2]. apply spaced_app. split; [eapply spaced_last; [exact S1 | lia]|].
      eapply spaced_le; [|exact S2]. lia.
    + intros b m Hb. apply elem_of_app in Hb as [Hb|[[= -> ->]|Hb]%elem_of_cons]; [left; set_solver | right; lia | left; set_solver].
    + intros b m [Hb|(-> & Hm & _)]; [set_solver|]. assert (m = zp - nu) as -> by lia. set_solver.
    + exists (zp - nu). lia.
    + by rewrite hset_eq.
    + by rewrite !hset_ne by lia.
    + intros x Hx1 Hx2 Hx3. by rewrite !hset_ne.
Qed.

(** *** The loop of [malloc] around the ring *)

Lemma fit_split nu F : (forall b n, (b, n) ∈ F -> n < nu) \/
  exists X p zp Y, F = X ++ (p, zp) :: Y /\ nu <= zp /\ forall b n, (b, n) ∈ X -> n < nu.
Proof.
  induction F as [|[c m] F IH]; [left; intros b n Hb; by apply not_elem_of_nil in Hb|].
  destruct (decide (nu <= m)) as [Hm|Hm].
  { right. exists [], c, m, F. split; [done|]. split; [done|]. intros b n Hb. by apply not_elem_of_nil in Hb. }
  assert (forall G, (forall b n, (b, n) ∈ G -> n < nu) -> forall b n, (b, n) ∈ (c, m) :: G -> n < nu) as Hcons.
  { intros G HG b n [[= -> ->]|Hb]%elem_of_cons; [lia | by eapply HG]. }
  destruct IH as [IH|(X & p & zp & Y & -> & Hz & HX)]; [left; by apply Hcons|].
  right. exists ((c, m) :: X), p, zp, Y. split; [done|]. split; [done|]. by apply Hcons.
Qed.

Lemma runs_eq {T A} (m m' : M T A) (Q : A -> T -> Prop) t : m t = m' t -> runs m' Q t -> runs m Q t.
Proof. intros E. unfold runs. by rewrite E. Qed.

(** Where [freep] is in the ring. *)
Lemma freep_cases brk s F L : heap_ok brk s F L -> freep s = base \/
  exists A zf B, F = A ++ (freep s, zf) :: B /\ base <> freep s /\ (forall b n, (b, n) ∈ A ++ B -> b <> freep s) /\
    links (uhdr s) (freep s) B base /\ links (uhdr s) base A (freep s) /\ hsize (uhdr s (freep s)) = zf.
Proof.
  intros [K1 K2 K3 K4 K5 K6 K7 K8]. apply elem_of_cons in K1 as [->|K1]; [by left|]. right.
  apply list_elem_of_fmap in K1 as ([f zf] & Ef & Hf). simpl in Ef. rewrite Ef. apply list_elem_of_split in Hf as (A & B & ->).
  exists A, zf, B. destruct (spaced_elem _ _ f zf K3) as [Hb _]; [set_solver|]. apply links_app in K2 as (L1 & L2 & L3).
  split; [done|]. split; [lia|]. split; [|done]. intros b n Hb'. destruct (spaced_elem _ _ f zf K3); [set_solver|].
  destruct (spaced_apart _ _ _ _ _ _ _ K3 Hb'); [|lia]. destruct (spaced_elem _ _ b n K3); [set_solver | lia].
Qed.

Lemma runs_loop_fit brk s F L nu fuel : heap_ok brk s F L -> 0 < nu -> (exists b n, (b, n) ∈ F /\ nu <= n) -> (length F + 2 <= fuel)%nat ->
  runs (malloc_loop fuel nu (freep s) (hptr (uhdr s (freep s)))) (taken brk nu s F L) s.
Proof.
  intros Hk Hnu (b0 & n0 & Hb0 & Hn0) Hfuel. pose proof Hk as [K1 K2 K3 K4 K5 K6 K7 K8].
  destruct (freep_cases brk s F L Hk) as [Ef|(A & zf & B & EF & Hbf & Hd & LB & LA & Hzf)].
  - destruct (fit_split nu F) as [Hno|(X & p & zp & Y & EF & Hz & HX)]; [specialize (Hno _ _ Hb0); lia|]. rewrite EF in *.
    apply links_app in K2 as (L1 & _ & _). rewrite length_app in Hfuel. simpl in Hfuel. rewrite Ef.
    replace fuel with (length X + Datatypes.S (fuel - length X - 1))%nat by lia.
    eapply runs_eq; [apply (walk_eq s base X p nu); [done|]|by apply runs_take].
    intros b n Hb. split; [by eapply HX|]. destruct (spaced_elem _ _ b n K3); [set_solver | lia].
  - rewrite EF in *. rewrite length_app in Hfuel. simpl in Hfuel. set (f := freep s) in *.
    destruct (fit_split nu B) as [HnB|(X & p & zp & Y & -> & Hz & HX)].
    2: { apply links_app in LB as (L1 & _ & _). rewrite length_app in Hfuel. simpl in Hfuel.
      replace fuel with (length X + Datatypes.S (fuel - length X - 1))%nat by lia.
      eapply runs_eq; [apply (walk_eq s f X p nu); [done|]|].
      - intros b n Hb. split; [by eapply HX|]. apply (Hd b n). set_solver.
      - replace (A ++ (f, zf) :: X ++ (p, zp) :: Y) with ((A ++ (f, zf) :: X) ++ (p, zp) :: Y) in * by (by rewrite <- app_assoc).
        change (endp f X) with (endp (f, zf).1 X). rewrite <- (endp_app base A (f, zf) X). by apply runs_take. }
    replace fuel with (length B + Datatypes.S (fuel - length B - 1))%nat by lia.
    eapply runs_eq; [apply (walk_eq s f B base nu); [done|]|].
    { intros b n Hb. split; [by eapply HnB|]. apply (Hd b n). set_solver. }
    eapply runs_eq; [by apply base_step|]. destruct (fit_split nu A) as [HnA|(X & p & zp & Y & -> & Hz & HX)].
    + replace (fuel - length B - 1)%nat with (length A + Datatypes.S (fuel - length B - length A - 2))%nat by lia.
      eapply runs_eq; [apply (walk_eq s base A f nu); [done|]|].
      { intros b n Hb. split; [by eapply HnA|]. apply (Hd b n). set_solver. }
      apply runs_take; [done | | done]. apply elem_of_app in Hb0 as [Hb0|[[= <- <-]|Hb0]%elem_of_cons]; [|done|].
      * specialize (HnA _ _ Hb0). lia.
      * specialize (HnB _ _ Hb0). lia.
    + apply links_app in LA as (L1 & _ & _). rewrite length_app in Hfuel. simpl in Hfuel. rewrite <- app_assoc in Hk |- *.
      replace (fuel - length B - 1)%nat with (length X + Datatypes.S (fuel - length B - length X - 2))%nat by lia.
      eapply runs_eq; [apply (walk_eq s base X p nu); [done|]|by apply runs_take].
      intros b n Hb. split; [by eapply HX|]. apply (Hd b n). set_solver.
Qed.

Lemma loop_nofit brk s F L nu fuel : heap_ok brk s F L -> 0 < nu -> (forall b n, (b, n) ∈ F -> n < nu) ->
  malloc_loop (length F + Datatypes.S fuel) nu (freep s) (hptr (uhdr s (freep s))) s =
  (let! p := morecore fuel nu in
   if decide (p = 0) then ret 0 else let! q := get_ptr p in malloc_loop fuel nu p q) s.
Proof.
  intros Hk Hnu Hno. pose proof Hk as [K1 K2 K3 K4 K5 K6 K7 K8].
  assert (forall prev, hsize (uhdr s (freep s)) < nu -> malloc_loop (Datatypes.S fuel) nu prev (freep s) s =
    (let! p := morecore fuel nu in
     if decide (p = 0) then ret 0 else let! q := get_ptr p in malloc_loop fuel nu p q) s) as Hend.
  { intros prev Hlt. cbn [malloc_loop]. unfold get_size, bind at 1, gets at 1. rewrite decide_False by lia.
    unfold bind at 1, gets at 1. by rewrite decide_True by done. }
  destruct (freep_cases brk s F L Hk) as [Ef|(A & zf & B & EF & Hbf & Hd & LB & LA & Hzf)].
  - rewrite (walk_eq s _ F base nu); [|by rewrite Ef|].
    + rewrite <- Ef. apply Hend. rewrite Ef, K4. lia.
    + intros b n Hb. split; [by eapply Hno|]. destruct (spaced_elem _ _ b n K3 Hb). lia.
  - rewrite EF, length_app. cbn [length]. set (f := freep s) in *.
    replace (length A + Datatypes.S (length B) + Datatypes.S fuel)%nat with (length B + Datatypes.S (length A + Datatypes.S fuel))%nat by lia.
    rewrite (walk_eq s f B base nu); [|done|].
    2: { intros b n Hb. split; [eapply (Hno b n); rewrite EF; set_solver | apply (Hd b n); set_solver]. }
    rewrite base_step by done. rewrite (walk_eq s base A f nu); [|done|].
    + apply Hend. rewrite Hzf. apply (Hno f zf). rewrite EF. set_solver.
    + intros b n Hb. split; [eapply (Hno b n); rewrite EF; set_solver | apply (Hd b n); set_solver].
Qed.

Lemma heap_frame brk brk' s s' F L : heap_ok brk s F L -> base + 8 <= brk -> brk <= brk' -> freep s' = freep s ->
  (forall x, x < brk -> uhdr s' x = uhdr s x) -> heap_ok brk' s' F L.
Proof.
  intros [K1 K2 K3 K4 K5 K6 K7 K8] Hb Hle Ef Eh.
  assert (forall b n, (b, n) ∈ F -> uhdr s' b = uhdr s b) as HF.
  { intros b n Hb'. apply Eh. pose proof (K6 b n Hb'). destruct (spaced_elem _ _ b n K3 Hb'). lia. }
  split; try done.
  - by rewrite Ef.
  - eapply links_ext; [exact K2 | by rewrite Eh by lia | exact HF].
  - by rewrite Eh by lia.
  - intros a n Ha. destruct (K5 a n Ha) as (? & ? & ? & ?). rewrite Eh by lia. split; [done|]. lia.
  - intros a n Ha. pose proof (K6 a n Ha). lia.
Qed.

(** What [morecore] leaves: the memory as it was, or a free block that is large enough. *)
Lemma runs_morecore s F L nu fuel : let brk := ubrk (uos s) in
  heap_ok brk s F L -> base + 8 <= brk -> 0 < nu < 2 ^ 28 -> (2 * length F + 2 <= fuel)%nat ->
  runs (morecore fuel nu) (fun r s' =>
    (r = 0 /\ uhdr s' = uhdr s /\ ubrk (uos s') = brk /\ heap_ok brk s' F L) \/
    (r = freep s' /\ r <> 0 /\ brk <= ubrk (uos s') <= 2 ^ 31 /\
     exists F', heap_ok (ubrk (uos s')) s' F' L /\ (length F' <= length F + 1)%nat /\ (exists b n, (b, n) ∈ F' /\ nu <= n) /\
       (forall x, outside F x -> x + 8 <= brk -> uhdr s' x = uhdr s x /\ outside F' x) /\
       (forall x, within F' x <-> within F x \/ brk <= x < ubrk (uos s')))) s.
Proof.
  intros brk Hk Hb Hnu Hfuel. unfold morecore. set (nu' := if decide (nu < 4096) then 4096 else nu).
  assert (nu <= nu' < 2 ^ 28 /\ 0 < nu') as [Hnu1 Hnu2] by (unfold nu'; case_decide; lia).
  ustep. unfold sys. apply runs_zoom. rewrite u32_small by lia.
  assert (i32 (nu' * 8) = nu' * 8) as -> by (apply i32_small; lia).
  eapply runs_mono; [apply (sbrk_law (uos s) (nu' * 8)); lia|]. intros r o [[-> Eo]|(-> & Eo & Hle)]; fold brk in Eo |- *.
  - rewrite decide_True by done. ustep. left. split; [done|]. split; [done|]. split; [done|]. by eapply heap_frame; [exact Hk | ..].
  - rewrite decide_False by lia. ustep. ustep. set (s1 := UState _ _ o).
    assert (heap_ok (ubrk o) s1 F L) as Hk1.
    { eapply heap_frame; [exact Hk | done | lia | done |]. intros x Hx. simpl. by rewrite hset_ne by lia. }
    ustep. eapply runs_mono.
    + apply (runs_free (ubrk o) s1 F L brk nu' fuel); [done | done | | done]. pose proof Hk as [K1 K2 K3 K4 K5 K6 K7 K8]. split; try lia.
      * simpl. by rewrite hset_eq.
      * intros b m Hb'. left. by apply (K6 b m).
      * intros a n Ha. left. by destruct (K5 a n Ha) as (_ & _ & _ & ?).
    + intros [] s2 (F' & Hk2 & Eos & Hsp & Hfd). ustep. right. rewrite Eos. simpl. split; [done|]. split.
      { pose proof (hk_freep _ _ _ _ Hk2) as [->|([f m] & -> & Hf)%list_elem_of_fmap]%elem_of_cons; [lia|].
        destruct (spaced_elem _ _ f m (hk_spaced _ _ _ _ Hk2) Hf). simpl. lia. }
      split; [lia|]. exists F'. split; [done|]. split; [apply Hfd|]. split.
      { destruct (fd_holds _ _ _ _ _ _ Hfd) as ([c m] & Hc & Hh). exists c, m. split; [done|]. destruct Hh as (? & ? & _). simpl in *. lia. }
      split.
      { intros x Hx Hxb. rewrite Hsp by (done || lia). simpl. rewrite hset_ne by lia. split; [done|]. destruct Hx as [Hx0 Hx]. split; [done|].
        intros b m Hb'. destruct (fd_in _ _ _ _ _ _ Hfd _ Hb') as [Hb2|(H1 & H2 & H3 & _)]; [by apply Hx|]. simpl in *.
        left. destruct H3 as [->|(k & Hk' & H3)]; [done|]. destruct (Hx _ _ Hk'); lia. }
      intros x. rewrite (freed_within _ _ _ _ _ _ x Hfd). replace (brk + 8 * nu') with (ubrk o) by lia. done.
Qed.

(** What [malloc] does with the free list [F]: it fails and gives no memory to anybody, or takes a block of [n] headers out of the free memory and what
    it got from [sbrk].  It writes nowhere else. *)
Definition got (n : Z) F L s (r : Z) s' : Prop :=
  (forall x, outside F x -> x + 8 <= ubrk (uos s) -> uhdr s' x = uhdr s x) /\
  ((r = 0 /\ ubrk (uos s') = ubrk (uos s) /\ heap_ok (ubrk (uos s')) s' F L) \/
   exists a F', r = a + 8 /\ L !! a = None /\ ubrk (uos s) <= ubrk (uos s') <= 2 ^ 31 /\ heap_ok (ubrk (uos s')) s' F' (<[a := n]> L) /\
     forall x, within F' x \/ a <= x < a + 8 * n <-> within F x \/ ubrk (uos s) <= x < ubrk (uos s')).

Lemma runs_loop s F L nu fuel : heap_ok (ubrk (uos s)) s F L -> base + 8 <= ubrk (uos s) <= 2 ^ 31 -> 0 < nu < 2 ^ 28 ->
  (3 * length F + 8 <= fuel)%nat ->
  runs (malloc_loop fuel nu (freep s) (hptr (uhdr s (freep s)))) (got nu F L s) s.
Proof.
  intros Hk Hb Hnu Hfuel. destruct (fit_split nu F) as [Hno|(X & p & zp & Y & EF & Hz & _)].
  2: { eapply runs_mono; [apply (runs_loop_fit _ s F L nu fuel Hk); [lia | | lia]|].
       - exists p, zp. split; [rewrite EF; set_solver | done].
       - intros r s' (a & F' & -> & Ha & Hk' & Eo & Ho & Hw). split; [intros x Hx _; by apply Ho|]. right. exists a, F'. rewrite Eo.
         split; [done|]. split; [done|]. split; [lia|]. split; [done|]. intros x. rewrite Hw. split; [by left | intros [?|?]; [done | lia]]. }
  replace fuel with (length F + Datatypes.S (fuel - length F - 1))%nat by lia. set (k := (fuel - length F - 1)%nat).
  eapply runs_eq; [eapply loop_nofit; [exact Hk | lia | done]|]. ustep.
  eapply runs_mono; [apply (runs_morecore s F L nu k Hk); lia|].
  intros r s1 [(-> & Eh & Eb & Hk1)|(-> & Hr & Hb1 & F1 & Hk1 & Hlen & Hfit & Ho1 & Hw1)].
  - rewrite decide_True by done. ustep. split; [by rewrite Eh|]. left. by rewrite Eb.
  - rewrite decide_False by done. ustep. ustep. eapply runs_mono; [apply (runs_loop_fit _ s1 F1 L nu k Hk1); [lia | done | lia]|].
    intros r s2 (a & F' & -> & Ha & Hk' & Eo & Ho & Hw). split.
    { intros x Hx Hxb. destruct (Ho1 x Hx Hxb) as [<- Hx']. by apply Ho. }
    right. exists a, F'. rewrite Eo. split; [done|]. split; [done|]. split; [lia|]. split; [done|]. intros x. by rewrite Hw, Hw1.
Qed.

(** *** More fuel does not change a result *)

Definition steady {T A} (m : nat -> M T A) : Prop := forall f g t a t', (f <= g)%nat -> m f t = Ret a t' -> m g t = Ret a t'.

Lemma steady_const {T A} (m : M T A) : steady (fun _ => m).
Proof. by intros f g t a t' _. Qed.

Lemma steady_bind {T A B} (m : nat -> M T A) (k : nat -> A -> M T B) : steady m -> (forall a, steady (fun f => k f a)) ->
  steady (fun f => bind (m f) (k f)).
Proof.
  intros Hm Hk f g t b t' Hfg (a & t1 & E1 & E2)%bind_ret_inv. unfold bind. rewrite (Hm f g t a t1 Hfg E1).
  by apply (Hk a f g).
Qed.

Lemma steady_search bp p : steady (fun f => free_search (S := S) f bp p).
Proof.
  intros f. revert p. induction f as [|f IH]; intros p g t a t' Hfg E; [done|]. destruct g as [|g]; [lia|].
  cbn [free_search] in *. unfold get_ptr, bind, gets in *. case_decide; [done|]. case_decide; [done|].
  apply (IH _ g); [lia | done].
Qed.

Lemma steady_free ap : steady (fun f => free (S := S) f ap).
Proof.
  apply steady_bind; [apply steady_const|]. intros f0. apply steady_bind; [apply steady_search|]. intros p. apply steady_const.
Qed.

Lemma steady_morecore nu : steady (fun f => morecore (S := S) f nu).
Proof.
  apply steady_bind; [apply steady_const|]. intros p. destruct (decide (p = -1)); [apply steady_const|].
  apply steady_bind; [apply steady_const|]. intros _. apply steady_bind; [apply steady_free|]. intros _. apply steady_const.
Qed.

Lemma steady_malloc_loop nu prev p : steady (fun f => malloc_loop (S := S) f nu prev p).
Proof.
  intros f. revert prev p. induction f as [|f IH]; intros prev p g t a t' Hfg E; [done|]. destruct g as [|g]; [lia|].
  cbn [malloc_loop] in *. unfold get_size, get_ptr in *. apply bind_ret_inv in E as (sz & t1 & E1 & E). rewrite (bind_ret _ _ _ _ _ E1).
  case_decide; [done|]. apply bind_ret_inv in E as (f0 & t2 & E2 & E). rewrite (bind_ret _ _ _ _ _ E2).
  case_decide; apply bind_ret_inv in E as (q & t3 & E3 & E).
  - rewrite (bind_ret _ _ _ _ _ (steady_morecore nu f g _ _ _ ltac:(lia) E3)). case_decide; [done|].
    apply bind_ret_inv in E as (q' & t4 & E4 & E). rewrite (bind_ret _ _ _ _ _ E4). apply (IH _ _ g); [lia | done].
  - rewrite (bind_ret _ _ _ _ _ E3). apply (IH _ _ g); [lia | done].
Qed.

Lemma steady_malloc n : steady (fun f => malloc (S := S) base f n).
Proof.
  apply steady_bind; [apply steady_const|]. intros f0. apply steady_bind; [apply steady_const|]. intros prev.
  apply steady_bind; [apply steady_const|]. intros p. apply steady_malloc_loop.
Qed.

(** *** Programs that use the allocator *)

(** The state of the allocator: there has been no call yet, or the blocks [F] are the free list and those of [L] are in use. *)
Definition uheap s F (L : gmap Z Z) : Prop :=
  base + 8 <= ubrk (uos s) <= 2 ^ 31 /\ ((freep s = 0 /\ F = [] /\ L = ∅) \/ heap_ok (ubrk (uos s)) s F L).

(** The largest request that does not overflow the arithmetic of [malloc] and [sbrk]. *)
Definition max_request : Z := 2 ^ 31 - 32.

Lemma nunits_range n : 0 <= n <= max_request -> 0 < nunits n < 2 ^ 28 /\ n <= 8 * nunits n - 8.
Proof.
  unfold max_request, nunits. intros Hn. rewrite u32_small by lia. pose proof (Z.div_mod (n + 8 - 1) 8 ltac:(lia)).
  pose proof (Z.mod_pos_bound (n + 8 - 1) 8 ltac:(lia)). lia.
Qed.

Lemma malloc_total s F L n : uheap s F L -> 0 <= n <= max_request -> exists k, forall fuel, (k <= fuel)%nat ->
  runs (malloc base fuel n) (got (nunits n) F L s) s.
Proof.
  intros [Hb Hu] Hn. destruct (nunits_range n Hn) as [Hnu _].
  destruct Hu as [(Ef & -> & ->)|Hk].
  - exists 8%nat. intros fuel Hf. unfold malloc. do 3 ustep. rewrite Ef, decide_True by done. repeat ustep.
    set (s1 := UState _ base (uos s)).
    assert (heap_ok (ubrk (uos s)) s1 [] ∅) as Hk.
    { split; simpl; try done; try (left); hsimpl; try done. intros a m Ha. by apply not_elem_of_nil in Ha. }
    eapply runs_mono; [apply (runs_loop s1 [] ∅); [done | done | done | simpl; lia]|].
    intros r s' [Ho Hr]. split; [|done]. intros x Hx Hxb. rewrite Ho by done. simpl. destruct Hx as [Hx _]. unfold apart in Hx. by rewrite !hset_ne by lia.
  - exists (3 * length F + 8)%nat. intros fuel Hf. unfold malloc. do 3 ustep. rewrite decide_False.
    + repeat ustep. by apply (runs_loop s F L).
    + pose proof (hk_freep _ _ _ _ Hk) as [->|([f m] & -> & Hf')%list_elem_of_fmap]%elem_of_cons; [lia|].
      destruct (spaced_elem _ _ f m (hk_spaced _ _ _ _ Hk) Hf'). simpl. lia.
Qed.

Lemma free_total s F L a n : uheap s F L -> L !! a = Some n -> exists k, forall fuel, (k <= fuel)%nat ->
  runs (free fuel (a + 8)) (fun _ s' => uos s' = uos s /\ (forall x, outside F x -> x <> a -> uhdr s' x = uhdr s x) /\
    exists F', uheap s' F' (delete a L) /\ forall x, within F' x <-> within F x \/ a <= x < a + 8 * n) s.
Proof.
  intros [Hb [(_ & _ & ->)|Hk]] Ha; [by rewrite lookup_empty in Ha|]. exists (2 * length F + 2)%nat. intros fuel Hf.
  pose proof Hk as [K1 K2 K3 K4 K5 K6 K7 K8]. destruct (K5 a n Ha) as (A1 & A2 & A3 & A4).
  assert (heap_ok (ubrk (uos s)) s F (delete a L)) as Hk'.
  { split; try done.
    - intros c m [_ Hc]%lookup_delete_Some. by apply K5.
    - intros c m b k [_ Hc]%lookup_delete_Some. by apply K7.
    - intros c m b k [_ Hc]%lookup_delete_Some [_ Hd]%lookup_delete_Some. by apply K8. }
  eapply runs_mono; [apply (runs_free (ubrk (uos s)) s F (delete a L) a n fuel); [lia | done | | done]|].
  - split; try done.
    + intros b m Hb'. destruct (K7 a n b m Ha Hb'); [by right | by left].
    + intros c m [Hne Hc]%lookup_delete_Some. destruct (K8 c m a n Hc Ha); [done | by left | by right].
  - intros [] s' (F' & Hk2 & Eo & Ho & Hfd). split; [done|]. split; [done|]. exists F'. split; [|intros x; by eapply freed_within].
    split; [by rewrite Eo|]. right. by rewrite Eo.
Qed.

(** A program with the allocator: it allocates, frees blocks it has, writes anywhere except into
    the free list, the static header and the headers of its blocks, and may move the break up by itself.  The second
    component is the set of the blocks it has. *)
Inductive ustep : ustate S * gmap Z Z -> ustate S * gmap Z Z -> Prop :=
| us_malloc fuel n r s s' L : 0 <= n <= max_request -> malloc base fuel n s = Ret r s' -> r <> 0 ->
    ustep (s, L) (s', <[r - 8 := nunits n]> L)
| us_null fuel n s s' L : 0 <= n <= max_request -> malloc base fuel n s = Ret 0 s' -> ustep (s, L) (s', L)
| us_free fuel a n s s' L : L !! a = Some n -> free fuel (a + 8) s = Ret tt s' -> ustep (s, L) (s', delete a L)
| us_write F h s L : uheap s F L ->
    (forall x, h x = uhdr s x \/ outside F x /\ forall a n, L !! a = Some n -> apart x a 1) ->
    ustep (s, L) (UState h (freep s) (uos s), L)
| us_grow o s L : ubrk (uos s) <= ubrk o <= 2 ^ 31 -> ustep (s, L) (UState (uhdr s) (freep s) o, L).

Lemma write_ok h s F L : uheap s F L ->
  (forall x, h x = uhdr s x \/ outside F x /\ forall a n, L !! a = Some n -> apart x a 1) ->
  uheap (UState h (freep s) (uos s)) F L.
Proof.
  intros [Hb Hu] Hw. split; [done|]. destruct Hu as [Hu|Hk]; [by left|]. right. unfold outside, apart in Hw.
  pose proof Hk as [K1 K2 K3 K4 K5 K6 K7 K8].
  assert (forall b n, (b, n) ∈ F -> h b = uhdr s b) as HF.
  { intros b n Hb'. destruct (Hw b) as [|[[_ Hx] _]]; [done|]. destruct (spaced_elem _ _ b n K3 Hb'). destruct (Hx b n Hb'); lia. }
  assert (h base = uhdr s base) as Eb by (destruct (Hw base) as [|[[Hx _] _]]; [done | lia]).
  split; try done; simpl.
  - eapply links_ext; [exact K2 | by rewrite Eb | exact HF].
  - by rewrite Eb.
  - intros a n Ha. destruct (K5 a n Ha) as (? & ? & ?). destruct (Hw a) as [->|[_ Hx]]; [done|]. specialize (Hx a n Ha). lia.
Qed.

Lemma ustep_heap x y : ustep x y -> (exists F, uheap x.1 F x.2) -> exists F, uheap y.1 F y.2.
Proof.
  intros Hst [F Hu]. destruct Hst as [fuel n r s s' L Hn E Hr|fuel n s s' L Hn E|fuel a n s s' L Ha E|F1 h s L Hu1 Hw|o s L Ho]; simpl in *.
  - destruct (malloc_total s F L n Hu Hn) as [k Hrun]. destruct (Hrun (Nat.max k fuel)) as (r0 & s0 & E0 & Hg); [lia|].
    rewrite (steady_malloc n fuel _ _ _ _ (Nat.le_max_r k fuel) E) in E0. injection E0 as <- <-.
    destruct Hg as (_ & [(-> & _)|(a & F' & -> & _ & Hb & Hk & _)]); [done|]. replace (a + 8 - 8) with a by lia.
    exists F'. split; [destruct Hu; lia | by right].
  - destruct (malloc_total s F L n Hu Hn) as [k Hrun]. destruct (Hrun (Nat.max k fuel)) as (r0 & s0 & E0 & Hg); [lia|].
    rewrite (steady_malloc n fuel _ _ _ _ (Nat.le_max_r k fuel) E) in E0. injection E0 as <- <-.
    destruct Hg as (_ & [(_ & Eb & Hk)|(a & F' & E0 & _ & Hb & Hk & _)]).
    + exists F. split; [rewrite Eb; apply Hu | by right].
    + destruct (hk_live _ _ _ _ Hk a _ (lookup_insert_eq _ _ _)). lia.
  - destruct (free_total s F L a n Hu Ha) as [k Hrun]. destruct (Hrun (Nat.max k fuel)) as (r0 & s0 & E0 & _ & _ & F' & Hg & _); [lia|].
    rewrite (steady_free (a + 8) fuel _ _ _ _ (Nat.le_max_r k fuel) E) in E0. injection E0 as <- <-. by exists F'.
  - exists F1. by apply write_ok.
  - exists F. destruct Hu as [Hb Hu]. split; [simpl; lia|]. destruct Hu as [Hu|Hk]; [by left|]. right. simpl.
    eapply heap_frame; [exact Hk | lia | lia | done | done].
Qed.

(** A step that leaves what is outside of the free list alone leaves the blocks in use alone. *)
Lemma outside_spares s s' F L : uheap s F L -> (forall x, outside F x -> x + 8 <= ubrk (uos s) -> uhdr s' x = uhdr s x) -> spares L s s'.
Proof.
  intros [_ [(_ & _ & ->)|Hk]] Ho a n x Ha Hx1 Hx2; [by rewrite lookup_empty in Ha|].
  destruct (live_outside _ _ _ _ _ _ _ Hk Ha Hx1 Hx2). by apply Ho.
Qed.
End heap.
End proofs.

(** ** An example *)

#[export] Instance world_sbrk : @SbrkSpec world file_world.
Proof.
  refine (@Build_SbrkSpec world file_world wbrk _). intros w n Hn. unfold runs. simpl. case_decide as E.
  - eexists _, _. split; [reflexivity|]. right. simpl. lia.
  - eexists _, _. split; [reflexivity|]. by left.
Defined.

Definition small_heap : ustate world := UState (fun _ => Header 0 0) 0 (world_of 0 []).

(** The heap after [malloc(100)]. *)
Definition small_heap1 : ustate world :=
  match @malloc world file_world 4096 20 100 small_heap with Ret _ s => s | Stop _ s => s end.

Module Umalloc.

(** C24: the allocator is safe and loses nothing.  Whatever a program does with [malloc] (of at most [2^31 - 32] bytes; [malloc_wraps] is about more) and
    [free], and whatever it writes outside of the allocator's own memory, there is at any time a
    list of free blocks such that the pointers lead from the static header through it, in the order of
    the addresses, and back, [freep] is on it, no two blocks of it are adjacent (they have been joined), and the
    free blocks and the blocks in use are all disjoint and between the program's data and its break ([heap_ok]).
    Then every request returns, and either fails, with the break and the free list as they were,
    or gives a block that is large enough and new; the
    free memory and the block are then together what was free before and what was added at the break.  Every block in use can be freed, after which
    exactly its memory is free in addition.  [malloc] writes only to
    the static header, to what was free and above the old break; [free] only there and to the header of its
    block: no other memory changes, be it of the blocks in use or not the allocator's at all. *)
Theorem heap_safe {S : Type} `{SbrkSpec S} (base : Z) (s0 s : ustate S) (L : gmap Z Z) :
  0 < base -> base + 8 <= ubrk (uos s0) <= 2 ^ 31 -> freep s0 = 0 -> rtc (ustep base) (s0, ∅) (s, L) ->
  exists F, uheap base s F L /\
  (forall n, 0 <= n <= max_request -> exists fuel r s', malloc base fuel n s = Ret r s' /\ spares L s s' /\
     (forall x, outside base F x -> x + 8 <= ubrk (uos s) -> uhdr s' x = uhdr s x) /\
     ((r = 0 /\ ubrk (uos s') = ubrk (uos s) /\ uheap base s' F L) \/
      exists a F', r = a + 8 /\ n <= 8 * nunits n - 8 /\ L !! a = None /\ uheap base s' F' (<[a := nunits n]> L) /\
        forall x, within F' x \/ a <= x < a + 8 * nunits n <-> within F x \/ ubrk (uos s) <= x < ubrk (uos s'))) /\
  (forall a n, L !! a = Some n -> exists fuel s', free fuel (a + 8) s = Ret tt s' /\ spares (delete a L) s s' /\ uos s' = uos s /\
     (forall x, outside base F x -> x <> a -> uhdr s' x = uhdr s x) /\
     exists F', uheap base s' F' (delete a L) /\ forall x, within F' x <-> within F x \/ a <= x < a + 8 * n).
Proof.
  intros Hbase Hb Hf Hr. assert (exists F, uheap base s F L) as [F Hu].
  { change (exists F, uheap base (s, L).1 F (s, L).2). eapply (rtc_ind_r (fun y => exists F, uheap base y.1 F y.2)); [| |exact Hr].
    - exists []. split; [done | by left].
    - intros y z _ Hst Hy. by eapply ustep_heap. }
  exists F. split; [done|]. split.
  - intros n Hn. destruct (malloc_total base Hbase s F L n Hu Hn) as [k Hrun]. destruct (Hrun k (le_n k)) as (r & s' & E & Ho & Hg).
    exists k, r, s'. split; [done|]. split; [by eapply outside_spares|]. split; [done|].
    destruct Hg as [(-> & Eb & Hk)|(a & F' & -> & Ha & Hb' & Hk & Hw)]; [left|right].
    + split; [done|]. split; [done|]. split; [rewrite Eb; apply Hu | by right].
    + exists a, F'. split; [done|]. split; [by apply nunits_range|]. split; [done|]. split; [|done]. split; [destruct Hu; lia | by right].
  - intros a n Ha. destruct (free_total base Hbase s F L a n Hu Ha) as [k Hrun]. destruct (Hrun k (le_n k)) as ([] & s' & E & Eo & Ho & Hg).
    exists k, s'. split; [done|]. split; [|done]. intros c m x Hc Hx1 Hx2. apply lookup_delete_Some in Hc as [Hne Hc].
    destruct Hu as [_ [(_ & _ & ->)|Hk]]; [by rewrite lookup_empty in Ha|]. apply Ho.
    + by eapply (live_outside _ _ _ _ _ c m).
    + destruct (hk_disj _ _ _ _ _ Hk c m a n Hc Ha); [done | lia|]. destruct (hk_live _ _ _ _ _ Hk a n Ha). lia.
Qed.

(** After [malloc(100)] the rest of the new memory is free, and freeing the block makes all of it free. *)
Lemma heap_safe_witness : rtc (@ustep world file_world _ 4096) (small_heap, ∅) (small_heap1, <[49040 := 14]> ∅) /\
  exists F, @uheap world file_world _ 4096 small_heap1 F (<[49040 := 14]> ∅) /\
  exists fuel s' F', @free world fuel 49048 small_heap1 = Ret tt s' /\ @uheap world file_world _ 4096 s' F' ∅ /\
    forall x, within F' x <-> within F x \/ 49040 <= x < 49040 + 8 * 14.
Proof.
  assert (rtc (@ustep world file_world _ 4096) (small_heap, ∅) (small_heap1, <[49040 := 14]> ∅)) as Hr.
  { apply rtc_once. change 49040 with (49048 - 8). change 14 with (nunits 100).
    eapply us_malloc with (fuel := 20%nat); [done | vm_compute; reflexivity | done]. }
  split; [exact Hr|].
  destruct (@heap_safe world file_world world_sbrk 4096 small_heap small_heap1 (<[49040 := 14]> ∅)) as (F & Hu & _ & Hfree);
    [lia | by vm_compute | done | exact Hr |]. exists F. split; [exact Hu|].
  destruct (Hfree 49040 14) as (fuel & s' & E & _ & _ & _ & F' & Hu' & Hw); [apply lookup_insert_eq|]. exists fuel, s', F'.
  rewrite delete_insert_id in Hu' by done. split; [exact E | split; [exact Hu' | exact Hw]].
Defined.

(** Very large requests are not refused.  The size of the block is computed modulo [2^32]: a request of
    [2^32 - 1] bytes succeeds with a block that has room for no byte at all, and a request of
    [2^31] bytes calls [sbrk] with a negative number. *)
Theorem malloc_wraps :
  (exists r s', @malloc world file_world 4096 20 (2 ^ 32 - 1) small_heap = Ret r s' /\ r <> 0 /\
     8 * hsize (uhdr s' (r - 8)) - 8 = 0) /\
  i32 (u32 (nunits (2 ^ 31) * 8)) < 0.
Proof.
  split; [|by vm_compute]. eexists _, _. split; [vm_compute; reflexivity|]. split; [done | by vm_compute].
Qed.
End Umalloc.
