(* ===== verification/Sh.v ===== *)
(** The shell: src/xv6-public/sh.c.

    The parser works on a line in memory: tokens are pairs of positions, and once a
    line is parsed the byte after each token is overwritten with the terminator.
    It is compared with a grammar over the tokens of the line: it accepts exactly
    what the grammar derives, ends on every line, and the commands it builds hold
    the words of the line. *)

From S2P Require Import Prelude CString Fs User.

Module Sh.

(** ** Commands *)

Definition MAXARGS : nat := 10.

(** [struct cmd] and the structures it stands for; [W] is what an argument or a file name
    is: a pair of positions while parsing, a string when the command runs. *)
Inductive cmd (W : Type) :=
| EXEC (argv : list W)
| REDIR (c : cmd W) (file : W) (mode fd : Z)
| PIPE (left right : cmd W)
| LIST (left right : cmd W)
| BACK (c : cmd W).
Arguments EXEC {W}. Arguments REDIR {W}. Arguments PIPE {W}. Arguments LIST {W}. Arguments BACK {W}.

Fixpoint cmd_map {V W} (f : V -> W) (c : cmd V) : cmd W :=
  match c with
  | EXEC argv => EXEC (f <$> argv)
  | REDIR c file mode fd => REDIR (cmd_map f c) (f file) mode fd
  | PIPE l r => PIPE (cmd_map f l) (cmd_map f r)
  | LIST l r => LIST (cmd_map f l) (cmd_map f r)
  | BACK c => BACK (cmd_map f c)
  end.

(** Two commands of the same shape whose words correspond. *)
Fixpoint cmd_rel {V W} (R : V -> W -> Prop) (c : cmd V) (d : cmd W) : Prop :=
  match c, d with
  | EXEC a, EXEC b => Forall2 R a b
  | REDIR c f m fd, REDIR d g n fd' => cmd_rel R c d /\ R f g /\ m = n /\ fd = fd'
  | PIPE l r, PIPE l' r' => cmd_rel R l l' /\ cmd_rel R r r'
  | LIST l r, LIST l' r' => cmd_rel R l l' /\ cmd_rel R r r'
  | BACK c, BACK d => cmd_rel R c d
  | _, _ => False
  end.

(** ** Characters *)

Definition whitespace : list Z := [32; 9; 13; 10; 11].
Definition symbols : list Z := cs "<|>&;()".

Notation ch_bar := 124 (only parsing).
Notation ch_amp := 38 (only parsing).
Notation ch_semi := 59 (only parsing).
Notation ch_lp := 40 (only parsing).
Notation ch_rp := 41 (only parsing).
Notation ch_lt := 60 (only parsing).
Notation ch_gt := 62 (only parsing).
Notation ch_plus := 43 (only parsing).
Notation ch_a := 97 (only parsing).

Definition O_RDONLY : Z := 0x000.
Definition O_WRONLY : Z := 0x001.
Definition O_RDWR : Z := 0x002.
Definition O_CREATE : Z := 0x200.

(** [strchr(set, c)] finds something; the terminator is not looked for. *)
Definition strchr (set : list Z) (c : Z) : bool := bool_decide (c ∈ set).

Fixpoint strlen (l : list Z) : nat :=
  match l with
  | [] => O
  | c :: l' => if decide (c = 0) then O else S (strlen l')
  end.

(** The string a pointer into [buf] points to. *)
Definition cstr_at (buf : list Z) (p : nat) : list Z := take (strlen (drop p buf)) (drop p buf).

(** ** Tokens *)

Section lexer.
Context (buf : list Z) (es : nat).

Definition chr (p : nat) : Z := nth p buf 0.

(** [while(s < es && test( *s)) s++]: [n] is what is left up to [es]. *)
Fixpoint skip (test : Z -> bool) (n p : nat) : nat :=
  match n with
  | O => p
  | S n' => if test (chr p) then skip test n' (S p) else p
  end.

(** The token read, where it starts and ends, and the new [*ps]. *)
Definition gettoken (ps : nat) : Z * (nat * nat) * nat :=
  let s := skip (strchr whitespace) (es - ps) ps in
  let q := s in
  let c := chr s in
  let '(ret, s) :=
    if decide (c = 0) then (c, s)
    else if decide (c ∈ [ch_bar; ch_lp; ch_rp; ch_semi; ch_amp; ch_lt]) then (c, S s)
    else if decide (c = ch_gt) then
      if decide (chr (S s) = ch_gt) then (ch_plus, S (S s)) else (c, S s)
    else (ch_a, skip (fun c => negb (strchr whitespace c) && negb (strchr symbols c)) (es - s) s) in
  let eq := s in
  (ret, (q, eq), skip (strchr whitespace) (es - s) s).

Definition peek (ps : nat) (toks : list Z) : bool * nat :=
  let s := skip (strchr whitespace) (es - ps) ps in
  (bool_decide (chr s <> 0) && strchr toks (chr s), s).
End lexer.

(** ** Parsing *)

Section parser.
Context {St : Type} `{Sys St}.

Definition sh_panic {A} (s : string) : M St A := printf 2 (cs "%s" ++ nl) [AStr (Some (cs s))] ;;; u_exit.

Section parse.
Context (buf : list Z) (es : nat).

(** The [switch] of [parseredirs]. *)
Definition redir {W} (tok : Z) (c : cmd W) (w : W) : cmd W :=
  if decide (tok = ch_lt) then REDIR c w O_RDONLY 0
  else if decide (tok = ch_gt) then REDIR c w (Z.lor O_WRONLY O_CREATE) 1
  else if decide (tok = ch_plus) then REDIR c w (Z.lor O_WRONLY O_CREATE) 1
  else c.

Fixpoint parseredirs (fuel : nat) (c : cmd (nat * nat)) (ps : nat) : M St (cmd (nat * nat) * nat) :=
  match fuel with
  | O => stop_with Spins
  | S fuel' =>
      let '(b, ps) := peek buf es ps [ch_lt; ch_gt] in
      if b then
        let '(tok, _, ps) := gettoken buf es ps in
        let '(tok', w, ps) := gettoken buf es ps in
        if decide (tok' <> ch_a) then sh_panic "missing file for redirection" else
        parseredirs fuel' (redir tok c w) ps
      else ret (c, ps)
  end.

(** [cmd->argv[argc] = q; cmd->eargv[argc] = eq], where [cmd] is the command under the
    redirections of [ret]. *)
Fixpoint add_arg {W} (w : W) (c : cmd W) : cmd W :=
  match c with
  | EXEC argv => EXEC (argv ++ [w])
  | REDIR c file mode fd => REDIR (add_arg w c) file mode fd
  | _ => c
  end.

(** The loop of [parseexec]. *)
Fixpoint parseexec_loop (fuel : nat) (argc : nat) (c : cmd (nat * nat)) (ps : nat) : M St (cmd (nat * nat) * nat) :=
  match fuel with
  | O => stop_with Spins
  | S fuel' =>
      let '(b, ps) := peek buf es ps [ch_bar; ch_rp; ch_amp; ch_semi] in
      if b then ret (c, ps) else
      let '(tok, w, ps) := gettoken buf es ps in
      if decide (tok = 0) then ret (c, ps) else
      if decide (tok <> ch_a) then sh_panic "syntax" else
      let c := add_arg w c in
      let argc := S argc in
      if decide (MAXARGS <= argc)%nat then sh_panic "too many args" else
      let! r := parseredirs fuel' c ps in
      parseexec_loop fuel' argc r.1 r.2
  end.

(** [while(peek(ps, es, "&"))] of [parseline]. *)
Fixpoint parseback (fuel : nat) (c : cmd (nat * nat)) (ps : nat) : M St (cmd (nat * nat) * nat) :=
  match fuel with
  | O => stop_with Spins
  | S fuel' =>
      let '(b, ps) := peek buf es ps [ch_amp] in
      if b then
        let '(_, _, ps) := gettoken buf es ps in
        parseback fuel' (BACK c) ps
      else ret (c, ps)
  end.

Fixpoint parseline (fuel : nat) (ps : nat) : M St (cmd (nat * nat) * nat) :=
  match fuel with
  | O => stop_with Spins
  | S fuel' =>
      let! r := parsepipe fuel' ps in
      let! r := parseback fuel' r.1 r.2 in
      let '(b, ps) := peek buf es r.2 [ch_semi] in
      if b then
        let '(_, _, ps) := gettoken buf es ps in
        let! r' := parseline fuel' ps in
        ret (LIST r.1 r'.1, r'.2)
      else ret (r.1, ps)
  end
with parsepipe (fuel : nat) (ps : nat) : M St (cmd (nat * nat) * nat) :=
  match fuel with
  | O => stop_with Spins
  | S fuel' =>
      let! r := parseexec fuel' ps in
      let '(b, ps) := peek buf es r.2 [ch_bar] in
      if b then
        let '(_, _, ps) := gettoken buf es ps in
        let! r' := parsepipe fuel' ps in
        ret (PIPE r.1 r'.1, r'.2)
      else ret (r.1, ps)
  end
with parseexec (fuel : nat) (ps : nat) : M St (cmd (nat * nat) * nat) :=
  match fuel with
  | O => stop_with Spins
  | S fuel' =>
      let '(b, ps) := peek buf es ps [ch_lp] in
      if b then parseblock fuel' ps else
      let! r := parseredirs fuel' (EXEC []) ps in
      parseexec_loop fuel' 0 r.1 r.2
  end
with parseblock (fuel : nat) (ps : nat) : M St (cmd (nat * nat) * nat) :=
  match fuel with
  | O => stop_with Spins
  | S fuel' =>
      let '(b, ps) := peek buf es ps [ch_lp] in
      if negb b then sh_panic "parseblock" else
      let '(_, _, ps) := gettoken buf es ps in
      let! r := parseline fuel' ps in
      let '(b, ps) := peek buf es r.2 [ch_rp] in
      if negb b then sh_panic "syntax - missing )" else
      let '(_, _, ps) := gettoken buf es ps in
      parseredirs fuel' r.1 ps
  end.
End parse.

(** The bytes after the words of a command become terminators. *)
Fixpoint nulterminate (c : cmd (nat * nat)) (buf : list Z) : list Z :=
  match c with
  | EXEC argv => foldl (fun buf w => <[w.2 := 0]> buf) buf argv
  | REDIR c file _ _ => <[file.2 := 0]> (nulterminate c buf)
  | PIPE l r => nulterminate r (nulterminate l buf)
  | LIST l r => nulterminate r (nulterminate l buf)
  | BACK c => nulterminate c buf
  end.

(** A line of [n] characters has at most [n] tokens, and every four calls nested in each
    other take one. *)
Definition parsecmd (buf : list Z) : M St (cmd (nat * nat) * list Z) :=
  let es := strlen buf in
  let! r := parseline buf es (4 * es + 5) 0 in
  let '(_, s) := peek buf es r.2 [] in
  if decide (s <> es) then
    printf 2 (cs "leftovers: %s" ++ nl) [AStr (Some (cstr_at buf s))] ;;;
    sh_panic "syntax"
  else ret (r.1, nulterminate r.1 buf).

(** ** Running *)

Definition fork1 : M St Z :=
  let! pid := u_fork in
  if decide (pid = -1) then sh_panic "fork" else ret pid.

Fixpoint runcmd (c : cmd (list Z)) : M St unit :=
  match c with
  | EXEC [] => u_exit
  | EXEC (a0 :: argv) =>
      let! _ := u_exec a0 (a0 :: argv) in
      printf 2 (cs "exec %s failed" ++ nl) [AStr (Some a0)] ;;;
      u_exit
  | REDIR c file mode fd =>
      let! _ := u_close fd in
      let! r := u_open file mode in
      if decide (r < 0) then printf 2 (cs "open %s failed" ++ nl) [AStr (Some file)] ;;; u_exit else
      runcmd c ;;;
      u_exit
  | LIST lc rc =>
      let! pid := fork1 in
      (if decide (pid = 0) then runcmd lc else ret tt) ;;;
      let! _ := u_wait in
      runcmd rc ;;;
      u_exit
  | PIPE lc rc =>
      let! r := u_pipe in
      let '(ok, (p0, p1)) := r in
      if decide (ok < 0) then sh_panic "pipe" else
      let! pid := fork1 in
      (if decide (pid = 0) then
         let! _ := u_close 1 in
         let! _ := u_dup p1 in
         let! _ := u_close p0 in
         let! _ := u_close p1 in
         runcmd lc
       else ret tt) ;;;
      let! pid := fork1 in
      (if decide (pid = 0) then
         let! _ := u_close 0 in
         let! _ := u_dup p0 in
         let! _ := u_close p0 in
         let! _ := u_close p1 in
         runcmd rc
       else ret tt) ;;;
      let! _ := u_close p0 in
      let! _ := u_close p1 in
      let! _ := u_wait in
      let! _ := u_wait in
      u_exit
  | BACK c =>
      let! pid := fork1 in
      (if decide (pid = 0) then runcmd c else ret tt) ;;;
      u_exit
  end.

(** [gets] fills the line from its start; the rest of it is zero. *)
Definition getcmd (nbuf : Z) : M St (Z * list Z) :=
  printf 2 (cs "$ ") [] ;;;
  let! l := Ulib.gets nbuf in
  let buf := l ++ replicate (Z.to_nat nbuf - length l) 0 in
  ret (if decide (nth 0 buf 0 = 0) then -1 else 0, buf).

Fixpoint open_console (fuel : nat) : M St unit :=
  match fuel with
  | O => stop_with Spins
  | S fuel' =>
      let! fd := u_open (cs "console") O_RDWR in
      if decide (0 <= fd) then
        if decide (3 <= fd) then let! _ := u_close fd in ret tt
        else open_console fuel'
      else ret tt
  end.

Fixpoint sh_loop (fuel : nat) : M St unit :=
  match fuel with
  | O => stop_with Spins
  | S fuel' =>
      let! r := getcmd 100 in
      let '(ok, buf) := r in
      if decide (ok < 0) then ret tt else
      if decide (nth 0 buf 0 = 99 /\ nth 1 buf 0 = 100 /\ nth 2 buf 0 = 32) then
        let buf := <[(strlen buf - 1)%nat := 0]> buf in
        let! e := u_chdir (cstr_at buf 3) in
        (if decide (e < 0) then printf 2 (cs "cannot cd %s" ++ nl) [AStr (Some (cstr_at buf 3))] else ret tt) ;;;
        sh_loop fuel'
      else
        let! pid := fork1 in
        (if decide (pid = 0) then
           let! p := parsecmd buf in
           runcmd (cmd_map (fun w => cstr_at p.2 w.1) p.1)
         else ret tt) ;;;
        let! _ := u_wait in
        sh_loop fuel'
  end.

Definition main (fuel : nat) : M St unit :=
  open_console fuel ;;;
  sh_loop fuel ;;;
  u_exit.
End parser.

(** ** The tokens of a line *)

Inductive token :=
| TWord (w : list Z)
| TSym (c : Z).

Definition space (c : Z) : Prop := c ∈ whitespace.
Definition symbol (c : Z) : Prop := c ∈ symbols.
Definition plain (c : Z) : Prop := ~ space c /\ ~ symbol c.
#[global] Instance space_dec c : Decision (space c) := _.
#[global] Instance symbol_dec c : Decision (symbol c) := _.
#[global] Instance plain_dec c : Decision (plain c) := _.

Definition flush (cur : list Z) : list token := match cur with [] => [] | _ => [TWord cur] end.

(** A line cut into words and symbols; two greater-than signs in a row are the one symbol
    written as a plus sign.  [cur] is the word being read. *)
Fixpoint tokens (cur : list Z) (l : list Z) : list token :=
  match l with
  | [] => flush cur
  | c :: l' =>
      if decide (space c) then flush cur ++ tokens [] l'
      else if decide (c = ch_gt) then
        flush cur ++
        match l' with
        | d :: l'' => if decide (d = ch_gt) then TSym ch_plus :: tokens [] l'' else TSym ch_gt :: tokens [] l'
        | [] => [TSym ch_gt]
        end
      else if decide (symbol c) then flush cur ++ TSym c :: tokens [] l'
      else tokens (cur ++ [c]) l'
  end.

(** ** The grammar *)

Inductive Redirs : list token -> list (Z * list Z) -> Prop :=
| R_nil : Redirs [] []
| R_cons k w ts rs : k ∈ [ch_lt; ch_gt; ch_plus] -> Redirs ts rs -> Redirs (TSym k :: TWord w :: ts) ((k, w) :: rs).

(** Words, each followed by redirections. *)
Inductive Args : list token -> list (list Z) -> list (Z * list Z) -> Prop :=
| A_nil : Args [] [] []
| A_cons w tr r ts ws rs : Redirs tr r -> Args ts ws rs -> Args (TWord w :: tr ++ ts) (w :: ws) (r ++ rs).

(** The last redirection is the outermost. *)
Definition redirected {W} (rs : list (Z * W)) (c : cmd W) : cmd W := foldl (fun c kw => redir kw.1 c kw.2) c rs.

Inductive Line : list token -> cmd (list Z) -> Prop :=
| L_end ts c n : Pipe ts c -> Line (ts ++ replicate n (TSym ch_amp)) (Nat.iter n BACK c)
| L_semi ts c n ts' c' : Pipe ts c -> Line ts' c' ->
    Line (ts ++ replicate n (TSym ch_amp) ++ TSym ch_semi :: ts') (LIST (Nat.iter n BACK c) c')
with Pipe : list token -> cmd (list Z) -> Prop :=
| P_end ts c : Elem ts c -> Pipe ts c
| P_bar ts c ts' c' : Elem ts c -> Pipe ts' c' -> Pipe (ts ++ TSym ch_bar :: ts') (PIPE c c')
with Elem : list token -> cmd (list Z) -> Prop :=
| E_simple tr r ts ws rs : Redirs tr r -> Args ts ws rs -> (length ws < MAXARGS)%nat ->
    Elem (tr ++ ts) (redirected (r ++ rs) (EXEC ws))
| E_block ts c tr r : Line ts c -> Redirs tr r -> Elem (TSym ch_lp :: ts ++ TSym ch_rp :: tr) (redirected r c).

Scheme Line_rec3 := Minimality for Line Sort Prop
with Pipe_rec3 := Minimality for Pipe Sort Prop
with Elem_rec3 := Minimality for Elem Sort Prop.
Combined Scheme grammar_ind from Line_rec3, Pipe_rec3, Elem_rec3.

(** ** Reading tokens *)

Lemma strchr_true set c : strchr set c = true <-> c ∈ set.
Proof. apply bool_decide_eq_true. Qed.
Lemma strchr_false set c : strchr set c = false <-> c ∉ set.
Proof. apply bool_decide_eq_false. Qed.

Lemma tokens_spaces w l : Forall space w -> tokens [] (w ++ l) = tokens [] l.
Proof. induction 1 as [|c w Hc _ IH]; [done|]. simpl. by rewrite decide_True. Qed.

Lemma plain_gt c : plain c -> c <> ch_gt.
Proof. intros [_ H] ->. apply H. unfold symbol. by apply (bool_decide_unpack _). Qed.

Lemma symbol_plus : ~ symbol ch_plus.
Proof. unfold symbol. by apply (bool_decide_unpack _). Qed.

Lemma one_char_symbol c : c ∈ [ch_bar; ch_lp; ch_rp; ch_semi; ch_amp; ch_lt] -> symbol c /\ c <> ch_gt.
Proof. revert c. apply Forall_forall. unfold symbol. by apply (bool_decide_unpack _). Qed.

Lemma symbol_cases c : symbol c -> c ∈ [ch_bar; ch_lp; ch_rp; ch_semi; ch_amp; ch_lt] \/ c = ch_gt.
Proof. unfold symbol. revert c. apply Forall_forall. by apply (bool_decide_unpack _). Qed.

Lemma tokens_plain w l cur : Forall plain w -> tokens cur (w ++ l) = tokens (cur ++ w) l.
Proof.
  intros Hw. revert cur. induction Hw as [|c w Hc _ IH]; intros cur; [by rewrite app_nil_r|].
  simpl. rewrite decide_False by apply Hc. rewrite decide_False by (by apply plain_gt).
  rewrite decide_False by apply Hc. rewrite IH. by rewrite <- app_assoc.
Qed.

(** Where a word ends. *)
Definition edge (l : list Z) : Prop := match l with [] => True | c :: _ => ~ plain c end.

Lemma tokens_flush cur l : edge l -> tokens cur l = flush cur ++ tokens [] l.
Proof.
  destruct l as [|c l]; simpl; [by rewrite app_nil_r|]. unfold plain. intros He.
  destruct (decide (space c)); [done|]. destruct (decide (c = ch_gt)); [done|]. destruct (decide (symbol c)); [done|]. tauto.
Qed.

Lemma tokens_length l : forall cur, (length (tokens cur l) <= length (flush cur) + length l)%nat.
Proof.
  induction l as [l IH] using (well_founded_induction (well_founded_ltof _ length)). unfold ltof in IH. intros cur.
  destruct l as [|c l]; simpl; [lia|].
  destruct (decide (space c)). { rewrite length_app. specialize (IH l ltac:(simpl; lia) []). simpl in IH. lia. }
  destruct (decide (c = ch_gt)).
  { rewrite length_app. destruct l as [|d l]; [simpl; lia|]. case_decide.
    - specialize (IH l ltac:(simpl; lia) []). simpl in *. lia.
    - specialize (IH (d :: l) ltac:(simpl; lia) []). simpl in IH |- *. lia. }
  destruct (decide (symbol c)). { rewrite length_app. specialize (IH l ltac:(simpl; lia) []). simpl in *. lia. }
  specialize (IH l ltac:(simpl; lia) (cur ++ [c])). destruct cur; simpl in *; lia.
Qed.

(** The symbols among the tokens. *)
Definition token_ok (t : token) : Prop :=
  match t with TWord _ => True | TSym c => symbol c \/ c = ch_plus end.

Lemma tokens_ok l : forall cur, Forall token_ok (tokens cur l).
Proof.
  assert (forall cur, Forall token_ok (flush cur)) as Hf by (intros []; repeat constructor).
  assert (symbol ch_gt) as Hg by (unfold symbol; by apply (bool_decide_unpack _)).
  induction l as [l IH] using (well_founded_induction (well_founded_ltof _ length)). unfold ltof in IH. intros cur.
  destruct l as [|c l]; simpl; [done|]. assert (forall cur, Forall token_ok (tokens cur l)) by (intros; apply IH; simpl; lia).
  repeat case_decide; try apply Forall_app_2; try done; [|by constructor; [left|]].
  destruct l as [|d l]; [by repeat constructor|].
  case_decide; constructor; try done; simpl; [by right | | by left]. apply IH. simpl; lia.
Qed.

Lemma tokens_cur l : forall cur, cur <> [] -> exists w ts, tokens cur l = TWord w :: ts.
Proof.
  induction l as [|c l IH]; intros cur Hc; simpl; [by destruct cur; eauto|].
  repeat case_decide; try (destruct cur; [done|]; simpl; eauto; done).
Qed.

(** The first token is a symbol written with a character of [toks]. *)
Definition starts (toks : list Z) (ts : list token) : bool :=
  match ts with
  | TSym c :: _ => bool_decide ((if decide (c = ch_plus) then ch_gt else c) ∈ toks)
  | _ => false
  end.

Section line.
Context (l rest : list Z).
Let buf := l ++ 0 :: rest.
Let es := length l.
Context (Hnz : Forall (fun c => c <> 0) l).

Lemma chr_in p c t : drop p l = c :: t -> chr buf p = c.
Proof.
  intros E. unfold chr, buf. assert (l !! p = Some c) as Hp by (rewrite <- (Nat.add_0_r p), <- lookup_drop, E; done).
  rewrite nth_lookup, lookup_app_l by (by eapply lookup_lt_Some). by rewrite Hp.
Qed.

Lemma chr_end : chr buf es = 0.
Proof. unfold chr, buf, es. rewrite nth_lookup, lookup_app_r, Nat.sub_diag by done. done. Qed.

Lemma skip_spec test p : (p <= es)%nat -> exists w t, drop p l = w ++ t /\ Forall (fun c => test c = true) w /\
  match t with [] => True | c :: _ => test c = false end /\ skip buf test (es - p) p = (p + length w)%nat /\ drop (p + length w) l = t.
Proof.
  intros Hp. remember (es - p)%nat as n eqn:En. revert p Hp En. induction n as [|n IH]; intros p Hp En.
  - exists [], []. assert (drop p l = []) as -> by (apply drop_ge; unfold es in *; lia).
    split_and!; try done; simpl; rewrite Nat.add_0_r; first [done | apply drop_ge; unfold es in *; lia].
  - destruct (drop p l) as [|c t] eqn:E. { apply (f_equal length) in E. rewrite length_drop in E. unfold es in *; simpl in E; lia. }
    assert (drop (S p) l = t) as E' by (replace (S p) with (p + 1)%nat by lia; rewrite <- drop_drop, E; done).
    simpl. rewrite (chr_in _ _ _ E). destruct (test c) eqn:Et.
    + destruct (IH (S p)) as (w & t' & Ed & Hw & Ht & Es & El); [lia | lia|]. rewrite E' in Ed.
      exists (c :: w), t'. split_and!; [by rewrite Ed | by constructor | done | rewrite Es; simpl; lia|].
      replace (p + length (c :: w))%nat with (S p + length w)%nat by (simpl; lia). done.
    + exists [], (c :: t). split_and!; [done | done | done | simpl; lia | by rewrite Nat.add_0_r].
Qed.

(** The position [p] is where the tokens [ts] are left. *)
Definition At (p : nat) (ts : list token) : Prop := (p <= es)%nat /\ tokens [] (drop p l) = ts.

(** A pair of positions around the word [u]. *)
Definition word_at (w : nat * nat) (u : list Z) : Prop :=
  (w.1 <= w.2 <= es)%nat /\ take (w.2 - w.1) (drop w.1 l) = u /\ Forall plain u /\ edge (drop w.2 l).

Lemma at_sym p c ts : At p (TSym c :: ts) -> symbol c \/ c = ch_plus.
Proof. intros [_ E]. pose proof (tokens_ok (drop p l) []) as Hok. rewrite E in Hok. by inversion Hok. Qed.

Lemma skip_spaces p ts : At p ts -> exists t, (p <= skip buf (strchr whitespace) (es - p) p)%nat /\
  (skip buf (strchr whitespace) (es - p) p <= es)%nat /\ drop (skip buf (strchr whitespace) (es - p) p) l = t /\ tokens [] t = ts /\
  match t with [] => True | c :: _ => ~ space c end.
Proof.
  intros [Hp <-]. destruct (skip_spec (strchr whitespace) p Hp) as (w & t & E & Hw & Ht & Es & Ed). exists t. rewrite Es.
  split_and!; [lia | | done | |].
  - apply (f_equal length) in E. rewrite length_drop, length_app in E. unfold es in *. lia.
  - rewrite E. symmetry. apply tokens_spaces. eapply Forall_impl; [exact Hw|]. intros c. apply strchr_true.
  - destruct t; [done|]. by apply strchr_false.
Qed.

Lemma drop_at_end p : (p <= es)%nat -> drop p l = [] -> p = es.
Proof. intros Hp E. apply (f_equal length) in E. rewrite length_drop in E. unfold es in *; simpl in E; lia. Qed.

Lemma drop_tail p c t : drop p l = c :: t -> drop (S p) l = t /\ (S p <= es)%nat /\ c <> 0.
Proof.
  intros E. split_and!.
  - replace (S p) with (p + 1)%nat by lia. by rewrite <- drop_drop, E.
  - apply (f_equal length) in E. rewrite length_drop in E. unfold es in *; simpl in E; lia.
  - assert (c ∈ l) as Hc by (rewrite <- (take_drop p l), E; apply elem_of_app; right; left). rewrite Forall_forall in Hnz. by apply Hnz.
Qed.

Lemma peek_spec p ts toks : Forall symbol toks -> At p ts ->
  (peek buf es p toks).1 = starts toks ts /\ At (peek buf es p toks).2 ts /\ (ts = [] <-> (peek buf es p toks).2 = es).
Proof.
  intros Hsy Ha. unfold peek. destruct (skip_spaces p ts Ha) as (t & _ & Hle & Ed & Et & Hc).
  set (q := skip _ _ _ _) in *. clearbody q. cbn [fst snd]. split_and!; [|by split; [|rewrite Ed]|].
  - destruct t as [|c t].
    + apply drop_at_end in Ed as ->; [|done]. rewrite chr_end. subst ts. rewrite bool_decide_eq_false_2 by tauto. done.
    + rewrite (chr_in _ _ _ Ed). apply drop_tail in Ed as (_ & _ & Hz). rewrite bool_decide_eq_true_2 by done. simpl.
      unfold strchr. subst ts. simpl. rewrite decide_False by done. destruct (decide (c = ch_gt)) as [->|Hg].
      { destruct t as [|d t]; [done|]. by case_decide. }
      destruct (decide (symbol c)) as [Hs|Hs].
      * simpl. rewrite decide_False; [done|]. intros ->. by apply symbol_plus in Hs.
      * destruct (tokens_cur t [c]) as (w & ts & ->); [done|]. apply bool_decide_eq_false. rewrite Forall_forall in Hsy. eauto.
  - destruct t as [|c t].
    + apply drop_at_end in Ed; [|done]. subst ts. done.
    + split.
      * intros ->. simpl in Et. rewrite decide_False in Et by done. exfalso. revert Et. case_decide.
        { destruct t; [done|]. by case_decide. } case_decide; [done|]. by destruct (tokens_cur t [c]) as (w & ts & ->).
      * intros ->. unfold es in Ed. by rewrite drop_all in Ed.
Qed.

Definition took (ts : list token) (r : Z * (nat * nat) * nat) : Prop :=
  match ts with
  | [] => r.1.1 = 0 /\ At r.2 []
  | TSym c :: ts' => r.1.1 = c /\ At r.2 ts'
  | TWord u :: ts' => r.1.1 = ch_a /\ word_at r.1.2 u /\ At r.2 ts'
  end.

Lemma at_skip p ts : At p ts -> At (skip buf (strchr whitespace) (es - p) p) ts.
Proof. intros Ha. destruct (skip_spaces p ts Ha) as (t & _ & Hle & Ed & Et & _). split; [done | by rewrite Ed]. Qed.

Definition word_char (c : Z) : bool := negb (strchr whitespace c) && negb (strchr symbols c).

Lemma word_char_spec c : word_char c = true <-> plain c.
Proof.
  unfold word_char, plain, space, symbol. rewrite andb_true_iff, !negb_true_iff, !strchr_false. done.
Qed.

(** A word, once its first character is seen. *)
Lemma skip_word q c t : (q <= es)%nat -> drop q l = c :: t -> plain c ->
  let e := skip buf word_char (es - q) q in
  exists u ts, tokens [] (drop q l) = TWord u :: ts /\ word_at (q, e) u /\ At e ts.
Proof.
  intros Hq E Hc. cbv zeta. destruct (skip_spec word_char q Hq) as (w & t' & Ew & Hw & Ht & Es & Ed). rewrite Es.
  assert (Forall plain w) as Hpl by (eapply Forall_impl; [exact Hw|]; intros ?; apply word_char_spec).
  assert (edge t') as He. { destruct t' as [|d t']; [done|]. simpl. rewrite <- word_char_spec. by rewrite Ht. }
  assert (q + length w <= es)%nat as Hle.
  { apply (f_equal length) in Ew. rewrite length_drop, length_app in Ew. unfold es in *. lia. }
  exists w, (tokens [] t'). split_and!.
  - rewrite Ew, tokens_plain by done. rewrite app_nil_l, tokens_flush by done. destruct w; [|done].
    simpl in Ew. rewrite Ew in E. subst t'. simpl in He. tauto.
  - split_and!; cbn [fst snd]; [lia | lia | | done | by rewrite Ed].
    replace (q + length w - q)%nat with (length w) by lia. rewrite Ew. apply take_app_length.
  - split; [done | by rewrite Ed].
Qed.

Lemma gettoken_spec p ts : At p ts -> took ts (gettoken buf es p).
Proof.
  intros Ha. unfold gettoken. destruct (skip_spaces p ts Ha) as (t & _ & Hle & Ed & Et & Hc).
  set (q := skip buf (strchr whitespace) (es - p) p) in *. clearbody q. subst ts. destruct t as [|c t].
  - assert (q = es) as -> by (by apply drop_at_end). rewrite chr_end. rewrite decide_True by done.
    split; [done|]. apply at_skip. split; [done | by rewrite Ed].
  - rewrite (chr_in _ _ _ Ed). destruct (drop_tail _ _ _ Ed) as (Ed1 & Hle1 & Hz). rewrite decide_False by done.
    destruct (decide (c ∈ _)) as [Hin|Hin].
    { destruct (one_char_symbol c Hin) as [Hs Hg].
      simpl. rewrite !decide_False by done. rewrite decide_True by done. split; [done|]. apply at_skip. split; [done | by rewrite Ed1]. }
    simpl tokens. rewrite (decide_False (P := space c)) by done. destruct (decide (c = ch_gt)) as [->|Hg].
    { destruct t as [|d t].
      - assert (S q = es) as -> by (by apply drop_at_end). rewrite chr_end. rewrite decide_False by done. split; [done|].
        apply at_skip. split; [done|]. unfold es. by rewrite drop_all.
      - rewrite (chr_in _ _ _ Ed1). destruct (drop_tail _ _ _ Ed1) as (Ed2 & Hle2 & _). case_decide.
        + split; [done|]. apply at_skip. split; [done | by rewrite Ed2].
        + split; [done|]. apply at_skip. split; [done | by rewrite Ed1]. }
    assert (~ symbol c) as Hs.
    { intros Hs. by destruct (symbol_cases c Hs). }
    destruct (skip_word q c t Hle Ed) as (u & ts & Eu & Hw & Ha'); [done|].
    rewrite Ed in Eu. simpl in Eu. rewrite !decide_False in Eu by done. rewrite decide_False by done. rewrite Eu.
    split_and!; [done | exact Hw | by apply at_skip].
Qed.

(** ** Soundness of the parser *)

Section sound.
Context {St : Type} `{HSys : Sys St, HSpec : !SysSpec St}.
Context (s : St) (v : uview) (Hv : shows s v).

(** The program returns [a] with [Q a] and touches nothing, or it exits. *)
Definition yields {A} (m : M St A) (Q : A -> Prop) : Prop :=
  match m s with Ret a s' => s' = s /\ Q a | Stop r _ => r = Exits end.

Lemma yields_ret {A} (a : A) (Q : A -> Prop) : Q a -> yields (ret a) Q.
Proof. done. Qed.
Lemma yields_bind {A B} (m : M St A) (f : A -> M St B) Q R :
  yields m Q -> (forall a, Q a -> yields (f a) R) -> yields (bind m f) R.
Proof. unfold yields, bind. destruct (m s) as [a s'|r s']; [|done]. intros [-> Ha] Hf. by apply Hf. Qed.
Lemma yields_mono {A} (m : M St A) (Q R : A -> Prop) : yields m Q -> (forall a, Q a -> R a) -> yields m R.
Proof. unfold yields. destruct (m s); naive_solver. Qed.

Lemma panic_exits {A} (msg : string) s0 v0 : shows s0 v0 -> exists s', sh_panic (A := A) msg s0 = Stop Exits s'.
Proof.
  intros Hs. unfold sh_panic, bind. destruct (runs_printf 2 (cs "%s" ++ nl) [AStr (Some (cs msg))] (cs msg ++ nl) s0 v0 (fun _ _ => True)) as (a & s' & -> & _).
  - unfold nl. simpl. by rewrite ?app_nil_r.
  - done.
  - done.
  - by exists s'.
Qed.

Lemma yields_panic {A} (msg : string) (Q : A -> Prop) : yields (sh_panic msg) Q.
Proof. unfold yields. by destruct (panic_exits (A := A) msg s v Hv) as [s' ->]. Qed.

Lemma rel_redir k c d w u : cmd_rel word_at c d -> word_at w u -> cmd_rel word_at (redir k c w) (redir k d u).
Proof. intros Hc Hw. unfold redir. by repeat case_decide; simpl. Qed.

Lemma starts_redir ts : starts [ch_lt; ch_gt] ts = true -> exists k ts', ts = TSym k :: ts' /\ k ∈ [ch_lt; ch_gt; ch_plus].
Proof.
  destruct ts as [|[w|c] ts]; try done. simpl. intros E%bool_decide_eq_true. exists c, ts. split; [done|].
  case_decide; [subst; set_solver|]. set_solver.
Qed.

Lemma starts_sym toks ts : starts toks ts = true -> exists k ts', ts = TSym k :: ts'.
Proof. destruct ts as [|[w|c] ts]; eauto; done. Qed.

Lemma parseredirs_sound fuel : forall c d p ts, At p ts -> (length ts < fuel)%nat -> cmd_rel word_at c d ->
  yields (parseredirs buf es fuel c p) (fun r => exists tr rs ts', ts = tr ++ ts' /\ Redirs tr rs /\ At r.2 ts' /\ cmd_rel word_at r.1 (redirected rs d)).
Proof.
  induction fuel as [|fuel IH]; intros c d p ts Ha Hf Hr; [lia|]. cbn [parseredirs].
  destruct (peek_spec p ts [ch_lt; ch_gt]) as (Eb & Hp & _); [by apply (bool_decide_unpack _) | done|].
  destruct (peek buf es p _) as [b q]. cbn [fst snd] in *. subst b. destruct (starts _ ts) eqn:Es.
  - apply starts_redir in Es as (k & ts1 & -> & Hk). pose proof (gettoken_spec q _ Hp) as Hg.
    destruct (gettoken buf es q) as [[tok w0] q1]. destruct Hg as [Etok Ha1]. cbn [fst snd] in *. subst tok.
    pose proof (gettoken_spec q1 _ Ha1) as Hg. destruct (gettoken buf es q1) as [[tok w] q2].
    destruct (decide (tok <> ch_a)) as [Hn|Hn]; [by apply yields_panic|].
    destruct ts1 as [|[u|c1] ts2]; destruct Hg as [Etok Hg]; cbn [fst snd] in *; subst tok; [by exfalso; apply Hn | |].
    + destruct Hg as [Hw Ha2]. eapply yields_mono; [apply (IH _ (redir k d u) _ ts2); [done | simpl in *; lia | by apply rel_redir]|].
      intros r (tr & rs & ts' & -> & HR & Hat & Hrel). exists (TSym k :: TWord u :: tr), ((k, u) :: rs), ts'.
      split_and!; [done | by constructor | done | done].
    + exfalso. apply Hn. apply at_sym in Ha1 as [Hs | ->]; [|done]. intros ->. revert Hs. unfold symbol. by apply (bool_decide_unpack _).
  - apply yields_ret. exists [], [], ts. split_and!; [done | constructor | done | done].
Qed.

Lemma add_arg_redirected {W} (rs : list (Z * W)) c w : add_arg w (redirected rs c) = redirected rs (add_arg w c).
Proof.
  revert c. induction rs as [|[k u] rs IH]; intros c; [done|]. simpl. rewrite IH. f_equal. unfold redir. by repeat case_decide.
Qed.

Lemma redirected_app {W} (rs rs' : list (Z * W)) c : redirected (rs ++ rs') c = redirected rs' (redirected rs c).
Proof. apply foldl_app. Qed.

Lemma rel_add_arg w u c : forall d, cmd_rel word_at c d -> word_at w u -> cmd_rel word_at (add_arg w c) (add_arg u d).
Proof.
  induction c; intros [] Hc Hw; simpl in *; try done; [|naive_solver].
  apply Forall2_app; [done|]. by constructor.
Qed.

Lemma not_word_sym p c ts : At p (TSym c :: ts) -> c <> ch_a /\ c <> 0.
Proof.
  intros [Hs | ->]%at_sym; [|done]. split; intros ->; revert Hs; unfold symbol; by apply (bool_decide_unpack _).
Qed.

Lemma parseexec_loop_sound fuel : forall argc c r0 ws0 p ts, At p ts -> (length ts < fuel)%nat ->
  cmd_rel word_at c (redirected r0 (EXEC ws0)) -> length ws0 = argc -> (argc < MAXARGS)%nat ->
  yields (parseexec_loop buf es fuel argc c p) (fun r => exists ta ws rs ts', ts = ta ++ ts' /\ Args ta ws rs /\
    (length (ws0 ++ ws) < MAXARGS)%nat /\ At r.2 ts' /\ cmd_rel word_at r.1 (redirected (r0 ++ rs) (EXEC (ws0 ++ ws)))).
Proof.
  induction fuel as [|fuel IH]; intros argc c r0 ws0 p ts Ha Hf Hr Hl Hm; [lia|]. cbn [parseexec_loop].
  destruct (peek_spec p ts [ch_bar; ch_rp; ch_amp; ch_semi]) as (Eb & Hp & _); [by apply (bool_decide_unpack _) | done|].
  destruct (peek buf es p _) as [b q]. cbn [fst snd] in *. subst b. 
  assert (forall p', At p' ts -> exists ta ws rs ts', ts = ta ++ ts' /\ Args ta ws rs /\
    (length (ws0 ++ ws) < MAXARGS)%nat /\ At p' ts' /\ cmd_rel word_at c (redirected (r0 ++ rs) (EXEC (ws0 ++ ws)))) as Hstop.
  { intros p' Hp'. exists [], [], [], ts. rewrite !app_nil_r. split_and!; [done | constructor | lia | done | done]. }
  destruct (starts _ ts); [apply yields_ret; by apply Hstop|]. 
  pose proof (gettoken_spec q _ Hp) as Hg. destruct (gettoken buf es q) as [[tok w] q1].
  destruct ts as [|[u|k] ts]; destruct Hg as [Etok Hg]; cbn [fst snd] in *; subst tok.
  - rewrite decide_True by done. apply yields_ret. by apply Hstop.
  - destruct Hg as [Hw Ha1]. rewrite !decide_False by (done || tauto). case_decide as Hn; [by apply yields_panic|].
    eapply yields_bind.
    { eapply (parseredirs_sound _ _ (redirected r0 (EXEC (ws0 ++ [u])))); [done | simpl in Hf; lia|].
      change (EXEC (ws0 ++ [u])) with (add_arg u (EXEC ws0)). rewrite <- add_arg_redirected. by apply rel_add_arg. }
    intros r (tr & rs & ts' & -> & HR & Ha2 & Hrel). rewrite <- redirected_app in Hrel.
    eapply yields_mono; [apply (IH _ _ (r0 ++ rs) (ws0 ++ [u]) _ ts'); [done | rewrite ?length_app in Hf; simpl in Hf; rewrite length_app in Hf; lia | done | rewrite length_app; simpl; lia | lia]|].
    intros r1 (ta & ws & rs1 & ts1 & -> & HA & Hlen & Ha3 & Hrel1). exists (TWord u :: tr ++ ta), (u :: ws), (rs ++ rs1), ts1.
    rewrite <- !app_assoc in *. simpl in *. rewrite <- ?app_assoc. split_and!; [done | by constructor | done | done | done].
  - destruct (not_word_sym _ _ _ Hp) as [Hk Hk0]. rewrite decide_False by done. rewrite decide_True by done. by apply yields_panic.
Qed.

(** The next character of the line, and the next token. *)
Ltac look p ts toks q Hp :=
  let Eb := fresh "Eb" in
  destruct (peek_spec p ts toks) as (Eb & Hp & _); [by apply (bool_decide_unpack _) | done|];
  destruct (peek buf es p toks) as [? q]; cbn [fst snd] in *; rewrite Eb; clear Eb.
Ltac take_token q q' Hp Ha :=
  let Hg := fresh "Hg" in
  pose proof (gettoken_spec q _ Hp) as Hg; destruct (gettoken buf es q) as [[? ?] q']; destruct Hg as [_ Ha]; cbn [fst snd] in *.

Lemma starts_one k ts : k <> ch_gt -> starts [k] ts = true -> exists ts', ts = TSym k :: ts'.
Proof.
  intros Hk. destruct ts as [|[w|c] ts]; try done. simpl. intros E%bool_decide_eq_true. exists ts.
  apply list_elem_of_singleton in E. case_decide; congruence.
Qed.

Lemma parseback_sound fuel : forall c d p ts, At p ts -> (length ts < fuel)%nat -> cmd_rel word_at c d ->
  yields (parseback buf es fuel c p) (fun r => exists n ts', ts = replicate n (TSym ch_amp) ++ ts' /\ At r.2 ts' /\ cmd_rel word_at r.1 (Nat.iter n BACK d)).
Proof.
  induction fuel as [|fuel IH]; intros c d p ts Ha Hf Hr; [lia|]. cbn [parseback]. look p ts [ch_amp] q Hp.
  destruct (starts _ ts) eqn:Es.
  - apply starts_one in Es as [ts1 ->]; [|done]. take_token q q1 Hp Ha1.
    eapply yields_mono; [apply (IH _ (BACK d) _ ts1); [done | simpl in Hf; lia | done]|].
    intros r (n & ts' & -> & Hat & Hrel). exists (S n), ts'. split_and!; [done | done|]. by rewrite Nat.iter_succ_r.
  - apply yields_ret. by exists 0%nat, ts.
Qed.

Definition sound_at (G : list token -> cmd (list Z) -> Prop) (k : nat) (fuel : nat) (m : nat -> M St (cmd (nat * nat) * nat)) : Prop :=
  forall p ts, At p ts -> (4 * length ts + k <= fuel)%nat ->
  yields (m p) (fun r => exists t0 ts' d, ts = t0 ++ ts' /\ G t0 d /\ At r.2 ts' /\ cmd_rel word_at r.1 d).

Lemma parse_sound fuel :
  sound_at Line 5 fuel (parseline buf es fuel) /\ sound_at Pipe 4 fuel (parsepipe buf es fuel) /\
  sound_at Elem 3 fuel (parseexec buf es fuel) /\ sound_at Elem 2 fuel (parseblock buf es fuel).
Proof.
  induction fuel as [|fuel (IHl & IHp & IHe & IHb)]; [split_and!; intros ? ? ? ?; lia|]. split_and!; intros p ts Ha Hf.
  - cbn [parseline]. eapply yields_bind; [apply (IHp p ts Ha); lia|]. intros r (t0 & ts1 & d & -> & HG & Ha1 & Hrel).
    rewrite length_app in Hf. eapply yields_bind; [apply (parseback_sound _ _ d _ ts1); [done | lia | done]|].
    intros r1 (n & ts2 & -> & Ha2 & Hrel1). rewrite length_app in Hf. look (r1.2) ts2 [ch_semi] q Hp. destruct (starts _ ts2) eqn:Es.
    + apply starts_one in Es as [ts3 ->]; [|done]. take_token q q1 Hp Ha3. simpl in Hf.
      eapply yields_bind; [apply (IHl _ ts3 Ha3); lia|]. intros r2 (t1 & ts4 & d1 & -> & HG1 & Ha4 & Hrel2). apply yields_ret.
      eexists _, ts4, _. split_and!; [|by apply (L_semi t0 d n t1 d1) | done | done]. by rewrite <- !app_assoc.
    + apply yields_ret. eexists _, ts2, _. split_and!; [|by apply (L_end t0 d n) | done | done]. by rewrite <- !app_assoc.
  - cbn [parsepipe]. eapply yields_bind; [apply (IHe p ts Ha); lia|]. intros r (t0 & ts1 & d & -> & HG & Ha1 & Hrel).
    rewrite length_app in Hf. look (r.2) ts1 [ch_bar] q Hp. destruct (starts _ ts1) eqn:Es.
    + apply starts_one in Es as [ts3 ->]; [|done]. take_token q q1 Hp Ha3. simpl in Hf.
      eapply yields_bind; [apply (IHp _ ts3 Ha3); lia|]. intros r2 (t1 & ts4 & d1 & -> & HG1 & Ha4 & Hrel2). apply yields_ret.
      eexists _, ts4, _. split_and!; [|by apply (P_bar t0 d t1 d1) | done | done]. by rewrite <- !app_assoc.
    + apply yields_ret. eexists _, ts1, _. split_and!; [done | by apply (P_end t0 d) | done | done].
  - cbn [parseexec]. look p ts [ch_lp] q Hp. destruct (starts _ ts) eqn:Es; [apply (IHb q ts Hp); lia|].
    eapply yields_bind; [apply (parseredirs_sound _ _ (EXEC []) _ ts); [done | lia | by simpl]|].
    intros r (tr & rs & ts1 & -> & HR & Ha1 & Hrel). rewrite length_app in Hf.
    eapply yields_mono; [apply (parseexec_loop_sound _ _ _ rs [] _ ts1); [done | lia | done | done | unfold MAXARGS; lia]|].
    intros r1 (ta & ws & rs1 & ts2 & -> & HA & Hlen & Ha2 & Hrel1). eexists _, ts2, _.
    split_and!; [|by apply (E_simple tr rs ta ws rs1) | done | done]. by rewrite <- !app_assoc.
  - cbn [parseblock]. look p ts [ch_lp] q Hp. destruct (starts _ ts) eqn:Es; [|by apply yields_panic]. simpl negb. cbv iota.
    apply starts_one in Es as [ts3 ->]; [|done]. take_token q q1 Hp Ha3. simpl in Hf.
    eapply yields_bind; [apply (IHl _ ts3 Ha3); lia|]. intros r2 (t1 & ts4 & d1 & -> & HG1 & Ha4 & Hrel2). rewrite length_app in Hf.
    look (r2.2) ts4 [ch_rp] q2 Hp2. destruct (starts _ ts4) eqn:Es; [|by apply yields_panic]. simpl negb. cbv iota.
    apply starts_one in Es as [ts5 ->]; [|done]. take_token q2 q3 Hp2 Ha5. simpl in Hf.
    eapply yields_mono; [apply (parseredirs_sound _ _ d1 _ ts5); [done | lia | done]|].
    intros r (tr & rs & ts6 & -> & HR & Ha6 & Hrel). eexists _, ts6, _.
    split_and!; [|by apply (E_block t1 d1 tr rs) | done | done]. simpl. rewrite <- !app_assoc. done.
Qed.

(** ** Completeness of the parser *)

Definition returns {A} (m : M St A) (Q : A -> Prop) : Prop := exists a, m s = Ret a s /\ Q a.

Lemma returns_ret {A} (a : A) (Q : A -> Prop) : Q a -> returns (ret a) Q.
Proof. intros Ha. by exists a. Qed.
Lemma returns_bind {A B} (m : M St A) (f : A -> M St B) Q R :
  returns m Q -> (forall a, Q a -> returns (f a) R) -> returns (bind m f) R.
Proof. intros (a & Em & Ha) Hf. destruct (Hf a Ha) as (b & Eb & Hb). exists b. split; [|done]. unfold bind. by rewrite Em. Qed.

(** What may come after a part of a line. *)
Definition follows (toks : list Z) (ts : list token) : Prop := ts = [] \/ exists k ts', ts = TSym k :: ts' /\ k ∈ toks.

Lemma follows_weaken toks toks' ts : follows toks ts -> (forall k, k ∈ toks -> k ∈ toks') -> follows toks' ts.
Proof. intros [-> | (k & ts' & -> & Hk)] Hin; [by left|]. right. eauto. Qed.

Lemma follows_not toks toks' ts : follows toks ts -> Forall (fun k => k <> ch_plus /\ k ∉ toks') toks -> starts toks' ts = false.
Proof.
  intros [-> | (k & ts' & -> & Hk)] HF; [done|]. rewrite Forall_forall in HF. destruct (HF k Hk) as [Hp Hn].
  simpl. rewrite decide_False by done. by apply bool_decide_eq_false.
Qed.

Lemma follows_cons k toks ts : k ∈ toks -> follows toks (TSym k :: ts).
Proof. right; eauto. Qed.

Ltac no_start := match goal with H : follows _ ?ts |- context [starts _ ?ts] => rewrite (follows_not _ _ ts H) by (by apply (bool_decide_unpack _)) end.

Lemma parseredirs_complete tr rs : Redirs tr rs -> forall fuel c d p ts, At p (tr ++ ts) -> (length tr < fuel)%nat ->
  cmd_rel word_at c d -> starts [ch_lt; ch_gt] ts = false ->
  returns (parseredirs buf es fuel c p) (fun r => At r.2 ts /\ cmd_rel word_at r.1 (redirected rs d)).
Proof.
  induction 1 as [|k u tr rs Hk HR IH]; intros [|fuel] c d p ts Ha Hf Hr Hs; simpl in Hf; try lia; cbn [parseredirs].
  - simpl in Ha. look p ts [ch_lt; ch_gt] q Hp. rewrite Hs. by apply returns_ret.
  - look p ((TSym k :: TWord u :: tr) ++ ts) [ch_lt; ch_gt] q Hp. replace (starts _ _) with true.
    2:{ symmetry. simpl. apply bool_decide_eq_true. case_decide; set_solver. }
    pose proof (gettoken_spec q _ Hp) as Hg. destruct (gettoken buf es q) as [[tok w0] q1]. destruct Hg as [Etok Ha1]. cbn [fst snd] in *. subst tok.
    pose proof (gettoken_spec q1 _ Ha1) as Hg. destruct (gettoken buf es q1) as [[tok w] q2]. destruct Hg as [Etok [Hw Ha2]]. cbn [fst snd] in *. subst tok.
    rewrite decide_False by tauto. apply IH; [done | lia | by apply rel_redir | done].
Qed.

Lemma parseexec_loop_complete ta ws rs : Args ta ws rs -> forall fuel argc c r0 ws0 p ts, At p (ta ++ ts) -> (length ta < fuel)%nat ->
  cmd_rel word_at c (redirected r0 (EXEC ws0)) -> length ws0 = argc -> (argc + length ws < MAXARGS)%nat ->
  follows [ch_bar; ch_rp; ch_amp; ch_semi] ts ->
  returns (parseexec_loop buf es fuel argc c p) (fun r => At r.2 ts /\ cmd_rel word_at r.1 (redirected (r0 ++ rs) (EXEC (ws0 ++ ws)))).
Proof.
  induction 1 as [|u tr r ta ws rs HR HA IH]; intros [|fuel] argc c r0 ws0 p ts Ha Hf Hr Hl Hm HF; simpl in Hf; try lia; cbn [parseexec_loop].
  - simpl in Ha. look p ts [ch_bar; ch_rp; ch_amp; ch_semi] q Hp. rewrite !app_nil_r. destruct HF as [-> | (k & ts' & -> & Hk)].
    + simpl starts. cbv iota. pose proof (gettoken_spec q _ Hp) as Hg. destruct (gettoken buf es q) as [[tok w] q1].
      destruct Hg as [Etok Ha1]. cbn [fst snd] in *. subst tok. rewrite decide_True by done. by apply returns_ret.
    + replace (starts _ _) with true; [by apply returns_ret|]. symmetry. simpl. apply bool_decide_eq_true.
      rewrite decide_False; [done|]. intros ->. revert Hk. by apply (bool_decide_unpack _).
  - look p ((TWord u :: tr ++ ta) ++ ts) [ch_bar; ch_rp; ch_amp; ch_semi] q Hp. simpl starts. cbv iota.
    pose proof (gettoken_spec q _ Hp) as Hg. destruct (gettoken buf es q) as [[tok w] q1]. destruct Hg as [Etok [Hw Ha1]]. cbn [fst snd] in *. subst tok.
    rewrite !decide_False by (done || tauto). simpl in Hm. rewrite decide_False by lia. rewrite <- app_assoc in Ha1.
    rewrite length_app in Hf. eapply returns_bind.
    { eapply (parseredirs_complete tr r HR _ _ (redirected r0 (EXEC (ws0 ++ [u])))); [done | lia | |].
      - change (EXEC (ws0 ++ [u])) with (add_arg u (EXEC ws0)). rewrite <- add_arg_redirected. by apply rel_add_arg.
      - destruct HA; [|done]. by no_start. }
    intros r1 [Ha2 Hrel]. rewrite <- redirected_app in Hrel.
    replace (r0 ++ r ++ rs) with ((r0 ++ r) ++ rs) by (by rewrite app_assoc). replace (ws0 ++ u :: ws) with ((ws0 ++ [u]) ++ ws) by (by rewrite <- app_assoc).
    apply IH; [done | lia | done | rewrite length_app; simpl; lia | lia | done].
Qed.

Lemma parseback_complete n : forall fuel c d p ts, At p (replicate n (TSym ch_amp) ++ ts) -> (n < fuel)%nat -> cmd_rel word_at c d ->
  starts [ch_amp] ts = false ->
  returns (parseback buf es fuel c p) (fun r => At r.2 ts /\ cmd_rel word_at r.1 (Nat.iter n BACK d)).
Proof.
  induction n as [|n IH]; intros [|fuel] c d p ts Ha Hf Hr Hs; try lia; cbn [parseback].
  - simpl in Ha. look p ts [ch_amp] q Hp. rewrite Hs. by apply returns_ret.
  - look p (replicate (S n) (TSym ch_amp) ++ ts) [ch_amp] q Hp. simpl starts. cbv iota. take_token q q1 Hp Ha1.
    rewrite Nat.iter_succ_r. apply IH; [done | lia | done | done].
Qed.

Definition complete_at (k : nat) (toks : list Z) (m : nat -> nat -> M St (cmd (nat * nat) * nat)) (t0 : list token) (d : cmd (list Z)) : Prop :=
  forall fuel p ts, At p (t0 ++ ts) -> (4 * length t0 + k <= fuel)%nat -> follows toks ts ->
  returns (m fuel p) (fun r => At r.2 ts /\ cmd_rel word_at r.1 d).

Notation after_line := [ch_rp] (only parsing).
Notation after_pipe := [ch_rp; ch_amp; ch_semi] (only parsing).
Notation after_elem := [ch_bar; ch_rp; ch_amp; ch_semi] (only parsing).

Lemma elem_starts tr r ta ws rs ts : Redirs tr r -> Args ta ws rs -> follows after_elem ts -> starts [ch_lp] (tr ++ ta ++ ts) = false.
Proof.
  intros [|k w tr' r' Hk HR] HA HF.
  - destruct HA; [|done]. simpl. by no_start.
  - simpl. apply bool_decide_eq_false. revert k Hk. apply Forall_forall. by apply (bool_decide_unpack _).
Qed.

Lemma backs_follow n k ts : k = ch_semi \/ k = ch_rp -> follows after_pipe (replicate n (TSym ch_amp) ++ TSym k :: ts).
Proof. intros Hk. destruct n; apply follows_cons; destruct Hk as [-> | ->]; set_solver. Qed.

Lemma parse_complete :
  (forall t0 d, Line t0 d -> complete_at 5 after_line (parseline buf es) t0 d) /\
  (forall t0 d, Pipe t0 d -> complete_at 4 after_pipe (parsepipe buf es) t0 d) /\
  (forall t0 d, Elem t0 d -> complete_at 3 after_elem (parseexec buf es) t0 d).
Proof.
  apply grammar_ind.
  - intros t0 d n _ IH [|fuel] p ts Ha Hf HF; [lia|]. cbn [parseline]. rewrite length_app, length_replicate in Hf. rewrite <- app_assoc in Ha.
    eapply returns_bind; [apply (IH _ _ _ Ha); [lia|]|].
    { destruct n; [eapply follows_weaken; [exact HF | set_solver] | apply follows_cons; set_solver]. }
    intros r [Ha1 Hrel]. eapply returns_bind; [apply (parseback_complete n _ _ d _ ts); [done | lia | done | by no_start]|].
    intros r1 [Ha2 Hrel1]. look (r1.2) ts [ch_semi] q Hp. no_start. by apply returns_ret.
  - intros t0 d n t1 d1 _ IH _ IH1 [|fuel] p ts Ha Hf HF; [lia|]. cbn [parseline]. rewrite !length_app, length_replicate in Hf. simpl in Hf.
    rewrite <- !app_assoc in Ha. eapply returns_bind; [apply (IH _ _ _ Ha); [lia | by apply backs_follow; left]|].
    intros r [Ha1 Hrel]. eapply returns_bind; [apply (parseback_complete n _ _ d _ (TSym ch_semi :: t1 ++ ts)); [done | lia | done | done]|].
    intros r1 [Ha2 Hrel1]. look (r1.2) (TSym ch_semi :: t1 ++ ts) [ch_semi] q Hp. simpl starts. cbv iota. take_token q q1 Hp Ha3.
    eapply returns_bind; [apply (IH1 _ _ _ Ha3); [lia | done]|]. intros r2 [Ha4 Hrel2]. by apply returns_ret.
  - intros t0 d _ IH [|fuel] p ts Ha Hf HF; [lia|]. cbn [parsepipe].
    eapply returns_bind; [apply (IH _ _ _ Ha); [lia | eapply follows_weaken; [exact HF | set_solver]]|].
    intros r [Ha1 Hrel]. look (r.2) ts [ch_bar] q Hp. no_start. by apply returns_ret.
  - intros t0 d t1 d1 _ IH _ IH1 [|fuel] p ts Ha Hf HF; [lia|]. cbn [parsepipe]. rewrite !length_app in Hf. simpl in Hf. rewrite <- !app_assoc in Ha.
    eapply returns_bind; [apply (IH _ _ _ Ha); [lia | apply follows_cons; set_solver]|].
    intros r [Ha1 Hrel]. look (r.2) (TSym ch_bar :: t1 ++ ts) [ch_bar] q Hp. simpl starts. cbv iota. take_token q q1 Hp Ha3.
    eapply returns_bind; [apply (IH1 _ _ _ Ha3); [lia | done]|]. intros r2 [Ha4 Hrel2]. by apply returns_ret.
  - intros tr r ta ws rs HR HA Hl [|fuel] p ts Ha Hf HF; [lia|]. cbn [parseexec]. rewrite length_app in Hf. rewrite <- !app_assoc in Ha.
    look p (tr ++ ta ++ ts) [ch_lp] q Hp. rewrite (elem_starts tr r ta ws rs) by done.
    eapply returns_bind; [apply (parseredirs_complete tr r HR _ _ (EXEC []) _ (ta ++ ts)); [done | lia | by simpl|]|].
    { destruct HA; [|done]. simpl. by no_start. }
    intros r1 [Ha1 Hrel]. apply (parseexec_loop_complete ta ws rs HA _ _ _ r []); [done | lia | done | done | simpl; lia | done].
  - intros t0 d tr r _ IH HR [|[|fuel]] p ts Ha Hf HF; [lia | simpl in Hf; lia|]. cbn [parseexec]. simpl in Hf. rewrite length_app in Hf. simpl in Hf.
    simpl in Ha. rewrite <- !app_assoc in Ha. look p (TSym ch_lp :: t0 ++ TSym ch_rp :: tr ++ ts) [ch_lp] q Hp. simpl starts. cbv iota.
    cbn [parseblock]. look q (TSym ch_lp :: t0 ++ TSym ch_rp :: tr ++ ts) [ch_lp] q1 Hp1. simpl starts. simpl negb. cbv iota.
    take_token q1 q2 Hp1 Ha1. eapply returns_bind; [apply (IH _ _ _ Ha1); [lia | apply follows_cons; set_solver]|].
    intros r1 [Ha2 Hrel]. look (r1.2) (TSym ch_rp :: tr ++ ts) [ch_rp] q3 Hp3. simpl starts. simpl negb. cbv iota. take_token q3 q4 Hp3 Ha3.
    apply (parseredirs_complete tr r HR); [done | lia | done | by no_start].
Qed.
End sound.

(** ** The terminators *)

Fixpoint ends (c : cmd (nat * nat)) : list nat :=
  match c with
  | EXEC argv => snd <$> argv
  | REDIR c f _ _ => ends c ++ [f.2]
  | PIPE l r | LIST l r => ends l ++ ends r
  | BACK c => ends c
  end.

Definition zeroed (ix : list nat) (b : list Z) : list Z := foldl (fun b i => <[i := 0]> b) b ix.

Lemma nulterminate_zeroed c : forall b, nulterminate c b = zeroed (ends c) b.
Proof.
  unfold zeroed. induction c as [argv | c IH f m fd | c1 IH1 c2 IH2 | c1 IH1 c2 IH2 | c IH]; intros b; simpl.
  - revert b. induction argv as [|w argv IH]; intros b; simpl; [done | apply IH].
  - by rewrite foldl_app, IH.
  - by rewrite foldl_app, IH1, IH2.
  - by rewrite foldl_app, IH1, IH2.
  - apply IH.
Qed.

Lemma zeroed_length ix : forall b, length (zeroed ix b) = length b.
Proof. induction ix as [|i ix IH]; intros b; simpl; [done|]. unfold zeroed in *. simpl. by rewrite IH, length_insert. Qed.

Lemma zeroed_lookup ix : forall b i, (i < length b)%nat -> zeroed ix b !! i = if decide (i ∈ ix) then Some 0 else b !! i.
Proof.
  induction ix as [|j ix IH]; intros b i Hi; [done|]. unfold zeroed in *. simpl. rewrite IH by (by rewrite length_insert).
  destruct (decide (i ∈ ix)); [by rewrite decide_True by set_solver|]. destruct (decide (j = i)) as [->|Hj].
  - rewrite decide_True by set_solver. by apply list_lookup_insert_eq.
  - rewrite decide_False by set_solver. by apply list_lookup_insert_ne.
Qed.

Lemma rel_ends c : forall d, cmd_rel word_at c d -> Forall (fun e => (e <= es)%nat /\ edge (drop e l)) (ends c).
Proof.
  assert (forall w u, word_at w u -> (w.2 <= es)%nat /\ edge (drop w.2 l)) as Hw by (intros w u (? & _ & _ & ?); split; [lia | done]).
  induction c as [argv | c IH f m fd | c1 IH1 c2 IH2 | c1 IH1 c2 IH2 | c IH]; intros [] Hr; simpl in *; try done.
  - apply Forall_fmap. induction Hr as [|w u]; constructor; [by eapply Hw | done].
  - destruct Hr as (H1 & H2 & _). apply Forall_app. split; [by eapply IH|]. apply Forall_singleton. by eapply Hw.
  - destruct Hr. apply Forall_app. eauto.
  - destruct Hr. apply Forall_app. eauto.
  - eauto.
Qed.

Lemma strlen_app u t : Forall (fun c => c <> 0) u -> strlen (u ++ 0 :: t) = length u.
Proof. induction 1 as [|c u Hc _ IH]; simpl; [done|]. rewrite decide_False by done. by rewrite IH. Qed.

(** Once the ends are zeroed, a pointer to a word is the word. *)
Lemma cstr_word ix w u : Forall (fun e => (e <= es)%nat /\ edge (drop e l)) ix -> word_at w u -> w.2 ∈ ix ->
  cstr_at (zeroed ix buf) w.1 = u.
Proof.
  destruct w as [q e]. intros Hi ((Hqe & Hee) & Eu & Hp & _) He. cbn [fst snd] in *. set (b := zeroed ix buf).
  assert (length buf = S (es + length rest)) as Hb by (unfold buf, es; rewrite length_app; simpl; lia).
  assert (length u = (e - q)%nat) as Hlu by (subst u; rewrite length_take, length_drop; unfold es in *; lia).
  assert (forall i, (i < e - q)%nat -> b !! (q + i)%nat = u !! i) as Hlk.
  { intros i Hlt. unfold b. rewrite zeroed_lookup by lia. assert (u !! i = l !! (q + i)%nat) as Eq by (subst u; rewrite lookup_take_lt, lookup_drop by lia; done).
    rewrite decide_False.
    - rewrite Eq. unfold buf. apply lookup_app_l. unfold es in *; lia.
    - intros Hin. rewrite Forall_forall in Hi. destruct (Hi _ Hin) as [_ Hed]. destruct (lookup_lt_is_Some_2 u i) as [x Hx]; [lia|].
      rewrite (drop_S l x (q + i)) in Hed by congruence. simpl in Hed. apply Hed. rewrite Forall_lookup in Hp. by eapply Hp. }
  assert (drop q b = u ++ 0 :: drop (S e) b) as Ed.
  { rewrite <- (take_drop (e - q) (drop q b)), drop_drop. replace (q + (e - q))%nat with e by lia. f_equal.
    - apply list_eq. intros i. destruct (decide (i < e - q)%nat).
      + rewrite lookup_take_lt, lookup_drop by lia. by apply Hlk.
      + rewrite lookup_take_ge by lia. symmetry. apply lookup_ge_None. lia.
    - apply drop_S. unfold b. rewrite zeroed_lookup by lia. by rewrite decide_True. }
  unfold cstr_at. rewrite Ed, strlen_app; [apply take_app_length|].
  assert (Forall (fun c => c <> 0) (take (e - q) (drop q l))) by (by apply Forall_take, Forall_drop). by rewrite <- Eu.
Qed.

Lemma nulterminate_words c d : cmd_rel word_at c d -> cmd_map (fun w => cstr_at (nulterminate c buf) w.1) c = d.
Proof.
  intros Hr. rewrite nulterminate_zeroed. pose proof (rel_ends c d Hr) as He.
  assert (forall w, w ∈ ends c -> w ∈ ends c) as Hin by done. revert He Hin. generalize (ends c) at 1 3 4. intros ix He.
  revert d Hr. induction c as [argv | c IH f m fd | c1 IH1 c2 IH2 | c1 IH1 c2 IH2 | c IH]; intros [] Hr Hin; simpl in *; try done.
  - f_equal. induction Hr as [|w u]; simpl; [done|]. simpl in Hin. f_equal; [apply cstr_word; set_solver | set_solver].
  - destruct Hr as (H1 & H2 & -> & ->). f_equal; [apply IH; set_solver | apply cstr_word; set_solver].
  - destruct Hr. f_equal; [apply IH1 | apply IH2]; set_solver.
  - destruct Hr. f_equal; [apply IH1 | apply IH2]; set_solver.
  - f_equal. by apply IH.
Qed.
End line.

Lemma strlen_line l rest : Forall (fun c => c <> 0) l -> strlen (l ++ 0 :: rest) = length l.
Proof. apply strlen_app. Qed.

Lemma rel_unique {V W} (R : V -> W -> Prop) (HR : forall v w w', R v w -> R v w' -> w = w') c : forall d d', cmd_rel R c d -> cmd_rel R c d' -> d = d'.
Proof.
  induction c as [argv | c IH f m fd | c1 IH1 c2 IH2 | c1 IH1 c2 IH2 | c IH]; intros [] [] H1 H2; simpl in *; try done.
  all: destruct_and?; subst; f_equal; eauto.
  match goal with |- ?x = ?y => revert y H2; induction H1; intros y H2 end; inversion H2; subst; [done|]. f_equal; eauto.
Qed.

(** C19: the shell's parser decides the shell's grammar.  On every line the parser ends, and
    the line is accepted exactly when its tokens derive a command; the command is then
    unique, and it is the one the parser builds, with the arguments and file
    names read as C strings from the line after [nulterminate].  Otherwise
    the shell's process exits.  The parser leaves the rest of the process
    alone. *)
Theorem parsecmd_grammar {St} `{HSys : Sys St, HSpec : !SysSpec St} (s : St) v l rest :
  shows s v -> Forall (fun c => c <> 0) l ->
  match parsecmd (l ++ 0 :: rest) s with
  | Ret (c, buf) s' => s' = s /\ forall d, Line (tokens [] l) d <-> d = cmd_map (fun w => cstr_at buf w.1) c
  | Stop r _ => r = Exits /\ forall d, ~ Line (tokens [] l) d
  end.
Proof.
  intros Hv Hnz.
  assert (At l 0 (tokens [] l)) as Ha0 by (split; [lia | by rewrite drop_0]).
  assert (4 * length (tokens [] l) + 5 <= 4 * length l + 5)%nat as Hf by (pose proof (tokens_length l []); simpl in *; lia).
  assert (forall d, Line (tokens [] l) d -> exists c p, parseline (l ++ 0 :: rest) (length l) (4 * length l + 5) 0 s = Ret (c, p) s /\
    At l p [] /\ cmd_rel (word_at l) c d) as Hcomp.
  { intros d Hd. destruct (parse_complete l rest Hnz s v Hv) as [Hc _]. rewrite <- (app_nil_r (tokens [] l)) in Ha0.
    destruct (Hc _ _ Hd _ 0%nat [] Ha0 Hf) as ([c p] & E & Hp & Hr); [by left|]. by exists c, p. }
  destruct (parse_sound l rest Hnz s v Hv (4 * length l + 5)) as [Hs _]. specialize (Hs 0%nat _ Ha0 Hf).
  unfold parsecmd, bind. rewrite strlen_line by done. unfold yields in Hs.
  destruct (parseline _ _ _ _ s) as [[c p] s' | r s'] eqn:E.
  2:{ split; [done|]. intros d Hd. by destruct (Hcomp d Hd) as (c & p & E' & _). }
  destruct Hs as [-> (t0 & ts' & d0 & Et & Hl0 & Hp & Hr)]. cbn [fst snd] in *.
  destruct (peek_spec l rest Hnz p ts' []) as (_ & Hq & Hend); [done | done|].
  destruct (peek _ _ p []) as [b q]. cbn [fst snd] in *. destruct (decide (q <> length l)) as [Hn|Hn].
  - assert (forall d, ~ Line (tokens [] l) d) as Hno.
    { intros d Hd. destruct (Hcomp d Hd) as (c' & p' & [= <- <-] & [_ Hp'] & _). destruct Hp as [_ Hp]. tauto || (apply Hn, Hend; congruence). }
    destruct (runs_printf 2 (cs "leftovers: %s" ++ nl) [AStr (Some (cstr_at (l ++ 0 :: rest) q))]
      (cs "leftovers: " ++ cstr_at (l ++ 0 :: rest) q ++ nl) s v (fun _ s1 => shows s1 (emit 2 (cs "leftovers: " ++ cstr_at (l ++ 0 :: rest) q ++ nl) v)))
      as (x & s1 & -> & Hs1); [unfold nl; simpl; by rewrite ?app_nil_r | done | done|].
    destruct (panic_exits (A := cmd (nat * nat) * list Z) "syntax" s1 _ Hs1) as [s2 ->]. done.
  - split; [done|]. assert (ts' = []) as -> by (apply Hend; lia). rewrite app_nil_r in Et. subst t0.
    rewrite (nulterminate_words l rest Hnz c d0 Hr). intros d. split; [|by intros ->]. intros Hd.
    destruct (Hcomp d Hd) as (c' & p' & [= <- <-] & _ & Hr'). eapply rel_unique; [|exact Hr' | exact Hr].
    intros w u u' (_ & <- & _) (_ & <- & _). done.
Qed.

Lemma parsecmd_grammar_witness :
  Line (tokens [] (cs "(a >> f; b) | c d &"))
    (BACK (PIPE (LIST (REDIR (EXEC [cs "a"]) (cs "f") 0x201 1) (EXEC [cs "b"])) (EXEC [cs "c"; cs "d"]))) /\
  (forall d, ~ Line (tokens [] (cs "a & b")) d).
Proof.
  pose proof (fun l H => @parsecmd_grammar world file_world file_spec (world_of 0 []) _ l [] (world_shows _ _ _) H) as HP. split.
  - specialize (HP (cs "(a >> f; b) | c d &") ltac:(by apply (bool_decide_unpack _))).
    destruct (parsecmd _ _) as [[c buf] s'|r s'] eqn:E; [|by vm_compute in E]. destruct HP as [_ HP]. apply HP.
    vm_compute in E. injection E as <- <- <-. vm_compute. reflexivity.
  - specialize (HP (cs "a & b") ltac:(by apply (bool_decide_unpack _))).
    destruct (parsecmd _ _) as [[c buf] s'|r s'] eqn:E; [by vm_compute in E|]. apply HP.
Defined.

End Sh.
