(* ===== verification/ShRun.v ===== *)
(** Running the shell's commands: [runcmd] of src/xv6-public/sh.c against the
    descriptor table of a process.

    Every process that [runcmd] splits into is followed to its end, whichever of its system
    calls fail: which program it turns into and where its descriptors lead, or with
    which message it gives up. *)

From S2P Require Import Prelude CString Fs User Sh.
Import Sh.

(** ** Descriptors *)

(** What a descriptor leads to: what it led to at the start, a file opened by the shell, or
    an end of the [k]-th pipe. *)
Inductive object :=
| Initial (n : nat)
| Opened (name : list Z) (mode : Z)
| PipeEnd (k : nat) (writing : bool).

Notation fdtable := (gmap Z object).

(** The lowest descriptor that is not in use. *)
Definition lowest (f : fdtable) (r : Z) : Prop :=
  0 <= r < 16 /\ f !! r = None /\ forall i, 0 <= i < r -> is_Some (f !! i).

(** How a system call that can go more than one way goes: it succeeds or fails; [fork] returns in the child or in the parent, or fails. *)
Inductive reply := Ok | Fail | Child | Parent.

(** How a process ends: as a program, with its path, arguments and descriptors, or by [exit] after a message. *)
Inductive fate :=
| Ran (path : list Z) (argv : list (list Z)) (f : fdtable)
| Quit (message : list Z).

(** What [runcmd] relies on: [prep s f k o w] says that the process has the descriptors [f], that [k] pipes have been made, that its
    coming calls of [exec], [open], [pipe] and [fork] go as [o] says, and that it has written [w] on descriptor 2.  A new
    descriptor is the lowest free one; a failing call changes nothing; [dup] of an open descriptor succeeds when there
    is a free one. *)
Class RunSpec (St : Type) `{Sys St} := {
  prep : St -> fdtable -> nat -> list reply -> list Z -> Prop;
  turned_into : St -> fate -> Prop;
  exec_ok s f k o w path argv : prep s f k (Ok :: o) w -> exists s', u_exec path argv s = Stop Exits s' /\ turned_into s' (Ran path argv f);
  exec_fail s f k o w path argv : prep s f k (Fail :: o) w -> runs (u_exec path argv) (fun x s' => x = -1 /\ prep s' f k o w) s;
  exit_law s f k o w : prep s f k o w -> turned_into s (Quit w);
  err_law s f k o w l : prep s f k o w -> is_Some (f !! 2) -> runs (u_write 2 l) (fun _ s' => prep s' f k o (w ++ l)) s;
  close_law s f k o w fd : prep s f k o w -> runs (u_close fd) (fun _ s' => prep s' (delete fd f) k o w) s;
  open_ok s f k o w name mode r : prep s f k (Ok :: o) w -> lowest f r ->
    runs (u_open name mode) (fun x s' => x = r /\ prep s' (<[r := Opened name mode]> f) k o w) s;
  open_fail s f k o w name mode : prep s f k (Fail :: o) w -> runs (u_open name mode) (fun x s' => x = -1 /\ prep s' f k o w) s;
  dup_law s f k o w fd ob r : prep s f k o w -> f !! fd = Some ob -> lowest f r ->
    runs (u_dup fd) (fun x s' => x = r /\ prep s' (<[r := ob]> f) k o w) s;
  pipe_ok s f k o w r0 r1 : prep s f k (Ok :: o) w -> lowest f r0 -> lowest (<[r0 := PipeEnd k false]> f) r1 ->
    runs u_pipe (fun x s' => x = (0, (r0, r1)) /\ prep s' (<[r1 := PipeEnd k true]> (<[r0 := PipeEnd k false]> f)) (S k) o w) s;
  pipe_fail s f k o w : prep s f k (Fail :: o) w -> runs u_pipe (fun x s' => x.1 = -1 /\ prep s' f k o w) s;
  fork_child s f k o w : prep s f k (Child :: o) w -> runs u_fork (fun x s' => x = 0 /\ prep s' f k o w) s;
  fork_parent s f k o w : prep s f k (Parent :: o) w -> runs u_fork (fun x s' => 0 < x /\ prep s' f k o w) s;
  fork_fail s f k o w : prep s f k (Fail :: o) w -> runs u_fork (fun x s' => x = -1 /\ prep s' f k o w) s;
  wait_law s f k o w : prep s f k o w -> runs u_wait (fun _ s' => prep s' f k o w) s
}.

(** ** What a command means *)

Definition complaint (what : string) (name : list Z) : list Z := cs what ++ cs " " ++ name ++ cs " failed" ++ [10].

(** How the process ends in which the calls go as [o] says; nothing, if [o] does not fit. *)
Fixpoint outcome_of (c : cmd (list Z)) (f : fdtable) (k : nat) (o : list reply) : option fate :=
  match c with
  | EXEC [] => Some (Quit [])
  | EXEC (a0 :: argv) =>
      match o with
      | Ok :: _ => Some (Ran a0 (a0 :: argv) f)
      | Fail :: _ => Some (Quit (complaint "exec" a0))
      | _ => None
      end
  | REDIR c file mode fd =>
      match o with
      | Ok :: o' => outcome_of c (<[fd := Opened file mode]> f) k o'
      | Fail :: _ => Some (Quit (complaint "open" file))
      | _ => None
      end
  | PIPE lc rc =>
      match o with
      | Ok :: Child :: o' => outcome_of lc (<[1 := PipeEnd k true]> f) (S k) o'
      | Ok :: Parent :: Child :: o' => outcome_of rc (<[0 := PipeEnd k false]> f) (S k) o'
      | Ok :: Parent :: Parent :: _ => Some (Quit [])
      | Ok :: Fail :: _ | Ok :: Parent :: Fail :: _ => Some (Quit (cs "fork" ++ [10]))
      | Fail :: _ => Some (Quit (cs "pipe" ++ [10]))
      | _ => None
      end
  | LIST lc rc =>
      match o with
      | Child :: o' => outcome_of lc f k o'
      | Parent :: o' => outcome_of rc f k o'
      | Fail :: _ => Some (Quit (cs "fork" ++ [10]))
      | _ => None
      end
  | BACK c =>
      match o with
      | Child :: o' => outcome_of c f k o'
      | Parent :: _ => Some (Quit [])
      | Fail :: _ => Some (Quit (cs "fork" ++ [10]))
      | _ => None
      end
  end.

(** Redirections are of the standard input and output, as the parser makes them. *)
Fixpoint standard (c : cmd (list Z)) : Prop :=
  match c with
  | EXEC _ => True
  | REDIR c _ _ fd => (fd = 0 \/ fd = 1) /\ standard c
  | PIPE lc rc | LIST lc rc => standard lc /\ standard rc
  | BACK c => standard c
  end.

(** Exactly the three standard descriptors are open. *)
Definition three (f : fdtable) : Prop := forall i, is_Some (f !! i) <-> 0 <= i < 3.

Lemma three_insert f fd ob : three f -> 0 <= fd < 3 -> three (<[fd := ob]> f).
Proof.
  intros H3 Hfd i. destruct (decide (i = fd)) as [->|Hne].
  - rewrite lookup_insert_eq. split; [done | by eexists].
  - rewrite lookup_insert_ne by done. apply H3.
Qed.

Lemma lowest_closed f fd : three f -> 0 <= fd < 3 -> lowest (delete fd f) fd.
Proof.
  intros H3 Hfd. split; [lia|]. split; [apply lookup_delete_eq|]. intros i Hi. rewrite lookup_delete_ne by lia. apply H3. lia.
Qed.

Lemma three_free f i : three f -> ~ 0 <= i < 3 -> f !! i = None.
Proof. intros H3 Hi. apply eq_None_not_Some. intros Hs. by apply H3 in Hs. Qed.

(** The descriptors of the pipe. *)
Lemma lowest_pipe f a : three f -> lowest f 3 /\ lowest (<[3 := a]> f) 4.
Proof.
  intros H3. split; (split; [lia|]); split.
  - (apply three_free; [done | lia]).
  - intros i Hi. apply H3. lia.
  - rewrite lookup_insert_ne by lia. (apply three_free; [done | lia]).
  - intros i Hi. destruct (decide (i = 3)) as [->|]; [by rewrite lookup_insert_eq|]. rewrite lookup_insert_ne by done. apply H3. lia.
Qed.

(** The four calls that put an end of the pipe in place of a standard descriptor leave the
    other descriptors as they were. *)
Lemma plumbed f fd (a b ob : object) : three f -> 0 <= fd < 3 ->
  delete 4 (delete 3 (<[fd := ob]> (delete fd (<[4 := b]> (<[3 := a]> f))))) = <[fd := ob]> f.
Proof.
  intros H3 Hfd. rewrite insert_delete_eq. rewrite delete_insert_ne, delete_insert_ne by lia. f_equal.
  rewrite (delete_insert_ne _ 3 4) by lia. rewrite delete_insert_eq, delete_insert_eq.
  rewrite !delete_id; [done | (apply three_free; [done | lia]) | rewrite delete_id; (apply three_free; [done | lia])].
Qed.

(** ** Programs that end *)

Section ends.
Context {St : Type} `{HSys : Sys St, HRun : !RunSpec St}.

Definition ends_as {A} (m : M St A) (r : fate) (s : St) : Prop :=
  exists s', m s = Stop Exits s' /\ turned_into s' r.

Lemma ends_exit {A} s f k o w : prep s f k o w -> ends_as (A := A) u_exit (Quit w) s.
Proof. intros Hp. exists s. split; [done | by eapply exit_law]. Qed.

Lemma ends_now {A B} (m : M St A) (g : A -> M St B) r s : ends_as m r s -> ends_as (bind m g) r s.
Proof. intros (s' & E & Ht). exists s'. unfold bind. by rewrite E. Qed.

Lemma ends_later {A B} (m : M St A) (g : A -> M St B) r s Q :
  runs m Q s -> (forall a s', Q a s' -> ends_as (g a) r s') -> ends_as (bind m g) r s.
Proof. intros (a & s' & E & Ha) Hg. destruct (Hg a s' Ha) as (s2 & E2 & Ht). exists s2. unfold bind. by rewrite E. Qed.

(** *** Messages *)

(** [m] writes [l] on descriptor 2 and does nothing else. *)
Definition says (m : M St unit) (l : list Z) : Prop :=
  forall s f k o w, prep s f k o w -> is_Some (f !! 2) -> runs m (fun _ s' => prep s' f k o (w ++ l)) s.

Lemma says_nil : says (ret tt) [].
Proof. intros s f k o w Hp _. apply runs_ret. by rewrite app_nil_r. Qed.

Lemma says_bind m m' l l' : says m l -> says m' l' -> says (m ;;; m') (l ++ l').
Proof.
  intros Hm Hm' s f k o w Hp H2. apply runs_bind. eapply runs_mono; [by apply Hm|]. intros [] s1 Hs1.
  eapply runs_mono; [by apply Hm'|]. intros [] s2. by rewrite <- app_assoc.
Qed.

Lemma says_putc c : says (putc 2 c) [c].
Proof. intros s f k o w Hp H2. apply runs_bind. eapply runs_mono; [by apply err_law|]. intros x s1 Hs1. by apply runs_ret. Qed.

Lemma says_puts l : says (forM l (putc 2)) l.
Proof. induction l as [|c l IH]; [apply says_nil|]. apply (says_bind _ _ [c] l); [apply says_putc | done]. Qed.

Lemma says_printf fmt : forall state l out, render fmt state (AStr ∘ Some <$> l) = Some out -> says (printf_loop 2 fmt state (AStr ∘ Some <$> l)) out.
Proof.
  induction fmt as [|c fmt IH]; intros state l out Hr; cbn [render printf_loop] in *; [injection Hr as <-; apply says_nil|].
  assert (forall (m : M St unit) t state' l', app t <$> render fmt state' (AStr ∘ Some <$> l') = Some out -> says m t ->
    says (m ;;; printf_loop 2 fmt state' (AStr ∘ Some <$> l')) out) as Hstep.
  { intros m t state' l' (out' & Hm & ->)%fmap_Some Hs. apply says_bind; [done | by apply IH]. }
  destruct (negb state); [case_decide; [by apply IH | apply (Hstep _ [c]); [done | apply says_putc]]|].
  case_decide; [by destruct l|]. case_decide; [by destruct l|].
  case_decide; [destruct l as [|x l]; [done|]; apply (Hstep _ x _ l); [exact Hr | apply says_puts]|].
  case_decide; [by destruct l|]. case_decide; [apply (Hstep _ [c]); [done | apply says_putc]|].
  apply fmap_Some in Hr as (out' & Hm & ->). apply (says_bind _ _ [37] ([c] ++ out')); [apply says_putc|].
  apply says_bind; [apply says_putc | by apply IH].
Qed.

(** A message, and the end. *)
Lemma ends_saying {A} fmt l out s f k o : render fmt false (AStr ∘ Some <$> l) = Some out -> prep s f k o [] -> is_Some (f !! 2) ->
  ends_as (A := A) (printf 2 fmt (AStr ∘ Some <$> l) ;;; u_exit) (Quit out) s.
Proof.
  intros Hr Hp H2. eapply ends_later; [by eapply says_printf|]. intros [] s1 Hs1. by eapply ends_exit.
Qed.

Lemma render_complaint what a : what = "exec"%string \/ what = "open"%string ->
  render (cs what ++ cs " %s failed" ++ nl) false (AStr ∘ Some <$> [a]) = Some (complaint what a).
Proof. by intros [-> | ->]. Qed.

Lemma ends_panic {A} msg s f k o : msg = "fork"%string \/ msg = "pipe"%string -> prep s f k o [] -> is_Some (f !! 2) ->
  ends_as (A := A) (sh_panic msg) (Quit (cs msg ++ [10])) s.
Proof. intros Hm Hp H2. apply (ends_saying _ [cs msg] _ _ f k o); [by destruct Hm as [-> | ->] | done | done]. Qed.

(** *** Forks *)

(** The child of a [fork] goes one way and the parent the other; without a child the shell gives up. *)
Lemma ends_fork {A} (child : M St unit) (parent : M St A) s f k b o r : prep s f k (b :: o) [] -> is_Some (f !! 2) ->
  match b with
  | Child => forall s', prep s' f k o [] -> ends_as child r s'
  | Parent => forall s', prep s' f k o [] -> ends_as parent r s'
  | Fail => r = Quit (cs "fork" ++ [10])
  | Ok => False
  end ->
  ends_as (let! pid := fork1 in (if decide (pid = 0) then child else ret tt) ;;; parent) r s.
Proof.
  intros Hp H2 Hk. unfold fork1. destruct b; [done|..].
  - subst r. apply ends_now. eapply ends_later; [by eapply fork_fail|]. intros x s' [-> Hs]. rewrite decide_True by done.
    by eapply ends_panic; [left|..].
  - eapply ends_later with (Q := fun x s' => x = 0 /\ prep s' f k o []).
    { apply runs_bind. eapply runs_mono; [by eapply fork_child|]. intros x s' [-> Hs]. by apply runs_ret. }
    intros x s' [-> Hs]. rewrite decide_True by done. by apply ends_now, Hk.
  - eapply ends_later with (Q := fun x s' => 0 < x /\ prep s' f k o []).
    { apply runs_bind. eapply runs_mono; [by eapply fork_parent|]. intros x s' [Hx Hs]. rewrite decide_False by lia. by apply runs_ret. }
    intros x s' [Hx Hs]. rewrite decide_False by lia.
    eapply ends_later; [by apply runs_ret with (Q := fun _ s2 => s2 = s')|]. intros _ ? ->. by apply Hk.
Qed.

Ltac call := eapply ends_later; [eauto using close_law, wait_law|]; cbv beta; intros ? ? ?.

(** An end of the pipe takes the place of descriptor [fd]. *)
Lemma ends_plumb {A} (m : M St A) s f k o fd pe ob r : three f -> 0 <= fd < 3 ->
  prep s (<[4 := PipeEnd k true]> (<[3 := PipeEnd k false]> f)) (S k) o [] ->
  (pe = 3 /\ ob = PipeEnd k false \/ pe = 4 /\ ob = PipeEnd k true) ->
  (forall s', prep s' (<[fd := ob]> f) (S k) o [] -> ends_as m r s') ->
  ends_as (let! _ := u_close fd in let! _ := u_dup pe in let! _ := u_close 3 in let! _ := u_close 4 in m) r s.
Proof.
  intros H3 Hfd Hp Hpe Hm. call. eapply ends_later.
  { eapply (dup_law _ _ _ _ _ pe ob fd); [eassumption | |].
    - rewrite lookup_delete_ne by lia. destruct Hpe as [[-> ->] | [-> ->]]; [rewrite lookup_insert_ne by lia|]; by rewrite lookup_insert_eq.
    - split; [lia|]. split; [apply lookup_delete_eq|]. intros i Hi. rewrite lookup_delete_ne, !lookup_insert_ne by lia. apply H3. lia. }
  intros x s1 [_ Hs1]. call. call. apply Hm. by rewrite <- (plumbed f fd (PipeEnd k false) (PipeEnd k true)).
Qed.

(** *** The cases of [runcmd] *)

Definition does (c : cmd (list Z)) : Prop := forall s f k o r,
  standard c -> three f -> prep s f k o [] -> outcome_of c f k o = Some r -> ends_as (runcmd c) r s.

Lemma does_exec argv : does (EXEC argv).
Proof.
  intros s f k o r _ H3 Hp Ho. cbn [runcmd outcome_of] in *. destruct argv as [|a0 argv]; [injection Ho as <-; by eapply ends_exit|].
  destruct o as [|[] o]; simplify_eq.
  - apply ends_now. by eapply exec_ok.
  - eapply ends_later; [by eapply exec_fail|]. intros x s1 [-> Hs1].
    apply (ends_saying _ [a0] _ _ f k o); [by apply (render_complaint "exec"); left | done | apply H3; lia].
Qed.

Lemma does_redir c file mode fd : does c -> does (REDIR c file mode fd).
Proof.
  intros IH s f k o r [Hfd Hst] H3 Hp Ho. cbn [runcmd outcome_of] in *. eapply ends_later; [by apply close_law|]. intros ? s1 Hs1. cbv beta in Hs1.
  destruct o as [|[] o]; simplify_eq.
  - eapply ends_later; [eapply (open_ok _ _ _ _ _ _ _ fd); [exact Hs1 | apply lowest_closed; [done | lia]]|].
    intros x s2 [-> Hs2]. rewrite insert_delete_eq in Hs2. rewrite decide_False by lia.
    apply ends_now. eapply IH; [done | | done | done]; apply three_insert; [done | lia].
  - eapply ends_later; [by eapply open_fail|]. intros x s2 [-> Hs2]. rewrite decide_True by lia.
    apply (ends_saying _ [file] _ _ (delete fd f) k o); [by apply (render_complaint "open"); right | done|].
    rewrite lookup_delete_ne by lia. apply H3. lia.
Qed.

Lemma does_list lc rc : does lc -> does rc -> does (LIST lc rc).
Proof.
  intros IHl IHr s f k o r [Hl Hr] H3 Hp Ho. cbn [runcmd outcome_of] in *. destruct o as [|b o]; [done|].
  eapply ends_fork; [exact Hp | apply H3; lia|]. destruct b; simplify_eq; [done | | ].
  - intros s1 Hs1. by eapply IHl.
  - intros s1 Hs1. call. apply ends_now. by eapply IHr.
Qed.

Lemma does_back c : does c -> does (BACK c).
Proof.
  intros IH s f k o r Hst H3 Hp Ho. cbn [runcmd outcome_of] in *. destruct o as [|b o]; [done|].
  eapply ends_fork; [exact Hp | apply H3; lia|]. destruct b; simplify_eq; [done | |]; intros s1 Hs1; [by eapply IH | by eapply ends_exit].
Qed.

Lemma does_pipe lc rc : does lc -> does rc -> does (PIPE lc rc).
Proof.
  intros IHl IHr s f k o r [Hl Hr] H3 Hp Ho. cbn [runcmd outcome_of] in *.
  assert (is_Some (f !! 2)) as H2 by (apply H3; lia). destruct (lowest_pipe f (PipeEnd k false) H3) as [L3 L4].
  destruct o as [|[] o]; try done.
  2: { injection Ho as <-. eapply ends_later; [by eapply pipe_fail|]. intros [ok [p0 p1]] s1 [E Hs1]. simpl in E. subst ok.
       rewrite decide_True by lia. by eapply ends_panic; [right|..]. }
  eapply ends_later; [by eapply pipe_ok|]. intros x s1 [-> Hs1]. rewrite decide_False by lia.
  assert (forall a b : object, is_Some (<[4 := a]> (<[3 := b]> f) !! 2)) as H2' by (intros; by rewrite !lookup_insert_ne by lia).
  destruct o as [|b o]; [done|]. eapply ends_fork; [exact Hs1 | apply H2'|]. destruct b; simplify_eq; [done | |].
  { intros s2 Hs2. eapply (ends_plumb _ s2 f k o 1 4); [done | lia | done | by right|]. intros s3 Hs3.
    eapply IHl; [done | | done | done]; apply three_insert; [done | lia]. }
  intros s2 Hs2. destruct o as [|b o]; [done|]. eapply ends_fork; [exact Hs2 | apply H2'|]. destruct b; simplify_eq; [done | |].
  { intros s3 Hs3. eapply (ends_plumb _ s3 f k o 0 3); [done | lia | done | by left|]. intros s4 Hs4.
    eapply IHr; [done | | done | done]; apply three_insert; [done | lia]. }
  intros s3 Hs3. do 4 call. by eapply ends_exit.
Qed.
End ends.

(** ** A process *)

(** A process in a kernel whose calls go as it is told: its descriptors, the pipes made, the
    replies to come, what it has written on descriptor 2, and what it has turned into. *)
Record process := Process {
  pfds : fdtable;
  ppipes : nat;
  preplies : list reply;
  perr : list Z;
  pran : option fate
}.

Definition low (f : fdtable) : option Z := head (filter (fun r => f !! r = None) (seqZ 0 16)).

Lemma filter_none {A} (P : A -> Prop) `{forall x, Decision (P x)} l : (forall x, x ∈ l -> ~ P x) -> filter P l = [].
Proof. induction l as [|x l IH]; intros Hl; [done|]. rewrite filter_cons_False by (apply Hl; left). apply IH. intros y Hy. apply Hl. by right. Qed.

Lemma low_lowest f r : lowest f r -> low f = Some r.
Proof.
  intros (Hr & Hn & Hi). unfold low. replace 16 with (r + (16 - r)) by lia. rewrite seqZ_app by lia. rewrite filter_app.
  rewrite (filter_none _ (seqZ 0 r)).
  - rewrite (seqZ_cons (0 + r)) by lia. rewrite Z.add_0_l. simpl. by rewrite filter_cons_True.
  - intros x Hx%elem_of_seqZ E. destruct (Hi x) as [y Hy]; [lia|]. congruence.
Qed.

Definition with_fds (f : fdtable) (s : process) : process := Process f (ppipes s) (preplies s) (perr s) (pran s).

(** Take the lowest free descriptor for [ob]. *)
Definition take_fd (ob : object) : M process Z := fun s =>
  match low (pfds s) with Some r => Ret r (with_fds (<[r := ob]> (pfds s)) s) | None => Ret (-1) s end.

(** The next reply; without one the call fails. *)
Definition next_reply : M process reply := fun s =>
  match preplies s with
  | b :: o => Ret b (Process (pfds s) (ppipes s) o (perr s) (pran s))
  | [] => Ret Fail s
  end.

#[global] Instance process_sys : Sys process := {
  u_fork := let! b := next_reply in ret (match b with Child => 0 | Parent => 7 | _ => -1 end);
  u_wait := ret 7;
  u_pipe :=
    let! b := next_reply in
    match b with
    | Ok =>
        let! k := gets ppipes in
        let! r0 := take_fd (PipeEnd k false) in
        let! r1 := take_fd (PipeEnd k true) in
        modify (fun s => Process (pfds s) (S k) (preplies s) (perr s) (pran s)) ;;;
        ret (if decide (r1 < 0) then -1 else 0, (r0, r1))
    | _ => ret (-1, (0, 0))
    end;
  u_write fd l := modify (fun s => Process (pfds s) (ppipes s) (preplies s) (if decide (fd = 2) then perr s ++ l else perr s) (pran s)) ;;;
    ret (Z.of_nat (length l));
  u_read _ _ := ret (0, []);
  u_close fd := modify (fun s => with_fds (delete fd (pfds s)) s) ;;; ret 0;
  u_kill _ := ret (-1);
  u_exec path argv :=
    let! b := next_reply in
    match b with
    | Ok => modify (fun s => Process (pfds s) (ppipes s) (preplies s) (perr s) (Some (Ran path argv (pfds s)))) ;;; stop_with Exits
    | _ => ret (-1)
    end;
  u_open name mode := let! b := next_reply in match b with Ok => take_fd (Opened name mode) | _ => ret (-1) end;
  u_mknod _ _ _ := ret (-1);
  u_unlink _ := ret (-1);
  u_fstat _ := ret (-1, Fs.MkStat 0 0 0 0 0);
  u_link _ _ := ret (-1);
  u_mkdir _ := ret (-1);
  u_chdir _ := ret (-1);
  u_dup fd := let! f := gets pfds in match f !! fd with Some ob => take_fd ob | None => ret (-1) end;
  u_getpid := ret 3;
  u_getppid := ret 2;
  u_sbrk _ := ret (-1);
  u_sleep _ := ret 0
}.

Lemma take_fd_lowest ob s r : lowest (pfds s) r -> take_fd ob s = Ret r (with_fds (<[r := ob]> (pfds s)) s).
Proof. intros Hl. unfold take_fd. by rewrite (low_lowest _ _ Hl). Qed.

(** What a process that has stopped has turned into. *)
Definition fate_of (s : process) : fate := default (Quit (perr s)) (pran s).

#[global] Program Instance process_run : RunSpec process := {
  prep s f k o w := s = Process f k o w None;
  turned_into s r := fate_of s = r
}.
Next Obligation. intros s f k o w path argv ->. by eexists. Qed.
Next Obligation. intros s f k o w path argv ->. by eexists _, _. Qed.
Next Obligation. by intros s f k o w ->. Qed.
Next Obligation. intros s f k o w l -> _. by eexists _, _. Qed.
Next Obligation. intros s f k o w fd ->. by eexists _, _. Qed.
Next Obligation. intros s f k o w name mode r -> Hl. unfold runs. simpl. unfold bind, next_reply. simpl. rewrite (take_fd_lowest _ _ r) by done. eauto. Qed.
Next Obligation. intros s f k o w name mode ->. by eexists _, _. Qed.
Next Obligation. intros s f k o w fd ob r -> Hf Hl. unfold runs. simpl. unfold bind, gets. simpl. rewrite Hf, (take_fd_lowest ob _ r) by done. eauto. Qed.
Next Obligation.
  intros s f k o w r0 r1 -> H0 H1. unfold runs. simpl. unfold bind, next_reply, gets, modify, ret. simpl. rewrite (take_fd_lowest _ _ r0) by done.
  rewrite (take_fd_lowest _ _ r1) by done. destruct H1 as [H1 _]. rewrite decide_False by lia. eauto.
Qed.
Next Obligation. intros s f k o w ->. by eexists _, _. Qed.
Next Obligation. intros s f k o w ->. by eexists _, _. Qed.
Next Obligation. intros s f k o w ->. eexists _, _. split; [reflexivity|]. split; [lia | done]. Qed.
Next Obligation. intros s f k o w ->. by eexists _, _. Qed.
Next Obligation. intros s f k o w ->. by eexists _, _. Qed.

Module ShRun.

(** C22: a command line does what it says.  Follow any one of the processes [runcmd] splits into, from a process with the three
    standard descriptors, in any run, whichever of its calls of [exec], [open], [pipe] and [fork] fail.  It never returns.  If the calls on its way
    succeed, it ends as the program with the arguments and the descriptors that the command means for it: a redirection
    puts the file in place of the standard input or output; a pipe puts its
    writing end in place of the output on the left and its reading end in
    place of the input on the right; no other descriptor is left open, and all
    others are as they were.  At the first call that fails it ends by [exit] and runs nothing, and what it has written on descriptor 2 is
    the message that says which call and for which name. *)
Theorem runcmd_plumbing {St} `{HSys : Sys St, HRun : !RunSpec St} c (s : St) f k o r :
  standard c -> three f -> prep s f k o [] -> outcome_of c f k o = Some r -> exists s', runcmd c s = Stop Exits s' /\ turned_into s' r.
Proof.
  enough (does c) as Hc by (by apply Hc).
  induction c; [apply does_exec | by apply does_redir | by apply does_pipe | by apply does_list | by apply does_back].
Qed.

(** The right side of a pipe with its output redirected, when the file can be opened and when it cannot. *)
Lemma runcmd_plumbing_witness :
  let f : fdtable := <[0 := Initial 0]> (<[1 := Initial 1]> (<[2 := Initial 2]> ∅)) in
  let c := PIPE (EXEC [cs "cat"]) (REDIR (EXEC [cs "wc"; cs "-l"]) (cs "out") 0x201 1) in
  (exists s', runcmd c (Process f 0 [Ok; Parent; Child; Ok; Ok] [] None) = Stop Exits s' /\
    fate_of s' = Ran (cs "wc") [cs "wc"; cs "-l"] (<[1 := Opened (cs "out") 0x201]> (<[0 := PipeEnd 0 false]> f))) /\
  (exists s', runcmd c (Process f 0 [Ok; Parent; Child; Fail] [] None) = Stop Exits s' /\
    fate_of s' = Quit (cs "open out failed" ++ [10])).
Proof.
  intros f c. assert (standard c) as Hst by (split; [done|]; split; [by right | done]).
  assert (three f) as H3.
  { intros i. unfold f. destruct (decide (0 <= i < 3)) as [Hi|Hi].
    - split; [done|]. intros _. assert (i = 0 \/ i = 1 \/ i = 2) as [-> | [-> | ->]] by lia; by eexists.
    - rewrite !lookup_insert_ne, lookup_empty by lia. split; [by intros [? ?] | done]. }
  split.
  - eapply (runcmd_plumbing (HRun := process_run) c (Process f 0 [Ok; Parent; Child; Ok; Ok] [] None) f 0 [Ok; Parent; Child; Ok; Ok] _ Hst H3); [reflexivity | vm_compute; reflexivity].
  - eapply (runcmd_plumbing (HRun := process_run) c (Process f 0 [Ok; Parent; Child; Fail] [] None) f 0 [Ok; Parent; Child; Fail] _ Hst H3); [reflexivity | vm_compute; reflexivity].
Defined.
End ShRun.
