(* ===== verification/File.v ===== *)
(** Open files: src/xv6-public/file.c and file.h, with the part of pipe.c that
    makes a pipe out of two files.

    The state is the file table over the state [R] of what files are made of:
    pipes, inodes, the log, reached through the interface [FileEnv].  A pointer
    to a file is its index in the table. *)

From S2P Require Import Prelude Bytes Fs.

Module File.

Definition NFILE : nat := 100.
Definition MAXOPBLOCKS : Z := 10.

Inductive fdtype := FD_NONE | FD_PIPE | FD_INODE.
#[export] Instance fdtype_dec : EqDecision fdtype.
Proof. solve_decision. Defined.

(** [struct file]; [pipe] is the address of the pipe and [ip] the inode. *)
Record file := MkFile {
  type : fdtype;
  ref : Z;
  readable : bool;
  writable : bool;
  pipe : Z;
  ip : nat;
  off : Z
}.
Definition file0 : file := MkFile FD_NONE 0 false false 0 0 0.

Definition set_ref (v : Z) (f : file) : file :=
  MkFile (type f) v (readable f) (writable f) (pipe f) (ip f) (off f).
Definition set_type (v : fdtype) (f : file) : file :=
  MkFile v (ref f) (readable f) (writable f) (pipe f) (ip f) (off f).
Definition set_off (v : Z) (f : file) : file :=
  MkFile (type f) (ref f) (readable f) (writable f) (pipe f) (ip f) v.

(** What a file needs of pipes, inodes and the log.  A read yields the return
    value and the bytes stored in the caller's buffer. *)
Class FileEnv (R : Type) := {
  pipeclose : Z -> bool -> M R unit;
  piperead : Z -> Z -> M R (Z * list Z);
  pipewrite : Z -> list Z -> Z -> M R Z;
  pipe_new : M R Z;               (** [kalloc] and the initialisation of a pipe; 0 if there is no page *)
  begin_op : M R unit;
  end_op : M R unit;
  iput : nat -> M R unit;
  ilock : nat -> M R unit;
  iunlock : nat -> M R unit;
  stati : nat -> M R Fs.stat;
  readi : nat -> Z -> Z -> M R (Z * list Z);
  writei : nat -> list Z -> Z -> Z -> M R Z
}.

Record fstate (R : Type) := MkF {
  flocked : bool;
  ftable : list file;
  fenv : R
}.
Arguments MkF {R} flocked ftable fenv.
Arguments flocked {R} f.
Arguments ftable {R} f.
Arguments fenv {R} f.

Section ops.
Context {R : Type} `{FileEnv R}.
Notation F := (M (fstate R)).

Definition acquire : F unit :=
  let! l := gets flocked in
  if (l : bool) then panic "acquire" else modify (fun s => MkF true (ftable s) (fenv s)).
Definition release : F unit :=
  let! l := gets flocked in
  if (l : bool) then modify (fun s => MkF false (ftable s) (fenv s)) else panic "release".

Definition getf (s : fstate R) (i : nat) : file := nth i (ftable s) file0.
Definition file_at (i : nat) : F file := gets (fun s => getf s i).
Definition putf (i : nat) (f : file) (s : fstate R) : fstate R := MkF (flocked s) (<[i := f]> (ftable s)) (fenv s).
Definition upd_file (i : nat) (g : file -> file) : F unit := modify (fun s => putf i (g (getf s i)) s).

(** A call into the rest of the kernel. *)
Definition below {A} (m : M R A) : F A := zoom fenv (fun r s => MkF (flocked s) (ftable s) r) m.

Definition find_free (s : fstate R) : option nat :=
  List.find (fun i => bool_decide (ref (getf s i) = 0)) (seq 0 NFILE).

Definition filealloc : F (option nat) :=
  acquire ;;;
  let! r := gets find_free in
  match r with
  | Some i => upd_file i (set_ref 1) ;;; release ;;; ret (Some i)
  | None => release ;;; ret None
  end.

Definition filedup (i : nat) : F nat :=
  acquire ;;;
  let! f := file_at i in
  if decide (ref f < 1) then panic "filedup" else
  upd_file i (set_ref (ref f + 1)) ;;;
  release ;;;
  ret i.

(** What the last close does with the object of a file. *)
Definition close_object (ff : file) : F unit :=
  match type ff with
  | FD_PIPE => below (pipeclose (pipe ff) (writable ff))
  | FD_INODE => below begin_op ;;; below (iput (ip ff)) ;;; below end_op
  | FD_NONE => ret tt
  end.

Definition fileclose (i : nat) : F unit :=
  acquire ;;;
  let! f := file_at i in
  if decide (ref f < 1) then panic "fileclose" else
  upd_file i (set_ref (ref f - 1)) ;;;
  if decide (0 < ref f - 1) then release else
  let! ff := file_at i in
  upd_file i (fun f => set_type FD_NONE (set_ref 0 f)) ;;;
  release ;;;
  close_object ff.

Definition filestat (i : nat) : F (option Fs.stat) :=
  let! f := file_at i in
  if decide (type f = FD_INODE) then
    below (ilock (ip f)) ;;;
    let! st := below (stati (ip f)) in
    below (iunlock (ip f)) ;;;
    ret (Some st)
  else ret None.

Definition fileread (i : nat) (n : Z) : F (Z * list Z) :=
  let! f := file_at i in
  if negb (readable f) then ret (-1, []) else
  match type f with
  | FD_PIPE => below (piperead (pipe f) n)
  | FD_INODE =>
      below (ilock (ip f)) ;;;
      let! rb := below (readi (ip f) (off f) n) in
      (if decide (0 < fst rb) then upd_file i (fun f => set_off (u32 (off f + fst rb)) f) else ret tt) ;;;
      below (iunlock (ip f)) ;;;
      ret rb
  | FD_NONE => panic "fileread"
  end.

(** [((MAXOPBLOCKS-1-1-2) / 2) * 512] *)
Definition max_write : Z := Z.quot (MAXOPBLOCKS - 1 - 1 - 2) 2 * 512.

(** One transaction of [filewrite]: [n1] bytes from [src]. *)
Definition write_chunk (i : nat) (src : list Z) (n1 : Z) : F Z :=
  let! f := file_at i in
  below begin_op ;;;
  below (ilock (ip f)) ;;;
  let! r := below (writei (ip f) src (off f) n1) in
  (if decide (0 < r) then upd_file i (fun f => set_off (u32 (off f + r)) f) else ret tt) ;;;
  below (iunlock (ip f)) ;;;
  below end_op ;;;
  ret r.

(** [while(i < n)]: [k] is the variable [i] of the code.  Every round writes at
    least one byte, so [n] rounds are enough. *)
Fixpoint write_loop (fuel : nat) (i : nat) (src : list Z) (n k : Z) : F Z :=
  match fuel with
  | O => ret k
  | S fuel =>
      if decide (k < n) then
        let n1 := if decide (max_write < n - k) then max_write else n - k in
        let! r := write_chunk i (drop (Z.to_nat k) src) n1 in
        if decide (r < 0) then ret k else
        if decide (r <> n1) then panic "short filewrite" else
        write_loop fuel i src n (k + r)
      else ret k
  end.

Definition filewrite (i : nat) (src : list Z) (n : Z) : F Z :=
  let! f := file_at i in
  if negb (writable f) then ret (-1) else
  match type f with
  | FD_PIPE => below (pipewrite (pipe f) src n)
  | FD_INODE =>
      let! k := write_loop (Z.to_nat n) i src n 0 in
      ret (if decide (k = n) then n else -1)
  | FD_NONE => panic "filewrite"
  end.

(** What [pipealloc] does with the files it got when it gives up. *)
Definition pipealloc_bad (f0 f1 : option nat) : F (option (nat * nat)) :=
  match f0 with Some i => fileclose i | None => ret tt end ;;;
  match f1 with Some i => fileclose i | None => ret tt end ;;;
  ret None.

Definition pipealloc : F (option (nat * nat)) :=
  let! f0 := filealloc in
  match f0 with
  | None => pipealloc_bad None None
  | Some i0 =>
      let! f1 := filealloc in
      match f1 with
      | None => pipealloc_bad (Some i0) None
      | Some i1 =>
          let! p := below pipe_new in
          if decide (p = 0) then pipealloc_bad (Some i0) (Some i1) else
          upd_file i0 (fun f => MkFile FD_PIPE (ref f) true false p (ip f) (off f)) ;;;
          upd_file i1 (fun f => MkFile FD_PIPE (ref f) false true p (ip f) (off f)) ;;;
          ret (Some (i0, i1))
      end
  end.
End ops.
End File.
