(* ===== verification/Sysfile.v ===== *)
(** The file system calls: src/xv6-public/sysfile.c.

    The kernel's state is the process table over the file table over [kern S X]:
    the file system [Fs.fstate S] and the rest [X] (address spaces, pipes, the
    user's memory), reached through the interface [RestEnv].  This file plugs
    the file system into the interfaces of File.v and Proc.v, and writes the
    system calls over the result.  A pointer to a file or an inode is its index
    plus one, 0 being null. *)

From S2P Require Import Prelude Bytes CString Kalloc Proc Syscall BlockCache FsLayout Log Fs File.

Module Sysfile.
Import Proc Syscall.

Definition O_RDONLY : Z := 0x000.
Definition O_WRONLY : Z := 0x001.
Definition O_RDWR : Z := 0x002.
Definition O_CREATE : Z := 0x200.
Definition MAXARG : nat := 32.

(** A pointer, and the index it stands for. *)
Definition ptr (i : nat) : Z := Z.of_nat i + 1.
Definition idx (p : Z) : nat := Z.to_nat (p - 1).

(** ** What the file system calls do to the file system *)

Section dirs.
Context {S : Type} `{BufOps S}.
Notation F := (M (Fs.fstate S)).
Context (devread : Z -> option (nat -> Z -> F (Z * list Z))).
Context (devwrite : Z -> option (nat -> list Z -> F Z)).

(** [begin_op] that does not have to wait; otherwise the process sleeps. *)
Definition begin_op : F unit :=
  let! r := Fs.logop Log.begin_op in
  match r with Done _ => ret tt | Blocked c _ => stop_with (Slept c) end.
Definition end_op : F unit := Fs.logop Log.end_op.

Definition upd_din (ip : nat) (f : dinode -> dinode) : F unit :=
  Fs.updi ip (fun i => Fs.set_din (f (Fs.din i)) i).
Definition add_nlink (d : Z) (ip : nat) : F unit :=
  upd_din ip (fun x => Fs.set_nlink (dnlink x + d) x).

(** The [bad] label of [sys_link]. *)
Definition link_bad (ip : nat) : F Z :=
  Fs.ilock ip ;;;
  add_nlink (-1) ip ;;;
  Fs.iupdate ip ;;;
  Fs.iunlockput ip ;;;
  end_op ;;;
  ret (-1).

(** [sys_link] after its arguments; [name] is an array on the stack. *)
Definition link (cwd : nat) (old new name : list Z) : F Z :=
  begin_op ;;;
  let! r := Fs.namei devread cwd old in
  match r with
  | None => end_op ;;; ret (-1)
  | Some ip =>
      Fs.ilock ip ;;;
      let! i := Fs.inode_at ip in
      if decide (dtype (Fs.din i) = Fs.T_DIR) then Fs.iunlockput ip ;;; end_op ;;; ret (-1) else
      add_nlink 1 ip ;;;
      Fs.iupdate ip ;;;
      Fs.iunlock ip ;;;
      let! pr := Fs.nameiparent devread cwd new name in
      match pr.1 with
      | None => link_bad ip
      | Some dp =>
          Fs.ilock dp ;;;
          let! d := Fs.inode_at dp in
          let! i := Fs.inode_at ip in
          let! bad := (if decide (Fs.idev d <> Fs.idev i) then ret true
                       else let! r := Fs.dirlink devread devwrite dp pr.2 (Fs.inum i) in ret (bool_decide (r < 0))) in
          if (bad : bool) then Fs.iunlockput dp ;;; link_bad ip else
          Fs.iunlockput dp ;;;
          Fs.iput ip ;;;
          end_op ;;;
          ret 0
      end
  end.

(** Whether the entry at [off] is in use. *)
Definition used_entry (dp : nat) (off : Z) : F (option unit) :=
  let! de := Fs.read_dirent devread dp "isdirempty: readi" off in
  ret (if decide (dinum de <> 0) then Some tt else None).

Definition isdirempty (dp : nat) : F bool :=
  let! d := Fs.inode_at dp in
  let! r := find_forM (drop 2 (Fs.dir_offsets (dsize (Fs.din d)))) (used_entry dp) in
  ret (match r with Some _ => false | None => true end).

(** The [bad] label of [sys_unlink]. *)
Definition unlink_bad (dp : nat) : F Z := Fs.iunlockput dp ;;; end_op ;;; ret (-1).

Definition DOT : list Z := [46; 0].
Definition DOTDOT : list Z := [46; 46; 0].

(** [sys_unlink] after its argument. *)
Definition unlink (cwd : nat) (path name : list Z) : F Z :=
  begin_op ;;;
  let! pr := Fs.nameiparent devread cwd path name in
  match pr.1 with
  | None => end_op ;;; ret (-1)
  | Some dp =>
      Fs.ilock dp ;;;
      if decide (Fs.namecmp pr.2 DOT = 0 \/ Fs.namecmp pr.2 DOTDOT = 0) then unlink_bad dp else
      let! r := Fs.dirlookup devread dp pr.2 in
      match r with
      | None => unlink_bad dp
      | Some (ip, off) =>
          Fs.ilock ip ;;;
          let! i := Fs.inode_at ip in
          if decide (dnlink (Fs.din i) < 1) then panic "unlink: nlink < 1" else
          let isdir := bool_decide (dtype (Fs.din i) = Fs.T_DIR) in
          let! busy := (if isdir then let! e := isdirempty ip in ret (negb e) else ret false) in
          if (busy : bool) then Fs.iunlockput ip ;;; unlink_bad dp else
          let! w := Fs.writei devwrite dp (replicate 16 0) off 16 in
          if decide (w <> 16) then panic "unlink: writei" else
          (if isdir then add_nlink (-1) dp ;;; Fs.iupdate dp else ret tt) ;;;
          Fs.iunlockput dp ;;;
          add_nlink (-1) ip ;;;
          Fs.iupdate ip ;;;
          Fs.iunlockput ip ;;;
          end_op ;;;
          ret 0
      end
  end.

(** The new directory [ip] in [dp] gets its two entries. *)
Definition create_dots (dp ip : nat) : F unit :=
  add_nlink 1 dp ;;;
  Fs.iupdate dp ;;;
  let! i := Fs.inode_at ip in
  let! r := Fs.dirlink devread devwrite ip DOT (Fs.inum i) in
  if decide (r < 0) then panic "create dots" else
  let! d := Fs.inode_at dp in
  let! r := Fs.dirlink devread devwrite ip DOTDOT (Fs.inum d) in
  if decide (r < 0) then panic "create dots" else ret tt.

(** The result is locked. *)
Definition create (cwd : nat) (path : list Z) (type major minor : Z) (name : list Z) : F (option nat) :=
  let! pr := Fs.nameiparent devread cwd path name in
  match pr.1 with
  | None => ret None
  | Some dp =>
      Fs.ilock dp ;;;
      let! r := Fs.dirlookup devread dp pr.2 in
      match r with
      | Some (ip, _) =>
          Fs.iunlockput dp ;;;
          Fs.ilock ip ;;;
          let! i := Fs.inode_at ip in
          if decide (type = Fs.T_FILE /\ dtype (Fs.din i) = Fs.T_FILE) then ret (Some ip) else
          Fs.iunlockput ip ;;;
          ret None
      | None =>
          let! d := Fs.inode_at dp in
          let! ip := Fs.ialloc (Fs.idev d) type in
          Fs.ilock ip ;;;
          upd_din ip (fun x => MkDinode (dtype x) major minor 1 (dsize x) (daddrs x)) ;;;
          Fs.iupdate ip ;;;
          (if decide (type = Fs.T_DIR) then create_dots dp ip else ret tt) ;;;
          let! i := Fs.inode_at ip in
          let! r := Fs.dirlink devread devwrite dp pr.2 (Fs.inum i) in
          if decide (r < 0) then panic "create: dirlink" else
          Fs.iunlockput dp ;;;
          ret (Some ip)
      end
  end.

(** [sys_mkdir] and [sys_mknod] after their arguments; [None] for a bad argument. *)
Definition make_node (cwd : nat) (path : option (list Z)) (type major minor : Z) (name : list Z) : F Z :=
  begin_op ;;;
  match path with
  | None => end_op ;;; ret (-1)
  | Some path =>
      let! r := create cwd path type major minor name in
      match r with
      | None => end_op ;;; ret (-1)
      | Some ip => Fs.iunlockput ip ;;; end_op ;;; ret 0
      end
  end.

(** The inode [sys_open] opens, locked, with the transaction open. *)
Definition open_inode (cwd : nat) (path : list Z) (omode : Z) (name : list Z) : F (option nat) :=
  begin_op ;;;
  if decide (Z.land omode O_CREATE <> 0) then
    let! r := create cwd path Fs.T_FILE 0 0 name in
    match r with None => end_op ;;; ret None | Some ip => ret (Some ip) end
  else
    let! r := Fs.namei devread cwd path in
    match r with
    | None => end_op ;;; ret None
    | Some ip =>
        Fs.ilock ip ;;;
        let! i := Fs.inode_at ip in
        if decide (dtype (Fs.din i) = Fs.T_DIR /\ omode <> O_RDONLY) then
          Fs.iunlockput ip ;;; end_op ;;; ret None
        else ret (Some ip)
    end.

(** [sys_chdir] after its argument: the new directory. *)
Definition change_dir (cwd : nat) (path : option (list Z)) : F (option nat) :=
  begin_op ;;;
  match path with
  | None => end_op ;;; ret None
  | Some path =>
      let! r := Fs.namei devread cwd path in
      match r with
      | None => end_op ;;; ret None
      | Some ip =>
          Fs.ilock ip ;;;
          let! i := Fs.inode_at ip in
          if decide (dtype (Fs.din i) <> Fs.T_DIR) then Fs.iunlockput ip ;;; end_op ;;; ret None else
          Fs.iunlock ip ;;;
          Fs.iput cwd ;;;
          end_op ;;;
          ret (Some ip)
      end
  end.
End dirs.

(** ** The kernel below the system calls *)

(** Address spaces, pipes and the user's memory.  [xload_at] is the kernel address of
    a page of an address space, as [loaduvm] finds it, and [xstore] stores bytes at a
    kernel address; [ucopy] stores at an address of the running process; [xdrain] yields the channels woken up since it was last asked. *)
Class RestEnv (X : Type) := {
  xkalloc : M X Z;
  xkfree : Z -> M X unit;
  xsetupkvm : M X Z;
  xinituvm : Z -> M X unit;
  xcopyuvm : Z -> Z -> M X Z;
  xallocuvm : Z -> Z -> Z -> M X Z;
  xdeallocuvm : Z -> Z -> Z -> M X Z;
  xfreevm : Z -> M X unit;
  xclearpteu : Z -> Z -> M X unit;
  xcopyout : Z -> Z -> list Z -> M X Z;
  xload_at : Z -> Z -> M X Z;
  xstore : Z -> list Z -> M X unit;
  ucopy : Z -> list Z -> M X unit;
  xubyte : X -> Z -> Z;
  xpipe_new : M X Z;
  xpipeclose : Z -> bool -> M X unit;
  xpiperead : Z -> Z -> M X (Z * list Z);
  xpipewrite : Z -> list Z -> Z -> M X Z;
  xdrain : X -> list kaddr * X
}.

Record kern (S X : Type) := MkKern { kfs : Fs.fstate S; kx : X }.
Arguments MkKern {S X} kfs kx.
Arguments kfs {S X} k.
Arguments kx {S X} k.

Section kernel.
Context {S : Type} `{BufOps S} {X : Type} `{RestEnv X}.
Notation F := (M (Fs.fstate S)).
Context (devread : Z -> option (nat -> Z -> F (Z * list Z))).
Context (devwrite : Z -> option (nat -> list Z -> F Z)).

Definition infs {A} (m : F A) : M (kern S X) A := zoom kfs (fun f k => MkKern f (kx k)) m.
Definition inx {A} (m : M X A) : M (kern S X) A := zoom kx (fun x k => MkKern (kfs k) x) m.

(** The file system and the pipes as files need them. *)
#[local] Instance file_env : File.FileEnv (kern S X) := {|
  File.pipeclose p w := inx (xpipeclose p w);
  File.piperead p n := inx (xpiperead p n);
  File.pipewrite p l n := inx (xpipewrite p l n);
  File.pipe_new := inx xpipe_new;
  File.begin_op := infs begin_op;
  File.end_op := infs end_op;
  File.iput i := infs (Fs.iput i);
  File.ilock i := infs (Fs.ilock i);
  File.iunlock i := infs (Fs.iunlock i);
  File.stati i := infs (Fs.stati i);
  File.readi i off n := infs (Fs.readi devread i off n);
  File.writei i l off n := infs (Fs.writei devwrite i l off n)
|}.

Notation K := (File.fstate (kern S X)).

#[local] Instance user_mem : UserMem K := {| ubyte s a := xubyte (kx (File.fenv s)) a |}.

(** The four bytes of a word. *)
Definition word_bytes (v : Z) : list Z := put32 0 (u32 v) (replicate 4 0).

(** The channels woken up by the log and by the rest. *)
Definition kdrain (s : K) : list kaddr * K :=
  let k := File.fenv s in
  let f := kfs k in
  let l := Fs.fl f in
  let '(ws, x) := xdrain (kx k) in
  (Log.wakeups l ++ ws,
   File.MkF (File.flocked s) (File.ftable s)
     (MkKern (Fs.MkFs (Log.Mk (Log.lg l) (Log.bc l) []) (Fs.sb f) (Fs.icache f) (Fs.cpid f)) x)).

(** Files, the file system and the rest as processes need them. *)
#[local] Instance proc_env : ProcEnv K := {|
  kalloc := File.below (inx xkalloc);
  kfree p := File.below (inx (xkfree p));
  setupkvm := File.below (inx xsetupkvm);
  inituvm p := File.below (inx (xinituvm p));
  copyuvm p n := File.below (inx (xcopyuvm p n));
  allocuvm p o n := File.below (inx (xallocuvm p o n));
  deallocuvm p o n := File.below (inx (xdeallocuvm p o n));
  freevm p := File.below (inx (xfreevm p));
  ustore a v := File.below (inx (ucopy a (word_bytes v)));
  filedup f := let! j := File.filedup (idx f) in ret (ptr j);
  fileclose f := File.fileclose (idx f);
  idup i := let! j := File.below (infs (Fs.idup (idx i))) in ret (ptr j);
  iput i := File.below (infs (Fs.iput (idx i)));
  namei path := let! r := File.below (infs (Fs.namei devread 0 path)) in
                ret (match r with Some i => ptr i | None => 0 end);
  Proc.begin_op := File.below (infs begin_op);
  Proc.end_op := File.below (infs end_op);
  iinit := File.below (infs (Fs.iinit ROOTDEV));
  initlog := File.below (infs (Fs.logop (Log.initlog ROOTDEV)));
  drain := kdrain
|}.

Notation P := (M (pstate K)).

(** Calls into the file system, and into the rest. *)
Definition callfs {A} (m : F A) : P A := call (File.below (infs m)).
Definition callx {A} (m : M X A) : P A := call (File.below (inx m)).

(** ** The system calls *)

(** The [n]th argument as a file descriptor, and its file. *)
Definition argfd (me : nat) (n : Z) : P (option (Z * nat)) :=
  let! r := argint me n in
  match r with
  | None => ret None
  | Some fd =>
      let! p := proc_at me in
      if decide (fd < 0 \/ Z.of_nat NOFILE <= fd \/ nth (Z.to_nat fd) (ofile p) 0 = 0) then ret None
      else ret (Some (fd, idx (nth (Z.to_nat fd) (ofile p) 0)))
  end.

Definition set_fd (fd : nat) (f : Z) (p : proc) : proc := set_ofile (<[fd := f]> (ofile p)) p.

Definition fdalloc (me f : nat) : P Z :=
  let! p := proc_at me in
  match List.find (fun fd => bool_decide (nth fd (ofile p) 0 = 0)) (seq 0 NOFILE) with
  | Some fd => upd_proc me (set_fd fd (ptr f)) ;;; ret (Z.of_nat fd)
  | None => ret (-1)
  end.

Definition sys_dup (me : nat) : P Z :=
  let! r := argfd me 0 in
  match r with
  | None => ret (-1)
  | Some (_, f) =>
      let! fd := fdalloc me f in
      if decide (fd < 0) then ret (-1) else
      let! _ := call (File.filedup f) in
      ret fd
  end.

(** The arguments of [read] and [write]. *)
Definition rw_args (me : nat) : P (option (nat * Z * Z)) :=
  let! a := argfd me 0 in
  match a with
  | None => ret None
  | Some (_, f) =>
      let! b := argint me 2 in
      match b with
      | None => ret None
      | Some n =>
          let! c := argptr me 1 n in
          ret (match c with None => None | Some p => Some (f, n, p) end)
      end
  end.

Definition sys_read (me : nat) : P Z :=
  let! a := rw_args me in
  match a with
  | None => ret (-1)
  | Some (f, n, p) =>
      let! r := call (File.fileread f n) in
      callx (ucopy p r.2) ;;;
      ret r.1
  end.

Definition sys_write (me : nat) : P Z :=
  let! a := rw_args me in
  match a with
  | None => ret (-1)
  | Some (f, n, p) =>
      let! src := user_bytes p n in
      call (File.filewrite f src n)
  end.

Definition sys_close (me : nat) : P Z :=
  let! a := argfd me 0 in
  match a with
  | None => ret (-1)
  | Some (fd, f) =>
      upd_proc me (set_fd (Z.to_nat fd) 0) ;;;
      call (File.fileclose f) ;;;
      ret 0
  end.

(** The bytes of [struct stat]: two of padding after each [short]. *)
Definition stat_bytes (st : Fs.stat) : list Z :=
  put32 16 (Fs.st_size st) (put16 12 (Fs.st_nlink st mod 2 ^ 16) (put32 8 (Fs.st_ino st)
    (put32 4 (u32 (Fs.st_dev st)) (put16 0 (Fs.st_type st mod 2 ^ 16) (replicate 20 0))))).

Definition sys_fstat (me : nat) : P Z :=
  let! a := argfd me 0 in
  match a with
  | None => ret (-1)
  | Some (_, f) =>
      let! b := argptr me 1 20 in
      match b with
      | None => ret (-1)
      | Some p =>
          let! st := call (File.filestat f) in
          match st with
          | Some st => callx (ucopy p (stat_bytes st)) ;;; ret 0
          | None => ret (-1)
          end
      end
  end.

(** The bytes of the [n]th argument, a string. *)
Definition arg_path (me : nat) (n : Z) : P (option (list Z)) :=
  let! r := argstr me n in
  match r with
  | None => ret None
  | Some (a, len) => let! l := user_bytes a len in ret (Some l)
  end.

Definition cwd_of (me : nat) : P nat := let! p := proc_at me in ret (idx (cwd p)).

(** An array [name[DIRSIZ]] on the stack. *)
Definition stack_name : list Z := replicate DIRSIZ 0.

Definition sys_link (me : nat) : P Z :=
  let! a := arg_path me 0 in
  match a with
  | None => ret (-1)
  | Some old =>
      let! b := arg_path me 1 in
      match b with
      | None => ret (-1)
      | Some new => let! c := cwd_of me in callfs (link devread devwrite c old new stack_name)
      end
  end.

Definition sys_unlink (me : nat) : P Z :=
  let! a := arg_path me 0 in
  match a with
  | None => ret (-1)
  | Some path => let! c := cwd_of me in callfs (unlink devread devwrite c path stack_name)
  end.

(** [f->type = FD_INODE; ...] at the end of [sys_open]. *)
Definition opened (ip : nat) (omode : Z) (f : File.file) : File.file :=
  File.MkFile File.FD_INODE (File.ref f) (bool_decide (Z.land omode O_WRONLY = 0))
    (bool_decide (Z.land omode O_WRONLY <> 0 \/ Z.land omode O_RDWR <> 0)) (File.pipe f) ip 0.

(** [sys_open] gives up after the inode is open: [f] is the file it got. *)
Definition open_bad (f : option nat) (ip : nat) : P Z :=
  match f with Some f => call (File.fileclose f) | None => ret tt end ;;;
  callfs (Fs.iunlockput ip) ;;;
  callfs end_op ;;;
  ret (-1).

Definition sys_open (me : nat) : P Z :=
  let! a := arg_path me 0 in
  match a with
  | None => ret (-1)
  | Some path =>
      let! b := argint me 1 in
      match b with
      | None => ret (-1)
      | Some omode =>
          let! c := cwd_of me in
          let! r := callfs (open_inode devread devwrite c path omode stack_name) in
          match r with
          | None => ret (-1)
          | Some ip =>
              let! f := call File.filealloc in
              match f with
              | None => open_bad None ip
              | Some f =>
                  let! fd := fdalloc me f in
                  if decide (fd < 0) then open_bad (Some f) ip else
                  callfs (Fs.iunlock ip) ;;;
                  callfs end_op ;;;
                  call (File.upd_file f (opened ip omode)) ;;;
                  ret fd
              end
          end
      end
  end.

Definition sys_mkdir (me : nat) : P Z :=
  let! c := cwd_of me in
  let! a := arg_path me 0 in
  callfs (make_node devread devwrite c a Fs.T_DIR 0 0 stack_name).

(** A [short] from an [int]. *)
Definition i16 (x : Z) : Z := let y := x mod 2 ^ 16 in if decide (y < 2 ^ 15) then y else y - 2 ^ 16.

Definition sys_mknod (me : nat) : P Z :=
  let! c := cwd_of me in
  let! a := arg_path me 0 in
  let! b := argint me 1 in
  let! d := argint me 2 in
  match b, d with
  | Some major, Some minor => callfs (make_node devread devwrite c a Fs.T_DEV (i16 major) (i16 minor) stack_name)
  | _, _ => callfs (make_node devread devwrite c None Fs.T_DEV 0 0 stack_name)
  end.

Definition sys_chdir (me : nat) : P Z :=
  let! c := cwd_of me in
  let! a := arg_path me 0 in
  let! r := callfs (change_dir devread c a) in
  match r with
  | None => ret (-1)
  | Some ip => upd_proc me (set_cwd (ptr ip)) ;;; ret 0
  end.

(** Give back the two files of a pipe. *)
Definition pipe_bad (me : nat) (fd0 : Z) (rf wf : nat) : P Z :=
  (if decide (0 <= fd0) then upd_proc me (set_fd (Z.to_nat fd0) 0) else ret tt) ;;;
  call (File.fileclose rf) ;;;
  call (File.fileclose wf) ;;;
  ret (-1).

Definition sys_pipe (me : nat) : P Z :=
  let! a := argptr me 0 8 in
  match a with
  | None => ret (-1)
  | Some p =>
      let! r := call File.pipealloc in
      match r with
      | None => ret (-1)
      | Some (rf, wf) =>
          let! fd0 := fdalloc me rf in
          if decide (fd0 < 0) then pipe_bad me fd0 rf wf else
          let! fd1 := fdalloc me wf in
          if decide (fd1 < 0) then pipe_bad me fd0 rf wf else
          callx (ucopy p (word_bytes fd0)) ;;;
          callx (ucopy (u32 (p + 4)) (word_bytes fd1)) ;;;
          ret 0
      end
  end.

Definition sys_sync (me : nat) : P Z :=
  let! _ := callfs (Fs.logop Log.sync) in ret 0.

(** The loop of [sys_exec]: the argument strings from the [i]th on. *)
Fixpoint fetch_argv (fuel : nat) (me : nat) (uargv i : Z) : P (option (list (list Z))) :=
  match fuel with
  | O => ret None
  | Datatypes.S fuel =>
      let! r := fetchint me (u32 (uargv + 4 * i)) in
      match r with
      | None => ret None
      | Some uarg =>
          if decide (uarg = 0) then ret (Some []) else
          let! t := fetchstr me (u32 uarg) in
          match t with
          | None => ret None
          | Some (a, len) =>
              let! l := user_bytes a len in
              let! rest := fetch_argv fuel me uargv (i + 1) in
              ret (match rest with Some ls => Some (l :: ls) | None => None end)
          end
      end
  end.
End kernel.
End Sysfile.
