(* ===== verification/FileRefs.v ===== *)
(** Reference counts of open files: the count of a file is the number of file
    descriptors, of all processes, that refer to it, through every system call
    and through [fork] and [exit]. *)

From S2P Require Import Prelude Bytes CString Kalloc Proc Syscall BlockCache FsLayout Log Fs File Sysfile.
From S2P Require Import ProcSteps.

Module FileRefs.
Import Proc ProcSteps Syscall Sysfile.

(** 1 if the pointer [z] is to file [i]. *)
Definition one (i j : nat) : Z := if decide (j = i) then 1 else 0.
Definition is_ref (z : Z) (i : nat) : Z := if decide (z = ptr i) then 1 else 0.

Lemma is_ref_ptr j i : is_ref (ptr j) i = one j i.
Proof. unfold is_ref, one, ptr. repeat case_decide; lia. Qed.
Lemma is_ref_0 i : is_ref 0 i = 0.
Proof. unfold is_ref, ptr. case_decide; lia. Qed.
Lemma idx_ptr i : idx (ptr i) = i.
Proof. unfold idx, ptr. lia. Qed.

(** ** The file table *)

Section files.
Context {R : Type} `{File.FileEnv R}.
Notation FS := (File.fstate R).
Implicit Types (r : FS).

Definition frefs (r : FS) (i : nat) : Z := File.ref (File.getf r i).

(** A run of [m] that returns [a] adds [d a] to the counts. *)
Definition shifts {A} (m : M FS A) (d : A -> nat -> Z) : Prop :=
  forall r, length (File.ftable r) = File.NFILE ->
  post m (fun a r' => length (File.ftable r') = File.NFILE /\ forall i, frefs r' i = frefs r i + d a i) r.

Lemma shifts_ret {A} (a : A) d : (forall i, d a i = 0) -> shifts (ret a) d.
Proof. intros Hd r Hl. apply post_ret. split; [done|]. intros i. rewrite Hd. lia. Qed.

Lemma shifts_stop {A} w (d : A -> nat -> Z) : shifts (stop_with w) d.
Proof. intros r Hl. apply post_stop. Qed.

Lemma shifts_bind {A B} (m : M FS A) (k : A -> M FS B) d d1 d2 :
  shifts m d1 -> (forall a, shifts (k a) (d2 a)) -> (forall a b i, d b i = d1 a i + d2 a b i) ->
  shifts (bind m k) d.
Proof.
  intros Hm Hk Hd r Hl. apply post_bind. eapply post_mono; [by apply Hm|]. intros a r1 [Hl1 H1].
  eapply post_mono; [by apply Hk|]. intros b r2 [Hl2 H2]. split; [done|].
  intros i. rewrite H2, H1, (Hd a). lia.
Qed.

(** Operations that leave the counts alone. *)
Definition still {A} (m : M FS A) : Prop := shifts m (fun _ _ => 0).

Lemma still_bind {A B} (m : M FS A) (k : A -> M FS B) : still m -> (forall a, still (k a)) -> still (bind m k).
Proof. intros Hm Hk. by apply (shifts_bind m k _ _ (fun _ _ _ => 0) Hm Hk). Qed.
Lemma still_ret {A} (a : A) : still (ret a).
Proof. by apply shifts_ret. Qed.
Lemma still_gets {A} (f : FS -> A) : still (gets f).
Proof. intros r Hl. apply post_gets. split; [done|]. intros i. lia. Qed.

Lemma still_below {A} (m : M R A) : still (File.below m).
Proof.
  intros r Hl a r'. unfold File.below, zoom. destruct (m (File.fenv r)); [|done]. intros [= -> <-].
  split; [done|]. intros i. unfold frefs, File.getf. simpl. lia.
Qed.

Lemma getf_putf r i f j :
  File.getf (File.putf i f r) j = if decide (i = j /\ (i < length (File.ftable r))%nat) then f else File.getf r j.
Proof.
  unfold File.getf, File.putf; cbn [File.ftable]. rewrite !nth_lookup. case_decide as D.
  - destruct D as [<- D]. by rewrite list_lookup_insert_eq.
  - destruct (decide (i = j)) as [<-|Hn].
    + by rewrite list_insert_ge by (apply Nat.le_ngt; tauto).
    + by rewrite list_lookup_insert_ne.
Qed.

Lemma still_upd i g : (forall f, File.ref (g f) = File.ref f) -> still (File.upd_file i g).
Proof.
  intros Hg r Hl. apply post_modify. split; [simpl; by rewrite length_insert|].
  intros j. unfold frefs. rewrite getf_putf. case_decide as D; [|lia]. destruct D as [<- _]. rewrite Hg. lia.
Qed.

Lemma still_acquire : still File.acquire.
Proof.
  intros r Hl a r' E. unfold File.acquire in E. minv. destruct (File.flocked _) in E; minv.
  split; [done|]. intros i. unfold frefs, File.getf. simpl. lia.
Qed.
Lemma still_release : still File.release.
Proof.
  intros r Hl a r' E. unfold File.release in E. minv. destruct (File.flocked _) in E; minv.
  split; [done|]. intros i. unfold frefs, File.getf. simpl. lia.
Qed.

(** Setting the count of a file in the table. *)
Lemma put_ref r i g v :
  (i < length (File.ftable r))%nat -> File.ref g = v ->
  forall j, frefs (File.putf i g r) j = frefs r j + (v - frefs r i) * one i j.
Proof.
  intros Hi Hv j. unfold frefs, one. rewrite getf_putf. repeat case_decide; try lia; naive_solver lia.
Qed.

Lemma ref_in r i : 1 <= frefs r i -> (i < length (File.ftable r))%nat.
Proof.
  intros Hr. destruct (decide (i < length (File.ftable r))%nat) as [|Hn]; [done|].
  unfold frefs, File.getf in Hr. rewrite nth_overflow in Hr by lia. simpl in Hr. lia.
Qed.

(** An update that sets the count of file [i], known to be [c]. *)
Lemma shifts_set i g c v r :
  length (File.ftable r) = File.NFILE -> (i < File.NFILE)%nat -> frefs r i = c ->
  (forall f, File.ref (g f) = v) ->
  post (File.upd_file i g) (fun _ r' => length (File.ftable r') = File.NFILE /\
    forall j, frefs r' j = frefs r j + (v - c) * one i j) r.
Proof.
  intros Hl Hi Hc Hg. apply post_modify. split; [simpl; by rewrite length_insert|].
  intros j. rewrite (put_ref r i _ v); [by rewrite Hc | lia | done].
Qed.

Lemma filealloc_shifts :
  shifts File.filealloc (fun a j => match a with Some i => one i j | None => 0 end).
Proof.
  intros r Hl. apply post_bind. eapply post_mono; [by apply still_acquire|]. intros [] r1 [Hl1 H1].
  apply post_bind, post_gets. destruct (File.find_free r1) as [i|] eqn:Ef.
  - apply find_some in Ef as [Hi%in_seq Hz%bool_decide_eq_true].
    apply post_bind. eapply post_mono; [apply (shifts_set i _ 0 1); [done | lia | done | done]|].
    intros [] r2 [Hl2 H2]. apply post_bind. eapply post_mono; [by apply still_release|]. intros [] r3 [Hl3 H3].
    apply post_ret. split; [done|]. intros j. rewrite H3, H2, H1. lia.
  - apply post_bind. eapply post_mono; [by apply still_release|]. intros [] r2 [Hl2 H2].
    apply post_ret. split; [done|]. intros j. rewrite H2, H1. lia.
Qed.

Lemma filedup_shifts i : shifts (File.filedup i) (fun a j => one i j).
Proof.
  intros r Hl. apply post_bind. eapply post_mono; [by apply still_acquire|]. intros [] r1 [Hl1 H1].
  apply post_bind, post_gets. case_decide as D; [apply post_stop|].
  assert (Hi : (i < File.NFILE)%nat) by (rewrite <- Hl1; apply ref_in; unfold frefs; lia).
  apply post_bind. eapply post_mono; [apply (shifts_set i _ (frefs r1 i) (frefs r1 i + 1)); done|].
  intros [] r2 [Hl2 H2]. apply post_bind. eapply post_mono; [by apply still_release|]. intros [] r3 [Hl3 H3].
  apply post_ret. split; [done|]. intros j. rewrite H3, H2, H1. lia.
Qed.

Lemma filedup_same i r a r' : File.filedup i r = Ret a r' -> a = i.
Proof.
  unfold File.filedup, File.file_at. intros E. minv. case_decide; [by minv|]. by minv.
Qed.

Lemma close_object_still ff : still (File.close_object ff).
Proof.
  unfold File.close_object. destruct (File.type ff);
  repeat first [apply still_below | apply still_ret | apply still_bind; [|intros ?]].
Qed.

Lemma fileclose_shifts i : shifts (File.fileclose i) (fun a j => - one i j).
Proof.
  intros r Hl. apply post_bind. eapply post_mono; [by apply still_acquire|]. intros [] r1 [Hl1 H1].
  apply post_bind, post_gets. case_decide as D; [apply post_stop|].
  assert (Hi : (i < File.NFILE)%nat) by (rewrite <- Hl1; apply ref_in; unfold frefs; lia).
  apply post_bind. eapply post_mono; [apply (shifts_set i _ (frefs r1 i) (frefs r1 i - 1)); done|].
  intros [] r2 [Hl2 H2]. change (File.ref (File.getf r1 i)) with (frefs r1 i) in *. case_decide as D2.
  - eapply post_mono; [by apply still_release|]. intros [] r3 [Hl3 H3].
    split; [done|]. intros j. rewrite H3, H2, H1. lia.
  - apply post_bind, post_gets, post_bind. assert (E0 : frefs r2 i = 0).
    { rewrite H2. unfold one. rewrite decide_True by done. lia. }
    eapply post_mono; [apply (shifts_set i _ 0 0); done|]. intros [] r3 [Hl3 H3].
    apply post_bind. eapply post_mono; [by apply still_release|]. intros [] r4 [Hl4 H4].
    eapply post_mono; [by apply close_object_still|]. intros [] r5 [Hl5 H5].
    split; [done|]. intros j. rewrite H5, H4, H3, H2, H1. lia.
Qed.

Definition two (r : option (nat * nat)) (j : nat) : Z :=
  match r with Some (a, b) => one a j + one b j | None => 0 end.

Definition some_one (o : option nat) (j : nat) : Z := match o with Some i => one i j | None => 0 end.

Lemma pipealloc_bad_shifts f0 f1 :
  shifts (File.pipealloc_bad f0 f1) (fun b j => two b j - some_one f0 j - some_one f1 j).
Proof.
  assert (Hc : forall f : option nat, shifts (match f with Some i => File.fileclose i | None => ret tt end)
                          (fun _ j => - some_one f j)).
  { intros [i|]; [apply fileclose_shifts | by apply shifts_ret]. }
  intros r Hl. apply post_bind. eapply post_mono; [by apply (Hc f0)|]. intros [] r1 [Hl1 H1].
  apply post_bind. eapply post_mono; [by apply (Hc f1)|]. intros [] r2 [Hl2 H2].
  apply post_ret. split; [done|]. intros j. rewrite H2, H1. simpl. lia.
Qed.

Lemma pipealloc_shifts : shifts File.pipealloc two.
Proof.
  eapply shifts_bind with (d2 := fun a b j => two b j - some_one a j);
    [apply filealloc_shifts | | intros; unfold some_one; lia].
  intros [i0|]; [|intros r Hl; eapply post_mono; [by apply pipealloc_bad_shifts|]; intros b r' [Hl' Hr];
                  split; [done|]; intros j; rewrite Hr; simpl; lia].
  eapply shifts_bind with (d2 := fun a b j => two b j - one i0 j - some_one a j);
    [apply filealloc_shifts | | intros; unfold some_one; lia].
  intros [i1|]; [|intros r Hl; eapply post_mono; [by apply pipealloc_bad_shifts|]; intros b r' [Hl' Hr];
                  split; [done|]; intros j; rewrite Hr; simpl; lia].
  set (d := fun (b : option (nat * nat)) j => two b j - one i0 j - some_one (Some i1) j).
  apply (shifts_bind _ _ d (fun _ _ => 0) (fun _ => d)); [apply still_below | | done]. intros p.
  case_decide; [apply pipealloc_bad_shifts|].
  apply (shifts_bind _ _ d (fun _ _ => 0) (fun _ => d)); [by apply still_upd | | done]. intros [].
  apply (shifts_bind _ _ d (fun _ _ => 0) (fun _ => d)); [by apply still_upd | | done]. intros [].
  apply shifts_ret. intros j. unfold d. simpl. lia.
Qed.

Lemma still_dec (Q : Prop) `{Decision Q} {A} (m m' : M FS A) : still m -> still m' -> still (if decide Q then m else m').
Proof. by destruct (decide Q). Qed.
Lemma still_if (b : bool) {A} (m m' : M FS A) : still m -> still m' -> still (if b then m else m').
Proof. by destruct b. Qed.

Ltac still :=
  repeat first [apply still_below | apply still_ret | apply still_gets | apply shifts_stop
               | apply still_bind; [|intros ?] | apply still_dec | apply still_if
               | apply still_upd; by intros [] ].

Lemma fileread_still i n : still (File.fileread i n).
Proof.
  unfold File.fileread, File.file_at. apply still_bind; [apply still_gets|]. intros f.
  apply still_if; [still|]. destruct (File.type f); still.
Qed.

Lemma write_chunk_still i src n : still (File.write_chunk i src n).
Proof. unfold File.write_chunk, File.file_at. still. Qed.

Lemma write_loop_still fuel i src n k : still (File.write_loop fuel i src n k).
Proof.
  revert k. induction fuel as [|fuel IH]; intros k; simpl; [still|]. apply still_dec; [|still].
  apply still_bind; [apply write_chunk_still|]. intros r. apply still_dec; [still|]. apply still_dec; [still|]. apply IH.
Qed.

Lemma filewrite_still i src n : still (File.filewrite i src n).
Proof.
  unfold File.filewrite, File.file_at. apply still_bind; [apply still_gets|]. intros f.
  apply still_if; [still|]. destruct (File.type f); [still..|].
  apply still_bind; [apply write_loop_still|]. intros k. still.
Qed.

Lemma filestat_still i : still (File.filestat i).
Proof. unfold File.filestat, File.file_at. still. Qed.
End files.

(** ** The descriptors *)

Section descriptors.
Context {S : Type} `{BufOps S} {X : Type} `{RestEnv X}.
Notation F := (M (Fs.fstate S)).
Context (devread : Z -> option (nat -> Z -> F (Z * list Z))).
Context (devwrite : Z -> option (nat -> list Z -> F Z)).
Notation K := (File.fstate (kern S X)).
Notation PS := (pstate K).
Notation P := (M PS).
#[local] Instance penv : ProcEnv K := proc_env devread devwrite.
#[local] Instance umem : UserMem K := user_mem.
#[local] Instance fenv : File.FileEnv (kern S X) := file_env devread devwrite.
Implicit Types (s : PS).

(** The pointer in descriptor [fd] of process [p]. *)
Definition fd_at (s : PS) (p fd : nat) : Z := nth fd (ofile (getp s p)) 0.

(** The number of descriptors that refer to file [i]. *)
Definition fd_refs (s : PS) (i : nat) : Z :=
  zsum (fun p => zsum (fun fd => is_ref (fd_at s p fd) i) NOFILE) NPROC.

(** The counts are off by [d]. *)
Record balanced (d : nat -> Z) (s : PS) : Prop := MkBalanced {
  bal_procs : length (procs s) = NPROC;
  bal_ofile : forall p, length (ofile (getp s p)) = NOFILE;
  bal_ftable : length (File.ftable (env s)) = File.NFILE;
  bal_valid : forall p fd, fd_at s p fd = 0 \/ exists i, (i < File.NFILE)%nat /\ fd_at s p fd = ptr i;
  bal_refs : forall i, (i < File.NFILE)%nat -> frefs (env s) i = fd_refs s i + d i
}.

Lemma balanced_ext d d' s : (forall i, d i = d' i) -> balanced d s -> balanced d' s.
Proof. intros E [? ? ? ? Hr]. constructor; try done. intros i Hi. by rewrite <- E, Hr. Qed.

(** Changes of neither descriptors nor counts. *)
Definition same_fds (s s' : PS) : Prop :=
  length (procs s') = length (procs s) /\ (forall p, ofile (getp s' p) = ofile (getp s p)) /\
  length (File.ftable (env s')) = length (File.ftable (env s)) /\ (forall i, frefs (env s') i = frefs (env s) i).

#[local] Instance same_fds_pre : PreOrder same_fds.
Proof.
  split; [by intros s|]. intros s t u (A1 & A2 & A3 & A4) (B1 & B2 & B3 & B4).
  split; [congruence|]. split; [intros p; congruence|]. split; [congruence|]. intros i. congruence.
Qed.

Lemma fd_refs_ext s s' i : (forall p fd, fd_at s' p fd = fd_at s p fd) -> fd_refs s' i = fd_refs s i.
Proof. intros E. apply zsum_ext. intros p. apply zsum_ext. intros fd. by rewrite E. Qed.

Lemma balanced_same d s s' : same_fds s s' -> balanced d s -> balanced d s'.
Proof.
  intros (E1 & E2 & E3 & E4) [? ? ? Hv Hr].
  assert (E : forall p fd, fd_at s' p fd = fd_at s p fd) by (intros p fd; unfold fd_at; by rewrite E2).
  constructor; try congruence.
  - intros p fd. by rewrite E.
  - intros i Hi. by rewrite E4, Hr, (fd_refs_ext s s').
Qed.

(** Setting a descriptor. *)
Lemma balanced_set_fd d s p fd z :
  balanced d s -> (p < NPROC)%nat -> (fd < NOFILE)%nat ->
  z = 0 \/ (exists i, (i < File.NFILE)%nat /\ z = ptr i) ->
  balanced (fun i => d i + is_ref (fd_at s p fd) i - is_ref z i) (put p (set_fd fd z (getp s p)) s).
Proof.
  intros [Hp Ho Hf Hv Hr] Hi Hfd Hz.
  assert (E : forall q, ofile (getp (put p (set_fd fd z (getp s p)) s) q) =
                        if decide (q = p) then <[fd := z]> (ofile (getp s p)) else ofile (getp s q)).
  { intros q. rewrite getp_put. case_decide as D1; case_decide as D2; try done; naive_solver lia. }
  assert (Efd : forall q f, fd_at (put p (set_fd fd z (getp s p)) s) q f =
                            if decide (q = p /\ f = fd) then z else fd_at s q f).
  { intros q f. unfold fd_at. rewrite E. destruct (decide (q = p)) as [->|Hn]; [|by rewrite decide_False by tauto].
    rewrite !nth_lookup. destruct (decide (f = fd)) as [->|Hn].
    - rewrite list_lookup_insert_eq by (rewrite Ho; lia). by rewrite decide_True.
    - by rewrite list_lookup_insert_ne, decide_False by tauto || done. }
  constructor; try done.
  - by rewrite length_put.
  - intros q. rewrite E. case_decide; [by rewrite length_insert|]. done.
  - intros q f. rewrite Efd. case_decide; [done | apply Hv].
  - intros i Hif. change (env (put p (set_fd fd z (getp s p)) s)) with (env s). rewrite Hr by done.
    unfold fd_refs. rewrite (zsum_upd (fun q => zsum (fun f => is_ref (fd_at (put p _ s) q f) i) NOFILE)
      (fun q => zsum (fun f => is_ref (fd_at s q f) i) NOFILE) p).
    + rewrite decide_True by done.
      rewrite (zsum_upd (fun f => is_ref (fd_at (put p _ s) p f) i) (fun f => is_ref (fd_at s p f) i) fd).
      * rewrite decide_True by done. rewrite Efd, decide_True by done. lia.
      * intros f Hn. by rewrite Efd, decide_False by tauto.
    + intros q Hn. apply zsum_ext. intros f. by rewrite Efd, decide_False by tauto.
Qed.

(** ** Calls *)

Lemma same_put p f s : (forall q, ofile (f q) = ofile q) -> same_fds s (put p (f (getp s p)) s).
Proof.
  intros Hf. split; [apply length_put|]. split; [|done]. intros q. rewrite getp_put.
  case_decide as D; [|done]. destruct D as [<- _]. apply Hf.
Qed.

Lemma same_wakeup c : respects same_fds (wakeup c).
Proof.
  unfold wakeup, acquire, release, wakeup1, upd_proc, proc_at, panic.
  repeat first [apply respects_bind; [apply _|..|intros ?] | apply respects_gets; apply _ | apply respects_stop
    | apply respects_modify; intros ?; by (apply same_put || split)
    | apply respects_forM; [apply _|intros ?] | apply respects_ret; apply _ | case_match ].
Qed.

(** A call returns what the called function returned. *)
Lemma call_result {A} (m : M K A) s : post (call m) (fun a _ => exists r', m (env s) = Ret a r') s.
Proof.
  unfold call. apply post_bind. intros a s1 E. unfold zoom in E.
  destruct (m (env s)) as [a' r|]; [|done]. injection E as <- <-.
  apply post_bind. intros ws s2 _. apply post_bind. intros [] s3 _. apply post_ret. by exists r.
Qed.

Lemma call_balanced {A} (m : M K A) d e s :
  shifts m e -> balanced d s -> post (call m) (fun a s' => balanced (fun i => d i + e a i) s' /\
    forall p, ofile (getp s' p) = ofile (getp s p)) s.
Proof.
  intros Hm Hb. unfold call. apply post_bind. intros a s1 E. unfold zoom in E.
  destruct (m (env s)) as [a' r|] eqn:Em; [|done]. injection E as <- <-.
  destruct (Hm _ (bal_ftable _ _ Hb) _ _ Em) as [Hl Hr].
  assert (Hb1 : balanced (fun i => d i + e a' i) (with_env r s)).
  { destruct Hb as [? ? ? ? Hrf]. constructor; try done. intros i Hi. simpl. rewrite Hr, Hrf by done. 
    change (fd_refs (with_env r s) i) with (fd_refs s i). lia. }
  apply post_bind. intros ws s2 E2. simpl in E2.
  assert (Hs2 : same_fds (with_env r s) s2).
  { unfold kdrain in E2. destruct (xdrain _) as [ws' x]. by injection E2 as <- <-. }
  clear E2. apply post_bind.
  assert (Hf : respects same_fds (forM ws wakeup)) by (apply respects_forM; [apply _|]; intros c; apply same_wakeup).
  eapply post_mono; [apply Hf|]. intros [] s3 Hs3. apply post_ret.
  assert (Hs : same_fds (with_env r s) s3) by (by etrans).
  split; [by eapply balanced_same|]. intros p. by destruct Hs as (_ & -> & _).
Qed.

(** A call that leaves the counts alone. *)
Lemma call_still {A} (m : M K A) d s :
  still m -> balanced d s -> post (call m) (fun a s' => balanced d s' /\ forall p, ofile (getp s' p) = ofile (getp s p)) s.
Proof.
  intros Hm Hb. eapply post_mono; [by apply call_balanced|]. intros a s' [Hb' Ho]. split; [|done].
  eapply balanced_ext; [|exact Hb']. intros i. simpl. lia.
Qed.

Notation callfs := (callfs devread devwrite).
Notation callx := (callx devread devwrite).

Lemma callfs_still {A} (m : F A) d s :
  balanced d s -> post (callfs m) (fun a s' => balanced d s' /\ forall p, ofile (getp s' p) = ofile (getp s p)) s.
Proof. apply call_still, still_below. Qed.
Lemma callx_still {A} (m : M X A) d s :
  balanced d s -> post (callx m) (fun a s' => balanced d s' /\ forall p, ofile (getp s' p) = ofile (getp s p)) s.
Proof. apply call_still, still_below. Qed.

(** Operations that only read. *)
Definition reads {A} (m : P A) : Prop := respects eq m.

Ltac reads :=
  unfold reads; repeat first
    [ apply respects_bind; [apply _|..|intros ?] | apply respects_gets; apply _ | apply respects_ret; apply _
    | case_match ].

Lemma reads_argint me n : reads (argint me n).
Proof. unfold argint, fetchint, proc_at. reads. Qed.
Lemma reads_argptr me n z : reads (argptr me n z).
Proof. unfold argptr, proc_at. apply respects_bind; [apply _ | apply reads_argint | intros ?]. reads. Qed.
Lemma reads_arg_path me n : reads (arg_path me n).
Proof.
  unfold arg_path, argstr. apply respects_bind; [apply _| |intros r; unfold user_bytes; reads].
  apply respects_bind; [apply _ | apply reads_argint | intros ?]. unfold fetchstr, proc_at. reads.
Qed.
Lemma reads_argfd me n : reads (argfd me n).
Proof. unfold argfd, proc_at. apply respects_bind; [apply _ | apply reads_argint | intros ?]. reads. Qed.

Lemma post_reads {A} (m : P A) (Q : A -> PS -> Prop) s : reads m -> (forall a, Q a s) -> post m Q s.
Proof. intros Hm HQ. eapply post_mono; [apply Hm|]. by intros a s' <-. Qed.

(** A descriptor names a file of the table. *)
Lemma argfd_post me n d s :
  balanced d s -> post (argfd me n) (fun r s' => s' = s /\
    match r with Some (fd, f) => exists k, fd = Z.of_nat k /\ (k < NOFILE)%nat /\ (f < File.NFILE)%nat /\ fd_at s me k = ptr f
               | None => True end) s.
Proof.
  intros Hb. unfold argfd. apply post_bind, post_reads; [apply reads_argint|]. intros [fd|]; [|by apply post_ret].
  unfold proc_at. apply post_bind, post_gets. case_decide as D; [by apply post_ret|]. apply post_ret. split; [done|].
  exists (Z.to_nat fd). destruct (bal_valid _ _ Hb me (Z.to_nat fd)) as [E|(i & Hi & E)]; unfold fd_at in *; [tauto|].
  rewrite E, idx_ptr. split; [lia|]. split; [unfold NOFILE in *; lia|]. done.
Qed.

Lemma fdalloc_post me f d s :
  balanced d s -> (me < NPROC)%nat -> (f < File.NFILE)%nat ->
  post (fdalloc me f) (fun r s' => (r < 0 /\ s' = s) \/
    (exists k, r = Z.of_nat k /\ (k < NOFILE)%nat /\ fd_at s' me k = ptr f /\ balanced (fun i => d i - one f i) s')) s.
Proof.
  intros Hb Hme Hf. unfold fdalloc, proc_at. apply post_bind, post_gets.
  destruct (List.find _ _) as [fd|] eqn:E.
  - apply find_some in E as [Hfd%in_seq Hz%bool_decide_eq_true].
    apply post_bind, post_modify, post_ret. right. exists fd. split; [done|]. split; [lia|]. split.
    + unfold fd_at. rewrite getp_put_eq by (rewrite (bal_procs _ _ Hb); done). simpl.
      rewrite nth_lookup, list_lookup_insert_eq; [done|]. rewrite (bal_ofile _ _ Hb). lia.
    + eapply balanced_ext; [|apply (balanced_set_fd d s me fd (ptr f)); [done | done | lia | eauto]].
      intros i. simpl. unfold fd_at. rewrite Hz, is_ref_0, is_ref_ptr. lia.
  - apply post_ret. left. split; [lia | done].
Qed.

(** Take a call off the front of a program. *)
Ltac bstill lem := apply post_bind; eapply post_mono; [by apply lem|]; intros ? ? [? ?].

Lemma sys_dup_balanced me d s :
  (me < NPROC)%nat -> balanced d s -> post (sys_dup devread devwrite me) (fun _ => balanced d) s.
Proof.
  intros Hme Hb. unfold sys_dup. apply post_bind. eapply post_mono; [by apply (argfd_post me 0 d)|].
  intros [[fd f]|] s1 [-> Hr]; [|by apply post_ret]. destruct Hr as (k & _ & _ & Hf & _).
  apply post_bind. eapply post_mono; [by apply (fdalloc_post me f d)|]. intros r s1 [[Hr ->]|(k2 & -> & _ & _ & Hb1)].
  - rewrite decide_True by done. by apply post_ret.
  - rewrite decide_False by lia. apply post_bind. eapply post_mono; [apply call_balanced; [apply filedup_shifts | exact Hb1]|].
    intros a s2 [Hb2 _]. apply post_ret. eapply balanced_ext; [|exact Hb2]. intros i. simpl. lia.
Qed.

Lemma sys_close_balanced me d s :
  (me < NPROC)%nat -> balanced d s -> post (sys_close devread devwrite me) (fun _ => balanced d) s.
Proof.
  intros Hme Hb. unfold sys_close. apply post_bind. eapply post_mono; [by apply (argfd_post me 0 d)|].
  intros [[fd f]|] s1 [-> Hr]; [|by apply post_ret]. destruct Hr as (k & -> & Hk & Hf & E).
  rewrite Nat2Z.id. apply post_bind, post_modify.
  pose proof (balanced_set_fd d s me k 0 Hb Hme Hk (or_introl eq_refl)) as Hb1.
  apply post_bind. eapply post_mono; [apply call_balanced; [apply fileclose_shifts | exact Hb1]|].
  intros a s2 [Hb2 _]. apply post_ret. eapply balanced_ext; [|exact Hb2].
  intros i. simpl. rewrite E, is_ref_0, is_ref_ptr. lia.
Qed.

Lemma rw_args_reads me : reads (rw_args me).
Proof.
  unfold rw_args. apply respects_bind; [apply _ | apply reads_argfd | intros [[]|]]; [|reads].
  apply respects_bind; [apply _ | apply reads_argint | intros [|]]; [|reads].
  apply respects_bind; [apply _ | apply reads_argptr | intros ?]. reads.
Qed.

Lemma sys_read_balanced me d s : balanced d s -> post (sys_read devread devwrite me) (fun _ => balanced d) s.
Proof.
  intros Hb. unfold sys_read. apply post_bind, post_reads; [apply rw_args_reads|].
  intros [[[f n] p]|]; [|by apply post_ret].
  apply post_bind. eapply post_mono; [apply call_still; [apply fileread_still | exact Hb]|]. intros r s1 [Hb1 _].
  apply post_bind. eapply post_mono; [by apply callx_still|]. intros u s2 [Hb2 _]. by apply post_ret.
Qed.

Lemma sys_write_balanced me d s : balanced d s -> post (sys_write devread devwrite me) (fun _ => balanced d) s.
Proof.
  intros Hb. unfold sys_write. apply post_bind, post_reads; [apply rw_args_reads|].
  intros [[[f n] p]|]; [|by apply post_ret]. unfold user_bytes. apply post_bind, post_gets.
  eapply post_mono; [apply call_still; [apply filewrite_still | exact Hb]|]. by intros r s1 [Hb1 _].
Qed.

Lemma open_bad_balanced f ip d s :
  balanced (fun i => d i + some_one f i) s -> post (open_bad devread devwrite f ip) (fun _ => balanced d) s.
Proof.
  intros Hb. unfold open_bad. apply post_bind.
  apply (post_mono _ (fun _ => balanced d)).
  - destruct f as [f|]; simpl in *.
    + eapply post_mono; [apply call_balanced; [apply fileclose_shifts | exact Hb]|]. intros a s1 [Hb1 _].
      eapply balanced_ext; [|exact Hb1]. intros i. simpl. lia.
    + apply post_ret. eapply balanced_ext; [|exact Hb]. intros i. simpl. lia.
  - intros [] s1 Hb1. apply post_bind. eapply post_mono; [by apply callfs_still|]. intros ? s2 [Hb2 _].
    apply post_bind. eapply post_mono; [by apply callfs_still|]. intros ? s3 [Hb3 _]. by apply post_ret.
Qed.

Lemma alloc_in (r : K) i r' : File.filealloc r = Ret (Some i) r' -> (i < File.NFILE)%nat.
Proof.
  unfold File.filealloc. intros E. minv. destruct (File.find_free _) as [j|] eqn:Ef; minv.
  apply find_some in Ef as [Hi%in_seq _]. lia.
Qed.

Lemma sys_open_balanced me d s :
  (me < NPROC)%nat -> balanced d s -> post (sys_open devread devwrite me) (fun _ => balanced d) s.
Proof.
  intros Hme Hb. unfold sys_open. apply post_bind, post_reads; [apply reads_arg_path|].
  intros [path|]; [|by apply post_ret]. apply post_bind, post_reads; [apply reads_argint|].
  intros [omode|]; [|by apply post_ret]. unfold cwd_of, proc_at. apply post_bind, post_bind, post_gets, post_ret.
  apply post_bind. eapply post_mono; [by apply callfs_still|]. intros [ip|] s1 [Hb1 _]; [|by apply post_ret].
  apply post_bind. eapply post_mono; [apply post_both; [apply call_balanced; [apply filealloc_shifts | exact Hb1] | apply call_result]|].
  intros [f|] s2 [[Hb2 _] [r Er]]; [|by apply open_bad_balanced].
  apply alloc_in in Er. apply post_bind. eapply post_mono; [by apply (fdalloc_post me f _ s2 Hb2)|].
  intros fd s3 [[Hfd ->]|(k & -> & _ & _ & Hb3)].
  - rewrite decide_True by done. by apply open_bad_balanced.
  - rewrite decide_False by lia.
    apply (balanced_ext _ d) in Hb3; [|intros i; simpl; lia].
    apply post_bind. eapply post_mono; [by apply callfs_still|]. intros ? s4 [Hb4 _].
    apply post_bind. eapply post_mono; [by apply callfs_still|]. intros ? s5 [Hb5 _].
    apply post_bind. eapply post_mono; [apply call_still; [by apply still_upd | exact Hb5]|]. intros ? s6 [Hb6 _].
    by apply post_ret.
Qed.

Lemma pipe_in (r : K) a b r' : File.pipealloc r = Ret (Some (a, b)) r' -> (a < File.NFILE)%nat /\ (b < File.NFILE)%nat.
Proof.
  unfold File.pipealloc, File.pipealloc_bad. intros (f0 & r1 & E0 & E)%bind_ret_inv.
  destruct f0 as [i0|]; [|by minv]. apply alloc_in in E0.
  apply bind_ret_inv in E as (f1 & r2 & E1 & E). destruct f1 as [i1|]; [|by minv]. apply alloc_in in E1.
  apply bind_ret_inv in E as (p & r3 & _ & E). case_decide; minv. by simplify_eq.
Qed.

Lemma pipe_bad_balanced me fd0 rf wf d s :
  (me < NPROC)%nat -> fd0 < 0 \/ (exists k, fd0 = Z.of_nat k /\ (k < NOFILE)%nat /\ fd_at s me k = ptr rf) ->
  balanced (fun i => d i + one wf i + (if decide (fd0 < 0) then one rf i else 0)) s ->
  post (pipe_bad devread devwrite me fd0 rf wf) (fun _ => balanced d) s.
Proof.
  intros Hme Hfd Hb. unfold pipe_bad. apply post_bind.
  apply (post_mono _ (fun _ => balanced (fun i => d i + one rf i + one wf i))).
  - destruct Hfd as [Hn|(k & -> & Hk & E)].
    + rewrite decide_False by lia. apply post_ret.
      eapply balanced_ext; [|exact Hb]. intros i. simpl. rewrite decide_True by done. lia.
    + rewrite decide_True by lia. rewrite Nat2Z.id. apply post_modify.
      apply (balanced_ext _ (fun i => d i + one wf i)) in Hb; [|intros i; simpl; rewrite decide_False by lia; lia].
      eapply balanced_ext; [|apply (balanced_set_fd _ s me k 0 Hb Hme Hk (or_introl eq_refl))].
      intros i. simpl. rewrite E, is_ref_0, is_ref_ptr. lia.
  - intros [] s1 Hb1.
    apply post_bind. eapply post_mono; [apply call_balanced; [apply fileclose_shifts | exact Hb1]|]. intros ? s2 [Hb2 _].
    apply post_bind. eapply post_mono; [apply call_balanced; [apply fileclose_shifts | exact Hb2]|]. intros ? s3 [Hb3 _].
    apply post_ret. eapply balanced_ext; [|exact Hb3]. intros i. simpl. lia.
Qed.

Lemma sys_pipe_balanced me d s :
  (me < NPROC)%nat -> balanced d s -> post (sys_pipe devread devwrite me) (fun _ => balanced d) s.
Proof.
  intros Hme Hb. unfold sys_pipe. apply post_bind, post_reads; [apply reads_argptr|].
  intros [p|]; [|by apply post_ret].
  apply post_bind. eapply post_mono; [apply post_both; [apply call_balanced; [apply pipealloc_shifts | exact Hb] | apply call_result]|].
  intros [[rf wf]|] s1 [[Hb1 _] [r Er]]; [|apply post_ret; eapply balanced_ext; [|exact Hb1]; intros i; simpl; lia].
  apply pipe_in in Er as [Hrf Hwf].
  apply post_bind. eapply post_mono; [by apply (fdalloc_post me rf _ s1 Hb1)|].
  intros fd0 s2 [[Hfd ->]|(k & -> & Hk & E & Hb2)].
  { rewrite decide_True by done. apply pipe_bad_balanced; [done | by left|].
    eapply balanced_ext; [|exact Hb1]. intros i. simpl. rewrite decide_True by done. lia. }
  rewrite decide_False by lia.
  apply post_bind. eapply post_mono; [by apply (fdalloc_post me wf _ s2 Hb2)|].
  intros fd1 s3 [[Hfd ->]|(k1 & -> & Hk1 & E1 & Hb3)].
  { rewrite decide_True by done. apply pipe_bad_balanced; [done | right; eauto|].
    eapply balanced_ext; [|exact Hb2]. intros i. simpl. case_decide; lia. }
  rewrite decide_False by lia.
  apply post_bind. eapply post_mono; [by apply callx_still|]. intros ? s4 [Hb4 _].
  apply post_bind. eapply post_mono; [by apply callx_still|]. intros ? s5 [Hb5 _].
  apply post_ret. eapply balanced_ext; [|exact Hb5]. intros i. simpl. lia.
Qed.

(** The copying of the descriptors in [fork] and [thread_create]. *)
Lemma dup_files_balanced me np d s :
  (np < NPROC)%nat -> me <> np -> (forall fd, fd_at s np fd = 0) -> balanced d s ->
  post (dup_files me np) (fun _ => balanced d) s.
Proof.
  intros Hnp Hne Hz Hb. unfold dup_files.
  eapply post_mono; [apply (post_for (fun i s => balanced d s /\ forall j, (i <= j)%nat -> fd_at s np j = 0))|].
  - split; [done|]. intros j _. apply Hz.
  - intros i s1 [_ Hi] [Hb1 Hz1]. unfold proc_at. apply post_bind, post_gets.
    case_decide as D; [apply post_ret; split; [done|]; intros j Hj; apply Hz1; lia|].
    destruct (bal_valid _ _ Hb1 me i) as [E|(f & Hf & E)]; [done|]. unfold fd_at in E. rewrite E.
    apply post_bind.
    eapply post_mono; [apply post_both; [apply (call_balanced _ d (fun _ => one f)); [|exact Hb1] | apply call_result]|].
    { intros r Hl. apply post_bind. rewrite idx_ptr. eapply post_mono; [by apply filedup_shifts|].
      intros a r' Hr. by apply post_ret. }
    intros g s2 [[Hb2 Ho] [r Er]].
    assert (Eg : g = ptr f).
    { simpl in Er. apply bind_ret_inv in Er as (j & r1 & Ej & Er). rewrite idx_ptr in Ej.
      apply filedup_same in Ej as ->. by injection Er as <- <-. }
    subst g. apply post_modify. split.
    + eapply balanced_ext; [|apply (balanced_set_fd _ s2 np i (ptr f) Hb2 Hnp)]; [|lia | eauto].
      intros j. simpl. assert (fd_at s2 np i = 0) as -> by (unfold fd_at; rewrite Ho; apply Hz1; lia).
      rewrite is_ref_0, is_ref_ptr. lia.
    + intros j Hj. unfold fd_at. rewrite getp_put_eq by (rewrite (bal_procs _ _ Hb2); done). simpl.
      rewrite nth_lookup, list_lookup_insert_ne, <- nth_lookup by lia. rewrite Ho. apply Hz1. lia.
  - by intros [] s' [Hb' _].
Qed.

(** The closing of the descriptors in [exit] and [thread_exit]. *)
Lemma close_files_balanced me d s :
  (me < NPROC)%nat -> balanced d s ->
  post (close_files me) (fun _ s' => balanced d s' /\ forall fd, fd_at s' me fd = 0) s.
Proof.
  intros Hme Hb. unfold close_files.
  eapply post_mono; [apply (post_for (fun i s => balanced d s /\ forall j, (j < i)%nat -> fd_at s me j = 0))|].
  - split; [done|]. lia.
  - intros i s1 [_ Hi] [Hb1 Hz1]. unfold proc_at. apply post_bind, post_gets.
    case_decide as D.
    { apply post_ret. split; [done|]. intros j Hj. destruct (decide (j = i)) as [->|]; [done | apply Hz1; lia]. }
    destruct (bal_valid _ _ Hb1 me i) as [E|(f & Hf & E)]; [done|]. unfold fd_at in E. rewrite E. simpl fileclose. rewrite idx_ptr.
    apply post_bind. eapply post_mono; [apply call_balanced; [apply fileclose_shifts | exact Hb1]|].
    intros [] s2 [Hb2 Ho]. apply post_modify. split.
    + eapply balanced_ext; [|apply (balanced_set_fd _ s2 me i 0 Hb2 Hme)]; [|lia | eauto].
      intros j. simpl. assert (fd_at s2 me i = ptr f) as -> by (unfold fd_at; by rewrite Ho).
      rewrite is_ref_0, is_ref_ptr. lia.
    + intros j Hj. unfold fd_at. rewrite getp_put_eq by (rewrite (bal_procs _ _ Hb2); done). simpl.
      rewrite nth_lookup. destruct (decide (j = i)) as [->|Hne].
      * rewrite list_lookup_insert_eq; [done|]. rewrite (bal_ofile _ _ Hb2). lia.
      * rewrite list_lookup_insert_ne, <- nth_lookup by lia. rewrite Ho. apply Hz1. lia.
  - intros [] s' [Hb' Hz]. split; [done|]. intros fd. destruct (decide (fd < NOFILE)%nat) as [|Hge]; [by apply Hz|].
    unfold fd_at. rewrite nth_overflow; [done|]. rewrite (bal_ofile _ _ Hb'). lia.
Qed.

(** The operations on descriptors; [D_fork_copy np] is the copying of the
    descriptors to the process being made in slot [np]. *)
Inductive fd_op := D_dup | D_close | D_read | D_write | D_open | D_pipe | D_fork_copy (np : nat) | D_exit_close.

Definition run_fd (me : nat) (o : fd_op) : P Z :=
  match o with
  | D_dup => sys_dup devread devwrite me
  | D_close => sys_close devread devwrite me
  | D_read => sys_read devread devwrite me
  | D_write => sys_write devread devwrite me
  | D_open => sys_open devread devwrite me
  | D_pipe => sys_pipe devread devwrite me
  | D_fork_copy np => dup_files me np ;;; ret 0
  | D_exit_close => close_files me ;;; ret 0
  end.

(** A process is made in a slot without descriptors. *)
Definition fd_ready (me : nat) (o : fd_op) (s : PS) : Prop :=
  match o with D_fork_copy np => (np < NPROC)%nat /\ me <> np /\ forall fd, fd_at s np fd = 0 | _ => True end.

(** Every file's count is the number of descriptors that refer to it. *)
Definition refs_ok (s : PS) : Prop := balanced (fun _ => 0) s.

Lemma fd_refs_pos s p fd i :
  (p < NPROC)%nat -> (fd < NOFILE)%nat -> fd_at s p fd = ptr i -> 1 <= fd_refs s i.
Proof.
  intros Hp Hf E.
  assert (Hn : forall z, 0 <= is_ref z i) by (intros z; unfold is_ref; case_decide; lia).
  assert (Hin : 1 <= zsum (fun f => is_ref (fd_at s p f) i) NOFILE).
  { rewrite (zsum_upd _ (fun f => if decide (f = fd) then 0 else is_ref (fd_at s p f) i) fd).
    - rewrite !decide_True by done. rewrite E, is_ref_ptr. unfold one. rewrite decide_True by done.
      assert (0 <= zsum (fun f => if decide (f = fd) then 0 else is_ref (fd_at s p f) i) NOFILE); [|lia].
      apply zsum_nonneg. intros f. case_decide; [lia | done].
    - intros f Hne. by rewrite decide_False. }
  unfold fd_refs.
  rewrite (zsum_upd _ (fun q => if decide (q = p) then 0 else zsum (fun f => is_ref (fd_at s q f) i) NOFILE) p).
  - rewrite !decide_True by done.
    assert (0 <= zsum (fun q => if decide (q = p) then 0 else zsum (fun f => is_ref (fd_at s q f) i) NOFILE) NPROC); [|lia].
    apply zsum_nonneg. intros q. case_decide; [lia|]. by apply zsum_nonneg.
  - intros q Hne. by rewrite decide_False.
Qed.
End descriptors.

(** C16: the reference count of every open file is the number of descriptors of all
    processes that refer to it.  [dup], [close], [read], [write], [open] and [pipe]
    keep it so on every path, their failures included, and so do the copying of the
    descriptors to a new process and the closing of all descriptors of one that
    ends; hence the file of a descriptor is never free. *)
Theorem file_refs {S} `{BufOps S} {X} `{RestEnv X} devread devwrite me o
    (s s' : pstate (File.fstate (kern S X))) v :
  refs_ok s -> (me < NPROC)%nat -> fd_ready me o s -> run_fd devread devwrite me o s = Ret v s' ->
  refs_ok s' /\ forall p fd i, (p < NPROC)%nat -> (fd < NOFILE)%nat -> fd_at s' p fd = ptr i -> (i < File.NFILE)%nat ->
    1 <= frefs (env s') i.
Proof.
  intros Hb Hme Hr E. assert (Hb' : refs_ok s').
  { destruct o; simpl in *.
    - eapply sys_dup_balanced; eassumption.
    - eapply sys_close_balanced; eassumption.
    - eapply sys_read_balanced; eassumption.
    - eapply sys_write_balanced; eassumption.
    - eapply sys_open_balanced; eassumption.
    - eapply sys_pipe_balanced; eassumption.
    - destruct Hr as (Hnp & Hne & Hz). minv. eapply dup_files_balanced; eassumption.
    - minv. eapply close_files_balanced; eassumption. }
  split; [done|]. intros p fd i Hp Hf Ei Hi. rewrite (bal_refs _ _ Hb') by done.
  pose proof (fd_refs_pos _ _ _ _ Hp Hf Ei). lia.
Qed.

(** ** An example: [dup(0)] in a kernel with one open file *)

#[local] Instance no_cache : BufOps unit := {|
  bread _ _ := ret 0%nat;
  bwrite _ := ret tt;
  brelse _ := ret tt;
  bdata _ _ := [];
  bblockno _ _ := 0;
  bset _ _ s := s;
  bpin _ s := s
|}.

#[local] Instance no_rest : RestEnv unit := {|
  xkalloc := ret 4096;
  xkfree _ := ret tt;
  xsetupkvm := ret 4096;
  xinituvm _ := ret tt;
  xcopyuvm _ _ := ret 4096;
  xallocuvm _ _ n := ret n;
  xdeallocuvm _ _ n := ret n;
  xfreevm _ := ret tt;
  xclearpteu _ _ := ret tt;
  xcopyout _ _ _ := ret 0;
  xload_at _ _ := ret 4096;
  xstore _ _ := ret tt;
  ucopy _ _ := ret tt;
  xubyte _ _ := 0;
  xpipe_new := ret 4096;
  xpipeclose _ _ := ret tt;
  xpiperead _ _ := ret (0, []);
  xpipewrite _ _ n := ret n;
  xdrain x := ([], x)
|}.

Definition one_file : pstate (File.fstate (kern unit unit)) :=
  MkP false (set_sz 4096 (set_state RUNNING (set_ofile (ptr 0 :: replicate 15 0) proc0)) :: replicate 63 proc0)
      None 2 1 0 0 100 (MkMlfqs 0 0 0 0 0 0 0) [] false
      (File.MkF false (File.set_ref 1 File.file0 :: replicate 99 File.file0)
         (MkKern (Fs.MkFs (Log.Mk Log.log0 tt []) (MkSb 0 0 0 0 0 0 0) [] 1) tt)).

Lemma one_file_tail p : getp one_file (S p) = proc0.
Proof.
  unfold getp, one_file, procs. cbn [nth]. rewrite nth_lookup.
  destruct (_ !! p) eqn:E; [|done]. by apply lookup_replicate in E as [-> _].
Qed.

Lemma one_file_fd p fd : fd_at one_file p fd = if decide (p = O /\ fd = O) then ptr 0 else 0.
Proof.
  unfold fd_at. destruct p as [|p]; [|rewrite one_file_tail]; simpl.
  - destruct fd as [|fd]; [done|]. change (nth fd (replicate 15 0) 0 = 0). rewrite nth_lookup.
    destruct (_ !! fd) eqn:E; [|done]. by apply lookup_replicate in E as [-> _].
  - change (nth fd (replicate 16 0) 0 = 0). rewrite nth_lookup.
    destruct (_ !! fd) eqn:E; [|done]. by apply lookup_replicate in E as [-> _].
Qed.

Lemma one_file_ok : refs_ok one_file.
Proof.
  constructor; [done | | done | |].
  - intros [|p]; [done | by rewrite one_file_tail].
  - intros p fd. rewrite one_file_fd. case_decide; [right; exists O; unfold File.NFILE; split; [lia | done] | by left].
  - assert (Hc : forallb (fun i => frefs (env one_file) i =? fd_refs one_file i + 0) (seq 0 File.NFILE) = true)
      by (vm_compute; reflexivity).
    rewrite forallb_forall in Hc. intros i Hi. apply Z.eqb_eq, Hc, in_seq. lia.
Qed.

Lemma file_refs_witness :
  exists s', run_fd (fun _ => None) (fun _ => None) 0 D_dup one_file = Ret 1 s' /\ refs_ok s'.
Proof.
  destruct (run_fd (fun _ => None) (fun _ => None) 0 D_dup one_file) as [v s'|] eqn:E; [|vm_compute in E; discriminate E].
  assert (Ev : v = 1) by (vm_compute in E; by injection E). subst v.
  exists s'. split; [reflexivity|].
  apply (file_refs (fun _ => None) (fun _ => None) 0 D_dup one_file s' 1); [exact one_file_ok | unfold NPROC; lia | exact I | exact E].
Defined.
End FileRefs.
