(* ===== verification/Exec.v ===== *)
(** Loading a program: src/xv6-public/exec.c, with [loaduvm] of vm.c and [sys_exec]
    of sysfile.c. *)

From S2P Require Import Prelude Bytes CString Kalloc Proc Syscall BlockCache FsLayout Log Fs File Sysfile.

Module Exec.
Import Proc Syscall Sysfile.

Definition ELF_MAGIC : Z := 0x464C457F.
Definition ELF_PROG_LOAD : Z := 1.

(** [struct elfhdr], the fields [exec] uses, from its bytes. *)
Record elfhdr := MkElf { magic : Z; entry : Z; phoff : Z; phnum : Z }.
Definition sizeof_elfhdr : Z := 52.
Definition decode_elf (d : list Z) : elfhdr := MkElf (get32 d 0) (get32 d 24) (get32 d 28) (get16 d 44).

(** [struct proghdr]. *)
Record proghdr := MkPh { ph_type : Z; ph_off : Z; vaddr : Z; filesz : Z; memsz : Z }.
Definition sizeof_proghdr : Z := 32.
Definition decode_ph (d : list Z) : proghdr :=
  MkPh (get32 d 0) (get32 d 4) (get32 d 8) (get32 d 16) (get32 d 20).

(** ** The stack of a new program *)

(** [sp = (sp - (strlen(arg) + 1)) & ~3] *)
Definition push_arg (sp : Z) (arg : list Z) : Z :=
  Z.land (u32 (sp - (Z.of_nat (length arg) + 1))) 0xfffffffc.

(** The addresses of the argument strings, pushed from [sp] on, and the final [sp]. *)
Fixpoint arg_addrs (sp : Z) (argv : list (list Z)) : list Z * Z :=
  match argv with
  | [] => ([], sp)
  | a :: rest => let sp' := push_arg sp a in
                 let '(l, e) := arg_addrs sp' rest in (sp' :: l, e)
  end.

(** [ustack]: the return address, [argc], [argv] and the addresses with a final 0. *)
Definition ustack (sp : Z) (addrs : list Z) : list Z :=
  let argc := Z.of_nat (length addrs) in
  [0xffffffff; argc; u32 (sp - (argc + 1) * 4)] ++ addrs ++ [0].

Definition words_bytes (l : list Z) : list Z := concat (map word_bytes l).

(** The part of the path after the last slash. *)
Fixpoint last_elem (s last : list Z) : list Z :=
  match s with
  | [] => last
  | c :: s' => last_elem s' (if decide (c = 47) then s' else last)
  end.

Section exec.
Context {S : Type} `{BufOps S} {X : Type} `{RestEnv X}.
Notation F := (M (Fs.fstate S)).
Context (devread : Z -> option (nat -> Z -> F (Z * list Z))).
Context (devwrite : Z -> option (nat -> list Z -> F Z)).
Notation K := (File.fstate (kern S X)).
Notation P := (M (pstate K)).
#[local] Instance penv : ProcEnv K := proc_env devread devwrite.
#[local] Instance umem : UserMem K := user_mem.
#[local] Notation callfs := (callfs devread devwrite).
#[local] Notation callx := (callx devread devwrite).

(** The loop of [loaduvm] from [i], a page at a time. *)
Fixpoint loaduvm_loop (fuel : nat) (pgdir addr : Z) (ip : nat) (offset sz i : Z) : P Z :=
  if decide (sz <= i) then ret 0 else
  match fuel with
  | O => stop_with Spins
  | Datatypes.S fuel =>
      let n := if decide (sz - i < PGSIZE) then sz - i else PGSIZE in
      let! ka := callx (xload_at pgdir (u32 (addr + i))) in
      let! r := callfs (Fs.readi devread ip (u32 (offset + i)) n) in
      callx (xstore ka r.2) ;;;
      if decide (r.1 <> n) then ret (-1) else
      loaduvm_loop fuel pgdir addr ip offset sz (u32 (i + PGSIZE))
  end.
Definition loaduvm (pgdir addr : Z) (ip : nat) (offset sz : Z) : P Z :=
  if decide (addr mod PGSIZE <> 0) then panic "loaduvm: addr must be page aligned" else
  loaduvm_loop (Datatypes.S (Z.to_nat (sz / PGSIZE))) pgdir addr ip offset sz 0.

(** The loop over the program headers: the size, or [None] to give up. *)
Fixpoint load_segments (n : nat) (pgdir : Z) (ip : nat) (off sz : Z) : P (option Z) :=
  match n with
  | O => ret (Some sz)
  | Datatypes.S n =>
      let! r := callfs (Fs.readi devread ip (u32 off) sizeof_proghdr) in
      if decide (r.1 <> sizeof_proghdr) then ret None else
      let ph := decode_ph r.2 in
      if decide (ph_type ph <> ELF_PROG_LOAD) then load_segments n pgdir ip (off + sizeof_proghdr) sz else
      if decide (memsz ph < filesz ph) then ret None else
      if decide (u32 (vaddr ph + memsz ph) < vaddr ph) then ret None else
      let! sz := callx (xallocuvm pgdir sz (u32 (vaddr ph + memsz ph))) in
      if decide (sz = 0) then ret None else
      if decide (vaddr ph mod PGSIZE <> 0) then ret None else
      let! l := loaduvm pgdir (vaddr ph) ip (ph_off ph) (filesz ph) in
      if decide (l < 0) then ret None else load_segments n pgdir ip (off + sizeof_proghdr) sz
  end.

(** [bad:] with the address space and the inode there are. *)
Definition exec_bad (pgdir : Z) (ip : option nat) : P Z :=
  (if decide (pgdir = 0) then ret tt else callx (xfreevm pgdir)) ;;;
  match ip with
  | Some ip => callfs (Fs.iunlockput ip) ;;; callfs end_op
  | None => ret tt
  end ;;;
  ret (-1).

(** The loop that copies the argument strings; [argc] of them are done. *)
Fixpoint push_args (pgdir sp argc : Z) (argv : list (list Z)) : P (option (list Z * Z)) :=
  match argv with
  | [] => ret (Some ([], sp))
  | a :: rest =>
      if decide (Z.of_nat MAXARG <= argc) then ret None else
      let sp' := push_arg sp a in
      let! r := callx (xcopyout pgdir sp' (a ++ [0])) in
      if decide (r < 0) then ret None else
      let! t := push_args pgdir sp' (argc + 1) rest in
      ret (match t with Some (l, e) => Some (sp' :: l, e) | None => None end)
  end.

(** The commit: the process gets the new image. *)
Definition exec_commit (me : nat) (path : list Z) (pgdir sz sp start : Z) : P Z :=
  upd_proc me (copy_name (last_elem path path ++ [0])) ;;;
  let! p := proc_at me in
  upd_proc me (fun q => set_sz sz (set_pgdir pgdir q)) ;;;
  upd_proc me (upd_tf (fun t => set_esp sp (set_eip start t))) ;;;
  switchuvm me ;;;
  callx (xfreevm (Proc.pgdir p)) ;;;
  ret 0.

(** From the loaded program on: the stack, the arguments, the commit. *)
Definition exec_stack (me : nat) (path : list Z) (argv : list (list Z)) (pgdir sz start : Z) : P Z :=
  let sz := PGROUNDUP sz in
  let! sz := callx (xallocuvm pgdir sz (u32 (sz + 2 * PGSIZE))) in
  if decide (sz = 0) then exec_bad pgdir None else
  callx (xclearpteu pgdir (u32 (sz - 2 * PGSIZE))) ;;;
  let! r := push_args pgdir sz 0 argv in
  match r with
  | None => exec_bad pgdir None
  | Some (addrs, sp) =>
      let us := ustack sp addrs in
      let sp' := u32 (sp - 4 * Z.of_nat (length us)) in
      let! c := callx (xcopyout pgdir sp' (words_bytes us)) in
      if decide (c < 0) then exec_bad pgdir None else
      exec_commit me path pgdir sz sp' start
  end.

Definition exec (me : nat) (path : list Z) (argv : list (list Z)) : P Z :=
  callfs begin_op ;;;
  let! c := cwd_of me in
  let! r := callfs (Fs.namei devread c path) in
  match r with
  | None => callfs end_op ;;; ret (-1)
  | Some ip =>
      callfs (Fs.ilock ip) ;;;
      let! h := callfs (Fs.readi devread ip 0 sizeof_elfhdr) in
      if decide (h.1 <> sizeof_elfhdr) then exec_bad 0 (Some ip) else
      let elf := decode_elf h.2 in
      if decide (magic elf <> ELF_MAGIC) then exec_bad 0 (Some ip) else
      let! pgdir := callx xsetupkvm in
      if decide (pgdir = 0) then exec_bad 0 (Some ip) else
      let! l := load_segments (Z.to_nat (phnum elf)) pgdir ip (phoff elf) 0 in
      match l with
      | None => exec_bad pgdir (Some ip)
      | Some sz =>
          callfs (Fs.iunlockput ip) ;;;
          callfs end_op ;;;
          exec_stack me path argv pgdir sz (entry elf)
      end
  end.

Definition sys_exec (me : nat) : P Z :=
  let! a := arg_path me 0 in
  match a with
  | None => ret (-1)
  | Some path =>
      let! b := argint me 1 in
      match b with
      | None => ret (-1)
      | Some uargv =>
          let! t := fetch_argv MAXARG me (u32 uargv) 0 in
          match t with
          | None => ret (-1)
          | Some argv => exec me path argv
          end
      end
  end.
End exec.
End Exec.
