(* ===== verification/Trap.v ===== *)
(** System calls on processes, the system call table, and traps:
    src/xv6-public/sysproc.c, prac_syscall.c, the second half of syscall.c, and
    trap.c.

    [kstate] adds the clock to the process table.  A system call that gives up
    the CPU ends in [Blocked]; its value is stored in [eax] when it returns.
    Console output is not part of the state. *)

From S2P Require Import Prelude Bytes CString Kalloc Proc Syscall BlockCache FsLayout Log Fs File Sysfile Exec.

Module Trap.
Import Proc Syscall Sysfile Exec.

Definition T_IRQ0 : Z := 32.
Definition T_SYSCALL : Z := 64.
Definition IRQ_TIMER : Z := 0.
Definition IRQ_KBD : Z := 1.
Definition IRQ_COM1 : Z := 4.
Definition IRQ_IDE : Z := 14.
Definition IRQ_SPURIOUS : Z := 31.

Record kstate (K : Type) := MkK {
  kproc : pstate K;
  ticks : Z;
  tlocked : bool
}.
Arguments MkK {K} kproc ticks tlocked.
Arguments kproc {K} k.
Arguments ticks {K} k.
Arguments tlocked {K} k.

Section trap.
Context {S : Type} `{BufOps S} {X : Type} `{RestEnv X}.
Notation F := (M (Fs.fstate S)).
Context (devread : Z -> option (nat -> Z -> F (Z * list Z))).
Context (devwrite : Z -> option (nat -> list Z -> F Z)).
Notation K := (File.fstate (kern S X)).
Notation P := (M (pstate K)).
Notation T := (M (kstate K)).
#[local] Instance penv : ProcEnv K := proc_env devread devwrite.
#[local] Instance umem : UserMem K := user_mem.

Definition inp {A} (m : P A) : T A := zoom kproc (fun p k => MkK p (ticks k) (tlocked k)) m.

Definition acquire_ticks : T unit :=
  let! l := gets tlocked in
  if (l : bool) then panic "acquire" else modify (fun k => MkK (kproc k) (ticks k) true).
Definition release_ticks : T unit :=
  let! l := gets tlocked in
  if (l : bool) then modify (fun k => MkK (kproc k) (ticks k) false) else panic "release".

(** ** sysproc.c *)

(** A call that returns a value and cannot give up the CPU. *)
Definition plain (m : P Z) : T (segment unit Z) := let! v := inp m in ret (Done v).
Definition sleeping (m : P (segment unit Z)) : T (segment unit Z) := inp m.
(** A call with one [int] argument. *)
Definition with_int (me : nat) (n : Z) (f : Z -> T (segment unit Z)) : T (segment unit Z) :=
  let! r := inp (argint me n) in
  match r with None => ret (Done (-1)) | Some v => f v end.

Definition sys_fork (me : nat) : T (segment unit Z) := plain (fork me).
(** [exit] and [thread_exit] do not return; [yield] does when the process runs again. *)
Definition sys_exit (me : nat) : T (segment unit Z) :=
  let! r := inp (exit me) in
  ret (match r with Done _ => Blocked A_null tt | Blocked c k => Blocked c k end).
Definition sys_wait (me : nat) : T (segment unit Z) := sleeping (wait me).
Definition sys_kill (me : nat) : T (segment unit Z) := with_int me 0 (fun pid => plain (kill me pid)).
Definition sys_getpid (me : nat) : T (segment unit Z) := plain (let! p := proc_at me in ret (pid p)).
Definition sys_getppid (me : nat) : T (segment unit Z) :=
  plain (let! p := proc_at me in
         match parent p with
         | Some q => let! p := proc_at q in ret (pid p)
         | None => stop_with Undefined
         end).
Definition sys_sbrk (me : nat) : T (segment unit Z) :=
  with_int me 0 (fun n =>
    let! p := inp (proc_at me) in
    let addr := i32 (sz p) in
    let! r := inp (growproc me n) in
    ret (Done (if decide (r < 0) then -1 else addr))).

(** One round of the loop of [sys_sleep], with the lock held. *)
Definition sleep_round (me : nat) (n ticks0 : Z) : T (segment (Z * Z) Z) :=
  let! t := gets ticks in
  if decide (u32 (t - ticks0) < u32 n) then
    let! p := inp (proc_at me) in
    if killed p then release_ticks ;;; ret (Done (-1)) else
    inp (sleep me A_ticks K_other 1) ;;;
    release_ticks ;;;
    ret (Blocked A_ticks (n, ticks0))
  else release_ticks ;;; ret (Done 0).
Definition sys_sleep_from (me : nat) (n : Z) : T (segment (Z * Z) Z) :=
  acquire_ticks ;;;
  let! t := gets ticks in
  sleep_round me n t.
(** ... and from a wake-up. *)
Definition sys_sleep_again (me : nat) (k : Z * Z) : T (segment (Z * Z) Z) :=
  acquire_ticks ;;; sleep_round me k.1 k.2.
Definition sys_sleep (me : nat) : T (segment unit Z) :=
  with_int me 0 (fun n =>
    let! r := sys_sleep_from me n in
    ret (match r with Done v => Done v | Blocked c _ => Blocked c tt end)).

Definition sys_uptime (me : nat) : T (segment unit Z) :=
  acquire_ticks ;;;
  let! x := gets ticks in
  release_ticks ;;;
  ret (Done (i32 x)).
Definition sys_yield (me : nat) : T (segment unit Z) := inp (yield me) ;;; ret (Blocked A_null tt).
Definition lev_num (l : mlfq_lev) : Z := match l with TOP => 0 | MID => 1 | LOW => 2 end.
Definition sys_getlev (me : nat) : T (segment unit Z) := plain (let! l := getlev me in ret (lev_num l)).
Definition sys_cpu_share (me : nat) : T (segment unit Z) := with_int me 0 (fun v => plain (cpu_share me v)).
Definition sys_run_MLFQ (me : nat) : T (segment unit Z) := plain (let! _ := run_MLFQ me in ret 0).
Definition sys_thread_create (me : nat) : T (segment unit Z) :=
  with_int me 0 (fun thread => with_int me 1 (fun routine => with_int me 2 (fun arg =>
    plain (thread_create me (u32 thread) (u32 routine) (u32 arg))))).
Definition sys_thread_exit (me : nat) : T (segment unit Z) :=
  with_int me 0 (fun v => inp (thread_exit me (u32 v)) ;;; ret (Blocked A_null tt)).
Definition sys_thread_join (me : nat) : T (segment unit Z) :=
  with_int me 0 (fun thread => with_int me 1 (fun retval => sleeping (thread_join me thread (u32 retval)))).

(** [my_syscall] prints the string. *)
Definition my_syscall : Z := i32 0xABCDABCD.
Definition sys_my_syscall (me : nat) : T (segment unit Z) :=
  let! r := inp (argstr me 0) in
  ret (Done (match r with None => -1 | Some _ => my_syscall end)).

(** ** syscall.c *)

Definition syscalls (num : Z) : option (nat -> T (segment unit Z)) :=
  match num with
  | 1 => Some sys_fork
  | 2 => Some sys_exit
  | 3 => Some sys_wait
  | 4 => Some (fun me => plain (sys_pipe devread devwrite me))
  | 5 => Some (fun me => plain (sys_read devread devwrite me))
  | 6 => Some sys_kill
  | 7 => Some (fun me => plain (sys_exec devread devwrite me))
  | 8 => Some (fun me => plain (sys_fstat devread devwrite me))
  | 9 => Some (fun me => plain (sys_chdir devread devwrite me))
  | 10 => Some (fun me => plain (sys_dup devread devwrite me))
  | 11 => Some sys_getpid
  | 12 => Some sys_sbrk
  | 13 => Some sys_sleep
  | 14 => Some sys_uptime
  | 15 => Some (fun me => plain (sys_open devread devwrite me))
  | 16 => Some (fun me => plain (sys_write devread devwrite me))
  | 17 => Some (fun me => plain (sys_mknod devread devwrite me))
  | 18 => Some (fun me => plain (sys_unlink devread devwrite me))
  | 19 => Some (fun me => plain (sys_link devread devwrite me))
  | 20 => Some (fun me => plain (sys_mkdir devread devwrite me))
  | 21 => Some (fun me => plain (sys_close devread devwrite me))
  | 22 => Some sys_my_syscall
  | 23 => Some sys_getppid
  | 24 => Some sys_yield
  | 25 => Some sys_getlev
  | 26 => Some sys_cpu_share
  | 27 => Some sys_run_MLFQ
  | 28 => Some sys_thread_create
  | 29 => Some sys_thread_exit
  | 30 => Some sys_thread_join
  | 31 => Some (fun me => plain (sys_sync devread devwrite me))
  | _ => None
  end.

(** The result is stored when the call returns. *)
Definition finish_call (me : nat) (r : segment unit Z) : T (segment unit unit) :=
  match r with
  | Done v => inp (upd_proc me (upd_tf (set_eax (u32 v)))) ;;; ret (Done tt)
  | Blocked c k => ret (Blocked c k)
  end.

Definition syscall (me : nat) : T (segment unit unit) :=
  let! p := inp (proc_at me) in
  match syscalls (i32 (teax (tf p))) with
  | Some f => let! r := f me in finish_call me r
  | None => inp (upd_proc me (upd_tf (set_eax (u32 (-1))))) ;;; ret (Done tt)
  end.

(** ** trap.c *)

(** [exit()], from which there is no return. *)
Definition must_exit (me : nat) : T (segment unit unit) := inp (exit me).

(** The system call branch of [trap]. *)
Definition trap_syscall (me : nat) (frame : trapframe) : T (segment unit unit) :=
  let! p := inp (proc_at me) in
  if killed p then must_exit me else
  inp (upd_proc me (set_tf frame)) ;;;
  let! r := syscall me in
  match r with
  | Blocked c k => ret (Blocked c k)
  | Done _ =>
      let! p := inp (proc_at me) in
      if killed p then must_exit me else ret (Done tt)
  end.

(** The timer interrupt on CPU 0. *)
Definition clock_tick (cpu0 : bool) : T unit :=
  if cpu0 then
    acquire_ticks ;;;
    modify (fun k => MkK (kproc k) (u32 (ticks k + 1)) (tlocked k)) ;;;
    inp (wakeup A_ticks) ;;;
    release_ticks
  else ret tt.

(** [(tf->cs & 3) == DPL_USER] *)
Definition from_user (frame : trapframe) : bool := bool_decide (Z.land (tcs frame) 3 = DPL_USER).

(** The other traps; [dev] is the interrupt handler of the device. *)
Definition trap_irq (dev : Z -> T unit) (cpu0 : bool) (me : option nat) (frame : trapframe) (trapno : Z) : T unit :=
  if decide (trapno = T_IRQ0 + IRQ_TIMER) then clock_tick cpu0
  else if decide (trapno = T_IRQ0 + IRQ_IDE) then dev IRQ_IDE
  else if decide (trapno = T_IRQ0 + IRQ_IDE + 1) then ret tt
  else if decide (trapno = T_IRQ0 + IRQ_KBD) then dev IRQ_KBD
  else if decide (trapno = T_IRQ0 + IRQ_COM1) then dev IRQ_COM1
  else if decide (trapno = T_IRQ0 + 7 \/ trapno = T_IRQ0 + IRQ_SPURIOUS) then ret tt
  else match me with
       | Some me => if decide (Z.land (tcs frame) 3 = 0) then panic "trap" else inp (upd_proc me (set_killed true))
       | None => panic "trap"
       end.

(** [trap] for the process [me], if one runs.  When it yields, the rest happens when
    the process runs again ([trap_again]). *)
Definition trap_again (me : nat) (frame : trapframe) : T (segment unit unit) :=
  let! p := inp (proc_at me) in
  if killed p && from_user frame then must_exit me else ret (Done tt).

Definition trap (dev : Z -> T unit) (cpu0 : bool) (me : option nat) (frame : trapframe) (trapno : Z)
  : T (segment unit unit) :=
  match me with
  | Some i =>
      if decide (trapno = T_SYSCALL) then trap_syscall i frame else
      trap_irq dev cpu0 me frame trapno ;;;
      let! p := inp (proc_at i) in
      if killed p && from_user frame then must_exit i else
      let! p := inp (proc_at i) in
      if decide (state p = RUNNING /\ trapno = T_IRQ0 + IRQ_TIMER) then
        inp (yield i) ;;; ret (Blocked A_null tt)
      else trap_again i frame
  | None =>
      if decide (trapno = T_SYSCALL) then stop_with Undefined else
      trap_irq dev cpu0 None frame trapno ;;; ret (Done tt)
  end.
End trap.
End Trap.
