(* ===== verification/Pipe.v ===== *)
(** Pipes: src/xv6-public/pipe.c.

    A pipe is a ring buffer of [PIPESIZE] bytes indexed by two free-running
    32-bit counters.  [pipewrite] and [piperead] run in segments between calls
    of [sleep]; the lock is held throughout a segment, so a segment is atomic
    and an execution is a sequence of segments of any callers.  The abstract
    pipe is the list of bytes written and not yet read. *)

From S2P Require Import Prelude.

Module Pipe.

Definition PIPESIZE : Z := 512.

(** [struct pipe], with the two booleans as C has them ([int] flags), and the
    sequence of [wakeup] calls the code has made, most recent last. *)
Record pipe := Mk {
  locked : bool;
  data : list Z;
  nread : Z;
  nwrite : Z;
  readopen : bool;
  writeopen : bool;
  freed : bool;
  wakeups : list kaddr
}.

(** The address of the pipe, which names its two channels. *)
Definition rchan (p : Z) : kaddr := A_pipe_nread p.
Definition wchan (p : Z) : kaddr := A_pipe_nwrite p.

Definition set_locked (b : bool) (s : pipe) : pipe :=
  Mk b (data s) (nread s) (nwrite s) (readopen s) (writeopen s) (freed s) (wakeups s).
Definition set_writeopen (b : bool) (s : pipe) : pipe :=
  Mk (locked s) (data s) (nread s) (nwrite s) (readopen s) b (freed s) (wakeups s).
Definition set_readopen (b : bool) (s : pipe) : pipe :=
  Mk (locked s) (data s) (nread s) (nwrite s) b (writeopen s) (freed s) (wakeups s).
Definition set_freed (b : bool) (s : pipe) : pipe :=
  Mk (locked s) (data s) (nread s) (nwrite s) (readopen s) (writeopen s) b (wakeups s).

Definition acquire : M pipe unit :=
  let! l := gets locked in
  if l then stop_with Spins else modify (set_locked true).
Definition release : M pipe unit :=
  let! l := gets locked in
  if l then modify (set_locked false) else panic "release".
Definition wakeup (c : kaddr) : M pipe unit :=
  modify (fun s => Mk (locked s) (data s) (nread s) (nwrite s) (readopen s) (writeopen s)
                      (freed s) (wakeups s ++ [c])).

(** [p->data[p->nwrite++ % PIPESIZE] = c] *)
Definition push (c : Z) (s : pipe) : pipe :=
  Mk (locked s) (<[Z.to_nat (nwrite s mod PIPESIZE) := c]> (data s))
     (nread s) (u32 (nwrite s + 1)) (readopen s) (writeopen s) (freed s) (wakeups s).

(** [p->data[p->nread++ % PIPESIZE]] *)
Definition pop (s : pipe) : Z * pipe :=
  (nth (Z.to_nat (nread s mod PIPESIZE)) (data s) 0,
   Mk (locked s) (data s) (u32 (nread s + 1)) (nwrite s) (readopen s) (writeopen s)
      (freed s) (wakeups s)).

(** What [pipealloc] leaves in the page [kalloc] returned, whose bytes are [d]. *)
Definition pipeinit (d : list Z) : pipe := Mk false d 0 0 true true false [].

Definition pipeclose (p : Z) (writable : bool) : M pipe unit :=
  acquire ;;;
  (if writable
   then modify (set_writeopen false) ;;; wakeup (rchan p)
   else modify (set_readopen false) ;;; wakeup (wchan p)) ;;;
  let! r := gets readopen in
  let! w := gets writeopen in
  if negb r && negb w
  then release ;;; modify (set_freed true)
  else release.

(** The body of [pipewrite]'s loop: [rest] is [addr[i..n)].  [killed] is
    [myproc()->killed] during the segment. *)
Fixpoint pipewrite_loop (p : Z) (killed : bool) (n : Z) (rest : list Z) {struct rest}
  : M pipe (segment (list Z) Z) :=
  match rest with
  | [] => wakeup (rchan p) ;;; release ;;; ret (Done n)
  | c :: rest' =>
      let! full := gets (fun s => bool_decide (nwrite s = u32 (nread s + PIPESIZE))) in
      if full then
        let! r := gets readopen in
        if negb r || killed then release ;;; ret (Done (-1))
        else wakeup (rchan p) ;;; release ;;; ret (Blocked (wchan p) rest)
      else modify (push c) ;;; pipewrite_loop p killed n rest'
  end.

(** [pipewrite(p, addr, n)] from its start, or from a wake-up with [rest] left. *)
Definition pipewrite (p : Z) (killed : bool) (n : Z) (rest : list Z)
  : M pipe (segment (list Z) Z) :=
  acquire ;;; pipewrite_loop p killed n rest.

(** The copying loop of [piperead], at most [k] bytes. *)
Fixpoint piperead_copy (k : nat) : M pipe (list Z) :=
  match k with
  | O => ret []
  | S k' =>
      let! empty := gets (fun s => bool_decide (nread s = nwrite s)) in
      if empty then ret []
      else let! c := (fun s => let '(c, s') := pop s in Ret c s') in
           let! cs := piperead_copy k' in
           ret (c :: cs)
  end.

(** [piperead(p, addr, n)]: the result is the return value and the bytes stored
    at [addr].  A segment that finds the pipe empty and open goes to sleep and
    starts over when woken up. *)
Definition piperead (p : Z) (killed : bool) (n : Z) : M pipe (segment unit (Z * list Z)) :=
  acquire ;;;
  let! wait := gets (fun s => bool_decide (nread s = nwrite s) && writeopen s) in
  if wait then
    if killed then release ;;; ret (Done (-1, []))
    else release ;;; ret (Blocked (rchan p) tt)
  else
    let! cs := piperead_copy (Z.to_nat n) in
    wakeup (wchan p) ;;;
    release ;;;
    ret (Done (Z.of_nat (length cs), cs)).

(** ** The abstract pipe *)

(** Bytes in the buffer, oldest first. *)
Definition count (s : pipe) : Z := u32 (nwrite s - nread s).
Definition contents (s : pipe) : list Z :=
  (fun k => nth (Z.to_nat ((nread s + Z.of_nat k) mod PIPESIZE)) (data s) 0)
    <$> seq 0 (Z.to_nat (count s)).

(** The invariant between segments. *)
Definition wf (s : pipe) : Prop :=
  length (data s) = Z.to_nat PIPESIZE /\
  0 <= nread s < 2 ^ 32 /\ 0 <= nwrite s < 2 ^ 32 /\
  0 <= count s <= PIPESIZE.

(** One segment of one of the processes that use the pipe, labelled with the
    bytes it put in (as many of its argument as the buffer grew by) and the
    bytes it took out. *)
Inductive step (p : Z) : pipe -> list Z -> list Z -> pipe -> Prop :=
| step_write killed n rest s s' res :
    pipewrite p killed n rest s = Ret res s' ->
    step p s (take (Z.to_nat (count s' - count s)) rest) [] s'
| step_read killed n s s' v cs :
    piperead p killed n s = Ret (Done (v, cs)) s' ->
    step p s [] cs s'
| step_read_block killed n s s' :
    piperead p killed n s = Ret (Blocked (rchan p) tt) s' ->
    step p s [] [] s'
| step_close writable s s' :
    pipeclose p writable s = Ret tt s' ->
    step p s [] [] s'.

(** ** Counters and the ring buffer *)

Lemma contents_length s : length (contents s) = Z.to_nat (count s).
Proof. unfold contents. by rewrite length_fmap, length_seq. Qed.

Lemma full_iff s : wf s ->
  nwrite s = u32 (nread s + PIPESIZE) <-> count s = PIPESIZE.
Proof.
  intros (_ & Hr & Hw & _). unfold count, u32, PIPESIZE in *. split; intros H.
  - rewrite H, Zminus_mod_idemp_l. replace (nread s + 512 - nread s) with 512 by lia. done.
  - assert (nwrite s = (nread s + (nwrite s - nread s)) mod 2 ^ 32) as E.
    { replace (nread s + (nwrite s - nread s)) with (nwrite s) by lia. by rewrite Z.mod_small. }
    rewrite E, <- Zplus_mod_idemp_r, H. done.
Qed.

Lemma empty_iff s : wf s -> nread s = nwrite s <-> count s = 0.
Proof.
  intros (_ & Hr & Hw & _). unfold count, u32. split; intros H.
  - rewrite H, Z.sub_diag. done.
  - destruct (decide (nread s <= nwrite s)).
    + rewrite Z.mod_small in H; lia.
    + rewrite <- (Z.mod_add _ 1), Z.mod_small in H; lia.
Qed.

Lemma index_lt x : (Z.to_nat (x mod PIPESIZE) < Z.to_nat PIPESIZE)%nat.
Proof. unfold PIPESIZE. pose proof (Z.mod_pos_bound x 512). lia. Qed.

(** Distinct offsets below [PIPESIZE] from one counter hit distinct cells. *)
Lemma index_inj x a b : 0 <= a < PIPESIZE -> 0 <= b < PIPESIZE ->
  Z.to_nat ((x + a) mod PIPESIZE) = Z.to_nat ((x + b) mod PIPESIZE) -> a = b.
Proof.
  unfold PIPESIZE. intros Ha Hb H.
  pose proof (Z.mod_pos_bound (x + a) 512). pose proof (Z.mod_pos_bound (x + b) 512).
  assert ((x + a) mod 512 = (x + b) mod 512) as E by lia.
  pose proof (Z.div_mod (x + a) 512). pose proof (Z.div_mod (x + b) 512). lia.
Qed.

(** The write index, seen from the read index. *)
Lemma write_index s : wf s -> nwrite s mod PIPESIZE = (nread s + count s) mod PIPESIZE.
Proof.
  intros (_ & _ & Hw & _). unfold count.
  assert (nwrite s = u32 (nread s + u32 (nwrite s - nread s))) as E.
  { rewrite u32_add_r. replace (nread s + (nwrite s - nread s)) with (nwrite s) by lia.
    by rewrite u32_small. }
  rewrite E at 1. apply u32_mod_divisor; [by exists 8388608 | done].
Qed.

Lemma count_push c s : wf s -> count s < PIPESIZE -> count (push c s) = count s + 1.
Proof.
  intros (_ & _ & _ & Hc) Hlt. unfold count, push in *; simpl.
  rewrite u32_sub_l. replace (nwrite s + 1 - nread s) with ((nwrite s - nread s) + 1) by lia.
  rewrite <- u32_add_l. apply u32_small. unfold PIPESIZE in *. lia.
Qed.

Lemma push_wf c s : wf s -> count s < PIPESIZE -> wf (push c s).
Proof.
  intros Hwf Hlt. pose proof (count_push c s Hwf Hlt) as E.
  destruct Hwf as (Hlen & Hr & Hw & Hc). split_and!; simpl.
  - by rewrite length_insert.
  - lia.
  - lia.
  - apply u32_range.
  - apply u32_range.
  - lia.
  - lia.
Qed.

Lemma push_contents c s : wf s -> count s < PIPESIZE ->
  contents (push c s) = contents s ++ [c].
Proof.
  intros Hwf Hlt. unfold contents at 1. rewrite (count_push c s Hwf Hlt).
  pose proof Hwf as (Hlen & _ & _ & Hc).
  replace (Z.to_nat (count s + 1)) with (Z.to_nat (count s) + 1)%nat by lia.
  rewrite seq_app, fmap_app. f_equal.
  - apply list_fmap_ext. intros i k Hk. apply lookup_seq in Hk as [-> Hk].
    unfold push; simpl. rewrite (write_index s Hwf).
    rewrite !nth_lookup, list_lookup_insert_ne; [done|].
    intros E. apply index_inj in E; unfold PIPESIZE in *; lia.
  - unfold push; simpl. rewrite Z2Nat.id by lia. rewrite (write_index s Hwf).
    rewrite nth_lookup, list_lookup_insert_eq; [done|].
    rewrite Hlen. apply index_lt.
Qed.

Lemma next_index x k : (u32 (x + 1) + k) mod PIPESIZE = (x + (k + 1)) mod PIPESIZE.
Proof.
  rewrite <- Zplus_mod_idemp_l, (u32_mod_divisor (x + 1)) by (by exists 8388608 || done).
  rewrite Zplus_mod_idemp_l. f_equal. lia.
Qed.

Lemma pop_spec s : wf s -> 0 < count s ->
  let '(c, s') := pop s in
  wf s' /\ count s' = count s - 1 /\ contents s = c :: contents s'.
Proof.
  intros Hwf Hpos. pose proof Hwf as (Hlen & Hr & Hw & Hc). unfold pop.
  set (s' := Mk _ _ _ _ _ _ _ _).
  assert (count s' = count s - 1) as E.
  { unfold count, s' in *; simpl. rewrite u32_sub_r.
    replace (nwrite s - (nread s + 1)) with ((nwrite s - nread s) - 1) by lia.
    rewrite <- u32_sub_l. apply u32_small. unfold PIPESIZE in *. lia. }
  split_and!.
  - unfold wf. rewrite E. unfold s'; simpl. pose proof (u32_range (nread s + 1)).
    split_and!; lia.
  - done.
  - unfold contents. rewrite E.
    replace (Z.to_nat (count s)) with (S (Z.to_nat (count s - 1))) by lia.
    simpl. f_equal.
    + do 2 f_equal. f_equal. lia.
    + rewrite <- fmap_S_seq, <- list_fmap_compose.
      apply list_fmap_ext. intros i k _. simpl. do 2 f_equal.
      rewrite next_index. f_equal. lia.
Qed.

(** ** The two transfer loops *)

(** What a write segment does with [rest] when the buffer holds [count s] bytes:
    [room s rest] of them fit. *)
Definition room (s : pipe) (rest : list Z) : nat :=
  Nat.min (length rest) (Z.to_nat (PIPESIZE - count s)).

Definition write_result (p : Z) (killed : bool) (n : Z) (s : pipe) (rest : list Z)
  : segment (list Z) Z :=
  if decide (room s rest = length rest) then Done n
  else if negb (readopen s) || killed then Done (-1)
  else Blocked (wchan p) (drop (room s rest) rest).

Definition write_wakeups (p : Z) (killed : bool) (s : pipe) (rest : list Z) : list kaddr :=
  if decide (room s rest = length rest) then [rchan p]
  else if negb (readopen s) || killed then [] else [rchan p].

(** The fields a transfer does not touch. *)
Definition same_ends (s s' : pipe) : Prop :=
  readopen s' = readopen s /\ writeopen s' = writeopen s /\ freed s' = freed s.

Lemma room_full s c rest : wf s -> count s = PIPESIZE -> room s (c :: rest) = 0%nat.
Proof. intros _ H. unfold room. rewrite H. unfold PIPESIZE. simpl. lia. Qed.

Lemma room_push s c rest : wf s -> count s < PIPESIZE ->
  room s (c :: rest) = S (room (push c s) rest).
Proof.
  intros Hwf H. unfold room. rewrite (count_push c s Hwf H). cbn [length].
  destruct Hwf as (_ & _ & _ & ?). unfold PIPESIZE in *. lia.
Qed.

Lemma pipewrite_loop_spec p killed n rest s :
  wf s -> locked s = true ->
  exists s', pipewrite_loop p killed n rest s = Ret (write_result p killed n s rest) s' /\
    wf s' /\ locked s' = false /\ same_ends s s' /\
    contents s' = contents s ++ take (room s rest) rest /\
    wakeups s' = wakeups s ++ write_wakeups p killed s rest.
Proof.
  revert s. induction rest as [|c rest IH]; intros s Hwf Hl.
  - unfold write_result, write_wakeups, room. simpl.
    eexists. unfold wakeup, release. mrun. simpl. rewrite Hl.
    split_and!; try done. by rewrite app_nil_r.
  - simpl. unfold bind at 1, gets at 1.
    destruct (decide (count s = PIPESIZE)) as [Hfull|Hnot].
    + rewrite bool_decide_true by (by apply full_iff).
      unfold write_result, write_wakeups. rewrite (room_full s c rest Hwf Hfull).
      rewrite !decide_False by done. simpl.
      unfold wakeup, release. mrun. simpl.
      destruct (negb (readopen s) || killed); simpl; rewrite Hl;
        eexists; (split; [reflexivity|]); split_and!; by rewrite ?app_nil_r.
    + rewrite bool_decide_false by (by rewrite full_iff).
      assert (count s < PIPESIZE) as Hlt by (destruct Hwf as (_ & _ & _ & ?); lia).
      unfold bind, modify.
      destruct (IH (push c s)) as (s' & E & Hwf' & Hl' & Hends & Hc & Hw);
        [by apply push_wf | done |].
      exists s'. unfold write_result, write_wakeups in *.
      rewrite (room_push s c rest Hwf Hlt). simpl length in *.
      rewrite E, Hc, Hw, (push_contents c s Hwf Hlt). simpl.
      split_and!; try done.
      * do 2 destruct decide; (done || lia).
      * rewrite <- app_assoc. done.
      * f_equal. do 2 destruct decide; (done || lia).
Qed.

Lemma piperead_copy_spec k s : wf s ->
  exists cs s', piperead_copy k s = Ret cs s' /\
    wf s' /\ locked s' = locked s /\ same_ends s s' /\ wakeups s' = wakeups s /\
    cs = take k (contents s) /\ contents s' = drop k (contents s).
Proof.
  revert s. induction k as [|k IH]; intros s Hwf.
  - exists [], s. split_and!; done.
  - simpl. unfold bind at 1, gets.
    destruct (decide (count s = 0)) as [H0|Hpos].
    + rewrite bool_decide_true by (by apply empty_iff).
      assert (contents s = []) as Hnil.
      { apply length_zero_iff_nil. rewrite contents_length. lia. }
      exists [], s. rewrite Hnil. split_and!; done.
    + rewrite bool_decide_false by (by rewrite empty_iff).
      assert (0 < count s) as Hp by (destruct Hwf as (_ & _ & _ & ?); lia).
      pose proof (pop_spec s Hwf Hp) as H. unfold pop in *. unfold bind at 1.
      set (s1 := Mk _ _ _ _ _ _ _ _) in *. destruct H as (Hwf1 & _ & Hcs).
      destruct (IH s1 Hwf1) as (cs & s' & E & Hwf' & Hl & Hends & Hw & -> & Hc).
      rewrite (bind_ret _ _ _ _ _ E). eexists _, s'. rewrite Hcs.
      split; [reflexivity|]. split_and!; done.
Qed.

Lemma pipewrite_seg p killed n rest s :
  wf s -> locked s = false ->
  exists s', pipewrite p killed n rest s = Ret (write_result p killed n s rest) s' /\
    wf s' /\ locked s' = false /\ same_ends s s' /\
    contents s' = contents s ++ take (room s rest) rest /\
    wakeups s' = wakeups s ++ write_wakeups p killed s rest.
Proof.
  intros Hwf Hl. unfold pipewrite, acquire, bind at 1 2, gets. rewrite Hl.
  unfold modify. apply (pipewrite_loop_spec p killed n rest (set_locked true s)); done.
Qed.

Lemma piperead_seg p killed n s :
  wf s -> locked s = false ->
  exists res s', piperead p killed n s = Ret res s' /\
    wf s' /\ locked s' = false /\ same_ends s s' /\
    (if bool_decide (count s = 0) && writeopen s
     then res = (if killed then Done (-1, []) else Blocked (rchan p) tt) /\
          contents s' = contents s /\ wakeups s' = wakeups s
     else let cs := take (Z.to_nat n) (contents s) in
          res = Done (Z.of_nat (length cs), cs) /\
          contents s' = drop (Z.to_nat n) (contents s) /\
          wakeups s' = wakeups s ++ [wchan p]).
Proof.
  intros Hwf Hl. unfold piperead, acquire, bind at 1 2, gets at 1. rewrite Hl.
  unfold modify at 1, bind at 1, gets. simpl.
  rewrite (bool_decide_ext _ _ (empty_iff s Hwf)).
  destruct (bool_decide (count s = 0) && writeopen s).
  - unfold release. destruct killed; mrun; simpl; do 2 eexists; split_and!; done.
  - destruct (piperead_copy_spec (Z.to_nat n) (set_locked true s))
      as (cs & s' & E & Hwf' & Hl' & Hends & Hw & -> & Hc); [done|].
    unfold bind at 1. rewrite E. unfold wakeup, release. mrun. simpl.
    rewrite Hl'. simpl. do 2 eexists; split_and!; try done. simpl. by rewrite Hw.
Qed.

Lemma pipeclose_spec p writable s : locked s = false ->
  exists s', pipeclose p writable s = Ret tt s' /\
    data s' = data s /\ nread s' = nread s /\ nwrite s' = nwrite s /\ locked s' = false /\
    readopen s' = (if writable then readopen s else false) /\
    writeopen s' = (if writable then false else writeopen s) /\
    freed s' = (if (if writable then readopen s else writeopen s) then freed s else true).
Proof.
  intros Hl. unfold pipeclose, acquire, wakeup, release.
  destruct s as [l d r w ro wo f wk]. mrun. simpl in *. rewrite Hl.
  destruct writable, ro, wo; simpl; eexists; split_and!; done.
Qed.

(** An execution: any interleaving of segments of any processes. *)
Inductive steps (p : Z) : pipe -> list Z -> list Z -> pipe -> Prop :=
| steps_refl s : steps p s [] [] s
| steps_step s w r s1 w' r' s' :
    step p s w r s1 -> steps p s1 w' r' s' -> steps p s (w ++ w') (r ++ r') s'.

(** A segment that runs found the lock free. *)
Lemma step_unlocked p s w r s' : step p s w r s' -> locked s = false.
Proof.
  intros Hs. destruct (locked s) eqn:E; [|done].
  inversion Hs; subst;
    unfold pipewrite, piperead, pipeclose, acquire, bind, gets in *;
    by rewrite E in *.
Qed.

Lemma step_fifo p s w r s' : wf s -> step p s w r s' ->
  wf s' /\ locked s' = false /\ contents s ++ w = r ++ contents s'.
Proof.
  intros Hwf Hs. pose proof (step_unlocked _ _ _ _ _ Hs) as Hl. inversion Hs; subst.
  - destruct (pipewrite_seg p killed n rest s Hwf Hl) as (s1 & E & Hwf1 & Hl1 & _ & Hc & _).
    det. split; [done|]. split; [done|]. rewrite Hc. simpl. f_equal.
    assert (Z.to_nat (count s1 - count s) = room s rest) as ->; [|done].
    pose proof (contents_length s1). pose proof (contents_length s).
    apply (f_equal length) in Hc. rewrite length_app, length_take in Hc.
    destruct Hwf as (_ & _ & _ & ?), Hwf1 as (_ & _ & _ & ?). unfold room in *. lia.
  - destruct (piperead_seg p killed n s Hwf Hl) as (res & s1 & E & Hwf1 & Hl1 & _ & Hr).
    det. rewrite app_nil_r.
    destruct (bool_decide (count s = 0) && writeopen s).
    + destruct Hr as (Hr & Hc & _). destruct killed; simplify_eq. done.
    + destruct Hr as (Hr & Hc & _). simplify_eq. split; [done|]. split; [done|].
      by rewrite Hc, take_drop.
  - destruct (piperead_seg p killed n s Hwf Hl) as (res & s1 & E & Hwf1 & Hl1 & _ & Hr).
    det. rewrite app_nil_r.
    destruct (bool_decide (count s = 0) && writeopen s); [|by destruct Hr].
    destruct Hr as (_ & Hc & _). done.
  - destruct (pipeclose_spec p writable s Hl) as (s1 & E & Hd & Hr & Hw & Hl1 & _).
    det. rewrite app_nil_r. unfold wf, contents, count in *. by rewrite Hd, Hr, Hw.
Qed.

(** ** Theorems *)

(** A write segment on an unlocked well-formed pipe always ends, with the
    lock released.  It appends to the buffer exactly the bytes that fit.  When
    all of them fit it returns [n]; otherwise it returns -1 if the read end is
    closed or the caller was killed, and else sleeps on [&p->nwrite] with the
    rest still to write.  Readers are woken in every case but the -1 one. *)
Theorem pipewrite_spec p killed n rest s :
  wf s -> locked s = false ->
  exists s', pipewrite p killed n rest s = Ret (write_result p killed n s rest) s' /\
    wf s' /\ locked s' = false /\ same_ends s s' /\
    contents s' = contents s ++ take (room s rest) rest /\
    wakeups s' = wakeups s ++ write_wakeups p killed s rest.
Proof. apply pipewrite_seg. Qed.

(** A read segment on an unlocked well-formed pipe always ends, with the
    lock released.  If the buffer is empty and the write end is open it returns
    -1 when the caller was killed and else sleeps on [&p->nread], changing
    nothing.  Otherwise it returns the oldest [min n count] bytes (none only at
    end of file), removes them, and wakes the writers. *)
Theorem piperead_spec p killed n s :
  wf s -> locked s = false ->
  exists res s', piperead p killed n s = Ret res s' /\
    wf s' /\ locked s' = false /\ same_ends s s' /\
    (if bool_decide (count s = 0) && writeopen s
     then res = (if killed then Done (-1, []) else Blocked (rchan p) tt) /\
          contents s' = contents s /\ wakeups s' = wakeups s
     else let cs := take (Z.to_nat n) (contents s) in
          res = Done (Z.of_nat (length cs), cs) /\
          contents s' = drop (Z.to_nat n) (contents s) /\
          wakeups s' = wakeups s ++ [wchan p]).
Proof. apply piperead_seg. Qed.

(** C17: a pipe is a bounded first-in first-out queue.  From a new pipe, in every
    interleaving of writers, readers and closers, and across wrap-around of both
    32-bit counters, the bytes delivered to readers followed by the bytes in the
    buffer are the bytes accepted from writers, in order, and the buffer never
    holds more than [PIPESIZE]. *)
Theorem pipe_fifo p d sent received s :
  length d = Z.to_nat PIPESIZE ->
  steps p (pipeinit d) sent received s ->
  wf s /\ locked s = false /\ sent = received ++ contents s /\
  (length (contents s) <= Z.to_nat PIPESIZE)%nat.
Proof.
  intros Hd Hs.
  assert (forall s0, wf s0 -> locked s0 = false -> steps p s0 sent received s ->
          wf s /\ locked s = false /\ contents s0 ++ sent = received ++ contents s) as Hgen.
  { clear Hs. intros s0 Hwf Hl Hs. induction Hs as [s0|s0 w r s1 w' r' s2 Hs Hss IH].
    - by rewrite app_nil_r.
    - destruct (step_fifo _ _ _ _ _ Hwf Hs) as (Hwf1 & Hl1 & E1).
      destruct (IH Hwf1 Hl1) as (Hwf2 & Hl2 & E2).
      split; [done|]. split; [done|]. by rewrite app_assoc, E1, <- !app_assoc, E2. }
  destruct (Hgen (pipeinit d)) as (Hwf & Hl & E); [|done|done|].
  { unfold wf, count, pipeinit, u32, PIPESIZE in *; simpl. split_and!; (done || lia). }
  split; [done|]. split; [done|]. split; [done|].
  rewrite contents_length. destruct Hwf as (_ & _ & _ & ?). lia.
Qed.

(** ** Witnesses *)

(** A page of zeroes, as a new pipe's buffer. *)
Definition zero_page : list Z := replicate 512 0.

(** Three bytes into a new pipe: all fit. *)
Lemma pipewrite_spec_witness :
  exists s', pipewrite 7 false 3 [10; 20; 30] (pipeinit zero_page) = Ret (Done 3) s' /\
    contents s' = [10; 20; 30].
Proof.
  destruct (pipewrite_spec 7 false 3 [10; 20; 30] (pipeinit zero_page))
    as (s' & E & _ & _ & _ & Hc & _); [vm_compute; intuition congruence | done |].
  exists s'. split.
  - rewrite E. by f_equal; vm_compute.
  - rewrite Hc. by vm_compute.
Defined.

(** A pipe that holds three bytes, after its counters have wrapped around. *)
Definition wrapped : pipe :=
  push 30 (push 20 (push 10 (Mk false zero_page (2 ^ 32 - 2) (2 ^ 32 - 2) true true false []))).

Lemma piperead_spec_witness :
  exists s', piperead 7 false 2 wrapped = Ret (Done (2, [10; 20])) s' /\ contents s' = [30].
Proof.
  destruct (piperead_spec 7 false 2 wrapped) as (res & s' & E & _ & _ & _ & H);
    [vm_compute; intuition congruence | done |].
  replace (bool_decide (count wrapped = 0) && writeopen wrapped) with false in H
    by (vm_compute; reflexivity).
  destruct H as (-> & Hc & _). exists s'. split.
  - rewrite E. by f_equal; vm_compute.
  - rewrite Hc. by vm_compute.
Defined.

Lemma pipe_fifo_witness :
  exists s, steps 7 (pipeinit zero_page) [10; 20; 30] [10; 20] s /\
    [10; 20; 30] = [10; 20] ++ contents s.
Proof.
  pose (s1 := Mk false (<[2%nat := 30]> (<[1%nat := 20]> (<[0%nat := 10]> zero_page)))
                 0 3 true true false [rchan 7]).
  pose (s2 := Mk false (data s1) 2 3 true true false [rchan 7; wchan 7]).
  assert (steps 7 (pipeinit zero_page) [10; 20; 30] [10; 20] s2) as Hs.
  { apply (steps_step 7 _ [10; 20; 30] [] s1 [] [10; 20] s2).
    - pose proof (step_write 7 false 3 [10; 20; 30] (pipeinit zero_page) s1 (Done 3)) as H.
      replace (take _ _) with [10; 20; 30] in H by (by vm_compute). apply H. by vm_compute.
    - apply (steps_step 7 _ [] [10; 20] s2 [] [] s2); [|constructor].
      apply (step_read 7 false 2 s1 s2 2). by vm_compute. }
  exists s2. split; [exact Hs|].
  apply (pipe_fifo 7 zero_page [10; 20; 30] [10; 20] s2 eq_refl Hs).
Defined.

End Pipe.
