(* ===== verification/Console.v ===== *)
(** The console: src/xv6-public/console.c.

    Input characters go into a ring buffer with three free-running 32-bit indices:
    [r] where readers take, [w] up to where lines are complete, [e] where editing
    takes place.  A reader runs in segments between calls of [sleep], each of
    them under the lock; interrupts come in between. *)

From S2P Require Import Prelude.

Module Console.

(** ** State *)

Definition INPUT_BUF : Z := 128.
Definition BACKSPACE : Z := 0x100.

(** Calls of [iunlock] and [ilock] on the inode of the device. *)
Inductive icall :=
| IUnlock (ip : nat)
| ILock (ip : nat).

(** [cons], [panicked], [input], the screen memory [crt] with the cursor registers of the
    display controller, the bytes given to [uartputc], and the calls made of
    [wakeup] and of the inode lock. *)
Record console := Mk {
  locked : bool;
  locking : bool;
  panicked : bool;
  buf : list Z;
  r : Z;
  w : Z;
  e : Z;
  crt : list Z;
  crtindex : Z;
  crthi : Z;
  crtlo : Z;
  uart : list Z;
  wakeups : list kaddr;
  icalls : list icall
}.

Definition set_locked (b : bool) (s : console) : console :=
  Mk b (locking s) (panicked s) (buf s) (r s) (w s) (e s) (crt s) (crtindex s) (crthi s) (crtlo s) (uart s) (wakeups s) (icalls s).
Definition set_locking (b : bool) (s : console) : console :=
  Mk (locked s) b (panicked s) (buf s) (r s) (w s) (e s) (crt s) (crtindex s) (crthi s) (crtlo s) (uart s) (wakeups s) (icalls s).
Definition set_panicked (b : bool) (s : console) : console :=
  Mk (locked s) (locking s) b (buf s) (r s) (w s) (e s) (crt s) (crtindex s) (crthi s) (crtlo s) (uart s) (wakeups s) (icalls s).
Definition set_buf (i : Z) (c : Z) (s : console) : console :=
  Mk (locked s) (locking s) (panicked s) (<[Z.to_nat i := c]> (buf s)) (r s) (w s) (e s) (crt s) (crtindex s) (crthi s) (crtlo s) (uart s) (wakeups s) (icalls s).
Definition set_r (v : Z) (s : console) : console :=
  Mk (locked s) (locking s) (panicked s) (buf s) v (w s) (e s) (crt s) (crtindex s) (crthi s) (crtlo s) (uart s) (wakeups s) (icalls s).
Definition set_w (v : Z) (s : console) : console :=
  Mk (locked s) (locking s) (panicked s) (buf s) (r s) v (e s) (crt s) (crtindex s) (crthi s) (crtlo s) (uart s) (wakeups s) (icalls s).
Definition set_e (v : Z) (s : console) : console :=
  Mk (locked s) (locking s) (panicked s) (buf s) (r s) (w s) v (crt s) (crtindex s) (crthi s) (crtlo s) (uart s) (wakeups s) (icalls s).
Definition set_crt (l : list Z) (s : console) : console :=
  Mk (locked s) (locking s) (panicked s) (buf s) (r s) (w s) (e s) l (crtindex s) (crthi s) (crtlo s) (uart s) (wakeups s) (icalls s).
Definition set_regs (i hi lo : Z) (s : console) : console :=
  Mk (locked s) (locking s) (panicked s) (buf s) (r s) (w s) (e s) (crt s) i hi lo (uart s) (wakeups s) (icalls s).
Definition set_uart (l : list Z) (s : console) : console :=
  Mk (locked s) (locking s) (panicked s) (buf s) (r s) (w s) (e s) (crt s) (crtindex s) (crthi s) (crtlo s) l (wakeups s) (icalls s).

Definition acquire : M console unit :=
  let! l := gets locked in if l then stop_with Spins else modify (set_locked true).
Definition release : M console unit :=
  let! l := gets locked in if l then modify (set_locked false) else panic "release".
Definition wakeup (c : kaddr) : M console unit :=
  modify (fun s => Mk (locked s) (locking s) (panicked s) (buf s) (r s) (w s) (e s) (crt s) (crtindex s) (crthi s) (crtlo s) (uart s)
                      (wakeups s ++ [c]) (icalls s)).
Definition icall_ (c : icall) : M console unit :=
  modify (fun s => Mk (locked s) (locking s) (panicked s) (buf s) (r s) (w s) (e s) (crt s) (crtindex s) (crthi s) (crtlo s) (uart s)
                      (wakeups s) (icalls s ++ [c])).

(** ** The screen *)

(** The ports of the display controller: [CRTPORT] selects a register, [CRTPORT+1]
    reads or writes it; registers 14 and 15 are the two bytes of the cursor
    position. *)
Definition outb_index (i : Z) : M console unit := modify (fun s => set_regs i (crthi s) (crtlo s) s).
Definition outb_data (v : Z) : M console unit :=
  modify (fun s => set_regs (crtindex s) (if decide (crtindex s = 14) then u8 v else crthi s)
                            (if decide (crtindex s = 15) then u8 v else crtlo s) s).
Definition inb_data : M console Z :=
  gets (fun s => if decide (crtindex s = 14) then crthi s else if decide (crtindex s = 15) then crtlo s else 0).

Definition crt_store (pos c : Z) : M console unit := modify (fun s => set_crt (<[Z.to_nat pos := c]> (crt s)) s).

(** [memmove(crt, crt+80, ..23*80)] and [memset(crt+pos, 0, ..(24*80 - pos))] *)
Definition crt_scroll (pos : Z) : M console unit :=
  modify (fun s => set_crt (take 1840 (drop 80 (crt s)) ++ drop 1840 (crt s)) s) ;;;
  modify (fun s => set_crt (take (Z.to_nat pos) (crt s) ++ replicate (1920 - Z.to_nat pos) 0 ++ drop 1920 (crt s)) s).

Definition cgaputc (c : Z) : M console unit :=
  outb_index 14 ;;;
  let! hi := inb_data in
  outb_index 15 ;;;
  let! lo := inb_data in
  let pos := Z.lor (Z.shiftl hi 8) lo in
  let! pos :=
    (if decide (c = 10) then ret (pos + (80 - pos mod 80))
     else if decide (c = BACKSPACE) then ret (if decide (0 < pos) then pos - 1 else pos)
     else crt_store pos (Z.lor (Z.land c 0xff) 0x0700) ;;; ret (pos + 1)) in
  if decide (pos < 0 \/ 25 * 80 < pos) then panic "pos under/overflow" else
  let! pos := (if decide (24 <= pos / 80) then crt_scroll (pos - 80) ;;; ret (pos - 80) else ret pos) in
  outb_index 14 ;;;
  outb_data (Z.shiftr pos 8) ;;;
  outb_index 15 ;;;
  outb_data pos ;;;
  crt_store pos (Z.lor 32 0x0700).

Definition uartputc (c : Z) : M console unit := modify (fun s => set_uart (uart s ++ [u8 c]) s).

Definition consputc (c : Z) : M console unit :=
  let! p := gets panicked in
  if p then stop_with Spins else
  (if decide (c = BACKSPACE) then uartputc 8 ;;; uartputc 32 ;;; uartputc 8 else uartputc c) ;;;
  cgaputc c.

(** ** Formatted output *)

Definition lower_digits : list Z :=
  (fun c => Z.of_nat (Ascii.nat_of_ascii c)) <$> String.list_ascii_of_string "0123456789abcdef".
Definition str (s : string) : list Z := (fun c => Z.of_nat (Ascii.nat_of_ascii c)) <$> String.list_ascii_of_string s.

(** The digits of a number, least significant first; 32 are enough for 32 bits. *)
Fixpoint digits_loop (fuel : nat) (x base : Z) : list Z :=
  match fuel with
  | O => []
  | S fuel' => nth (Z.to_nat (x mod base)) lower_digits 0 ::
               (if decide (x / base = 0) then [] else digits_loop fuel' (x / base) base)
  end.

Definition printint (xx base : Z) (sign : bool) : M console unit :=
  let sign := sign && bool_decide (xx < 0) in
  let x := u32 (if sign then - xx else xx) in
  forM (rev (digits_loop 32 x base ++ (if sign then [45] else []))) consputc.

(** Arguments: words, and pointers to strings ([None] is the null pointer). *)
Inductive carg :=
| CInt (v : Z)
| CStr (s : option (list Z)).

(** The loop of [cprintf] over the rest of the format. *)
Fixpoint cprintf_loop (fmt : list Z) (argp : list carg) : M console unit :=
  match fmt with
  | [] => ret tt
  | c :: fmt1 =>
      if decide (c <> 37) then consputc c ;;; cprintf_loop fmt1 argp else
      match fmt1 with
      | [] => ret tt
      | c :: fmt2 =>
          if decide (c = 100) then
            match argp with
            | CInt v :: argp' => printint (i32 v) 10 true ;;; cprintf_loop fmt2 argp'
            | _ => stop_with Undefined
            end
          else if decide (c = 120 \/ c = 112) then
            match argp with
            | CInt v :: argp' => printint (i32 v) 16 false ;;; cprintf_loop fmt2 argp'
            | _ => stop_with Undefined
            end
          else if decide (c = 115) then
            match argp with
            | CStr s :: argp' => forM (default (str "(null)") s) consputc ;;; cprintf_loop fmt2 argp'
            | _ => stop_with Undefined
            end
          else if decide (c = 37) then consputc 37 ;;; cprintf_loop fmt2 argp
          else consputc 37 ;;; consputc c ;;; cprintf_loop fmt2 argp
      end
  end.

(** [fmt] is [None] for a null pointer. *)
Definition cprintf (fmt : option (list Z)) (argp : list carg) : M console unit :=
  let! locking := gets locking in
  (if locking then acquire else ret tt) ;;;
  match fmt with
  | None => panic "null fmt"
  | Some fmt => cprintf_loop fmt argp
  end ;;;
  (if locking then release else ret tt).

(** [panic(s)]: [id] is the number of the processor, [pcs] the return addresses
    [getcallerpcs] finds.  It never returns. *)
Definition kpanic (id : Z) (s : list Z) (pcs : list Z) : M console unit :=
  modify (set_locking false) ;;;
  cprintf (Some (str "lapicid %d: panic: ")) [CInt id] ;;;
  cprintf (Some s) [] ;;;
  cprintf (Some [10]) [] ;;;
  forM (take 10 pcs) (fun pc => cprintf (Some (str " %p")) [CInt pc]) ;;;
  modify (set_panicked true) ;;;
  stop_with Spins.

(** ** Input *)

(** [C(x)] *)
Definition C (x : Z) : Z := x - 64.

Definition buf_at (i : Z) : M console Z := gets (fun s => nth (Z.to_nat (i mod INPUT_BUF)) (buf s) 0).

(** The loop of the kill character; the buffer has [INPUT_BUF] cells. *)
Fixpoint kill_line (fuel : nat) : M console unit :=
  match fuel with
  | O => stop_with Spins
  | S fuel' =>
      let! e0 := gets e in
      let! w0 := gets w in
      let! c := buf_at (u32 (e0 - 1)) in
      if decide (e0 <> w0 /\ c <> 10) then
        modify (set_e (u32 (e0 - 1))) ;;;
        consputc BACKSPACE ;;;
        kill_line fuel'
      else ret tt
  end.

(** One character of [consoleintr]; the result says that it asks for a process listing. *)
Definition consolekey (c : Z) : M console bool :=
  if decide (c = C 80) then ret true
  else if decide (c = C 85) then kill_line (Z.to_nat INPUT_BUF + 1) ;;; ret false
  else if decide (c = C 72 \/ c = 127) then
    let! e0 := gets e in
    let! w0 := gets w in
    (if decide (e0 <> w0) then modify (set_e (u32 (e0 - 1))) ;;; consputc BACKSPACE else ret tt) ;;;
    ret false
  else
    let! e0 := gets e in
    let! r0 := gets r in
    (if decide (c <> 0 /\ u32 (e0 - r0) < INPUT_BUF) then
       let c := if decide (c = 13) then 10 else c in
       modify (set_buf (e0 mod INPUT_BUF) (u8 c)) ;;;
       modify (set_e (u32 (e0 + 1))) ;;;
       consputc c ;;;
       let! e1 := gets e in
       if decide (c = 10 \/ c = C 68 \/ e1 = u32 (r0 + INPUT_BUF)) then
         modify (set_w e1) ;;; wakeup A_input_r
       else ret tt
     else ret tt) ;;;
    ret false.

Fixpoint consoleintr_loop (keys : list Z) (doprocdump : bool) : M console bool :=
  match keys with
  | [] => ret doprocdump
  | c :: keys' =>
      let! d := consolekey c in
      consoleintr_loop keys' (doprocdump || d)
  end.

(** [consoleintr(getc)]: [keys] are the characters [getc] delivers until it has no more.  The result
    says whether the caller goes on to [procdump()]. *)
Definition consoleintr (keys : list Z) : M console bool :=
  acquire ;;;
  let! d := consoleintr_loop keys false in
  release ;;;
  ret d.

(** The loop of [consoleread]: [n] bytes are still wanted of [target], [got] have been stored.  It ends
    with a count, or because the process has been killed. *)
Fixpoint consoleread_loop (fuel : nat) (killed : bool) (target n : Z) (got : list Z)
  : M console (segment (Z * list Z) (bool * (Z * list Z))) :=
  match fuel with
  | O => stop_with Spins
  | S fuel' =>
      if decide (n <= 0) then ret (Done (true, (n, got))) else
      let! r0 := gets r in
      let! w0 := gets w in
      if decide (r0 = w0) then
        if killed then ret (Done (false, (n, got))) else ret (Blocked A_input_r (n, got))
      else
      let! c := buf_at r0 in
      modify (set_r (u32 (r0 + 1))) ;;;
      if decide (c = C 68) then
        (if decide (n < target) then let! r1 := gets r in modify (set_r (u32 (r1 - 1))) else ret tt) ;;;
        ret (Done (true, (n, got)))
      else
      let got := got ++ [c] in
      if decide (c = 10) then ret (Done (true, (n - 1, got)))
      else consoleread_loop fuel' killed target (n - 1) got
  end.

(** A segment of [consoleread], from its start or from a wake-up with [k] still wanted and stored.  The
    result is the return value and the bytes stored. *)
Definition consoleread_again (ip : nat) (killed : bool) (target : Z) (k : Z * list Z) : M console (segment (Z * list Z) (Z * list Z)) :=
  acquire ;;;
  let! x := consoleread_loop (Z.to_nat k.1 + 1) killed target k.1 k.2 in
  match x with
  | Done (ok, (n, got)) => release ;;; icall_ (ILock ip) ;;; ret (Done (if ok : bool then target - n else -1, got))
  | Blocked c k => release ;;; ret (Blocked c k)
  end.

Definition consoleread (ip : nat) (killed : bool) (n : Z) : M console (segment (Z * list Z) (Z * list Z)) :=
  icall_ (IUnlock ip) ;;;
  consoleread_again ip killed n (n, []).

Definition consolewrite (ip : nat) (l : list Z) (n : Z) : M console Z :=
  icall_ (IUnlock ip) ;;;
  acquire ;;;
  forM (take (Z.to_nat n) l) (fun c => consputc (Z.land c 0xff)) ;;;
  release ;;;
  icall_ (ILock ip) ;;;
  ret n.

(** [initlock] and the switch to locked output; the device switch is set by the caller of the model. *)
Definition consoleinit : M console unit := modify (set_locked false) ;;; modify (set_locking true).

(** ** The screen never overflows *)

Definition cursor (s : console) : Z := crthi s * 256 + crtlo s.

(** 25 lines of memory, with the cursor on one of the first 24. *)
Record screen_ok (s : console) : Prop := {
  sc_len : length (crt s) = 2000%nat;
  sc_hi : 0 <= crthi s < 256;
  sc_lo : 0 <= crtlo s < 256;
  sc_pos : cursor s < 1920
}.

(** Everything but the screen and the serial line is the same. *)
Definition same_input (s s' : console) : Prop :=
  locked s' = locked s /\ locking s' = locking s /\ panicked s' = panicked s /\ buf s' = buf s /\ r s' = r s /\ w s' = w s /\
  e s' = e s /\ wakeups s' = wakeups s /\ icalls s' = icalls s.

Lemma same_input_refl s : same_input s s.
Proof. done. Qed.
Lemma same_input_trans s t u : same_input s t -> same_input t u -> same_input s u.
Proof.
  intros (A1 & A2 & A3 & A4 & A5 & A6 & A7 & A8 & A9) (B1 & B2 & B3 & B4 & B5 & B6 & B7 & B8 & B9).
  unfold same_input. by rewrite B1, B2, B3, B4, B5, B6, B7, B8, B9.
Qed.

Lemma cursor_word hi lo : 0 <= lo < 256 -> Z.lor (Z.shiftl hi 8) lo = hi * 256 + lo.
Proof.
  intros Hlo. rewrite Z.shiftl_mul_pow2 by lia. change (2 ^ 8) with 256. rewrite <- Z.add_lor_land.
  assert (Z.land (hi * 256) lo = 0) as ->; [|lia]. apply Z.bits_inj'. intros n Hn. rewrite Z.land_spec, Z.bits_0.
  destruct (decide (n < 8)).
  - change 256 with (2 ^ 8). rewrite Z.mul_pow2_bits_low by lia. done.
  - rewrite (Z.bits_above_log2 lo n); [by rewrite andb_false_r | lia |]. destruct (decide (lo = 0)) as [->|]; [simpl; lia|].
    apply Z.log2_lt_pow2; [lia|]. apply Z.lt_le_trans with (2 ^ 8); [lia | apply Z.pow_le_mono_r; lia].
Qed.

(** The end of [cgaputc]: the cursor is moved to [pos]. *)
Definition move_cursor (pos : Z) : M console unit :=
  let! pos := (if decide (24 <= pos / 80) then crt_scroll (pos - 80) ;;; ret (pos - 80) else ret pos) in
  outb_index 14 ;;;
  outb_data (Z.shiftr pos 8) ;;;
  outb_index 15 ;;;
  outb_data pos ;;;
  crt_store pos (Z.lor 32 0x0700).

Ltac cstep :=
  match goal with
  | |- runs (bind _ _) _ _ => apply runs_bind
  | |- runs (ret _) _ _ => apply runs_ret
  | |- runs (gets _) _ _ => apply runs_gets
  | |- runs (modify _) _ _ => apply runs_modify
  end; cbv beta.

Lemma runs_move_cursor s pos (Q : unit -> console -> Prop) : length (crt s) = 2000%nat -> 0 <= pos <= 1920 ->
  (forall s', same_input s s' -> uart s' = uart s -> screen_ok s' -> cursor s' = (if decide (pos < 1920) then pos else 1840) -> Q tt s') ->
  runs (move_cursor pos) Q s.
Proof.
  intros Hl Hp HQ. unfold move_cursor. assert (forall t q, same_input s t -> uart t = uart s -> length (crt t) = 2000%nat -> 0 <= q < 1920 ->
    q = (if decide (pos < 1920) then pos else 1840) ->
    runs (outb_index 14 ;;; outb_data (Z.shiftr q 8) ;;; outb_index 15 ;;; outb_data q ;;; crt_store q (Z.lor 32 0x0700)) Q t) as Hend.
  { intros t q Hsame Hu Hlen Hq Eq. unfold outb_index, outb_data, crt_store. repeat cstep. simpl.
    rewrite Z.shiftr_div_pow2 by lia. change (2 ^ 8) with 256. pose proof (Z.div_mod q 256 ltac:(lia)).
    pose proof (Z.mod_pos_bound q 256 ltac:(lia)). assert (0 <= q / 256 < 256) by (split; [apply Z.div_pos; lia | apply Z.div_lt_upper_bound; lia]).
    apply HQ.
    - destruct Hsame as (? & ? & ? & ? & ? & ? & ? & ? & ?). done.
    - done.
    - unfold u8. split; simpl; [by rewrite length_insert | rewrite Z.mod_small; lia | done |]. unfold cursor. simpl.
      change (2 ^ 8) with 256. rewrite (Z.mod_small (q / 256)) by lia. lia.
    - rewrite <- Eq. unfold cursor, u8. simpl. change (2 ^ 8) with 256. rewrite (Z.mod_small (q / 256)) by lia. lia. }
  destruct (decide (24 <= pos / 80)) as [Hs|Hs].
  - assert (pos = 1920) as ->. { pose proof (Z.mul_div_le pos 80 ltac:(lia)). lia. }
    unfold crt_scroll. do 6 cstep. apply Hend; cbn [crt set_crt]; try done.
    repeat (rewrite length_app || rewrite length_take || rewrite length_drop || rewrite length_replicate). rewrite Hl. done.
  - do 2 cstep. assert (pos < 1920) by (destruct (decide (pos = 1920)) as [->|]; [done | lia]).
    apply Hend; try done; [lia | by rewrite decide_True].
Qed.

Lemma runs_cgaputc s c (Q : unit -> console -> Prop) : screen_ok s ->
  (forall s', same_input s s' -> uart s' = uart s -> screen_ok s' -> Q tt s') -> runs (cgaputc c) Q s.
Proof.
  intros [Hlen Hhi Hlo Hpos] HQ. unfold cgaputc, outb_index, inb_data. do 8 cstep. simpl.
  rewrite cursor_word by done. fold (cursor s). unfold cursor in *. set (p := crthi s * 256 + crtlo s) in *.
  pose proof (Z.mod_pos_bound p 80 ltac:(lia)). pose proof (Z.div_mod p 80 ltac:(lia)).
  assert (forall t q, same_input s t -> uart t = uart s -> length (crt t) = 2000%nat -> 0 <= q <= 1920 ->
    runs (if decide (q < 0 \/ 25 * 80 < q) then panic "pos under/overflow" else move_cursor q) Q t) as Hend.
  { intros t q Hsame Hu Hl Hq. rewrite decide_False by lia. apply runs_move_cursor; [done | done |].
    intros s' Hs' Hu' Hok _. apply HQ; [by eapply same_input_trans | by rewrite Hu' | done]. }
  cstep. destruct (decide (c = 10)); [cstep; apply Hend; simpl; (done || lia)|].
  destruct (decide (c = BACKSPACE)); [cstep; apply Hend; simpl; try done; case_decide; lia|].
  unfold crt_store. do 3 cstep. apply Hend; simpl; try done; [by rewrite length_insert | lia].
Qed.

(** What a character is on the serial line. *)
Definition echo (c : Z) : list Z := if decide (c = BACKSPACE) then [8; 32; 8] else [u8 c].

Lemma runs_consputc s c (Q : unit -> console -> Prop) : screen_ok s -> panicked s = false ->
  (forall s', same_input s s' -> uart s' = uart s ++ echo c -> screen_ok s' -> Q tt s') -> runs (consputc c) Q s.
Proof.
  intros Hs Hp HQ. unfold consputc. do 2 cstep. rewrite Hp. unfold uartputc, echo in *. cstep.
  destruct (decide (c = BACKSPACE)); [do 5 cstep | cstep]; (apply runs_cgaputc; [by destruct Hs as [H1 H2 H3 H4]; split|]);
    intros s' Hsame Hu Hok; (apply HQ; [done | rewrite Hu; cbn [uart set_uart]; by rewrite <- ?app_assoc | done]).
Qed.

(** ** The line discipline

    What readers see: the characters of the complete lines not read yet, and the
    line that is being edited. *)
Record line := Line { committed : list Z; editing : list Z }.

Definition pending (a : line) : Z := Z.of_nat (length (committed a) + length (editing a)).

(** A key: kill the line, delete a character, or add one; a newline, an end-of-file
    character or a full buffer completes the line. *)
Definition key (c : Z) (a : line) : line :=
  if decide (c = C 80) then a
  else if decide (c = C 85) then Line (committed a) []
  else if decide (c = C 72 \/ c = 127) then Line (committed a) (removelast (editing a))
  else if decide (c <> 0 /\ pending a < INPUT_BUF) then
    let c := if decide (c = 13) then 10 else c in
    let ed := editing a ++ [c] in
    if decide (c = 10 \/ c = C 68 \/ pending a + 1 = INPUT_BUF) then Line (committed a ++ ed) []
    else Line (committed a) ed
  else a.

(** What a read of [n] bytes, of [target] asked for, takes from the complete lines: up to a
    newline, or an end-of-file character, which is left for the next read if there are
    bytes before it.  The results are the bytes, what is left to read, what stays, and
    whether the read is over. *)
Fixpoint take_line (target n : Z) (com : list Z) : list Z * Z * list Z * bool :=
  if decide (n <= 0) then ([], n, com, true) else
  match com with
  | [] => ([], n, [], false)
  | c :: com' =>
      if decide (c = C 68) then ([], n, if decide (n < target) then com else com', true)
      else if decide (c = 10) then ([c], n - 1, com', true)
      else let '(l, m, rest, b) := take_line target (n - 1) com' in (c :: l, m, rest, b)
  end.

(** *** The ring buffer *)

Record ring (s : console) (a : line) : Prop := {
  lr_len : length (buf s) = 128%nat;
  lr_r : 0 <= r s < 2 ^ 32;
  lr_w : w s = u32 (r s + Z.of_nat (length (committed a)));
  lr_e : e s = u32 (r s + pending a);
  lr_fit : pending a <= INPUT_BUF;
  lr_buf : forall k, (k < length (committed a ++ editing a))%nat ->
    nth (Z.to_nat ((r s + Z.of_nat k) mod INPUT_BUF)) (buf s) 0 = nth k (committed a ++ editing a) 0
}.

(** A newline is never left in the line that is being edited. *)
Definition lrep (s : console) (a : line) : Prop := ring s a /\ Forall (fun c => c <> 10) (editing a).

Lemma pending_eq a : pending a = Z.of_nat (length (committed a)) + Z.of_nat (length (editing a)).
Proof. unfold pending. lia. Qed.

Lemma u32_diff x y k : 0 <= k < 2 ^ 32 -> y = u32 (x + k) -> u32 (y - x) = k.
Proof. intros Hk ->. rewrite u32_sub_l. replace (x + k - x) with k by lia. by apply u32_small. Qed.

Lemma u32_inj x j k : 0 <= j < 2 ^ 32 -> 0 <= k < 2 ^ 32 -> u32 (x + j) = u32 (x + k) -> j = k.
Proof. intros Hj Hk E. rewrite <- (u32_diff x _ j Hj eq_refl), E. by apply u32_diff. Qed.

Lemma edit_empty s a : ring s a -> e s = w s <-> editing a = [].
Proof.
  intros [H1 H2 H3 H4 H5 H6]. rewrite pending_eq in *. unfold INPUT_BUF in *. rewrite H3, H4. split.
  - intros E%u32_inj; [apply nil_length_inv|..]; lia.
  - intros ->. f_equal. simpl. lia.
Qed.

Lemma committed_empty s a : ring s a -> r s = w s <-> committed a = [].
Proof.
  intros [H1 H2 H3 H4 H5 H6]. rewrite pending_eq in *. unfold INPUT_BUF in *. rewrite H3. split.
  - intros E. apply nil_length_inv. assert (u32 (r s + 0) = u32 (r s + Z.of_nat (length (committed a)))) as E2%u32_inj; [|lia..].
    rewrite Z.add_0_r, (u32_small (r s)) by lia. done.
  - intros ->. simpl. rewrite Z.add_0_r. by rewrite u32_small.
Qed.

Lemma pending_diff s a : ring s a -> u32 (e s - r s) = pending a.
Proof. intros [H1 H2 H3 H4 H5 H6]. apply u32_diff; [|done]. unfold INPUT_BUF, pending in *. lia. Qed.

(** The cell of the [k]-th character from the read index. *)
Definition cell (s : console) (k : Z) : nat := Z.to_nat ((r s + k) mod INPUT_BUF).

Lemma cell_lt s k : (cell s k < 128)%nat.
Proof. unfold cell, INPUT_BUF. pose proof (Z.mod_pos_bound (r s + k) 128). lia. Qed.

Lemma cell_inj s j k : 0 <= j < 128 -> 0 <= k < 128 -> cell s j = cell s k -> j = k.
Proof.
  unfold cell, INPUT_BUF. intros Hj Hk E. pose proof (Z.mod_pos_bound (r s + j) 128). pose proof (Z.mod_pos_bound (r s + k) 128).
  assert ((r s + j) mod 128 = (r s + k) mod 128) as E' by lia.
  pose proof (Z.div_mod (r s + j) 128). pose proof (Z.div_mod (r s + k) 128). lia.
Qed.

Lemma u32_mod_buf x : u32 x mod INPUT_BUF = x mod INPUT_BUF.
Proof. apply u32_mod_divisor; [by exists 33554432 | done]. Qed.

(** Fields the line discipline does not depend on. *)
Lemma ring_same s s' a : ring s a -> same_input s s' -> ring s' a.
Proof.
  intros [H1 H2 H3 H4 H5 H6] (_ & _ & _ & E4 & E5 & E6 & E7 & _ & _). split; rewrite ?E4, ?E5, ?E6, ?E7; done.
Qed.

Lemma ring_back s com ed c : ring s (Line com (ed ++ [c])) -> ring (set_e (u32 (e s - 1)) s) (Line com ed).
Proof.
  intros [H1 H2 H3 H4 H5 H6]. rewrite pending_eq in *. simpl in *. rewrite length_app in *. simpl in *. split; rewrite ?pending_eq; simpl; try done.
  - rewrite H4, u32_sub_l. f_equal. lia.
  - lia.
  - intros k Hk. rewrite H6 by (rewrite !length_app in *; lia). rewrite app_assoc. apply app_nth1. done.
Qed.

Lemma line_push s com ed c : ring s (Line com ed) -> pending (Line com ed) < INPUT_BUF ->
  ring (set_e (u32 (e s + 1)) (set_buf (e s mod INPUT_BUF) c s)) (Line com (ed ++ [c])).
Proof.
  intros [H1 H2 H3 H4 H5 H6] Hlt. rewrite pending_eq in *. unfold INPUT_BUF in Hlt. simpl in *.
  assert (Z.to_nat (e s mod INPUT_BUF) = cell s (Z.of_nat (length com + length ed))) as Ec.
  { unfold cell. rewrite H4, u32_mod_buf. do 3 f_equal. lia. }
  split; rewrite ?pending_eq; simpl; rewrite ?length_app; simpl; try done.
  - by rewrite length_insert.
  - rewrite H4, u32_add_l. f_equal. lia.
  - unfold INPUT_BUF. lia.
  - intros k Hk. rewrite ?length_app in Hk. simpl in Hk. rewrite Ec. change (Z.to_nat ((r s + Z.of_nat k) mod INPUT_BUF)) with (cell s (Z.of_nat k)).
    rewrite nth_lookup, app_assoc. destruct (decide (k = length com + length ed)%nat) as [->|Hk'].
    + rewrite list_lookup_insert_eq by (rewrite H1; apply cell_lt). rewrite app_nth2 by (rewrite length_app; lia).
      rewrite length_app, Nat.sub_diag. done.
    + rewrite list_lookup_insert_ne; [|intros E%cell_inj; lia]. rewrite <- nth_lookup, app_nth1 by (rewrite length_app; lia).
      apply H6. rewrite length_app. lia.
Qed.

Lemma ring_commit s com ed : ring s (Line com ed) -> ring (set_w (e s) s) (Line (com ++ ed) []).
Proof.
  intros [H1 H2 H3 H4 H5 H6]. rewrite pending_eq in *. simpl in *.
  split; rewrite ?pending_eq; simpl; rewrite ?length_app, ?app_nil_r; simpl; try done.
  - rewrite H4. f_equal. lia.
  - rewrite H4. f_equal. lia.
  - lia.
  - intros k Hk. apply H6. rewrite ?length_app. lia.
Qed.

Lemma ring_pop s c com ed : ring s (Line (c :: com) ed) ->
  nth (Z.to_nat (r s mod INPUT_BUF)) (buf s) 0 = c /\ ring (set_r (u32 (r s + 1)) s) (Line com ed).
Proof.
  intros [H1 H2 H3 H4 H5 H6]. rewrite pending_eq in *. simpl in *. split.
  { specialize (H6 O ltac:(lia)). simpl in H6. by rewrite Z.add_0_r in H6. }
  split; rewrite ?pending_eq; simpl; try done; try (apply u32_range); try lia.
  - rewrite H3, u32_add_l. f_equal. lia.
  - rewrite H4, u32_add_l. f_equal. lia.
  - intros k Hk. specialize (H6 (S k) ltac:(lia)). simpl in H6. rewrite <- H6. f_equal. f_equal.
    rewrite <- (u32_mod_buf (u32 (r s + 1) + Z.of_nat k)), u32_add_l, u32_mod_buf. f_equal. lia.
Qed.

(** *** Keys *)

Definition calm (s : console) : Prop := screen_ok s /\ panicked s = false.

(** The line is [a] now and [ws] have been woken up; locks and the rest are as before. *)
Record edited (s : console) (a : line) (ws : list kaddr) (s' : console) : Prop := {
  ed_line : lrep s' a;
  ed_calm : calm s';
  ed_locked : locked s' = locked s;
  ed_icalls : icalls s' = icalls s;
  ed_wakeups : wakeups s' = wakeups s ++ ws
}.

Lemma edited_same s a s' : lrep s' a -> calm s -> screen_ok s' -> same_input s s' -> edited s a [] s'.
Proof.
  intros Hr [Hs Hp] Hs' (E1 & E2 & E3 & E4 & E5 & E6 & E7 & E8 & E9).
  split; [done | split; [done | congruence] | done | done | by rewrite app_nil_r].
Qed.

Lemma edited_trans s a ws s1 a' ws' s2 : edited s a ws s1 -> edited s1 a' ws' s2 -> edited s a' (ws ++ ws') s2.
Proof.
  intros [A1 A2 A3 A4 A5] [B1 B2 B3 B4 B5]. split; try done; try congruence. by rewrite B5, A5, app_assoc.
Qed.

(** Removing the last character of the line and wiping it off the screen. *)
Lemma runs_back s com ed c (Q : unit -> console -> Prop) : lrep s (Line com (ed ++ [c])) -> calm s ->
  (forall s', edited s (Line com ed) [] s' -> Q tt s') ->
  runs (consputc BACKSPACE) Q (set_e (u32 (e s - 1)) s).
Proof.
  intros [Hr Hl] [Hs Hp] HQ. pose proof (ring_back s com ed c Hr) as Hr'. apply runs_consputc; [|done|].
  - destruct Hs as [S1 S2 S3 S4]. by split.
  - intros s' Hsame _ Hs'. apply HQ. apply (edited_trans s (Line com ed) [] (set_e (u32 (e s - 1)) s) _ []).
    + simpl in Hl. apply Forall_app in Hl as [Hl _]. split; try done; [|by rewrite app_nil_r].
      destruct Hs as [S1 S2 S3 S4]. split; [by split | done].
    + apply Forall_app in Hl as [Hl _]. apply edited_same; [split; [by eapply ring_same | done] | | done | done].
      destruct Hs as [S1 S2 S3 S4]. split; [by split | done].
Qed.

Lemma runs_kill_line fuel : forall s com ed (Q : unit -> console -> Prop), lrep s (Line com ed) -> calm s -> (length ed < fuel)%nat ->
  (forall s', edited s (Line com []) [] s' -> Q tt s') -> runs (kill_line fuel) Q s.
Proof.
  induction fuel as [|fuel IH]; intros s com ed Q Hl Hc Hf HQ; [lia|]. cbn [kill_line]. do 2 cstep. do 2 cstep. unfold buf_at. do 2 cstep.
  destruct ed as [|c ed _] using rev_ind.
  - rewrite decide_False; [cstep; apply HQ; destruct Hc; by apply edited_same|]. intros [E _]. apply E.
    by apply (edit_empty s (Line com [])); [apply Hl|].
  - rewrite length_app in Hf. simpl in Hf. rewrite decide_True.
    + do 3 cstep. apply (runs_back s com ed c); [done | done |]. intros s1 H1.
      eapply (IH s1 com ed); [apply H1 | apply H1 | lia |]. intros s2 H2. apply HQ. by apply (edited_trans s (Line com ed) [] s1 _ []).
    + destruct Hl as [Hr Hn]. split.
      * intros E%(edit_empty s _ Hr). simpl in E. by destruct ed.
      * pose proof Hr as [H1 H2 H3 H4 H5 H6]. rewrite pending_eq in *. simpl in *. rewrite length_app in *. simpl in *.
        specialize (H6 (length com + length ed)%nat). rewrite !length_app in H6. simpl in H6.
        rewrite app_assoc, app_nth2, length_app, Nat.sub_diag in H6 by (rewrite length_app; lia). simpl in H6.
        rewrite H4, u32_sub_l, u32_mod_buf.
        replace (r s + _ - 1) with (r s + Z.of_nat (length com + length ed)) by lia. rewrite H6 by lia.
        apply Forall_app in Hn as [_ Hn]. by inversion Hn.
Qed.

(** Readers are woken up when the key completes a line. *)
Definition woken (c : Z) (a : line) : list kaddr :=
  if decide (committed (key c a) = committed a) then [] else [A_input_r].

Lemma key_print c com ed : c <> C 80 -> c <> C 85 -> ~ (c = C 72 \/ c = 127) -> c <> 0 -> pending (Line com ed) < INPUT_BUF ->
  let c' := if decide (c = 13) then 10 else c in
  if decide (c' = 10 \/ c' = C 68 \/ pending (Line com ed) + 1 = INPUT_BUF)
  then key c (Line com ed) = Line (com ++ ed ++ [c']) [] /\ woken c (Line com ed) = [A_input_r]
  else key c (Line com ed) = Line com (ed ++ [c']) /\ woken c (Line com ed) = [].
Proof.
  intros H1 H2 H3 H4 H5 c'. assert (key c (Line com ed) =
    if decide (c' = 10 \/ c' = C 68 \/ pending (Line com ed) + 1 = INPUT_BUF) then Line (com ++ ed ++ [c']) [] else Line com (ed ++ [c'])) as Ek.
  { unfold key. rewrite decide_False by done. rewrite decide_False by done. rewrite decide_False by done. by rewrite decide_True by done. }
  unfold woken. rewrite Ek.
  case_decide as Hc; simpl; [|by rewrite decide_True]. split; [done|]. rewrite decide_False; [done|].
  intros E%(f_equal length). rewrite !length_app in E. simpl in E. lia.
Qed.

Lemma runs_push s com ed c (Q : unit -> console -> Prop) : ring s (Line com ed) -> calm s -> pending (Line com ed) < INPUT_BUF ->
  (forall s', ring s' (Line com (ed ++ [u8 c])) -> calm s' -> r s' = r s -> locked s' = locked s -> icalls s' = icalls s ->
     wakeups s' = wakeups s -> Q tt s') ->
  runs (consputc c) Q (set_e (u32 (e s + 1)) (set_buf (e s mod INPUT_BUF) (u8 c) s)).
Proof.
  intros Hr [Hs Hp] Hlt HQ. pose proof (line_push s com ed (u8 c) Hr Hlt) as Hr'. apply runs_consputc; [|done|].
  - destruct Hs as [S1 S2 S3 S4]. by split.
  - intros s' Hsame _ Hs'. pose proof Hsame as (E1 & E2 & E3 & E4 & E5 & E6 & E7 & E8 & E9).
    apply HQ; [by eapply ring_same | split; [done | by rewrite E3] | done..].
Qed.

Lemma runs_consolekey s a c (Q : bool -> console -> Prop) : lrep s a -> calm s -> 0 <= c < 256 ->
  (forall s', edited s (key c a) (woken c a) s' -> Q (bool_decide (c = C 80)) s') -> runs (consolekey c) Q s.
Proof.
  intros Hl Hc Hb HQ. destruct a as [com ed]. unfold consolekey.
  destruct (decide (c = C 80)) as [->|H1].
  { cstep. apply (HQ s). unfold woken, key. simpl. rewrite decide_True by done. destruct Hc. by apply edited_same. }
  rewrite bool_decide_false in HQ by done. destruct (decide (c = C 85)) as [->|H2].
  { cstep. apply (runs_kill_line _ s com ed); [done | done | destruct Hl as [[_ _ _ _ Hfit _] _]; unfold pending, INPUT_BUF in *; simpl in *; lia|].
    intros s' H'. cstep. apply HQ. unfold woken, key. simpl. by rewrite decide_True by done. }
  destruct (decide (c = C 72 \/ c = 127)) as [H3|H3].
  { assert (key c (Line com ed) = Line com (removelast ed)) as Ek by (unfold key; rewrite decide_False by done; rewrite decide_False by done; by rewrite decide_True by done).
    unfold woken in HQ. rewrite Ek, decide_True in HQ by done. do 5 cstep. destruct ed as [|d ed _] using rev_ind.
    - rewrite decide_False; [do 2 cstep; apply HQ; destruct Hc; by apply edited_same|]. intros E. apply E.
      by apply (edit_empty s (Line com [])); [apply Hl|].
    - rewrite removelast_last in HQ. rewrite decide_True.
      + do 2 cstep. apply (runs_back s com ed d); [done | done |]. intros s' H'. cstep. by apply HQ.
      + intros E%(edit_empty s _ (proj1 Hl)). simpl in E. by destruct ed. }
  do 5 cstep. rewrite (pending_diff s _ (proj1 Hl)). destruct (decide (c <> 0 /\ pending (Line com ed) < INPUT_BUF)) as [[H4 H5]|H4].
  2: { cstep. cstep. apply HQ. assert (key c (Line com ed) = Line com ed) as Ek by (unfold key; by rewrite !decide_False by done).
       unfold woken. rewrite Ek, decide_True by done. destruct Hc. by apply edited_same. }
  pose proof (key_print c com ed H1 H2 H3 H4 H5) as Hk. cbv zeta in Hk. set (c' := if decide (c = 13) then 10 else c) in *.
  assert (u8 c' = c') as Ec by (unfold u8, c'; destruct (decide (c = 13)); apply Z.mod_small; lia).
  do 5 cstep. apply (runs_push s com ed c'); [apply Hl | done | done |]. rewrite Ec. intros s1 R1 C1 E1 E2 E3 E4. do 2 cstep.
  assert (e s1 = u32 (r s + INPUT_BUF) <-> pending (Line com ed) + 1 = INPUT_BUF) as Hfull.
  { pose proof (lr_e _ _ R1) as Ee. rewrite pending_eq in *. simpl in *. rewrite length_app in Ee. simpl in Ee. rewrite Ee, E1. split.
    - intros E%u32_inj; unfold INPUT_BUF in *; lia.
    - intros E. f_equal. lia. }
  destruct (decide (c' = 10 \/ c' = C 68 \/ pending (Line com ed) + 1 = INPUT_BUF)) as [Hcm|Hcm]; destruct Hk as [Ek Ew]; rewrite Ek, Ew in HQ.
  - rewrite decide_True by tauto. unfold wakeup. do 3 cstep. pose proof (ring_commit s1 com _ R1) as R2. cstep. apply HQ. split.
    + split; [|constructor]. destruct R2 as [A1 A2 A3 A4 A5 A6]. by split.
    + destruct C1 as [[S1 S2 S3 S4] C1]. split; [by split | done].
    + done.
    + done.
    + simpl. by rewrite E4.
  - rewrite decide_False by tauto. do 2 cstep. apply HQ. split; [|done | done | done | by rewrite E4, app_nil_r].
    split; [done|]. simpl. apply Forall_app. split; [apply Hl|]. constructor; [tauto | constructor].
Qed.

Lemma edited_refl s a : lrep s a -> calm s -> edited s a [] s.
Proof. intros Hl Hc. split; try done. by rewrite app_nil_r. Qed.

Lemma key_committed c a : committed (key c a) <> committed a -> woken c a = [A_input_r].
Proof. intros Hn. unfold woken. by rewrite decide_False. Qed.

Lemma runs_intr_loop keys : forall s a d (Q : bool -> console -> Prop), lrep s a -> calm s -> Forall (fun c => 0 <= c < 256) keys ->
  (forall s' ws, let a' := foldl (fun a c => key c a) a keys in edited s a' ws s' -> (committed a' <> committed a -> A_input_r ∈ ws) ->
     Q (d || bool_decide (C 80 ∈ keys)) s') ->
  runs (consoleintr_loop keys d) Q s.
Proof.
  induction keys as [|c keys IH]; intros s a d Q Hl Hc Hk HQ; cbn [consoleintr_loop].
  - cstep. rewrite <- (orb_false_r d). apply (HQ s []); [by apply edited_refl | done].
  - inversion Hk as [|? ? Hb Hk']; subst. cstep. apply (runs_consolekey s a c); [done | done | done |]. intros s1 H1.
    apply (IH s1 (key c a)); [apply H1 | apply H1 | done |]. intros s2 ws a' H2 Hw.
    assert (d || bool_decide (C 80 ∈ c :: keys) = d || bool_decide (c = C 80) || bool_decide (C 80 ∈ keys)) as <-.
    { rewrite <- orb_assoc. f_equal. rewrite <- bool_decide_or. apply bool_decide_ext. rewrite elem_of_cons. naive_solver. }
    apply (HQ s2 (woken c a ++ ws)); [by eapply edited_trans|]. intros Hne. rewrite elem_of_app.
    destruct (decide (committed (key c a) = committed a)) as [E|E].
    + right. apply Hw. by rewrite E.
    + left. rewrite key_committed by done. by left.
Qed.

(** *** Reads *)

(** A reader changes nothing but the read index. *)
Definition only_r (s s' : console) : Prop := s' = set_r (r s') s.

Lemma only_r_calm s s' : only_r s s' -> calm s -> calm s' /\ locked s' = locked s /\ wakeups s' = wakeups s /\ icalls s' = icalls s.
Proof. intros -> [[S1 S2 S3 S4] Hp]. split; [|done]. split; [by split | done]. Qed.

Lemma runs_read_loop fuel (killed : bool) target : forall s com ed n got (Q : segment (Z * list Z) (bool * (Z * list Z)) -> console -> Prop),
  lrep s (Line com ed) -> (Z.to_nat n < fuel)%nat ->
  (let '(l, m, rest, b) := take_line target n com in
   forall s', lrep s' (Line rest ed) -> only_r s s' ->
     Q (if (b : bool) then Done (true, (m, got ++ l)) else if killed then Done (false, (m, got ++ l)) else Blocked A_input_r (m, got ++ l)) s') ->
  runs (consoleread_loop fuel killed target n got) Q s.
Proof.
  assert (forall s : console, only_r s s) as Hrefl by (by intros []).
  assert (forall s s1 s2, only_r s s1 -> only_r s1 s2 -> only_r s s2) as Htrans by (intros s s1 s2 -> ->; done).
  induction fuel as [|fuel IH]; intros s com ed n got Q Hl Hf HQ; [lia|]. cbn [consoleread_loop].
  destruct (decide (n <= 0)) as [Hn|Hn].
  { destruct com; cbn [take_line] in HQ; rewrite decide_True in HQ by done; cstep; rewrite <- (app_nil_r got); by apply HQ. }
  do 2 cstep. do 2 cstep. destruct com as [|c com]; cbn [take_line] in HQ; rewrite decide_False in HQ by done.
  { rewrite decide_True by (by apply (committed_empty s _ (proj1 Hl))).
    destruct killed; cstep; rewrite <- (app_nil_r got); by apply HQ. }
  rewrite decide_False by (by intros E%(committed_empty s _ (proj1 Hl))).
  destruct (ring_pop s c com ed (proj1 Hl)) as [Ec Hpop]. unfold buf_at. do 4 cstep. rewrite Ec.
  assert (lrep (set_r (u32 (r s + 1)) s) (Line com ed)) as Hl' by (split; [done | apply Hl]).
  destruct (decide (c = C 68)) as [->|H4].
  - cstep. destruct (decide (n < target)).
    + do 2 cstep. cstep. cstep. rewrite <- (app_nil_r got). apply HQ; [|done]. cbn [r set_r].
      replace (u32 (u32 (r s + 1) - 1)) with (r s).
      * destruct Hl as [[A1 A2 A3 A4 A5 A6] A7]. by split.
      * rewrite u32_sub_l. replace (r s + 1 - 1) with (r s) by lia. symmetry. apply u32_small, Hl.
    + do 2 cstep. rewrite <- (app_nil_r got). by apply HQ.
  - destruct (decide (c = 10)) as [->|H10]; [cstep; by apply HQ|].
    apply (IH _ com ed); [done | lia |]. destruct (take_line target (n - 1) com) as [[[l m] rest] b].
    intros s' Hs' Ho. rewrite <- app_assoc. apply HQ; [done|]. eapply Htrans; [|done]. done.
Qed.

Lemma lrep_fields s s' a : buf s' = buf s -> r s' = r s -> w s' = w s -> e s' = e s -> lrep s a -> lrep s' a.
Proof. intros E1 E2 E3 E4 [[A1 A2 A3 A4 A5 A6] A7]. split; [|done]. split; rewrite ?E1, ?E2, ?E3, ?E4; done. Qed.

Lemma calm_fields s s' : crt s' = crt s -> crthi s' = crthi s -> crtlo s' = crtlo s -> panicked s' = panicked s -> calm s -> calm s'.
Proof.
  intros E1 E2 E3 E4 [[S1 S2 S3 S4] Hp]. split; [|congruence]. split; rewrite ?E1, ?E2, ?E3; try done. unfold cursor in *. by rewrite E2, E3.
Qed.

(** ** The properties *)

(** The console at boot, after [consoleinit]. *)
Definition boot : console := Mk false true false (replicate 128 0) 0 0 0 (replicate 2000 0) 0 0 0 [] [] [].

Lemma boot_rep : lrep boot (Line [] []) /\ calm boot.
Proof.
  split.
  - split; [|constructor]. split; try done; simpl; lia.
  - split; [|done]. split; done.
Qed.

Lemma runs_consoleintr s a keys : lrep s a -> calm s -> locked s = false -> Forall (fun c => 0 <= c < 256) keys ->
  runs (consoleintr keys) (fun d s' => let a' := foldl (fun a c => key c a) a keys in
    d = bool_decide (C 80 ∈ keys) /\ lrep s' a' /\ calm s' /\ locked s' = false /\
    exists ws, wakeups s' = wakeups s ++ ws /\ (committed a' <> committed a -> A_input_r ∈ ws)) s.
Proof.
  intros Hl Hc Hk Hkeys. unfold consoleintr, acquire, release. do 3 cstep. rewrite Hk. do 2 cstep.
  apply (runs_intr_loop keys _ a); [by apply (lrep_fields s) | by apply (calm_fields s) | done |]. intros s1 ws a' [E1 E2 E3 E4 E5] Hw.
  do 3 cstep. rewrite E3. simpl. do 2 cstep. split; [done|]. split; [by apply (lrep_fields s1)|]. split; [by apply (calm_fields s1)|].
  split; [done|]. by exists ws.
Qed.

(** C28: The line discipline.  The three wrapping indices of the input buffer implement complete lines and
    the line being edited.  An interrupt with any keys returns with the lock free and has edited
    exactly as [key] says: characters are added while there is room, deleted, the line
    killed, and made available by a newline, an end-of-file character or a full buffer,
    with the readers woken up; and the screen never overflows.  A read, begun or woken up,
    takes exactly what [take_line] says from the complete lines, sleeps when they are used up,
    and fails if the process was killed then. *)
Theorem line_discipline s a : lrep s a -> calm s -> locked s = false ->
  (forall keys, Forall (fun c => 0 <= c < 256) keys ->
     runs (consoleintr keys) (fun d s' => let a' := foldl (fun a c => key c a) a keys in
       d = bool_decide (C 80 ∈ keys) /\ lrep s' a' /\ calm s' /\ locked s' = false /\
       exists ws, wakeups s' = wakeups s ++ ws /\ (committed a' <> committed a -> A_input_r ∈ ws)) s) /\
  (forall ip (killed : bool) target n got, let '(l, m, rest, b) := take_line target n (committed a) in
     runs (consoleread_again ip killed target (n, got)) (fun x s' => lrep s' (Line rest (editing a)) /\ calm s' /\ locked s' = false /\
       x = if (b : bool) then Done (target - m, got ++ l) else if killed then Done (-1, got ++ l) else Blocked A_input_r (m, got ++ l)) s).
Proof.
  intros Hl Hc Hk. split.
  - intros keys Hkeys. by apply runs_consoleintr.
  - intros ip killed target n got. destruct a as [com ed]. simpl.
    destruct (take_line target n com) as [[[l m] rest] b] eqn:Et. unfold consoleread_again, acquire, release, icall_. do 3 cstep. rewrite Hk. do 2 cstep.
    apply (runs_read_loop _ killed target _ com ed); [by apply (lrep_fields s) | simpl; lia |]. simpl. rewrite Et. intros s1 E1 Ho.
    destruct (only_r_calm _ _ Ho) as (Hc1 & El & _ & _); [by apply (calm_fields s)|].
    destruct b; [|destruct killed]; do 3 cstep; rewrite El; simpl; do 2 cstep; try do 2 cstep;
      (split; [by apply (lrep_fields s1)|]); (split; [by apply (calm_fields s1) | done]).
Qed.

Lemma line_discipline_witness : exists s s' d,
  consoleintr [104; 111; 8; 105; 13] boot = Ret d s /\ consoleread 0 false 100 s = Ret (Done (3, [104; 105; 10])) s'.
Proof.
  destruct boot_rep as [Hl Hc]. destruct (line_discipline boot _ Hl Hc eq_refl) as [Hi _].
  destruct (Hi [104; 111; 8; 105; 13]) as (d & s & E & _ & Hl1 & Hc1 & Hk1 & _); [repeat constructor; lia|].
  assert (lrep (Mk (locked s) (locking s) (panicked s) (buf s) (r s) (w s) (e s) (crt s) (crtindex s) (crthi s) (crtlo s) (uart s) (wakeups s)
    (icalls s ++ [IUnlock 0])) (Line [104; 105; 10] [])) as Hl2 by (by apply (lrep_fields s)).
  destruct (line_discipline _ _ Hl2) as [_ Hr]; [by apply (calm_fields s) | done |].
  destruct (Hr 0%nat false 100 100 []) as (x & s' & E' & _ & _ & _ & ->). exists s, s', d. split; [exact E | exact E'].
Defined.
End Console.
