(* ===== verification/Kbd.v ===== *)
(** The keyboard: src/xv6-public/kbd.c and kbd.h, and its connection with the
    console.

    The controller is the queue of the scan codes not read yet.  [kbdgetc] turns
    them into characters, remembering the state of the shift keys; [kbdintr]
    hands the characters to the line discipline.  The tables are arrays of 256
    bytes; an index beyond them stops with [Undefined].  The specification speaks of keys
    going down and up, of the layout of the keyboard, and of which modifiers are on. *)

From S2P Require Import Prelude Console.

Module Kbd.

(** ** kbd.h *)

Definition SHIFT : Z := 1.
Definition CTL : Z := 2.
Definition ALT : Z := 4.
Definition CAPSLOCK : Z := 8.
Definition NUMLOCK : Z := 16.
Definition SCROLLLOCK : Z := 32.
Definition E0ESC : Z := 64.


(** An array initializer: the first elements, the designated ones, and zeros. *)
Definition uchar256 (l : list Z) (rest : list (Z * Z)) : list Z :=
  foldl (fun t kv => <[Z.to_nat kv.1 := kv.2]> t) (l ++ replicate (256 - length l) 0) rest.

Definition shiftcode : list Z := uchar256 [] [(0x1D, CTL); (0x2A, SHIFT); (0x36, SHIFT); (0x38, ALT); (0x9D, CTL); (0xB8, ALT)].
Definition togglecode : list Z := uchar256 [] [(0x3A, CAPSLOCK); (0x45, NUMLOCK); (0x46, SCROLLLOCK)].

Definition ch (s : string) : list Z := (fun c => Z.of_nat (Ascii.nat_of_ascii c)) <$> String.list_ascii_of_string s.

(** Keypad enter and slash, the arrows and their neighbours, after the escape code. *)
Definition keypad (enter slash : Z) : list (Z * Z) :=
  [(0x9C, enter); (0xB5, slash); (0xC8, 0xE2); (0xD0, 0xE3); (0xC9, 0xE6); (0xD1, 0xE7); (0xCB, 0xE4); (0xCD, 0xE5);
   (0x97, 0xE0); (0xCF, 0xE1); (0xD2, 0xE8); (0xD3, 0xE9)].

Definition NO : Z := 0.

Definition normalmap : list Z := uchar256
  ([NO; 0x1B] ++ ch "1234567890-=" ++ [8; 9] ++
   ch "qwertyuiop[]" ++ [10; NO] ++ ch "as" ++
   ch "dfghjkl;'`" ++ [NO] ++ ch "\zxcv" ++
   ch "bnm,./" ++ [NO] ++ ch "*" ++ [NO; 32] ++ replicate 6 NO ++
   replicate 7 NO ++ ch "789-456+1" ++
   ch "230." ++ replicate 4 NO)
  (keypad 10 47).

Definition shiftmap : list Z := uchar256
  ([NO; 27] ++ ch "!@#$%^&*()_+" ++ [8; 9] ++
   ch "QWERTYUIOP{}" ++ [10; NO] ++ ch "AS" ++
   ch "DFGHJKL:" ++ [34] ++ ch "~" ++ [NO] ++ ch "|ZXCV" ++
   ch "BNM<>?" ++ [NO] ++ ch "*" ++ [NO; 32] ++ replicate 6 NO ++
   replicate 7 NO ++ ch "789-456+1" ++
   ch "230." ++ replicate 4 NO)
  (keypad 10 47).

(** [C(x)] for each character; the character type is unsigned. *)
Definition ctl (s : string) : list Z := (fun c => u8 (Console.C c)) <$> ch s.

Definition ctlmap : list Z := uchar256
  (replicate 16 NO ++
   ctl "QWERTYUIOP" ++ [NO; NO; 13; NO] ++ ctl "AS" ++
   ctl "DFGHJKL" ++ [NO; NO; NO; NO] ++ ctl "\ZXCV" ++
   ctl "BNM" ++ [NO; NO] ++ ctl "/" ++ [NO; NO])
  (keypad 13 (u8 (Console.C 47))).

(** ** kbd.c *)

(** The codes in the controller and the static [shift]. *)
Record kbd := MkKbd { codes : list Z; shift : Z }.

Definition set_shift (f : Z -> Z) : M kbd unit := modify (fun s => MkKbd (codes s) (f (shift s))).

Definition charcode : list (list Z) := [normalmap; shiftmap; ctlmap; ctlmap].

(** [t[i]] *)
Definition index {A} (t : list A) (i : Z) : M kbd A :=
  match t !! Z.to_nat i with Some x => ret x | None => stop_with Undefined end.

(** The part of [kbdgetc] that follows a key going down. *)
Definition key_down (data : Z) : M kbd Z :=
  let! m := index shiftcode data in
  set_shift (fun sh => Z.lor sh m) ;;;
  let! t := index togglecode data in
  set_shift (fun sh => Z.lxor sh t) ;;;
  let! sh := gets shift in
  let! map := index charcode (Z.land sh (Z.lor CTL SHIFT)) in
  let! c := index map data in
  ret (if decide (Z.land sh CAPSLOCK <> 0) then
         if decide (97 <= c <= 122) then c - 32 else if decide (65 <= c <= 90) then c + 32 else c
       else c).

Definition kbdgetc : M kbd Z :=
  let! ds := gets codes in
  match ds with
  | [] => ret (-1)
  | data :: rest =>
      modify (fun s => MkKbd rest (shift s)) ;;;
      let! sh := gets shift in
      if decide (data = 0xE0) then
        set_shift (fun sh => Z.lor sh E0ESC) ;;; ret 0
      else if decide (Z.land data 0x80 <> 0) then
        let data := if decide (Z.land sh E0ESC <> 0) then data else Z.land data 0x7F in
        let! m := index shiftcode data in
        set_shift (fun sh => Z.land sh (Z.lnot (Z.lor m E0ESC))) ;;; ret 0
      else if decide (Z.land sh E0ESC <> 0) then
        set_shift (fun sh => Z.land sh (Z.lnot E0ESC)) ;;; key_down (Z.lor data 0x80)
      else key_down data
  end.

(** The characters [consoleintr] gets from [kbdgetc]; every call takes a code out of the controller. *)
Fixpoint drain (fuel : nat) : M kbd (list Z) :=
  match fuel with
  | O => stop_with Spins
  | S fuel' =>
      let! c := kbdgetc in
      if decide (c < 0) then ret [] else let! l := drain fuel' in ret (c :: l)
  end.

(** [kbdintr()]: the keyboard and the console have no state in common. *)
Definition kbdintr : M (kbd * Console.console) bool :=
  let! n := gets (fun s => length (codes s.1)) in
  let! keys := zoom fst (fun k s => (k, s.2)) (drain (n + 1)) in
  zoom snd (fun c s => (s.1, c)) (Console.consoleintr keys).

(** ** The keyboard *)

(** A key goes down or up: the key's number, and whether it is one of those with an escape code. *)
Inductive stroke := Press (ext : bool) (k : Z) | Release (ext : bool) (k : Z).

Definition escape (ext : bool) : list Z := if ext then [0xE0] else [].

(** The codes the keyboard sends. *)
Definition encode (x : stroke) : list Z :=
  match x with Press ext k => escape ext ++ [k] | Release ext k => escape ext ++ [k + 0x80] end.

(** Keys have seven-bit numbers, and no key's release is the escape code. *)
Definition stroke_ok (x : stroke) : Prop :=
  match x with Press _ k => 0 <= k < 0x80 | Release _ k => 0 <= k < 0x80 /\ k <> 0x60 end.

(** The modifier keys that are down and the locks that are on. *)
Record modifiers := Mods { m_ctl : bool; m_shift : bool; m_alt : bool; m_caps : bool; m_num : bool; m_scroll : bool }.

Definition is_ctl (ext : bool) (k : Z) : bool := bool_decide (k = 0x1D).
Definition is_alt (ext : bool) (k : Z) : bool := bool_decide (k = 0x38).
Definition is_shift (ext : bool) (k : Z) : bool := negb ext && bool_decide (k = 0x2A \/ k = 0x36).
Definition is_lock (n : Z) (ext : bool) (k : Z) : bool := negb ext && bool_decide (k = n).

Definition after (m : modifiers) (x : stroke) : modifiers :=
  match x with
  | Press e k =>
      Mods (m_ctl m || is_ctl e k) (m_shift m || is_shift e k) (m_alt m || is_alt e k)
           (xorb (m_caps m) (is_lock 0x3A e k)) (xorb (m_num m) (is_lock 0x45 e k)) (xorb (m_scroll m) (is_lock 0x46 e k))
  | Release e k =>
      Mods (m_ctl m && negb (is_ctl e k)) (m_shift m && negb (is_shift e k)) (m_alt m && negb (is_alt e k))
           (m_caps m) (m_num m) (m_scroll m)
  end.

(** The rows of keys: the number of the first key, and the characters without and with shift. *)
Definition rows : list (Z * list Z * list Z) :=
  [(0x01, [27], [27]); (0x02, ch "1234567890-=", ch "!@#$%^&*()_+"); (0x0E, [8; 9], [8; 9]);
   (0x10, ch "qwertyuiop[]", ch "QWERTYUIOP{}"); (0x1C, [10], [10]);
   (0x1E, ch "asdfghjkl;'`", ch "ASDFGHJKL:" ++ [34] ++ ch "~"); (0x2B, ch "\zxcvbnm,./", ch "|ZXCVBNM<>?");
   (0x37, ch "*", ch "*"); (0x39, [32], [32]); (0x47, ch "789-456+1230.", ch "789-456+1230.")].

Definition in_row (k : Z) (r : Z * list Z * list Z) : bool :=
  bool_decide (r.1.1 <= k < r.1.1 + Z.of_nat (length r.1.2)).
Definition layout (shifted : bool) (k : Z) : Z :=
  match List.find (in_row k) rows with
  | Some (n, lower, upper) => nth (Z.to_nat (k - n)) (if shifted then upper else lower) 0
  | None => 0
  end.

Definition is_letter (c : Z) : bool := bool_decide (97 <= c <= 122) || bool_decide (65 <= c <= 90).

(** Control characters: of the letters, and of the backslash and the slash. *)
Definition control (k : Z) : Z :=
  let c := layout false k in
  if is_letter c then c - 96
  else if decide (k = 0x2B) then 28
  else if decide (k = 0x35) then 239
  else if decide (k = 0x1C) then 13
  else 0.

(** The keys with an escape code: enter and slash of the keypad, the arrows and their neighbours. *)
Definition extended (ctl : bool) (k : Z) : Z :=
  if decide (k = 0x1C) then if ctl then 13 else 10
  else if decide (k = 0x35) then if ctl then 239 else 47
  else if decide (k = 0x17) then 0xE0 else if decide (k = 0x4F) then 0xE1
  else if decide (k = 0x48) then 0xE2 else if decide (k = 0x50) then 0xE3
  else if decide (k = 0x4B) then 0xE4 else if decide (k = 0x4D) then 0xE5
  else if decide (k = 0x49) then 0xE6 else if decide (k = 0x51) then 0xE7
  else if decide (k = 0x52) then 0xE8 else if decide (k = 0x53) then 0xE9
  else 0.

(** The character of a key that goes down, 0 for none; the caps lock exchanges the cases of the letters. *)
Definition typed (m : modifiers) (ext : bool) (k : Z) : Z :=
  if ext then extended (m_ctl m) k
  else if m_ctl m then control k
  else let c := layout (m_shift m) k in if m_caps m && is_letter c then Z.lxor c 32 else c.

(** The characters of a sequence of strokes. *)
Fixpoint text (m : modifiers) (l : list stroke) : list Z :=
  match l with
  | [] => []
  | x :: l' =>
      let m' := after m x in
      match x with Press ext k => typed m' ext k :: text m' l' | Release _ _ => text m' l' end
  end.

(** The bits of the static [shift]. *)
Definition bits (m : modifiers) : Z :=
  Z.b2z (m_shift m) + 2 * Z.b2z (m_ctl m) + 4 * Z.b2z (m_alt m) + 8 * Z.b2z (m_caps m) + 16 * Z.b2z (m_num m) + 32 * Z.b2z (m_scroll m).

(** ** Every code is handled *)

Definition byte (d : Z) : Prop := 0 <= d < 256.

(** The result of one code in one shift state, for all of them. *)
Definition code_ok (d sh : Z) : bool :=
  match kbdgetc (MkKbd [d] sh) with
  | Ret c s => bool_decide (0 <= c < 256 /\ 0 <= shift s < 128)
  | Stop _ _ => false
  end.

Lemma all_codes_ok : forallb (fun d => forallb (code_ok d) (seqZ 0 128)) (seqZ 0 256) = true.
Proof. by vm_compute. Qed.

(** [kbdgetc] does not look at the codes behind the first one. *)
Lemma kbdgetc_first d rest sh : kbdgetc (MkKbd (d :: rest) sh) =
  match kbdgetc (MkKbd [d] sh) with Ret c s => Ret c (MkKbd rest (shift s)) | Stop r s => Stop r (MkKbd rest (shift s)) end.
Proof.
  unfold kbdgetc, key_down, set_shift, index, bind, gets, modify, ret, stop_with. cbn [codes shift].
  repeat (first [case_decide | match goal with |- context [match ?t !! ?i with _ => _ end] => destruct (t !! i) end]; cbn [codes shift]; try done).
Qed.

Lemma kbdgetc_ok d rest sh : byte d -> 0 <= sh < 128 -> exists c sh', kbdgetc (MkKbd (d :: rest) sh) = Ret c (MkKbd rest sh') /\
  byte c /\ 0 <= sh' < 128.
Proof.
  intros Hd Hs. assert (code_ok d sh = true) as Hok.
  { pose proof all_codes_ok as Hall. rewrite forallb_forall in Hall. specialize (Hall d). rewrite forallb_forall in Hall.
    apply Hall; apply list_elem_of_In, elem_of_seqZ; unfold byte in *; lia. }
  rewrite kbdgetc_first. unfold code_ok in Hok. destruct (kbdgetc (MkKbd [d] sh)) as [c s'|]; [|done].
  apply bool_decide_eq_true in Hok as [H1 H2]. by exists c, (shift s').
Qed.

Lemma drain_ok l : forall sh fuel, Forall byte l -> 0 <= sh < 128 -> (length l < fuel)%nat ->
  exists keys sh', drain fuel (MkKbd l sh) = Ret keys (MkKbd [] sh') /\ Forall byte keys /\ 0 <= sh' < 128.
Proof.
  induction l as [|d l IH]; intros sh [|fuel] Hl Hs Hf; try (simpl in Hf; lia); cbn [drain].
  - exists [], sh. by split.
  - inversion_clear Hl as [|? ? Hd Hl']. destruct (kbdgetc_ok d l sh Hd Hs) as (c & sh1 & E & Hc & Hs1).
    destruct (IH sh1 fuel Hl' Hs1) as (keys & sh' & E' & Hk & Hs'); [simpl in Hf; lia|].
    exists (c :: keys), sh'. unfold bind. rewrite E, decide_False by (unfold byte in Hc; lia). rewrite E'. split; [done|]. split; [by constructor | done].
Qed.

(** ** Every stroke is decoded *)

Definition all_mods : list modifiers :=
  ctl ← [false; true]; sh ← [false; true]; alt ← [false; true]; caps ← [false; true]; num ← [false; true]; scroll ← [false; true];
  [Mods ctl sh alt caps num scroll].

(** The codes of one stroke are taken with the right result. *)
Definition stroke_keys (m : modifiers) (x : stroke) : list Z :=
  match x with
  | Press ext k => (if ext then [0] else []) ++ [typed (after m x) ext k]
  | Release ext _ => (if ext then [0] else []) ++ [0]
  end.
Definition decoded (m : modifiers) (x : stroke) : bool :=
  match drain (length (encode x) + 1) (MkKbd (encode x) (bits m)) with
  | Ret keys s => bool_decide (keys = stroke_keys m x /\ codes s = [] /\ shift s = bits (after m x))
  | Stop _ _ => false
  end.

Lemma all_decoded : forallb (fun m => forallb (fun k => decoded m (Press false k) && decoded m (Press true k) &&
  (bool_decide (k = 0x60) || decoded m (Release false k) && decoded m (Release true k))) (seqZ 0 128)) all_mods = true.
Proof. by vm_compute. Qed.

Lemma stroke_decoded m x : stroke_ok x -> decoded m x = true.
Proof.
  intros Hx. pose proof all_decoded as Hall. rewrite forallb_forall in Hall. specialize (Hall m).
  assert (In m all_mods) as Hm by (destruct m as [[] [] [] [] [] []]; simpl; tauto). apply Hall in Hm. rewrite forallb_forall in Hm.
  assert (forall k, 0 <= k < 0x80 -> In k (seqZ 0 128)) as Hin by (intros k Hk; apply list_elem_of_In, elem_of_seqZ; lia).
  destruct x as [ext k | ext k]; simpl in Hx.
  - specialize (Hm k (Hin k Hx)). destruct ext; by repeat (apply andb_true_iff in Hm as [Hm ?]).
  - destruct Hx as [Hk Hne]. specialize (Hm k (Hin k Hk)). rewrite (bool_decide_eq_false_2 _ Hne) in Hm.
    apply andb_true_iff in Hm as [_ Hm]. simpl in Hm. apply andb_true_iff in Hm as [? ?]. by destruct ext.
Qed.

(** Taking out codes followed by others. *)
Lemma drain_app l : forall sh keys sh' rest f g l' s', Forall byte l -> 0 <= sh < 128 -> drain f (MkKbd l sh) = Ret keys (MkKbd [] sh') ->
  drain g (MkKbd rest sh') = Ret l' s' -> drain (length l + g) (MkKbd (l ++ rest) sh) = Ret (keys ++ l') s'.
Proof.
  induction l as [|d l IH]; intros sh keys sh' rest [|f] g l' s' Hl Hs E1 E2; try done; cbn [drain app length Nat.add] in *.
  - unfold bind, ret in E1. simpl in E1. by injection E1 as <- <-.
  - inversion_clear Hl as [|? ? Hd Hl']. unfold bind in *. destruct (kbdgetc_ok d l sh Hd Hs) as (c & sh1 & E & Hc & Hs1).
    destruct (kbdgetc_ok d (l ++ rest) sh Hd Hs) as (c' & sh1' & E' & _). rewrite kbdgetc_first in E, E'.
    destruct (kbdgetc (MkKbd [d] sh)) as [c0 s0|] eqn:E0; [|done]. injection E as <- <-. injection E' as <- <-.
    rewrite kbdgetc_first, E0 in E1 |- *. rewrite decide_False in E1 |- * by (unfold byte in Hc; lia).
    destruct (drain f _) as [l1 s2|] eqn:E3; [|done]. injection E1 as <- ->.
    by rewrite (IH _ _ _ rest f g l' s' Hl' Hs1 E3 E2).
Qed.

Lemma encode_bytes x : stroke_ok x -> Forall byte (encode x).
Proof. unfold byte. destruct x as [[] k | [] k]; simpl; intros; repeat constructor; lia. Qed.

Lemma bits_range m : 0 <= bits m < 128.
Proof. destruct m as [[] [] [] [] [] []]; by vm_compute. Qed.

(** The characters of the strokes, up to the zeros for codes without one. *)
Lemma drain_strokes l : forall m, Forall stroke_ok l -> exists keys,
  drain (length (concat (encode <$> l)) + 1) (MkKbd (concat (encode <$> l)) (bits m)) = Ret keys (MkKbd [] (bits (foldl after m l))) /\
  Forall byte keys /\ filter (fun c : Z => c <> 0) keys = filter (fun c : Z => c <> 0) (text m l).
Proof.
  induction l as [|x l IH]; intros m Hl; [by exists []|]. inversion_clear Hl as [|? ? Hx Hl'].
  destruct (IH (after m x) Hl') as (keys & E & Hb & Hk). pose proof (stroke_decoded m x Hx) as Hd. unfold decoded in Hd.
  destruct (drain_ok (encode x) (bits m) (length (encode x) + 1) (encode_bytes x Hx) (bits_range m)) as (k1 & sh1 & E1 & Hb1 & _); [lia|].
  rewrite E1 in Hd. apply bool_decide_eq_true in Hd as (-> & _ & Hs). simpl in Hs. subst sh1.
  exists (stroke_keys m x ++ keys). split_and!.
  - cbn [fmap list_fmap concat foldl]. rewrite length_app, <- Nat.add_assoc.
    eapply drain_app; [by apply encode_bytes | apply bits_range | exact E1 | exact E].
  - by apply Forall_app.
  - rewrite filter_app, Hk. destruct x as [[] k | [] k]; cbn [stroke_keys text app]; rewrite ?filter_cons; simpl; try done; by repeat case_decide.
Qed.

(** The line discipline ignores a zero. *)
Lemma keys_filter l : forall a, foldl (fun a c => Console.key c a) a (filter (fun c : Z => c <> 0) l) = foldl (fun a c => Console.key c a) a l.
Proof.
  induction l as [|c l IH]; intros a; [done|]. rewrite filter_cons. case_decide as Hc; cbn [foldl]; rewrite IH; [done|].
  replace c with 0 by (destruct (decide (c = 0)); [done | by destruct Hc]). done.
Qed.

Lemma elem_of_keys c (l l' : list Z) : c <> 0 -> filter (fun c : Z => c <> 0) l = filter (fun c : Z => c <> 0) l' -> c ∈ l <-> c ∈ l'.
Proof.
  intros Hc E. transitivity (c ∈ filter (fun c : Z => c <> 0) l); [|rewrite E]; rewrite list_elem_of_filter; tauto.
Qed.

Lemma runs_kbdintr s c a keys k : drain (length (codes s) + 1) s = Ret keys k -> Forall byte keys ->
  Console.lrep c a -> Console.calm c -> Console.locked c = false ->
  runs kbdintr (fun d s' => s'.1 = k /\ d = bool_decide (Console.C 80 ∈ keys) /\
    Console.lrep s'.2 (foldl (fun a c => Console.key c a) a keys) /\ Console.calm s'.2 /\ Console.locked s'.2 = false) (s, c).
Proof.
  intros E Hb Hl Hc Hk. unfold kbdintr. rstep. apply runs_bind, runs_zoom. exists keys, k. split; [exact E|]. apply runs_zoom.
  eapply runs_mono; [by apply (Console.runs_consoleintr c a keys)|]. intros d c' (-> & R1 & R2 & R3 & _). done.
Qed.

(** C40: the keyboard drives the line discipline.  Whatever bytes the controller delivers, in whatever state of
    the shift keys, [kbdintr] reads all of them, stays within its tables and leaves the line discipline in order with the console
    lock free.  When the bytes are the codes of keys going down and up, the line discipline gets exactly the characters
    that the layout of the keyboard gives to the keys, with the modifiers and locks as they are at each stroke, and the decoder
    remembers the modifiers that are down and the locks that are on. *)
Theorem keyboard_to_line (s : kbd) c a : Console.lrep c a -> Console.calm c -> Console.locked c = false ->
  (Forall byte (codes s) -> 0 <= shift s < 128 ->
     runs kbdintr (fun _ s' => codes s'.1 = [] /\ 0 <= shift s'.1 < 128 /\ Console.calm s'.2 /\ Console.locked s'.2 = false /\
       exists keys, Console.lrep s'.2 (foldl (fun a c => Console.key c a) a keys)) (s, c)) /\
  (forall m strokes, Forall stroke_ok strokes -> shift s = bits m -> codes s = concat (encode <$> strokes) ->
     runs kbdintr (fun dump s' => s'.1 = MkKbd [] (bits (foldl after m strokes)) /\
       dump = bool_decide (Console.C 80 ∈ text m strokes) /\
       Console.lrep s'.2 (foldl (fun a c => Console.key c a) a (text m strokes)) /\
       Console.calm s'.2 /\ Console.locked s'.2 = false) (s, c)).
Proof.
  intros Hl Hc Hk. split.
  - intros Hb Hs. destruct s as [l sh]. destruct (drain_ok l sh (length l + 1) Hb Hs) as (keys & sh' & E & Hkeys & Hs'); [lia|].
    eapply runs_mono; [by eapply runs_kbdintr|]. intros d s' (-> & _ & R1 & R2 & R3). split_and!; [done | apply Hs' | apply Hs' | done | done | by exists keys].
  - intros m strokes Hok Hs Hcodes. destruct s as [l sh]. simpl in Hs, Hcodes. subst.
    destruct (drain_strokes strokes m Hok) as (keys & E & Hkeys & Ef).
    eapply runs_mono; [by eapply runs_kbdintr|]. intros d s' (-> & -> & R1 & R2 & R3).
    rewrite <- keys_filter, <- Ef, keys_filter. split_and!; try done. apply bool_decide_ext, elem_of_keys; [done | done].
Qed.

(** Shift down, h, shift up, i, return. *)
Lemma keyboard_to_line_witness :
  let l := [Press false 0x2A; Press false 0x23; Release false 0x23; Release false 0x2A; Press false 0x17; Press false 0x1C] in
  exists d s', kbdintr (MkKbd (concat (encode <$> l)) 0, Console.boot) = Ret d s' /\ s'.1 = MkKbd [] 0 /\
    Console.lrep s'.2 (Console.Line [72; 105; 10] []).
Proof.
  intros l. destruct Console.boot_rep as [Hl Hc].
  destruct (keyboard_to_line (MkKbd (concat (encode <$> l)) 0) Console.boot (Console.Line [] [])) as [_ H]; [exact Hl | exact Hc | done|].
  destruct (H (Mods false false false false false false) l) as (d & s' & E & E1 & _ & R & _); [|reflexivity | reflexivity|].
  - repeat constructor; simpl; lia.
  - exists d, s'. split; [exact E|]. split; [rewrite E1; by vm_compute|]. exact R.
Defined.
End Kbd.
