(* ===== verification/Ide.v ===== *)
(** The disk driver of the hardware build: src/xv6-public/ide.c.

    Requests wait in a queue linked through [qnext]; the first of them is the one the
    controller works on.  [iderw] runs in segments between calls of [sleep], under the
    driver's lock, and [ideintr] comes in between.  The controller is a parameter
    ([Ata]); what the driver relies on is stated in [AtaSpec]: a controller without faults, which becomes ready and
    reports no error. *)

From S2P Require Import Prelude Bytes BlockCache Bio FsLayout.

Module Ide.

Definition FSSIZE : Z := 40000.
Definition IDE_CMD_READ : Z := 0x20.
Definition IDE_CMD_WRITE : Z := 0x30.
Definition IDE_CMD_RDMUL : Z := 0xc4.
Definition IDE_CMD_WRMUL : Z := 0xc5.

(** ** The controller *)

(** Writing a register, writing and reading the data port for a whole sector, and reading
    the status register. *)
Class Ata (D : Type) := {
  ata_outb : Z -> Z -> D -> D;
  ata_outsl : list Z -> D -> D;
  ata_insl : D -> list Z * D;
  ata_status : D -> Z * D
}.

(** ** The driver *)

Record ide (D : Type) := MkIde {
  idelock : bool;
  bufs : list Bio.buf;
  qnext : list (option nat);
  idequeue : option nat;
  havedisk1 : bool;
  curpid : Z;
  ctl : D;
  wakeups : list kaddr
}.
Arguments MkIde {D}. Arguments idelock {D}. Arguments bufs {D}. Arguments qnext {D}. Arguments idequeue {D}.
Arguments havedisk1 {D}. Arguments curpid {D}. Arguments ctl {D}. Arguments wakeups {D}.

Section ide.
Context {D : Type} `{Ata D}.
Implicit Types s : ide D.

Definition set_lock (b : bool) s : ide D := MkIde b (bufs s) (qnext s) (idequeue s) (havedisk1 s) (curpid s) (ctl s) (wakeups s).
Definition set_buf (i : nat) (b : Bio.buf) s : ide D :=
  MkIde (idelock s) (<[i := b]> (bufs s)) (qnext s) (idequeue s) (havedisk1 s) (curpid s) (ctl s) (wakeups s).
Definition set_qnext (i : nat) (n : option nat) s : ide D :=
  MkIde (idelock s) (bufs s) (<[i := n]> (qnext s)) (idequeue s) (havedisk1 s) (curpid s) (ctl s) (wakeups s).
Definition set_queue (n : option nat) s : ide D :=
  MkIde (idelock s) (bufs s) (qnext s) n (havedisk1 s) (curpid s) (ctl s) (wakeups s).
Definition set_disk1 (b : bool) s : ide D :=
  MkIde (idelock s) (bufs s) (qnext s) (idequeue s) b (curpid s) (ctl s) (wakeups s).
Definition set_ctl (d : D) s : ide D :=
  MkIde (idelock s) (bufs s) (qnext s) (idequeue s) (havedisk1 s) (curpid s) d (wakeups s).

Definition getb s (i : nat) : Bio.buf := nth i (bufs s) (Bio.MkBuf 0 0 0 false 0 0 0 0 []).
Definition getq s (i : nat) : option nat := default None (qnext s !! i).

Definition acquire : M (ide D) unit := let! l := gets idelock in if l then stop_with Spins else modify (set_lock true).
Definition release : M (ide D) unit := let! l := gets idelock in if l then modify (set_lock false) else panic "release".
Definition wakeup (i : nat) : M (ide D) unit :=
  modify (fun s => MkIde (idelock s) (bufs s) (qnext s) (idequeue s) (havedisk1 s) (curpid s) (ctl s) (wakeups s ++ [A_buf i])).

Definition outb (p v : Z) : M (ide D) unit := modify (fun s => set_ctl (ata_outb p v (ctl s)) s).
Definition outsl (l : list Z) : M (ide D) unit := modify (fun s => set_ctl (ata_outsl l (ctl s)) s).
Definition insl : M (ide D) (list Z) := fun s => let '(l, d) := ata_insl (ctl s) in Ret l (set_ctl d s).
Definition inb_status : M (ide D) Z := fun s => let '(r, d) := ata_status (ctl s) in Ret r (set_ctl d s).

(** [idewait(checkerr)]: [fuel] bounds the number of polls. *)
Fixpoint idewait (fuel : nat) (checkerr : bool) : M (ide D) Z :=
  match fuel with
  | O => stop_with Spins
  | S fuel' =>
      let! r := inb_status in
      if decide (Z.land r 0xC0 <> 0x40) then idewait fuel' checkerr
      else if checkerr && bool_decide (Z.land r 0x21 <> 0) then ret (-1)
      else ret 0
  end.

(** The loop of [ideinit] that looks for the second disk. *)
Fixpoint find_disk1 (n : nat) : M (ide D) unit :=
  match n with
  | O => ret tt
  | S n' =>
      let! r := inb_status in
      if decide (r <> 0) then modify (set_disk1 true) else find_disk1 n'
  end.

(** The call of [ioapicenable] is left out: interrupts are delivered to [ideintr]. *)
Definition ideinit (fuel : nat) : M (ide D) unit :=
  modify (set_lock false) ;;;
  let! _ := idewait fuel false in
  outb 0x1f6 (Z.lor 0xe0 (Z.shiftl 1 4)) ;;;
  find_disk1 1000 ;;;
  outb 0x1f6 (Z.lor 0xe0 (Z.shiftl 0 4)).

(** [idestart(b)]: [None] is the null pointer. *)
Definition idestart (fuel : nat) (bp : option nat) : M (ide D) unit :=
  match bp with
  | None => panic "idestart"
  | Some i =>
      let! b := gets (fun s => getb s i) in
      if decide (FSSIZE <= Bio.blockno b) then panic "incorrect blockno" else
      let sector_per_block := Z.of_nat BSIZE / 512 in
      let sector := Bio.blockno b * sector_per_block in
      let read_cmd := if decide (sector_per_block = 1) then IDE_CMD_READ else IDE_CMD_RDMUL in
      let write_cmd := if decide (sector_per_block = 1) then IDE_CMD_WRITE else IDE_CMD_WRMUL in
      if decide (7 < sector_per_block) then panic "idestart" else
      let! _ := idewait fuel false in
      outb 0x3f6 0 ;;;
      outb 0x1f2 sector_per_block ;;;
      outb 0x1f3 (Z.land sector 0xff) ;;;
      outb 0x1f4 (Z.land (Z.shiftr sector 8) 0xff) ;;;
      outb 0x1f5 (Z.land (Z.shiftr sector 16) 0xff) ;;;
      outb 0x1f6 (Z.lor (Z.lor 0xe0 (Z.shiftl (Z.land (Bio.dev b) 1) 4)) (Z.land (Z.shiftr sector 24) 0x0f)) ;;;
      if decide (Z.land (Bio.flags b) Bio.B_DIRTY <> 0) then
        outb 0x1f7 write_cmd ;;; outsl (Bio.data b)
      else outb 0x1f7 read_cmd
  end.

Definition with_data (l : list Z) (b : Bio.buf) : Bio.buf :=
  Bio.MkBuf (Bio.flags b) (Bio.dev b) (Bio.blockno b) (Bio.locked b) (Bio.lpid b) (Bio.refcnt b) (Bio.prev b) (Bio.next b) l.
Definition with_flags (f : Z) (b : Bio.buf) : Bio.buf :=
  Bio.MkBuf f (Bio.dev b) (Bio.blockno b) (Bio.locked b) (Bio.lpid b) (Bio.refcnt b) (Bio.prev b) (Bio.next b) (Bio.data b).

Definition ideintr (fuel : nat) : M (ide D) unit :=
  acquire ;;;
  let! q := gets idequeue in
  match q with
  | None => release
  | Some i =>
      let! n := gets (fun s => getq s i) in
      modify (set_queue n) ;;;
      let! b := gets (fun s => getb s i) in
      (if decide (Z.land (Bio.flags b) Bio.B_DIRTY = 0) then
         let! r := idewait fuel true in
         if decide (0 <= r) then
           let! l := insl in modify (fun s => set_buf i (with_data l (getb s i)) s)
         else ret tt
       else ret tt) ;;;
      modify (fun s => set_buf i (with_flags (Z.lor (Bio.flags (getb s i)) Bio.B_VALID) (getb s i)) s) ;;;
      modify (fun s => set_buf i (with_flags (Z.land (Bio.flags (getb s i)) (Z.lnot Bio.B_DIRTY)) (getb s i)) s) ;;;
      wakeup i ;;;
      let! q := gets idequeue in
      (match q with None => ret tt | Some _ => idestart fuel q end) ;;;
      release
  end.

(** The walk along the [qnext] links to the first null one: [pp] is [None] for [&idequeue], [Some j] for
    [&bufs[j].qnext]; the link found is then set to [b]. *)
Fixpoint enqueue (fuel : nat) (pp : option nat) (i : nat) : M (ide D) unit :=
  match fuel with
  | O => stop_with Spins
  | S fuel' =>
      let! x := gets (fun s => match pp with None => idequeue s | Some j => getq s j end) in
      match x with
      | Some j => enqueue fuel' (Some j) i
      | None => match pp with None => modify (set_queue (Some i)) | Some j => modify (set_qnext j (Some i)) end
      end
  end.

(** The waiting loop of [iderw], under the lock. *)
Definition iderw_wait (i : nat) : M (ide D) (segment unit unit) :=
  let! b := gets (fun s => getb s i) in
  if decide (Z.land (Bio.flags b) (Z.lor Bio.B_VALID Bio.B_DIRTY) <> Bio.B_VALID) then
    release ;;; ret (Blocked (A_buf i) tt)
  else release ;;; ret (Done tt).

Definition iderw (fuel : nat) (i : nat) : M (ide D) (segment unit unit) :=
  let! b := gets (fun s => getb s i) in
  let! p := gets curpid in
  if decide (~ (Bio.locked b = true /\ Bio.lpid b = p)) then panic "iderw: buf not locked" else
  if decide (Z.land (Bio.flags b) (Z.lor Bio.B_VALID Bio.B_DIRTY) = Bio.B_VALID) then panic "iderw: nothing to do" else
  let! d1 := gets havedisk1 in
  if decide (Bio.dev b <> 0 /\ d1 = false) then panic "iderw: ide disk 1 not present" else
  acquire ;;;
  modify (set_qnext i None) ;;;
  let! n := gets (fun s => length (bufs s)) in
  enqueue (n + 1) None i ;;;
  let! q := gets idequeue in
  (if decide (q = Some i) then idestart fuel (Some i) else ret tt) ;;;
  iderw_wait i.

(** [sleep] has returned. *)
Definition iderw_again (i : nat) : M (ide D) (segment unit unit) := acquire ;;; iderw_wait i.
End ide.

(** ** What the driver relies on *)

(** The sectors of the two drives, the task-file registers, and the sector a read command
    in progress has asked for. *)
Record aview := AV {
  adisk : gmap (Z * Z) (list Z);
  aregs : gmap Z Z;
  apend : option (Z * Z)
}.

Definition reg (v : aview) (p : Z) : Z := default 0 (aregs v !! p).
Definition sector_of (d : gmap (Z * Z) (list Z)) (k : Z * Z) : list Z := default (replicate 512 0) (d !! k).

(** The drive and the 28-bit sector number the registers hold. *)
Definition addressed (v : aview) : Z * Z :=
  (Z.land (Z.shiftr (reg v 0x1f6) 4) 1,
   reg v 0x1f3 + reg v 0x1f4 * 2 ^ 8 + reg v 0x1f5 * 2 ^ 16 + Z.land (reg v 0x1f6) 15 * 2 ^ 24).

Section spec.
Context {D : Type} `{Ata D}.

(** Within [n] reads the status register shows ready, and then no error. *)
Fixpoint becomes_ready (rep : D -> aview -> Prop) (n : nat) (d : D) (v : aview) : Prop :=
  match n with
  | O => False
  | S n' => rep (ata_status d).2 v /\
            if decide (Z.land (ata_status d).1 0xC0 = 0x40) then Z.land (ata_status d).1 0x21 = 0
            else becomes_ready rep n' (ata_status d).2 v
  end.
End spec.

Class AtaSpec (D : Type) `{Ata D} := {
  arep : D -> aview -> Prop;
  polls : nat;
  ready_law d v : arep d v -> becomes_ready arep polls d v;
  outb_law d v p x : arep d v -> p <> 0x1f7 -> arep (ata_outb p x d) (AV (adisk v) (<[p := x]> (aregs v)) (apend v));
  read_law d v : arep d v -> apend v = None -> reg v 0x1f2 = 1 ->
    arep (ata_outb 0x1f7 IDE_CMD_READ d) (AV (adisk v) (aregs v) (Some (addressed v)));
  write_law d v l : arep d v -> apend v = None -> reg v 0x1f2 = 1 -> length l = 512%nat ->
    arep (ata_outsl l (ata_outb 0x1f7 IDE_CMD_WRITE d)) (AV (<[addressed v := l]> (adisk v)) (aregs v) None);
  insl_law d v k : arep d v -> apend v = Some k ->
    (ata_insl d).1 = sector_of (adisk v) k /\ arep (ata_insl d).2 (AV (adisk v) (aregs v) None)
}.

(** ** The queue *)

Fixpoint links (next : nat -> option nat) (h : option nat) (q : list nat) : Prop :=
  match q with
  | [] => h = None
  | i :: q' => h = Some i /\ links next (next i) q'
  end.

Definition key (b : Bio.buf) : Z * Z := (Z.land (Bio.dev b) 1, Bio.blockno b).
Definition dirty (b : Bio.buf) : Prop := Z.land (Bio.flags b) Bio.B_DIRTY <> 0.
Definition finished (b : Bio.buf) : Prop := Z.land (Bio.flags b) (Z.lor Bio.B_VALID Bio.B_DIRTY) = Bio.B_VALID.
#[global] Instance dirty_dec b : Decision (dirty b) := _.
#[global] Instance finished_dec b : Decision (finished b) := _.

(** What serving the request of [b] does to the disk and to the buffer. *)
Definition served (b : Bio.buf) (disk : gmap (Z * Z) (list Z)) : gmap (Z * Z) (list Z) :=
  if decide (dirty b) then <[key b := Bio.data b]> disk else disk.
Definition answer (b : Bio.buf) (disk : gmap (Z * Z) (list Z)) : Bio.buf :=
  with_flags (Z.land (Z.lor (Bio.flags b) Bio.B_VALID) (Z.lnot Bio.B_DIRTY))
    (if decide (dirty b) then b else with_data (sector_of disk (key b)) b).

Section rep.
Context {D : Type} `{HA : Ata D, HSpec : !AtaSpec D}.
Implicit Types s : ide D.

Definition sound (b : Bio.buf) : Prop := length (Bio.data b) = 512%nat /\ 0 <= Bio.blockno b < FSSIZE /\ ~ finished b.

(** The controller works on the request of [b]; [disk] is the disk before it. *)
Definition started (b : Bio.buf) (disk : gmap (Z * Z) (list Z)) (v : aview) : Prop :=
  adisk v = served b disk /\ apend v = (if decide (dirty b) then None else Some (key b)).

Definition active s (q : list nat) (disk : gmap (Z * Z) (list Z)) (v : aview) : Prop :=
  match q with
  | [] => adisk v = disk /\ apend v = None
  | i :: _ => started (getb s i) disk v
  end.

(** The driver at rest: the requests [q] are linked in order, none is finished, the
    controller works on the first; [disk] holds what the requests before them left. *)
Record ide_rep s (q : list nat) (disk : gmap (Z * Z) (list Z)) : Prop := {
  ir_lock : idelock s = false;
  ir_len : length (qnext s) = length (bufs s);
  ir_links : links (getq s) (idequeue s) q;
  ir_nodup : NoDup q;
  ir_bufs : Forall (fun i => (i < length (bufs s))%nat) q;
  ir_sound : Forall (fun i => sound (getb s i)) q;
  ir_active : exists v, arep (ctl s) v /\ active s q disk v
}.

(** ** Commands to the controller *)

Ltac istep :=
  match goal with
  | |- runs (bind _ _) _ _ => apply runs_bind
  | |- runs (ret _) _ _ => apply runs_ret
  | |- runs (gets _) _ _ => apply runs_gets
  | |- runs (modify _) _ _ => apply runs_modify
  end; cbv beta.

Ltac simpl_regs := repeat first [rewrite lookup_insert_eq | rewrite lookup_insert_ne by lia]; cbn [default].

Lemma runs_idewait s v checkerr (Q : Z -> ide D -> Prop) n fuel :
  becomes_ready arep n (ctl s) v -> (n <= fuel)%nat ->
  (forall d, arep d v -> Q 0 (set_ctl d s)) -> runs (idewait fuel checkerr) Q s.
Proof.
  revert s fuel. induction n as [|n IH]; intros s [|fuel] Hr Hn HQ; cbn [becomes_ready idewait] in Hr |- *; try (done || lia).
  destruct Hr as [Ha Hr]. istep. unfold runs at 1, inb_status. destruct (ata_status (ctl s)) as [r d] eqn:E. cbn [fst snd] in *.
  exists r, (set_ctl d s). split; [done|].
  destruct (decide (Z.land r 192 = 64)) as [E1|E1].
  - rewrite decide_False by tauto. rewrite bool_decide_eq_false_2 by (rewrite Hr; lia). rewrite andb_false_r. istep. auto.
  - rewrite decide_True by done. apply IH; [done | lia|]. intros d' Hd. apply (HQ d' Hd).
Qed.

Lemma runs_outb s v p x (Q : unit -> ide D -> Prop) : arep (ctl s) v -> p <> 0x1f7 ->
  (forall d, arep d (AV (adisk v) (<[p := x]> (aregs v)) (apend v)) -> Q tt (set_ctl d s)) -> runs (outb p x) Q s.
Proof. intros Hv Hp HQ. unfold outb. istep. apply HQ. by apply outb_law. Qed.

Lemma addressed_key sector dv : 0 <= sector < FSSIZE ->
  let hi := Z.lor (Z.lor 0xe0 (Z.shiftl (Z.land dv 1) 4)) (Z.land (Z.shiftr sector 24) 0x0f) in
  (Z.land (Z.shiftr hi 4) 1,
   Z.land sector 0xff + Z.land (Z.shiftr sector 8) 0xff * 2 ^ 8 + Z.land (Z.shiftr sector 16) 0xff * 2 ^ 16 + Z.land hi 15 * 2 ^ 24)
  = (Z.land dv 1, sector).
Proof.
  intros Hs. unfold FSSIZE in Hs.
  change 0xff with (Z.ones 8). change 0x0f with (Z.ones 4). rewrite !Z.land_ones, !Z.shiftr_div_pow2 by lia.
  assert (sector / 2 ^ 24 mod 2 ^ 4 = 0) as -> by (rewrite Z.div_small by lia; done). rewrite Z.lor_0_r.
  assert (Z.land dv 1 = 0 \/ Z.land dv 1 = 1) as [E | E].
  { pose proof (Z.land_ones dv 1 ltac:(lia)) as E. change (Z.ones 1) with 1 in E. pose proof (Z.mod_pos_bound dv (2 ^ 1) ltac:(lia)). lia. }
  all: rewrite E; apply (f_equal2 pair); [reflexivity|].
  all: match goal with |- _ + ?x * _ = _ => change x with 0 end; change (2 ^ 8) with 256; change (2 ^ 16) with 65536; Z.to_euclidean_division_equations; lia.
Qed.

Lemma runs_idestart s i v fuel (Q : unit -> ide D -> Prop) :
  sound (getb s i) -> arep (ctl s) v -> apend v = None -> (polls <= fuel)%nat ->
  (forall d v', arep d v' -> started (getb s i) (adisk v) v' -> Q tt (set_ctl d s)) -> runs (idestart fuel (Some i)) Q s.
Proof.
  intros (Hl & Hb & _) Hv Hp Hf HQ. unfold idestart. istep. istep. rewrite decide_False by lia.
  change (Z.of_nat BSIZE / 512) with 1. rewrite decide_False by lia. rewrite Z.mul_1_r. do 2 rewrite (decide_True (P := (1 = 1 :> Z))) by done.
  set (b := getb s i) in *. pose proof (addressed_key (Bio.blockno b) (Bio.dev b) Hb) as HK. simpl in HK.
  istep. apply (runs_idewait s v) with (n := polls); [by apply ready_law | done|]. intros d0 Hv0.
  do 5 (istep; eapply runs_outb; [eassumption | lia|]; cbn [adisk aregs apend]; intros ? ?).
  istep. eapply runs_outb; [eassumption | lia|]; cbn [adisk aregs apend]. intros dl Hd.
  match type of Hd with arep _ ?w => assert (addressed w = key b) as EK; [|assert (reg w 0x1f2 = 1) as ER] end.
  1, 2: unfold addressed, reg; cbn [aregs]; by simpl_regs.
  unfold started, served in HQ. destruct (decide (dirty b)) as [Hd1|Hd1]; unfold dirty in Hd1.
  - rewrite decide_True by done. istep. unfold outb. istep. unfold outsl. istep.
    eapply HQ; [apply write_law; eassumption|]. rewrite EK. done.
  - rewrite decide_False by done. unfold outb. istep. eapply HQ; [apply read_law; eassumption|]. rewrite EK. done.
Qed.
(** ** The links *)

Lemma qlinks_ext next next' h q : (forall j, j ∈ q -> next' j = next j) -> links next h q -> links next' h q.
Proof.
  revert h. induction q as [|a q IH]; intros h E; [done|]. intros [-> Hl]. split; [done|].
  rewrite (E a) by left. apply IH; [|done]. intros j Hj. apply E. by right.
Qed.

Lemma links_snoc next h q i : links next h q -> NoDup (q ++ [i]) -> next i = None ->
  links (fun j => if decide (last q = Some j) then Some i else next j) (match q with [] => Some i | _ => h end) (q ++ [i]).
Proof.
  revert h. induction q as [|a q IH]; intros h Hl Hn Hi; [by simpl|].
  destruct Hl as [-> Hl]. apply NoDup_cons in Hn as [Ha Hn]. split; [done|]. specialize (IH _ Hl Hn Hi).
  destruct q as [|b q].
  - simpl. rewrite decide_True by done. split; [done|]. rewrite decide_False; [done|]. intros [= ->]. apply Ha. by left.
  - rewrite last_cons_cons. rewrite decide_False; [done|].
    intros E. apply Ha. change (a ∈ (b :: q) ++ [i]). apply elem_of_app. left. by apply last_Some_elem_of.
Qed.

Definition appended (pp : option nat) (q : list nat) (i : nat) s : ide D :=
  match last q, pp with
  | Some j, _ | None, Some j => set_qnext j (Some i) s
  | None, None => set_queue (Some i) s
  end.

Lemma runs_enqueue s pp i q fuel (Q : unit -> ide D -> Prop) :
  links (getq s) (match pp with None => idequeue s | Some j => getq s j end) q -> (length q < fuel)%nat ->
  Q tt (appended pp q i s) -> runs (enqueue fuel pp i) Q s.
Proof.
  revert pp fuel. induction q as [|a q IH]; intros pp [|fuel] Hl Hf HQ; simpl in Hf; try lia; cbn [enqueue]; istep; istep.
  - simpl in Hl. rewrite Hl. destruct pp; by istep.
  - destruct Hl as [-> Hl]. apply IH; [done | lia|]. unfold appended in HQ |- *. destruct q; [exact HQ|].
    rewrite last_cons_cons in HQ. destruct (last (n :: q)) eqn:E; [exact HQ | by apply last_None in E].
Qed.

Lemma getq_set s j n k : (j < length (qnext s))%nat -> getq (set_qnext j n s) k = if decide (j = k) then n else getq s k.
Proof.
  intros Hj. unfold getq; simpl. case_decide as E; [subst; by rewrite list_lookup_insert_eq | by rewrite list_lookup_insert_ne].
Qed.

Lemma appended_links s q i : links (getq s) (idequeue s) q -> NoDup (q ++ [i]) -> getq s i = None ->
  Forall (fun j => (j < length (qnext s))%nat) q ->
  links (getq (appended None q i s)) (idequeue (appended None q i s)) (q ++ [i]).
Proof.
  intros Hl Hn Hi Hq. pose proof (links_snoc _ _ _ _ Hl Hn Hi) as HL. unfold appended. destruct (last q) as [j|] eqn:E.
  - replace (match q with [] => Some i | _ => idequeue s end) with (idequeue (set_qnext j (Some i) s)) in HL by (by destruct q).
    eapply qlinks_ext; [|exact HL]. intros k _. rewrite getq_set.
    + repeat case_decide; congruence.
    + rewrite Forall_forall in Hq. apply Hq. by apply last_Some_elem_of.
  - apply last_None in E as ->. exact HL.
Qed.

(** The lock, the buffers and the controller are as they were. *)
Lemma appended_same s pp q i : let s' := appended pp q i s in
  idelock s' = idelock s /\ bufs s' = bufs s /\ ctl s' = ctl s /\ length (qnext s') = length (qnext s) /\ wakeups s' = wakeups s.
Proof. unfold appended. destruct (last q), pp; simpl; rewrite ?length_insert; done. Qed.

(** ** Requests *)

Lemma runs_iderw_wait s i (Q : segment unit unit -> ide D -> Prop) : idelock s = true ->
  Q (if decide (finished (getb s i)) then Done tt else Blocked (A_buf i) tt) (set_lock false s) -> runs (iderw_wait i) Q s.
Proof.
  intros Hl HQ. unfold iderw_wait, release. istep. istep. unfold finished in HQ.
  destruct (decide (Z.land (Bio.flags (getb s i)) _ = _)) as [E|E]; [rewrite decide_False by tauto | rewrite decide_True by done].
  all: do 3 istep; rewrite Hl; do 2 istep; done.
Qed.

Lemma nodup_below (q : list nat) n : NoDup q -> Forall (fun i => (i < n)%nat) q -> (length q <= n)%nat.
Proof.
  intros Hn Hq. transitivity (length (seq 0 n)); [|by rewrite length_seq]. apply submseteq_length, NoDup_submseteq; [done|].
  intros x Hx. rewrite Forall_forall in Hq. apply elem_of_seq. specialize (Hq x Hx). lia.
Qed.

(** The driver is at rest once the lock is released. *)
Lemma rep_release s q disk v : length (qnext s) = length (bufs s) -> links (getq s) (idequeue s) q -> NoDup q ->
  Forall (fun i => (i < length (bufs s))%nat) q -> Forall (fun i => sound (getb s i)) q ->
  arep (ctl s) v -> active s q disk v -> ide_rep (set_lock false s) q disk.
Proof. intros. constructor; try done. by exists v. Qed.

Lemma ide_submit s q disk i fuel : ide_rep s q disk -> i ∉ q -> (i < length (bufs s))%nat -> sound (getb s i) ->
  Bio.locked (getb s i) = true -> Bio.lpid (getb s i) = curpid s -> (Bio.dev (getb s i) = 0 \/ havedisk1 s = true) ->
  (polls <= fuel)%nat ->
  runs (iderw fuel i) (fun x s' => x = Blocked (A_buf i) tt /\ ide_rep s' (q ++ [i]) disk /\ bufs s' = bufs s /\ wakeups s' = wakeups s) s.
Proof.
  intros [Hlk Hlen Hln Hnd Hb Hs (v & Hv & Hact)] Hi Hil Hsi Hlo Hpi Hdv Hf. pose proof (nodup_below _ _ Hnd Hb) as Hql. unfold iderw, acquire. do 4 istep.
  rewrite decide_False by tauto. rewrite decide_False by apply Hsi. do 2 istep.
  rewrite decide_False by (destruct Hdv as [-> | ->]; intros []; congruence). do 3 istep. rewrite Hlk. do 5 istep.
  set (s1 := set_qnext i None (set_lock true s)).
  assert (links (getq s1) (idequeue s1) q) as Hl1.
  { eapply qlinks_ext; [|exact Hln]. intros j Hj. unfold s1. rewrite getq_set by (simpl; lia). case_decide; [congruence | done]. }
  istep. apply (runs_enqueue s1 None i q); [done | simpl; lia|]. do 2 istep.
  assert (NoDup (q ++ [i])) as Hnd' by (apply NoDup_app; split_and!; [done | set_solver | apply NoDup_singleton]).
  assert (links (getq (appended None q i s1)) (idequeue (appended None q i s1)) (q ++ [i])) as Hl2.
  { apply appended_links; [done | done | |].
    - unfold s1. rewrite getq_set by (simpl; lia). by rewrite decide_True.
    - simpl. rewrite length_insert, Hlen. done. }
  destruct (appended_same s1 None q i) as (Elk & Ebf & Ect & Elen & Ewk).
  set (s2 := appended None q i s1) in *. clearbody s2.
  assert (forall j, getb s2 j = getb s j) as Egb by (intros j; unfold getb; by rewrite Ebf).
  simpl in Elk, Ect, Elen. rewrite length_insert in Elen.
  istep. assert (forall d w, arep d w -> active s (q ++ [i]) disk w -> idelock (set_ctl d s2) = true ->
    runs (iderw_wait i) (fun x s' => x = Blocked (A_buf i) tt /\ ide_rep s' (q ++ [i]) disk /\ bufs s' = bufs s /\ wakeups s' = wakeups s) (set_ctl d s2)) as Hend.
  { intros d w Hd Hw El. apply runs_iderw_wait; [done|]. change (getb (set_ctl d s2) i) with (getb s2 i). rewrite Egb.
    rewrite decide_False by apply Hsi. split_and!; [done | | by simpl | by simpl].
    apply (rep_release _ _ _ w); simpl; try done; rewrite ?Ebf; [simpl; congruence | | |].
    - apply Forall_app. split; [done|]. by apply Forall_singleton.
    - eapply Forall_impl; [apply Forall_app; split; [exact Hs | by apply Forall_singleton]|].
      intros j Hj. unfold getb in *. simpl. rewrite Ebf. exact Hj.
    - destruct q; simpl in Hw |- *; unfold getb in *; simpl; rewrite Ebf; exact Hw. }
  destruct q as [|a q]; destruct Hl2 as [Eq _]; rewrite Eq.
  - rewrite decide_True by done. destruct Hact as [Ed Ep].
    apply (runs_idestart s2 i v); [by rewrite Egb | by rewrite Ect | done | done|]. intros d v' Hd Hst.
    apply (Hend d v'); [done | | done]. rewrite Egb, Ed in Hst. exact Hst.
  - rewrite decide_False by (intros [= ->]; apply Hi; by left). istep.
    replace s2 with (set_ctl (ctl s2) s2) by (by destruct s2). apply (Hend _ v); [by rewrite Ect | done | done].
Qed.

(** Between the interrupts the waiting process goes back to sleep until its request is
    finished. *)
Lemma ide_resume s q disk i : ide_rep s q disk ->
  runs (iderw_again i) (fun x s' => x = (if decide (finished (getb s i)) then Done tt else Blocked (A_buf i) tt) /\ s' = s) s.
Proof.
  intros [Hlk _ _ _ _ _ _]. unfold iderw_again, acquire. do 3 istep. rewrite Hlk. istep. apply runs_iderw_wait; [done|].
  split; [done|]. destruct s; simpl in *. by subst.
Qed.


(** ** The interrupt *)

Lemma getb_set s i b k : (i < length (bufs s))%nat -> getb (set_buf i b s) k = if decide (i = k) then b else getb s k.
Proof.
  intros Hi. unfold getb; simpl. rewrite !nth_lookup. case_decide as E; [subst; by rewrite list_lookup_insert_eq | by rewrite list_lookup_insert_ne].
Qed.

Lemma set_buf_twice s i b b' : set_buf i b' (set_buf i b s) = set_buf i b' s.
Proof. unfold set_buf; simpl. by rewrite list_insert_insert_eq. Qed.

(** Reading the sector, when the request of [b] is a read. *)
Lemma runs_fetch s i v disk fuel (Q : unit -> ide D -> Prop) :
  (i < length (bufs s))%nat -> arep (ctl s) v -> started (getb s i) disk v -> (polls <= fuel)%nat ->
  (forall d v', arep d v' -> adisk v' = served (getb s i) disk -> apend v' = None ->
     Q tt (set_ctl d (set_buf i (if decide (dirty (getb s i)) then getb s i else with_data (sector_of disk (key (getb s i))) (getb s i)) s))) ->
  runs (if decide (Z.land (Bio.flags (getb s i)) Bio.B_DIRTY = 0) then
          let! r := idewait fuel true in
          if decide (0 <= r) then let! l := insl in modify (fun s => set_buf i (with_data l (getb s i)) s) else ret tt
        else ret tt) Q s.
Proof.
  intros Hi Hv [Hd Hp] Hf HQ. unfold served in *. destruct (decide (dirty (getb s i))) as [Hy|Hy]; unfold dirty in Hy.
  - rewrite decide_False by done. istep.
    replace s with (set_ctl (ctl s) (set_buf i (getb s i) s)) at 1; [by apply (HQ _ v)|].
    destruct s; unfold set_buf, set_ctl, getb; simpl. f_equal. apply list_insert_id. rewrite nth_lookup.
    simpl in Hi. by destruct (lookup_lt_is_Some_2 _ _ Hi) as [x ->].
  - destruct (decide (Z.land _ _ = 0)) as [E|]; [|done]. istep.
    apply (runs_idewait s v) with (n := polls); [by apply ready_law | done|]. intros d0 Hd0. rewrite decide_True by lia. istep.
    destruct (insl_law d0 v _ Hd0 Hp) as [El Hr]. unfold runs at 1, insl. simpl. destruct (ata_insl d0) as [l d1]. simpl in *.
    eexists _, _; split; [done|]. istep. subst l. rewrite Hd. apply (HQ d1 _ Hr); done.
Qed.

Lemma ide_interrupt s i q disk fuel : ide_rep s (i :: q) disk -> (polls <= fuel)%nat ->
  runs (ideintr fuel) (fun _ s' => ide_rep s' q (served (getb s i) disk) /\
    bufs s' = <[i := answer (getb s i) disk]> (bufs s) /\ wakeups s' = wakeups s ++ [A_buf i]) s.
Proof.
  intros [Hlk Hlen [Eq Hln] Hnd Hb Hs (v & Hv & Hact)] Hf. unfold ideintr, acquire.
  apply NoDup_cons in Hnd as [Hi Hnd]. apply Forall_cons in Hb as [Hbi Hb]. apply Forall_cons in Hs as [Hsi Hs].
  do 3 istep. rewrite Hlk. do 3 istep. change (idequeue (set_lock true s)) with (idequeue s). rewrite Eq. do 6 istep.
  set (s1 := set_queue _ _). istep. change (getb s i) with (getb s1 i) in Hact.
  apply (runs_fetch s1 i v disk); [done | done | done | done|]. intros d v' Hd Ed Ep.
  set (b1 := if decide _ then _ else _). set (s2 := set_ctl d _).
  assert (getb s2 i = b1) as E2 by (unfold s2; change (getb (set_buf i b1 s1) i = b1); rewrite getb_set by done; by rewrite decide_True).
  assert (i < length (bufs s2))%nat as Hl2 by (unfold s2; simpl; by rewrite length_insert).
  do 2 istep. rewrite E2. do 2 istep. rewrite getb_set, decide_True, set_buf_twice by done. simpl (Bio.flags _).
  istep. unfold wakeup. istep. do 2 istep.
  assert (with_flags (Z.land (Z.lor (Bio.flags b1) Bio.B_VALID) (Z.lnot Bio.B_DIRTY)) b1 = answer (getb s i) disk) as EA.
  { unfold b1, answer. change (getb s1 i) with (getb s i). by case_decide. }
  match goal with |- context [with_flags ?f (with_flags ?g b1)] => change (with_flags f (with_flags g b1)) with (with_flags f b1) end.
  rewrite EA. set (s3 := MkIde _ _ _ _ _ _ _ _).
  assert (bufs s3 = <[i := answer (getb s i) disk]> (bufs s)) as E3 by (unfold s3, s2; simpl; apply list_insert_insert_eq).
  assert (forall j, j ∈ q -> getb s3 j = getb s j) as Eg.
  { intros j Hj. unfold getb. rewrite E3, !nth_lookup, list_lookup_insert_ne; [done | congruence]. }
  change (idequeue s3) with (getq s i). change (getb s1 i) with (getb s i) in Ed.
  assert (forall d w, arep d w -> active s3 q (served (getb s i) disk) w ->
    runs release (fun _ s' => ide_rep s' q (served (getb s i) disk) /\
      bufs s' = <[i := answer (getb s i) disk]> (bufs s) /\ wakeups s' = wakeups s ++ [A_buf i]) (set_ctl d s3)) as Hend.
  { intros d' w Hd' Hw. unfold release. do 2 istep. change (idelock (set_ctl d' s3)) with true. cbv iota. istep. split_and!; [|exact E3 | done].
    apply (rep_release _ _ _ w); simpl; rewrite ?E3, ?length_insert; try done.
    apply Forall_forall. intros j Hj. change (sound (getb s3 j)). rewrite Eg by done. rewrite Forall_forall in Hs. by apply Hs. }
  istep. destruct q as [|a q]; simpl in Hln; [rewrite Hln | destruct Hln as [-> Hln]].
  - istep. apply (Hend d v'); done.
  - apply (runs_idestart s3 a v'); [|done | done | done|].
    + rewrite Eg by left. by inversion Hs.
    + intros d' w Hd' Hw. apply (Hend d' w); [done|]. rewrite Ed in Hw. exact Hw.
Qed.

Lemma ide_spurious s disk fuel : ide_rep s [] disk -> runs (ideintr fuel) (fun _ s' => s' = s) s.
Proof.
  intros [Hlk _ Hln _ _ _ _]. simpl in Hln. unfold ideintr, acquire, release. do 3 istep. rewrite Hlk. do 3 istep.
  change (idequeue (set_lock true s)) with (idequeue s). rewrite Hln. do 2 istep. change (idelock (set_lock true s)) with true.
  cbv iota. istep. destruct s; simpl in *; by subst.
Qed.

Lemma answer_finished b disk : finished (answer b disk).
Proof.
  unfold finished, answer, with_flags, Bio.B_VALID, Bio.B_DIRTY; cbn [Bio.flags]. apply Z.bits_inj'. intros n Hn.
  rewrite !Z.land_spec, !Z.lor_spec, Z.lnot_spec by done.
  destruct (decide (n < 3)) as [H3|H3].
  - assert (n = 0 \/ n = 1 \/ n = 2) as [-> | [-> | ->]] by lia; simpl; rewrite ?orb_true_r, ?andb_false_r; done.
  - rewrite (Z.bits_above_log2 4 n), (Z.bits_above_log2 2 n) by (simpl; lia). rewrite !andb_false_r. done.
Qed.

Lemma foldl_ext_in {A B} (f g : A -> B -> A) l : forall a, (forall a x, x ∈ l -> f a x = g a x) -> foldl f a l = foldl g a l.
Proof. induction l as [|x l IH]; intros a E; [done|]. simpl. rewrite E by left. apply IH. intros. apply E. by right. Qed.

(** As many interrupts as there are requests serve them all, first come first served. *)
Lemma ide_drain q : forall s disk fuel, ide_rep s q disk -> (polls <= fuel)%nat ->
  runs (forM q (fun _ => ideintr fuel)) (fun _ s' =>
    ide_rep s' [] (foldl (fun dk i => served (getb s i) dk) disk q) /\ (forall i, i ∈ q -> finished (getb s' i)) /\
    (forall i, i ∉ q -> getb s' i = getb s i) /\ wakeups s' = wakeups s ++ (A_buf <$> q)) s.
Proof.
  induction q as [|a q IH]; intros s disk fuel Hr Hf; cbn [forM].
  { istep. split_and!; [done | set_solver | done | by rewrite app_nil_r]. }
  istep. eapply runs_mono; [by apply ide_interrupt|]. intros _ s1 (Hr1 & Eb & Ew). eapply runs_mono; [by apply IH|].
  destruct Hr as [_ _ _ Hnd Hb _ _]. apply NoDup_cons in Hnd as [Ha Hnd]. apply Forall_cons in Hb as [Hba _].
  assert (forall j, getb s1 j = if decide (a = j) then answer (getb s a) disk else getb s j) as Eg.
  { intros j. unfold getb. rewrite Eb. exact (getb_set s a _ j Hba). }
  intros _ s2 (Hr2 & Hfin & Hoth & Ew2). split_and!.
  - cbn [foldl]. rewrite (foldl_ext_in _ (fun dk j => served (getb s1 j) dk)); [exact Hr2|]. intros dk j Hj. rewrite Eg, decide_False; [done | congruence].
  - intros i Hi. destruct (decide (i ∈ q)); [by apply Hfin|]. rewrite Hoth by done. rewrite Eg, decide_True by set_solver.
    apply answer_finished.
  - intros i Hi. rewrite Hoth, Eg, decide_False by set_solver. done.
  - rewrite Ew2, Ew. simpl. by rewrite <- app_assoc.
Qed.

(** C26: with a controller that meets [AtaSpec], that is without faults, the queue linked through [qnext] is a first-come first-served queue whose head the
    controller works on.  In any state of the driver at rest, with requests [q]:
    - [iderw] on a locked, unfinished buffer outside the queue appends it and sleeps;
    - an interrupt with no request changes nothing; with a first request [i] it writes the
      buffer to its sector of its drive, or fills it from there, marks it valid and
      clean, wakes the sleepers on it, and leaves the rest of the queue in order
      with the controller started on its head;
    - a process woken up returns exactly when its buffer is finished, and otherwise
      sleeps again;
    - as many interrupts as there are requests serve all of them in order.
    None of these runs into a panic, spins or follows a dangling link. *)
Theorem ide_queue s q disk fuel : ide_rep s q disk -> (polls <= fuel)%nat ->
  (forall i, i ∉ q -> (i < length (bufs s))%nat -> sound (getb s i) -> Bio.locked (getb s i) = true ->
     Bio.lpid (getb s i) = curpid s -> (Bio.dev (getb s i) = 0 \/ havedisk1 s = true) ->
     runs (iderw fuel i) (fun x s' => x = Blocked (A_buf i) tt /\ ide_rep s' (q ++ [i]) disk /\ bufs s' = bufs s /\ wakeups s' = wakeups s) s) /\
  match q with
  | [] => runs (ideintr fuel) (fun _ s' => s' = s) s
  | i :: q' => runs (ideintr fuel) (fun _ s' => ide_rep s' q' (served (getb s i) disk) /\
      bufs s' = <[i := answer (getb s i) disk]> (bufs s) /\ wakeups s' = wakeups s ++ [A_buf i]) s
  end /\
  (forall i, runs (iderw_again i) (fun x s' => x = (if decide (finished (getb s i)) then Done tt else Blocked (A_buf i) tt) /\ s' = s) s) /\
  runs (forM q (fun _ => ideintr fuel)) (fun _ s' =>
    ide_rep s' [] (foldl (fun dk i => served (getb s i) dk) disk q) /\ (forall i, i ∈ q -> finished (getb s' i)) /\
    (forall i, i ∉ q -> getb s' i = getb s i) /\ wakeups s' = wakeups s ++ (A_buf <$> q)) s.
Proof.
  intros Hr Hf. split_and!.
  - intros. by apply ide_submit.
  - destruct q; [by eapply ide_spurious | by apply ide_interrupt].
  - intros i. by eapply ide_resume.
  - by apply ide_drain.
Qed.
End rep.

(** ** A controller *)

(** A controller that is busy for three reads of the status register after each command. *)
Record controller := MkC {
  cview : aview;
  cbusy : nat
}.

#[global] Instance controller_ata : Ata controller := {
  ata_outb p x c :=
    let v := cview c in
    if decide (p = 0x1f7) then MkC (AV (adisk v) (aregs v) (if decide (x = IDE_CMD_READ) then Some (addressed v) else None)) 3
    else MkC (AV (adisk v) (<[p := x]> (aregs v)) (apend v)) (cbusy c);
  ata_outsl l c := MkC (AV (<[addressed (cview c) := l]> (adisk (cview c))) (aregs (cview c)) None) 3;
  ata_insl c :=
    (match apend (cview c) with Some k => sector_of (adisk (cview c)) k | None => [] end,
     MkC (AV (adisk (cview c)) (aregs (cview c)) None) (cbusy c));
  ata_status c := match cbusy c with S n => (0x80, MkC (cview c) n) | O => (0x40, c) end
}.

#[global] Program Instance controller_spec : AtaSpec controller := {
  arep c v := cview c = v /\ (cbusy c <= 3)%nat;
  polls := 4%nat
}.
Next Obligation. intros [w [|[|[|[|n]]]]] v [<- Hb]; simpl in Hb |- *; split_and!; simpl; try done; lia. Qed.
Next Obligation. intros [w n] v p x [<- Hb] Hp. simpl. by rewrite decide_False. Qed.
Next Obligation. intros [w n] v [<- Hb] Hp Hr. split; [done | simpl; lia]. Qed.
Next Obligation. intros [w n] v l [<- Hb] Hp Hr Hl. split; [done | simpl; lia]. Qed.
Next Obligation. intros [w n] v k [<- Hb] Hp. simpl in *. by rewrite Hp. Qed.

(** Two requests: a dirty buffer for sector 5 and a read of the same sector queued behind
    it, on a controller already started on the first. *)
Definition two_bufs : list Bio.buf :=
  [Bio.MkBuf 6 0 5 true 1 1 0 0 (replicate 512 7); Bio.MkBuf 0 0 5 true 1 1 0 0 (replicate 512 0)].
Definition two_requests : ide controller :=
  MkIde false two_bufs [Some 1%nat; None] (Some 0%nat) false 1
    (MkC (AV (<[(0, 5) := replicate 512 7]> ∅) ∅ None) 3) [].

Lemma two_rep : ide_rep two_requests [0; 1]%nat ∅.
Proof.
  assert (forall b, b ∈ two_bufs -> sound b) as Hs.
  { intros b Hb. unfold sound, two_bufs in *. repeat (apply elem_of_cons in Hb as [-> | Hb]; [split_and!; by vm_compute|]). by apply not_elem_of_nil in Hb. }
  constructor; try done.
  - apply (bool_decide_unpack _). by vm_compute.
  - repeat constructor; simpl; lia.
  - constructor; [apply Hs; left|]. constructor; [apply Hs; right; left | constructor].
  - eexists. split; [split; [reflexivity | simpl; lia]|]. split; reflexivity.
Qed.

(** Two interrupts later both requests are served and the second has read what the first
    has written. *)
Lemma ide_queue_witness : runs (forM [0; 1]%nat (fun _ => ideintr 4)) (fun _ s' =>
    ide_rep s' [] (<[(0, 5) := replicate 512 7]> ∅) /\ finished (getb s' 0) /\ finished (getb s' 1)) two_requests.
Proof.
  eapply runs_mono; [apply (ide_queue two_requests [0; 1]%nat ∅ 4 two_rep); simpl; lia|].
  intros _ s' (Hr & Hf & _). split_and!; [exact Hr | apply Hf; left | apply Hf; right; left].
Defined.
End Ide.
