(* ===== verification/Sleeplock.v ===== *)
(** Sleep locks between processes: src/xv6-public/sleeplock.c with [sleep] and [wakeup] of
    src/xv6-public/proc.c.

    Any number of processes, each at a point of the code, take steps in any order; the lock's own spin lock and the lock of
    the process table are modelled as well, since what a process does between two of its
    steps another may see.  The theorems: one process at a time holds a sleep lock, [holdingsleep] tells the holder,
    no wake-up is lost, and a process in the middle of an operation waits for nobody but
    the holder. *)

From S2P Require Import Prelude.

Module Sleeplock.

(** Where a process is.  [Out] and [Crit] are outside the code of the lock, without it and with it. *)
Inductive pc :=
| Out | Crit
| A0                 (* acquiresleep: before acquire(&lk->lk) *)
| A1                 (* at the test of lk->locked *)
| A2                 (* before release(&lk->lk), the lock taken *)
| S0                 (* sleep: before acquire(&ptable.lock) *)
| S1                 (* before release(lk) *)
| S2                 (* before p->state = SLEEPING and sched() *)
| Asleep             (* state SLEEPING on the lock *)
| Woken              (* state RUNNABLE, in the middle of sched() *)
| S3                 (* after sched(), before release(&ptable.lock) *)
| S4                 (* before acquire(lk) *)
| R0                 (* releasesleep: before acquire(&lk->lk) *)
| R1                 (* before lk->locked = 0; lk->pid = 0 *)
| R2                 (* wakeup: before acquire(&ptable.lock) *)
| R3                 (* before wakeup1 *)
| R4                 (* before release(&ptable.lock) *)
| R5                 (* before release(&lk->lk) *)
| H0 (crit : bool)   (* holdingsleep: before acquire(&lk->lk) *)
| H1 (crit : bool)   (* before r is computed *)
| H2 (crit r : bool) (* before release(&lk->lk) *)
| H3 (crit r : bool) (* returning r *).

(** [struct sleeplock]: [lk] and the process table's lock with their holders. *)
Record state := MkSl {
  locked : bool;
  lpid : Z;
  lk : option nat;
  ptable : option nat;
  pcs : nat -> pc;
}.

Definition at_ (p : nat) (c : pc) (s : state) : state :=
  MkSl (locked s) (lpid s) (lk s) (ptable s) (fun q => if decide (q = p) then c else pcs s q).
Definition set_locked (b : bool) (i : Z) (s : state) : state := MkSl b i (lk s) (ptable s) (pcs s).
Definition set_lk (h : option nat) (s : state) : state := MkSl (locked s) (lpid s) h (ptable s) (pcs s).
Definition set_ptable (h : option nat) (s : state) : state := MkSl (locked s) (lpid s) (lk s) h (pcs s).

(** [wakeup1]: every process that sleeps on the lock becomes runnable. *)
Definition wake (c : pc) : pc := match c with Asleep => Woken | _ => c end.
Definition wakeup1 (s : state) : state := MkSl (locked s) (lpid s) (lk s) (ptable s) (fun q => wake (pcs s q)).

Definition initsleeplock : state := MkSl false 0 None None (fun _ => Out).

Section lock.
(** The processes' identifiers. *)
Context (pid : nat -> Z).

Inductive acquiresleep (p : nat) (s : state) : state -> Prop :=
| acq_lock : pcs s p = A0 -> lk s = None -> acquiresleep p s (at_ p A1 (set_lk (Some p) s))
| acq_wait : pcs s p = A1 -> locked s = true -> acquiresleep p s (at_ p S0 s)
| acq_take : pcs s p = A1 -> locked s = false -> acquiresleep p s (at_ p A2 (set_locked true (pid p) s))
| acq_done : pcs s p = A2 -> acquiresleep p s (at_ p Crit (set_lk None s)).

(** [sleep(lk, &lk->lk)]; the process table's lock is released by the scheduler, and taken by it before
    the process goes on. *)
Inductive sleep (p : nat) (s : state) : state -> Prop :=
| sl_ptable : pcs s p = S0 -> ptable s = None -> sleep p s (at_ p S1 (set_ptable (Some p) s))
| sl_unlock : pcs s p = S1 -> sleep p s (at_ p S2 (set_lk None s))
| sl_sleep : pcs s p = S2 -> sleep p s (at_ p Asleep (set_ptable None s))
| sl_run : pcs s p = Woken -> ptable s = None -> sleep p s (at_ p S3 (set_ptable (Some p) s))
| sl_release : pcs s p = S3 -> sleep p s (at_ p S4 (set_ptable None s))
| sl_lock : pcs s p = S4 -> lk s = None -> sleep p s (at_ p A1 (set_lk (Some p) s)).

Inductive releasesleep (p : nat) (s : state) : state -> Prop :=
| rel_lock : pcs s p = R0 -> lk s = None -> releasesleep p s (at_ p R1 (set_lk (Some p) s))
| rel_clear : pcs s p = R1 -> releasesleep p s (at_ p R2 (set_locked false 0 s))
| rel_ptable : pcs s p = R2 -> ptable s = None -> releasesleep p s (at_ p R3 (set_ptable (Some p) s))
| rel_wakeup : pcs s p = R3 -> releasesleep p s (at_ p R4 (wakeup1 s))
| rel_unptable : pcs s p = R4 -> releasesleep p s (at_ p R5 (set_ptable None s))
| rel_done : pcs s p = R5 -> releasesleep p s (at_ p Out (set_lk None s)).

Inductive holdingsleep (p : nat) (s : state) : state -> Prop :=
| hold_lock b : pcs s p = H0 b -> lk s = None -> holdingsleep p s (at_ p (H1 b) (set_lk (Some p) s))
| hold_test b : pcs s p = H1 b -> holdingsleep p s (at_ p (H2 b (locked s && bool_decide (lpid s = pid p))) s)
| hold_unlock b r : pcs s p = H2 b r -> holdingsleep p s (at_ p (H3 b r) (set_lk None s)).

(** A step of an operation under way. *)
Definition inside (p : nat) (s s' : state) : Prop := acquiresleep p s s' \/ sleep p s s' \/ releasesleep p s s' \/ holdingsleep p s s'.

(** What happens outside: operations are called and return, and [kill] wakes a sleeping process. *)
Inductive outside (p : nat) (s : state) : state -> Prop :=
| call_acquire : pcs s p = Out -> outside p s (at_ p A0 s)
| call_release : pcs s p = Crit -> outside p s (at_ p R0 s)
| call_holding : pcs s p = Out -> outside p s (at_ p (H0 false) s)
| call_holding' : pcs s p = Crit -> outside p s (at_ p (H0 true) s)
| holding_returns b r : pcs s p = H3 b r -> outside p s (at_ p (if b then Crit else Out) s)
| killed : pcs s p = Asleep -> outside p s (at_ p Woken s).

Inductive reachable : state -> Prop :=
| reach_init : reachable initsleeplock
| reach_in p s s' : reachable s -> inside p s s' -> reachable s'
| reach_out p s s' : reachable s -> outside p s s' -> reachable s'.

(** ** The invariant *)

Definition has_lk (c : pc) : bool := match c with A1 | A2 | S0 | S1 | R1 | R2 | R3 | R4 | R5 | H1 _ | H2 _ _ => true | _ => false end.
Definition has_ptable (c : pc) : bool := match c with S1 | S2 | S3 | R3 | R4 => true | _ => false end.
Definition owns (c : pc) : bool := match c with A2 | Crit | R0 | R1 => true | H0 b | H1 b | H2 b _ | H3 b _ => b | _ => false end.
Definition waits (c : pc) : bool := match c with S0 | S1 | S2 | Asleep => true | _ => false end.
Definition wakes (c : pc) : bool := match c with R2 | R3 => true | _ => false end.

Record inv (s : state) : Prop := {
  i_lk p : lk s = Some p <-> has_lk (pcs s p) = true;
  i_ptable p : ptable s = Some p <-> has_ptable (pcs s p) = true;
  i_owner p : owns (pcs s p) = true -> locked s = true /\ lpid s = pid p;
  i_locked : locked s = true -> exists p, owns (pcs s p) = true;
  i_wait p : waits (pcs s p) = true -> locked s = true \/ exists q, wakes (pcs s q) = true;
  i_test p b r : (pcs s p = H2 b r \/ pcs s p = H3 b r) -> r = b;
}.

Definition step (p : nat) (s s' : state) : Prop := inside p s s' \/ outside p s s'.

Lemma step_cases (P : state -> Prop) p s : 
  (forall s', acquiresleep p s s' -> P s') -> (forall s', sleep p s s' -> P s') -> (forall s', releasesleep p s s' -> P s') ->
  (forall s', holdingsleep p s s' -> P s') -> (forall s', outside p s s' -> P s') -> forall s', step p s s' -> P s'.
Proof. intros H1 H2 H3 H4 H5 s' [[H | [H | [H | H]]] | H]; auto. Qed.

(** What a wake-up changes. *)
Lemma woken_pc (f : pc -> bool) c : f Woken = f Asleep -> f (wake c) = f c.
Proof. by destruct c. Qed.

(** A process's own case of a step, and the others'. *)
Ltac own_case q p :=
  destruct (decide (q = p)) as [->|?]; try (match goal with E : pcs _ p = _ |- _ => rewrite E in * end); simpl in *.

Lemma locks_step p s s' : inv s -> step p s s' ->
  (forall q, lk s' = Some q <-> has_lk (pcs s' q) = true) /\ (forall q, ptable s' = Some q <-> has_ptable (pcs s' q) = true).
Proof.
  intros Hinv. pose proof (i_lk s Hinv) as I1. pose proof (i_ptable s Hinv) as I2. clear Hinv. pose proof (I1 p) as J1. pose proof (I2 p) as J2.
  revert s'. apply step_cases; intros s' H; destruct H;
    match goal with E : pcs s p = _ |- _ => rewrite E in J1, J2 end; simpl in *; split; intros q; specialize (I1 q); specialize (I2 q);
    own_case q p; try destruct b; simpl in *; try (rewrite (woken_pc has_lk) by done); try (rewrite (woken_pc has_ptable) by done); intuition congruence.
Qed.

(** The owner, where it does not change. *)
Lemma owner_same s s' : inv s -> (forall q, owns (pcs s' q) = owns (pcs s q)) -> locked s' = locked s -> lpid s' = lpid s ->
  (forall q, owns (pcs s' q) = true -> locked s' = true /\ lpid s' = pid q) /\ (locked s' = true -> exists q, owns (pcs s' q) = true).
Proof.
  intros Hinv Ho Hl Hp. split.
  - intros q. rewrite Ho, Hl, Hp. apply (i_owner s Hinv).
  - rewrite Hl. intros [q Hq]%(i_locked s Hinv). exists q. by rewrite Ho.
Qed.

Context (Hpid : forall p q, pid p = pid q -> p = q).

Lemma owner_step p s s' : inv s -> step p s s' ->
  (forall q, owns (pcs s' q) = true -> locked s' = true /\ lpid s' = pid q) /\ (locked s' = true -> exists q, owns (pcs s' q) = true).
Proof.
  intros Hinv. revert s'. apply step_cases; intros s' H; destruct H;
    try (apply (owner_same s); [exact Hinv | intros q; simpl; own_case q p; try (rewrite (woken_pc owns) by done); try destruct b; done | done | done]).
  - split; [|intros _; exists p; simpl; by rewrite decide_True].
    intros q Hq. simpl in *. own_case q p; [done|]. destruct (i_owner s Hinv q Hq). congruence.
  - split; [|done]. intros q Hq. simpl in *. own_case q p; [done|]. destruct (i_owner s Hinv q Hq) as [_ E1].
    destruct (i_owner s Hinv p) as [_ E2]; [by rewrite H|]. assert (q = p) by (apply Hpid; congruence). done.
Qed.

(** A process that sleeps on the lock, or is about to, will be woken up. *)
Definition attended (s : state) : Prop := forall q, waits (pcs s q) = true -> locked s = true \/ exists r, wakes (pcs s r) = true.

Lemma attended_same p s s' : attended s -> (forall q, q <> p -> pcs s' q = pcs s q) -> locked s' = locked s ->
  (wakes (pcs s p) = true -> wakes (pcs s' p) = true) -> (waits (pcs s' p) = true -> waits (pcs s p) = true \/ locked s = true) -> attended s'.
Proof.
  intros Ha Hne Hl Hwk Hwt q Hq. rewrite Hl.
  assert (locked s = true \/ exists r, wakes (pcs s r) = true) as [? | [r Hr]]; [|by left|].
  - destruct (decide (q = p)) as [->|?]; [destruct (Hwt Hq); [by apply (Ha p) | by left] | rewrite Hne in Hq by done; by apply (Ha q)].
  - right. exists r. destruct (decide (r = p)) as [->|?]; [auto | by rewrite Hne].
Qed.

Lemma wait_step p s s' : inv s -> step p s s' -> attended s'.
Proof.
  intros Hinv. assert (attended s) as Ha by exact (i_wait s Hinv). revert s'.
  apply (step_cases attended); intros s' H; destruct H;
    try (apply (attended_same p s); [exact Ha | intros q Hq; simpl; by rewrite decide_False | done |
      rewrite H; simpl; rewrite decide_True by done; try destruct b; done | rewrite H; simpl; rewrite decide_True by done; try destruct b; auto]).
  - intros q _. by left.
  - intros q _. right. exists p. simpl. by rewrite decide_True.
  - intros q Hq. exfalso. simpl in Hq. own_case q p; [done|].
    pose proof (i_lk s Hinv p) as J1. pose proof (i_ptable s Hinv p) as J2. pose proof (i_lk s Hinv q) as J3. pose proof (i_ptable s Hinv q) as J4.
    rewrite H in J1, J2. simpl in *. destruct (pcs s q) eqn:E; simpl in *; try done; intuition congruence.
Qed.

Lemma test_step p s s' : inv s -> step p s s' -> forall q b r, (pcs s' q = H2 b r \/ pcs s' q = H3 b r) -> r = b.
Proof.
  intros Hinv Hs q b r. pose proof (i_test s Hinv) as I6. revert s' Hs. apply (step_cases (fun s' => pcs s' q = H2 b r \/ pcs s' q = H3 b r -> r = b)); intros s' H; destruct H;
    simpl; own_case q p; try (by apply I6); try (by intros [? | ?]).
  - intros Hw. apply (I6 q). by destruct (pcs s q); try (by destruct Hw).
  - intros [[= <- <-] | ?]; [|done]. pose proof (i_owner s Hinv) as I3. destruct b0.
    + destruct (I3 p) as [-> ->]; [by rewrite H|]. by rewrite bool_decide_eq_true_2.
    + destruct (locked s) eqn:El; [|done]. simpl. apply bool_decide_eq_false_2. intros Ep. destruct (i_locked s Hinv El) as [o Ho].
      destruct (I3 o Ho) as [_ Eo]. assert (o = p) as -> by (apply Hpid; congruence). by rewrite H in Ho.
  - intros [? | [= <- <-]]; [done|]. apply (I6 p). by left.
  - by destruct b0; intros [? | ?].
Qed.

Lemma inv_reachable s : reachable s -> inv s.
Proof.
  assert (forall p s s', inv s -> step p s s' -> inv s') as Hstep.
  { intros p s0 s' Hinv Hs. destruct (locks_step p s0 s' Hinv Hs). destruct (owner_step p s0 s' Hinv Hs).
    split; try done; [by apply (wait_step p s0) | by apply (test_step p s0)]. }
  induction 1 as [|p s s' _ IH Hs | p s s' _ IH Hs]; [|by apply (Hstep p s); [|left] | by apply (Hstep p s); [|right]].
  split; try done. by intros p b r [? | ?].
Qed.

(** A process with one of the spin locks can take its next step, or the other lock's holder can. *)
Lemma ptable_moves p s : has_ptable (pcs s p) = true -> exists s', inside p s s'.
Proof.
  intros Hp. destruct (pcs s p) eqn:E; try done; eexists; unfold inside.
  - right; left. by apply sl_unlock.
  - right; left. by apply sl_sleep.
  - right; left. by apply sl_release.
  - right; right; left. by apply rel_wakeup.
  - right; right; left. by apply rel_unptable.
Qed.
Lemma lk_moves p s : inv s -> has_lk (pcs s p) = true -> exists q s', inside q s s'.
Proof.
  intros Hinv Hp. destruct (ptable s) as [q|] eqn:Eq; [exists q; by apply ptable_moves, (i_ptable s Hinv)|]. exists p.
  destruct (pcs s p) eqn:E; try done; unfold inside.
  - destruct (locked s) eqn:El; eexists; left; [by apply acq_wait | by apply acq_take].
  - eexists. left. by apply acq_done.
  - eexists. right; left. by apply sl_ptable.
  - eexists. right; left. by apply sl_unlock.
  - eexists. right; right; left. by apply rel_clear.
  - eexists. right; right; left. by apply rel_ptable.
  - eexists. right; right; left. by apply rel_wakeup.
  - eexists. right; right; left. by apply rel_unptable.
  - eexists. right; right; left. by apply rel_done.
  - eexists. right; right; right. by apply (hold_test _ _ crit).
  - eexists. right; right; right. by apply (hold_unlock _ _ crit r).
Qed.
Lemma free_moves p s : lk s = None -> (match pcs s p with A0 | S4 | R0 | H0 _ => True | _ => False end) -> exists s', inside p s s'.
Proof.
  intros El Hp. unfold inside. destruct (pcs s p) eqn:E; try done; eexists.
  - left. by apply acq_lock.
  - right; left. by apply sl_lock.
  - right; right; left. by apply rel_lock.
  - right; right; right. by apply (hold_lock _ _ crit).
Qed.

(** Outside the code of the lock. *)
Definition idle (c : pc) : bool := match c with Out | Crit | H3 _ _ => true | _ => false end.

Lemma moves p s : inv s -> idle (pcs s p) = false -> (exists q s', inside q s s') \/ exists q, owns (pcs s q) = true /\ idle (pcs s q) = true.
Proof.
  intros Hinv Hp. destruct (lk s) as [q|] eqn:El; [left; by apply (lk_moves q), (i_lk s Hinv)|].
  destruct (ptable s) as [q|] eqn:Eq; [left; exists q; by apply ptable_moves, (i_ptable s Hinv)|].
  assert (forall c, has_lk (pcs s c) = true -> False) as Hno by (intros c Hc%(i_lk s Hinv); congruence).
  assert (pcs s p = Asleep -> exists o, owns (pcs s o) = true) as Hasleep.
  { intros E. destruct (i_wait s Hinv p) as [Hl | [r Hr]]; [by rewrite E | by apply (i_locked s Hinv) |]. exfalso. apply (Hno r). by destruct (pcs s r). }
  destruct (pcs s p) eqn:E; try done; try (exfalso; apply (Hno p); by rewrite E); try (left; exists p; apply free_moves; [done | by rewrite E]).
  - exfalso. pose proof (i_ptable s Hinv p) as J. rewrite E in J. simpl in J. intuition congruence.
  - destruct (Hasleep eq_refl) as [o Ho]. destruct (idle (pcs s o)) eqn:Ei; [by right; exists o|]. left. exists o. apply free_moves; [done|].
    specialize (Hno o). destruct (pcs s o); simpl in *; try done; by destruct Hno.
  - left. exists p. eexists. right; left. by apply sl_run.
  - exfalso. pose proof (i_ptable s Hinv p) as J. rewrite E in J. simpl in J. intuition congruence.
Qed.

(** C20: sleep locks.  In every state that any number of processes reach by steps in any order: one process holds the lock at most;
    [holdingsleep] answers each process whether it holds it; while a process sleeps on the lock, or is about to, the lock is
    held or a process that has released it is going to wake the sleepers up; and unless the
    holder is outside the lock's code, where it may release it, a process in the middle of an operation never
    waits in vain: some process can take a step of its operation. *)
Theorem sleeplock_correct s : reachable s ->
  (forall p q, owns (pcs s p) = true -> owns (pcs s q) = true -> p = q) /\
  (forall p b r, pcs s p = H3 b r -> r = b) /\
  (forall q, waits (pcs s q) = true -> locked s = true \/ exists r, wakes (pcs s r) = true) /\
  (forall p, idle (pcs s p) = false -> (exists q s', inside q s s') \/ exists q, owns (pcs s q) = true /\ idle (pcs s q) = true).
Proof.
  intros Hinv%inv_reachable. split_and!.
  - intros p q [_ Hp]%(i_owner s Hinv) [_ Hq]%(i_owner s Hinv). apply Hpid. congruence.
  - intros p b r Hr. apply (i_test s Hinv p). by right.
  - apply (i_wait s Hinv).
  - intros p. by apply moves.
Qed.
End lock.

(** Process 1 takes the lock, process 2 asks for it. *)
Lemma sleeplock_correct_witness : exists s, reachable Z.of_nat s /\ pcs s 1%nat = Crit /\ pcs s 2%nat = A1 /\ forall p, owns (pcs s p) = true -> p = 1%nat.
Proof.
  set (s1 := at_ 1 A0 initsleeplock). set (s2 := at_ 1 A1 (set_lk (Some 1%nat) s1)). set (s3 := at_ 1 A2 (set_locked true 1 s2)).
  set (s4 := at_ 1 Crit (set_lk None s3)). set (s5 := at_ 2 A0 s4). set (s6 := at_ 2 A1 (set_lk (Some 2%nat) s5)).
  assert (reachable Z.of_nat s6) as Hr.
  { apply (reach_in _ 2%nat s5); [|left; by apply acq_lock]. apply (reach_out _ 2%nat s4); [|by apply call_acquire].
    apply (reach_in _ 1%nat s3); [|left; by apply acq_done]. apply (reach_in _ 1%nat s2); [|left; by apply acq_take].
    apply (reach_in _ 1%nat s1); [|left; by apply acq_lock]. apply (reach_out _ 1%nat initsleeplock); [apply reach_init | by apply call_acquire]. }
  exists s6. split_and!; [exact Hr | reflexivity | reflexivity|]. intros p Hp.
  destruct (sleeplock_correct Z.of_nat (fun p q => Nat2Z.inj p q) s6 Hr) as (H & _). exact (H p 1%nat Hp eq_refl).
Defined.
End Sleeplock.
