(* ===== verification/Mp.v ===== *)
(** Finding the processors: src/xv6-public/mp.c, mp.h, and [mycpu] and [cpuid] of
    src/xv6-public/proc.c, which use what it finds.

    The BIOS leaves a table of variable-sized entries in memory.  The theorem says for
    every memory whether the walk over the table ends and what it finds. *)

From S2P Require Import Prelude Bytes User.

Module Mp.

Definition NCPU : nat := 8.

(** Table entry types. *)
Definition MPPROC : Z := 0x00.
Definition MPBUS : Z := 0x01.
Definition MPIOAPIC : Z := 0x02.
Definition MPIOINTR : Z := 0x03.
Definition MPLINTR : Z := 0x04.

Definition sizeof_mp : Z := 16.
Definition sizeof_mpconf : Z := 44.
Definition sizeof_mpproc : Z := 20.
Definition sizeof_mpioapic : Z := 8.

Section search.
(** [mem a] is the byte the kernel reads at [P2V(a)], for a physical address [a]. *)
Context (mem : Z -> Z).

Definition mem_bytes (a : Z) (n : nat) : list Z := (fun k => mem (a + Z.of_nat k)) <$> seq 0 n.
Definition mem16 (a : Z) : Z := mem a + 2 ^ 8 * mem (a + 1).
Definition mem32 (a : Z) : Z := mem16 a + 2 ^ 16 * mem16 (a + 2).

(** The sum of [len] bytes, as an unsigned char. *)
Definition sum (addr : Z) (len : nat) : Z := u8 (foldl Z.add 0 (mem_bytes addr len)).

(** [struct mp]: the fields that are read. *)
Definition mp_physaddr (p : Z) : Z := mem32 (p + 4).
Definition mp_imcrp (p : Z) : Z := mem (p + 12).

(** [struct mpconf]. *)
Definition conf_length (c : Z) : Z := mem16 (c + 4).
Definition conf_version (c : Z) : Z := mem (c + 6).
Definition conf_lapicaddr (c : Z) : Z := mem32 (c + 36).

(** A structure at [p], by its signature and its checksum. *)
Definition is_mp (p : Z) : bool :=
  bool_decide (mem_bytes p 4 = cs "_MP_") && bool_decide (sum p (Z.to_nat sizeof_mp) = 0).

(** The loop of [mpsearch1] over [n] places. *)
Fixpoint mpsearch_loop (n : nat) (p : Z) : option Z :=
  match n with
  | O => None
  | S n' => if is_mp p then Some p else mpsearch_loop n' (p + sizeof_mp)
  end.

(** [mpsearch1(a, len)]; [len] is a multiple of the size of the structure. *)
Definition mpsearch1 (a len : Z) : option Z := mpsearch_loop (Z.to_nat (len / sizeof_mp)) a.

Definition mpsearch : option Z :=
  let bda := 0x400 in
  let p := Z.shiftl (Z.lor (Z.shiftl (mem (bda + 0x0F)) 8) (mem (bda + 0x0E))) 4 in
  let r :=
    if decide (p <> 0) then mpsearch1 p 1024
    else
      let p := Z.lor (Z.shiftl (mem (bda + 0x14)) 8) (mem (bda + 0x13)) * 1024 in
      mpsearch1 (u32 (p - 1024)) 1024 in
  match r with Some mp => Some mp | None => mpsearch1 0xF0000 0x10000 end.

(** The floating pointer and the configuration table. *)
Definition mpconfig : option (Z * Z) :=
  match mpsearch with
  | None => None
  | Some mp =>
      if decide (mp_physaddr mp = 0) then None else
      let conf := mp_physaddr mp in
      if decide (mem_bytes conf 4 <> cs "PCMP") then None else
      if decide (conf_version conf <> 1 /\ conf_version conf <> 4) then None else
      if decide (sum conf (Z.to_nat (conf_length conf)) <> 0) then None else
      Some (mp, conf)
  end.

(** ** The table *)

(** [ncpu], the [apicid]s of [cpus], [ioapicid], [lapic], and the bytes given to [outb]. *)
Record mpstate := MkMp {
  ncpu : nat;
  apicids : list Z;
  ioapicid : Z;
  lapic : Z;
  outs : list (Z * Z)
}.

Definition mpproc (id : Z) (s : mpstate) : mpstate :=
  if decide (ncpu s < NCPU)%nat then MkMp (S (ncpu s)) (<[ncpu s := id]> (apicids s)) (ioapicid s) (lapic s) (outs s) else s.
Definition mpioapic (id : Z) (s : mpstate) : mpstate := MkMp (ncpu s) (apicids s) id (lapic s) (outs s).

(** The loop over the entries; the result is [ismp].  The [break] of the default case leaves
    the [switch], not the loop. *)
Fixpoint mp_loop (fuel : nat) (p e : Z) (ismp : bool) : M mpstate bool :=
  match fuel with
  | O => stop_with Spins
  | S fuel' =>
      if decide (p < e) then
        let t := mem p in
        if decide (t = MPPROC) then
          modify (mpproc (mem (p + 1))) ;;; mp_loop fuel' (p + sizeof_mpproc) e ismp
        else if decide (t = MPIOAPIC) then
          modify (mpioapic (mem (p + 1))) ;;; mp_loop fuel' (p + sizeof_mpioapic) e ismp
        else if decide (t = MPBUS \/ t = MPIOINTR \/ t = MPLINTR) then
          mp_loop fuel' (p + 8) e ismp
        else mp_loop fuel' p e false
      else ret ismp
  end.

Definition outb (port v : Z) : M mpstate unit :=
  modify (fun s => MkMp (ncpu s) (apicids s) (ioapicid s) (lapic s) (outs s ++ [(port, v)])).

(** [imcr] is what [inb(0x23)] reads. *)
Definition mpinit (fuel : nat) (imcr : Z) : M mpstate unit :=
  match mpconfig with
  | None => panic "Expect to run on an SMP"
  | Some (mp, conf) =>
      modify (fun s => MkMp (ncpu s) (apicids s) (ioapicid s) (conf_lapicaddr conf) (outs s)) ;;;
      let! ismp := mp_loop fuel (conf + sizeof_mpconf) (conf + conf_length conf) true in
      if negb ismp then panic "Didn't find a suitable machine" else
      if decide (mp_imcrp mp <> 0) then
        outb 0x22 0x70 ;;;
        outb 0x23 (Z.lor imcr 1)
      else ret tt
  end.

(** ** The running processor *)

(** [mycpu]: the index of the processor with the given APIC id; [iflag] is the interrupt
    flag. *)
Definition mycpu (iflag : bool) (apicid : Z) : M mpstate nat :=
  if iflag then panic "mycpu called with interrupts enabled" else
  let! s := gets (fun s => s) in
  match find (fun i => bool_decide (nth i (apicids s) 0 = apicid)) (seq 0 (ncpu s)) with
  | Some i => ret i
  | None => panic "unknown apicid"
  end.

Definition cpuid (iflag : bool) (apicid : Z) : M mpstate Z :=
  let! i := mycpu iflag apicid in ret (Z.of_nat i).

(** ** What the table says *)

Inductive entry :=
| Processor (apicid : Z)
| Ioapic (apicno : Z)
| Other.

Definition entry_at (p : Z) : option entry :=
  if decide (mem p = 0) then Some (Processor (mem (p + 1)))
  else if decide (mem p = 2) then Some (Ioapic (mem (p + 1)))
  else if decide (mem p = 1 \/ mem p = 3 \/ mem p = 4) then Some Other
  else None.

Definition entry_size (x : entry) : Z := match x with Processor _ => 20 | _ => 8 end.

(** The entries from [p] to [e], and an entry of no known type among them. *)
Inductive entries (e : Z) : Z -> list entry -> Prop :=
| N_end p : e <= p -> entries e p []
| N_next p x l : p < e -> entry_at p = Some x -> entries e (p + entry_size x) l -> entries e p (x :: l).

Inductive unknown (e : Z) : Z -> Prop :=
| K_here p : p < e -> entry_at p = None -> unknown e p
| K_next p x : p < e -> entry_at p = Some x -> unknown e (p + entry_size x) -> unknown e p.

Definition absorb (s : mpstate) (x : entry) : mpstate :=
  match x with Processor id => mpproc id s | Ioapic id => mpioapic id s | Other => s end.

(** ** The walk *)

Lemma entry_size_pos x : 8 <= entry_size x.
Proof. by destruct x. Qed.

Lemma table_cases e p : (exists l, entries e p l /\ 8 * Z.of_nat (length l) <= Z.max 0 (e - p) + 7) \/ unknown e p.
Proof.
  remember (Z.to_nat (e - p)) as n eqn:En. revert p En. induction n as [n IH] using lt_wf_ind. intros p ->.
  destruct (decide (p < e)) as [Hlt|Hge]; [|left; exists []; split; [by constructor; lia | simpl; lia]].
  destruct (entry_at p) as [x|] eqn:Ex; [|right; by constructor]. pose proof (entry_size_pos x) as Hs.
  destruct (IH (Z.to_nat (e - (p + entry_size x))) ltac:(lia) (p + entry_size x) eq_refl) as [(l & Hl & Hb)|Hu].
  - left. exists (x :: l). split; [by constructor|]. simpl. lia.
  - right. by eapply K_next.
Qed.

(** One round of the loop. *)
Lemma mp_loop_step fuel p e b s : p < e -> mp_loop (S fuel) p e b s =
  match entry_at p with
  | Some x => mp_loop fuel (p + entry_size x) e b (absorb s x)
  | None => mp_loop fuel p e false s
  end.
Proof.
  intros Hp. cbn [mp_loop]. rewrite decide_True by done. unfold entry_at, MPPROC, MPIOAPIC, MPBUS, MPIOINTR, MPLINTR.
  repeat case_decide; try done.
Qed.

Lemma mp_loop_entries e p l : entries e p l -> forall fuel b s, (length l < fuel)%nat -> mp_loop fuel p e b s = Ret b (foldl absorb s l).
Proof.
  induction 1 as [p Hp | p x l Hp Hx Hl IH]; intros [|fuel] b s Hf; simpl in Hf; try lia.
  - cbn [mp_loop]. by rewrite decide_False by lia.
  - rewrite mp_loop_step, Hx by done. apply IH. lia.
Qed.

Lemma mp_loop_unknown e p : unknown e p -> forall fuel b s, exists s', mp_loop fuel p e b s = Stop Spins s'.
Proof.
  induction 1 as [p Hp Hx | p x Hp Hx Hu IH]; intros fuel b s.
  - revert b. induction fuel as [|fuel IH]; intros b; [by exists s|]. rewrite mp_loop_step, Hx by done. apply IH.
  - destruct fuel as [|fuel]; [by exists s|]. rewrite mp_loop_step, Hx by done. apply IH.
Qed.

(** ** The processors *)

Definition processors (l : list entry) : list Z := omap (fun x => match x with Processor id => Some id | _ => None end) l.

(** The first [NCPU] of the processors [ids] are known. *)
Definition known (ids : list Z) (s : mpstate) : Prop :=
  ncpu s = length (take NCPU ids) /\ length (apicids s) = NCPU /\ take (ncpu s) (apicids s) = take NCPU ids.

Lemma known_absorb ids s x : known ids s -> known (ids ++ processors [x]) (absorb s x) /\
  lapic (absorb s x) = lapic s /\ outs (absorb s x) = outs s.
Proof.
  intros (H1 & H2 & H3). destruct x as [id | id |]; simpl; rewrite ?app_nil_r; [|done | done].
  unfold mpproc. rewrite length_take in H1. case_decide as Hn; (split; [|done]).
  - assert (length ids < NCPU)%nat as Hl by lia. rewrite (take_ge ids) in H3 by lia. unfold known. simpl.
    rewrite (take_ge (ids ++ [id])) by (rewrite length_app; simpl; lia). split_and!.
    + rewrite length_app. simpl. lia.
    + by rewrite length_insert.
    + rewrite (take_S_r _ _ id) by (apply list_lookup_insert_eq; lia). rewrite take_insert_ge by lia. by rewrite H3.
  - unfold known. rewrite take_app_le by lia. rewrite length_take. split_and!; [lia | done | done].
Qed.

Lemma known_fold l : forall ids s, known ids s -> known (ids ++ processors l) (foldl absorb s l) /\
  lapic (foldl absorb s l) = lapic s /\ outs (foldl absorb s l) = outs s.
Proof.
  induction l as [|x l IH]; intros ids s Hk; [by rewrite app_nil_r|]. destruct (known_absorb ids s x Hk) as (Hk1 & E1 & E2).
  destruct (IH _ _ Hk1) as (Hk2 & E3 & E4). cbn [foldl]. rewrite E3, E4, E1, E2. split; [|done].
  replace (ids ++ processors (x :: l)) with ((ids ++ processors [x]) ++ processors l); [done|]. rewrite <- app_assoc. f_equal. by destruct x.
Qed.

Lemma lookup_nth_lt (l : list Z) j : (j < length l)%nat -> l !! j = Some (nth j l 0).
Proof. intros [y Hy]%lookup_lt_is_Some_2. by rewrite nth_lookup, Hy. Qed.

Lemma find_seq (P : nat -> bool) n k : forall m, (m <= k < m + n)%nat -> P k = true -> (forall j, (m <= j < k)%nat -> P j = false) ->
  find P (seq m n) = Some k.
Proof.
  induction n as [|n IH]; intros m Hk HP Hj; [lia|]. cbn [seq find]. destruct (decide (m = k)) as [->|Hne]; [by rewrite HP|].
  rewrite Hj by lia. apply IH; [lia | done|]. intros j Hjk. apply Hj. lia.
Qed.

(** [mycpu] is a search in the known processors. *)
Lemma mycpu_known ids s k id : known ids s -> take NCPU ids !! k = Some id -> (forall j, (j < k)%nat -> take NCPU ids !! j <> Some id) ->
  mycpu false id s = Ret k s.
Proof.
  intros (H1 & H2 & H3) Hk Hfst. pose proof (lookup_lt_Some _ _ _ Hk) as Hlt. unfold mycpu, gets, bind.
  assert (forall j, (j < ncpu s)%nat -> take NCPU ids !! j = Some (nth j (apicids s) 0)) as Hn.
  { intros j Hj. rewrite <- H3, lookup_take_lt by done. apply lookup_nth_lt. rewrite H1, length_take in Hj. lia. }
  rewrite (find_seq _ _ k); [done | lia | |].
  - apply bool_decide_eq_true. specialize (Hn k ltac:(lia)). congruence.
  - intros j Hj. apply bool_decide_eq_false. intros E. apply (Hfst j); [lia|]. rewrite Hn by lia. congruence.
Qed.

Lemma mycpu_unknown ids s id : known ids s -> id ∉ take NCPU ids -> mycpu false id s = Stop (Panicked "unknown apicid") s.
Proof.
  intros (H1 & H2 & H3) Hid. unfold mycpu, gets, bind. destruct (find _ _) as [k|] eqn:E; [|done].
  apply find_some in E as [Hk%in_seq E%bool_decide_eq_true]. destruct Hid. rewrite <- H3, <- E. apply list_elem_of_lookup. exists k.
  rewrite lookup_take_lt by lia. apply lookup_nth_lt. rewrite H1, length_take in Hk. lia.
Qed.

(** The I/O controller of the table: the last one. *)
Definition ioapics (l : list entry) : list Z := omap (fun x => match x with Ioapic id => Some id | _ => None end) l.

Lemma ioapic_fold l : forall s, ioapicid (foldl absorb s l) = default (ioapicid s) (last (ioapics l)).
Proof.
  induction l as [|x l IH]; intros s; [done|]. cbn [foldl]. rewrite IH. destruct x as [id|id|]; simpl.
  - unfold mpproc. by case_decide.
  - rewrite last_cons. by destruct (last (ioapics l)).
  - done.
Qed.

(** What the kernel knows after [mpinit] from [s], with the table [l] at [conf]. *)
Record found (mp conf imcr : Z) (l : list entry) (s s' : mpstate) : Prop := {
  f_known : known (processors l) s';
  f_ioapic : ioapicid s' = default (ioapicid s) (last (ioapics l));
  f_lapic : lapic s' = conf_lapicaddr conf;
  f_outs : outs s' = outs s ++ (if decide (mp_imcrp mp = 0) then [] else [(0x22, 0x70); (0x23, Z.lor imcr 1)]);
}.

Lemma mpinit_found mp conf imcr l s fuel : mpconfig = Some (mp, conf) -> ncpu s = 0%nat -> length (apicids s) = NCPU ->
  entries (conf + conf_length conf) (conf + sizeof_mpconf) l -> (length l < fuel)%nat ->
  runs (mpinit fuel imcr) (fun _ s' => found mp conf imcr l s s') s.
Proof.
  intros Hc Hn Hl He Hf. set (s0 := MkMp (ncpu s) (apicids s) (ioapicid s) (conf_lapicaddr conf) (outs s)).
  destruct (known_fold l [] s0) as (Hk & El & Eo).
  { unfold known, s0. simpl. by rewrite Hn, Hl. }
  pose proof (ioapic_fold l s0) as Ei. unfold mpinit. rewrite Hc. apply runs_bind, runs_modify, runs_bind. fold s0.
  exists true, (foldl absorb s0 l). split; [by apply mp_loop_entries|]. cbn [negb].
  case_decide as Hi; [apply runs_bind, runs_modify, runs_modify | apply runs_ret]; (split; [exact Hk | exact Ei | exact El|]); simpl; rewrite Eo.
  - rewrite decide_False by done. by rewrite <- app_assoc.
  - rewrite decide_True; [by rewrite app_nil_r|]. destruct (decide (mp_imcrp mp = 0)); [done | by destruct Hi].
Qed.

(** C36: finding the processors.  Whatever is in memory, without a valid table [mpinit] panics.  With one, it ends exactly when the table
    has only entries of the known types.  Then 8192 rounds of the loop are enough, and the kernel knows the first [NCPU] processors of the table,
    the last I/O controller of the table, and the address of the local APIC from its header, and has masked the
    interrupts if the machine has the register for it; [mycpu] finds the first known processor with a given APIC id and panics for an id
    that is none of theirs.  With any other entry the loop never ends: the test of
    [ismp] behind the loop, and its panic, are not reached. *)
Theorem mpinit_ends imcr s : (forall a, 0 <= mem a < 2 ^ 8) -> ncpu s = 0%nat -> length (apicids s) = NCPU ->
  match mpconfig with
  | None => forall fuel, mpinit fuel imcr s = Stop (Panicked "Expect to run on an SMP") s
  | Some (mp, conf) =>
      let p := conf + sizeof_mpconf in let e := conf + conf_length conf in
      (exists l, entries e p l /\ forall fuel, 8192 < Z.of_nat fuel ->
         runs (mpinit fuel imcr) (fun _ s' => found mp conf imcr l s s' /\
           (forall k id, take NCPU (processors l) !! k = Some id -> (forall j, (j < k)%nat -> take NCPU (processors l) !! j <> Some id) ->
              mycpu false id s' = Ret k s') /\
           (forall id, id ∉ take NCPU (processors l) -> mycpu false id s' = Stop (Panicked "unknown apicid") s')) s)
      \/ (unknown e p /\ forall fuel, exists s', mpinit fuel imcr s = Stop Spins s')
  end.
Proof.
  intros Hmem Hn Hl. destruct mpconfig as [[mp conf]|] eqn:Hc; [|intros fuel; unfold mpinit; by rewrite Hc]. intros p e.
  assert (0 <= conf_length conf < 2 ^ 16) as Hlen.
  { unfold conf_length, mem16. pose proof (Hmem (conf + 4)). pose proof (Hmem (conf + 4 + 1)). lia. }
  destruct (table_cases e p) as [(l & He & Hb) | Hu].
  - left. assert (Z.of_nat (length l) <= 8192) as Hll by (unfold e, p, sizeof_mpconf in Hb; lia). exists l. split; [done|].
    intros fuel Hf. eapply runs_mono; [apply (mpinit_found mp conf imcr l s fuel); [done | done | done | done | lia]|].
    intros [] s' Hs. split; [done|]. split; [intros k id; by eapply mycpu_known, Hs | intros id; by eapply mycpu_unknown, Hs].
  - right. split; [done|]. intros fuel. unfold mpinit. rewrite Hc. unfold bind at 1, modify.
    destruct (mp_loop_unknown e p Hu fuel true (MkMp (ncpu s) (apicids s) (ioapicid s) (conf_lapicaddr conf) (outs s))) as [s' Hs].
    exists s'. fold p e. unfold bind. by rewrite Hs.
Qed.
End search.

(** Two processors and an I/O controller, described in the BIOS area; and the same with an
    entry of an unknown type. *)
Definition bios (last : Z) (a : Z) : Z :=
  let l := cs "_MP_" ++ [0; 0; 1; 0; 1; 4; 159; 0; 0; 0; 0; 0] in
  let t := cs "PCMP" ++ [92; 0; 4; 0] ++ replicate 28 0 ++ [0; 0; 224; 254] ++ replicate 4 0 ++
    [0; 7] ++ replicate 18 0 ++ [0; 9] ++ replicate 18 0 ++ [last; 3; 0; 0; 0; 0; 0; 0] in
  if decide (0xF0000 <= a < 0xF0010) then nth (Z.to_nat (a - 0xF0000)) l 0
  else if decide (a = 0x10007) then (- foldl Z.add 0 t) mod 256
  else if decide (0x10000 <= a < 0x1005C) then nth (Z.to_nat (a - 0x10000)) t 0
  else 0.

Lemma bios_bytes last a : last = 2 \/ last = 9 -> 0 <= bios last a < 2 ^ 8.
Proof.
  intros Hl. unfold bios. set (l := cs "_MP_" ++ _). set (t := cs "PCMP" ++ _).
  assert (Forall (fun x => 0 <= x < 2 ^ 8) l) as Fl by (apply (bool_decide_unpack _); by vm_compute).
  assert (Forall (fun x => 0 <= x < 2 ^ 8) t) as Ft by (destruct Hl as [-> | ->]; apply (bool_decide_unpack _); by vm_compute).
  assert (forall k x, Forall (fun x => 0 <= x < 2 ^ 8) x -> 0 <= nth k x 0 < 2 ^ 8) as Hn.
  { intros k x Hx. rewrite nth_lookup. destruct (x !! k) eqn:E; [by eapply Forall_lookup_1 in Hx | done]. }
  repeat case_decide; [by apply Hn | by apply Z.mod_pos_bound | by apply Hn | lia].
Qed.

Lemma mpinit_ends_witness :
  let s := MkMp 0 (replicate 8 0) 0 0 [] in
  (exists s', mpinit (bios 2) (Z.to_nat 9000) 0 s = Ret tt s' /\ ioapicid s' = 3 /\ mycpu false 9 s' = Ret 1%nat s' /\
     mycpu false 8 s' = Stop (Panicked "unknown apicid") s') /\
  (forall fuel, exists s', mpinit (bios 9) fuel 0 s = Stop Spins s') /\
  mpinit (fun _ => 0) 5 0 s = Stop (Panicked "Expect to run on an SMP") s.
Proof.
  intros s. assert (forall last, last = 2 \/ last = 9 -> mpconfig (bios last) = Some (0xF0000, 0x10000)) as Hc by (intros last [-> | ->]; by vm_compute).
  pose proof (fun last H => mpinit_ends (bios last) 0 s (fun a => bios_bytes last a H) eq_refl eq_refl) as HT. split; [|split].
  - pose proof (HT 2 (or_introl eq_refl)) as H2. rewrite (Hc 2 (or_introl eq_refl)) in H2. destruct H2 as [(l & He & HR) | [_ Hs]].
    + destruct (HR (Z.to_nat 9000) ltac:(lia)) as ([] & s' & E & _ & _ & Hno). exists s'. split; [exact E|]. vm_compute in E. injection E as <-.
      split_and!; by vm_compute.
    + destruct (Hs 100%nat) as [s' E]. by vm_compute in E.
  - pose proof (HT 9 (or_intror eq_refl)) as H9. rewrite (Hc 9 (or_intror eq_refl)) in H9. destruct H9 as [(l & He & HR) | [_ Hs]]; [|exact Hs].
    destruct (HR (Z.to_nat 9000) ltac:(lia)) as ([] & s' & E & _). by vm_compute in E.
  - pose proof (mpinit_ends (fun _ => 0) 0 s (fun a => conj (Z.le_refl 0) eq_refl) eq_refl eq_refl) as H0.
    assert (mpconfig (fun _ => 0) = None) as E by (by vm_compute). rewrite E in H0. exact (H0 5%nat).
Defined.
End Mp.
