(* ===== verification/Protect.v ===== *)
(** Segment and gate descriptors: the structures and macros of src/xv6-public/mmu.h,
    [seginit], [switchkvm] and [switchuvm] of src/xv6-public/vm.c, [tvinit] and [idtinit]
    of src/xv6-public/trap.c.

    The descriptors are packed into words as the compiler lays out bit fields, and the
    processor reads the words.  The theorem says what a program in user mode can
    reach through them. *)

From S2P Require Import Prelude Kalloc Proc Trap.

Module Protect.
Import Proc (KSTACKSIZE, SEG_UCODE, SEG_UDATA, DPL_USER).
Import Trap (T_SYSCALL).

(** ** Bit fields *)

(** Fields with their widths, from the lowest bit. *)
Fixpoint pack (l : list (Z * Z)) : Z :=
  match l with
  | [] => 0
  | (w, x) :: l' => x mod 2 ^ w + 2 ^ w * pack l'
  end.

(** The field with index [i] of a word with fields of the widths [ws]. *)
Fixpoint field (ws : list Z) (i : nat) (word : Z) : Z :=
  match ws, i with
  | [], _ => 0
  | w :: _, O => word mod 2 ^ w
  | w :: ws', S i' => field ws' i' (word / 2 ^ w)
  end.

Lemma field_pack l : forall i w x, Forall (fun f => 0 <= f.1) l -> l !! i = Some (w, x) -> field l.*1 i (pack l) = x mod 2 ^ w.
Proof.
  induction l as [|[w0 x0] l IH]; intros [|i] w x Hw Hi; simpl in Hi; try done; apply Forall_cons in Hw as [Hw0 Hw]; simpl in Hw0.
  - injection Hi as -> ->. simpl. pose proof (Z.pow_pos_nonneg 2 w ltac:(lia) ltac:(lia)).
    rewrite Z.mul_comm, Z.mod_add, Z.mod_mod by lia. done.
  - simpl. pose proof (Z.pow_pos_nonneg 2 w0 ltac:(lia) ltac:(lia)) as Hp.
    rewrite Z.mul_comm, Z.div_add, Z.div_small by (try apply Z.mod_pos_bound; lia). rewrite Z.add_0_l. by apply IH.
Qed.

(** ** mmu.h *)

Definition SEG_KCODE : Z := 1.
Definition SEG_KDATA : Z := 2.
Definition SEG_TSS : Z := 5.
Definition NSEGS : nat := 6.
Definition STA_X : Z := 0x8.
Definition STA_W : Z := 0x2.
Definition STA_R : Z := 0x2.
Definition STS_T32A : Z := 0x9.
Definition STS_IG32 : Z := 0xE.
Definition STS_TG32 : Z := 0xF.

Record segdesc := MkSeg {
  lim_15_0 : Z; base_15_0 : Z; base_23_16 : Z; sd_type : Z; sd_s : Z; sd_dpl : Z; sd_p : Z;
  lim_19_16 : Z; sd_avl : Z; sd_rsv1 : Z; sd_db : Z; sd_g : Z; base_31_24 : Z
}.

Definition seg_fields (d : segdesc) : list (Z * Z) :=
  [(16, lim_15_0 d); (16, base_15_0 d); (8, base_23_16 d); (4, sd_type d); (1, sd_s d); (2, sd_dpl d); (1, sd_p d);
   (4, lim_19_16 d); (1, sd_avl d); (1, sd_rsv1 d); (1, sd_db d); (1, sd_g d); (8, base_31_24 d)].
Definition seg_word (d : segdesc) : Z := pack (seg_fields d).

Definition SEG (type base lim dpl : Z) : segdesc :=
  MkSeg (Z.land (Z.shiftr lim 12) 0xffff) (Z.land (u32 base) 0xffff) (Z.land (Z.shiftr (u32 base) 16) 0xff)
    type 1 dpl 1 (Z.shiftr (u32 lim) 28) 0 0 1 1 (Z.shiftr (u32 base) 24).
Definition SEG16 (type base lim dpl : Z) : segdesc :=
  MkSeg (Z.land lim 0xffff) (Z.land (u32 base) 0xffff) (Z.land (Z.shiftr (u32 base) 16) 0xff)
    type 1 dpl 1 (Z.shiftr (u32 lim) 16) 0 0 1 0 (Z.shiftr (u32 base) 24).

Record gatedesc := MkGate {
  off_15_0 : Z; gd_cs : Z; gd_args : Z; gd_rsv1 : Z; gd_type : Z; gd_s : Z; gd_dpl : Z; gd_p : Z; off_31_16 : Z
}.

Definition gate_fields (d : gatedesc) : list (Z * Z) :=
  [(16, off_15_0 d); (16, gd_cs d); (5, gd_args d); (3, gd_rsv1 d); (4, gd_type d); (1, gd_s d); (2, gd_dpl d); (1, gd_p d); (16, off_31_16 d)].
Definition gate_word (d : gatedesc) : Z := pack (gate_fields d).

Definition SETGATE (istrap : bool) (sel off d : Z) : gatedesc :=
  MkGate (Z.land (u32 off) 0xffff) sel 0 0 (if istrap then STS_TG32 else STS_IG32) 0 d 1 (Z.shiftr (u32 off) 16).

(** ** State *)

(** The tables of one processor with the fields of its task state that are set, the
    interrupt table, and the registers that point at them. *)
Record protect := MkProt {
  gdt : list segdesc;
  ss0 : Z;
  esp0 : Z;
  iomb : Z;
  idt : list gatedesc;
  gdtr : bool;
  idtr : bool;
  tr : Z;
  cr3 : Z
}.

Definition set_gdt (i : Z) (d : segdesc) (s : protect) : protect :=
  MkProt (<[Z.to_nat i := d]> (gdt s)) (ss0 s) (esp0 s) (iomb s) (idt s) (gdtr s) (idtr s) (tr s) (cr3 s).
Definition set_idt (i : Z) (d : gatedesc) (s : protect) : protect :=
  MkProt (gdt s) (ss0 s) (esp0 s) (iomb s) (<[Z.to_nat i := d]> (idt s)) (gdtr s) (idtr s) (tr s) (cr3 s).
Definition set_ts (ss esp io : Z) (s : protect) : protect :=
  MkProt (gdt s) ss esp io (idt s) (gdtr s) (idtr s) (tr s) (cr3 s).
Definition set_regs (g i : bool) (t c : Z) (s : protect) : protect :=
  MkProt (gdt s) (ss0 s) (esp0 s) (iomb s) (idt s) g i t c.


(** [sizeof(struct taskstate)] *)
Definition sizeof_ts : Z := 104.

(** ** Operations *)

Definition lgdt : M protect unit := modify (fun s => set_regs true (idtr s) (tr s) (cr3 s) s).
Definition lidt : M protect unit := modify (fun s => set_regs (gdtr s) true (tr s) (cr3 s) s).
Definition ltr (sel : Z) : M protect unit := modify (fun s => set_regs (gdtr s) (idtr s) sel (cr3 s) s).
Definition lcr3 (a : Z) : M protect unit := modify (fun s => set_regs (gdtr s) (idtr s) (tr s) a s).

Definition seginit : M protect unit :=
  modify (set_gdt SEG_KCODE (SEG (Z.lor STA_X STA_R) 0 0xffffffff 0)) ;;;
  modify (set_gdt SEG_KDATA (SEG STA_W 0 0xffffffff 0)) ;;;
  modify (set_gdt SEG_UCODE (SEG (Z.lor STA_X STA_R) 0 0xffffffff DPL_USER)) ;;;
  modify (set_gdt SEG_UDATA (SEG STA_W 0 0xffffffff DPL_USER)) ;;;
  lgdt.

Definition switchkvm (kpgdir : Z) : M protect unit := lcr3 (V2P kpgdir).

(** [switchuvm(p)]: [ts] is the address of the task state of the processor, [kstack] and
    [pgdir] are fields of the process ([None] is the null pointer).  The [pushcli] and [popcli] around the changes
    are left out: they cancel, and the interrupt flag is not part of this state (Spinlock.v has them). *)
Definition switchuvm (ts : Z) (p : option (Z * Z)) : M protect unit :=
  match p with
  | None => panic "switchuvm: no process"
  | Some (kstack, pgdir) =>
      if decide (kstack = 0) then panic "switchuvm: no kstack" else
      if decide (pgdir = 0) then panic "switchuvm: no pgdir" else
      let d := SEG16 STS_T32A ts (sizeof_ts - 1) 0 in
      modify (set_gdt SEG_TSS d) ;;;
      modify (set_gdt SEG_TSS (MkSeg (lim_15_0 d) (base_15_0 d) (base_23_16 d) (sd_type d) 0 (sd_dpl d) (sd_p d)
        (lim_19_16 d) (sd_avl d) (sd_rsv1 d) (sd_db d) (sd_g d) (base_31_24 d))) ;;;
      modify (fun s => set_ts (Z.shiftl SEG_KDATA 3) (esp0 s) (iomb s) s) ;;;
      modify (fun s => set_ts (ss0 s) (u32 (kstack + KSTACKSIZE)) (iomb s) s) ;;;
      modify (fun s => set_ts (ss0 s) (esp0 s) 0xFFFF s) ;;;
      ltr (Z.shiftl SEG_TSS 3) ;;;
      lcr3 (V2P pgdir)
  end.

(** [vectors] are the entry points of vectors.S. *)
Definition tvinit (vectors : Z -> Z) : M protect unit :=
  forM (seqZ 0 256) (fun i => modify (set_idt i (SETGATE false (Z.shiftl SEG_KCODE 3) (vectors i) 0))) ;;;
  modify (set_idt T_SYSCALL (SETGATE true (Z.shiftl SEG_KCODE 3) (vectors T_SYSCALL) DPL_USER)).

Definition idtinit : M protect unit := lidt.

(** ** What the processor reads *)

Definition seg_widths : list Z := [16; 16; 8; 4; 1; 2; 1; 4; 1; 1; 1; 1; 8].
Definition hw_base (w : Z) : Z := field seg_widths 1 w + 2 ^ 16 * field seg_widths 2 w + 2 ^ 24 * field seg_widths 12 w.
Definition hw_raw_limit (w : Z) : Z := field seg_widths 0 w + 2 ^ 16 * field seg_widths 7 w.
(** With the granularity bit the limit counts pages. *)
Definition hw_limit (w : Z) : Z :=
  if decide (field seg_widths 11 w = 1) then hw_raw_limit w * 4096 + 4095 else hw_raw_limit w.
Definition hw_present (w : Z) : bool := bool_decide (field seg_widths 6 w = 1).
Definition hw_system (w : Z) : bool := bool_decide (field seg_widths 4 w = 0).
Definition hw_type (w : Z) : Z := field seg_widths 3 w.
Definition hw_dpl (w : Z) : Z := field seg_widths 5 w.

Definition gate_widths : list Z := [16; 16; 5; 3; 4; 1; 2; 1; 16].
Definition hw_handler (w : Z) : Z := field gate_widths 0 w + 2 ^ 16 * field gate_widths 8 w.
Definition hw_selector (w : Z) : Z := field gate_widths 1 w.
Definition hw_gate_type (w : Z) : Z := field gate_widths 4 w.
Definition hw_gate_present (w : Z) : bool := bool_decide (field gate_widths 7 w = 1) && bool_decide (field gate_widths 5 w = 0).

(** A software interrupt is allowed at privilege level [cpl] up to the gate's level. *)
Definition int_allowed (cpl : Z) (w : Z) : bool := bool_decide (cpl <= field gate_widths 6 w).
(** A data segment is loaded at level [cpl] with a present application descriptor of at
    least that level. *)
Definition load_allowed (cpl : Z) (w : Z) : bool := hw_present w && negb (hw_system w) && bool_decide (cpl <= hw_dpl w).

(** ** Reading back *)

Lemma seg_field d i w x : seg_fields d !! i = Some (w, x) -> field seg_widths i (seg_word d) = x mod 2 ^ w.
Proof.
  intros Hi. change seg_widths with (seg_fields d).*1. apply field_pack; [|done].
  repeat (apply Forall_cons; split; [simpl; lia|]). done.
Qed.

Lemma gate_field d i w x : gate_fields d !! i = Some (w, x) -> field gate_widths i (gate_word d) = x mod 2 ^ w.
Proof.
  intros Hi. change gate_widths with (gate_fields d).*1. apply field_pack; [|done].
  repeat (apply Forall_cons; split; [simpl; lia|]). done.
Qed.

(** The three parts of an address put together again. *)
Lemma base_parts b : 0 <= b < 2 ^ 32 ->
  Z.land b 0xffff mod 2 ^ 16 + 2 ^ 16 * (Z.land (Z.shiftr b 16) 0xff mod 2 ^ 8) + 2 ^ 24 * (Z.shiftr b 24 mod 2 ^ 8) = b.
Proof.
  intros Hb. change 0xffff with (Z.ones 16). change 0xff with (Z.ones 8). rewrite !Z.land_ones, !Z.shiftr_div_pow2 by lia.
  change (2 ^ 16) with 65536. change (2 ^ 24) with 16777216. change (2 ^ 8) with 256. Z.to_euclidean_division_equations. lia.
Qed.

(** What the macros put into the words. *)
Lemma seg16_spec type base lim dpl s : 0 <= base < 2 ^ 32 -> 0 <= lim < 2 ^ 16 -> 0 <= type < 16 -> 0 <= s < 2 -> 0 <= dpl < 4 ->
  let d := SEG16 type base lim dpl in
  let w := seg_word (MkSeg (lim_15_0 d) (base_15_0 d) (base_23_16 d) (sd_type d) s (sd_dpl d) (sd_p d)
        (lim_19_16 d) (sd_avl d) (sd_rsv1 d) (sd_db d) (sd_g d) (base_31_24 d)) in
  hw_base w = base /\ hw_limit w = lim /\ hw_type w = type /\ hw_dpl w = dpl /\ hw_present w = true /\ hw_system w = bool_decide (s = 0).
Proof.
  intros Hb Hl Ht Hs Hd d w. unfold hw_base, hw_limit, hw_raw_limit, hw_type, hw_dpl, hw_present, hw_system, w.
  erewrite !seg_field by reflexivity. cbn [base_15_0 base_23_16 base_31_24 lim_15_0 lim_19_16 sd_g sd_type sd_dpl sd_p sd_s d SEG16].
  rewrite !u32_small by lia. rewrite base_parts by done. change (2 ^ 1) with 2. change (2 ^ 2) with 4. change (2 ^ 4) with 16.
  rewrite (Z.mod_small type), (Z.mod_small dpl), (Z.mod_small s) by lia. rewrite decide_False by done.
  change 0xffff with (Z.ones 16). rewrite Z.land_ones, Z.shiftr_div_pow2, (Z.div_small lim), Z.mod_mod, Z.mod_small by lia.
  change (0 mod 16) with 0. split_and!; done || lia.
Qed.

Lemma gate_spec istrap sel off dpl : 0 <= off < 2 ^ 32 -> 0 <= sel < 2 ^ 16 -> 0 <= dpl < 4 -> let w := gate_word (SETGATE istrap sel off dpl) in
  hw_handler w = off /\ hw_selector w = sel /\ hw_gate_type w = (if istrap then STS_TG32 else STS_IG32) /\ hw_gate_present w = true /\
  forall cpl, int_allowed cpl w = bool_decide (cpl <= dpl).
Proof.
  intros Ho Hs Hd w. unfold hw_handler, hw_selector, hw_gate_type, hw_gate_present, int_allowed, w. erewrite !gate_field by reflexivity.
  cbn [off_15_0 off_31_16 gd_cs gd_type gd_p gd_s gd_dpl SETGATE]. rewrite !u32_small by lia.
  rewrite (Z.mod_small sel), (Z.mod_small dpl) by lia. split_and!; [|done | by destruct istrap | done | done].
  change 0xffff with (Z.ones 16). rewrite Z.land_ones, Z.shiftr_div_pow2 by lia. change (2 ^ 16) with 65536. Z.to_euclidean_division_equations. lia.
Qed.

(** The loop of [tvinit]. *)
Lemma gates_runs n : forall k s f (Q : unit -> protect -> Prop), 0 <= k -> (Z.to_nat k + n <= length (idt s))%nat ->
  (forall s', (forall i, 0 <= i -> idt s' !! Z.to_nat i = if decide (k <= i < k + Z.of_nat n) then Some (f i) else idt s !! Z.to_nat i) ->
     length (idt s') = length (idt s) -> gdt s' = gdt s -> gdtr s' = gdtr s -> Q tt s') ->
  runs (forM (seqZ k (Z.of_nat n)) (fun i => modify (set_idt i (f i)))) Q s.
Proof.
  induction n as [|n IH]; intros k s f Q Hk Hl HQ.
  - apply runs_ret, HQ; try done. intros i Hi. by rewrite decide_False by lia.
  - rewrite seqZ_cons by lia. replace (Z.pred (Z.of_nat (S n))) with (Z.of_nat n) by lia. cbn [forM]. apply runs_bind, runs_modify.
    apply IH; [lia | simpl; rewrite length_insert; lia|]. intros s' Hi Hl' Hg Hr. apply HQ; [|by rewrite Hl'; simpl; rewrite length_insert | done | done].
    intros i Hp. rewrite Hi by done. cbn [idt set_idt]. destruct (decide (i = k)) as [->|Hne].
    + rewrite decide_False, decide_True by lia. apply list_lookup_insert_eq. lia.
    + rewrite list_lookup_insert_ne by lia. repeat case_decide; try done; lia.
Qed.

Definition gate_for (vectors : Z -> Z) (n : Z) : gatedesc :=
  if decide (n = T_SYSCALL) then SETGATE true (Z.shiftl SEG_KCODE 3) (vectors n) DPL_USER
  else SETGATE false (Z.shiftl SEG_KCODE 3) (vectors n) 0.

Lemma tvinit_runs vectors s (Q : unit -> protect -> Prop) : length (idt s) = 256%nat ->
  (forall s', (forall n, 0 <= n < 256 -> idt s' !! Z.to_nat n = Some (gate_for vectors n)) -> gdt s' = gdt s -> gdtr s' = gdtr s -> Q tt s') ->
  runs (tvinit vectors) Q s.
Proof.
  intros Hl HQ. unfold tvinit. apply runs_bind.
  apply (gates_runs (Z.to_nat 256) 0 s (fun i => SETGATE false (Z.shiftl SEG_KCODE 3) (vectors i) 0)); [done | rewrite Hl; simpl; lia|].
  change (Z.of_nat (Z.to_nat 256)) with 256. intros s1 Hi Hl1 Hg Hr. apply runs_modify, HQ; [|done | done].
  intros n Hn. unfold gate_for. cbn [idt set_idt]. case_decide as E.
  - subst n. apply list_lookup_insert_eq. rewrite Hl1, Hl. unfold T_SYSCALL. lia.
  - rewrite list_lookup_insert_ne by (unfold T_SYSCALL in *; lia). rewrite Hi by lia. by rewrite decide_True by lia.
Qed.

Lemma gate_for_spec vectors n : 0 <= vectors n < 2 ^ 32 -> let w := gate_word (gate_for vectors n) in
  hw_gate_present w = true /\ hw_handler w = vectors n /\ hw_selector w = Z.shiftl SEG_KCODE 3 /\
  int_allowed 3 w = bool_decide (n = T_SYSCALL) /\ hw_gate_type w = (if decide (n = T_SYSCALL) then STS_TG32 else STS_IG32).
Proof.
  intros Hv. unfold gate_for. case_decide as E; [rewrite (bool_decide_eq_true_2 _ E) | rewrite (bool_decide_eq_false_2 _ E)].
  - destruct (gate_spec true (Z.shiftl SEG_KCODE 3) (vectors n) DPL_USER Hv) as (H1 & H2 & H3 & H4 & H5); [done | done|].
    rewrite H5. split_and!; done.
  - destruct (gate_spec false (Z.shiftl SEG_KCODE 3) (vectors n) 0 Hv) as (H1 & H2 & H3 & H4 & H5); [done | done|].
    rewrite H5. split_and!; done.
Qed.

(** C35: what user mode can reach.  After [seginit], [tvinit], [idtinit] and [switchuvm], as the
    processor reads the packed tables: every interrupt vector leads to its own entry
    point in the kernel's code segment; the system call is the only one a program in
    user mode can raise, and the only one that leaves interrupts enabled; the
    segments of kernel and user span all addresses and user mode can load exactly the user's two;
    the task state is where the descriptor says, gives the top of the
    process's kernel stack, and its I/O map lies beyond its limit, so that user mode has no I/O
    instructions. *)
Theorem user_protection vectors ts kstack pgdir s :
  (forall i, 0 <= i < 256 -> 0 <= vectors i < 2 ^ 32) -> 0 <= ts < 2 ^ 32 -> 0 < kstack -> kstack + KSTACKSIZE < 2 ^ 32 -> pgdir <> 0 ->
  length (gdt s) = NSEGS -> length (idt s) = 256%nat ->
  runs (seginit ;;; tvinit vectors ;;; idtinit ;;; switchuvm ts (Some (kstack, pgdir))) (fun _ s' =>
    (forall n, 0 <= n < 256 -> exists g, idt s' !! Z.to_nat n = Some g /\ let w := gate_word g in
       hw_gate_present w = true /\ hw_handler w = vectors n /\ hw_selector w = Z.shiftl SEG_KCODE 3 /\
       int_allowed 3 w = bool_decide (n = T_SYSCALL) /\ hw_gate_type w = (if decide (n = T_SYSCALL) then STS_TG32 else STS_IG32)) /\
    (forall i, 1 <= i <= 5 -> exists d, gdt s' !! Z.to_nat i = Some d /\ let w := seg_word d in
       load_allowed 3 w = bool_decide (i = SEG_UCODE \/ i = SEG_UDATA) /\
       (if decide (i = SEG_TSS) then hw_system w = true /\ hw_type w = STS_T32A /\ hw_base w = ts /\ hw_limit w = sizeof_ts - 1 /\ hw_limit w < iomb s'
        else hw_base w = 0 /\ hw_limit w = 0xffffffff /\ Z.testbit (hw_type w) 3 = bool_decide (i = SEG_KCODE \/ i = SEG_UCODE))) /\
    gdtr s' = true /\ idtr s' = true /\ tr s' = Z.shiftl SEG_TSS 3 /\ ss0 s' = Z.shiftl SEG_KDATA 3 /\ esp0 s' = kstack + KSTACKSIZE /\ cr3 s' = V2P pgdir) s.
Proof.
  intros Hvec Hts Hks Hks2 Hpg Hg Hi. unfold KSTACKSIZE in *. destruct s as [[|g0 [|g1 [|g2 [|g3 [|g4 [|g5 [|]]]]]]] ss esp io it gr ir t c]; try done. cbn [idt] in Hi.
  unfold seginit, lgdt. do 5 rstep. apply runs_bind. apply tvinit_runs; [done|]. cbn [gdt gdtr set_regs set_gdt]. intros s1 Hgates Hgdt Hgr.
  unfold idtinit, lidt. rstep. unfold switchuvm. rewrite decide_False by lia. rewrite decide_False by done. unfold ltr, lcr3.
  do 6 rstep. apply runs_modify. cbn [idt gdt gdtr idtr tr ss0 esp0 iomb cr3 set_regs set_ts set_gdt]. rewrite Hgdt, Hgr.
  split_and!; try done.
  - intros n Hn. exists (gate_for vectors n). split; [by apply Hgates|]. apply gate_for_spec. by apply Hvec.
  - intros i Hr. assert (i = 5 \/ i = 1 \/ i = 2 \/ i = 3 \/ i = 4) as [-> | Hc] by lia.
    + destruct (seg16_spec STS_T32A ts (sizeof_ts - 1) 0 0 Hts) as (H1 & H2 & H3 & H4 & H5 & H6); [done | done | done | done|].
      match type of H1 with hw_base (seg_word ?d) = _ => exists d end. split; [reflexivity|].
      cbv zeta. match type of H1 with hw_base ?x = _ => set (w := x) in * end. change (decide (5 = SEG_TSS)) with (@left (5 = 5) (5 <> 5) eq_refl). cbv iota.
      split_and!; [unfold load_allowed; rewrite H5, H6; done | exact H6 | exact H3 | exact H1 | exact H2 | rewrite H2; done].
    + destruct Hc as [-> | [-> | [-> | ->]]]; eexists; (split; [reflexivity|]); by vm_compute.
  - apply u32_small. lia.
Qed.

Lemma user_protection_witness :
  let s := MkProt (replicate 6 (SEG 0 0 0 0)) 0 0 0 (replicate 256 (SETGATE false 0 0 0)) false false 0 0 in
  runs (seginit ;;; tvinit (fun i => 0x80105000 + 16 * i) ;;; idtinit ;;; switchuvm 0x80112000 (Some (0x8dfff000, 0x8dffe000))) (fun _ s' =>
    (exists g, idt s' !! 64%nat = Some g /\ int_allowed 3 (gate_word g) = true) /\ (exists g, idt s' !! 14%nat = Some g /\ int_allowed 3 (gate_word g) = false)) s.
Proof.
  intros s. eapply runs_mono; [apply (user_protection (fun i => 0x80105000 + 16 * i) 0x80112000 0x8dfff000 0x8dffe000 s); try done; lia|].
  intros _ s' (Hg & _). split.
  - destruct (Hg 64) as (g & Hi & _ & _ & _ & Ha & _); [lia|]. exists g. split; [exact Hi | exact Ha].
  - destruct (Hg 14) as (g & Hi & _ & _ & _ & Ha & _); [lia|]. exists g. split; [exact Hi | exact Ha].
Defined.
End Protect.
