(* ===== verification/Apic.v ===== *)
(** The interrupt controllers, the clock and the serial port: src/xv6-public/ioapic.c, src/xv6-public/lapic.c,
    src/xv6-public/picirq.c, src/xv6-public/uart.c.

    The programs write and read ports and memory-mapped registers; the state is the sequence of these
    accesses, and what a read returns is a function of the accesses before it.  The theorems say
    what the sequences mean to the devices: which processor gets an interrupt and with which
    vector, where another processor starts, and that the date read from the clock is one
    the clock showed. *)

From S2P Require Import Prelude User Trap.

Module Apic.
Import Trap (T_IRQ0, IRQ_TIMER, IRQ_COM1, IRQ_SPURIOUS).

Inductive access :=
| Out (port v : Z)   (* outb *)
| In (port : Z)      (* inb *)
| Store (a v : Z)    (* a store to a memory-mapped register, or to memory *)
| Load (a : Z)
| Cprintf (msg : string).

(** The accesses so far. *)
Definition bus : Type := list access.

Section devices.
(** What a read returns after the given accesses. *)
Context (answer : bus -> access -> Z).

Definition outb (port v : Z) : M bus unit := modify (fun h => h ++ [Out port (u8 v)]).
Definition inb (port : Z) : M bus Z := fun h => Ret (answer h (In port)) (h ++ [In port]).
Definition store (a v : Z) : M bus unit := modify (fun h => h ++ [Store a (u32 v)]).
Definition load (a : Z) : M bus Z := fun h => Ret (answer h (Load a)) (h ++ [Load a]).
Definition cprintf (msg : string) : M bus unit := modify (fun h => h ++ [Cprintf msg]).

(** ** The I/O interrupt controller *)

Definition IOAPIC : Z := 0xFEC00000.
Definition REG_ID : Z := 0.
Definition REG_VER : Z := 1.
Definition REG_TABLE : Z := 0x10.
Definition INT_DISABLED : Z := 0x10000.

Definition ioapicread (reg : Z) : M bus Z := store IOAPIC reg ;;; load (IOAPIC + 16).
Definition ioapicwrite (reg data : Z) : M bus unit := store IOAPIC reg ;;; store (IOAPIC + 16) data.

(** [ioapicid] is what the multiprocessor table gave. *)
Definition ioapicinit (ioapicid : Z) : M bus unit :=
  let! v := ioapicread REG_VER in
  let maxintr := Z.land (Z.shiftr v 16) 0xFF in
  let! i := ioapicread REG_ID in
  when (bool_decide (Z.shiftr i 24 <> ioapicid)) (cprintf "ioapicinit: id isn't equal to ioapicid; not a MP") ;;;
  forM (seqZ 0 (maxintr + 1)) (fun i =>
    ioapicwrite (REG_TABLE + 2 * i) (Z.lor INT_DISABLED (T_IRQ0 + i)) ;;;
    ioapicwrite (REG_TABLE + 2 * i + 1) 0).
Definition ioapicenable (irq cpunum : Z) : M bus unit :=
  ioapicwrite (REG_TABLE + 2 * irq) (T_IRQ0 + irq) ;;;
  ioapicwrite (REG_TABLE + 2 * irq + 1) (Z.shiftl cpunum 24).

(** ** The local interrupt controller *)

(** The registers, by their index in words. *)
Definition ID : Z := 0x20 / 4.
Definition VER : Z := 0x30 / 4.
Definition TPR : Z := 0x80 / 4.
Definition EOI : Z := 0xB0 / 4.
Definition SVR : Z := 0xF0 / 4.
Definition ESR : Z := 0x280 / 4.
Definition ICRLO : Z := 0x300 / 4.
Definition ICRHI : Z := 0x310 / 4.
Definition TIMER : Z := 0x320 / 4.
Definition PCINT : Z := 0x340 / 4.
Definition LINT0 : Z := 0x350 / 4.
Definition LINT1 : Z := 0x360 / 4.
Definition ERROR : Z := 0x370 / 4.
Definition TICR : Z := 0x380 / 4.
Definition TDCR : Z := 0x3E0 / 4.
Definition ENABLE : Z := 0x100.
Definition INIT : Z := 0x500.
Definition STARTUP : Z := 0x600.
Definition DELIVS : Z := 0x1000.
Definition ASSERT : Z := 0x4000.
Definition LEVEL : Z := 0x8000.
Definition BCAST : Z := 0x80000.
Definition X1 : Z := 0xB.
Definition PERIODIC : Z := 0x20000.
Definition MASKED : Z := 0x10000.
Definition IRQ_ERROR : Z := 19.

(** [lapic] is the address of the registers, 0 if there are none. *)
Definition lapicw (lapic index value : Z) : M bus unit := store (lapic + 4 * index) value ;;; let! _ := load (lapic + 4 * ID) in ret tt.

Fixpoint wait_delivery (lapic : Z) (fuel : nat) : M bus unit :=
  match fuel with
  | O => stop_with Spins
  | S f => let! v := load (lapic + 4 * ICRLO) in if decide (Z.land v DELIVS <> 0) then wait_delivery lapic f else ret tt
  end.
Definition lapicinit (lapic : Z) (fuel : nat) : M bus unit :=
  if decide (lapic = 0) then ret tt else
  lapicw lapic SVR (Z.lor ENABLE (T_IRQ0 + IRQ_SPURIOUS)) ;;;
  lapicw lapic TDCR X1 ;;;
  lapicw lapic TIMER (Z.lor PERIODIC (T_IRQ0 + IRQ_TIMER)) ;;;
  lapicw lapic TICR 10000000 ;;;
  lapicw lapic LINT0 MASKED ;;;
  lapicw lapic LINT1 MASKED ;;;
  (let! v := load (lapic + 4 * VER) in
   when (bool_decide (4 <= Z.land (Z.shiftr v 16) 0xFF)) (lapicw lapic PCINT MASKED)) ;;;
  lapicw lapic ERROR (T_IRQ0 + IRQ_ERROR) ;;;
  lapicw lapic ESR 0 ;;;
  lapicw lapic ESR 0 ;;;
  lapicw lapic EOI 0 ;;;
  lapicw lapic ICRHI 0 ;;;
  lapicw lapic ICRLO (Z.lor (Z.lor BCAST INIT) LEVEL) ;;;
  wait_delivery lapic fuel ;;;
  lapicw lapic TPR 0.
Definition lapicid (lapic : Z) : M bus Z :=
  if decide (lapic = 0) then ret 0 else let! v := load (lapic + 4 * ID) in ret (Z.shiftr v 24).
Definition lapiceoi (lapic : Z) : M bus unit := when (bool_decide (lapic <> 0)) (lapicw lapic EOI 0).

Definition CMOS_PORT : Z := 0x70.
(** The warm reset vector, two half words in memory at [P2V(40:67)]. *)
Definition wrv : Z := 0x80000000 + Z.lor (Z.shiftl 0x40 4) 0x67.
Definition lapicstartap (lapic apicid addr : Z) : M bus unit :=
  outb CMOS_PORT 0xF ;;;
  outb (CMOS_PORT + 1) 0x0A ;;;
  store wrv 0 ;;;
  store (wrv + 2) (Z.shiftr addr 4 mod 2 ^ 16) ;;;
  lapicw lapic ICRHI (Z.shiftl apicid 24) ;;;
  lapicw lapic ICRLO (Z.lor (Z.lor INIT LEVEL) ASSERT) ;;;
  lapicw lapic ICRLO (Z.lor INIT LEVEL) ;;;
  forM [0; 1] (fun _ : Z =>
    lapicw lapic ICRHI (Z.shiftl apicid 24) ;;;
    lapicw lapic ICRLO (Z.lor STARTUP (Z.shiftr addr 12))).

Definition picinit : M bus unit := outb 0x21 0xFF ;;; outb 0xA1 0xFF.

(** ** The serial port *)

Definition COM1 : Z := 0x3f8.

Fixpoint uart_wait (n : nat) : M bus unit :=
  match n with
  | O => ret tt
  | S n' => let! v := inb (COM1 + 5) in if decide (Z.land v 0x20 = 0) then uart_wait n' else ret tt
  end.
(** [uart] says whether there is a port. *)
Definition uartputc (uart : bool) (c : Z) : M bus unit :=
  if uart then uart_wait 128 ;;; outb COM1 c else ret tt.
Definition uartgetc (uart : bool) : M bus Z :=
  if uart then
    let! v := inb (COM1 + 5) in
    if decide (Z.land v 0x01 = 0) then ret (-1) else inb COM1
  else ret (-1).
Definition uartinit : M bus bool :=
  outb (COM1 + 2) 0 ;;;
  outb (COM1 + 3) 0x80 ;;;
  outb COM1 (115200 / 9600) ;;;
  outb (COM1 + 1) 0 ;;;
  outb (COM1 + 3) 0x03 ;;;
  outb (COM1 + 4) 0 ;;;
  outb (COM1 + 1) 0x01 ;;;
  let! v := inb (COM1 + 5) in
  if decide (v = 0xFF) then ret false else
  let! _ := inb (COM1 + 2) in
  let! _ := inb COM1 in
  ioapicenable IRQ_COM1 0 ;;;
  forM (cs "xv6..." ++ [10]) (uartputc true) ;;;
  ret true.

(** ** The clock *)

Definition SECS : Z := 0.
Definition MINS : Z := 2.
Definition HOURS : Z := 4.
Definition DAY : Z := 7.
Definition MONTH : Z := 8.
Definition YEAR : Z := 9.
Definition CMOS_STATA : Z := 0xa.
Definition CMOS_STATB : Z := 0xb.
Definition CMOS_UIP : Z := Z.shiftl 1 7.

(** [struct rtcdate] *)
Record rtcdate := MkDate { second : Z; minute : Z; hour : Z; day : Z; month : Z; year : Z }.
#[export] Instance rtcdate_eq_dec : EqDecision rtcdate.
Proof. solve_decision. Defined.

Definition cmos_read (reg : Z) : M bus Z := outb CMOS_PORT reg ;;; inb (CMOS_PORT + 1).
Definition fill_rtcdate : M bus rtcdate :=
  let! s := cmos_read SECS in
  let! m := cmos_read MINS in
  let! h := cmos_read HOURS in
  let! d := cmos_read DAY in
  let! o := cmos_read MONTH in
  let! y := cmos_read YEAR in
  ret (MkDate s m h d o y).
Fixpoint stable_date (fuel : nat) : M bus rtcdate :=
  match fuel with
  | O => stop_with Spins
  | S f =>
      let! t1 := fill_rtcdate in
      let! a := cmos_read CMOS_STATA in
      if decide (Z.land a CMOS_UIP <> 0) then stable_date f else
      let! t2 := fill_rtcdate in
      if decide (t1 = t2) then ret t1 else stable_date f
  end.
(** [CONV] *)
Definition conv (x : Z) : Z := Z.shiftr x 4 * 10 + Z.land x 0xf.
Definition conv_date (d : rtcdate) : rtcdate :=
  MkDate (conv (second d)) (conv (minute d)) (conv (hour d)) (conv (day d)) (conv (month d)) (conv (year d)).
Definition cmostime (fuel : nat) : M bus rtcdate :=
  let! sb := cmos_read CMOS_STATB in
  let! t1 := stable_date fuel in
  let t1 := if decide (Z.land sb (Z.shiftl 1 2) = 0) then conv_date t1 else t1 in
  ret (MkDate (second t1) (minute t1) (hour t1) (day t1) (month t1) (year t1 + 2000)).
End devices.

(** A character is sent once, after 128 looks at the status at most. *)
Lemma uartputc_once answer c h : runs (uartputc answer true c)
  (fun _ h' => exists k, (k <= 128)%nat /\ h' = h ++ replicate k (In (COM1 + 5)) ++ [Out COM1 (u8 c)]) h.
Proof.
  assert (forall n h (Q : unit -> bus -> Prop), (forall k, (k <= n)%nat -> Q tt (h ++ replicate k (In (COM1 + 5)))) -> runs (uart_wait answer n) Q h) as Hw.
  { induction n as [|n IH]; intros h0 Q HQ; cbn [uart_wait].
    - apply runs_ret. rewrite <- (app_nil_r h0). apply (HQ 0%nat). lia.
    - apply runs_bind. unfold inb. eexists _, _. split; [reflexivity|]. case_decide.
      + apply IH. intros k Hk. rewrite <- app_assoc. apply (HQ (S k)). lia.
      + apply runs_ret. apply (HQ 1%nat). lia. }
  unfold uartputc. apply runs_bind, Hw. intros k Hk. apply runs_modify. exists k. by rewrite app_assoc.
Qed.

(** ** The date is one the clock showed *)

Section clock.
Context (answer : bus -> access -> Z) (clock : nat -> Z -> Z).
(** The clock: a read returns what the register selected just before holds at that time, counted in accesses. *)
Context (Hclock : forall h reg, answer (h ++ [Out CMOS_PORT reg]) (In (CMOS_PORT + 1)) = clock (length h) reg).

Definition date_at (t : nat) : rtcdate :=
  MkDate (clock t SECS) (clock t MINS) (clock t HOURS) (clock t DAY) (clock t MONTH) (clock t YEAR).
(** At most one tick in the 26 accesses of a round. *)
Definition sparse : Prop := forall n, exists k,
  (forall t, (n <= t < n + k)%nat -> date_at t = date_at n) /\ (forall t, (n + k <= t <= n + 26)%nat -> date_at t = date_at (n + 26)).

Lemma runs_cmos reg h (Q : Z -> bus -> Prop) : 0 <= reg < 2 ^ 8 -> (forall h', length h' = (length h + 2)%nat -> Q (clock (length h) reg) h') -> runs (cmos_read answer reg) Q h.
Proof.
  intros Hr HQ. unfold cmos_read, outb. rstep. unfold u8. rewrite Z.mod_small by done. exists (clock (length h) reg), ((h ++ [Out CMOS_PORT reg]) ++ [In (CMOS_PORT + 1)]).
  split; [unfold inb; by rewrite Hclock|]. apply HQ. rewrite !length_app. simpl. lia.
Qed.

(** The registers read one after the other from time [n] on. *)
Definition fields (n : nat) : rtcdate :=
  MkDate (clock n SECS) (clock (n + 2) MINS) (clock (n + 4) HOURS) (clock (n + 6) DAY) (clock (n + 8) MONTH) (clock (n + 10) YEAR).

Lemma runs_fill h (Q : rtcdate -> bus -> Prop) : (forall h', length h' = (length h + 12)%nat -> Q (fields (length h)) h') -> runs (fill_rtcdate answer) Q h.
Proof.
  intros HQ. unfold fill_rtcdate. do 6 (apply runs_bind, runs_cmos; [done|]; intros ? ?). apply runs_ret.
  match goal with |- Q (MkDate _ ?b ?c ?d ?e ?f) _ => assert (MkDate (clock (length h) SECS) b c d e f = fields (length h)) as -> end.
  { unfold fields. f_equal; f_equal; lia. }
  apply HQ. lia.
Qed.

Lemma fields_const n D : (forall t, (n <= t <= n + 10)%nat -> date_at t = D) -> fields n = D.
Proof.
  intros H. destruct D as [a b c d e f]. unfold fields. unfold date_at in H.
  pose proof (H n ltac:(lia)) as E0. pose proof (H (n + 2)%nat ltac:(lia)) as E1. pose proof (H (n + 4)%nat ltac:(lia)) as E2.
  pose proof (H (n + 6)%nat ltac:(lia)) as E3. pose proof (H (n + 8)%nat ltac:(lia)) as E4. pose proof (H (n + 10)%nat ltac:(lia)) as E5.
  f_equal; [exact (f_equal second E0) | exact (f_equal minute E1) | exact (f_equal hour E2) | exact (f_equal day E3) | exact (f_equal month E4) | exact (f_equal year E5)].
Qed.

(** Two equal readings are the date between them. *)
Lemma two_readings n : sparse -> fields n = fields (n + 14) -> fields n = date_at (n + 12).
Proof.
  intros Hs Heq. destruct (Hs n) as (k & H1 & H2). destruct (decide (k <= 12)%nat) as [Hk|Hk].
  - rewrite Heq, (H2 (n + 12)%nat) by lia. apply fields_const. intros t Ht. apply H2. lia.
  - rewrite (H1 (n + 12)%nat) by lia. apply fields_const. intros t Ht. apply H1. lia.
Qed.

(** From [T] on the clock rests for two rounds. *)
Definition rests (T : nat) : Prop := forall t, (T <= t <= T + 52)%nat -> date_at t = date_at T /\ Z.land (clock t CMOS_STATA) CMOS_UIP = 0.

Lemma runs_stable T fuel : forall h (Q : rtcdate -> bus -> Prop), sparse -> rests T -> (length h <= T + 26)%nat -> (T + 26 - length h < fuel)%nat ->
  (forall t h', (length h <= t < length h')%nat -> Q (date_at t) h') -> runs (stable_date answer fuel) Q h.
Proof.
  induction fuel as [|fuel IH]; intros h Q Hs Hr Hh Hf HQ; [lia|]. cbn [stable_date].
  apply runs_bind, runs_fill. intros h1 L1. apply runs_bind, runs_cmos; [done|]. intros h2 L2. case_decide as Hu.
  - assert (length h < T)%nat. { destruct (decide (length h < T)%nat); [done|]. exfalso. apply Hu, Hr. lia. }
    apply IH; try done; try lia. intros t h' Ht. apply HQ. lia.
  - apply runs_bind, runs_fill. intros h3 L3. replace (length h2) with (length h + 14)%nat in * by lia. case_decide as Heq.
    + apply runs_ret. rewrite (two_readings (length h)) by done. apply HQ. lia.
    + assert (length h < T)%nat.
      { destruct (decide (length h < T)%nat); [done|]. exfalso. apply Heq. rewrite !(fields_const _ (date_at T)); [done|..]; intros t Ht; apply Hr; lia. }
      apply IH; try done; try lia. intros t h' Ht. apply HQ. lia.
Qed.

(** What the registers mean, in the mode register B gives. *)
Definition shown (statb : Z) (d : rtcdate) : rtcdate :=
  let d := if decide (Z.testbit statb 2 = true) then d else conv_date d in
  MkDate (second d) (minute d) (hour d) (day d) (month d) (year d + 2000).

Lemma land_bit x k : 0 <= k -> Z.land x (Z.shiftl 1 k) = 0 <-> Z.testbit x k = false.
Proof.
  intros Hk. rewrite Z.shiftl_1_l. split.
  - intros E. pose proof (f_equal (fun y => Z.testbit y k) E) as H. simpl in H. rewrite Z.land_spec, Z.pow2_bits_true, andb_true_r, Z.bits_0 in H by done. done.
  - intros E. apply Z.bits_inj'. intros i Hi. rewrite Z.land_spec, Z.bits_0. destruct (decide (i = k)) as [->|Hne]; [by rewrite E|].
    by rewrite Z.pow2_bits_false, andb_false_r by done.
Qed.

(** C39: the date.  If the clock ticks at most once while a round of readings takes place, [cmostime] returns a date that the
    clock showed at one moment of the call, every field of it, in binary or decimal digits as its mode says; and it returns
    when the clock has rested for two rounds. *)
Theorem cmostime_snapshot fuel T h : sparse -> rests T -> (length h <= T)%nat -> (T + 26 - length h < fuel)%nat ->
  runs (cmostime answer fuel) (fun d h' => exists t, (length h <= t < length h')%nat /\ d = shown (clock (length h) CMOS_STATB) (date_at t)) h.
Proof.
  intros Hs Hr Hh Hf. unfold cmostime. apply runs_bind, runs_cmos; [done|]. intros h1 L1. apply runs_bind, (runs_stable T); try done; try lia.
  intros t h2 Ht. apply runs_ret. exists t. split; [lia|]. unfold shown.
  destruct (Z.testbit (clock (length h) CMOS_STATB) 2) eqn:E.
  - rewrite decide_False, decide_True by (rewrite ?land_bit by lia; congruence). done.
  - rewrite decide_True, decide_False by (rewrite ?land_bit by lia; congruence). done.
Qed.
End clock.

(** In its usual mode the clock shows two decimal digits in a byte. *)
Lemma conv_bcd x : 0 <= x < 100 -> conv (Z.lor (Z.shiftl (x / 10) 4) (x mod 10)) = x.
Proof.
  intros Hx. assert (forall n, (n < 100)%nat -> conv (Z.lor (Z.shiftl (Z.of_nat n / 10) 4) (Z.of_nat n mod 10)) = Z.of_nat n) as H.
  { intros n Hn. do 100 (destruct n as [|n]; [reflexivity|]). lia. }
  rewrite <- (Z2Nat.id x) by lia. apply H. lia.
Qed.

Definition example_clock (reg : Z) : Z :=
  if decide (reg = SECS) then 0x59 else if decide (reg = MINS) then 0x30 else if decide (reg = HOURS) then 0x12 else
  if decide (reg = DAY) then 0x21 else if decide (reg = MONTH) then 0x05 else if decide (reg = YEAR) then 0x19 else 0.
Lemma cmostime_snapshot_witness :
  runs (cmostime (fun h _ => match last h with Some (Out _ reg) => example_clock reg | _ => 0 end) 27) (fun d _ => d = MkDate 59 30 12 21 5 2019) [].
Proof.
  eapply runs_mono; [apply (cmostime_snapshot _ (fun _ => example_clock)) with (T := 0%nat)|].
  - intros h reg. by rewrite last_snoc.
  - intros n. exists 0%nat. split; [intros t Ht; reflexivity | intros t Ht; reflexivity].
  - intros t _. split; reflexivity.
  - apply Nat.le_refl.
  - simpl. lia.
  - intros d h' (t & _ & ->). reflexivity.
Defined.

(** ** Where interrupts go *)

Section routing.
Context (answer : bus -> access -> Z).

(** The I/O controller: the register selected, and the contents of the registers. *)
Definition ioapic_step (d : Z * (Z -> Z)) (x : access) : Z * (Z -> Z) :=
  match x with
  | Store a v => if decide (a = IOAPIC) then (v mod 2 ^ 8, d.2)
                 else if decide (a = IOAPIC + 16) then (d.1, fun r => if decide (r = d.1) then v else d.2 r) else d
  | _ => d
  end.
Definition ioapic_regs (h : bus) : Z -> Z := (foldl ioapic_step (0, fun _ => 0) h).2.
(** What the controller does with interrupt [i]: nothing, or a vector for a processor; the delivery mode is fixed. *)
Definition route (f : Z -> Z) (i : Z) : option (Z * Z) :=
  let lo := f (REG_TABLE + 2 * i) in
  if Z.testbit lo 16 then None else
  if decide (Z.shiftr lo 8 mod 2 ^ 8 = 0) then Some (lo mod 2 ^ 8, Z.shiftr (f (REG_TABLE + 2 * i + 1)) 24) else None.

Lemma runs_ioapicwrite reg data h (Q : unit -> bus -> Prop) : 0 <= reg < 2 ^ 8 -> 0 <= data < 2 ^ 32 ->
  (forall h', (forall r, ioapic_regs h' r = if decide (r = reg) then data else ioapic_regs h r) -> Q tt h') -> runs (ioapicwrite reg data) Q h.
Proof.
  intros Hr Hd HQ. unfold ioapicwrite, store. rstep. apply runs_modify, HQ. intros r. unfold ioapic_regs. rewrite !foldl_snoc. cbn [ioapic_step].
  rewrite !u32_small by lia. rewrite (decide_True (P := IOAPIC = IOAPIC)) by done. rewrite decide_False by done. rewrite decide_True by done. cbn [fst snd].
  by rewrite Z.mod_small by lia.
Qed.

Lemma route_ext f g i : f (REG_TABLE + 2 * i) = g (REG_TABLE + 2 * i) -> f (REG_TABLE + 2 * i + 1) = g (REG_TABLE + 2 * i + 1) -> route f i = route g i.
Proof. unfold route. by intros -> ->. Qed.

(** Two writes set an entry of the table. *)
Lemma runs_entry i lo hi h (Q : unit -> bus -> Prop) : 0 <= i < 120 -> 0 <= lo < 2 ^ 32 -> 0 <= hi < 2 ^ 32 ->
  (forall h', route (ioapic_regs h') i = route (fun r => if decide (r = REG_TABLE + 2 * i) then lo else hi) i ->
     (forall j, j <> i -> route (ioapic_regs h') j = route (ioapic_regs h) j) -> Q tt h') ->
  runs (ioapicwrite (REG_TABLE + 2 * i) lo ;;; ioapicwrite (REG_TABLE + 2 * i + 1) hi) Q h.
Proof.
  intros Hi Hlo Hhi HQ. apply runs_bind, runs_ioapicwrite; [unfold REG_TABLE; lia | done|]. intros h1 H1.
  apply runs_ioapicwrite; [unfold REG_TABLE; lia | done|]. intros h2 H2. apply HQ.
  - apply route_ext; rewrite H2, H1; repeat case_decide; lia || done.
  - intros j Hj. apply route_ext; rewrite H2, H1; repeat case_decide; lia || done.
Qed.

Lemma runs_enable irq cpu h (Q : unit -> bus -> Prop) : 0 <= irq < 120 -> 0 <= cpu < 2 ^ 8 ->
  (forall h', route (ioapic_regs h') irq = Some (T_IRQ0 + irq, cpu) -> (forall j, j <> irq -> route (ioapic_regs h') j = route (ioapic_regs h) j) -> Q tt h') ->
  runs (ioapicenable irq cpu) Q h.
Proof.
  intros Hi Hc HQ. unfold ioapicenable. apply runs_entry; [done | unfold T_IRQ0; lia | rewrite Z.shiftl_mul_pow2 by lia; lia|].
  intros h' Hr Hne. apply HQ; [|done]. rewrite Hr. unfold route, T_IRQ0. rewrite decide_True by done. rewrite (decide_False (P := REG_TABLE + 2 * irq + 1 = _)) by lia.
  assert (Z.testbit (32 + irq) 16 = false) as -> by (apply Z.bits_above_log2; [lia|]; apply Z.log2_lt_pow2; lia).
  rewrite decide_True by (rewrite Z.shiftr_div_pow2, Z.div_small by lia; done). rewrite Z.mod_small by lia.
  by rewrite Z.shiftr_shiftl_l, Z.sub_diag, Z.shiftl_0_r by lia.
Qed.

Lemma runs_init_loop n : forall k h (Q : unit -> bus -> Prop), 0 <= k -> k + Z.of_nat n <= 120 ->
  (forall h', (forall i, k <= i < k + Z.of_nat n -> route (ioapic_regs h') i = None) -> (forall i, i < k -> route (ioapic_regs h') i = route (ioapic_regs h) i) -> Q tt h') ->
  runs (forM (seqZ k (Z.of_nat n)) (fun i => ioapicwrite (REG_TABLE + 2 * i) (Z.lor INT_DISABLED (T_IRQ0 + i)) ;;; ioapicwrite (REG_TABLE + 2 * i + 1) 0)) Q h.
Proof.
  induction n as [|n IH]; intros k h Q H0 Hn HQ; [apply runs_ret, HQ; [lia | done]|].
  rewrite seqZ_cons by lia. replace (Z.pred (Z.of_nat (S n))) with (Z.of_nat n) by lia. cbn [forM]. apply runs_bind.
  assert (0 <= Z.lor INT_DISABLED (T_IRQ0 + k) < 2 ^ 32) as Hlor.
  { unfold INT_DISABLED, T_IRQ0. assert (0 <= Z.lor 0x10000 (32 + k)) by (apply Z.lor_nonneg; lia). split; [done|].
    apply Z.log2_lt_cancel. rewrite Z.log2_lor by lia. assert (Z.log2 (32 + k) < 16) by (apply Z.log2_lt_pow2; lia). simpl. lia. }
  apply runs_entry; [lia | done | done|]. intros h1 Hr1 Hne1. apply IH; [lia | lia|]. intros h2 Hi Hlt. apply HQ.
  - intros i Hr. destruct (decide (i = k)) as [->|]; [|apply Hi; lia]. rewrite Hlt, Hr1 by lia. unfold route. rewrite decide_True by done.
    by rewrite Z.lor_spec.
  - intros i Hr. rewrite Hlt by lia. apply Hne1. lia.
Qed.

(** What a list of enabled interrupts makes of interrupt [i]: the last one counts. *)
Definition enabled (l : list (Z * Z)) (i : Z) : option (Z * Z) :=
  foldl (fun r x => if decide (x.1 = i) then Some (T_IRQ0 + i, x.2) else r) None l.

Lemma runs_enables l : forall h (Q : unit -> bus -> Prop), Forall (fun x => 0 <= x.1 < 120 /\ 0 <= x.2 < 2 ^ 8) l ->
  (forall h', (forall i, route (ioapic_regs h') i = foldl (fun r x => if decide (x.1 = i) then Some (T_IRQ0 + i, x.2) else r) (route (ioapic_regs h) i) l) -> Q tt h') ->
  runs (forM l (fun x => ioapicenable x.1 x.2)) Q h.
Proof.
  induction l as [|[irq cpu] l IH]; intros h Q Hl HQ; cbn [forM]; [by apply runs_ret, HQ|]. apply Forall_cons in Hl as [[H1 H2] Hl].
  apply runs_bind, runs_enable; [done | done|]. cbn [fst snd] in *. intros h1 Hr Hne. apply IH; [done|]. intros h2 Hi. apply HQ. intros i. rewrite Hi. cbn [foldl fst snd].
  case_decide as E; [by rewrite <- E, Hr | by rewrite Hne].
Qed.

(** Where interrupts go.  After [ioapicinit] and any calls of [ioapicenable], an interrupt the controller has is delivered if it was enabled,
    to the processor it was last enabled for and with the vector 32 + its number; the others are masked. *)
Theorem interrupt_routing ioapicid v l h : (forall h, answer (h ++ [Store IOAPIC REG_VER]) (Load (IOAPIC + 16)) = v) ->
  let maxintr := Z.land (Z.shiftr v 16) 0xFF in maxintr < 120 ->
  Forall (fun x => 0 <= x.1 <= maxintr /\ 0 <= x.2 < 2 ^ 8) l ->
  runs (ioapicinit answer ioapicid ;;; forM l (fun x => ioapicenable x.1 x.2))
    (fun _ h' => forall i, 0 <= i <= maxintr -> route (ioapic_regs h') i = enabled l i) h.
Proof.
  intros Hv maxintr Hm Hl. assert (0 <= maxintr) as H0 by (apply Z.land_nonneg; right; done).
  apply runs_bind. unfold ioapicinit, ioapicread. apply runs_bind, runs_bind. unfold store at 1. rstep.
  exists v, ((h ++ [Store IOAPIC REG_VER]) ++ [Load (IOAPIC + 16)]). split; [unfold load; by rewrite <- (Hv h)|].
  apply runs_bind, runs_bind. unfold store at 1. rstep. unfold load at 1. eexists _, _. split; [reflexivity|].
  fold maxintr. apply runs_bind.
  match goal with |- runs (when ?b _) _ ?s => assert (forall Q : unit -> bus -> Prop, (forall h', Q tt h') -> runs (when b (cprintf "ioapicinit: id isn't equal to ioapicid; not a MP")) Q s) as Hw end.
  { intros Q HQ. destruct (bool_decide _); cbn [when]; [by apply runs_modify | by apply runs_ret]. }
  apply Hw. intros h1. replace (maxintr + 1) with (Z.of_nat (Z.to_nat (maxintr + 1))) by lia. apply runs_init_loop; [lia | lia|]. intros h2 Hnone _.
  apply runs_enables.
  - eapply Forall_impl; [exact Hl|]. simpl. intros x [? ?]. split; [lia | done].
  - intros h3 Hi i Hr. rewrite Hi, Hnone by lia. done.
Qed.
End routing.

(** The disk's interrupt is enabled on processor 1. *)
Lemma interrupt_routing_witness :
  runs (ioapicinit (fun _ _ => 0x170011) 0 ;;; forM [(14, 1)] (fun x => ioapicenable x.1 x.2))
    (fun _ h => route (ioapic_regs h) 14 = Some (46, 1) /\ route (ioapic_regs h) 1 = None) [].
Proof.
  eapply runs_mono; [apply (interrupt_routing (fun _ _ => 0x170011) 0 0x170011 [(14, 1)] [])|].
  - done.
  - done.
  - repeat constructor; done.
  - intros [] h H. split; [exact (H 14 ltac:(vm_compute; split; discriminate)) | exact (H 1 ltac:(vm_compute; split; discriminate))].
Defined.

(** Where another processor starts: the page the start-up message names, and the warm reset vector, are both [addr]. *)
Lemma startap_address addr : 0 <= addr < 2 ^ 20 -> addr mod 2 ^ 12 = 0 ->
  Z.shiftl (Z.lor STARTUP (Z.shiftr addr 12) mod 2 ^ 8) 12 = addr /\ 16 * (Z.shiftr addr 4 mod 2 ^ 16) + 0 = addr.
Proof.
  intros Hr Ha. split.
  - unfold STARTUP. rewrite <- Z.land_ones, Z.land_lor_distr_l by lia. change (Z.land 0x600 (Z.ones 8)) with 0. rewrite Z.lor_0_l, Z.land_ones by lia.
    rewrite Z.shiftr_div_pow2, Z.shiftl_mul_pow2 by lia. rewrite Z.mod_small by (split; [apply Z.div_pos; lia | apply Z.div_lt_upper_bound; lia]).
    pose proof (Z.div_mod addr (2 ^ 12)). lia.
  - rewrite Z.shiftr_div_pow2 by lia. rewrite Z.mod_small by (split; [apply Z.div_pos; lia | apply Z.div_lt_upper_bound; lia]).
    change (2 ^ 12) with 4096 in Ha. change (2 ^ 4) with 16. Z.to_euclidean_division_equations. lia.
Qed.
End Apic.
