(* ===== verification/Asm.v ===== *)
(** The assembly of the kernel: src/xv6-public/swtch.S, src/xv6-public/trapasm.S and the
    entry points src/xv6-public/vectors.pl generates.

    A machine with the registers of the processor and a memory of aligned words; the code is
    a list of instructions for it.  The theorems: a trap runs the handler on a frame with
    the registers of the interrupted program, which goes on with the
    registers the handler left there, and a thread that calls [swtch] is resumed by a later [swtch] to the context
    it saved, with the registers its caller expects. *)

From S2P Require Import Prelude Proc Trap Protect.

Module Asm.
Import Protect.
Import Trap (T_SYSCALL).

Inductive reg := EAX | EBX | ECX | EDX | ESI | EDI | EBP | ESP.
Inductive seg := DS | ES | FS | GS.

#[export] Instance reg_eq_dec : EqDecision reg.
Proof. solve_decision. Defined.
#[export] Instance seg_eq_dec : EqDecision seg.
Proof. solve_decision. Defined.

Record machine := MkMach {
  regs : reg -> Z;
  segs : seg -> Z;
  cs_ : Z;
  ss_ : Z;
  eip : Z;
  eflags : Z;
  mem : Z -> Z;
}.

Definition set_reg (r : reg) (v : Z) (m : machine) : machine :=
  MkMach (fun x => if decide (x = r) then v else regs m x) (segs m) (cs_ m) (ss_ m) (eip m) (eflags m) (mem m).
Definition set_seg (r : seg) (v : Z) (m : machine) : machine :=
  MkMach (regs m) (fun x => if decide (x = r) then v else segs m x) (cs_ m) (ss_ m) (eip m) (eflags m) (mem m).
Definition set_cs (v : Z) (m : machine) : machine := MkMach (regs m) (segs m) v (ss_ m) (eip m) (eflags m) (mem m).
Definition set_ss (v : Z) (m : machine) : machine := MkMach (regs m) (segs m) (cs_ m) v (eip m) (eflags m) (mem m).
Definition set_eip (v : Z) (m : machine) : machine := MkMach (regs m) (segs m) (cs_ m) (ss_ m) v (eflags m) (mem m).
Definition set_eflags (v : Z) (m : machine) : machine := MkMach (regs m) (segs m) (cs_ m) (ss_ m) (eip m) v (mem m).
Definition set_mem (a v : Z) (m : machine) : machine :=
  MkMach (regs m) (segs m) (cs_ m) (ss_ m) (eip m) (eflags m) (fun x => if decide (x = a) then v else mem m x).

(** Words are read and written at multiples of four only. *)
Definition load (a : Z) : M machine Z := fun m => if decide (a mod 4 = 0) then Ret (mem m a) m else Stop Undefined m.
Definition store (a v : Z) : M machine unit := fun m => if decide (a mod 4 = 0) then Ret tt (set_mem a v m) else Stop Undefined m.
Definition get (r : reg) : M machine Z := gets (fun m => regs m r).

Definition push (v : Z) : M machine unit :=
  let! a := get ESP in
  store (u32 (a - 4)) v ;;; modify (set_reg ESP (u32 (a - 4))).
Definition pop : M machine Z :=
  let! a := get ESP in
  let! v := load a in
  modify (set_reg ESP (u32 (a + 4))) ;;; ret v.

(** ** Instructions *)

Inductive instr :=
| PUSHL (r : reg)
| PUSHI (v : Z)
| PUSHS (r : seg)
| PUSHAL
| POPL (r : reg)
| POPS (r : seg)
| POPAL
| MOVL_load (off : Z) (base dst : reg)
| MOVL_store (src base : reg)
| MOVL (src dst : reg)
| MOVW_imm (v : Z) (dst : reg)
| MOVW_seg (src : reg) (dst : seg)
| ADDL_imm (v : Z) (dst : reg)
| RET
| IRET.

(** In user mode the privilege in the code segment's selector is not 0. *)
Definition user (m : machine) : Prop := Z.land (cs_ m) 3 <> 0.
#[export] Instance user_dec m : Decision (user m).
Proof. unfold user. apply _. Defined.

Section processor.
(** The flags after an addition: their old value, the operands. *)
Context (alu_flags : Z -> Z -> Z -> Z).

Definition exec (i : instr) : M machine unit :=
  match i with
  | PUSHL r => let! v := get r in push v
  | PUSHI v => push v
  | PUSHS r => let! v := gets (fun m => segs m r) in push v
  | PUSHAL => let! l := gets (fun m => regs m <$> [EAX; ECX; EDX; EBX; ESP; EBP; ESI; EDI]) in forM l push
  | POPL r => let! v := pop in modify (set_reg r v)
  | POPS r => let! v := pop in modify (set_seg r (v mod 2 ^ 16))
  | POPAL => forM [EDI; ESI; EBP] (fun r => let! v := pop in modify (set_reg r v)) ;;;
             let! _ := pop in
             forM [EBX; EDX; ECX; EAX] (fun r => let! v := pop in modify (set_reg r v))
  | MOVL_load off base dst => let! a := get base in let! v := load (u32 (a + off)) in modify (set_reg dst v)
  | MOVL_store src base => let! a := get base in let! v := get src in store a v
  | MOVL src dst => let! v := get src in modify (set_reg dst v)
  | MOVW_imm v dst => let! x := get dst in modify (set_reg dst (x - x mod 2 ^ 16 + v mod 2 ^ 16))
  | MOVW_seg src dst => let! x := get src in modify (set_seg dst (x mod 2 ^ 16))
  | ADDL_imm v dst => let! x := get dst in
                      modify (fun m => set_eflags (alu_flags (eflags m) x v) (set_reg dst (u32 (x + v)) m))
  | RET => let! v := pop in modify (set_eip v)
  | IRET => let! cpl := gets (fun m => Z.land (cs_ m) 3) in
            let! e := pop in
            let! c := pop in
            let! f := pop in
            modify (fun m => set_eip e (set_cs (c mod 2 ^ 16) (set_eflags f m))) ;;;
            if decide (cpl < Z.land (c mod 2 ^ 16) 3) then
              let! sp := pop in
              let! s := pop in
              modify (fun m => set_reg ESP sp (set_ss (s mod 2 ^ 16) m))
            else ret tt
  end.
Definition execs (l : list instr) : M machine unit := forM l exec.

(** What the processor does for an interrupt through a gate: from user mode it takes the
    stack of the task state, and it pushes an error code for some exceptions. *)
Definition interrupt (gate ss0 esp0 : Z) (err : option Z) : M machine unit :=
  let! m := gets (fun m => m) in
  when (bool_decide (user m)) (modify (set_ss ss0) ;;; modify (set_reg ESP esp0)) ;;;
  forM ((if decide (user m) then [ss_ m; regs m ESP] else []) ++ [eflags m; cs_ m; eip m] ++ match err with Some e => [e] | None => [] end) push ;;;
  modify (set_cs (hw_selector gate)) ;;;
  modify (set_eip (hw_handler gate)) ;;;
  when (bool_decide (hw_gate_type gate = STS_IG32)) (modify (set_eflags (Z.land (eflags m) (Z.lnot (2 ^ 9))))).
Definition pushes_error (n : Z) : bool := bool_decide (n ∈ [8; 10; 11; 12; 13; 14; 17]).

(** ** The code *)

Definition vector (i : Z) : list instr :=
  (if negb (bool_decide (i = 8) || (bool_decide (10 <= i) && bool_decide (i <= 14)) || bool_decide (i = 17)) then [PUSHI 0] else []) ++ [PUSHI i].

Definition SEG_KDATA_sel : Z := Z.shiftl SEG_KDATA 3.

(** [alltraps]; [trap] is the C function. *)
Definition alltraps (trap : M machine unit) : M machine unit :=
  execs [PUSHS DS; PUSHS ES; PUSHS FS; PUSHS GS; PUSHAL] ;;;
  execs [MOVW_imm SEG_KDATA_sel EAX; MOVW_seg EAX DS; MOVW_seg EAX ES] ;;;
  execs [PUSHL ESP] ;;;
  trap ;;;
  execs [ADDL_imm 4 ESP].
Definition trapret : M machine unit :=
  execs [POPAL; POPS GS; POPS FS; POPS ES; POPS DS; ADDL_imm 8 ESP; IRET].

Definition swtch : M machine unit :=
  execs [MOVL_load 4 ESP EAX; MOVL_load 8 ESP EDX; PUSHL EBP; PUSHL EBX; PUSHL ESI; PUSHL EDI;
         MOVL_store ESP EAX; MOVL EDX ESP; POPL EDI; POPL ESI; POPL EBX; POPL EBP; RET].
End processor.

(** ** The stack *)

(** The words [l] are at address [a]. *)
Definition at_words (mem : Z -> Z) (a : Z) (l : list Z) : Prop := forall i x, l !! i = Some x -> mem (a + 4 * Z.of_nat i) = x.
(** The stack pointer is [a], an aligned address, and [l] is what was pushed last. *)
Definition stacked (a : Z) (l : list Z) (m : machine) : Prop := regs m ESP = a /\ a mod 4 = 0 /\ at_words (mem m) a l.

Lemma at_words_push f a v l : at_words f a l -> at_words (fun x => if decide (x = a - 4) then v else f x) (a - 4) (v :: l).
Proof.
  intros H [|i] x Hi; simpl in Hi.
  - injection Hi as <-. by rewrite decide_True by lia.
  - rewrite decide_False by lia. rewrite <- (H i x Hi). f_equal. lia.
Qed.
Lemma at_words_pop f a v l : at_words f a (v :: l) -> f a = v /\ at_words f (a + 4) l.
Proof.
  intros H. split; [rewrite <- (H 0%nat v eq_refl); f_equal; lia|]. intros i x Hi. rewrite <- (H (S i) x Hi). f_equal. lia.
Qed.
Lemma aligned_down a : a mod 4 = 0 -> (a - 4) mod 4 = 0.
Proof. Z.to_euclidean_division_equations. lia. Qed.
Lemma aligned_up a : a mod 4 = 0 -> (a + 4) mod 4 = 0.
Proof. Z.to_euclidean_division_equations. lia. Qed.

Lemma runs_push_word v a l m Q : stacked a l m -> 4 <= a < 2 ^ 32 ->
  (let m' := set_reg ESP (a - 4) (set_mem (a - 4) v m) in stacked (a - 4) (v :: l) m' -> Q tt m') -> runs (push v) Q m.
Proof.
  intros (E & Ha & Hl) Hr HQ. unfold push, get. rstep. rewrite E, u32_small by lia. pose proof (aligned_down a Ha) as Ha'.
  apply runs_bind. exists tt, (set_mem (a - 4) v m). split; [unfold store; by rewrite decide_True|]. apply runs_modify, HQ.
  split_and!; [done | done|]. by apply at_words_push.
Qed.
Lemma runs_pop v a l m Q : stacked a (v :: l) m -> 0 <= a -> a + 4 < 2 ^ 32 ->
  (let m' := set_reg ESP (a + 4) m in stacked (a + 4) l m' -> Q v m') -> runs pop Q m.
Proof.
  intros (E & Ha & [Hv Hl]%at_words_pop) H0 H1 HQ. unfold pop, get. rstep. rewrite E. apply runs_bind.
  exists v, m. split; [unfold load; rewrite decide_True by done; by rewrite Hv|]. rstep. rewrite u32_small by lia. apply runs_ret, HQ.
  split_and!; [done | by apply aligned_up | done].
Qed.

(** Changing registers other than the stack pointer. *)
Lemma stacked_reg a l m r v : r <> ESP -> stacked a l m -> stacked a l (set_reg r v m).
Proof. intros Hr (E & Ha & Hl). split_and!; [|done | done]. simpl. by rewrite decide_False by done. Qed.

(** ** Trap frames *)

(** [struct trapframe]; the stack of the program is there only if it ran in user mode. *)
Record frame := MkFrame {
  f_edi : Z; f_esi : Z; f_ebp : Z; f_oesp : Z; f_ebx : Z; f_edx : Z; f_ecx : Z; f_eax : Z;
  f_gs : Z; f_fs : Z; f_es : Z; f_ds : Z; f_trapno : Z; f_err : Z; f_eip : Z; f_cs : Z; f_eflags : Z;
  f_stack : option (Z * Z);
}.
Definition layout (f : frame) : list Z :=
  [f_edi f; f_esi f; f_ebp f; f_oesp f; f_ebx f; f_edx f; f_ecx f; f_eax f; f_gs f; f_fs f; f_es f; f_ds f; f_trapno f; f_err f; f_eip f; f_cs f; f_eflags f]
  ++ match f_stack f with Some (sp, s) => [sp; s] | None => [] end.

(** The registers of an interrupted program, as a frame at address [a]. *)
Definition frame_of (u : machine) (n err a : Z) : frame :=
  MkFrame (regs u EDI) (regs u ESI) (regs u EBP) (a + 32) (regs u EBX) (regs u EDX) (regs u ECX) (regs u EAX)
    (segs u GS) (segs u FS) (segs u ES) (segs u DS) n err (eip u) (cs_ u) (eflags u)
    (if decide (Z.land (cs_ u) 3 <> 0) then Some (regs u ESP, ss_ u) else None).
(** The program runs with the registers of the frame. *)
Definition resumed (f : frame) (m : machine) : Prop :=
  regs m EDI = f_edi f /\ regs m ESI = f_esi f /\ regs m EBP = f_ebp f /\ regs m EBX = f_ebx f /\ regs m EDX = f_edx f /\ regs m ECX = f_ecx f /\ regs m EAX = f_eax f /\
  segs m GS = f_gs f /\ segs m FS = f_fs f /\ segs m ES = f_es f /\ segs m DS = f_ds f /\ eip m = f_eip f /\ cs_ m = f_cs f /\ eflags m = f_eflags f /\
  match f_stack f with Some (sp, s) => regs m ESP = sp /\ ss_ m = s | None => True end.
Definition ushort (x : Z) : Prop := 0 <= x < 2 ^ 16.
Definition frame_ok (f : frame) : Prop :=
  ushort (f_gs f) /\ ushort (f_fs f) /\ ushort (f_es f) /\ ushort (f_ds f) /\ ushort (f_cs f) /\
  match f_stack f with Some (_, s) => ushort s /\ Z.land (f_cs f) 3 <> 0 | None => Z.land (f_cs f) 3 = 0 end.

Section traps.
Context (alu_flags : Z -> Z -> Z -> Z).

(** Popping into a register. *)
Lemma runs_popl r v a l m (Q : unit -> machine -> Prop) : r <> ESP -> stacked a (v :: l) m -> 0 <= a -> a + 4 < 2 ^ 32 ->
  (let m' := set_reg r v (set_reg ESP (a + 4) m) in stacked (a + 4) l m' -> Q tt m') -> runs (let! v := pop in modify (set_reg r v)) Q m.
Proof. intros Hr Hs H0 H1 HQ. apply runs_bind. apply (runs_pop v a l); try done. intros m' Hs'. apply runs_modify, HQ. by apply stacked_reg. Qed.
Lemma runs_pops r v a l m (Q : unit -> machine -> Prop) : stacked a (v :: l) m -> 0 <= a -> a + 4 < 2 ^ 32 -> ushort v ->
  (let m' := set_seg r v (set_reg ESP (a + 4) m) in stacked (a + 4) l m' -> Q tt m') -> runs (exec alu_flags (POPS r)) Q m.
Proof.
  intros Hs H0 H1 Hv HQ. cbn [exec]. apply runs_bind. apply (runs_pop v a l); try done. intros m' Hs'. apply runs_modify.
  rewrite Z.mod_small by exact Hv. by apply HQ.
Qed.

Ltac popl_step := apply runs_bind; eapply runs_popl; [done | eassumption | lia | lia|]; cbv zeta; intros ?.
Ltac pops_step := apply runs_bind; eapply runs_pops; [eassumption | lia | lia | eassumption|]; cbv zeta; intros ?.

Lemma runs_drop l1 l2 n a m (Q : unit -> machine -> Prop) : stacked a (l1 ++ l2) m -> n = 4 * Z.of_nat (length l1) -> 0 <= a -> a + n < 2 ^ 32 ->
  (forall fl, let m' := set_eflags fl (set_reg ESP (a + n) m) in stacked (a + n) l2 m' -> Q tt m') -> runs (exec alu_flags (ADDL_imm n ESP)) Q m.
Proof.
  intros (E & Ha & Hl) Hn H0 H1 HQ. cbn [exec]. unfold get. rstep. apply runs_modify. rewrite E, u32_small by lia. apply HQ.
  split_and!; [done | subst n; rewrite Z.mul_comm, Z.mod_add; done|]. simpl. intros i x Hi.
  rewrite <- (Hl (length l1 + i)%nat x); [f_equal; lia|]. rewrite lookup_app_r by lia. rewrite <- Hi. f_equal. lia.
Qed.

Lemma iret_runs e c fl st a m (Q : unit -> machine -> Prop) :
  stacked a ([e; c; fl] ++ match st with Some (sp, s) => [sp; s] | None => [] end) m -> 0 <= a -> a + 20 < 2 ^ 32 ->
  Z.land (cs_ m) 3 = 0 -> ushort c -> match st with Some (_, s) => ushort s /\ Z.land c 3 <> 0 | None => Z.land c 3 = 0 end ->
  (let m' := set_eip e (set_cs c (set_eflags fl (set_reg ESP (a + 12) m))) in
   match st with Some (sp, s) => forall m'', (forall r, r <> ESP -> regs m'' r = regs m' r) -> segs m'' = segs m' -> cs_ m'' = c -> eip m'' = e -> eflags m'' = fl ->
                                  regs m'' ESP = sp -> ss_ m'' = s -> Q tt m''
               | None => forall m'', (forall r, regs m'' r = regs m' r) -> segs m'' = segs m' -> cs_ m'' = c -> eip m'' = e -> eflags m'' = fl -> ss_ m'' = ss_ m -> Q tt m'' end) ->
  runs (exec alu_flags IRET) Q m.
Proof.
  intros Hs H0 H1 Hk Hc Hst HQ. cbn [exec]. rstep. rewrite Hk. simpl app in Hs.
  do 3 (apply runs_bind; eapply runs_pop; [eassumption | lia | lia|]; cbv zeta; intros ?). rstep. rewrite (Z.mod_small c) by exact Hc.
  replace (a + 4 + 4 + 4) with (a + 12) in * by lia. destruct st as [[sp s]|].
  - destruct Hst as [Hs16 Hc3]. rewrite decide_True by (pose proof (Z.land_nonneg c 3); lia).
    do 2 (apply runs_bind; eapply runs_pop; [eassumption | lia | lia|]; cbv zeta; intros ?). rewrite (Z.mod_small s) by exact Hs16.
    apply runs_modify, HQ; try done. intros r Hr. simpl. by rewrite !decide_False by done.
  - rewrite decide_False by lia. apply runs_ret, HQ; try done. intros r. simpl. by case_decide.
Qed.

Lemma trapret_runs f a m (Q : unit -> machine -> Prop) : stacked a (layout f) m -> 0 <= a -> a + 76 < 2 ^ 32 -> Z.land (cs_ m) 3 = 0 -> frame_ok f ->
  (forall m', resumed f m' -> (f_stack f = None -> regs m' ESP = a + 68 /\ ss_ m' = ss_ m) -> Q tt m') -> runs (trapret alu_flags) Q m.
Proof.
  intros Hs H0 H1 Hk (Hgs & Hfs & Hes & Hds & Hcs & Hst) HQ. unfold trapret, execs. cbn [forM]. unfold layout in Hs. simpl app in Hs.
  apply runs_bind. cbn [exec forM]. apply runs_bind. do 3 popl_step. apply runs_ret.
  apply runs_bind. eapply runs_pop; [eassumption | lia | lia|]; cbv zeta; intros ?. do 4 popl_step. apply runs_ret.
  do 4 pops_step. apply runs_bind. match goal with H : stacked _ (f_trapno f :: f_err f :: ?l) _ |- _ => apply (runs_drop [f_trapno f; f_err f] l _ _ _ _ H) end; [done | lia | lia|]. cbv zeta. intros fl Hs'.
  apply runs_bind. eapply (iret_runs _ _ _ (f_stack f)); [exact Hs' | lia | lia | exact Hk | done | done|]. cbv zeta.
  destruct (f_stack f) as [[sp s]|] eqn:Ef; intros m'' Hr Hsg Hc He Hfl.
  - intros Hsp Hss. apply runs_ret, HQ; [|done]. unfold resumed. rewrite Ef, Hsg, !Hr by done. split_and!; done.
  - intros Hss. apply runs_ret, HQ; [|intros _; split; [rewrite Hr; simpl; lia | done]]. unfold resumed. rewrite Ef, Hsg, !Hr. split_and!; done.
Qed.

(** The machine differs from [u] at most in the stack, the memory and what an interrupt sets. *)
Definition same_regs (u m : machine) : Prop := (forall r, r <> ESP -> regs m r = regs u r) /\ segs m = segs u.
(** The stack the processor uses for an interrupt of [u]. *)
Definition trap_top (esp0 : Z) (u : machine) : Z := if decide (user u) then esp0 else regs u ESP.
Definition cleared (gate : Z) (flags : Z) : Z := if decide (hw_gate_type gate = STS_IG32) then Z.land flags (Z.lnot (2 ^ 9)) else flags.
(** What the processor sets besides the stack. *)
Definition entered (gate ss0 : Z) (u m : machine) : Prop :=
  cs_ m = hw_selector gate /\ eflags m = cleared gate (eflags u) /\ ss_ m = (if decide (user u) then ss0 else ss_ u).

Ltac push_step := apply runs_bind; eapply runs_push_word; [eassumption | lia|]; cbv zeta; intros ?.

(** Pushing a list of words, the last one first. *)
Lemma runs_pushes l1 : forall a l m (Q : unit -> machine -> Prop), stacked a l m -> 4 * Z.of_nat (length l1) <= a < 2 ^ 32 ->
  (forall m', stacked (a - 4 * Z.of_nat (length l1)) (reverse l1 ++ l) m' -> same_regs m m' -> cs_ m' = cs_ m -> ss_ m' = ss_ m -> eip m' = eip m -> eflags m' = eflags m -> Q tt m') ->
  runs (forM l1 push) Q m.
Proof.
  induction l1 as [|v l1 IH]; intros a l m Q Hs Hr HQ; cbn [forM].
  - apply runs_ret, HQ; try done. simpl. by rewrite Z.sub_0_r.
  - simpl length in *. apply runs_bind. apply (runs_push_word v a l); [done | lia|]. intros m' Hs'.
    apply (IH (a - 4) (v :: l)); [done | lia|]. intros m'' Hs'' [Hr1 Hr2] Hc He Hss Hf. apply HQ; try done.
    + replace (a - 4 * Z.of_nat (S (length l1))) with (a - 4 - 4 * Z.of_nat (length l1)) by lia. by rewrite reverse_cons, <- app_assoc.
    + split; [|done]. intros r Hne. rewrite Hr1 by done. simpl. by rewrite decide_False.
Qed.

Lemma interrupt_runs gate ss0 esp0 err u (Q : unit -> machine -> Prop) :
  trap_top esp0 u mod 4 = 0 -> 24 <= trap_top esp0 u < 2 ^ 32 ->
  (let l := match err with Some e => [e] | None => [] end ++ [eip u; cs_ u; eflags u] ++ (if decide (user u) then [regs u ESP; ss_ u] else []) in
   forall m', stacked (trap_top esp0 u - 4 * Z.of_nat (length l)) l m' -> same_regs u m' -> entered gate ss0 u m' -> Q tt m') ->
  runs (interrupt gate ss0 esp0 err) Q u.
Proof.
  intros Ha Hr HQ. unfold interrupt. rstep. cbv zeta in HQ. set (l := match err with Some e => [e] | None => [] end ++ _) in HQ.
  assert (runs (when (bool_decide (user u)) (modify (set_ss ss0) ;;; modify (set_reg ESP esp0)))
    (fun _ m => stacked (trap_top esp0 u) [] m /\ same_regs u m /\ eflags m = eflags u /\ ss_ m = (if decide (user u) then ss0 else ss_ u)) u) as H.
  { unfold trap_top in *. case_decide as Hu; [rewrite bool_decide_eq_true_2 by done | rewrite bool_decide_eq_false_2 by done]; cbn [when].
    - rstep. apply runs_modify. split_and!; try done. split; [|done]. intros r Hne. simpl. by rewrite decide_False.
    - apply runs_ret. done. }
  apply runs_bind. eapply runs_mono; [exact H|]. intros [] m (Hs & [Hr1 Hr2] & Hf & Hss). apply runs_bind.
  set (l1 := (if decide (user u) then [ss_ u; regs u ESP] else []) ++ _).
  assert (reverse l1 ++ [] = l) as El by (unfold l1, l; case_decide; destruct err; done).
  assert (length l1 = length l) as Elen by (rewrite <- El, app_nil_r, length_reverse; done).
  assert (length l <= 6)%nat as Hlen by (unfold l; case_decide; destruct err; simpl; lia).
  apply (runs_pushes l1 _ _ _ _ Hs); [lia|]. rewrite El, Elen. intros m' Hs' [Hr1' Hr2'] Hc' Hss' He' Hf'. rstep. rstep.
  assert (forall fl, fl = cleared gate (eflags u) -> Q tt (set_eflags fl (set_eip (hw_handler gate) (set_cs (hw_selector gate) m')))) as HQ'.
  { intros fl ->. apply HQ; [done | split; [intros r Hne; simpl; by rewrite Hr1', Hr1 | simpl; congruence] | split_and!; simpl; congruence]. }
  unfold cleared in HQ'. case_decide as Hg; [rewrite bool_decide_eq_true_2 by done | rewrite bool_decide_eq_false_2 by done]; cbn [when].
  - apply runs_modify. by apply HQ'.
  - apply runs_ret. specialize (HQ' _ eq_refl). rewrite <- Hf, <- Hf' in HQ'. by destruct m'.
Qed.

Lemma pushes_error_vector n : bool_decide (n = 8) || (bool_decide (10 <= n) && bool_decide (n <= 14)) || bool_decide (n = 17) = pushes_error n.
Proof.
  unfold pushes_error. symmetry. case_bool_decide as H; rewrite !elem_of_cons, elem_of_nil in H; repeat case_bool_decide; try done; lia.
Qed.
Lemma vector_runs n e a l m (Q : unit -> machine -> Prop) : stacked a ((if pushes_error n then [e] else []) ++ l) m -> 8 <= a < 2 ^ 32 ->
  (forall m', stacked (a - if pushes_error n then 4 else 8) (n :: (if pushes_error n then e else 0) :: l) m' -> same_regs m m' -> cs_ m' = cs_ m -> ss_ m' = ss_ m -> eflags m' = eflags m -> Q tt m') ->
  runs (execs alu_flags (vector n)) Q m.
Proof.
  intros Hs Hr HQ. unfold vector. rewrite pushes_error_vector. destruct (pushes_error n); simpl app in *.
  - apply (runs_pushes [n] _ _ _ _ Hs); [simpl; lia|]. intros m' Hs' H1 H2 H3 _ H4. by apply HQ.
  - apply (runs_pushes [0; n] _ _ _ _ Hs); [simpl; lia|]. intros m' Hs' H1 H2 H3 _ H4. by apply HQ.
Qed.

(** The frame is complete before [trap] is called. *)
Lemma build_runs n err a l u m (Q : unit -> machine -> Prop) :
  stacked (a + 48) (n :: err :: l) m -> same_regs u m -> 4 <= a -> a + 48 < 2 ^ 32 ->
  (forall m', stacked a ([regs u EDI; regs u ESI; regs u EBP; a + 32; regs u EBX; regs u EDX; regs u ECX; regs u EAX; segs u GS; segs u FS; segs u ES; segs u DS; n; err] ++ l) m' ->
     cs_ m' = cs_ m -> ss_ m' = ss_ m -> eflags m' = eflags m -> Q tt m') ->
  runs (execs alu_flags [PUSHS DS; PUSHS ES; PUSHS FS; PUSHS GS; PUSHAL]) Q m.
Proof.
  intros Hs [Hr1 Hr2] H0 H1 HQ. unfold execs. cbn [forM].
  do 4 (apply runs_bind; cbn [exec]; rstep; eapply runs_push_word; [eassumption | lia|]; cbv zeta; intros ?). cbn [segs set_reg set_mem] in *. rewrite Hr2 in *.
  replace (a + 48 - 4 - 4 - 4 - 4) with (a + 32) in * by lia. apply runs_bind. cbn [exec]. rstep.
  eapply runs_pushes; [eassumption | simpl; lia|]. intros m' Hs' _ Hc Hss _ Hf. apply runs_ret, HQ; [|done | done | done].
  replace (a + 32 - 4 * _) with a in Hs' by (simpl; lia). rewrite <- !Hr1 by done. exact Hs'.
Qed.

(** [trap], called by C's conventions with the frame's address as its argument, in a state of the
    kernel and with the kernel's data segments: it returns with the stack pointer as it was, and leaves
    the frame [f'] in the place of [f]. *)
Definition handles (trap : M machine unit) (kernel : machine -> Prop) (f f' : frame) (a : Z) : Prop := forall m,
  kernel m -> segs m DS = SEG_KDATA_sel -> segs m ES = SEG_KDATA_sel -> stacked (a - 4) (a :: layout f) m ->
  runs trap (fun _ m' => (exists x, stacked (a - 4) (x :: layout f') m') /\ cs_ m' = cs_ m /\ ss_ m' = ss_ m) m.

Lemma low_word x v : ushort v -> (x - x mod 2 ^ 16 + v mod 2 ^ 16) mod 2 ^ 16 = v.
Proof. unfold ushort. intros Hv. Z.to_euclidean_division_equations. lia. Qed.

Lemma alltraps_runs n err a l u m f' trap (kernel : machine -> Prop) (Q : unit -> machine -> Prop) :
  stacked (a + 48) (n :: err :: l) m -> same_regs u m -> 8 <= a -> a + 76 < 2 ^ 32 ->
  l = [eip u; cs_ u; eflags u] ++ (if decide (user u) then [regs u ESP; ss_ u] else []) ->
  (forall m', cs_ m' = cs_ m -> ss_ m' = ss_ m -> eflags m' = eflags m -> kernel m') ->
  handles trap kernel (frame_of u n err a) f' a ->
  (forall m', stacked a (layout f') m' -> cs_ m' = cs_ m -> ss_ m' = ss_ m -> Q tt m') ->
  runs (alltraps alu_flags trap) Q m.
Proof.
  intros Hs Hr H0 H1 Hl Hk Htrap HQ. unfold alltraps. apply runs_bind. apply (build_runs _ _ _ _ _ _ _ Hs Hr); [lia | lia|]. intros m1 Hs1 Hc1 Hss1 Hf1.
  apply runs_bind. unfold execs. cbn [forM exec]. unfold get. do 6 rstep. apply runs_ret. cbn [regs set_reg set_seg]. rewrite !decide_True by done.
  rewrite low_word by done. set (m2 := set_seg ES _ _).
  assert (stacked a (layout (frame_of u n err a)) m2) as Hs2.
  { apply (stacked_reg _ _ _ EAX (regs m1 EAX - regs m1 EAX mod 2 ^ 16 + SEG_KDATA_sel mod 2 ^ 16)) in Hs1; [|done]. subst l. unfold layout, frame_of. simpl f_stack.
    unfold user in *. destruct (decide (Z.land (cs_ u) 3 <> 0)); exact Hs1. }
  apply runs_bind. cbn [forM exec]. unfold get. apply runs_bind. rstep. replace (regs m2 ESP) with a by (symmetry; apply Hs2).
  apply (runs_push_word a a _ _ _ Hs2); [lia|]. intros m3 Hs3. apply runs_ret, runs_bind.
  eapply runs_mono; [apply (Htrap m3); [by apply Hk | done | done | done]|]. intros [] m4 ((x & Hs4) & Hc4 & Hss4). apply runs_bind.
  apply (runs_drop [x] (layout f') _ _ _ _ Hs4); [done | lia | lia|]. intros fl m5 Hs5. replace (a - 4 + 4) with a in Hs5 by lia.
  apply runs_ret. apply HQ; [done | rewrite <- Hc1; exact Hc4 | rewrite <- Hss1; exact Hss4].
Qed.

Lemma testbit_cleared x : Z.testbit (Z.land x (Z.lnot (2 ^ 9))) 9 = false.
Proof. rewrite Z.land_spec, Z.lnot_spec, Z.pow2_bits_true by lia. apply andb_false_r. Qed.

(** The state in which [trap] runs: the kernel's code and stack segments, and interrupts off but for system calls. *)
Definition in_kernel (n : Z) (u m : machine) : Prop :=
  cs_ m = Z.shiftl SEG_KCODE 3 /\ ss_ m = (if decide (user u) then SEG_KDATA_sel else ss_ u) /\ (n <> T_SYSCALL -> Z.testbit (eflags m) 9 = false).

(** C29: a trap and back.  From user mode or from the kernel, whatever the vector: through the gate that
    [tvinit] set, the entry code and [alltraps], the C function [trap] is called in the kernel's segments with a frame that holds every register
    of the interrupted program, its number and its error code, at the place below the top of the kernel stack where [allocproc] puts
    [p->tf]; and through [trapret] the program goes on with the registers of
    the frame as [trap] left it, an interrupted kernel with its stack as it was. *)
Theorem trap_roundtrip vectors n e esp0 u f' trap : let a := trap_top esp0 u - (if decide (user u) then 76 else 68) in let f := frame_of u n (if pushes_error n then e else 0) a in
  (forall i, 0 <= i < 256 -> 0 <= vectors i < 2 ^ 32) -> 0 <= n < 256 -> trap_top esp0 u mod 4 = 0 -> 84 <= trap_top esp0 u < 2 ^ 32 - 8 ->
  frame_ok f' -> (is_Some (f_stack f') <-> user u) ->
  handles trap (in_kernel n u) f f' a ->
  runs (interrupt (gate_word (gate_for vectors n)) SEG_KDATA_sel esp0 (if pushes_error n then Some e else None) ;;;
        execs alu_flags (vector n) ;;; alltraps alu_flags trap ;;; trapret alu_flags)
    (fun _ m => resumed f' m /\ (~ user u -> regs m ESP = regs u ESP /\ ss_ m = ss_ u)) u.
Proof.
  intros a f Hvec Hn Ha Hr Hok Huser Htrap. destruct (gate_for_spec vectors n (Hvec n Hn)) as (_ & _ & Hsel & _ & Hgt).
  apply runs_bind, interrupt_runs; [done | lia|]. cbv zeta. set (l := [eip u; cs_ u; eflags u] ++ _).
  replace (match (if pushes_error n then Some e else None) with Some e => [e] | None => [] end) with (if pushes_error n then [e] else []) by by destruct (pushes_error n).
  intros m1 Hs1 Hr1 (Hc1 & Hf1 & Hss1). assert (Z.of_nat (length l) = if decide (user u) then 5 else 3) as Hl by (unfold l; by case_decide).
  apply runs_bind. rewrite length_app, Nat2Z.inj_add, Hl in Hs1. apply (vector_runs _ _ _ _ _ _ Hs1); [by destruct (pushes_error n), (decide (user u)); simpl; lia|].
  intros m2 Hs2 Hr2 Hc2 Hss2 Hf2. apply runs_bind.
  replace (_ - (if pushes_error n then 4 else 8)) with (a + 48) in Hs2 by (unfold a; destruct (pushes_error n), (decide (user u)); simpl; lia).
  apply (alltraps_runs n _ a l u m2 f' trap (in_kernel n u) _ Hs2); [| unfold a; case_decide; lia | unfold a; case_decide; lia | done | | exact Htrap|].
  - destruct Hr1 as [Hr1 Hr1'], Hr2 as [Hr2 Hr2']. split; [intros r Hne; by rewrite Hr2, Hr1 | congruence].
  - intros m' Hc Hss Hf. split_and!; [congruence | congruence|]. intros Hne. rewrite Hf, Hf2, Hf1. rewrite decide_False in Hgt by done. unfold cleared. rewrite decide_True by done. apply testbit_cleared.
  - intros m3 Hs3 Hc3 Hss3. apply (trapret_runs f' a); [done | unfold a; case_decide; lia | unfold a; case_decide; lia | rewrite Hc3, Hc2, Hc1, Hsel; done | done|].
    intros m4 Hres Hst. split; [done|]. intros Hnu. destruct Hst as [Hsp Hss]. { destruct (f_stack f'); [|done]. exfalso. apply Hnu, Huser. eauto. }
    split; [rewrite Hsp; unfold a, trap_top; rewrite !decide_False by done; lia | rewrite Hss, Hss3, Hss2, Hss1; by rewrite decide_False].
Qed.
End traps.

Lemma at_words_set f a l i v : at_words f a l -> at_words (fun x => if decide (x = a + 4 * Z.of_nat i) then v else f x) a (<[i := v]> l).
Proof.
  intros H j x Hj. destruct (decide (j = i)) as [->|Hne].
  - rewrite decide_True by done. assert (i < length l)%nat as Hi by (apply lookup_lt_Some in Hj; by rewrite length_insert in Hj).
    rewrite list_lookup_insert_eq in Hj by done. congruence.
  - rewrite decide_False by lia. rewrite list_lookup_insert_ne in Hj by done. by apply H.
Qed.

(** A system call from user mode whose handler returns 42. *)
Lemma trap_roundtrip_witness :
  let u := MkMach (fun r => match r with EAX => 6 | ESP => 0x2ff0 | _ => 1 end) (fun _ => 0x23) 0x1b 0x23 0x100 0x202 (fun _ => 0) in
  runs (interrupt (gate_word (gate_for (fun i => 0x80105000 + 16 * i) 64)) SEG_KDATA_sel 0x8e000000 None ;;;
        execs (fun f _ _ => f) (vector 64) ;;; alltraps (fun f _ _ => f) (store (0x8e000000 - 76 + 28) 42) ;;; trapret (fun f _ _ => f))
    (fun _ m => regs m EAX = 42 /\ regs m EBX = 1 /\ regs m ESP = 0x2ff0 /\ eip m = 0x100 /\ cs_ m = 0x1b) u.
Proof.
  intros u. set (f' := MkFrame 1 1 1 (0x8e000000 - 76 + 32) 1 1 1 42 0x23 0x23 0x23 0x23 64 0 0x100 0x1b 0x202 (Some (0x2ff0, 0x23))).
  eapply runs_mono; [apply (trap_roundtrip (fun f _ _ => f) (fun i => 0x80105000 + 16 * i) 64 0 0x8e000000 u f' (store (0x8e000000 - 76 + 28) 42)); try done|].
  - intros i Hi. lia.
  - intros m _ _ _ (Hsp & Ha & Hw). exists tt, (set_mem (0x8e000000 - 76 + 28) 42 m). split; [done|]. split_and!; [|done | done].
    exists (0x8e000000 - 76). split_and!; [done | done|]. exact (at_words_set _ _ _ 8 42 Hw).
  - intros [] m [H _]. destruct H as (_ & _ & _ & Hebx & _ & _ & Heax & _ & _ & _ & _ & Heip & Hcs & _ & Hsp & _). done.
Defined.

(** ** Context switches *)

Section switch.
Context (alu_flags : Z -> Z -> Z -> Z).

(** [struct context] *)
Record context := MkCtx { c_edi : Z; c_esi : Z; c_ebx : Z; c_ebp : Z; c_eip : Z }.
Definition context_at (mem : Z -> Z) (p : Z) (c : context) : Prop := at_words mem p [c_edi c; c_esi c; c_ebx c; c_ebp c; c_eip c].
(** The registers a C function keeps for its caller, and the return address. *)
Definition context_of (m : machine) (ret : Z) : context := MkCtx (regs m EDI) (regs m ESI) (regs m EBX) (regs m EBP) ret.

(** A call [swtch(old, new)] with the stack pointer at [a]: the new context and the place for the
    pointer are aligned and apart from the words the call pushes. *)
Record calls_swtch (a ret old new : Z) (m : machine) : Prop := {
  sw_stack : stacked a [ret; old; new] m;
  sw_room : 16 <= a < 2 ^ 32 - 12;
  sw_old : old mod 4 = 0 /\ ~ (a - 16 <= old <= a + 8);
  sw_new : new mod 4 = 0 /\ 0 <= new < 2 ^ 32 - 20 /\ (new + 20 <= a - 16 \/ a <= new) /\ ~ (new <= old < new + 20);
}.

Lemma runs_movl_load off base dst a v m (Q : unit -> machine -> Prop) : regs m base = a -> 0 <= a + off < 2 ^ 32 -> (a + off) mod 4 = 0 -> mem m (a + off) = v ->
  Q tt (set_reg dst v m) -> runs (exec alu_flags (MOVL_load off base dst)) Q m.
Proof.
  intros E Hr Ha Hv HQ. cbn [exec]. unfold get. rstep. rewrite E, u32_small by done. apply runs_bind. exists v, m.
  split; [unfold load; rewrite decide_True by done; by rewrite Hv|]. by apply runs_modify.
Qed.

Lemma swtch_runs a ret old new c m (Q : unit -> machine -> Prop) : calls_swtch a ret old new m -> context_at (mem m) new c ->
  (forall m', regs m' EDI = c_edi c -> regs m' ESI = c_esi c -> regs m' EBX = c_ebx c -> regs m' EBP = c_ebp c -> eip m' = c_eip c -> regs m' ESP = new + 20 ->
     mem m' old = a - 16 -> context_at (mem m') (a - 16) (context_of m ret) -> (forall x, ~ (a - 16 <= x < a) -> x <> old -> mem m' x = mem m x) -> Q tt m') ->
  runs (swtch alu_flags) Q m.
Proof.
  intros [Hs Hr [Ho Ho2] (Hn & Hn1 & Hn2 & Hn3)] Hc HQ. destruct (Hs) as (Hsp & Ha & Hw).
  pose proof (Hw 1%nat old eq_refl) as Hold. pose proof (Hw 2%nat new eq_refl) as Hnew.
  unfold swtch, execs. cbn [forM]. apply runs_bind. apply (runs_movl_load 4 ESP EAX a old); [done | lia | apply aligned_up, Ha | exact Hold|].
  apply runs_bind. apply (runs_movl_load 8 ESP EDX a new); [done | lia | replace (a + 8) with (a + 4 + 4) by lia; by apply aligned_up, aligned_up | exact Hnew|].
  apply (stacked_reg _ _ _ EAX old) in Hs; [|done]. apply (stacked_reg _ _ _ EDX new) in Hs; [|done].
  do 4 (apply runs_bind; cbn [exec]; unfold get; rstep; eapply runs_push_word; [eassumption | lia|]; cbv zeta; intros ?).
  match goal with H : stacked (a - 4 - 4 - 4 - 4) _ ?x |- _ => set (m1 := x) in *; rename H into Hs1 end.
  replace (a - 4 - 4 - 4 - 4) with (a - 16) in * by lia.
  assert (forall x, ~ (a - 16 <= x < a) -> mem m1 x = mem m x) as Hmem.
  { intros x Hx. unfold m1. simpl. by rewrite !decide_False by lia. }
  apply runs_bind. cbn [exec]. unfold get. do 2 rstep. change (regs m1 EAX) with old. replace (regs m1 ESP) with (a - 16) by (symmetry; apply Hs1).
  set (m2 := set_mem old (a - 16) m1). exists tt, m2. split; [unfold store; by rewrite decide_True|]. apply runs_bind. rstep. apply runs_modify.
  change (regs m2 EDX) with new. set (m3 := set_reg ESP new m2).
  assert (stacked new [c_edi c; c_esi c; c_ebx c; c_ebp c; c_eip c] m3) as Hs3.
  { split_and!; [done | done|]. intros i x Hi. pose proof (lookup_lt_Some _ _ _ Hi) as Hlt. simpl in Hlt.
    change (mem m3 (new + 4 * Z.of_nat i)) with (if decide (new + 4 * Z.of_nat i = old) then a - 16 else mem m1 (new + 4 * Z.of_nat i)).
    rewrite decide_False, Hmem by lia. by apply Hc. }
  do 4 (apply runs_bind; cbn [exec]; eapply runs_popl; [done | eassumption | lia | lia|]; cbv zeta; intros ?).
  apply runs_bind. cbn [exec]. apply runs_bind. eapply runs_pop; [eassumption | lia | lia|]. cbv zeta. intros _. apply runs_modify, runs_ret.
  apply HQ; try done; simpl.
  - lia.
  - by rewrite decide_True.
  - destruct Hs1 as (_ & _ & Hw1). intros i x Hi. pose proof (lookup_lt_Some _ _ _ Hi) as Hlt. simpl in Hlt. rewrite decide_False by lia. apply Hw1.
    do 5 (destruct i as [|i]; [exact Hi|]). simpl in Hlt. lia.
  - intros x Hx Hne. rewrite decide_False by done. by apply Hmem.
Qed.

(** C32: [swtch] saves and resumes.  A call [swtch(&old, new)] continues where the context [new] was saved, with the registers in it, and stores the
    address of its own context in [*old]; a later call with that address, from any stack and with the five saved words untouched,
    returns to the first caller with the registers it must find unchanged and its stack pointer
    just after the return. *)
Theorem swtch_resumes a ret old new c m : calls_swtch a ret old new m -> context_at (mem m) new c ->
  runs (swtch alu_flags) (fun _ m1 =>
    context_of m1 (eip m1) = c /\ regs m1 ESP = new + 20 /\
    forall a2 ret2 old2 m2, calls_swtch a2 ret2 old2 (mem m1 old) m2 -> (forall x, mem m1 old <= x < mem m1 old + 20 -> mem m2 x = mem m1 x) ->
      runs (swtch alu_flags) (fun _ m3 => context_of m3 (eip m3) = context_of m ret /\ regs m3 ESP = a + 4) m2) m.
Proof.
  intros Hcall Hc. apply (swtch_runs a ret old new c); [done | done|]. intros m1 H1 H2 H3 H4 H5 H6 Ho Hctx _. split_and!; [|done|].
  - unfold context_of. rewrite H1, H2, H3, H4, H5. by destruct c.
  - rewrite Ho. intros a2 ret2 old2 m2 Hcall2 Hsame. apply (swtch_runs a2 ret2 old2 (a - 16) (context_of m ret)); [done | |].
    { intros i x Hi. pose proof (lookup_lt_Some _ _ _ Hi) as Hlt. simpl in Hlt. rewrite Hsame by lia. by apply Hctx. }
    intros m3 G1 G2 G3 G4 G5 G6 _ _ _. split; [|lia]. unfold context_of at 1. rewrite G1, G2, G3, G4, G5. done.
Qed.
End switch.

Lemma swtch_resumes_witness :
  let m := MkMach (fun r => match r with ESP => 0x1000 | EBX => 7 | _ => 1 end) (fun _ => 0x10) 8 0x10 0x400 2
    (fun x => if decide (x = 0x1000) then 0x500 else if decide (x = 0x1004) then 0x100 else if decide (x = 0x1008) then 0x2000 else x) in
  runs (swtch (fun f _ _ => f)) (fun _ m1 => regs m1 EBX = 0x2008 /\ eip m1 = 0x2010 /\ regs m1 ESP = 0x2014) m.
Proof.
  intros m. eapply runs_mono; [apply (swtch_resumes (fun f _ _ => f) 0x1000 0x500 0x100 0x2000 (MkCtx 0x2000 0x2004 0x2008 0x200c 0x2010) m)|].
  - split; [|done | split; [done | lia] | split_and!; [done | done | done | lia | lia]]. split_and!; [done | done|].
    intros [|[|[|i]]] x Hi; simpl in Hi; [by injection Hi as <- | by injection Hi as <- | by injection Hi as <- | done].
  - intros [|[|[|[|[|i]]]]] x Hi; simpl in Hi; try (by injection Hi as <-); done.
  - intros [] m1 (H1 & H2 & _). unfold context_of in H1. injection H1 as _ _ H3 _ H5. done.
Defined.
End Asm.
