(* ===== verification/Boot.v ===== *)
(** The boot loader: src/xv6-public/bootmain.c.

    It reads the kernel's ELF image from the disk, sector by sector through the ports of the
    disk controller, to the physical addresses its program headers give.  The theorem: every
    segment ends up where its header says, followed by zeros up to its size in memory, though whole
    sectors are read and more is written than asked. *)

From S2P Require Import Prelude Bytes CString Exec.

Module Boot.
Import CString.

(** The memory, the ports, the data the controller has ready, and the time. *)
Record boot := MkBoot {
  bmem : mem;
  ports : Z -> Z;
  ready : list Z;
  time : nat;
}.
Definition SECTSIZE : Z := 512.

Section controller.
(** The sectors of the disk, and the status register as time passes. *)
Context (disk : Z -> list Z) (status : nat -> Z).

Definition inb_status : M boot Z := fun s => Ret (status (time s)) (MkBoot (bmem s) (ports s) (ready s) (S (time s))).
(** A byte written to a port; the command 0x20 reads the sectors the other ports name. *)
Definition set_port (port v : Z) (p : Z -> Z) : Z -> Z := fun x => if decide (x = port) then u8 v else p x.
Definition lba (p : Z -> Z) : Z := p 0x1F3 + 2 ^ 8 * p 0x1F4 + 2 ^ 16 * p 0x1F5 + 2 ^ 24 * (p 0x1F6 mod 2 ^ 4).
Definition outb (port v : Z) : M boot unit := modify (fun s => MkBoot (bmem s) (set_port port v (ports s))
  (if decide (port = 0x1F7 /\ v = 0x20) then concat (disk <$> seqZ (lba (ports s)) (ports s 0x1F2)) else ready s) (time s)).
(** [insl]: [cnt] words from the controller to the memory at [addr]. *)
Definition insl (addr : Z) (cnt : nat) : M boot unit := modify (fun s =>
  MkBoot (fun x => if decide (addr <= x < addr + 4 * Z.of_nat cnt) then nth (Z.to_nat (x - addr)) (ready s) 0 else bmem s x)
    (ports s) (drop (4 * cnt) (ready s)) (time s)).

Fixpoint waitdisk (fuel : nat) : M boot unit :=
  match fuel with
  | O => stop_with Spins
  | S f => let! v := inb_status in if decide (Z.land v 0xC0 <> 0x40) then waitdisk f else ret tt
  end.

Definition readsect (fuel : nat) (dst offset : Z) : M boot unit :=
  waitdisk fuel ;;;
  outb 0x1F2 1 ;;;
  outb 0x1F3 offset ;;;
  outb 0x1F4 (Z.shiftr offset 8) ;;;
  outb 0x1F5 (Z.shiftr offset 16) ;;;
  outb 0x1F6 (Z.lor (Z.shiftr offset 24) 0xE0) ;;;
  outb 0x1F7 0x20 ;;;
  waitdisk fuel ;;;
  insl dst (Z.to_nat (SECTSIZE / 4)).

Fixpoint readseg_loop (fuel rounds : nat) (pa epa offset : Z) : M boot unit :=
  match rounds with
  | O => stop_with Spins
  | S r => if decide (pa < epa) then
             readsect fuel pa offset ;;; readseg_loop fuel r (u32 (pa + SECTSIZE)) epa (u32 (offset + 1))
           else ret tt
  end.
(** A round advances the address, so [count + SECTSIZE + 1] of them are enough. *)
Definition readseg (fuel : nat) (pa count offset : Z) : M boot unit :=
  let epa := u32 (pa + count) in
  let pa := u32 (pa - offset mod SECTSIZE) in
  let offset := u32 (offset / SECTSIZE + 1) in
  readseg_loop fuel (Z.to_nat (count + SECTSIZE + 1)) pa epa offset.

Definition bytes_at (m : mem) (a : Z) (n : nat) : list Z := (fun k => m (a + Z.of_nat k)) <$> seq 0 n.
Definition paddr (d : list Z) : Z := get32 d 12.

Definition elf_addr : Z := 0x10000.

(** The loop over the program headers, in the copy of the image's first page. *)
Fixpoint load_segments (fuel n : nat) (ph : Z) : M boot unit :=
  match n with
  | O => ret tt
  | S n' =>
      let! d := gets (fun s => bytes_at (bmem s) ph (Z.to_nat Exec.sizeof_proghdr)) in
      let h := Exec.decode_ph d in
      let pa := paddr d in
      readseg fuel pa (Exec.filesz h) (Exec.ph_off h) ;;;
      when (bool_decide (Exec.filesz h < Exec.memsz h))
        (modify (fun s => MkBoot (stosb (bmem s) (u32 (pa + Exec.filesz h)) 0 (Z.to_nat (Exec.memsz h - Exec.filesz h))) (ports s) (ready s) (time s))) ;;;
      load_segments fuel n' (u32 (ph + Exec.sizeof_proghdr))
  end.

(** The result is the address that is called, or nothing where [bootmain] returns. *)
Definition bootmain (fuel : nat) : M boot (option Z) :=
  readseg fuel elf_addr 4096 0 ;;;
  let! elf := gets (fun s => Exec.decode_elf (bytes_at (bmem s) elf_addr (Z.to_nat Exec.sizeof_elfhdr))) in
  if decide (Exec.magic elf <> Exec.ELF_MAGIC) then ret None else
  load_segments fuel (Z.to_nat (Exec.phnum elf)) (u32 (elf_addr + Exec.phoff elf)) ;;;
  let! elf := gets (fun s => Exec.decode_elf (bytes_at (bmem s) elf_addr (Z.to_nat Exec.sizeof_elfhdr))) in
  ret (Some (Exec.entry elf)).
End controller.

(** ** Loading *)

Section load.
Context (disk : Z -> list Z) (status : nat -> Z) (fuel : nat).
(** The disk answers: at any time it is ready again within [fuel] reads of its status. *)
Context (Hready : forall t, exists k, (k < fuel)%nat /\ Z.land (status (t + k)) 0xC0 = 0x40).

(** The image: the sectors from the second on. *)
Definition img (k : Z) : Z := nth (Z.to_nat (k mod SECTSIZE)) (disk (k / SECTSIZE + 1)) 0.

Lemma wait_runs s (Q : unit -> boot -> Prop) : (forall t, Q tt (MkBoot (bmem s) (ports s) (ready s) t)) -> runs (waitdisk status fuel) Q s.
Proof.
  intros HQ. destruct (Hready (time s)) as (k & Hk & Hst). clear Hready. revert s k Hk Hst HQ. induction fuel as [|f IH]; intros s k Hk Hst HQ; [lia|].
  cbn [waitdisk]. apply runs_bind. exists (status (time s)), (MkBoot (bmem s) (ports s) (ready s) (S (time s))). split; [done|].
  case_decide; [|by apply runs_ret]. destruct k as [|k]; [by rewrite Nat.add_0_r in Hst|].
  apply (IH _ k); [lia | by replace (time _ + k)%nat with (time s + S k)%nat by (simpl; lia) | done].
Qed.

Lemma lba_bytes off : 0 <= off < 2 ^ 28 ->
  u8 off + 2 ^ 8 * u8 (Z.shiftr off 8) + 2 ^ 16 * u8 (Z.shiftr off 16) + 2 ^ 24 * (u8 (Z.lor (Z.shiftr off 24) 0xE0) mod 2 ^ 4) = off.
Proof.
  intros Hr. assert (u8 (Z.lor (Z.shiftr off 24) 0xE0) mod 2 ^ 4 = Z.shiftr off 24) as ->.
  { unfold u8. rewrite <- !Z.land_ones by lia. rewrite <- Z.land_assoc. change (Z.land (Z.ones 8) (Z.ones 4)) with (Z.ones 4).
    rewrite Z.land_lor_distr_l. change (Z.land 0xE0 (Z.ones 4)) with 0. rewrite Z.lor_0_r, Z.land_ones by lia. apply Z.mod_small.
    rewrite Z.shiftr_div_pow2 by lia. split; [apply Z.div_pos; lia | apply Z.div_lt_upper_bound; lia]. }
  unfold u8. rewrite !Z.shiftr_div_pow2 by lia.
  assert (off / 2 ^ 16 = off / 2 ^ 8 / 2 ^ 8) as -> by (rewrite Zdiv_Zdiv by lia; done).
  assert (off / 2 ^ 24 = off / 2 ^ 8 / 2 ^ 8 / 2 ^ 8) as -> by (rewrite !Zdiv_Zdiv by lia; done).
  pose proof (Z.div_mod off (2 ^ 8)). pose proof (Z.div_mod (off / 2 ^ 8) (2 ^ 8)). pose proof (Z.div_mod (off / 2 ^ 8 / 2 ^ 8) (2 ^ 8)). lia.
Qed.

Lemma readsect_runs dst off s (Q : unit -> boot -> Prop) : 0 <= off < 2 ^ 28 ->
  (forall s', (forall x, bmem s' x = if decide (dst <= x < dst + SECTSIZE) then nth (Z.to_nat (x - dst)) (disk off) 0 else bmem s x) -> Q tt s') ->
  runs (readsect disk status fuel dst off) Q s.
Proof.
  intros Ho HQ. unfold readsect. apply runs_bind, wait_runs. intros t. unfold outb. do 6 apply runs_bind, runs_modify. cbn [bmem ports ready time]. apply runs_bind, wait_runs. intros t'.
  unfold insl. apply runs_modify, HQ. intros x. change (4 * Z.of_nat (Z.to_nat (SECTSIZE / 4))) with SECTSIZE. cbn [bmem ready].
  match goal with |- (if decide _ then nth _ ?l 0 else _) = _ => replace l with (disk off); [done|] end.
  transitivity (concat (disk <$> seqZ (u8 off + 2 ^ 8 * u8 (Z.shiftr off 8) + 2 ^ 16 * u8 (Z.shiftr off 16) + 2 ^ 24 * (u8 (Z.lor (Z.shiftr off 24) 0xE0) mod 2 ^ 4)) 1)); [|reflexivity].
  rewrite lba_bytes by done. simpl. by rewrite app_nil_r.
Qed.

(** Whole sectors, from the one that holds the first byte: [n] of them at [pa]. *)
Lemma img_shift off i : 0 <= i < SECTSIZE -> 0 < off -> img (SECTSIZE * (off - 1) + i) = nth (Z.to_nat i) (disk off) 0.
Proof.
  unfold img, SECTSIZE. intros Hi Ho. rewrite Z.mul_comm, (Z.add_comm _ i), Z.mod_add, Z.div_add by lia. rewrite Z.mod_small, Z.div_small by lia. do 2 f_equal. lia.
Qed.

Lemma loop_runs rounds : forall pa epa off n s (Q : unit -> boot -> Prop), n = Z.max 0 ((epa - pa + 511) / SECTSIZE) ->
  n < Z.of_nat rounds -> 0 <= pa -> epa + SECTSIZE < 2 ^ 32 -> pa < 2 ^ 32 -> 0 < off -> off + n < 2 ^ 28 ->
  (forall s', (forall x, bmem s' x = if decide (pa <= x < pa + SECTSIZE * n) then img (SECTSIZE * (off - 1) + (x - pa)) else bmem s x) -> Q tt s') ->
  runs (readseg_loop disk status fuel rounds pa epa off) Q s.
Proof.
  induction rounds as [|r IH]; intros pa epa off n s Q En Hn H0 He Hp Ho Hoff HQ; [lia|]. cbn [readseg_loop]. case_decide as Hlt.
  - assert (n = Z.max 0 ((epa - (pa + SECTSIZE) + 511) / SECTSIZE) + 1) as Hn1.
    { rewrite En. unfold SECTSIZE. replace (epa - (pa + 512) + 511) with (epa - pa + 511 + (-1) * 512) by lia. rewrite Z.div_add by lia.
      assert (1 <= (epa - pa + 511) / 512) by (apply Z.div_le_lower_bound; lia). lia. }
    apply runs_bind, readsect_runs; [lia|]. intros s1 Hs1. rewrite !u32_small by (unfold SECTSIZE in *; lia).
    apply (IH _ _ _ (n - 1)); [lia | lia | unfold SECTSIZE in *; lia | done | unfold SECTSIZE in *; lia | lia | lia|].
    intros s2 Hs2. apply HQ. intros x. rewrite Hs2, Hs1. unfold SECTSIZE in *. repeat case_decide; try lia; [f_equal; lia|].
    symmetry. apply (img_shift off (x - pa)); [unfold SECTSIZE; lia | done].
  - apply runs_ret, HQ. intros x. assert (n = 0) as -> by (rewrite En; assert ((epa - pa + 511) / SECTSIZE < 1) by (apply Z.div_lt_upper_bound; unfold SECTSIZE; lia); lia).
    by rewrite decide_False by lia.
Qed.

(** [readseg]: the bytes asked for are read; more may be written, up to the ends of their sectors. *)
Lemma readseg_runs pa count off s (Q : unit -> boot -> Prop) :
  0 <= off -> 0 <= count -> SECTSIZE <= pa -> pa + count + SECTSIZE < 2 ^ 32 -> off + count < 2 ^ 36 ->
  (forall s', (forall x, pa <= x < pa + count -> bmem s' x = img (off + (x - pa))) ->
     (forall x, x < pa - off mod SECTSIZE \/ pa + count + SECTSIZE <= x -> bmem s' x = bmem s x) -> Q tt s') ->
  runs (readseg disk status fuel pa count off) Q s.
Proof.
  intros Ho Hc Hp He Hoff HQ. unfold readseg. pose proof (Z.mod_pos_bound off SECTSIZE ltac:(done)) as Hm.
  pose proof (Z.div_mod off SECTSIZE ltac:(done)) as Hdm. assert (0 <= off / SECTSIZE < 2 ^ 27) as Hd.
  { split; [by apply Z.div_pos | apply Z.div_lt_upper_bound; [done | unfold SECTSIZE; lia]]. }
  unfold SECTSIZE in *. rewrite !u32_small by lia.
  set (n := Z.max 0 ((pa + count - (pa - off mod 512) + 511) / 512)).
  assert (count + off mod 512 <= 512 * n < count + off mod 512 + 512 \/ n = 0 /\ count = 0 /\ off mod 512 = 0) as Hn.
  { unfold n. Z.to_euclidean_division_equations. lia. }
  assert (n <= 2 ^ 27 + 1) as Hn2 by lia.
  apply (loop_runs _ _ _ _ n); try (unfold SECTSIZE; lia). intros s' Hs'. unfold SECTSIZE in Hs'. apply HQ.
  - intros x Hx. rewrite Hs', decide_True by lia. f_equal. lia.
  - intros x Hx. rewrite Hs', decide_False by lia. done.
Qed.

(** ** The image *)

Definition img_bytes (off : Z) (n : nat) : list Z := (fun k => img (off + Z.of_nat k)) <$> seq 0 n.
Definition header : Exec.elfhdr := Exec.decode_elf (img_bytes 0 (Z.to_nat Exec.sizeof_elfhdr)).
Definition ph_bytes (i : Z) : list Z := img_bytes (Exec.phoff header + Exec.sizeof_proghdr * i) (Z.to_nat Exec.sizeof_proghdr).
Notation ph i := (Exec.decode_ph (ph_bytes i)).
Notation pa i := (paddr (ph_bytes i)).
(** The bytes a segment takes in memory, and the first one that reading its sectors overwrites. *)
Definition size (i : Z) : Z := Z.max (Exec.filesz (ph i)) (Exec.memsz (ph i)).
Definition first (i : Z) : Z := pa i - Exec.ph_off (ph i) mod SECTSIZE.

(** An image the loader can load: its headers are in the first page, its segments above the copy of that page and
    below the end of memory, and in increasing order, with room for what is read before a segment. *)
Record bootable : Prop := {
  bt_magic : Exec.magic header = Exec.ELF_MAGIC;
  bt_page : 0 <= Exec.phoff header /\ 0 <= Exec.phnum header /\ Exec.phoff header + Exec.sizeof_proghdr * Exec.phnum header <= 4096;
  bt_fields i : 0 <= i < Exec.phnum header -> 0 <= Exec.ph_off (ph i) < 2 ^ 32 /\ 0 <= Exec.filesz (ph i) /\ 0 <= Exec.memsz (ph i);
  bt_above i : 0 <= i < Exec.phnum header -> elf_addr + 4096 <= first i;
  bt_below i : 0 <= i < Exec.phnum header -> pa i + size i + SECTSIZE < 2 ^ 32;
  bt_order i j : 0 <= i < j -> j < Exec.phnum header -> pa i + size i <= first j;
}.

Definition loaded (m : mem) (i : Z) : Prop := forall k, 0 <= k < size i ->
  m (pa i + k) = if decide (k < Exec.filesz (ph i)) then img (Exec.ph_off (ph i) + k) else 0.
Definition page (m : mem) : Prop := forall k, 0 <= k < 4096 -> m (elf_addr + k) = img k.

Lemma page_bytes m off n : page m -> 0 <= off -> off + Z.of_nat n <= 4096 -> bytes_at m (elf_addr + off) n = img_bytes off n.
Proof.
  intros Hp H0 H1. unfold bytes_at, img_bytes. apply list_fmap_ext. intros i k [-> Hk]%lookup_seq. rewrite <- Z.add_assoc. apply Hp. lia.
Qed.

Lemma segment_runs (Hb : bootable) i s (Q : unit -> boot -> Prop) : 0 <= i < Exec.phnum header -> page (bmem s) -> (forall j, 0 <= j < i -> loaded (bmem s) j) ->
  (forall s', page (bmem s') -> (forall j, 0 <= j < i + 1 -> loaded (bmem s') j) -> Q tt s') ->
  runs (readseg disk status fuel (pa i) (Exec.filesz (ph i)) (Exec.ph_off (ph i)) ;;;
        when (bool_decide (Exec.filesz (ph i) < Exec.memsz (ph i)))
          (modify (fun s => MkBoot (stosb (bmem s) (u32 (pa i + Exec.filesz (ph i))) 0 (Z.to_nat (Exec.memsz (ph i) - Exec.filesz (ph i)))) (ports s) (ready s) (time s)))) Q s.
Proof.
  intros Hi Hpage Hdone HQ. destruct (bt_fields Hb i Hi) as (Hoff & Hfs & Hms). pose proof (bt_above Hb i Hi) as Habove. pose proof (bt_below Hb i Hi) as Hbelow.
  pose proof (Z.mod_pos_bound (Exec.ph_off (ph i)) SECTSIZE ltac:(done)) as Hm. unfold first, size, elf_addr, SECTSIZE in *.
  apply runs_bind, readseg_runs; try (unfold SECTSIZE; lia). unfold SECTSIZE. intros s1 Hin Hout.
  assert (forall s', (forall x, pa i <= x < pa i + Exec.filesz (ph i) -> bmem s' x = bmem s1 x) -> (forall x, x < pa i -> bmem s' x = bmem s1 x) ->
    (forall x, pa i + Exec.filesz (ph i) <= x < pa i + Exec.memsz (ph i) -> bmem s' x = 0) -> Q tt s') as HQ'.
  { intros s' H1 H2 H3. apply HQ.
    - intros k Hk. rewrite H2, Hout by (unfold elf_addr; lia). by apply Hpage.
    - intros j Hj k Hk. destruct (decide (j = i)) as [->|Hne].
      + case_decide; [rewrite H1, Hin by lia; f_equal; lia | apply H3; unfold size in Hk; lia].
      + pose proof (bt_order Hb j i ltac:(lia) ltac:(lia)) as Hord. unfold first, SECTSIZE in Hord. rewrite H2, Hout by lia. apply Hdone; lia. }
  case_bool_decide; cbn [when].
  - apply runs_modify, HQ'; cbn [bmem]; intros x Hx; rewrite stosb_ok, u32_small by lia; case_decide; lia || done.
  - apply runs_ret, HQ'; [done | done | lia].
Qed.

Lemma segments_runs (Hb : bootable) n : forall i s (Q : unit -> boot -> Prop), 0 <= i -> i + Z.of_nat n = Exec.phnum header ->
  page (bmem s) -> (forall j, 0 <= j < i -> loaded (bmem s) j) ->
  (forall s', page (bmem s') -> (forall j, 0 <= j < Exec.phnum header -> loaded (bmem s') j) -> Q tt s') ->
  runs (load_segments disk status fuel n (elf_addr + (Exec.phoff header + Exec.sizeof_proghdr * i))) Q s.
Proof.
  induction n as [|n IH]; intros i s Q Hi Hn Hpage Hdone HQ; cbn [load_segments].
  - apply runs_ret, HQ; [done|]. intros j Hj. apply Hdone. lia.
  - destruct (bt_page Hb) as (Hp1 & Hp2 & Hp3). unfold Exec.sizeof_proghdr in *. rstep.
    rewrite page_bytes by (done || lia). change (img_bytes (Exec.phoff header + 32 * i) (Z.to_nat 32)) with (ph_bytes i).
    pose proof (segment_runs Hb i s (fun _ => runs (load_segments disk status fuel n (u32 (elf_addr + (Exec.phoff header + 32 * i) + 32))) Q)) as H.
    destruct H as ([] & s1 & E1 & H); [lia | done | done | |].
    + intros s' Hpage' Hdone'. rewrite u32_small by (unfold elf_addr; lia).
      replace (elf_addr + (Exec.phoff header + 32 * i) + 32) with (elf_addr + (Exec.phoff header + 32 * (i + 1))) by lia.
      apply IH; [lia | lia | done | done | done].
    + destruct H as ([] & s2 & E2 & H). exists tt, s2. split; [|done]. revert E1. unfold bind. destruct (readseg _ _ _ _ _ _ s) as [[] s0|]; [|done].
      intros ->. exact E2.
Qed.

(** C30: the boot loader.  It ends, for any memory and however long the disk takes, and calls the
    image's entry point, with every segment of the image at the address its header gives: the bytes of the
    file and then zeros up to its size in memory, though the loader reads whole sectors and so writes
    before and after a segment. *)
Theorem bootmain_loads s : bootable ->
  runs (bootmain disk status fuel) (fun r s' => r = Some (Exec.entry header) /\ forall i, 0 <= i < Exec.phnum header -> loaded (bmem s') i) s.
Proof.
  intros Hb. unfold bootmain. apply runs_bind, readseg_runs; try done. intros s1 Hin _.
  assert (page (bmem s1)) as Hpage.
  { intros k Hk. rewrite Hin by lia. f_equal. lia. }
  rstep. rewrite <- (Z.add_0_r elf_addr), page_bytes by (done || unfold Exec.sizeof_elfhdr; lia). fold header.
  rewrite decide_False by (rewrite (bt_magic Hb); naive_solver). destruct (bt_page Hb) as (Hp1 & Hp2 & Hp3). unfold Exec.sizeof_proghdr in Hp3.
  rewrite u32_small by (unfold elf_addr; lia). apply runs_bind.
  replace (elf_addr + 0 + Exec.phoff header) with (elf_addr + (Exec.phoff header + Exec.sizeof_proghdr * 0)) by lia.
  apply (segments_runs Hb); [lia | lia | done | lia|]. intros s2 Hpage2 Hdone. rstep.
  rewrite page_bytes by (done || unfold Exec.sizeof_elfhdr; lia). apply runs_ret. done.
Qed.
End load.

(** An image of one segment of four bytes, with four zeros after it. *)
Definition example_header : list Z :=
  [0x7F; 69; 76; 70] ++ replicate 20 0 ++ [0x0c; 0; 0x10; 0] ++ [52; 0; 0; 0] ++ replicate 12 0 ++ [1; 0] ++ replicate 6 0 ++
  [1; 0; 0; 0] ++ [0; 0x10; 0; 0] ++ [0; 0; 0x10; 0x80] ++ [0; 0; 0x10; 0] ++ [4; 0; 0; 0] ++ [8; 0; 0; 0] ++ replicate 8 0.
Definition example_disk (n : Z) : list Z :=
  if decide (n = 1) then example_header ++ replicate 428 0 else if decide (n = 9) then [11; 22; 33; 44] ++ replicate 508 9 else replicate 512 0.

Lemma bootmain_loads_witness : runs (bootmain example_disk (fun _ => 0x50) 1)
  (fun r s => r = Some 0x10000c /\ bmem s 0x100000 = 11 /\ bmem s 0x100003 = 44 /\ bmem s 0x100004 = 0) (MkBoot (fun _ => 5) (fun _ => 0) [] 0).
Proof.
  assert (0 <= 0 < Exec.phnum (header example_disk)) as H0 by (vm_compute; done).
  assert (Exec.phnum (header example_disk) = 1) as H1 by (vm_compute; reflexivity).
  eapply runs_mono; [apply (bootmain_loads example_disk (fun _ => 0x50) 1); [intros t; exists 0%nat; split; [lia | reflexivity]|]|].
  - split; [vm_compute; reflexivity | vm_compute; split_and!; discriminate | | | |].
    + intros i Hi. assert (i = 0) as -> by lia. vm_compute. split_and!; done.
    + intros i Hi. assert (i = 0) as -> by lia. vm_compute. done.
    + intros i Hi. assert (i = 0) as -> by lia. vm_compute. done.
    + intros i j Hi Hj. lia.
  - intros r s' [-> Hl]. specialize (Hl 0 H0). split_and!; [vm_compute; reflexivity|..].
    + refine (eq_trans (Hl 0 _) _); [vm_compute; split; done | vm_compute; reflexivity].
    + refine (eq_trans (Hl 3 _) _); [vm_compute; split; done | vm_compute; reflexivity].
    + refine (eq_trans (Hl 4 _) _); [vm_compute; split; done | vm_compute; reflexivity].
Defined.
End Boot.
