(* ===== verification/Main.v ===== *)
(** Starting the other processors: src/xv6-public/main.c, with the code they start with,
    src/xv6-public/entryother.S.

    [startothers] tells one processor after the other which page directory and stack to use and where to go,
    through three words in memory that all of them read, one after the other.  The processors and the boot
    processor take steps in any order; the theorem: every processor that runs has a stack of its own,
    although the words are overwritten for the next one, and is on the kernel's page table when
    it tells that it has started.  What [seginit], [lapicinit] and [idtinit] do to a processor is in Protect.v and Apic.v. *)

From S2P Require Import Prelude Kalloc Vm Proc.

Module Main.

(** A processor: not started; at the start of entryother.S; with %cr3 loaded; with %esp loaded; at the address it has called; in [mpmain];
    in the scheduler. *)
Inductive cpu_state :=
| Halted
| Start
| Paging (cr3 : Z)
| Stacked (cr3 esp : Z)
| Called (cr3 esp eip : Z)
| Mpmain (cr3 esp : Z)
| Scheduler (cr3 esp : Z).

(** The boot processor: before the round for processor [c], or waiting for it. *)
Inductive boot_pc := Round (c : nat) | Waiting (c : nat).

Record state := MkMain {
  pc : boot_pc;
  word4 : Z;     (* the words at code-4, code-8 and code-12 *)
  word8 : Z;
  word12 : Z;
  started : nat -> bool;
  cpus : nat -> cpu_state;
  given : nat -> option Z; (* the pages [kalloc] returned, by processor *)
}.

Section smp.
(** The number of processors, the boot processor among them, the addresses of [mpenter] and [entrypgdir], and [kpgdir]. *)
Context (ncpu self : nat) (mpenter entrypgdir kpgdir : Z).

Definition set_cpu (c : nat) (x : cpu_state) (s : state) : state :=
  MkMain (pc s) (word4 s) (word8 s) (word12 s) (started s) (fun d => if decide (d = c) then x else cpus s d) (given s).
Definition set_pc (p : boot_pc) (s : state) : state := MkMain p (word4 s) (word8 s) (word12 s) (started s) (cpus s) (given s).
Definition set_started (c : nat) (s : state) : state :=
  MkMain (pc s) (word4 s) (word8 s) (word12 s) (fun d => if decide (d = c) then true else started s d) (cpus s) (given s).

(** A round of [startothers] up to [lapicstartap]; [stack] is what [kalloc] returns, 0 or a page not in use; the code
    does not look at it. *)
Definition prepare (c : nat) (stack : Z) (s : state) : state :=
  MkMain (Waiting c) (stack + Proc.KSTACKSIZE) mpenter (V2P entrypgdir) (started s)
    (fun d => if decide (d = c) then Start else cpus s d) (fun d => if decide (d = c) then Some stack else given s d).

Inductive startothers (s : state) : state -> Prop :=
| so_self : pc s = Round self -> (self < ncpu)%nat -> startothers s (set_pc (Round (S self)) s)
| so_start c stack : pc s = Round c -> (c < ncpu)%nat -> c <> self -> (stack <> 0 -> forall d, given s d <> Some stack) -> startothers s (prepare c stack s)
| so_wait c : pc s = Waiting c -> started s c = true -> startothers s (set_pc (Round (S c)) s).

(** The other processors: entryother.S loads %cr3 and %esp from the words and calls the address in the third one; [mpenter] switches to
    the kernel's page table with [switchkvm] and goes on to [mpmain], which sets [started] and enters the scheduler. *)
Inductive other (c : nat) (s : state) : state -> Prop :=
| ap_cr3 : cpus s c = Start -> other c s (set_cpu c (Paging (word12 s)) s)
| ap_esp cr3 : cpus s c = Paging cr3 -> other c s (set_cpu c (Stacked cr3 (word4 s)) s)
| ap_call cr3 esp : cpus s c = Stacked cr3 esp -> other c s (set_cpu c (Called cr3 esp (word8 s)) s)
| ap_mpenter cr3 esp : cpus s c = Called cr3 esp mpenter -> other c s (set_cpu c (Mpmain (V2P kpgdir) esp) s)
| ap_mpmain cr3 esp : cpus s c = Mpmain cr3 esp -> other c s (set_started c (set_cpu c (Scheduler cr3 esp) s)).

Definition boot : state := MkMain (Round 0) 0 0 0 (fun _ => false) (fun _ => Halted) (fun _ => None).

Inductive reachable : state -> Prop :=
| reach_boot : reachable boot
| reach_so s s' : reachable s -> startothers s s' -> reachable s'
| reach_ap c s s' : reachable s -> other c s s' -> reachable s'.

(** ** Every processor has its stack *)

(** The stack a processor uses. *)
Definition stack_of (x : cpu_state) : option Z :=
  match x with Stacked _ esp | Called _ esp _ | Mpmain _ esp | Scheduler _ esp => Some esp | _ => None end.

(** What a processor has loaded is right for where it is; [mine] is the top of its stack. *)
Definition cpu_ok (mine : Z) (x : cpu_state) : Prop :=
  match x with
  | Halted | Start => True
  | Paging cr3 => cr3 = V2P entrypgdir
  | Stacked cr3 esp => cr3 = V2P entrypgdir /\ esp = mine
  | Called cr3 esp eip => cr3 = V2P entrypgdir /\ esp = mine /\ eip = mpenter
  | Mpmain cr3 esp | Scheduler cr3 esp => cr3 = V2P kpgdir /\ esp = mine
  end.

(** Still reading the words. *)
Definition reading (x : cpu_state) : Prop := match x with Start | Paging _ | Stacked _ _ => True | _ => False end.

Record inv (s : state) : Prop := {
  i_words c : reading (cpus s c) -> pc s = Waiting c /\ given s c = Some (word4 s - Proc.KSTACKSIZE) /\ word8 s = mpenter /\ word12 s = V2P entrypgdir;
  i_runs c : cpus s c <> Halted -> exists stack, given s c = Some stack /\ cpu_ok (stack + Proc.KSTACKSIZE) (cpus s c);
  i_started c : started s c = true -> exists cr3 esp, cpus s c = Scheduler cr3 esp;
  i_waiting c : pc s = Waiting c -> cpus s c <> Halted;
  i_order c : cpus s c <> Halted -> match pc s with Round d => (c < d)%nat | Waiting d => (c <= d)%nat end;
  i_done c : (match pc s with Round d | Waiting d => c < d end)%nat -> c <> self -> exists cr3 esp, cpus s c = Scheduler cr3 esp;
  i_given c d x : x <> 0 -> given s c = Some x -> given s d = Some x -> c = d;
}.

Lemma inv_boot : inv boot.
Proof. split; try done; simpl; intros; lia. Qed.

Lemma inv_startothers s s' : inv s -> startothers s s' -> inv s'.
Proof.
  intros [I1 I2 I3 I4 I5 I6 I7] [E Hn | c stack E Hn Hne Hfresh | c E Hst]; rewrite E in *.
  - split; simpl; try done.
    + intros c Hc. by destruct (I1 c Hc).
    + intros c Hc. specialize (I5 c Hc). lia.
    + intros c Hc Hs. apply I6; [lia | done].
  - assert (cpus s c = Halted) as Hh.
    { destruct (cpus s c) eqn:Ec; [done|..]; exfalso; assert (c < c)%nat by (apply I5; by rewrite Ec); lia. }
    split; simpl.
    + intros d Hd. case_decide as Hdc; [|by destruct (I1 d Hd)]. subst d. split_and!; try done. f_equal. lia.
    + intros d. case_decide; [by exists stack | by apply I2].
    + intros d Hd. destruct (I3 d Hd) as (cr3 & esp & Ed). rewrite decide_False by (intros ->; congruence). eauto.
    + intros d [= <-]. by rewrite decide_True.
    + intros d. case_decide as Hdc; [intros _; lia|]. intros Hd. specialize (I5 d Hd). lia.
    + intros d Hd Hs. rewrite decide_False by lia. by apply I6.
    + intros d d' x Hx. repeat case_decide; naive_solver.
  - split; simpl; try done.
    + intros d Hd. destruct (I1 d Hd) as ([= ->] & _). destruct (I3 d Hst) as (? & ? & Ed). by rewrite Ed in Hd.
    + intros d Hd. specialize (I5 d Hd). lia.
    + intros d Hd Hs. destruct (decide (d = c)) as [->|]; [by apply I3 | apply I6; [lia | done]].
Qed.

(** A processor that has not started moves on to [x], where it has loaded the right things. *)
Lemma inv_move c s x : inv s -> cpus s c <> Halted -> x <> Halted -> (forall cr3 esp, cpus s c <> Scheduler cr3 esp) ->
  (reading x -> reading (cpus s c)) -> (forall stack, given s c = Some stack -> cpu_ok (stack + Proc.KSTACKSIZE) x) ->
  inv (set_cpu c x s).
Proof.
  intros [I1 I2 I3 I4 I5 I6 I7] Hc Hx Hs Hrd Hok. destruct (I2 c Hc) as (stack & Hg & _). split; simpl; try done.
  - intros d. case_decide as Hd; [subst d|]; auto.
  - intros d. case_decide as Hd; [|apply I2]. subst d. intros _. exists stack. split; [done | by apply Hok].
  - intros d Hd. destruct (I3 d Hd) as (? & ? & Ed). rewrite decide_False by (intros ->; by eapply Hs). eauto.
  - intros d Hd. case_decide; [done | by apply I4].
  - intros d. case_decide as Hd; [subst d; intros _; by apply I5 | apply I5].
  - intros d Hd Hne. destruct (I6 d Hd Hne) as (? & ? & Ed). rewrite decide_False by (intros ->; by eapply Hs). eauto.
Qed.

Lemma inv_other c s s' : inv s -> other c s s' -> inv s'.
Proof.
  intros Hinv [E | cr3 E | cr3 esp E | cr3 esp E | cr3 esp E].
  1-4: apply inv_move; rewrite ?E; try done; intros stack Hg;
    destruct (i_runs s Hinv c) as (stack' & Hg' & Hok); [by rewrite E|]; rewrite E in Hok; simpl in Hok;
    rewrite Hg in Hg'; injection Hg' as <-.
  1-3: destruct (i_words s Hinv c) as (_ & Hw & H8 & H12); [by rewrite E|]; rewrite Hg in Hw; injection Hw as ->.
  - done.
  - split; [done | lia].
  - by destruct Hok.
  - by destruct Hok as (_ & -> & _).
  - destruct (i_runs s Hinv c) as (stack & Hg & Hok); [by rewrite E|]. rewrite E in Hok.
    destruct Hinv as [I1 I2 I3 I4 I5 I6 I7]. split; simpl; try done.
    + intros d. case_decide; [done | apply I1].
    + intros d. case_decide as Hd; [subst d; intros _; by exists stack | apply I2].
    + intros d. repeat case_decide; try done; [eauto | apply I3].
    + intros d Hd. case_decide; [done | by apply I4].
    + intros d. case_decide as Hd; [subst d; intros _; apply I5; by rewrite E | apply I5].
    + intros d Hd Hne. case_decide; [eauto | by apply I6].
Qed.

(** C38: starting the processors.  Whatever the order of the processors' steps: a processor that enters a function from entryother.S enters
    [mpenter], with the boot page table; from [mpmain] on it has the kernel's page table; its stack is the page that [kalloc] returned for it,
    and no two processors have the same stack unless [kalloc] had failed for both; when [startothers] returns,
    every other processor is in the scheduler, with the kernel's page table. *)
Theorem startothers_stacks s : reachable s ->
  (forall c cr3 esp eip, cpus s c = Called cr3 esp eip -> eip = mpenter /\ cr3 = V2P entrypgdir) /\
  (forall c cr3 esp, cpus s c = Mpmain cr3 esp \/ cpus s c = Scheduler cr3 esp -> cr3 = V2P kpgdir) /\
  (forall c esp, stack_of (cpus s c) = Some esp -> given s c = Some (esp - Proc.KSTACKSIZE)) /\
  (forall c d esp, esp <> Proc.KSTACKSIZE -> stack_of (cpus s c) = Some esp -> stack_of (cpus s d) = Some esp -> c = d) /\
  (pc s = Round ncpu -> forall c, (c < ncpu)%nat -> c <> self -> exists esp, cpus s c = Scheduler (V2P kpgdir) esp).
Proof.
  intros Hr. assert (inv s) as Hinv.
  { induction Hr as [|s s' _ IH Hs | c s s' _ IH Hs]; [apply inv_boot | by apply (inv_startothers s) | by apply (inv_other c s)]. }
  assert (Hok : forall c x, cpus s c = x -> x <> Halted -> exists stack, given s c = Some stack /\ cpu_ok (stack + Proc.KSTACKSIZE) x).
  { intros c x <-. apply (i_runs s Hinv). }
  assert (Hst : forall c esp, stack_of (cpus s c) = Some esp -> given s c = Some (esp - Proc.KSTACKSIZE)).
  { intros c esp E. destruct (Hok c _ eq_refl) as (stack & Hg & Hx); [by destruct (cpus s c)|]. rewrite Hg. f_equal.
    destruct (cpus s c); simpl in *; simplify_eq; naive_solver lia. }
  split_and!.
  - intros c cr3 esp eip E. by destruct (Hok c _ E) as (? & _ & ? & _ & ?).
  - intros c cr3 esp [E|E]; by destruct (Hok c _ E) as (? & _ & ? & _).
  - done.
  - intros c d esp Hne Hc%Hst Hd%Hst. apply (i_given s Hinv c d (esp - Proc.KSTACKSIZE)); [lia | done | done].
  - intros Hpc c Hc Hne. destruct (i_done s Hinv c) as (cr3 & esp & E); [by rewrite Hpc | done|].
    destruct (Hok c _ E) as (? & _ & -> & _); [done|]. by exists esp.
Qed.
End smp.

(** Two processors; the second one is the boot processor. *)
Lemma startothers_stacks_witness : exists s, reachable 2 1 0x80103000 0x80109000 0x803fe000 s /\ pc s = Round 2 /\
  exists esp, cpus s 0%nat = Scheduler 0x3fe000 esp.
Proof.
  set (so := startothers 2 1 0x80103000 0x80109000). set (ap := other 0x80103000 0x803fe000 0).
  set (s1 := prepare 0x80103000 0x80109000 0 0x803ff000 boot). set (s2 := set_cpu 0 (Paging (word12 s1)) s1).
  set (s3 := set_cpu 0 (Stacked (word12 s1) (word4 s2)) s2). set (s4 := set_cpu 0 (Called (word12 s1) (word4 s2) (word8 s3)) s3).
  set (s5 := set_cpu 0 (Mpmain (V2P 0x803fe000) (word4 s2)) s4). set (s6 := set_started 0 (set_cpu 0 (Scheduler (V2P 0x803fe000) (word4 s2)) s5)).
  set (s7 := set_pc (Round 1) s6). set (s8 := set_pc (Round 2) s7).
  assert (so boot s1) as E1 by (apply so_start; [reflexivity | lia | lia | done]).
  assert (ap s1 s2) as E2 by (by apply ap_cr3).
  assert (ap s2 s3) as E3 by (by apply ap_esp).
  assert (ap s3 s4) as E4 by (by apply ap_call).
  assert (ap s4 s5) as E5 by (eapply ap_mpenter; reflexivity).
  assert (ap s5 s6) as E6 by (by apply ap_mpmain).
  assert (so s6 s7) as E7 by (exact (so_wait 2 1 0x80103000 0x80109000 s6 0 eq_refl eq_refl)).
  assert (so s7 s8) as E8 by (apply so_self; [reflexivity | lia]).
  assert (reachable 2 1 0x80103000 0x80109000 0x803fe000 s8) as Hr.
  { eapply reach_so; [|exact E8]. eapply reach_so; [|exact E7]. do 5 (eapply reach_ap; [|eassumption]). eapply reach_so; [apply reach_boot | exact E1]. }
  exists s8. split; [exact Hr|]. split; [reflexivity|].
  destruct (startothers_stacks 2 1 0x80103000 0x80109000 0x803fe000 s8 Hr) as (_ & _ & _ & _ & H). exact (H eq_refl 0%nat ltac:(lia) ltac:(lia)).
Defined.
End Main.
