(* ===== verification/ProjShell.v ===== *)
(** The command line interpreter for Linux: src/proj_shell/src/shell.c.

    The program cuts a line into commands at semicolons and each command into words,
    in place: the words are positions in the buffer that holds the line, with their
    terminators written into it, and the arrays of pointers have a fixed capacity.
    The theorems show that on lines of fewer than 100 bytes every
    access stays inside these arrays and that the
    session is the one a definition over the text of the lines prescribes, forked
    children, failed commands and the undefined behaviour of a blank command included.
    Longer lines, and batch files with 50 words or commands in a line, leave the arrays. *)

From S2P Require Import Prelude User.

Module ProjShell.

(** What the program does to its environment. *)
Inductive event :=
| Prompt
| Separator
| Chdir (path : list Z)
| Exec (argv : list (list Z))
| Wait
| Message (text : string).

(** The process: the bytes of the line whose values are known, the position kept by
    [strtok], the unread input, the number of forks, the effects so far. *)
Record shell := MkS {
  buf : list Z;
  save : nat;
  input : list Z;
  forks : nat;
  trace : list event;
}.

Definition set_buf (b : list Z) (s : shell) : shell := MkS b (save s) (input s) (forks s) (trace s).
Definition set_save (p : nat) (s : shell) : shell := MkS (buf s) p (input s) (forks s) (trace s).
Definition set_input (l : list Z) (s : shell) : shell := MkS (buf s) (save s) l (forks s) (trace s).
Definition emit (e : event) : M shell unit :=
  modify (fun s => MkS (buf s) (save s) (input s) (forks s) (trace s ++ [e])).

(** Reading and writing a byte of the buffer; elsewhere the behaviour is undefined. *)
Definition rd (i : nat) : M shell Z := fun s =>
  match buf s !! i with Some c => Ret c s | None => Stop Undefined s end.
Definition wr (i : nat) (c : Z) : M shell unit := fun s =>
  match buf s !! i with Some _ => Ret tt (set_buf (<[i := c]> (buf s)) s) | None => Stop Undefined s end.

(** The first position from [i] on whose byte is not in [p]. *)
Fixpoint skip (fuel : nat) (p : Z -> bool) (i : nat) : M shell nat :=
  match fuel with
  | O => stop_with Spins
  | S f => let! c := rd i in if p c then skip f p (S i) else ret i
  end.
(** A loop over the buffer takes no more rounds than it has bytes. *)
Definition rounds : M shell nat := gets (fun s => S (length (buf s))).

(** The string at a position. *)
Fixpoint read_string (fuel : nat) (i : nat) : M shell (list Z) :=
  match fuel with
  | O => stop_with Spins
  | S f => let! c := rd i in
           if decide (c = 0) then ret [] else let! l := read_string f (S i) in ret (c :: l)
  end.
Definition str_at (i : nat) : M shell (list Z) := let! n := rounds in read_string n i.

Definition BUFFER_SIZE : Z := 50.

(** ** The C library *)

(** [getline]: the bytes up to and including the next newline. *)
Fixpoint next_line (l : list Z) : list Z * list Z :=
  match l with
  | [] => ([], [])
  | c :: r => if decide (c = 10) then ([c], r) else let '(a, b) := next_line r in (c :: a, b)
  end.
Definition getline : M shell Z := fun s =>
  match input s with
  | [] => Ret (-1) (set_buf [] s)
  | _ => let '(l, r) := next_line (input s) in Ret (Z.of_nat (length l)) (set_buf (l ++ [0]) (set_input r s))
  end.

(** [realloc]: bytes beyond the smaller of the two sizes have no known value. *)
Definition realloc (size : Z) : M shell unit := modify (fun s => set_buf (take (Z.to_nat size) (buf s)) s).

Definition strtok (str : option nat) (sep : list Z) : M shell (option nat) :=
  let! p := match str with Some p => ret p | None => gets save end in
  let! n := rounds in
  let! t := skip n (fun c => bool_decide (c ∈ sep)) p in
  let! c := rd t in
  if decide (c = 0) then modify (set_save t) ;;; ret None else
  let! e := skip n (fun c => bool_decide (c ∉ sep /\ c <> 0)) t in
  let! c := rd e in
  if decide (c = 0) then modify (set_save e) ;;; ret (Some t)
  else wr e 0 ;;; modify (set_save (S e)) ;;; ret (Some t).

(** ** Lines *)

(** [while(r > *bsize)]: the comparison is unsigned; doubling an [int] may overflow. *)
Fixpoint grow (fuel : nat) (r bsize : Z) : M shell Z :=
  match fuel with
  | O => stop_with Spins
  | S f => if decide (r <= bsize) then ret bsize else
           if decide (2 ^ 31 <= bsize * 2) then stop_with Undefined else
           realloc (bsize * 2) ;;; grow f r (bsize * 2)
  end.

(** [input[strlen(input) - 1] = 0] *)
Definition chop : M shell unit :=
  let! n := rounds in
  let! k := skip n (fun c => bool_decide (c <> 0)) 0 in
  match k with O => stop_with Undefined | S k' => wr k' 0 end.

(** [get_line]: the line starts at position 0 of the buffer; the result is the new value
    of [bsize], or nothing where the code returns a null pointer. *)
Definition get_line (bsize : Z) : M shell (option Z) :=
  let! n := getline in
  let r := n mod 2 ^ 64 in
  if decide (r <= 1) then ret None else
  let! b := grow 32 r bsize in
  chop ;;; ret (Some b).

Definition blank (c : Z) : bool := bool_decide (c = 32) || bool_decide (c = 9) || bool_decide (c = 10).

(** The second loop of [trim]: [str[i] = str[i + ix]]. *)
Fixpoint shift (fuel : nat) (str ix i : nat) : M shell nat :=
  match fuel with
  | O => stop_with Spins
  | S f => let! c := rd (str + (i + ix)) in
           if decide (c = 0) then ret i else wr (str + i) c ;;; shift f str ix (S i)
  end.
(** The third loop: the last position that is not blank, or -1. *)
Fixpoint last_black (fuel : nat) (str i : nat) (ix : Z) : M shell Z :=
  match fuel with
  | O => stop_with Spins
  | S f => let! c := rd (str + i) in
           if decide (c = 0) then ret ix else last_black f str (S i) (if blank c then ix else Z.of_nat i)
  end.
Definition trim (str : nat) : M shell unit :=
  let! n := rounds in
  let! q := skip n blank str in
  let! i := shift n str (q - str) 0 in
  wr (str + i) 0 ;;;
  let! ix := last_black n str 0 (-1) in
  wr (str + Z.to_nat (ix + 1)) 0.

(** The loops of [get_parsed] and [get_parsed2]: pointers are stored in an array of [cap]
    slots, and a null pointer after them. *)
Fixpoint collect (fuel : nat) (sep : list Z) (cap : Z) (command : list nat) (parsed : option nat) : M shell (list nat) :=
  match fuel with
  | O => stop_with Spins
  | S f =>
      if decide (cap <= Z.of_nat (length command)) then stop_with Undefined else
      match parsed with
      | None => ret command
      | Some p => let! q := strtok None sep in collect f sep cap (command ++ [p]) q
      end
  end.
Definition cut (str : nat) (sep : list Z) (bsize : Z) : M shell (list nat) :=
  let! n := rounds in
  let! parsed := strtok (Some str) sep in
  collect n sep bsize [] parsed.
Definition get_parsed (str : nat) (bsize : Z) : M shell (list nat) := cut str [32; 9; 10] bsize.
Definition get_parsed2 (str : nat) (bsize : Z) : M shell (list nat) :=
  let! command := cut str [59] bsize in
  forM command trim ;;; ret command.

(** ** Commands *)

Section system.
(** The kernel: what the n-th [fork] returns, whether [chdir] and [execvp] succeed. *)
Context (fork_result : nat -> Z) (chdir_ok : list Z -> bool) (execvp_ok : list (list Z) -> bool).

Definition fork : M shell Z := fun s =>
  Ret (fork_result (forks s)) (MkS (buf s) (save s) (input s) (S (forks s)) (trace s)).

Fixpoint strings (l : list nat) : M shell (list (list Z)) :=
  match l with
  | [] => ret []
  | p :: l' => let! w := str_at p in let! ws := strings l' in ret (w :: ws)
  end.

(** [execvp(cmd0, cmd)]: on success the process is another program. *)
Definition execvp (cmd : list nat) : M shell unit :=
  match cmd with
  | [] => stop_with Undefined
  | _ => let! argv := strings cmd in
         if execvp_ok argv then emit (Exec argv) ;;; stop_with Exits else ret tt
  end.

Definition myfork (cmd : list nat) : M shell unit :=
  let! pid := fork in
  if decide (pid < 0) then emit (Message "fork failed") ;;; stop_with Exits else
  if decide (pid = 0) then
    execvp cmd ;;; emit (Message "execution failed") ;;; stop_with Exits
  else emit Wait.

(** The body of the loop over the commands of a line. *)
Definition command1 (command : list nat) : M shell unit :=
  match command with
  | [] => stop_with Undefined
  | c :: args =>
      let! w := str_at c in
      if decide (w = cs "quit") then stop_with Exits else
      if decide (w = cs "cd") then
        match args with
        | [] => emit (Chdir (cs "/"))
        | a :: _ => let! d := str_at a in
                    emit (Chdir d) ;;;
                    when (negb (chdir_ok d)) (emit (Message "check the cd param"))
        end
      else myfork command
  end.

(** [for(i=0; i < ix; i++)]: the first command is parsed with the size that [get_line] left. *)
Fixpoint commands (l : list nat) (bsize : Z) : M shell unit :=
  match l with
  | [] => ret tt
  | p :: l' =>
      let! command := get_parsed p bsize in
      command1 command ;;; commands l' BUFFER_SIZE
  end.

(** One round of the interactive loop, and [n] of them. *)
Definition prompt : M shell unit :=
  emit Prompt ;;;
  let! r := get_line 50 in
  match r with
  | None => ret tt
  | Some bsize => let! command2 := get_parsed2 0 bsize in commands command2 bsize
  end.
Fixpoint interactive (n : nat) : M shell unit :=
  match n with
  | O => stop_with Spins
  | S n' => prompt ;;; interactive n'
  end.

(** ** Batch mode *)

Fixpoint batch_commands (l : list nat) (bsize : Z) : M shell unit :=
  match l with
  | [] => ret tt
  | p :: l' =>
      emit Separator ;;;
      let! command := get_parsed p bsize in
      myfork command ;;; batch_commands l' bsize
  end.
Fixpoint batch (n : nat) : M shell unit :=
  match n with
  | O => stop_with Spins
  | S n' =>
      let! read := getline in
      if decide (read = -1) then stop_with Exits else
      chop ;;;
      let! command2 := get_parsed2 0 50 in
      batch_commands command2 50 ;;; batch n'
  end.

(** [main]: [files] are the files [fopen] can open; the name is built in an array of 20. *)
Definition main (files : list Z -> option (list Z)) (n : nat) (argv : list (list Z)) : M shell unit :=
  match argv with
  | _ :: a :: _ =>
      if decide (20 < 2 + length a + 1)%nat then stop_with Undefined else
      match files (cs "./" ++ a) with
      | None => stop_with Exits
      | Some text => modify (set_input text) ;;; batch n
      end
  | _ => interactive n
  end.
End system.

(** ** What the words of a text are *)

Fixpoint tokens_of (sep : Z -> bool) (l : list Z) : list (list Z) :=
  match l with
  | [] => []
  | c :: r =>
      if sep c then tokens_of sep r else
      match r with
      | [] => [[c]]
      | d :: _ => if sep d then [c] :: tokens_of sep r
                  else match tokens_of sep r with w :: ws => (c :: w) :: ws | [] => [[c]] end
      end
  end.

Definition semi (c : Z) : bool := bool_decide (c ∈ [59]).
Definition white (c : Z) : bool := bool_decide (c ∈ [32; 9; 10]).
Definition pieces : list Z -> list (list Z) := tokens_of semi.
Definition words : list Z -> list (list Z) := tokens_of white.

Lemma blank_white c : blank c = white c.
Proof. unfold blank, white. do 3 case_bool_decide; case_bool_decide; set_solver. Qed.

Section tokens.
Context (sep : Z -> bool).

Lemma tokens_skip u l : Forall (fun c => sep c = true) u -> tokens_of sep (u ++ l) = tokens_of sep l.
Proof. induction 1 as [|c u Hc _ IH]; [done|]. simpl. by rewrite Hc. Qed.

Lemma tokens_last t : t <> [] -> Forall (fun c => sep c = false) t -> tokens_of sep t = [t].
Proof.
  intros Hne Ht. induction Ht as [|c t Hc Ht IH]; [done|]. simpl. rewrite Hc. destruct t as [|d t]; [done|].
  inversion_clear Ht as [|?? Hd]. rewrite Hd, IH by done. done.
Qed.

Lemma tokens_cut t c r : t <> [] -> Forall (fun c => sep c = false) t -> sep c = true ->
  tokens_of sep (t ++ c :: r) = t :: tokens_of sep r.
Proof.
  intros Hne Ht Hsep. induction Ht as [|d t Hd Ht IH]; [done|]. simpl. rewrite Hd. destruct t as [|e t]; simpl; [by rewrite Hsep|].
  inversion_clear Ht as [|?? He]. rewrite He. simpl in IH. rewrite He in IH. by rewrite IH.
Qed.

(** Every text begins with separators, followed by nothing or by a token. *)
Lemma tokens_cases l : exists u m, l = u ++ m /\ Forall (fun c => sep c = true) u /\
  (m = [] \/ exists t r, m = t ++ r /\ t <> [] /\ Forall (fun c => sep c = false) t /\ (r = [] \/ exists c r', r = c :: r' /\ sep c = true)).
Proof.
  induction l as [|c l (u & m & -> & Hu & Hm)]; [exists [], []; auto|]. destruct (sep c) eqn:E.
  - exists (c :: u), m. auto.
  - exists [], (c :: u ++ m). split; [done|]. split; [done|]. right.
    destruct u as [|d u].
    + destruct Hm as [-> | (t & r & -> & Hne & Ht & Hr)]; [exists [c], []; auto|]. exists (c :: t), r. split_and!; auto.
    + exists [c], (d :: u ++ m). inversion_clear Hu. split_and!; try done; [by repeat constructor|]. right. eauto.
Qed.

Lemma tokens_ind (P : list Z -> list (list Z) -> Prop) :
  (forall u, Forall (fun c => sep c = true) u -> P u []) ->
  (forall u t, Forall (fun c => sep c = true) u -> t <> [] -> Forall (fun c => sep c = false) t -> P (u ++ t) [t]) ->
  (forall u t c r, Forall (fun c => sep c = true) u -> t <> [] -> Forall (fun c => sep c = false) t -> sep c = true ->
     P r (tokens_of sep r) -> P (u ++ t ++ c :: r) (t :: tokens_of sep r)) ->
  forall l, P l (tokens_of sep l).
Proof.
  intros H1 H2 H3 l. remember (length l) as n eqn:En. revert l En. induction (lt_wf n) as [n _ IH]. intros l ->.
  destruct (tokens_cases l) as (u & m & -> & Hu & Hm). rewrite tokens_skip by done.
  destruct Hm as [-> | (t & r & -> & Hne & Ht & Hr)]; [rewrite app_nil_r; by apply H1|].
  destruct Hr as [-> | (c & r' & -> & Hc)].
  - rewrite app_nil_r, tokens_last by done. by apply H2.
  - rewrite tokens_cut by done. apply H3; try done. eapply (IH (length r')); [|done]. rewrite !length_app. simpl. lia.
Qed.

Lemma tokens_none v : Forall (fun c => sep c = true) v -> tokens_of sep v = [].
Proof. intros Hv. rewrite <- (app_nil_r v). by rewrite tokens_skip. Qed.

Lemma tokens_after l v : Forall (fun c => sep c = true) v -> tokens_of sep (l ++ v) = tokens_of sep l.
Proof.
  intros Hv. apply (tokens_ind (fun l ts => tokens_of sep (l ++ v) = ts)).
  - intros u Hu. by apply tokens_none, Forall_app.
  - intros u t Hu Hne Ht. rewrite <- app_assoc, tokens_skip by done. destruct v as [|c v]; [rewrite app_nil_r; by apply tokens_last|].
    inversion_clear Hv. rewrite tokens_cut, tokens_none by done. done.
  - intros u t c r Hu Hne Ht Hc IH. rewrite <- app_assoc, tokens_skip, <- app_assoc by done. simpl. by rewrite tokens_cut, IH.
Qed.

Lemma tokens_trim u l v : Forall (fun c => sep c = true) u -> Forall (fun c => sep c = true) v -> tokens_of sep (u ++ l ++ v) = tokens_of sep l.
Proof. intros Hu Hv. by rewrite tokens_skip, tokens_after. Qed.

(** Two tokens are separated by a byte at least. *)
Lemma tokens_count l : (2 * length (tokens_of sep l) <= length l + 1)%nat.
Proof.
  apply (tokens_ind (fun l ts => 2 * length ts <= length l + 1)%nat).
  - intros u _. simpl. lia.
  - intros u [|c t] _ Hne _; [done|]. rewrite length_app. simpl. lia.
  - intros u [|d t] c r _ Hne _ _ IH; [done|]. rewrite !length_app. simpl. lia.
Qed.

Lemma tokens_inside (P : Z -> Prop) l : Forall P l -> Forall (fun t => Forall P t /\ (length t <= length l)%nat) (tokens_of sep l).
Proof.
  apply (tokens_ind (fun l ts => Forall P l -> Forall (fun t => Forall P t /\ (length t <= length l)%nat) ts)).
  - intros u _ _. constructor.
  - intros u t _ _ _ [_ HP]%Forall_app. rewrite length_app. repeat constructor; [done | lia].
  - intros u t c r _ _ _ _ IH [_ HP]%Forall_app. apply Forall_app in HP as [HP1 HP2]. inversion_clear HP2. rewrite !length_app.
    constructor; [split; [done | lia]|]. eapply Forall_impl; [by apply IH|]. simpl. intros w [H1 H2]. split; [done | lia].
Qed.
End tokens.

Lemma words_trim u l v : Forall (fun c => white c = true) u -> Forall (fun c => white c = true) v -> words (u ++ l ++ v) = words l.
Proof. apply tokens_trim. Qed.

(** ** Strings in the buffer *)

(** The string [w] is at position [p], with its terminator. *)
Definition holds (b : list Z) (p : nat) (w : list Z) : Prop := forall i, (i <= length w)%nat -> b !! (p + i)%nat = (w ++ [0]) !! i.
(** [b'] is [b] but for positions from [lo] to [hi]. *)
Definition apart (lo hi : nat) (b b' : list Z) : Prop := length b' = length b /\ forall i, (i < lo \/ hi <= i)%nat -> b' !! i = b !! i.
(** Nothing but the buffer and [strtok]'s position differs. *)
Definition quiet (s s' : shell) : Prop := input s' = input s /\ forks s' = forks s /\ trace s' = trace s.
Notation clean := (Forall (fun c : Z => c <> 0)).

Lemma apart_refl lo hi b : apart lo hi b b.
Proof. done. Qed.
Lemma apart_trans lo hi b1 b2 b3 : apart lo hi b1 b2 -> apart lo hi b2 b3 -> apart lo hi b1 b3.
Proof. intros [L1 H1] [L2 H2]. split; [congruence|]. intros i Hi. by rewrite H2, H1. Qed.
Lemma apart_wider lo hi lo' hi' b b' : apart lo hi b b' -> (lo' <= lo)%nat -> (hi <= hi')%nat -> apart lo' hi' b b'.
Proof. intros [L H] ??. split; [done|]. intros i Hi. apply H. lia. Qed.
Lemma apart_insert b i c : apart i (S i) b (<[i := c]> b).
Proof. split; [apply length_insert|]. intros j Hj. apply list_lookup_insert_ne. lia. Qed.
Lemma quiet_refl s : quiet s s.
Proof. done. Qed.
Lemma quiet_trans s1 s2 s3 : quiet s1 s2 -> quiet s2 s3 -> quiet s1 s3.
Proof. unfold quiet. intuition congruence. Qed.

Lemma holds_apart b b' p w lo hi : apart lo hi b b' -> (hi <= p \/ p + length w < lo)%nat -> holds b p w -> holds b' p w.
Proof. intros [_ H] Hp Hw i Hi. rewrite H by lia. by apply Hw. Qed.
Lemma holds_suffix b p u w : holds b p (u ++ w) -> holds b (p + length u) w.
Proof.
  intros H i Hi. rewrite <- Nat.add_assoc, H by (rewrite length_app; lia). rewrite <- app_assoc.
  rewrite lookup_app_r by lia. f_equal. lia.
Qed.
Lemma holds_in b p w i c : holds b p w -> w !! i = Some c -> b !! (p + i)%nat = Some c.
Proof. intros H Hi. pose proof (lookup_lt_Some _ _ _ Hi). rewrite H by lia. by apply lookup_app_l_Some. Qed.
Lemma holds_end b p w : holds b p w -> b !! (p + length w)%nat = Some 0.
Proof. intros H. rewrite H by lia. by rewrite lookup_app_r, Nat.sub_diag by lia. Qed.
Lemma holds_bound b p w : holds b p w -> (p + length w < length b)%nat.
Proof. intros H%holds_end. by apply lookup_lt_Some in H. Qed.
Lemma holds_intro b p w : (forall i c, w !! i = Some c -> b !! (p + i)%nat = Some c) -> b !! (p + length w)%nat = Some 0 -> holds b p w.
Proof.
  intros H1 H2 i Hi. destruct (decide (i = length w)) as [->|Hne].
  - rewrite H2, lookup_app_r, Nat.sub_diag by lia. done.
  - destruct (lookup_lt_is_Some_2 w i) as [c Hc]; [lia|]. by rewrite lookup_app_l, (H1 i c Hc), Hc by lia.
Qed.
(** Writing a terminator after the first part. *)
Lemma holds_cut b p u m : holds b p (u ++ m) -> holds (<[(p + length u)%nat := 0]> b) p u.
Proof.
  intros H. pose proof (holds_bound _ _ _ H) as Hb. rewrite length_app in Hb. apply holds_intro.
  - intros i c Hi. pose proof (lookup_lt_Some _ _ _ Hi). rewrite list_lookup_insert_ne by lia. apply (holds_in _ _ _ _ _ H). by apply lookup_app_l_Some.
  - apply list_lookup_insert_eq. lia.
Qed.

Lemma runs_rd i c s Q : buf s !! i = Some c -> Q c s -> runs (rd i) Q s.
Proof. unfold runs, rd. intros E HQ. rewrite E; eauto. Qed.
Lemma runs_wr i c s Q : (i < length (buf s))%nat -> Q tt (set_buf (<[i := c]> (buf s)) s) -> runs (wr i c) Q s.
Proof. unfold runs, wr. intros [x ->]%lookup_lt_is_Some_2. eauto. Qed.

Lemma runs_skip (p : Z -> bool) c m u : forall fuel i s Q, holds (buf s) i (u ++ m) -> (length u < fuel)%nat ->
  Forall (fun c => p c = true) u -> (m ++ [0]) !! 0%nat = Some c -> p c = false -> Q (i + length u)%nat s -> runs (skip fuel p i) Q s.
Proof.
  induction u as [|d u IH]; intros [|fuel] i s Q Hh Hf Hu Hm Hc HQ; simpl in Hf; try lia.
  - simpl. apply runs_bind. apply (runs_rd i c); [pose proof (Hh 0%nat) as E; rewrite Nat.add_0_r in E; rewrite E by lia; done|].
    rewrite Hc. apply runs_ret. by rewrite Nat.add_0_r in HQ.
  - inversion_clear Hu as [|?? Hd Hu']. simpl. apply runs_bind. apply (runs_rd i d); [rewrite <- (Nat.add_0_r i); by apply (holds_in _ _ _ _ _ Hh)|].
    rewrite Hd. apply IH; try done; [|lia | by rewrite Nat.add_succ_comm].
    pose proof (holds_suffix _ _ [d] _ Hh) as H. simpl in H. by rewrite Nat.add_1_r in H.
Qed.

Lemma runs_read_string w : forall fuel p s Q, holds (buf s) p w -> clean w -> (length w < fuel)%nat -> Q w s -> runs (read_string fuel p) Q s.
Proof.
  induction w as [|c w IH]; intros [|fuel] p s Q Hh Hw Hf HQ; simpl in Hf; try lia; simpl; apply runs_bind.
  - apply (runs_rd _ 0); [|by apply runs_ret]. pose proof (holds_end _ _ _ Hh) as E. by rewrite Nat.add_0_r in E.
  - inversion_clear Hw as [|?? Hc Hw']. apply (runs_rd _ c); [rewrite <- (Nat.add_0_r p); by apply (holds_in _ _ _ _ _ Hh)|].
    rewrite decide_False by done. apply runs_bind. apply IH; [|done | lia | by apply runs_ret].
    pose proof (holds_suffix _ _ [c] _ Hh) as H. simpl in H. by rewrite Nat.add_1_r in H.
Qed.
Lemma runs_str_at w p s Q : holds (buf s) p w -> clean w -> Q w s -> runs (str_at p) Q s.
Proof.
  intros Hh Hw HQ. unfold str_at, rounds. rstep. apply (runs_read_string w); try done. pose proof (holds_bound _ _ _ Hh). lia.
Qed.

(** ** Cutting a text into tokens *)

(** Strings one after the other, between [lo] and [hi]. *)
Inductive laid (b : list Z) : nat -> list nat -> list (list Z) -> nat -> Prop :=
| laid_nil lo hi : (lo <= hi)%nat -> laid b lo [] [] hi
| laid_cons lo p ps w ws hi : (lo <= p)%nat -> holds b p w -> clean w -> laid b (p + length w + 1) ps ws hi -> laid b lo (p :: ps) (w :: ws) hi.

Lemma laid_lower b lo lo' ps ws hi : laid b lo ps ws hi -> (lo' <= lo)%nat -> laid b lo' ps ws hi.
Proof. destruct 1; intros; constructor; try done; lia. Qed.
Lemma laid_bounds b lo ps ws hi : laid b lo ps ws hi -> (lo <= hi)%nat.
Proof. induction 1; lia. Qed.
Lemma laid_apart b b' lo ps ws hi lo' hi' : laid b lo ps ws hi -> apart lo' hi' b b' -> (hi' <= lo \/ hi <= lo')%nat -> laid b' lo ps ws hi.
Proof.
  induction 1 as [|lo p ps w ws hi Hp Hh Hc Hl IH]; intros Ha Ho; constructor; try done.
  - apply (holds_apart b b' p w lo' hi'); try done. apply laid_bounds in Hl. lia.
  - apply IH; [done | lia].
Qed.

Section cut.
Context (sep : list Z) (Hsep : 0 ∉ sep).
Notation is_sep := (fun c => bool_decide (c ∈ sep)).
Notation seps := (Forall (fun c => bool_decide (c ∈ sep) = true)).
Notation nonseps := (Forall (fun c => bool_decide (c ∈ sep) = false)).

Definition starts (str : option nat) (p : nat) (s : shell) : Prop := match str with Some q => q = p | None => save s = p end.

Lemma runs_start str p s Q : starts str p s -> Q p s -> runs (match str with Some p => ret p | None => gets save end) Q s.
Proof. destruct str; simpl; intros <- HQ; [by apply runs_ret | by apply runs_gets]. Qed.

Lemma head_sep m c : (m ++ [0]) !! 0%nat = Some c -> nonseps (take 1 m) -> bool_decide (c ∈ sep) = false.
Proof. destruct m as [|d m]; simpl; intros [= <-]; [intros _; by apply bool_decide_eq_false_2 | by inversion_clear 1]. Qed.

Lemma runs_token u t m c str p s Q : starts str p s -> holds (buf s) p (u ++ t ++ m) -> clean t -> seps u -> t <> [] -> nonseps t ->
  (m ++ [0]) !! 0%nat = Some c -> (c = 0 \/ bool_decide (c ∈ sep) = true) ->
  (if decide (c = 0) then Q (Some (p + length u)%nat) (set_save (p + length u + length t) s)
   else Q (Some (p + length u)%nat) (set_save (S (p + length u + length t)) (set_buf (<[(p + length u + length t)%nat := 0]> (buf s)) s))) ->
  runs (strtok str sep) Q s.
Proof.
  intros Hst Hh Ht Hu Hne Hns Hm Hc HQ. pose proof (holds_bound _ _ _ Hh) as Hb. rewrite !length_app in Hb.
  pose proof (holds_suffix _ _ _ _ Hh) as Hh1. pose proof (holds_suffix _ _ _ _ Hh1) as Hh2.
  destruct t as [|d t]; [done|]. inversion_clear Ht as [|?? Hd Ht']. inversion_clear Hns as [|?? Hns1 Hns'].
  unfold strtok, rounds. apply runs_bind, (runs_start _ p); [done|]. rstep.
  apply runs_bind, (runs_skip _ d ((d :: t) ++ m) u); try done; [lia|].
  apply runs_bind, (runs_rd _ d); [rewrite <- (Nat.add_0_r (p + length u)); by apply (holds_in _ _ _ _ _ Hh1)|].
  rewrite decide_False by done. apply runs_bind. apply (runs_skip _ c m (d :: t)); try done; [simpl in *; lia | | |].
  - apply Forall_cons; split.
    + apply bool_decide_eq_false in Hns1. by apply bool_decide_eq_true_2.
    + eapply Forall_impl; [apply Forall_and; exact (conj Ht' Hns')|]. intros e [He1 He2%bool_decide_eq_false]. by apply bool_decide_eq_true_2.
  - apply bool_decide_eq_false_2. intros [H1 H2]. destruct Hc as [Hc | Hc%bool_decide_eq_true]; done.
  - apply runs_bind, (runs_rd _ c); [rewrite <- (Nat.add_0_r (p + _ + _)); rewrite (Hh2 0%nat) by lia; done|].
    case_decide; [rstep; by apply runs_ret|]. apply runs_bind, runs_wr; [simpl in *; lia|]. rstep. by apply runs_ret.
Qed.

Lemma runs_no_token u str p s Q : starts str p s -> holds (buf s) p u -> seps u -> Q None (set_save (p + length u) s) -> runs (strtok str sep) Q s.
Proof.
  intros Hst Hh Hu HQ. pose proof (holds_bound _ _ _ Hh). unfold strtok, rounds. apply runs_bind, (runs_start _ p); [done|]. rstep.
  apply runs_bind, (runs_skip _ 0 [] u); try done; [by rewrite app_nil_r | lia | by apply bool_decide_eq_false_2|].
  apply runs_bind, (runs_rd _ 0); [by apply holds_end|]. rewrite decide_True by done. rstep. by apply runs_ret.
Qed.

Lemma runs_collect l : forall str p s f acc cap Q, starts str p s -> holds (buf s) p l -> clean l ->
  (length (tokens_of is_sep l) < f)%nat -> Z.of_nat (length acc) + Z.of_nat (length (tokens_of is_sep l)) < cap ->
  (forall ps s', laid (buf s') p ps (tokens_of is_sep l) (p + length l + 1) -> apart p (p + length l) (buf s) (buf s') -> quiet s s' -> Q (acc ++ ps) s') ->
  runs (strtok str sep) (fun parsed => runs (collect f sep cap acc parsed) Q) s.
Proof.
  apply (tokens_ind is_sep (fun l ts => forall str p s f acc cap Q, starts str p s -> holds (buf s) p l -> clean l ->
    (length ts < f)%nat -> Z.of_nat (length acc) + Z.of_nat (length ts) < cap ->
    (forall ps s', laid (buf s') p ps ts (p + length l + 1) -> apart p (p + length l) (buf s) (buf s') -> quiet s s' -> Q (acc ++ ps) s') ->
    runs (strtok str sep) (fun parsed => runs (collect f sep cap acc parsed) Q) s)); clear l.
  - intros u Hu str p s [|f] acc cap Q Hst Hh Hc Hf Hcap HQ; [lia|]. simpl in Hcap. apply (runs_no_token u _ p); try done.
    cbn [collect]. rewrite decide_False by lia. apply runs_ret. rewrite <- (app_nil_r acc). apply HQ; [constructor; lia | done | done].
  - intros u t Hu Hne Ht str p s [|f] acc cap Q Hst Hh Hc Hf Hcap HQ; [lia|]. simpl in Hcap, Hf. apply Forall_app in Hc as [_ Hc].
    apply (runs_token u t [] 0 _ p); try done; [by rewrite app_nil_r | by left|]. rewrite decide_True by done.
    cbn [collect]. rewrite decide_False by lia. apply holds_suffix in Hh as Hh1. pose proof (holds_end _ _ _ Hh1) as He.
    apply runs_bind, (runs_no_token [] _ (p + length u + length t)); try done.
    { intros i Hi. simpl in Hi. replace i with 0%nat by lia. rewrite Nat.add_0_r. exact He. }
    destruct f as [|f]; [lia|]. cbn [collect]. rewrite decide_False by (rewrite length_app; simpl; lia). apply runs_ret.
    apply HQ; [|done | done]. rewrite length_app. constructor; [lia | done | done|]. constructor. lia.
  - intros u t c r Hu Hne Ht Hsc IH str p s [|f] acc cap Q Hst Hh Hc Hf Hcap HQ; [lia|]. simpl in Hcap, Hf.
    pose proof Hc as [_ Hc1]%Forall_app. apply Forall_app in Hc1 as [Hct Hcr]. inversion_clear Hcr as [|?? Hc0 Hcr'].
    apply (runs_token u t (c :: r) c _ p); try done; [by right|]. rewrite decide_False by done. cbn [collect]. rewrite decide_False by lia.
    apply holds_suffix in Hh as Hh1. apply holds_suffix in Hh1 as Hh2. apply (holds_suffix _ _ [c]) in Hh2 as Hh3. simpl in Hh3. rewrite Nat.add_1_r in Hh3.
    pose proof (holds_cut _ _ _ _ Hh1) as Hcut. pose proof (apart_insert (buf s) (p + length u + length t) 0) as Ha.
    apply runs_bind. apply (IH None (S (p + length u + length t))); [done | | done | lia | rewrite length_app; simpl; lia|].
    { eapply holds_apart; [exact Ha | lia | done]. }
    intros ps s' Hl Ha' Hq. rewrite <- app_assoc. apply HQ.
    + rewrite !length_app. simpl. constructor; [lia | | done|].
      * eapply holds_apart; [exact Ha' | lia | done].
      * rewrite Nat.add_1_r. replace (p + (length u + (length t + S (length r))) + 1)%nat with (S (p + length u + length t) + length r + 1)%nat by lia. done.
    + rewrite !length_app. simpl. eapply apart_trans; [eapply apart_wider; [exact Ha | lia | lia] | eapply apart_wider; [exact Ha' | lia | lia]].
    + done.
Qed.
End cut.

(** ** Trimming a command in place *)

Lemma runs_shift str ix m : forall fuel i s Q, (length m < fuel)%nat -> holds (buf s) (str + (i + ix)) m -> clean m ->
  (forall s', quiet s s' -> apart (str + i) (str + i + length m) (buf s) (buf s') ->
     (forall k c, m !! k = Some c -> buf s' !! (str + i + k)%nat = Some c) -> Q (i + length m)%nat s') ->
  runs (shift fuel str ix i) Q s.
Proof.
  induction m as [|c m IH]; intros [|fuel] i s Q Hf Hh Hc HQ; simpl in Hf; try lia; cbn [shift]; apply runs_bind.
  - apply (runs_rd _ 0); [pose proof (holds_end _ _ _ Hh) as E; by rewrite Nat.add_0_r in E|]. rewrite decide_True by done.
    apply runs_ret. rewrite <- (Nat.add_0_r i) at 1. by apply HQ.
  - inversion_clear Hc as [|?? H0 Hc']. pose proof (holds_bound _ _ _ Hh) as Hb. simpl in Hb.
    apply (runs_rd _ c); [rewrite <- (Nat.add_0_r (str + _)); by apply (holds_in _ _ _ _ _ Hh)|]. rewrite decide_False by done.
    apply runs_bind, runs_wr; [lia|]. pose proof (apart_insert (buf s) (str + i) c) as Ha.
    pose proof (holds_suffix _ _ [c] _ Hh) as Hh1. replace (str + (i + ix) + length [c])%nat with (str + (S i + ix))%nat in Hh1 by (simpl; lia).
    apply IH; [lia | eapply holds_apart; [exact Ha | lia | done] | done|]. intros s' Hq Ha' Hk.
    replace (S i + length m)%nat with (i + length (c :: m))%nat by (simpl; lia). apply HQ; [done | |].
    + simpl. eapply apart_trans; [eapply apart_wider; [exact Ha | lia | lia] | eapply apart_wider; [exact Ha' | lia | lia]].
    + intros [|k] d Hd; simpl in Hd.
      * injection Hd as <-. destruct Ha' as [_ ->]; [|lia]. rewrite Nat.add_0_r. apply list_lookup_insert_eq. lia.
      * replace (str + i + S k)%nat with (str + S i + k)%nat by lia. by apply Hk.
Qed.

Lemma runs_last_black str m : forall fuel u v s ix Q, (length m < fuel)%nat -> holds (buf s) (str + length (u ++ v)) m -> clean m ->
  ix + 1 = Z.of_nat (length u) -> Forall (fun c => white c = true) v ->
  (forall ix' u' v', u' ++ v' = u ++ v ++ m -> ix' + 1 = Z.of_nat (length u') -> Forall (fun c => white c = true) v' -> Q ix' s) ->
  runs (last_black fuel str (length (u ++ v)) ix) Q s.
Proof.
  induction m as [|c m IH]; intros [|fuel] u v s ix Q Hf Hh Hc Hix Hv HQ; simpl in Hf; try lia; cbn [last_black]; apply runs_bind.
  - apply (runs_rd _ 0); [pose proof (holds_end _ _ _ Hh) as E; by rewrite Nat.add_0_r in E|]. rewrite decide_True by done.
    apply runs_ret. apply (HQ ix u v); try done. by rewrite app_nil_r.
  - inversion_clear Hc as [|?? H0 Hc']. apply (runs_rd _ c); [rewrite <- (Nat.add_0_r (str + _)); by apply (holds_in _ _ _ _ _ Hh)|].
    rewrite decide_False by done. rewrite blank_white. pose proof (holds_suffix _ _ [c] _ Hh) as Hh1. destruct (white c) eqn:E.
    + replace (S (length (u ++ v))) with (length (u ++ v ++ [c])) by (rewrite !length_app; simpl; lia).
      apply IH; try done; [lia | | apply Forall_app; auto | intros ix' u' v' Heq; apply HQ; by rewrite Heq, <- app_assoc].
      replace (str + length (u ++ v ++ [c]))%nat with (str + length (u ++ v) + length [c])%nat by (rewrite !length_app; simpl; lia). done.
    + replace (S (length (u ++ v))) with (length ((u ++ v ++ [c]) ++ [])) by (rewrite !length_app; simpl; lia).
      apply IH; try done; [lia | | rewrite !length_app; simpl; lia | intros ix' u' v' Heq; apply HQ; by rewrite Heq, <- !app_assoc].
      replace (str + length ((u ++ v ++ [c]) ++ []))%nat with (str + length (u ++ v) + length [c])%nat by (rewrite !length_app; simpl; lia). done.
Qed.

Lemma leading_white w : exists u m c, w = u ++ m /\ Forall (fun c => white c = true) u /\ (m ++ [0]) !! 0%nat = Some c /\ white c = false.
Proof.
  destruct (tokens_cases white w) as (u & m & -> & Hu & [-> | ([|d t] & r & -> & Hne & Ht & _)]); [by exists u, [], 0 | done|].
  inversion_clear Ht. by exists u, ((d :: t) ++ r), d.
Qed.

Lemma runs_trim w p s Q : holds (buf s) p w -> clean w ->
  (forall w' s', quiet s s' -> apart p (p + length w + 1) (buf s) (buf s') -> holds (buf s') p w' -> clean w' -> (length w' <= length w)%nat ->
     words w' = words w -> Q tt s') ->
  runs (trim p) Q s.
Proof.
  intros Hh Hc HQ. pose proof (holds_bound _ _ _ Hh) as Hb. unfold trim, rounds. rstep.
  destruct (leading_white w) as (u & m & c & -> & Hu & Ec & Hm).
  rewrite length_app in *.
  apply runs_bind, (runs_skip _ c m u); try done; [lia | eapply Forall_impl; [exact Hu | intros; by rewrite blank_white] | by rewrite blank_white|].
  apply Forall_app in Hc as [_ Hc]. pose proof (holds_suffix _ _ _ _ Hh) as Hh1.
  apply runs_bind, (runs_shift _ _ m); [lia | by replace (p + (0 + (p + length u - p)))%nat with (p + length u)%nat by lia | done|].
  rewrite Nat.add_0_r. intros s1 Hq1 Ha1 Hk. destruct Ha1 as [HL1 Ha1]. apply runs_bind, runs_wr; [simpl in *; lia|].
  set (b1 := <[(p + (0 + length m))%nat := 0]> (buf s1)).
  assert (holds b1 p m) as Hb1.
  { apply holds_intro.
    - intros i d Hi. pose proof (lookup_lt_Some _ _ _ Hi). unfold b1. rewrite list_lookup_insert_ne by lia. by apply Hk.
    - unfold b1. apply list_lookup_insert_eq. simpl in *; lia. }
  assert (apart p (p + (length u + length m) + 1) (buf s) b1) as Ha2.
  { eapply apart_trans; [eapply (apart_wider p (p + length m)); [split; [exact HL1 | exact Ha1] | lia | lia]|].
    eapply apart_wider; [apply apart_insert | lia | lia]. }
  apply runs_bind. apply (runs_last_black p m _ [] []); [simpl; lia | by rewrite Nat.add_0_r | done | done | constructor|].
  simpl. intros ix u' v Heq Hix Hv. apply runs_wr; [simpl; unfold b1; rewrite length_insert; simpl in *; rewrite <- Heq, length_app in Hb; lia|].
  simpl. replace (Z.to_nat (ix + 1)) with (length u') by lia. subst m. apply Forall_app in Hc as [Hc _]. rewrite length_app in *.
  apply (HQ u'); [done | | by apply (holds_cut _ _ _ v) | done | lia | by rewrite words_trim].
  eapply apart_trans; [exact Ha2|]. eapply apart_wider; [apply apart_insert | lia | lia].
Qed.

(** ** The commands of a line *)

Lemma runs_cut sep l p s cap Q : 0 ∉ sep -> holds (buf s) p l -> clean l -> let ts := tokens_of (fun c => bool_decide (c ∈ sep)) l in
  Z.of_nat (length ts) < cap ->
  (forall ps s', laid (buf s') p ps ts (p + length l + 1) -> apart p (p + length l) (buf s) (buf s') -> quiet s s' -> Q ps s') ->
  runs (cut p sep cap) Q s.
Proof.
  intros Hs Hh Hc ts Hcap HQ. unfold cut, rounds. rstep. apply runs_bind. pose proof (holds_bound _ _ _ Hh).
  pose proof (tokens_count (fun c => bool_decide (c ∈ sep)) l) as Hn. fold ts in Hn. by apply (runs_collect sep Hs l _ p); try done; fold ts; lia.
Qed.

Lemma runs_trims ps : forall lo ws hi s Q, laid (buf s) lo ps ws hi ->
  (forall ws' s', quiet s s' -> apart lo hi (buf s) (buf s') -> laid (buf s') lo ps ws' hi -> Forall2 (fun w w' => words w' = words w /\ (length w' <= length w)%nat) ws ws' -> Q tt s') ->
  runs (forM ps trim) Q s.
Proof.
  induction ps as [|p ps IH]; intros lo ws hi s Q Hl HQ; cbn [forM]; inversion Hl as [|? ? ? w ws1 ? Hp Hh Hc Hl']; subst.
  - apply runs_ret, (HQ []); done.
  - pose proof (laid_bounds _ _ _ _ _ Hl') as Hb. apply runs_bind, (runs_trim w); [done | done|]. intros w' s1 Hq Ha Hh' Hc' Hle Hw.
    apply (IH (p + length w + 1)%nat ws1 hi); [eapply laid_apart; [exact Hl' | exact Ha | lia]|].
    intros ws' s2 Hq2 Ha2 Hl2 Hws. apply (HQ (w' :: ws')).
    + by apply (quiet_trans _ s1).
    + eapply apart_trans; [eapply apart_wider; [exact Ha | lia | lia] | eapply apart_wider; [exact Ha2 | lia | lia]].
    + constructor; [done | eapply holds_apart; [exact Ha2 | lia | done] | done | eapply laid_lower; [exact Hl2 | lia]].
    + by constructor.
Qed.

Lemma runs_parsed2 l s cap Q : holds (buf s) 0 l -> clean l -> Z.of_nat (length (pieces l)) < cap ->
  (forall ps ws s', laid (buf s') 0 ps ws (length l + 1) -> Forall2 (fun w w' => words w' = words w /\ (length w' <= length w)%nat) (pieces l) ws -> quiet s s' -> Q ps s') ->
  runs (get_parsed2 0 cap) Q s.
Proof.
  intros Hh Hc Hcap HQ. unfold get_parsed2. apply runs_bind.
  apply (runs_cut _ l); try done; [set_solver|]. intros ps s1 Hl Ha Hq. apply runs_bind. apply (runs_trims _ _ _ _ _ _ Hl).
  intros ws s2 Hq2 _ Hl2 Hws. apply runs_ret. apply (HQ _ ws); [done | done | by apply (quiet_trans _ s1)].
Qed.

Lemma runs_strings ps : forall lo ws hi s Q, laid (buf s) lo ps ws hi -> Q ws s -> runs (strings ps) Q s.
Proof.
  induction ps as [|p ps IH]; intros lo ws hi s Q Hl HQ; cbn [strings]; inversion Hl as [|? ? ? w ws1 ? Hp Hh Hc Hl']; subst.
  - by apply runs_ret.
  - apply runs_bind, (runs_str_at w); [done | done|]. apply runs_bind. apply (IH _ _ _ _ _ Hl'). by apply runs_ret.
Qed.

(** ** What a session does *)

(** The effects of a part of a session, the number of forks after it, and where it ends. *)
Definition result : Type := list event * nat * option stop.
Definition andthen (r : result) (k : nat -> result) : result :=
  match r with
  | (ev, n, None) => let '(ev', n', o) := k n in (ev ++ ev', n', o)
  | _ => r
  end.

Lemma andthen_assoc r k k2 : andthen (andthen r k) k2 = andthen r (fun n => andthen (k n) k2).
Proof.
  destruct r as [[ev n] [o|]]; [done|]. simpl. destruct (k n) as [[ev1 n1] [o1|]]; [done|]. simpl.
  destruct (k2 n1) as [[ev2 n2] o2]. by rewrite app_assoc.
Qed.

Section session.
Context (fork_result : nat -> Z) (chdir_ok : list Z -> bool) (execvp_ok : list (list Z) -> bool).

(** A program: the parent waits for it, the child becomes it. *)
Definition launch (w : list (list Z)) (n : nat) : result :=
  if decide (fork_result n < 0) then ([Message "fork failed"], S n, Some Exits)
  else if decide (0 < fork_result n) then ([Wait], S n, None)
  else match w with
       | [] => ([], S n, Some Undefined)
       | _ => if execvp_ok w then ([Exec w], S n, Some Exits) else ([Message "execution failed"], S n, Some Exits)
       end.
Definition obey (w : list (list Z)) (n : nat) : result :=
  match w with
  | [] => ([], n, Some Undefined)
  | c :: args =>
      if decide (c = cs "quit") then ([], n, Some Exits)
      else if decide (c = cs "cd") then
        match args with
        | [] => ([Chdir (cs "/")], n, None)
        | d :: _ => (Chdir d :: if chdir_ok d then [] else [Message "check the cd param"], n, None)
        end
      else launch w n
  end.
Fixpoint obey_all (ws : list (list (list Z))) (n : nat) : result :=
  match ws with
  | [] => ([], n, None)
  | w :: ws' => andthen (obey w n) (obey_all ws')
  end.
(** A session: a prompt before every line, and the commands of each line in their order.
    On a line of 99 bytes or more, and at the end of the input, the behaviour is undefined. *)
Fixpoint session (lines : list (list Z)) (n : nat) : result :=
  match lines with
  | [] => ([Prompt], n, Some Undefined)
  | l :: lines' =>
      if decide (99 <= length l)%nat then ([Prompt], n, Some Undefined)
      else andthen (andthen ([Prompt], n, None) (obey_all (words <$> pieces l))) (session lines')
  end.
Fixpoint launch_all (ws : list (list (list Z))) (n : nat) : result :=
  match ws with
  | [] => ([], n, None)
  | w :: ws' => andthen (andthen ([Separator], n, None) (launch w)) (launch_all ws')
  end.
Fixpoint script (lines : list (list Z)) (n : nat) : result :=
  match lines with
  | [] => ([], n, Some Exits)
  | l :: lines' => andthen (launch_all (words <$> pieces l) n) (script lines')
  end.

(** [m] has the effects and the end of [r]; where it returns, [Q] holds. *)
Definition gives (m : M shell unit) (r : result) (Q : shell -> Prop) (s : shell) : Prop :=
  let '(ev, n, o) := r in
  wp m (fun _ s' => o = None /\ trace s' = trace s ++ ev /\ forks s' = n /\ Q s')
       (fun x s' => o = Some x /\ trace s' = trace s ++ ev /\ forks s' = n) s.

Lemma gives_bind m m2 r k Q Q2 s : gives m r Q s -> (forall s', Q s' -> gives m2 (k (forks s')) Q2 s') -> gives (m ;;; m2) (andthen r k) Q2 s.
Proof.
  destruct r as [[ev n] o]. unfold gives, wp, bind. destruct (m s) as [[] s'|x s'].
  - intros (-> & Ht & <- & HQ) H. specialize (H s' HQ). simpl. destruct (k (forks s')) as [[ev' n'] o'].
    destruct (m2 s') as [[] s2|y s2]; rewrite Ht, <- app_assoc in H; exact H.
  - intros (-> & Ht & Hn) _. done.
Qed.
Lemma gives_runs {A} (m : M shell A) (f : A -> M shell unit) r Q s :
  runs m (fun a s' => trace s' = trace s /\ gives (f a) r Q s') s -> gives (bind m f) r Q s.
Proof.
  intros (a & s' & E & Ht & H). destruct r as [[ev n] o]. unfold gives, wp in *. rewrite (bind_ret _ _ _ _ _ E). by rewrite Ht in H.
Qed.
Lemma gives_emit e Q s : (forall s', buf s' = buf s -> input s' = input s -> Q s') -> gives (emit e) ([e], forks s, None) Q s.
Proof. intros H. unfold gives, wp, emit, modify. simpl. split_and!; try done. by apply H. Qed.
Lemma gives_stop x Q s : gives (stop_with x) ([], forks s, Some x) Q s.
Proof. unfold gives, wp, stop_with. by rewrite app_nil_r. Qed.
Lemma gives_emit_stop e x Q s : gives (emit e ;;; stop_with x) ([e], forks s, Some x) Q s.
Proof. by unfold gives, wp, emit, modify, bind, stop_with. Qed.
Lemma gives_ret Q s : Q s -> gives (ret tt) ([], forks s, None) Q s.
Proof. unfold gives, wp, ret. by rewrite app_nil_r. Qed.
Lemma gives_mono m r (Q Q' : shell -> Prop) s : gives m r Q s -> (forall s', Q s' -> Q' s') -> gives m r Q' s.
Proof. destruct r as [[ev n] o]. unfold gives, wp. destruct (m s); [|done]. intros (? & ? & ? & ?) HQ. auto. Qed.

Notation stays s := (fun s' => buf s' = buf s /\ input s' = input s).

Lemma gives_myfork ps lo ws hi s : laid (buf s) lo ps ws hi -> gives (myfork fork_result execvp_ok ps) (launch ws (forks s)) (stays s) s.
Proof.
  intros Hl. unfold myfork, fork, launch. set (s1 := MkS (buf s) (save s) (input s) (S (forks s)) (trace s)).
  change (gives (if decide (fork_result (forks s) < 0) then emit (Message "fork failed") ;;; stop_with Exits
    else if decide (fork_result (forks s) = 0) then execvp execvp_ok ps ;;; emit (Message "execution failed") ;;; stop_with Exits else emit Wait)
    (launch ws (forks s)) (stays s) s1). unfold launch. case_decide; [apply gives_emit_stop|]. case_decide.
  - rewrite decide_False by lia. assert (laid (buf s1) lo ps ws hi) as Hl1 by done. unfold execvp.
    inversion Hl as [|? p ps' w ws' ? Hp Hh Hc Hl']; subst; [exact (gives_stop Undefined _ s1)|].
    apply (runs_strings _ _ _ _ s1 (fun r s' => r = w :: ws' /\ s' = s1)) in Hl1 as (r & s2 & E & -> & ->); [|done].
    destruct (execvp_ok (w :: ws')) eqn:Ex.
    + unfold gives, wp. rewrite (bind_stop _ _ _ Exits (MkS (buf s1) (save s1) (input s1) (forks s1) (trace s1 ++ [Exec (w :: ws')]))); [done|].
      rewrite (bind_ret _ _ _ _ _ E). by rewrite Ex.
    + unfold gives, wp. rewrite (bind_ret _ _ _ tt s1); [apply gives_emit_stop|]. rewrite (bind_ret _ _ _ _ _ E). by rewrite Ex.
  - rewrite decide_True by lia. by apply gives_emit.
Qed.

Lemma gives_command1 ps lo ws hi s : laid (buf s) lo ps ws hi -> gives (command1 fork_result chdir_ok execvp_ok ps) (obey ws (forks s)) (stays s) s.
Proof.
  intros Hl. unfold command1, obey. inversion Hl as [|? p ps' w ws' ? Hp Hh Hc Hl']; subst; [apply gives_stop|].
  apply gives_runs, (runs_str_at w); [done | done|]. split; [done|]. case_decide; [apply gives_stop|]. case_decide; [|by apply (gives_myfork _ lo _ hi)].
  inversion Hl' as [|? q ? d ? ? Hq Hd Hcd]; subst; [by apply gives_emit|].
  apply gives_runs, (runs_str_at d); [done | done|]. split; [done|].
  destruct (chdir_ok d); unfold gives, wp, when, emit, modify, bind, ret; simpl; [done|]. by rewrite <- app_assoc.
Qed.

(** Both loops over the commands of a line. *)
Lemma gives_commands ps : forall lo ts hi s bsize, laid (buf s) lo ps ts hi -> 50 <= bsize ->
  Forall (fun t => (length (words t) < 50)%nat) ts ->
  gives (commands fork_result chdir_ok execvp_ok ps bsize) (obey_all (words <$> ts) (forks s)) (fun s' => input s' = input s) s.
Proof.
  induction ps as [|p ps IH]; intros lo ts hi s bsize Hl Hb Ht; cbn [commands]; inversion Hl as [|? ? ? t ts' ? Hp Hh Hc Hl']; subst; [by apply gives_ret|].
  inversion_clear Ht as [|?? Ht1 Ht']. cbn [fmap list_fmap obey_all]. apply gives_runs. unfold get_parsed.
  apply (runs_cut _ t); try done; [set_solver | unfold words, white in Ht1; lia|]. intros qs s1 Hl1 Ha1 Hq. split; [apply Hq|].
  replace (forks s) with (forks s1) by apply Hq. apply (gives_bind _ _ _ _ (stays s1)); [by apply (gives_command1 _ _ _ _ _ Hl1)|].
  intros s2 [Hb2 Hi2]. replace (input s) with (input s2) by (rewrite Hi2; apply Hq). apply (IH (p + length t + 1)%nat _ hi); [|done | done].
  rewrite Hb2. eapply laid_apart; [exact Hl' | exact Ha1 | lia].
Qed.

Lemma gives_batch_commands ps : forall lo ts hi s, laid (buf s) lo ps ts hi -> Forall (fun t => (length (words t) < 50)%nat) ts ->
  gives (batch_commands fork_result execvp_ok ps 50) (launch_all (words <$> ts) (forks s)) (fun s' => input s' = input s) s.
Proof.
  induction ps as [|p ps IH]; intros lo ts hi s Hl Ht; cbn [batch_commands]; inversion Hl as [|? ? ? t ts' ? Hp Hh Hc Hl']; subst; [by apply gives_ret|].
  inversion_clear Ht as [|?? Ht1 Ht']. cbn [fmap list_fmap launch_all]. rewrite andthen_assoc.
  apply (gives_bind _ _ _ _ (stays s)); [by apply gives_emit|]. intros s0 [Hb0 Hi0]. apply gives_runs. unfold get_parsed.
  apply (runs_cut _ t); try done; [set_solver | by rewrite Hb0 | unfold words, white in Ht1; lia|]. intros qs s1 Hl1 Ha1 Hq. split; [apply Hq|].
  replace (forks s0) with (forks s1) by apply Hq. apply (gives_bind _ _ _ _ (stays s1)); [by apply (gives_myfork _ _ _ _ _ Hl1)|].
  intros s2 [Hb2 Hi2]. rewrite <- Hi0. replace (input s0) with (input s2) by (rewrite Hi2; apply Hq). apply (IH (p + length t + 1)%nat _ hi); [|done].
  rewrite Hb2. eapply laid_apart; [exact Hl' | rewrite Hb0 in Ha1; exact Ha1 | lia].
Qed.

(** ** Lines *)

Lemma next_line_app l r : 10 ∉ l -> next_line (l ++ 10 :: r) = (l ++ [10], r).
Proof.
  induction l as [|c l IH]; intros Hn; [done|]. simpl. rewrite decide_False by set_solver. rewrite IH by set_solver. done.
Qed.
Lemma runs_getline l r s Q : 10 ∉ l -> input s = l ++ 10 :: r -> Q (Z.of_nat (length l) + 1) (set_buf (l ++ [10; 0]) (set_input r s)) -> runs getline Q s.
Proof.
  intros Hn E HQ. exists (Z.of_nat (length l) + 1), (set_buf (l ++ [10; 0]) (set_input r s)). split; [|done].
  unfold getline. rewrite E. destruct (l ++ 10 :: r) eqn:El; [by destruct l|]. rewrite <- El, next_line_app by done.
  rewrite length_app, <- app_assoc. f_equal. simpl. lia.
Qed.
Lemma runs_chop l s Q : clean l -> buf s = l ++ [10; 0] -> (forall s', quiet s s' -> holds (buf s') 0 l -> Q tt s') -> runs chop Q s.
Proof.
  intros Hc E HQ. assert (holds (buf s) 0 (l ++ [10])) as Hh by (intros i Hi; rewrite E, <- app_assoc; done).
  unfold chop, rounds. rstep. apply runs_bind, (runs_skip _ 0 [] (l ++ [10])); try done.
  - by rewrite app_nil_r.
  - rewrite E, !length_app. simpl. lia.
  - apply Forall_app; split; [|by repeat constructor]. eapply Forall_impl; [exact Hc|]. intros c Hc0. by apply bool_decide_eq_true_2.
  - rewrite length_app. change (length [10]) with 1%nat. replace (0 + (length l + 1))%nat with (S (length l)) by lia.
    apply runs_wr; [rewrite E, length_app; simpl; lia|]. apply HQ; [done|]. exact (holds_cut _ 0 l [10] Hh).
Qed.

Lemma runs_get_line l r s Q : clean l -> 10 ∉ l -> (length l < 99)%nat -> input s = l ++ 10 :: r ->
  (l = [] -> forall s', input s' = r -> forks s' = forks s -> trace s' = trace s -> Q None s') ->
  (forall b s', 50 <= b -> input s' = r -> forks s' = forks s -> trace s' = trace s -> holds (buf s') 0 l -> Q (Some b) s') ->
  runs (get_line 50) Q s.
Proof.
  intros Hc Hn Hlen E HQ1 HQ2. unfold get_line. apply runs_bind, (runs_getline l r); [done | done|]. rewrite Z.mod_small by lia. case_decide.
  - apply runs_ret, HQ1; [|done | done | done]. destruct l; [done | simpl in *; lia].
  - change 32%nat with (S 31). cbn [grow]. case_decide.
    + rstep. apply runs_bind. apply (runs_chop l); [done | done|]. intros s' (? & ? & ?) Hh. apply runs_ret. by apply HQ2.
    + rewrite decide_False by lia. apply runs_bind. unfold realloc. rstep. change 31%nat with (S 30). cbn [grow]. rewrite decide_True by lia.
      apply runs_ret, runs_bind. apply (runs_chop l); [done | |].
      * simpl. apply take_ge. rewrite length_app. simpl. lia.
      * intros s' (? & ? & ?) Hh. apply runs_ret. by apply HQ2.
Qed.

Lemma few_words l (ws : list (list Z)) n : (length l < n)%nat -> Forall2 (fun w w' => words w' = words w /\ (length w' <= length w)%nat) (pieces l) ws ->
  Forall (fun t => (2 * length (words t) <= n)%nat) ws /\ words <$> ws = words <$> pieces l.
Proof.
  intros Hl H. assert (Forall (fun t => (length t <= length l)%nat) (pieces l)) as Hp.
  { eapply Forall_impl; [apply (tokens_inside semi (fun _ => True)); by apply Forall_forall|]. by intros t [_ ?]. }
  induction H as [|w w' ws1 ws2 [Hw Hle] _ IH]; [done|]. inversion_clear Hp as [|?? Hw1 Hp']. destruct IH as [IH1 IH2]; [done|].
  split; [constructor; [|done] | by rewrite !fmap_cons, Hw, IH2]. pose proof (tokens_count white w'). unfold words in *. lia.
Qed.

(** The text of a file with these lines. *)
Definition text (lines : list (list Z)) : list Z := lines ≫= (fun l => l ++ [10]).

Lemma gives_prompt l r s : clean l -> 10 ∉ l -> (length l < 99)%nat -> input s = l ++ 10 :: r ->
  gives (prompt fork_result chdir_ok execvp_ok) (andthen ([Prompt], forks s, None) (obey_all (words <$> pieces l))) (fun s' => input s' = r) s.
Proof.
  intros Hc Hn Hl E. unfold prompt. apply (gives_bind _ _ _ _ (stays s)); [by apply gives_emit|]. intros s0 [_ Hi0].
  rewrite <- Hi0 in E. apply gives_runs, (runs_get_line l r); try done.
  - intros -> s1 Hi1 Hf1 Ht1. split; [done|]. rewrite <- Hf1. by apply gives_ret.
  - intros b s1 Hb Hi1 Hf1 Ht1 Hh. split; [done|]. pose proof (tokens_count semi l) as Hcnt. unfold pieces in *.
    apply gives_runs, (runs_parsed2 l); [done | done | unfold pieces; lia|]. intros ps ws s2 Hl2 Hws Hq. split; [apply Hq|].
    apply (few_words l ws 99) in Hws as [Hw1 Hw2]; [|lia]. unfold pieces in Hw2. rewrite <- Hw2, <- Hf1. replace (forks s1) with (forks s2) by apply Hq.
    eapply gives_mono; [apply (gives_commands ps _ _ _ s2 b Hl2 Hb)|].
    + eapply Forall_impl; [exact Hw1|]. simpl. lia.
    + intros s' ->. by rewrite <- Hi1; apply Hq.
Qed.

(** At the end of the input [getline] returns -1, an enormous unsigned number. *)
Lemma grow_overflows fuel : forall r b s, 2 ^ 31 <= r -> 0 < b < 2 ^ 31 -> 2 ^ 31 <= b * 2 ^ Z.of_nat fuel ->
  exists s', grow fuel r b s = Stop Undefined s' /\ quiet s s'.
Proof.
  induction fuel as [|fuel IH]; intros r b s Hr Hb Hf; [rewrite Z.mul_1_r in Hf; lia|]. cbn [grow]. rewrite decide_False by lia.
  case_decide; [by exists s|]. rewrite Nat2Z.inj_succ, Z.pow_succ_r in Hf by lia.
  destruct (IH r (b * 2) (set_buf (take (Z.to_nat (b * 2)) (buf s)) s)) as (s' & E & Hq); [lia | lia | lia|].
  exists s'. split; [|done]. by rewrite (bind_ret _ _ _ tt (set_buf (take (Z.to_nat (b * 2)) (buf s)) s)).
Qed.

Lemma gives_eof s Q : input s = [] -> gives (prompt fork_result chdir_ok execvp_ok) ([Prompt], forks s, Some Undefined) Q s.
Proof.
  intros E. destruct s as [b sv i f t]. cbn in E. subst i. set (s := MkS b sv [] f t). unfold prompt, get_line, gives, wp.
  set (s1 := set_buf [] (MkS (buf s) (save s) (input s) (forks s) (trace s ++ [Prompt]))).
  destruct (grow_overflows 32 ((-1) mod 2 ^ 64) 50 s1) as (s2 & E2 & Hi & Hf & Ht); [done | done | done|].
  rewrite (bind_ret _ _ _ tt (MkS (buf s) (save s) (input s) (forks s) (trace s ++ [Prompt]))) by done.
  erewrite bind_stop; [split_and!; [done | exact Ht | exact Hf]|]. rewrite (bind_ret _ _ _ (-1) s1) by done.
  rewrite decide_False by (change ((-1) mod 2 ^ 64) with (2 ^ 64 - 1); lia). by apply bind_stop.
Qed.

(** A longer line: the first [realloc] cuts its terminator off. *)
Lemma grow_clean fuel : forall r b s, 0 < b < 2 ^ 31 -> 2 ^ 31 <= b * 2 ^ Z.of_nat fuel -> clean (buf s) ->
  wp (grow fuel r b) (fun _ s' => clean (buf s') /\ quiet s s') (fun x s' => x = Undefined /\ quiet s s') s.
Proof.
  induction fuel as [|fuel IH]; intros r b s Hb Hf Hc; [rewrite Z.mul_1_r in Hf; lia|]. cbn [grow]. case_decide; [done|].
  case_decide; [done|]. rewrite Nat2Z.inj_succ, Z.pow_succ_r in Hf by lia. unfold realloc. apply wp_bind, wp_modify.
  refine (IH r (b * 2) (set_buf (take (Z.to_nat (b * 2)) (buf s)) s) _ _ _); [lia | lia | by apply Forall_take].
Qed.
Lemma skip_unterminated fuel : forall i s, clean (buf s) -> (length (buf s) < fuel + i)%nat ->
  skip fuel (fun c => bool_decide (c <> 0)) i s = Stop Undefined s \/ (length (buf s) < i)%nat.
Proof.
  induction fuel as [|fuel IH]; intros i s Hc Hf; [by right|]. left. cbn [skip]. unfold bind, rd.
  destruct (buf s !! i) as [c|] eqn:E; [|done]. rewrite bool_decide_eq_true_2 by by apply (Forall_lookup_1 _ _ _ _ Hc E).
  apply lookup_lt_Some in E. destruct (IH (S i) s) as [H | H]; [done | lia | done | lia].
Qed.
Lemma chop_unterminated s : clean (buf s) -> chop s = Stop Undefined s.
Proof.
  intros Hc. unfold chop, rounds, gets. unfold bind at 1. destruct (skip_unterminated (S (length (buf s))) 0 s) as [E | E]; [done | lia | | lia].
  by rewrite (bind_stop _ _ _ _ _ E).
Qed.

Lemma get_line_long l r s : clean l -> 10 ∉ l -> (99 <= length l)%nat -> Z.of_nat (length l) < 2 ^ 63 -> input s = l ++ 10 :: r ->
  exists s', get_line 50 s = Stop Undefined s' /\ forks s' = forks s /\ trace s' = trace s.
Proof.
  intros Hc Hn Hl Hmax E. set (s1 := set_buf (l ++ [10; 0]) (set_input r s)).
  destruct (runs_getline l r s (fun n s' => n = Z.of_nat (length l) + 1 /\ s' = s1)) as (n & ? & E1 & -> & ->); [done | done | done|].
  unfold get_line. rewrite (bind_ret _ _ _ _ _ E1), Z.mod_small by lia. rewrite decide_False by lia.
  set (s2 := set_buf (take 100 (buf s1)) s1). assert (clean (buf s2)) as Hc2.
  { unfold s2, s1. cbn [buf set_buf]. change [10; 0] with ([10] ++ [0]). rewrite app_assoc, take_app_le by (rewrite length_app; simpl; lia).
    apply Forall_take, Forall_app; split; [done | by repeat constructor]. }
  pose proof (grow_clean 31 (Z.of_nat (length l) + 1) 100 s2 ltac:(lia) ltac:(done) Hc2) as H. unfold wp in H.
  assert (grow 32 (Z.of_nat (length l) + 1) 50 s1 = grow 31 (Z.of_nat (length l) + 1) 100 s2) as E2.
  { change 32%nat with (S 31). cbn [grow]. rewrite decide_False by lia. by rewrite decide_False by lia. }
  destruct (grow 31 _ 100 s2) as [b s3|x s3].
  - destruct H as (Hc3 & _ & Hf & Ht). rewrite (bind_ret _ _ _ _ _ E2), (bind_stop _ _ _ _ _ (chop_unterminated _ Hc3)). by exists s3.
  - destruct H as (-> & _ & Hf & Ht). rewrite (bind_stop _ _ _ _ _ E2). by exists s3.
Qed.

Lemma gives_long l r s Q : clean l -> 10 ∉ l -> (99 <= length l)%nat -> Z.of_nat (length l) < 2 ^ 63 -> input s = l ++ 10 :: r ->
  gives (prompt fork_result chdir_ok execvp_ok) ([Prompt], forks s, Some Undefined) Q s.
Proof.
  intros Hc Hn Hl Hmax E. unfold prompt. apply (gives_bind _ _ ([Prompt], forks s, None) (fun n => ([], n, Some Undefined)) (stays s)); [by apply gives_emit|].
  intros s0 [_ Hi]. rewrite <- Hi in E. destruct (get_line_long l r s0) as (s1 & E1 & Hf & Ht); try done.
  unfold gives, wp. rewrite (bind_stop _ _ _ _ _ E1), app_nil_r. done.
Qed.

(** A line of text, of a length [getline] can return. *)
Definition line (l : list Z) : Prop := clean l /\ 10 ∉ l /\ Z.of_nat (length l) < 2 ^ 63.

Lemma text_cons l lines : text (l :: lines) = l ++ 10 :: text lines.
Proof. unfold text. cbn [mbind list_bind]. by rewrite <- app_assoc. Qed.

Lemma gives_interactive lines : forall n s, Forall line lines -> input s = text lines -> (length lines < n)%nat ->
  gives (interactive fork_result chdir_ok execvp_ok n) (session lines (forks s)) (fun _ => False) s.
Proof.
  induction lines as [|l lines IH]; intros [|n] s Hl E Hn; simpl in Hn; try lia; cbn [interactive session].
  - apply (gives_bind _ _ ([Prompt], forks s, Some Undefined) (fun n => ([], n, None)) (fun _ => False)); [by apply gives_eof | done].
  - apply Forall_cons in Hl as [(Hc & H10 & Hlen) Hl']. rewrite text_cons in E. case_decide.
    + apply (gives_bind _ _ ([Prompt], forks s, Some Undefined) (fun n => ([], n, None)) (fun _ => False)); [by apply (gives_long l (text lines)) | done].
    + eapply gives_bind; [apply (gives_prompt l (text lines)); try done; lia|]. simpl. intros s' Hi. apply IH; [done | done | lia].
Qed.

Lemma gives_batch lines : forall n s, Forall (fun l => line l /\ (length (pieces l) < 50)%nat /\ Forall (fun w => length w < 50)%nat (words <$> pieces l)) lines ->
  input s = text lines -> (length lines < n)%nat ->
  gives (batch fork_result execvp_ok n) (script lines (forks s)) (fun _ => False) s.
Proof.
  induction lines as [|l lines IH]; intros [|n] s Hl E Hn; simpl in Hn; try lia; cbn [batch script].
  - unfold gives, wp. rewrite (bind_ret _ _ _ (-1) (set_buf [] s)) by (unfold getline; by rewrite E). simpl. by rewrite app_nil_r.
  - apply Forall_cons in Hl as [((Hc & H10 & Hlen) & Hp & Hw) Hl']. rewrite text_cons in E.
    apply gives_runs, (runs_getline l (text lines)); [done | done|]. split; [done|]. rewrite decide_False by lia.
    apply gives_runs, (runs_chop l); [done | done|]. intros s1 (Hi1 & Hf1 & Ht1) Hh. split; [done|].
    apply gives_runs, (runs_parsed2 l); [done | done | lia|]. intros ps ws s2 Hl2 Hws (Hi2 & Hf2 & Ht2). split; [done|].
    apply (few_words l ws (S (length l))) in Hws as [_ Hw2]; [|lia]. rewrite <- Hw2 in Hw |- *. replace (forks s) with (forks s2) by (by rewrite Hf2, Hf1).
    eapply gives_bind; [apply (gives_batch_commands ps _ _ _ s2 Hl2); by apply Forall_fmap in Hw|].
    simpl. intros s3 Hi3. apply IH; [done | by rewrite Hi3, Hi2, Hi1 | lia].
Qed.

(** C27: a session of the shell, over any input of lines without null bytes.  Interactively, every line is answered
    by a prompt, and its commands are those between semicolons, each with its words
    between white space, obeyed from left to right: [quit] ends the program, [cd] changes the directory, anything else is
    run by a child that executes exactly these words while the parent waits; a blank
    command, a line of 99 bytes or more and the end of the input have undefined behaviour, and nothing else does: no access
    leaves the line's buffer or the arrays of pointers.  From a file with fewer than 50 commands in a
    line and 50 words in a command, every command is run and the program ends. *)
Theorem shell_session files lines n s : Forall line lines -> (length lines < n)%nat ->
  (forall name, input s = text lines ->
     gives (main fork_result chdir_ok execvp_ok files n [name]) (session lines (forks s)) (fun _ => False) s) /\
  (forall name a args, (length a <= 17)%nat -> files (cs "./" ++ a) = Some (text lines) ->
     Forall (fun l => (length (pieces l) < 50)%nat /\ Forall (fun w => length w < 50)%nat (words <$> pieces l)) lines ->
     gives (main fork_result chdir_ok execvp_ok files n (name :: a :: args)) (script lines (forks s)) (fun _ => False) s).
Proof.
  intros Hl Hn. split; [intros name E; by apply gives_interactive|]. intros name a args Ha Hf Hw. unfold main.
  rewrite decide_False by lia. rewrite Hf. change (forks s) with (forks (set_input (text lines) s)).
  apply (gives_batch lines n (set_input (text lines) s)); [by apply Forall_and | done | done].
Qed.
End session.

(** Two lines, typed by a user; the second program cannot be executed. *)
Lemma shell_session_witness :
  let s := MkS [] 0 (text [cs "ls -l /; cd /tmp ;"; cs "  cat  x;quit"]) 0 [] in
  gives (main (fun n => if decide (n = 0%nat) then 7 else 0) (fun _ => false) (fun _ => false) (fun _ => None) 3 [cs "shell"])
    ([Prompt; Wait; Chdir (cs "/tmp"); Message "check the cd param"; Prompt; Message "execution failed"], 2%nat, Some Exits) (fun _ => False) s.
Proof.
  intros s. destruct (shell_session (fun n => if decide (n = 0%nat) then 7 else 0) (fun _ => false) (fun _ => false) (fun _ => None)
    [cs "ls -l /; cd /tmp ;"; cs "  cat  x;quit"] 3 s) as [H _].
  - repeat apply Forall_cons_2; try apply Forall_nil_2; (split_and!; [apply (bool_decide_unpack _); vm_compute; exact I | apply (bool_decide_unpack _); vm_compute; exact I | vm_compute; reflexivity]).
  - apply Nat.ltb_lt. reflexivity.
  - exact (H (cs "shell") eq_refl).
Defined.
End ProjShell.
